(* ===== verification/_CoqProject ===== *)
-Q . S2P
Prelude.v
Params.v
CString.v
Spinlock.v
ProcDefs.v
WaitQueue.v
Sched.v
SleepWakeup.v
Memory.v
Kalloc.v
PageTable.v
Vm.v
VmSpec.v
UserMem.v
UserAlloc.v
CopyUser.v
AddressSpace.v
Pipe.v
Dll.v
FsDefs.v
Seq.v
Sleeplock.v
Bio.v
BioInv.v
BioSpec.v
Log.v
Fs.v
File.v
ProcLife.v
Exec.v
Sysfile.v
LogCrash.v
LogSpec.v
FsExample.v
LogTheorems.v
Grep.v
Wc.v
Printf.v
FsPath.v
FsTx.v
FsAlloc.v
FsFile.v
FsBmap.v
FsRw.v
FsWrite.v
FsTheorems.v
FsInode.v
FsIget.v
FsDir.v
Device.v
Uart.v
Console.v
ConsoleTheorems.v
Virtio.v
VirtioSpec.v
VirtioTheorems.v
Csr.v
Syscall.v
Trap.v
TrapTheorems.v
SyscallTheorems.v
Asm.v
UserSys.v
Ulib.v
Sh.v
ShLex.v
ShParse.v
ShRound.v
ShTheorems.v
ShRun.v
ShRunTheorems.v
Umalloc.v
UmallocSpec.v
UmallocRun.v
UserProgs.v
UserStreams.v
Mkfs.v
MkfsLayout.v
MkfsTheorems.v
MkfsImage.v
