(* ===== verification/Prelude.v ===== *)
(** * A verification development for xv6-riscv with hashed wait queues

    The program is a small Unix for 64-bit RISC-V: a kernel in C and assembly
    (kernel/), user programs (user/) and the tool that builds the initial disk
    (mkfs/).  This version of xv6 replaces the scan of the process table in
    wakeup by wait queues in hash buckets (kernel/waitqueue.c).

    ** How code is modelled

    A C function is a [Definition] or [Fixpoint] of the same name.  Integers
    are [Z] with the wrap-around of their C type written out ([u8] to [u64],
    [i16], [i32]); bytes are integers below 256; physical memory is a map from
    addresses to bytes; blocks of the disk and C strings are lists of bytes.
    Pointers to elements of the kernel's static arrays (processes, buffers,
    inodes, files) are indices, and link-time addresses are variables.

    Kernel code runs in the monad [M] of this file: a call returns, panics,
    loops for ever, or gives up the CPU, and then its continuation waits for
    whatever state the scheduler resumes it in.  A component is generic in the
    state: the classes [HasHw], [HasProcs], [HasMem], [HasFs] and [HasDev] give
    it the part it works on and say that parts are independent, so the theorems
    of one component hold in every larger machine.  [wp] is the total weakest
    precondition: the call ends without a panic and without giving up the CPU.
    User programs are trees of system calls ([prog], UserSys.v) that crash where
    they read outside a buffer; what the kernel answers is an argument of their
    interpreters.

    ** Files

    Foundations.  Prelude (this file): the monad, its rules and tactics,
    integers and lists.  Params: param.h, memlayout.h and the macros of
    riscv.h.  CString: string.c.  Memory: loads and stores of 16 to 64 bits.

    Locks and processes.  Spinlock: spinlock.c, with [Contend], harts that
    contend for one lock, one access to it at a time.  ProcDefs: proc.h and waitqueue.h.
    WaitQueue: waitqueue.c.  Sched: scheduler, sched, yield, sleep, wakeup,
    wakeup_one, kkill and killed of proc.c.  SleepWakeup: sleep, wakeup and
    wakeup_one on any number of harts as an interleaving of their accesses to
    shared memory, in the orders of the code and of docs/design.md.
    ProcLife: allocproc, fork, exit, wait and growproc.  Exec: exec.c and the
    argument functions of syscall.c.

    Memory.  Kalloc: kalloc.c.  Vm: vm.c.  PageTable, VmSpec, UserMem,
    UserAlloc, CopyUser: the meaning of page tables and the specifications of
    vm.c against it.  AddressSpace: the theorems.

    Files and disk.  Pipe: pipe.c.  FsDefs: fs.h, buf.h, file.h.  Sleeplock:
    sleeplock.c.  Bio: bio.c, with Dll, BioInv, BioSpec.  Log: log.c, with
    LogCrash, LogSpec, LogTheorems.  Fs: fs.c, with FsTx (blocks inside a
    transaction), FsAlloc (balloc, bfree), FsFile and FsBmap (the blocks of a
    file), FsRw and FsWrite (readi, writei), FsInode, FsIget, FsDir, FsPath,
    FsTheorems.  File: file.c and pipealloc.  Sysfile: sysfile.c.  Seq: the
    sequential runs in which the file system is reasoned about.

    Devices, traps and boot.  Device: the drivers' variables and the control
    registers; a device is an [mmio], a function from register accesses to
    answers, with its data sheet as named laws.  Uart: uart.c, and printf and
    panic as programs.  Printf: what the kernel's and the users' printf write.
    Console: console.c.  Virtio: virtio_disk.c.  Csr: riscv.h, plic.c, start.c.
    Syscall: sysproc.c and syscall.c.  Trap: trap.c, forkret, the kernel page
    table and main.c.  Asm: swtch.S, trampoline.S, kernelvec.S, entry.S and the
    stubs of usys.pl.  Files named ...Spec or ...Theorems hold the proofs.

    User space.  Ulib: ulib.c.  Sh, ShLex, ShParse, ShRound, ShTheorems: the
    parser of sh.c.  ShRun, ShRunTheorems: its execution of commands.  Umalloc,
    UmallocSpec, UmallocRun: umalloc.c.  Grep, Wc, UserProgs: grep.c, wc.c and
    the other small programs.  UserStreams: cat, grep and wc on open files.

    The disk image.  Mkfs: mkfs.c, with MkfsLayout, MkfsTheorems, MkfsImage.

    ** How the parts fit together

    Virtio implements the one-step disk that Bio assumes ([Bio.virtio_disk_rw]);
    Bio promises Log and Fs blocks that read as an abstract function [V]
    ([bst]); Log makes a group of block writes atomic and durable; FsTx gives
    fs.c transactions over [V], and on these files are lists of bytes and
    directories finite maps.  mkfs builds a disk on which the invariants of
    that stack hold, and MkfsImage runs fsinit on it.  Sleep-locks, pipes, the
    console and the driver sleep and wake through Sched, whose step-level
    behaviour is SleepWakeup.  A trap goes through Asm ([uservec]), Trap ([usertrap]),
    Syscall ([syscall]) and one handler, and returns through [userret].  The
    shell's programs are trees of the calls that usys.pl's stubs make.

    ** What the theorems show

    - Sleep and wakeup: no wakeup is lost in any interleaving when the
      signaller takes the bucket lock, or when sleep enqueues before it releases
      the condition lock ([no_lost_wakeup]; with wakeup_one, a thread that is
      awake may have to pass it on); the order that the code has, with the
      unlocked test of pipe.c, does lose one ([pipe_loses_wakeup]).  One sleep
      through wakeup, scheduler and return ([sleep_wakeup_resume]); the bucket scan equals the
      scan of the whole table ([wakeup_refines_scan]); wakeup_one wakes one;
      between acquire and release there is one hart, holding is true there and
      the panics of spinlock.c do not fire ([spinlock_mutual_exclusion]).
    - Storage: crash atomicity of a transaction for every prefix of its writes
      ([end_op_atomic]) and idempotent recovery; the disk driver refines the
      disk ([virtio_rw_refines_disk]); writei, readi, dirlink, dirlookup, iget,
      iput and balloc against files, maps and counts (a write takes its bytes
      from a kernel buffer or from mapped user memory); the reservation of a
      write fits, and a full log panics for want of buffers; mkfs establishes
      the invariants ([mkfs_builds]) and the kernel's fsinit accepts the disk it
      wrote ([first_boot]).
    - Memory: fork copies an address space or nothing ([uvmcopy_copies]),
      growth is all or nothing, copyout and copyin agree, kalloc and kfree.
    - Traps: a system call and a preemption end to end ([usertrap_syscall],
      [kerneltrap_preempts]); the trampoline and swtch keep the registers
      ([trampoline_roundtrip], [swtch_roundtrip]); lazy sbrk.
    - Console (^P and its process list included), pipes and path names against
      queues of bytes and components.
    - User programs: the shell parses what it prints, always terminates and
      connects programs as the command says ([parse_print], [parsecmd_total],
      [runcmd_plumbing]); malloc and free are sound for every client
      that asks for less than 2^31 - 31 bytes at a time ([malloc_free_sound]); the regular expressions of grep and the text
      filters ([match_iff_occurs], [text_filters]).

    ** Bounds and fuel

    Loops whose number of rounds the data bounds are [Fixpoint]s with fuel
    that the data supplies: a queue has at most NPROC entries, the LRU list
    NBUF, a copy at most one round per byte, a format or path one per
    character, the parser four units per character of the line (shown enough by
    [parsecmd_total]), malloc and free three per operation the client
    has performed and five ([malloc_free_sound]).  The theorems show that these
    fuels do not run out.  Loops that wait for something else are bounded by an argument: [patience]
    (rounds of a sleep loop), [polls] (reads of a status register), [t_intrs]
    (characters or completions of one interrupt), [fuel] of the pipe, of the
    readers in UserProgs and of init; theorems about them hold for every bound
    that is large enough for the data, or end at the first sleep.

    ** Not modelled

    - usertests.c, grind.c, forktest.c, stressfs.c, logstress.c,
      stress_wakeup.c, dorphan.c, forphan.c and bench_ipc.c: programs that test
      or load the system and state nothing of its behaviour.
    - defs.h and types.h (prototypes and type names), the linker scripts, the
      Makefile and the Python scripts.  usys.pl is modelled by what it prints.
    - Concurrency inside the file system: Seq runs one call at a time with free
      locks; interleavings are modelled for spinlocks and for sleep and wakeup.
    - Weak memory and the TLB: memory accesses are in program order, a fence
      does nothing, and the MMU is a function of satp and the address.
    - Hardware (16550, virtio device, PLIC, MMU) is an argument with named laws.
    - What some paths print (messages of log.c and fs.c, of mkfs), and the
      usage message and the opening of the image file of mkfs. *)

From Stdlib Require Export ZArith Lia.
From stdpp Require Export base list gmap strings numbers.

(** ** The kernel's calling convention as a monad

    A kernel function runs on one hart and transforms a state [S].  It may
    return, call [panic] (printf.c, which never returns), loop for ever (on a
    spinlock that the state says is held, or out of loop fuel), or give up the
    CPU with [swtch].  A call that gives up the CPU is suspended: [Switch s k]
    keeps the state at that moment, which other threads see, and the rest of
    the call, which continues from whatever state the scheduler resumes it in.
    The result of a call is thus a tree with one node per [swtch]. *)

Inductive outcome (S A : Type) : Type :=
| Ok (a : A) (s : S)
| Panic (msg : string)
| Spin (s : S)
| Switch (s : S) (k : S → outcome S A).
Arguments Ok {S A} _ _.
Arguments Panic {S A} _.
Arguments Spin {S A} _.
Arguments Switch {S A} _ _.

Definition M (S A : Type) : Type := S → outcome S A.

Definition ret {S A} (a : A) : M S A := λ s, Ok a s.

Fixpoint obind {S A B} (o : outcome S A) (k : A → M S B) : outcome S B :=
  match o with
  | Ok a s => k a s
  | Panic msg => Panic msg
  | Spin s => Spin s
  | Switch s r => Switch s (λ s', obind (r s') k)
  end.

Definition bind {S A B} (m : M S A) (k : A → M S B) : M S B := λ s, obind (m s) k.

(* swtch() to the scheduler *)
Definition switch {S} : M S unit := λ s, Switch s (λ s', Ok tt s').

Definition panic {S A} (msg : string) : M S A := λ _, Panic msg.
Definition get {S} : M S S := λ s, Ok s s.
Definition gets {S A} (f : S → A) : M S A := λ s, Ok (f s) s.
Definition modify {S} (f : S → S) : M S unit := λ s, Ok tt (f s).

Declare Scope xv6_scope.
Delimit Scope xv6_scope with xv6.
Notation "x <- m ;; k" := (bind m (λ x, k))
  (at level 100, m at next level, right associativity) : xv6_scope.
Notation "m ;; k" := (bind m (λ _, k))
  (at level 100, right associativity) : xv6_scope.
Notation "'when' b 'do' m" := (if b then m else ret tt)
  (at level 99, b at level 98, m at level 98) : xv6_scope.
Open Scope xv6_scope.
Open Scope Z_scope.

(** C loops.  [for_loop n i body] runs [body i], [body (i+1)], ... for [n]
    iterations; a body that answers [Some r] leaves the loop with [r] (a
    [break] or a [return] inside the loop). *)

Fixpoint for_loop {S R} (n : nat) (i : Z) (body : Z → M S (option R)) : M S (option R) :=
  match n with
  | O => ret None
  | Datatypes.S n' =>
      r <- body i ;;
      match r with
      | Some r => ret (Some r)
      | None => for_loop n' (i + 1) body
      end
  end.

(** The same loop when the body never leaves early. *)

Fixpoint for_each {S} (n : nat) (i : Z) (body : Z → M S unit) : M S unit :=
  match n with
  | O => ret tt
  | Datatypes.S n' => body i ;; for_each n' (i + 1) body
  end.

(** ** Total correctness

    [wp m s Q]: from [s] the call [m] returns (no panic, no spinning, no
    [swtch]) and [Q] holds of its result and final state. *)

Definition wp {S A} (m : M S A) (s : S) (Q : A → S → Prop) : Prop :=
  match m s with Ok a s' => Q a s' | _ => False end.

Lemma wp_ok {S A} (m : M S A) s Q a s' : m s = Ok a s' → Q a s' → wp m s Q.
Proof. unfold wp. by intros ->. Qed.

Lemma wp_elim {S A} (m : M S A) s Q : wp m s Q → ∃ a s', m s = Ok a s' ∧ Q a s'.
Proof. unfold wp. destruct (m s); naive_solver. Qed.

Lemma wp_mono {S A} (m : M S A) s (Q R : A → S → Prop) :
  wp m s Q → (∀ a s', Q a s' → R a s') → wp m s R.
Proof. unfold wp. destruct (m s); naive_solver. Qed.

Lemma wp_ret {S A} (a : A) (s : S) Q : Q a s → wp (ret a) s Q.
Proof. done. Qed.

Lemma wp_bind {S A B} (m : M S A) (k : A → M S B) s Q :
  wp m s (λ a s', wp (k a) s' Q) → wp (bind m k) s Q.
Proof. unfold wp, bind. by destruct (m s). Qed.

Lemma wp_assoc {S A B C} (m : M S A) (k : A → M S B) (r : B → M S C) s Q :
  wp (bind (bind m k) r) s Q → wp (x <- m ;; bind (k x) r) s Q.
Proof. unfold wp, bind. by destruct (m s). Qed.

Lemma wp_gets {S A} (f : S → A) s Q : Q (f s) s → wp (gets f) s Q.
Proof. done. Qed.

Lemma wp_get {S} (s : S) Q : Q s s → wp get s Q.
Proof. done. Qed.

Lemma wp_modify {S} (f : S → S) s Q : Q tt (f s) → wp (modify f) s Q.
Proof. done. Qed.

Lemma bind_ok {S A B} (m : M S A) (k : A → M S B) s a s' :
  m s = Ok a s' → bind m k s = k a s'.
Proof. unfold bind. by intros ->. Qed.

(** Running up to the first [swtch]: [P] holds of the state at that moment and
    of the suspended rest. *)

Definition wps {S A} (m : M S A) (s : S) (P : S → M S A → Prop) : Prop :=
  match m s with Switch s' k => P s' k | _ => False end.

Lemma wps_elim {S A} (m : M S A) s P : wps m s P → ∃ s' k, m s = Switch s' k ∧ P s' k.
Proof. unfold wps. destruct (m s); naive_solver. Qed.

Lemma wps_seq {S A B} (m : M S A) (k : A → M S B) s P :
  wp m s (λ a s', wps (k a) s' P) → wps (bind m k) s P.
Proof. unfold wp, wps, bind. by destruct (m s). Qed.

Lemma wps_bind {S A B} (m : M S A) (k : A → M S B) s P :
  wps m s (λ s' r, P s' (bind r k)) → wps (bind m k) s P.
Proof. unfold wps, bind. by destruct (m s). Qed.

(** Running through every [swtch]: each time the CPU is given up [G] holds of
    the state, and the call may be resumed in any state that [R] allows. *)

Fixpoint owp {S A} (G : S → Prop) (R : S → S → Prop) (o : outcome S A) (Q : A → S → Prop) : Prop :=
  match o with
  | Ok a s => Q a s
  | Switch s k => G s ∧ ∀ s', R s s' → owp G R (k s') Q
  | _ => False
  end.

Definition wpr {S A} G R (m : M S A) (s : S) (Q : A → S → Prop) : Prop := owp G R (m s) Q.

Lemma owp_mono {S A} G R (o : outcome S A) (Q Q' : A → S → Prop) :
  owp G R o Q → (∀ a s, Q a s → Q' a s) → owp G R o Q'.
Proof. induction o as [| | |s k IH]; simpl; naive_solver. Qed.

Lemma owp_bind {S A B} G R (o : outcome S A) (k : A → M S B) Q :
  owp G R o (λ a s, wpr G R (k a) s Q) → owp G R (obind o k) Q.
Proof. induction o as [| | |s r IH]; simpl; naive_solver. Qed.

Lemma wpr_bind {S A B} G R (m : M S A) (k : A → M S B) s Q :
  wpr G R m s (λ a s', wpr G R (k a) s' Q) → wpr G R (bind m k) s Q.
Proof. apply owp_bind. Qed.

Lemma wpr_mono {S A} G R (m : M S A) s (Q Q' : A → S → Prop) :
  wpr G R m s Q → (∀ a s, Q a s → Q' a s) → wpr G R m s Q'.
Proof. apply owp_mono. Qed.

Lemma wp_wpr {S A} G R (m : M S A) s Q : wp m s Q → wpr G R m s Q.
Proof. unfold wp, wpr. by destruct (m s). Qed.

(** Rule for [for_loop]: [I i s] holds on entry to iteration [i]. *)

Lemma wp_for_loop {S R} (n : nat) (I : Z → S → Prop) (Q : option R → S → Prop)
    (body : Z → M S (option R)) i s :
  I i s →
  (∀ j s, i ≤ j < i + Z.of_nat n → I j s →
     wp (body j) s (λ r s', match r with Some _ => Q r s' | None => I (j + 1) s' end)) →
  (∀ s, I (i + Z.of_nat n) s → Q None s) →
  wp (for_loop n i body) s Q.
Proof.
  revert i s. induction n as [|n IH]; intros i s HI Hb HQ; simpl.
  - apply wp_ret, HQ. by rewrite Z.add_0_r.
  - apply wp_bind. eapply wp_mono; [apply Hb; [lia|done]|].
    intros [r|] s' H; [by apply wp_ret|].
    apply IH; [done| |].
    + intros j s'' Hj. apply Hb. lia.
    + intros s''. replace (i + 1 + Z.of_nat n) with (i + Z.of_nat (Datatypes.S n)) by lia.
      apply HQ.
Qed.

Lemma wp_for_each {S} (n : nat) (I : Z → S → Prop) (body : Z → M S unit) i s :
  I i s →
  (∀ j s, i ≤ j < i + Z.of_nat n → I j s → wp (body j) s (λ _ s', I (j + 1) s')) →
  wp (for_each n i body) s (λ _ s', I (i + Z.of_nat n) s').
Proof.
  revert i s. induction n as [|n IH]; intros i s HI Hb; simpl.
  - apply wp_ret. by rewrite Z.add_0_r.
  - apply wp_bind. eapply wp_mono; [apply Hb; [lia|done]|].
    intros [] s' H. eapply wp_mono; [apply IH; [done|]|].
    + intros j s'' Hj. apply Hb. lia.
    + simpl. intros [] s''. by replace (i + 1 + Z.of_nat n) with (i + Z.of_nat (Datatypes.S n)) by lia.
Qed.

(** One step of symbolic execution; [wp_go] repeats it. *)

Ltac wp_step :=
  lazymatch goal with
  | |- wp (bind _ _) _ _ => apply wp_bind
  | |- wps (bind _ _) _ _ => apply wps_seq
  | |- wp (ret _) _ _ => apply wp_ret
  | |- wp get _ _ => apply wp_get
  | |- wp (gets _) _ _ => apply wp_gets
  | |- wp (modify _) _ _ => apply wp_modify
  end; cbv beta.
Ltac wp_go := repeat wp_step.

(** ** Machine integers: C's fixed-width types as [Z] with explicit wrap-around *)

Definition wrap (w z : Z) : Z := z mod 2 ^ w.
Definition u8 : Z → Z := wrap 8.
Definition u16 : Z → Z := wrap 16.
Definition u32 : Z → Z := wrap 32.
Definition u64 : Z → Z := wrap 64.
Definition i16 (z : Z) : Z := (z + 2 ^ 15) mod 2 ^ 16 - 2 ^ 15.
Definition i32 (z : Z) : Z := (z + 2 ^ 31) mod 2 ^ 32 - 2 ^ 31.

Lemma wrap_bound w z : 0 ≤ w → 0 ≤ wrap w z < 2 ^ w.
Proof. intros. apply Z.mod_pos_bound. lia. Qed.

Lemma wrap_small w z : 0 ≤ z < 2 ^ w → wrap w z = z.
Proof. apply Z.mod_small. Qed.

Lemma i32_small z : - 2 ^ 31 ≤ z < 2 ^ 31 → i32 z = z.
Proof. intros. unfold i32. rewrite Z.mod_small by lia. lia. Qed.

Create HintDb xv6.
