(* ===== verification/Params.v ===== *)
(** * Constants and address arithmetic

    The macros of kernel/param.h, kernel/memlayout.h, kernel/riscv.h and
    kernel/fs.h that the other files use.  Addresses are [uint64] values kept
    in [Z]; the macros wrap where the C expression does. *)

From S2P Require Import Prelude.

(** ** kernel/param.h *)

Definition NPROC : Z := 64.
Definition NCPU : Z := 8.
Definition NOFILE : Z := 16.
Definition NFILE : Z := 100.
Definition NINODE : Z := 50.
Definition NDEV : Z := 10.
Definition ROOTDEV : Z := 1.
Definition MAXARG : Z := 32.
Definition MAXOPBLOCKS : Z := 10.
Definition LOGBLOCKS : Z := MAXOPBLOCKS * 3.
Definition NBUF : Z := MAXOPBLOCKS * 3.
Definition FSSIZE : Z := 2000.
Definition MAXPATH : Z := 128.
Definition USERSTACK : Z := 1.

(** ** kernel/riscv.h: pages and Sv39 page-table entries *)

Definition PGSIZE : Z := 4096.
Definition PGSHIFT : Z := 12.

Definition PGROUNDUP (sz : Z) : Z := Z.land (u64 (sz + PGSIZE - 1)) (u64 (Z.lnot (PGSIZE - 1))).
Definition PGROUNDDOWN (a : Z) : Z := Z.land a (u64 (Z.lnot (PGSIZE - 1))).

Definition PTE_V : Z := Z.shiftl 1 0.
Definition PTE_R : Z := Z.shiftl 1 1.
Definition PTE_W : Z := Z.shiftl 1 2.
Definition PTE_X : Z := Z.shiftl 1 3.
Definition PTE_U : Z := Z.shiftl 1 4.

Definition PA2PTE (pa : Z) : Z := u64 (Z.shiftl (Z.shiftr pa 12) 10).
Definition PTE2PA (pte : Z) : Z := u64 (Z.shiftl (Z.shiftr pte 10) 12).
Definition PTE_FLAGS (pte : Z) : Z := Z.land pte 0x3FF.

Definition PXMASK : Z := 0x1FF.
Definition PXSHIFT (level : Z) : Z := PGSHIFT + 9 * level.
Definition PX (level va : Z) : Z := Z.land (Z.shiftr va (PXSHIFT level)) PXMASK.

Definition MAXVA : Z := Z.shiftl 1 (9 + 9 + 9 + 12 - 1).

(** ** kernel/memlayout.h *)

Definition UART0 : Z := 0x10000000.
Definition VIRTIO0 : Z := 0x10001000.
Definition PLIC : Z := 0x0c000000.
Definition KERNBASE : Z := 0x80000000.
Definition PHYSTOP : Z := KERNBASE + 128 * 1024 * 1024.
Definition TRAMPOLINE : Z := MAXVA - PGSIZE.
Definition KSTACK (p : Z) : Z := TRAMPOLINE - (p + 1) * 2 * PGSIZE.
Definition TRAPFRAME : Z := TRAMPOLINE - PGSIZE.

(** ** Arithmetic of the macros *)

Lemma u64_mask : u64 (Z.lnot (PGSIZE - 1)) = (2 ^ 52 - 1) * 4096.
Proof. reflexivity. Qed.

Lemma land_page_mask a : 0 ≤ a < 2 ^ 64 → Z.land a (u64 (Z.lnot (PGSIZE - 1))) = a / 4096 * 4096.
Proof.
  intros Ha. rewrite u64_mask.
  change ((2 ^ 52 - 1) * 4096) with (Z.shiftl (Z.ones 52) 12).
  change 4096 with (2 ^ 12). rewrite <- Z.shiftr_div_pow2, <- Z.shiftl_mul_pow2 by lia.
  apply Z.bits_inj'. intros n Hn.
  rewrite Z.land_spec, !Z.shiftl_spec by lia.
  destruct (decide (n < 12)).
  - rewrite !(Z.testbit_neg_r _ (n - 12)) by lia. apply andb_false_r.
  - rewrite Z.shiftr_spec by lia. replace (n - 12 + 12) with n by lia.
    destruct (decide (n < 64)).
    + rewrite Z.ones_spec_low by lia. apply andb_true_r.
    + rewrite Z.ones_spec_high by lia. rewrite andb_false_r. symmetry.
      destruct (decide (a = 0)) as [->|]; [apply Z.bits_0|].
      apply Z.bits_above_log2; [lia|].
      assert (Z.log2 a < 64) by (apply Z.log2_lt_pow2; lia). lia.
Qed.

Lemma PGROUNDDOWN_spec a : 0 ≤ a < 2 ^ 64 → PGROUNDDOWN a = a / 4096 * 4096.
Proof. apply land_page_mask. Qed.

Lemma PGROUNDUP_spec a : 0 ≤ a ≤ 2 ^ 64 - PGSIZE → PGROUNDUP a = (a + 4095) / 4096 * 4096.
Proof.
  unfold PGSIZE. intros Ha. unfold PGROUNDUP. rewrite land_page_mask.
  - unfold u64. rewrite wrap_small by (unfold PGSIZE; lia). unfold PGSIZE.
    by replace (a + 4096 - 1) with (a + 4095) by lia.
  - unfold u64. by apply wrap_bound.
Qed.

(** Near the top of the address space [PGROUNDUP] wraps to zero. *)

Lemma PGROUNDUP_wraps : PGROUNDUP (2 ^ 64 - 1) = 0.
Proof. reflexivity. Qed.

Lemma PX_spec level va : 0 ≤ level → PX level va = (va / 2 ^ (12 + 9 * level)) mod 512.
Proof.
  intros. unfold PX, PXMASK, PXSHIFT, PGSHIFT.
  change 0x1FF with (Z.ones 9). rewrite Z.land_ones by lia.
  by rewrite Z.shiftr_div_pow2 by lia.
Qed.

Lemma PX_bound level va : 0 ≤ level → 0 ≤ PX level va < 512.
Proof. intros. rewrite PX_spec by done. apply Z.mod_pos_bound. lia. Qed.

(** The three indices and the page offset determine an address below [MAXVA]. *)

Lemma PX_decompose va : 0 ≤ va < MAXVA →
  va = PX 2 va * 2 ^ 30 + PX 1 va * 2 ^ 21 + PX 0 va * 2 ^ 12 + va mod 4096.
Proof.
  intros Hva. change MAXVA with (2 ^ 38) in Hva. rewrite !PX_spec by lia.
  change (2 ^ (12 + 9 * 2)) with (4096 * 512 * 512). change (2 ^ (12 + 9 * 1)) with (4096 * 512).
  change (2 ^ (12 + 9 * 0)) with 4096. rewrite <- !Z.div_div by lia.
  pose proof (Z.div_mod va 4096 ltac:(lia)).
  pose proof (Z.div_mod (va / 4096) 512 ltac:(lia)).
  pose proof (Z.div_mod (va / 4096 / 512) 512 ltac:(lia)).
  rewrite (Z.mod_small (va / 4096 / 512 / 512)) by
    (rewrite !Z.div_div by lia; split; [apply Z.div_pos; lia|apply Z.div_lt_upper_bound; lia]).
  lia.
Qed.

Lemma land_shift_low q k f : 0 ≤ k → 0 ≤ f < 2 ^ k → Z.land (q * 2 ^ k) f = 0.
Proof.
  intros Hk Hf. rewrite <- Z.shiftl_mul_pow2 by lia. apply Z.bits_inj'. intros n Hn.
  rewrite Z.land_spec, Z.bits_0. destruct (decide (n < k)).
  - by rewrite Z.shiftl_spec_low by lia.
  - destruct (decide (f = 0)) as [->|]; [rewrite Z.bits_0; apply andb_false_r|].
    rewrite (Z.bits_above_log2 f); [apply andb_false_r|lia|].
    assert (Z.log2 f < k) by (apply Z.log2_lt_pow2; lia). lia.
Qed.

Lemma lor_shift_low q k f : 0 ≤ k → 0 ≤ f < 2 ^ k → Z.lor (q * 2 ^ k) f = q * 2 ^ k + f.
Proof.
  intros. pose proof (land_shift_low q k f ltac:(done) ltac:(done)).
  by rewrite <- Z.lxor_lor, Z.add_nocarry_lxor.
Qed.

(** A page-table entry remembers the page it was built from. *)

Lemma PTE2PA_PA2PTE pa flags :
  0 ≤ pa < 2 ^ 56 → pa mod PGSIZE = 0 → 0 ≤ flags < 1024 →
  PTE2PA (Z.lor (PA2PTE pa) flags) = pa.
Proof.
  intros Hpa Hal Hfl. unfold PTE2PA, PA2PTE, u64, PGSIZE in *.
  rewrite !Z.shiftr_div_pow2, !Z.shiftl_mul_pow2 by lia.
  assert (Hq : pa = 4096 * (pa / 4096)) by (pose proof (Z.div_mod pa 4096 ltac:(lia)); lia).
  change (2 ^ 12) with 4096. set (q := pa / 4096) in *.
  rewrite (wrap_small 64 (q * 2 ^ 10)) by lia.
  rewrite lor_shift_low, Z.div_add_l, (Z.div_small flags) by lia.
  rewrite wrap_small by lia. lia.
Qed.

Lemma PTE_FLAGS_PA2PTE pa flags :
  0 ≤ pa < 2 ^ 56 → 0 ≤ flags < 1024 → PTE_FLAGS (Z.lor (PA2PTE pa) flags) = flags.
Proof.
  intros Hpa Hfl. unfold PTE_FLAGS, PA2PTE, u64.
  rewrite Z.shiftr_div_pow2, Z.shiftl_mul_pow2 by lia.
  assert (0 ≤ pa / 2 ^ 12 < 2 ^ 44) by (split; [apply Z.div_pos|apply Z.div_lt_upper_bound]; lia).
  rewrite wrap_small by lia. change 0x3FF with (Z.ones 10).
  rewrite lor_shift_low, Z.land_ones by lia.
  rewrite Z.add_comm, Z.mod_add by lia. by apply Z.mod_small.
Qed.
