(* ===== verification/CString.v ===== *)
(** * Byte memory and kernel/string.c

    Memory is a total map from addresses to bytes.  Every loop of string.c is
    a [Fixpoint] that performs the same reads and writes in the same order, so
    that overlap between source and destination is visible in the model.
    [char] is unsigned on RISC-V. *)

From S2P Require Import Prelude.

Definition mem : Type := Z → Z.

Definition upd (m : mem) (a v : Z) : mem := λ x, if decide (x = a) then v else m x.

Lemma upd_eq m a v : upd m a v a = v.
Proof. unfold upd. by rewrite decide_True. Qed.
Lemma upd_ne m a v x : x ≠ a → upd m a v x = m x.
Proof. intros. unfold upd. by rewrite decide_False. Qed.
Lemma upd_spec m a v x : upd m a v x = if decide (x = a) then v else m x.
Proof. done. Qed.

(** ** memset *)

Fixpoint memset_loop (m : mem) (cdst c i : Z) (k : nat) : mem :=
  match k with
  | O => m
  | S k => memset_loop (upd m (cdst + i) (u8 c)) cdst c (i + 1) k
  end.

Definition memset (m : mem) (dst c n : Z) : mem := memset_loop m dst c 0 (Z.to_nat (u32 n)).

(** ** memcmp *)

Fixpoint memcmp_loop (m : mem) (s1 s2 : Z) (n : nat) : Z :=
  match n with
  | O => 0
  | S n => if decide (m s1 = m s2) then memcmp_loop m (s1 + 1) (s2 + 1) n else m s1 - m s2
  end.

Definition memcmp (m : mem) (v1 v2 n : Z) : Z := memcmp_loop m v1 v2 (Z.to_nat (u32 n)).

(** ** memmove and memcpy *)

(* while(n-- > 0) *--d = *--s; *)
Fixpoint memmove_down (m : mem) (d s : Z) (n : nat) : mem :=
  match n with
  | O => m
  | S n => memmove_down (upd m (d - 1) (m (s - 1))) (d - 1) (s - 1) n
  end.

(* while(n-- > 0) *d++ = *s++; *)
Fixpoint memmove_up (m : mem) (d s : Z) (n : nat) : mem :=
  match n with
  | O => m
  | S n => memmove_up (upd m d (m s)) (d + 1) (s + 1) n
  end.

Definition memmove (m : mem) (dst src n : Z) : mem :=
  let n := u32 n in
  if decide (n = 0) then m
  else if decide (src < dst ∧ src + n > dst)
  then memmove_down m (dst + n) (src + n) (Z.to_nat n)
  else memmove_up m dst src (Z.to_nat n).

Definition memcpy (m : mem) (dst src n : Z) : mem := memmove m dst src n.

(** ** strncmp *)

Fixpoint strncmp_loop (m : mem) (p q : Z) (n : nat) : Z :=
  match n with
  | O => 0
  | S n' =>
      if decide (m p ≠ 0 ∧ m p = m q) then strncmp_loop m (p + 1) (q + 1) n'
      else m p - m q
  end.

Definition strncmp (m : mem) (p q n : Z) : Z := strncmp_loop m p q (Z.to_nat (u32 n)).

(** ** strncpy and safestrcpy *)

(* while(n-- > 0) *s++ = 0; *)
Fixpoint strncpy_pad (m : mem) (s : Z) (n : nat) : mem :=
  match n with
  | O => m
  | S n => strncpy_pad (upd m s 0) (s + 1) n
  end.

(* while(n-- > 0 && ( *s++ = *t++) != 0) ; *)
Fixpoint strncpy_loop (m : mem) (s t : Z) (n : nat) : mem :=
  match n with
  | O => m
  | S n =>
      let c := m t in
      let m := upd m s c in
      if decide (c = 0) then strncpy_pad m (s + 1) n else strncpy_loop m (s + 1) (t + 1) n
  end.

Definition strncpy (m : mem) (s t n : Z) : mem := strncpy_loop m s t (Z.to_nat n).

(* while(--n > 0 && ( *s++ = *t++) != 0) ;  *s = 0;  with [n] iterations left *)
Fixpoint safestrcpy_loop (m : mem) (s t : Z) (n : nat) : mem :=
  match n with
  | O => upd m s 0
  | S n =>
      let c := m t in
      let m := upd m s c in
      if decide (c = 0) then upd m (s + 1) 0 else safestrcpy_loop m (s + 1) (t + 1) n
  end.

Definition safestrcpy (m : mem) (s t n : Z) : mem :=
  if decide (n ≤ 0) then m else safestrcpy_loop m s t (Z.to_nat (n - 1)).

(** ** strlen

    The loop ends at the first NUL; [fuel] bounds how far it looks. *)

Fixpoint strlen_loop (m : mem) (s n : Z) (fuel : nat) : option Z :=
  match fuel with
  | O => None
  | S fuel => if decide (m (s + n) = 0) then Some n else strlen_loop m s (n + 1) fuel
  end.

Definition strlen (fuel : nat) (m : mem) (s : Z) : option Z := strlen_loop m s 0 fuel.

(** ** What the functions compute

    A C string of at most [n] bytes is compared through its NUL-padded image:
    [padded m t i] is byte [i] of the string at [t], or 0 after its end. *)

Fixpoint padded (m : mem) (t : Z) (i : nat) : Z :=
  match i with
  | O => m t
  | S i => if decide (m t = 0) then 0 else padded m (t + 1) i
  end.

(** Case analysis on the [decide]s of a goal about pointwise updates. *)
Ltac mem_cases :=
  repeat (rewrite upd_spec || case_decide); try done; try lia;
  try (f_equal; lia); try congruence.

Lemma memset_loop_spec m d c i k a :
  memset_loop m d c i k a = if decide (d + i ≤ a < d + i + Z.of_nat k) then u8 c else m a.
Proof.
  revert m i. induction k as [|k IH]; intros m i; cbn [memset_loop].
  - mem_cases.
  - rewrite IH. mem_cases.
Qed.

(** [memset] writes [c] to exactly the [n] bytes from [dst]. *)
Lemma memset_spec m dst c n a : 0 ≤ n < 2 ^ 32 →
  memset m dst c n a = if decide (dst ≤ a < dst + n) then u8 c else m a.
Proof.
  intros. unfold memset, u32. rewrite memset_loop_spec, wrap_small by done. mem_cases.
Qed.

Lemma memmove_up_spec m d s n a :
  (d ≤ s ∨ s + Z.of_nat n ≤ d) →
  memmove_up m d s n a = if decide (d ≤ a < d + Z.of_nat n) then m (s + (a - d)) else m a.
Proof.
  revert m d s. induction n as [|n IH]; intros m d s Hov; cbn [memmove_up].
  - mem_cases.
  - rewrite IH by lia. mem_cases.
Qed.

Lemma memmove_down_spec m d s n a :
  s ≤ d →
  memmove_down m d s n a = if decide (d - Z.of_nat n ≤ a < d) then m (s + (a - d)) else m a.
Proof.
  revert m d s. induction n as [|n IH]; intros m d s Hov; cbn [memmove_down].
  - mem_cases.
  - rewrite IH by lia. mem_cases.
Qed.

Lemma memmove_spec m dst src n a : 0 ≤ n < 2 ^ 32 →
  memmove m dst src n a = if decide (dst ≤ a < dst + n) then m (src + (a - dst)) else m a.
Proof.
  intros Hn. unfold memmove, u32. rewrite wrap_small by done.
  case_decide; [subst; mem_cases|]. case_decide.
  - rewrite memmove_down_spec by lia. mem_cases.
  - rewrite memmove_up_spec by lia. mem_cases.
Qed.

Lemma padded_upd m t i a v : (a < t ∨ t + Z.of_nat i < a) → padded (upd m a v) t i = padded m t i.
Proof.
  revert t. induction i as [|i IH]; intros t Ha; cbn [padded];
    rewrite upd_ne by lia; [done|]. by rewrite IH by lia.
Qed.

Lemma memcmp_loop_eq m p q n : memcmp_loop m p q n = 0 ↔
  ∀ i, 0 ≤ i < Z.of_nat n → m (p + i) = m (q + i).
Proof.
  revert p q. induction n as [|n IH]; intros p q; cbn [memcmp_loop].
  - split; [lia|done].
  - case_decide as E.
    + rewrite IH. split; intros H i Hi.
      * destruct (decide (i = 0)) as [->|]; [by rewrite !Z.add_0_r|].
        replace (p + i) with (p + 1 + (i - 1)) by lia.
        replace (q + i) with (q + 1 + (i - 1)) by lia. apply H. lia.
      * rewrite <- !Z.add_assoc. apply H. lia.
    + split; [lia|]. intros H. specialize (H 0 ltac:(lia)). rewrite !Z.add_0_r in H. done.
Qed.

Lemma strncmp_loop_eq m p q n : strncmp_loop m p q n = 0 ↔
  ∀ i, (i < n)%nat → padded m p i = padded m q i.
Proof.
  revert p q. induction n as [|n IH]; intros p q; cbn [strncmp_loop].
  - split; [lia|done].
  - case_decide as E.
    + destruct E as [E1 E2]. rewrite IH. split; intros H i Hi.
      * destruct i as [|i]; cbn [padded]; [done|].
        rewrite !decide_False by congruence. apply H. lia.
      * specialize (H (S i) ltac:(lia)). cbn [padded] in H.
        by rewrite !decide_False in H by congruence.
    + split.
      * intros H i Hi. assert (m p = m q) as Hpq by lia.
        assert (m p = 0) as E0 by (destruct (decide (m p = 0)); [done|naive_solver]).
        rewrite E0 in Hpq. destruct i; cbn [padded]; [congruence|].
        by rewrite !decide_True by congruence.
      * intros H. specialize (H 0%nat ltac:(lia)). cbn [padded] in H. lia.
Qed.

Lemma strncpy_pad_spec m s n a :
  strncpy_pad m s n a = if decide (s ≤ a < s + Z.of_nat n) then 0 else m a.
Proof.
  revert m s. induction n as [|n IH]; intros m s; cbn [strncpy_pad].
  - mem_cases.
  - rewrite IH. mem_cases.
Qed.

Lemma padded_nul m t i : m t = 0 → padded m t i = 0.
Proof. intros H. destruct i; cbn [padded]; [done|]. by rewrite decide_True. Qed.

Lemma padded_S m t i : m t ≠ 0 → padded m t (S i) = padded m (t + 1) i.
Proof. intros H. cbn [padded]. by rewrite decide_False. Qed.

(** [strncpy] stores the NUL-padded image of the source string in exactly the
    [n] bytes from [s], when the two buffers do not overlap. *)
Lemma strncpy_loop_spec m s t n a :
  (s + Z.of_nat n ≤ t ∨ t + Z.of_nat n ≤ s) →
  strncpy_loop m s t n a =
    if decide (s ≤ a < s + Z.of_nat n) then padded m t (Z.to_nat (a - s)) else m a.
Proof.
  revert m s t. induction n as [|n IH]; intros m s t Hov; cbn [strncpy_loop]; cbv zeta.
  - mem_cases.
  - case_decide as E.
    + rewrite strncpy_pad_spec. mem_cases; by rewrite padded_nul.
    + rewrite IH by lia. repeat case_decide; try lia.
      * replace (Z.to_nat (a - s)) with (S (Z.to_nat (a - (s + 1)))) by lia.
        rewrite padded_S by done. apply padded_upd. lia.
      * replace a with s by lia. rewrite upd_eq, Z.sub_diag. done.
      * apply upd_ne. lia.
Qed.

Lemma safestrcpy_loop_frame m s t n a :
  (a < s ∨ s + Z.of_nat n < a) → safestrcpy_loop m s t n a = m a.
Proof.
  revert m s t. induction n as [|n IH]; intros m s t Ha; cbn [safestrcpy_loop]; cbv zeta.
  - apply upd_ne. lia.
  - case_decide; [|rewrite IH by lia]; rewrite ?upd_ne by lia; done.
Qed.

Lemma safestrcpy_loop_padded m s t n i :
  (s + Z.of_nat n < t ∨ t + Z.of_nat n ≤ s) → (i ≤ n)%nat →
  padded (safestrcpy_loop m s t n) s i = if decide (i < n)%nat then padded m t i else 0.
Proof.
  revert m s t i. induction n as [|n IH]; intros m s t i Hov Hi; cbn [safestrcpy_loop]; cbv zeta.
  - replace i with 0%nat by lia. cbn [padded]. by rewrite upd_eq, decide_False by lia.
  - destruct (decide (m t = 0)) as [E|E].
    + rewrite padded_nul by (rewrite upd_ne, upd_eq by lia; done).
      by rewrite (padded_nul m t) by done; case_decide.
    + destruct i as [|i].
      * cbn [padded]. rewrite safestrcpy_loop_frame, upd_eq by lia. done.
      * rewrite padded_S by (rewrite safestrcpy_loop_frame, upd_eq by lia; done).
        rewrite IH by lia. repeat case_decide; try lia; try done.
        rewrite padded_S by done. apply padded_upd. lia.
Qed.

Lemma strlen_loop_spec m s n k fuel :
  (∀ j, n ≤ j < n + Z.of_nat k → m (s + j) ≠ 0) → m (s + (n + Z.of_nat k)) = 0 →
  (k < fuel)%nat → strlen_loop m s n fuel = Some (n + Z.of_nat k).
Proof.
  revert n fuel. induction k as [|k IH]; intros n fuel Hnz Hz Hf; destruct fuel as [|fuel]; try lia;
    cbn [strlen_loop].
  - rewrite Z.add_0_r in *. by rewrite decide_True.
  - rewrite decide_False by (apply Hnz; lia).
    rewrite IH; [f_equal; lia|intros j Hj; apply Hnz; lia| |lia].
    rewrite <- Hz. f_equal. lia.
Qed.

(** ** Properties *)

(** [memmove] copies the bytes the source range held before the call, for
    every overlap of the two ranges, and changes nothing else. *)
Theorem memmove_correct m dst src n : 0 ≤ n < 2 ^ 32 →
  (∀ i, 0 ≤ i < n → memmove m dst src n (dst + i) = m (src + i)) ∧
  (∀ a, ¬ (dst ≤ a < dst + n) → memmove m dst src n a = m a).
Proof.
  intros Hn. split.
  - intros i Hi. rewrite memmove_spec by done. rewrite decide_True by lia. f_equal. lia.
  - intros a Ha. rewrite memmove_spec by done. by rewrite decide_False.
Qed.

Lemma memmove_correct_witness :
  (∀ i, 0 ≤ i < 3 → memmove (λ a, a) 11 10 3 (11 + i) = 10 + i) ∧
  (∀ a, ¬ (11 ≤ a < 11 + 3) → memmove (λ a, a) 11 10 3 a = a).
Proof. apply (memmove_correct (λ a, a) 11 10 3). lia. Defined.

(** A buffer that holds a padded image reads back as that string. *)
Lemma padded_of_image m m' s t i :
  (∀ j, (j ≤ i)%nat → m' (s + Z.of_nat j) = padded m t j) → padded m' s i = padded m t i.
Proof.
  revert s t. induction i as [|i IH]; intros s t H.
  - specialize (H 0%nat ltac:(lia)). rewrite Z.add_0_r in H. done.
  - pose proof (H 0%nat ltac:(lia)) as H0. rewrite Z.add_0_r in H0. cbn [padded] in *.
    rewrite H0. case_decide; [done|]. apply IH. intros j Hj.
    specialize (H (S j) ltac:(lia)). rewrite padded_S in H by done. rewrite <- H. f_equal. lia.
Qed.

Lemma padded_ext m m' t i :
  (∀ j, t ≤ j ≤ t + Z.of_nat i → m' j = m j) → padded m' t i = padded m t i.
Proof.
  revert t. induction i as [|i IH]; intros t H; cbn [padded]; rewrite H by lia; [done|].
  rewrite IH; [done|]. intros j Hj. apply H. lia.
Qed.

(** A name stored with [strncpy] in a fixed-size field (the [dirent] name
    of fs.c, not necessarily NUL-terminated) compares equal to the original
    with [strncmp] of the same size; and [strncmp] answers 0 on two strings
    exactly when their NUL-padded [n]-byte images are the same. *)
Theorem strncpy_strncmp_roundtrip m s t n :
  0 ≤ n < 2 ^ 31 → (s + n ≤ t ∨ t + n ≤ s) →
  strncmp (strncpy m s t n) t s n = 0 ∧
  (∀ m p q, strncmp m p q n = 0 ↔ ∀ i, (i < Z.to_nat n)%nat → padded m p i = padded m q i).
Proof.
  intros Hn Hov. unfold strncmp, strncpy, u32. rewrite wrap_small by lia.
  split; [|intros; apply strncmp_loop_eq].
  apply strncmp_loop_eq. intros i Hi. trans (padded m t i).
  - apply padded_ext. intros j Hj. rewrite strncpy_loop_spec, decide_False by lia. done.
  - symmetry. apply padded_of_image. intros j Hj.
    rewrite strncpy_loop_spec, decide_True by lia. f_equal. lia.
Qed.

Lemma strncpy_strncmp_roundtrip_witness :
  strncmp (strncpy (λ a, if decide (a = 3) then 0 else 97) 100 0 14) 0 100 14 = 0.
Proof. refine (proj1 (strncpy_strncmp_roundtrip _ 100 0 14 _ _)); lia. Defined.

(** [safestrcpy] always leaves a NUL-terminated string: the first [n-1]
    bytes of the source, cut at its NUL, followed by NUL; and it writes
    nothing outside the [n] bytes of the destination. *)
Theorem safestrcpy_terminates m s t n :
  0 < n → (s + n ≤ t ∨ t + n ≤ s) →
  (∀ i, (i < Z.to_nat n)%nat →
     padded (safestrcpy m s t n) s i = if decide (Z.of_nat i < n - 1) then padded m t i else 0) ∧
  (∀ a, ¬ (s ≤ a < s + n) → safestrcpy m s t n a = m a).
Proof.
  intros Hn Hov. unfold safestrcpy. rewrite decide_False by lia. split.
  - intros i Hi. rewrite safestrcpy_loop_padded by lia. repeat case_decide; (done || lia).
  - intros a Ha. apply safestrcpy_loop_frame. lia.
Qed.

Lemma safestrcpy_terminates_witness :
  (∀ i, (i < Z.to_nat 4)%nat → padded (safestrcpy (λ _, 97) 0 100 4) 0 i =
     if decide (Z.of_nat i < 4 - 1) then padded (λ _, 97) 100 i else 0) ∧
  (∀ a, ¬ (0 ≤ a < 0 + 4) → safestrcpy (λ _, 97) 0 100 4 a = 97).
Proof. apply (safestrcpy_terminates (λ _, 97) 0 100 4); lia. Defined.
