(* ===== verification/Spinlock.v ===== *)
(** * Spinlocks and interrupt masking: kernel/spinlock.c

    [hw] is the part of the machine that the locking code touches: which hart
    executes ([tp]), the per-hart [struct cpu] with the hart's SIE bit, and the
    [struct spinlock]s of the kernel, by name.  [acquire] and [release] are the
    functions of spinlock.c; every other component calls them through the class
    [HasHw], on its own state. *)

From S2P Require Import Prelude Params.

(** The spinlocks of the kernel.  Locks embedded in array elements or in heap
    objects carry the index or the address of the object. *)
Inductive lockid : Type :=
| L_kmem | L_pid | L_wait | L_tick | L_cons | L_uart | L_pr
| L_bcache | L_itable | L_ftable | L_log | L_disk
| L_wq (b : Z)
| L_proc (i : Z)
| L_pipe (pi : Z)
| L_sleep (lk : Z).

Definition lockid_code (l : lockid) : Z * Z :=
  match l with
  | L_kmem => (0, 0) | L_pid => (1, 0) | L_wait => (2, 0) | L_tick => (3, 0)
  | L_cons => (4, 0) | L_uart => (5, 0) | L_pr => (6, 0) | L_bcache => (7, 0)
  | L_itable => (8, 0) | L_ftable => (9, 0) | L_log => (10, 0) | L_disk => (11, 0)
  | L_wq b => (12, b) | L_proc i => (13, i) | L_pipe pi => (14, pi) | L_sleep lk => (15, lk)
  end.

Definition lockid_decode (c : Z * Z) : lockid :=
  let '(k, x) := c in
  match k with
  | 0 => L_kmem | 1 => L_pid | 2 => L_wait | 3 => L_tick | 4 => L_cons | 5 => L_uart
  | 6 => L_pr | 7 => L_bcache | 8 => L_itable | 9 => L_ftable | 10 => L_log | 11 => L_disk
  | 12 => L_wq x | 13 => L_proc x | 14 => L_pipe x | _ => L_sleep x
  end.

#[global] Instance lockid_eq_dec : EqDecision lockid.
Proof. solve_decision. Defined.
#[global] Program Instance lockid_countable : Countable lockid :=
  inj_countable' lockid_code lockid_decode _.
Next Obligation. by intros []. Qed.

(** ** State *)

(* struct spinlock; [lcpu] is the hart whose struct cpu the field points to *)
Record spinlock : Type := mkSpinlock { locked : bool; lname : string; lcpu : option Z }.

(* struct cpu, and the SIE bit of the hart's sstatus *)
Record cpu : Type := mkCpu { cproc : option nat; noff : Z; intena : bool; sie : bool }.

Record hw : Type := mkHw { tp : Z; cpus : gmap Z cpu; locks : gmap lockid spinlock }.

Definition cpu0 : cpu := mkCpu None 0 false false.
Definition lock0 : spinlock := mkSpinlock false EmptyString None.

Definition cpuid (h : hw) : Z := tp h.
Definition mycpu (h : hw) : cpu := default cpu0 (cpus h !! cpuid h).
Definition set_cpu (c : cpu) (h : hw) : hw := mkHw (tp h) (<[tp h := c]> (cpus h)) (locks h).
Definition lock_of (l : lockid) (h : hw) : spinlock := default lock0 (locks h !! l).
Definition set_lock (l : lockid) (k : spinlock) (h : hw) : hw := mkHw (tp h) (cpus h) (<[l := k]> (locks h)).

(** Components whose state contains a [hw]. *)
Class HasHw (S : Type) : Type := {
  hw_of : S → hw;
  with_hw : hw → S → S;
  hw_of_with_hw : ∀ h s, hw_of (with_hw h s) = h;
  with_hw_with_hw : ∀ h h' s, with_hw h (with_hw h' s) = with_hw h s;
  with_hw_of : ∀ s, with_hw (hw_of s) s = s;
}.

#[global] Instance HasHw_hw : HasHw hw.
Proof. by refine {| hw_of h := h; with_hw h _ := h |}. Defined.

(** ** Operations *)

Section Ops.
Context {S : Type} `{HasHw S}.

Definition get_hw : M S hw := gets hw_of.
Definition mod_hw (f : hw → hw) : M S unit := modify (λ s, with_hw (f (hw_of s)) s).

Definition intr_get : M S bool := gets (λ s, sie (mycpu (hw_of s))).
Definition set_sie (b : bool) (c : cpu) : cpu := mkCpu (cproc c) (noff c) (intena c) b.
Definition intr_off : M S unit := mod_hw (λ h, set_cpu (set_sie false (mycpu h)) h).
Definition intr_on : M S unit := mod_hw (λ h, set_cpu (set_sie true (mycpu h)) h).

Definition initlock (lk : lockid) (name : string) : M S unit :=
  mod_hw (set_lock lk (mkSpinlock false name None)).

Definition push_off : M S unit :=
  old <- intr_get ;;
  intr_off ;;
  c <- gets (λ s, mycpu (hw_of s)) ;;
  (if decide (noff c = 0)
   then mod_hw (λ h, let c := mycpu h in set_cpu (mkCpu (cproc c) (noff c) old (sie c)) h)
   else ret tt) ;;
  mod_hw (λ h, let c := mycpu h in set_cpu (mkCpu (cproc c) (noff c + 1) (intena c) (sie c)) h).

Definition pop_off : M S unit :=
  on <- intr_get ;;
  if on : bool then panic "pop_off - interruptible" else
  c <- gets (λ s, mycpu (hw_of s)) ;;
  if decide (noff c < 1) then panic "pop_off" else
  mod_hw (λ h, let c := mycpu h in set_cpu (mkCpu (cproc c) (noff c - 1) (intena c) (sie c)) h) ;;
  c <- gets (λ s, mycpu (hw_of s)) ;;
  if decide (noff c = 0 ∧ intena c = true) then intr_on else ret tt.

Definition holding (lk : lockid) : M S bool :=
  gets (λ s, let l := lock_of lk (hw_of s) in
             locked l && bool_decide (lcpu l = Some (cpuid (hw_of s)))).

Definition acquire (lk : lockid) : M S unit :=
  push_off ;;
  r <- holding lk ;;
  if r : bool then panic "acquire" else
  l <- gets (λ s, lock_of lk (hw_of s)) ;;
  (* the atomic swap returns the old value; a set bit means spinning *)
  if locked l then (λ s, Spin s) else
  mod_hw (set_lock lk (mkSpinlock true (lname l) (lcpu l))) ;;
  mod_hw (λ h, set_lock lk (mkSpinlock true (lname l) (Some (cpuid h))) h).

Definition release (lk : lockid) : M S unit :=
  r <- holding lk ;;
  if negb r then panic "release" else
  l <- gets (λ s, lock_of lk (hw_of s)) ;;
  mod_hw (set_lock lk (mkSpinlock true (lname l) None)) ;;
  mod_hw (set_lock lk (mkSpinlock false (lname l) None)) ;;
  pop_off.

(* myproc(): the process running on this hart *)
Definition myproc : M S (option nat) :=
  push_off ;;
  p <- gets (λ s, cproc (mycpu (hw_of s))) ;;
  pop_off ;;
  ret p.

End Ops.

(** ** The effect of each operation on [hw] *)

Definition hw_push (h : hw) : hw :=
  let c := mycpu h in
  set_cpu (mkCpu (cproc c) (noff c + 1) (if decide (noff c = 0) then sie c else intena c) false) h.

Definition hw_pop (h : hw) : hw :=
  let c := mycpu h in
  set_cpu (mkCpu (cproc c) (noff c - 1) (intena c)
             (if decide (noff c - 1 = 0 ∧ intena c = true) then true else sie c)) h.

(* [push_off] followed by [pop_off]: an outermost pair leaves [intena] equal to SIE *)
Definition hw_settle (h : hw) : hw :=
  let c := mycpu h in
  set_cpu (if decide (noff c = 0) then mkCpu (cproc c) 0 (sie c) (sie c) else c) h.

Definition hw_acq (lk : lockid) (h : hw) : hw :=
  set_lock lk (mkSpinlock true (lname (lock_of lk h)) (Some (tp h))) (hw_push h).

Definition hw_rel (lk : lockid) (h : hw) : hw :=
  set_lock lk (mkSpinlock false (lname (lock_of lk h)) None) (hw_pop h).

(** The executing hart is known, its nesting depth is not negative, and
    interrupts are off inside a critical section. *)
Definition cpu_ok (h : hw) : Prop :=
  ∃ c, cpus h !! tp h = Some c ∧ 0 ≤ noff c ∧ (0 < noff c → sie c = false).

(** [lk] has been initialised and nobody holds it. *)
Definition lock_free (lk : lockid) (h : hw) : Prop :=
  ∃ n, locks h !! lk = Some (mkSpinlock false n None).

(** [lk] is held by the executing hart. *)
Definition lock_held (lk : lockid) (h : hw) : Prop :=
  ∃ n, locks h !! lk = Some (mkSpinlock true n (Some (tp h))).

Lemma mycpu_set_cpu c h : mycpu (set_cpu c h) = c.
Proof. unfold mycpu, set_cpu, cpuid. simpl. by rewrite lookup_insert_eq. Qed.
Lemma set_cpu_set_cpu c c' h : set_cpu c (set_cpu c' h) = set_cpu c h.
Proof. unfold set_cpu. simpl. by rewrite insert_insert_eq. Qed.
Lemma lock_of_set_cpu lk c h : lock_of lk (set_cpu c h) = lock_of lk h.
Proof. done. Qed.
Lemma mycpu_set_lock lk l h : mycpu (set_lock lk l h) = mycpu h.
Proof. done. Qed.
Lemma set_cpu_set_lock c lk l h : set_cpu c (set_lock lk l h) = set_lock lk l (set_cpu c h).
Proof. done. Qed.
Lemma lock_of_set_lock lk l h : lock_of lk (set_lock lk l h) = l.
Proof. unfold lock_of, set_lock. simpl. by rewrite lookup_insert_eq. Qed.
Lemma set_lock_set_lock lk l l' h : set_lock lk l (set_lock lk l' h) = set_lock lk l h.
Proof. unfold set_lock. simpl. by rewrite insert_insert_eq. Qed.

#[export] Hint Rewrite mycpu_set_cpu set_cpu_set_cpu lock_of_set_cpu mycpu_set_lock
  set_cpu_set_lock lock_of_set_lock set_lock_set_lock : hw.

Ltac hw_simpl := repeat (autorewrite with hw in *; simpl in * ).

Section OpsLemmas.
Context {S : Type} `{HasHw S}.
Implicit Types s : S.

Lemma push_off_eq s : push_off s = Ok tt (with_hw (hw_push (hw_of s)) s).
Proof.
  unfold push_off, intr_get, intr_off, mod_hw, bind, gets, modify, ret, hw_push, set_sie. simpl.
  rewrite !hw_of_with_hw. hw_simpl. case_decide; hw_simpl;
    repeat (rewrite ?hw_of_with_hw, ?with_hw_with_hw; hw_simpl); done.
Qed.

Lemma pop_off_eq s :
  sie (mycpu (hw_of s)) = false → 1 ≤ noff (mycpu (hw_of s)) →
  pop_off s = Ok tt (with_hw (hw_pop (hw_of s)) s).
Proof.
  intros Hs Hn. unfold pop_off, intr_get, intr_on, mod_hw, bind, gets, modify, ret, hw_pop, set_sie. simpl.
  rewrite Hs. simpl. rewrite decide_False by lia. rewrite !hw_of_with_hw. hw_simpl.
  case_decide; hw_simpl; repeat (rewrite ?hw_of_with_hw, ?with_hw_with_hw; hw_simpl); rewrite ?Hs; done.
Qed.

Lemma hw_pop_push h : cpu_ok h → hw_pop (hw_push h) = hw_settle h.
Proof.
  intros (c & Hc & Hn & Hs). unfold hw_pop, hw_push, hw_settle.
  assert (mycpu h = c) as -> by (unfold mycpu, cpuid; by rewrite Hc).
  hw_simpl. f_equal. replace (noff c + 1 - 1) with (noff c) by lia.
  destruct (decide (noff c = 0)) as [->|Hne].
  - destruct (sie c); [rewrite decide_True by done; done|]. by rewrite decide_False by naive_solver.
  - rewrite decide_False by naive_solver. destruct c; simpl in *. by rewrite Hs by lia.
Qed.

Lemma acquire_eq lk s :
  lock_free lk (hw_of s) → acquire lk s = Ok tt (with_hw (hw_acq lk (hw_of s)) s).
Proof.
  intros (n & Hl). unfold acquire. rewrite (bind_ok _ _ _ _ _ (push_off_eq s)).
  assert (lock_of lk (hw_push (hw_of s)) = mkSpinlock false n None) as E.
  { unfold lock_of, hw_push, set_cpu. simpl. by rewrite Hl. }
  assert (lock_of lk (hw_of s) = mkSpinlock false n None) as E' by (unfold lock_of; by rewrite Hl).
  unfold holding, bind, gets, mod_hw, modify. simpl. rewrite !hw_of_with_hw, !E. simpl.
  rewrite ?hw_of_with_hw, ?with_hw_with_hw, !E. simpl.
  rewrite ?hw_of_with_hw, ?with_hw_with_hw. hw_simpl.
  unfold hw_acq. by rewrite E'.
Qed.

Lemma release_eq lk s :
  lock_held lk (hw_of s) → sie (mycpu (hw_of s)) = false → 1 ≤ noff (mycpu (hw_of s)) →
  release lk s = Ok tt (with_hw (hw_rel lk (hw_of s)) s).
Proof.
  intros (n & Hl) Hs Hn. unfold release, holding, bind, gets, mod_hw, modify. simpl.
  assert (lock_of lk (hw_of s) = mkSpinlock true n (Some (tp (hw_of s)))) as E
    by (unfold lock_of; by rewrite Hl).
  rewrite E. simpl. rewrite bool_decide_eq_true_2 by done. simpl.
  rewrite ?hw_of_with_hw, ?with_hw_with_hw. hw_simpl.
  rewrite pop_off_eq; rewrite ?hw_of_with_hw; hw_simpl; [|done|done].
  rewrite with_hw_with_hw. unfold hw_rel. rewrite E. simpl. do 2 f_equal.
Qed.

End OpsLemmas.

(** ** Composing critical sections *)

Lemma mycpu_ok h : cpu_ok h → cpus h !! tp h = Some (mycpu h).
Proof. intros (c & Hc & _). unfold mycpu, cpuid. by rewrite Hc. Qed.

Lemma set_mycpu h : cpu_ok h → set_cpu (mycpu h) h = h.
Proof. intros Hok%mycpu_ok. destruct h; unfold set_cpu; simpl in *. by rewrite insert_id. Qed.

Lemma cpu_ok_set_cpu c h : 0 ≤ noff c → (0 < noff c → sie c = false) → cpu_ok (set_cpu c h).
Proof. intros. exists c. simpl. by rewrite lookup_insert_eq. Qed.

Lemma cpu_ok_set_lock lk l h : cpu_ok h → cpu_ok (set_lock lk l h).
Proof. done. Qed.

Lemma cpu_ok_push h : cpu_ok h → cpu_ok (hw_push h).
Proof.
  intros Hok. pose proof (mycpu_ok _ Hok). destruct Hok as (c & Hc & ? & ?). simplify_eq.
  apply cpu_ok_set_cpu; simpl; [lia|done].
Qed.

Lemma cpu_ok_acq lk h : cpu_ok h → cpu_ok (hw_acq lk h).
Proof. intros. apply cpu_ok_set_lock, cpu_ok_push. done. Qed.

Lemma cpu_ok_settle h : cpu_ok h → cpu_ok (hw_settle h).
Proof.
  intros Hok. pose proof (mycpu_ok _ Hok). destruct Hok as (c & Hc & ? & ?). simplify_eq.
  apply cpu_ok_set_cpu; case_decide; simpl; done || lia.
Qed.

Lemma noff_acq lk h : noff (mycpu (hw_acq lk h)) = noff (mycpu h) + 1.
Proof. unfold hw_acq, hw_push. by hw_simpl. Qed.
Lemma sie_off h : cpu_ok h → 0 < noff (mycpu h) → sie (mycpu h) = false.
Proof. intros Hok. pose proof (mycpu_ok _ Hok). destruct Hok as (c & ? & _ & Hs). simplify_eq. done. Qed.

Lemma sie_acq lk h : sie (mycpu (hw_acq lk h)) = false.
Proof. unfold hw_acq, hw_push. by hw_simpl. Qed.
Lemma noff_nonneg h : cpu_ok h → 0 ≤ noff (mycpu h).
Proof. intros Hok. pose proof (mycpu_ok _ Hok). destruct Hok as (c & Hc & ? & ?). by simplify_eq. Qed.

Lemma locks_acq lk h : locks (hw_acq lk h) = <[lk := mkSpinlock true (lname (lock_of lk h)) (Some (tp h))]> (locks h).
Proof. done. Qed.
Lemma locks_rel lk h : locks (hw_rel lk h) = <[lk := mkSpinlock false (lname (lock_of lk h)) None]> (locks h).
Proof. done. Qed.
Lemma locks_settle h : locks (hw_settle h) = locks h.
Proof. done. Qed.
Lemma tp_acq lk h : tp (hw_acq lk h) = tp h. Proof. done. Qed.
Lemma tp_rel lk h : tp (hw_rel lk h) = tp h. Proof. done. Qed.
Lemma tp_settle h : tp (hw_settle h) = tp h. Proof. done. Qed.

Lemma lock_held_acq lk h : lock_held lk (hw_acq lk h).
Proof. eexists. rewrite locks_acq. apply lookup_insert_eq. Qed.

Lemma lock_free_acq lk lk' h : lk ≠ lk' → lock_free lk (hw_acq lk' h) ↔ lock_free lk h.
Proof. intros. unfold lock_free. rewrite locks_acq. by setoid_rewrite lookup_insert_ne. Qed.

Lemma lock_free_settle lk h : lock_free lk (hw_settle h) ↔ lock_free lk h.
Proof. done. Qed.

Lemma hw_settle_settle h : hw_settle (hw_settle h) = hw_settle h.
Proof.
  unfold hw_settle. hw_simpl. f_equal. destruct (mycpu h) as [p n i b]; simpl.
  by destruct (decide (n = 0)); simpl; [|rewrite decide_False by done].
Qed.

Lemma hw_settle_nested h : cpu_ok h → 0 < noff (mycpu h) → hw_settle h = h.
Proof.
  intros Hok ?. unfold hw_settle. rewrite decide_False by lia. by apply set_mycpu.
Qed.

Lemma set_lock_id lk l h : locks h !! lk = Some l → set_lock lk l h = h.
Proof. intros. destruct h; unfold set_lock; simpl in *. by rewrite insert_id. Qed.

Lemma hw_pop_set_lock lk l h : hw_pop (set_lock lk l h) = set_lock lk l (hw_pop h).
Proof. done. Qed.

(** [release] undoes [acquire], up to the [intena] of an outermost section. *)
Lemma hw_rel_acq lk h : cpu_ok h → lock_free lk h → hw_rel lk (hw_acq lk h) = hw_settle h.
Proof.
  intros Hok (n & Hl). unfold hw_rel, hw_acq.
  rewrite hw_pop_set_lock, set_lock_set_lock, lock_of_set_lock, hw_pop_push by done.
  assert (lock_of lk h = mkSpinlock false n None) as -> by (unfold lock_of; by rewrite Hl).
  by apply set_lock_id.
Qed.

Lemma noff_settle h : noff (mycpu (hw_settle h)) = noff (mycpu h).
Proof. unfold hw_settle. hw_simpl. by case_decide. Qed.

(** The lock words after releasing [lp], when taking [lp] was the last change. *)
Lemma locks_rel_undo lp h h' :
  lock_free lp h → locks h' = locks (hw_acq lp h) → locks (hw_rel lp h') = locks h.
Proof.
  intros (n & Hl) E. rewrite locks_rel, E, locks_acq, insert_insert_eq. unfold lock_of.
  rewrite E, locks_acq, lookup_insert_eq. unfold lock_of. rewrite Hl. simpl. by rewrite insert_id.
Qed.

Lemma locks_acq_ext lk h h' : locks h' = locks h → tp h' = tp h → locks (hw_acq lk h') = locks (hw_acq lk h).
Proof. intros E1 E2. rewrite !locks_acq. unfold lock_of. by rewrite E1, E2. Qed.

#[export] Hint Resolve cpu_ok_acq cpu_ok_settle lock_held_acq : xv6.

Section Brackets.
Context {S : Type} `{HasHw S}.
Implicit Types s : S.

Lemma wp_acquire lk s Q :
  lock_free lk (hw_of s) → Q tt (with_hw (hw_acq lk (hw_of s)) s) → wp (acquire lk) s Q.
Proof. intros ? HQ. unfold wp. by rewrite acquire_eq. Qed.

Lemma wp_release lk s h Q :
  hw_of s = hw_acq lk h → cpu_ok h → lock_free lk h →
  Q tt (with_hw (hw_settle h) s) → wp (release lk) s Q.
Proof.
  intros Hs Hok Hfree HQ. unfold wp. rewrite release_eq; rewrite Hs.
  - by rewrite hw_rel_acq.
  - apply lock_held_acq.
  - apply sie_acq.
  - rewrite noff_acq. pose proof (noff_nonneg h Hok). lia.
Qed.

End Brackets.

(** ** The lock word under contention

    The sequential definitions above show one hart at a time.  Here every hart
    has a program counter inside [acquire] or [release], and each step is one
    access to the shared [struct spinlock]: the two loads of [holding]
    ([lk->locked], then [lk->cpu] when that is not 0), the atomic swap of the
    acquire loop, the store to [lk->cpu], the clearing of [lk->cpu] and the
    atomic clear of [lk->locked]. *)

Module Contend.

Inductive lpc : Type :=
| Idle        (* outside acquire/release *)
| A_cpu       (* acquire, in holding(): lk->locked was 1, lk->cpu not yet loaded *)
| Trying      (* past the holding() check of acquire, in the swap loop *)
| Swapped     (* the swap returned 0; lk->cpu not yet written *)
| Critical    (* acquire has returned *)
| R_cpu       (* release, in holding(): lk->locked was 1, lk->cpu not yet loaded *)
| R_clear     (* past the holding() check of release *)
| Clearing    (* release has cleared lk->cpu; lk->locked still 1 *)
| Panicked.

Record state : Type := mkState { lk : spinlock; pc : Z → lpc }.

Definition goto (h : Z) (c : lpc) (f : Z → lpc) : Z → lpc := λ x, if decide (x = h) then c else f x.

(** The next access of hart [h]. *)
Definition step (h : Z) (s : state) : state :=
  let l := lk s in
  let jump c := mkState l (goto h c (pc s)) in
  match pc s h with
  | Idle => jump (if locked l then A_cpu else Trying)
  | A_cpu => jump (if decide (lcpu l = Some h) then Panicked else Trying)
  | Trying => if locked l then s
              else mkState (mkSpinlock true (lname l) (lcpu l)) (goto h Swapped (pc s))
  | Swapped => mkState (mkSpinlock (locked l) (lname l) (Some h)) (goto h Critical (pc s))
  | Critical => jump (if locked l then R_cpu else Panicked)
  | R_cpu => jump (if decide (lcpu l = Some h) then R_clear else Panicked)
  | R_clear => mkState (mkSpinlock (locked l) (lname l) None) (goto h Clearing (pc s))
  | Clearing => mkState (mkSpinlock false (lname l) (lcpu l)) (goto h Idle (pc s))
  | Panicked => s
  end.

Definition init (name : string) : state := mkState (mkSpinlock false name None) (λ _, Idle).

Inductive reachable : state → Prop :=
| r_init name : reachable (init name)
| r_step h s : reachable s → reachable (step h s).

(** Both loads of [holding] at once. *)
Definition holds (h : Z) (s : state) : bool := locked (lk s) && bool_decide (lcpu (lk s) = Some h).

(** From the swap that took the lock to the one that gives it back; and, of
    that, from the store of [lk->cpu] to its clearing. *)
Definition inside (c : lpc) : bool :=
  match c with Swapped | Critical | R_cpu | R_clear | Clearing => true | _ => false end.
Definition owner (c : lpc) : bool :=
  match c with Critical | R_cpu | R_clear => true | _ => false end.

Lemma owner_inside c : owner c = true → inside c = true.
Proof. by destruct c. Qed.

Record inv (s : state) : Prop := mkInv {
  i_locked : ∀ h, inside (pc s h) = true → locked (lk s) = true;
  i_one : ∀ h h', inside (pc s h) = true → inside (pc s h') = true → h = h';
  i_cpu : ∀ h, lcpu (lk s) = Some h ↔ owner (pc s h) = true;
  i_fine : ∀ h, pc s h ≠ Panicked;
}.

(** The harts other than [h] are outside when [h] is inside. *)
Lemma inv_outside h s : inv s → inside (pc s h) = true → ∀ h', h' ≠ h → inside (pc s h') = false.
Proof.
  intros [Hl Ho Hc _] Hh h' Hne. destruct (inside (pc s h')) eqn:E; [|done].
  destruct Hne. by apply Ho.
Qed.

(** A hart that moves keeps [inv] when the lock word and [lcpu] move along. *)
Lemma inv_goto h c l' s :
  inv s → c ≠ Panicked →
  (inside c = true → locked l' = true ∧ ∀ h', h' ≠ h → inside (pc s h') = false) →
  (∀ h', h' ≠ h → inside (pc s h') = true → locked l' = true) →
  (lcpu l' = Some h ↔ owner c = true) →
  (∀ h', h' ≠ h → lcpu l' = Some h' ↔ owner (pc s h') = true) →
  inv (mkState l' (goto h c (pc s))).
Proof.
  intros [Hl Ho Hc Hf] H0 H1 H2 H3 H4. split; simpl; unfold goto.
  - intros a. case_decide; naive_solver.
  - intros a b. repeat case_decide; subst; intros Ha Hb; try done.
    + by rewrite (proj2 (H1 Ha)) in Hb.
    + by rewrite (proj2 (H1 Hb)) in Ha.
    + by apply Ho.
  - intros a. case_decide; subst; auto.
  - intros a. case_decide; auto.
Qed.

(** A hart that holds the lock changes [lk->cpu]. *)
Lemma inv_setcpu h c o n s :
  inv s → inside (pc s h) = true → inside c = true → (o = Some h ∧ owner c = true ∨ o = None ∧ owner c = false) →
  inv (mkState (mkSpinlock (locked (lk s)) n o) (goto h c (pc s))).
Proof.
  intros Hinv Hh Hc Ho. pose proof (inv_outside h s Hinv Hh) as Hout. pose proof (i_locked s Hinv h Hh).
  apply inv_goto; simpl; [done|by intros ->|done|done|by destruct Ho as [[-> ->]|[-> ->]]|].
  intros h' Hne. specialize (Hout h' Hne). pose proof (owner_inside (pc s h')) as Hoi.
  destruct (owner (pc s h')); [rewrite Hoi in Hout by done; done|]. destruct Ho as [[-> _]|[-> _]]; split; congruence.
Qed.

Lemma inv_step h s : inv s → inv (step h s).
Proof.
  intros Hinv. pose proof Hinv as [Hl Ho Hc Hf]. pose proof (Hl h) as Hlh. pose proof (Hc h) as Hch.
  pose proof (inv_outside h s Hinv) as Hout. unfold step.
  destruct (pc s h) eqn:E; simpl in *; try (by apply (inv_setcpu h); rewrite ?E; auto); try (by destruct (Hf h)).
  - case_match; (apply inv_goto; simpl; [done..|by eauto|done|by auto]).
  - rewrite decide_False by (by rewrite Hch). apply inv_goto; simpl; [done..|by eauto|done|by auto].
  - case_match eqn:El; [done|]. apply inv_goto; simpl; [done|done| |done|done|by auto].
    intros _. split; [done|]. intros h' Hne. destruct (inside (pc s h')) eqn:F; [|done]. by specialize (Hl h' F).
  - rewrite Hlh by done. apply inv_goto; simpl; auto.
  - rewrite decide_True by (by apply Hch). apply inv_goto; simpl; auto.
  - apply inv_goto; simpl; [done..| |by rewrite Hch|by auto]. intros h' Hne F. by rewrite Hout in F.
Qed.

Lemma inv_reachable s : reachable s → inv s.
Proof. induction 1 as [name|h s _ IH]; [by split|]. by apply inv_step. Qed.

(** The harts of [l] take a step each, in turn. *)
Definition exec (l : list Z) (s : state) : state := foldl (λ s h, step h s) s l.

Lemma contend_exec l s : reachable s → reachable (exec l s).
Proof. revert s. induction l as [|h l IH]; intros s Hs; [done|]. apply IH. by constructor. Qed.

End Contend.

(** ** Properties *)

(** C18 Mutual exclusion: in every interleaving of the accesses that
    [acquire] and [release] make to the lock, at most one hart is between the
    swap that takes the lock and the one that gives it back; [holding] is true
    on exactly the hart between its store to [lk->cpu] and the clearing of it;
    and neither panic of spinlock.c fires in code that pairs the calls. *)
Theorem spinlock_mutual_exclusion s : Contend.reachable s →
  (∀ h h', Contend.inside (Contend.pc s h) = true → Contend.inside (Contend.pc s h') = true → h = h') ∧
  (∀ h, Contend.holds h s = true ↔ Contend.owner (Contend.pc s h) = true) ∧
  (∀ h, Contend.pc s h ≠ Contend.Panicked).
Proof.
  intros [Hl Ho Hc Hf]%Contend.inv_reachable. split_and!; [done| |done].
  intros h. unfold Contend.holds. rewrite andb_true_iff, bool_decide_eq_true, Hc.
  split; [by intros [_ ?]|]. intros E. split; [|done]. by apply (Hl h), Contend.owner_inside.
Qed.

(** Hart 0 is in the critical section, hart 1 spins, hart 2 has seen the lock
    taken and not yet by whom, and hart 3 has not called [acquire]. *)
Lemma spinlock_mutual_exclusion_witness :
  let s := Contend.exec [0; 1; 0; 0; 2; 1; 1] (Contend.init "kmem") in
  Contend.pc s 0 = Contend.Critical ∧ Contend.pc s 1 = Contend.Trying ∧ Contend.pc s 2 = Contend.A_cpu ∧
  Contend.pc s 3 = Contend.Idle ∧
  (∀ h h', Contend.inside (Contend.pc s h) = true → Contend.inside (Contend.pc s h') = true → h = h') ∧
  (∀ h, Contend.holds h s = true ↔ Contend.owner (Contend.pc s h) = true) ∧
  (∀ h, Contend.pc s h ≠ Contend.Panicked).
Proof.
  split_and!; [vm_compute; reflexivity..| | |]; apply spinlock_mutual_exclusion, Contend.contend_exec, Contend.r_init.
Defined.

(** [acquire] on every branch: a free lock is taken, with interrupts off
    and the nesting depth one higher; a lock this hart holds panics; a lock
    another hart holds makes the caller spin with interrupts off.  [release]
    of a lock that this hart does not hold panics, and [release] after
    [acquire] gives the machine back as it was ([hw_settle]: an outermost
    pair leaves [intena] equal to SIE). *)
Theorem acquire_release_cases (lk : lockid) (h : hw) : cpu_ok h →
  (lock_free lk h → acquire lk h = Ok tt (hw_acq lk h) ∧
     sie (mycpu (hw_acq lk h)) = false ∧ noff (mycpu (hw_acq lk h)) = noff (mycpu h) + 1 ∧
     release lk (hw_acq lk h) = Ok tt (hw_settle h) ∧ release lk h = Panic "release") ∧
  (lock_held lk h → acquire lk h = Panic "acquire") ∧
  (∀ n c, locks h !! lk = Some (mkSpinlock true n (Some c)) → c ≠ tp h →
     acquire lk h = Spin (hw_push h) ∧ release lk h = Panic "release").
Proof.
  intros Hok. split_and!.
  - intros Hf. pose proof Hf as (n & Hl). split_and!.
    + by rewrite acquire_eq.
    + apply sie_acq.
    + apply noff_acq.
    + pose proof (noff_nonneg h Hok).
      rewrite (release_eq (S := hw)); simpl; rewrite ?hw_rel_acq, ?noff_acq, ?sie_acq by done;
        auto with xv6; lia.
    + unfold release, holding, bind, gets, lock_of. simpl. by rewrite Hl.
  - intros (n & Hl). unfold acquire. rewrite (bind_ok _ _ _ _ _ (push_off_eq h)).
    unfold holding, bind, gets, lock_of. simpl. rewrite Hl. simpl.
    by rewrite bool_decide_eq_true_2.
  - intros n c Hl Hne. split.
    + unfold acquire. rewrite (bind_ok _ _ _ _ _ (push_off_eq h)).
      unfold holding, bind, gets, lock_of. simpl. rewrite Hl. simpl.
      rewrite bool_decide_eq_false_2 by (unfold cpuid; simpl; congruence). simpl. by rewrite Hl.
    + unfold release, holding, bind, gets, lock_of. simpl. rewrite Hl. simpl.
      rewrite bool_decide_eq_false_2; [done|]. unfold cpuid. congruence.
Qed.

Definition example_hw : hw :=
  mkHw 0 {[0 := mkCpu None 0 false true]}
    (list_to_map ((λ l, (l, mkSpinlock false "lock" None)) <$>
       [L_kmem; L_pid; L_wait; L_tick; L_bcache; L_itable; L_ftable; L_log; L_disk])).

Lemma example_hw_ok : cpu_ok example_hw.
Proof. eexists. split; [reflexivity|]. simpl. split; [lia|lia]. Qed.

Lemma acquire_release_cases_witness :
  acquire L_kmem example_hw = Ok tt (hw_acq L_kmem example_hw) ∧
  release L_kmem (hw_acq L_kmem example_hw) = Ok tt (hw_settle example_hw).
Proof.
  destruct (acquire_release_cases L_kmem example_hw example_hw_ok) as ((? & _ & _ & ? & _) & _).
  - by exists "lock"%string.
  - done.
Defined.

Fixpoint times {S} (n : nat) (m : M S unit) : M S unit :=
  match n with O => ret tt | Datatypes.S n => m ;; times n m end.

Lemma times_snoc {S} n (m : M S unit) s s' s'' :
  times n m s = Ok tt s' → m s' = Ok tt s'' → times (Datatypes.S n) m s = Ok tt s''.
Proof.
  revert s. induction n as [|n IH]; intros s Hn Hm.
  - injection Hn as ->. cbn [times]. by rewrite (bind_ok _ _ _ _ _ Hm).
  - cbn [times] in Hn. unfold bind in Hn. destruct (m s) as [[] s1| | |] eqn:E; try done.
    change (bind m (λ _, times (Datatypes.S n) m) s = Ok tt s'').
    rewrite (bind_ok _ _ _ _ _ E). by apply IH.
Qed.

Lemma push_off_times n h : cpu_ok h →
  ∃ h', times n push_off h = Ok tt h' ∧ cpu_ok h' ∧ noff (mycpu h') = noff (mycpu h) + Z.of_nat n ∧
    times n pop_off h' = Ok tt (if decide (n = 0%nat) then h else hw_settle h).
Proof.
  revert h. induction n as [|n IH]; intros h Hok.
  - exists h. split_and!; [done|done|lia|done].
  - destruct (IH (hw_push h) (cpu_ok_push h Hok)) as (h' & H1 & H2 & H3 & H4).
    exists h'. cbn [times]. rewrite (bind_ok _ _ _ _ _ (push_off_eq h)).
    assert (noff (mycpu (hw_push h)) = noff (mycpu h) + 1) as Hn by (unfold hw_push; by hw_simpl).
    assert (sie (mycpu (hw_push h)) = false) as Hs by (unfold hw_push; by hw_simpl).
    pose proof (noff_nonneg h Hok). split_and!; [done|done|lia|].
    change (times (S n) pop_off h' = Ok () (hw_settle h)).
    rewrite hw_settle_nested in H4 by (try apply cpu_ok_push; done || lia).
    assert (times n pop_off h' = Ok tt (hw_push h)) as H5 by (rewrite H4; by case_decide).
    eapply times_snoc; [exact H5|]. rewrite pop_off_eq by (simpl; done || lia).
    by rewrite <- hw_pop_push.
Qed.

(** [push_off] and [pop_off] nest: after [n > 0] calls of [push_off]
    interrupts are off, and [n] calls of [pop_off] bring back the interrupt
    state and the nesting depth from before, whatever [n]. *)
Theorem push_pop_nest n h : cpu_ok h → (0 < n)%nat →
  ∃ h' h'', times n push_off h = Ok tt h' ∧ sie (mycpu h') = false ∧
    times n pop_off h' = Ok tt h'' ∧
    sie (mycpu h'') = sie (mycpu h) ∧ noff (mycpu h'') = noff (mycpu h) ∧ locks h'' = locks h.
Proof.
  intros Hok Hn. destruct (push_off_times n h Hok) as (h' & H1 & H2 & H3 & H4).
  pose proof (noff_nonneg h Hok). rewrite decide_False in H4 by lia.
  exists h', (hw_settle h). pose proof (mycpu_ok _ H2). destruct H2 as (c & Hc & _ & Hsie).
  simplify_eq. split_and!; auto with lia; unfold hw_settle; hw_simpl; case_decide; simpl; done || lia.
Qed.

Lemma push_pop_nest_witness :
  ∃ h' h'', times 3 push_off example_hw = Ok tt h' ∧ sie (mycpu h') = false ∧
    times 3 pop_off h' = Ok tt h'' ∧
    sie (mycpu h'') = true ∧ noff (mycpu h'') = 0 ∧ locks h'' = locks example_hw.
Proof. apply (push_pop_nest 3 example_hw example_hw_ok). lia. Defined.
