(* ===== verification/ProcDefs.v ===== *)
(** * Process table and wait-queue data: kernel/proc.h and kernel/waitqueue.h

    The process array and the wait-queue table as C lays them out: queue
    entries are embedded in the processes and linked by pointers.  A pointer to
    [proc[i]] or to its embedded [wq_entry] is [Some i]; the null pointer is
    [None].  Components reach this state through the class [HasProcs]. *)

From S2P Require Import Prelude Params Spinlock.

Inductive procstate : Type := UNUSED | USED | SLEEPING | RUNNABLE | RUNNING | ZOMBIE.
#[global] Instance procstate_eq_dec : EqDecision procstate.
Proof. solve_decision. Defined.

Definition NWQUEUE : Z := 16.

(* struct wq_entry *)
Record wq_entry : Type := mkEntry {
  e_proc : option nat;
  e_chan : Z;
  e_next : option nat;
  e_queued : Z;
}.

(* struct context: the saved return address and stack pointer; the twelve
   callee-saved registers s0-s11 are a list *)
Record context : Type := mkContext { ra : Z; sp : Z; sregs : list Z }.

(* struct proc; the embedded lock is [L_proc i] of [hw] *)
Record proc : Type := mkProc {
  state : procstate;
  chan : Z;
  killed : Z;
  xstate : Z;
  pid : Z;
  parent : option nat;
  kstack : Z;
  sz : Z;
  pagetable : Z;
  trapframe : Z;
  ctx : context;
  ofile : list (option nat);
  cwd : option nat;
  wqe : wq_entry;
  name : list Z;
}.

Definition set_state (x : procstate) (p : proc) : proc :=
  mkProc x (chan p) (killed p) (xstate p) (pid p) (parent p) (kstack p) (sz p) (pagetable p)
    (trapframe p) (ctx p) (ofile p) (cwd p) (wqe p) (name p).
Definition set_chan (x : Z) (p : proc) : proc :=
  mkProc (state p) x (killed p) (xstate p) (pid p) (parent p) (kstack p) (sz p) (pagetable p)
    (trapframe p) (ctx p) (ofile p) (cwd p) (wqe p) (name p).
Definition set_killed (x : Z) (p : proc) : proc :=
  mkProc (state p) (chan p) x (xstate p) (pid p) (parent p) (kstack p) (sz p) (pagetable p)
    (trapframe p) (ctx p) (ofile p) (cwd p) (wqe p) (name p).
Definition set_xstate (x : Z) (p : proc) : proc :=
  mkProc (state p) (chan p) (killed p) x (pid p) (parent p) (kstack p) (sz p) (pagetable p)
    (trapframe p) (ctx p) (ofile p) (cwd p) (wqe p) (name p).
Definition set_pid (x : Z) (p : proc) : proc :=
  mkProc (state p) (chan p) (killed p) (xstate p) x (parent p) (kstack p) (sz p) (pagetable p)
    (trapframe p) (ctx p) (ofile p) (cwd p) (wqe p) (name p).
Definition set_parent (x : option nat) (p : proc) : proc :=
  mkProc (state p) (chan p) (killed p) (xstate p) (pid p) x (kstack p) (sz p) (pagetable p)
    (trapframe p) (ctx p) (ofile p) (cwd p) (wqe p) (name p).
Definition set_kstack (x : Z) (p : proc) : proc :=
  mkProc (state p) (chan p) (killed p) (xstate p) (pid p) (parent p) x (sz p) (pagetable p)
    (trapframe p) (ctx p) (ofile p) (cwd p) (wqe p) (name p).
Definition set_sz (x : Z) (p : proc) : proc :=
  mkProc (state p) (chan p) (killed p) (xstate p) (pid p) (parent p) (kstack p) x (pagetable p)
    (trapframe p) (ctx p) (ofile p) (cwd p) (wqe p) (name p).
Definition set_pagetable (x : Z) (p : proc) : proc :=
  mkProc (state p) (chan p) (killed p) (xstate p) (pid p) (parent p) (kstack p) (sz p) x
    (trapframe p) (ctx p) (ofile p) (cwd p) (wqe p) (name p).
Definition set_trapframe (x : Z) (p : proc) : proc :=
  mkProc (state p) (chan p) (killed p) (xstate p) (pid p) (parent p) (kstack p) (sz p) (pagetable p)
    x (ctx p) (ofile p) (cwd p) (wqe p) (name p).
Definition set_ctx (x : context) (p : proc) : proc :=
  mkProc (state p) (chan p) (killed p) (xstate p) (pid p) (parent p) (kstack p) (sz p) (pagetable p)
    (trapframe p) x (ofile p) (cwd p) (wqe p) (name p).
Definition set_ofile (x : list (option nat)) (p : proc) : proc :=
  mkProc (state p) (chan p) (killed p) (xstate p) (pid p) (parent p) (kstack p) (sz p) (pagetable p)
    (trapframe p) (ctx p) x (cwd p) (wqe p) (name p).
Definition set_cwd (x : option nat) (p : proc) : proc :=
  mkProc (state p) (chan p) (killed p) (xstate p) (pid p) (parent p) (kstack p) (sz p) (pagetable p)
    (trapframe p) (ctx p) (ofile p) x (wqe p) (name p).
Definition set_wqe (x : wq_entry) (p : proc) : proc :=
  mkProc (state p) (chan p) (killed p) (xstate p) (pid p) (parent p) (kstack p) (sz p) (pagetable p)
    (trapframe p) (ctx p) (ofile p) (cwd p) x (name p).
Definition set_name (x : list Z) (p : proc) : proc :=
  mkProc (state p) (chan p) (killed p) (xstate p) (pid p) (parent p) (kstack p) (sz p) (pagetable p)
    (trapframe p) (ctx p) (ofile p) (cwd p) (wqe p) x.

Definition set_e_proc (x : option nat) (e : wq_entry) : wq_entry := mkEntry x (e_chan e) (e_next e) (e_queued e).
Definition set_e_chan (x : Z) (e : wq_entry) : wq_entry := mkEntry (e_proc e) x (e_next e) (e_queued e).
Definition set_e_next (x : option nat) (e : wq_entry) : wq_entry := mkEntry (e_proc e) (e_chan e) x (e_queued e).
Definition set_e_queued (x : Z) (e : wq_entry) : wq_entry := mkEntry (e_proc e) (e_chan e) (e_next e) x.

(* p->wq_entry.field = x *)
Definition upd_wqe (f : wq_entry → wq_entry) (p : proc) : proc := set_wqe (f (wqe p)) p.

(** The globals of proc.c and waitqueue.c: [proc], [wt], [nextpid], [initproc]. *)
Record ptab : Type := mkPtab {
  procs : list proc;
  wt : list (option nat);
  nextpid : Z;
  initproc : option nat;
}.

Definition upd_proc (i : nat) (f : proc → proc) (t : ptab) : ptab :=
  mkPtab (alter f i (procs t)) (wt t) (nextpid t) (initproc t).
Definition set_head (b : nat) (h : option nat) (t : ptab) : ptab :=
  mkPtab (procs t) (<[b := h]> (wt t)) (nextpid t) (initproc t).
Definition set_nextpid (n : Z) (t : ptab) : ptab := mkPtab (procs t) (wt t) n (initproc t).
Definition set_initproc (i : option nat) (t : ptab) : ptab := mkPtab (procs t) (wt t) (nextpid t) i.

(** States that contain the process table. *)
Class HasProcs (S : Type) `{HasHw S} : Type := {
  pt_of : S → ptab;
  with_pt : ptab → S → S;
  pt_of_with_pt : ∀ t s, pt_of (with_pt t s) = t;
  with_pt_with_pt : ∀ t t' s, with_pt t (with_pt t' s) = with_pt t s;
  with_pt_of : ∀ s, with_pt (pt_of s) s = s;
  pt_of_with_hw : ∀ h s, pt_of (with_hw h s) = pt_of s;
  hw_of_with_pt : ∀ t s, hw_of (with_pt t s) = hw_of s;
  with_hw_with_pt : ∀ h t s, with_hw h (with_pt t s) = with_pt t (with_hw h s);
}.

#[export] Hint Rewrite @hw_of_with_hw @with_hw_with_hw @pt_of_with_pt @with_pt_with_pt
  @pt_of_with_hw @hw_of_with_pt @with_hw_with_pt @with_hw_of @with_pt_of : st.
Ltac st_simpl := autorewrite with st in *.

(** The smallest such state. *)
Record kproc : Type := mkKproc { k_hw : hw; k_pt : ptab }.
#[global] Instance HasHw_kproc : HasHw kproc.
Proof. refine {| hw_of := k_hw; with_hw h s := mkKproc h (k_pt s) |}; by intros; destruct s || done. Defined.
#[global] Instance HasProcs_kproc : HasProcs kproc.
Proof. refine {| pt_of := k_pt; with_pt t s := mkKproc (k_hw s) t |}; by intros; try destruct s. Defined.

(** A load or store through a null or wild pointer traps in the kernel, and
    kerneltrap() panics. *)
Definition fault {S A} : M S A := panic "kerneltrap".

Section Ops.
Context {S : Type} `{HasProcs S}.

Definition mod_pt (f : ptab → ptab) : M S unit := modify (λ s, with_pt (f (pt_of s)) s).

Definition proc_at (i : nat) : M S proc :=
  p <- gets (λ s, procs (pt_of s) !! i) ;;
  match p with Some p => ret p | None => fault end.

Definition mod_proc (i : nat) (f : proc → proc) : M S unit := mod_pt (upd_proc i f).

End Ops.

Lemma procs_upd_proc i f t : procs (upd_proc i f t) = alter f i (procs t).
Proof. done. Qed.
Lemma procs_set_head b h t : procs (set_head b h t) = procs t.
Proof. done. Qed.
Lemma wt_upd_proc i f t : wt (upd_proc i f t) = wt t.
Proof. done. Qed.
