(* ===== verification/WaitQueue.v ===== *)
(** * The hashed wait queue: kernel/waitqueue.c

    The operations work on the pointers of the embedded entries, as the C code
    does; [chain] says which list of processes a head pointer denotes, and the
    lemmas show that adding and removing entries are [cons] and deletion on
    that list. *)

From S2P Require Import Prelude Params Spinlock ProcDefs.

(** ** Operations *)

Definition wq_hash (chan : Z) : Z := Z.land (Z.shiftr chan 3) (NWQUEUE - 1).

Definition wq_bucket_for (chan : Z) : nat := Z.to_nat (wq_hash chan).

Definition head_of (b : nat) (t : ptab) : option nat := default None (wt t !! b).

(* b->head = &p->wq_entry, after the entry has been filled in *)
Definition wq_add_locked (b : nat) (chan : Z) (p : nat) (t : ptab) : ptab :=
  let t := upd_proc p (upd_wqe (set_e_proc (Some p))) t in
  let t := upd_proc p (upd_wqe (set_e_chan chan)) t in
  let t := upd_proc p (upd_wqe (set_e_next (head_of b t))) t in
  let t := upd_proc p (upd_wqe (set_e_queued 1)) t in
  set_head b (Some p) t.

(* entry->next = 0; entry->chan = 0; entry->queued = 0; *)
Definition wq_clear (entry : nat) (t : ptab) : ptab :=
  let t := upd_proc entry (upd_wqe (set_e_next None)) t in
  let t := upd_proc entry (upd_wqe (set_e_chan 0)) t in
  upd_proc entry (upd_wqe (set_e_queued 0)) t.

Definition next_of (e : nat) (t : ptab) : option nat :=
  match procs t !! e with Some p => e_next (wqe p) | None => None end.

(* while(e && e->next){ ... e = e->next; }, at most [fuel] iterations *)
Fixpoint wq_remove_loop (fuel : nat) (e : option nat) (entry : nat) (t : ptab) : option ptab :=
  match fuel with
  | O => None
  | S fuel =>
      match e with
      | None => Some t
      | Some e =>
          match next_of e t with
          | None => Some t
          | Some n =>
              if decide (n = entry)
              then Some (wq_clear entry (upd_proc e (upd_wqe (set_e_next (next_of entry t))) t))
              else wq_remove_loop fuel (Some n) entry t
          end
      end
  end.

Definition wq_remove_locked (b : nat) (entry : nat) (t : ptab) : option ptab :=
  let head := head_of b t in
  if decide (head = Some entry)
  then Some (wq_clear entry (set_head b (next_of entry t) t))
  else wq_remove_loop (S (length (procs t))) head entry t.

(* the lock-free test of the bucket's head pointer *)
Definition wq_has_sleeper (chan : Z) (t : ptab) : bool :=
  match head_of (wq_bucket_for chan) t with Some _ => true | None => false end.

Section Init.
Context {S : Type} `{HasProcs S}.

Definition wq_init : M S unit :=
  for_each (Z.to_nat NWQUEUE) 0 (λ i,
    initlock (L_wq i) "wq_bucket" ;;
    mod_pt (set_head (Z.to_nat i) None)).

End Init.

(** ** The list a head pointer denotes *)

Fixpoint chain (t : ptab) (h : option nat) (l : list nat) : Prop :=
  match l with
  | [] => h = None
  | i :: l => h = Some i ∧ (∃ p, procs t !! i = Some p) ∧ chain t (next_of i t) l
  end.

Lemma wq_hash_range chan : 0 ≤ wq_hash chan < NWQUEUE.
Proof.
  unfold wq_hash, NWQUEUE. change (16 - 1) with (Z.ones 4). rewrite Z.land_ones by lia.
  apply Z.mod_pos_bound. lia.
Qed.

Lemma wq_hash_spec chan : wq_hash chan = (chan / 8) mod 16.
Proof.
  unfold wq_hash, NWQUEUE. change (16 - 1) with (Z.ones 4). rewrite Z.land_ones by lia.
  by rewrite Z.shiftr_div_pow2 by lia.
Qed.

Lemma bucket_lt chan : (wq_bucket_for chan < 16)%nat.
Proof. unfold wq_bucket_for. pose proof (wq_hash_range chan). unfold NWQUEUE in *. lia. Qed.

Lemma wqe_upd_wqe f p : wqe (upd_wqe f p) = f (wqe p).
Proof. done. Qed.

Lemma next_of_upd_ne i j f t : i ≠ j → next_of i (upd_proc j f t) = next_of i t.
Proof. intros. unfold next_of. simpl. by rewrite list_lookup_alter_ne. Qed.

Lemma next_of_upd_eq i f t p :
  procs t !! i = Some p → next_of i (upd_proc i (upd_wqe f) t) = e_next (f (wqe p)).
Proof. intros Hp. unfold next_of. simpl. by rewrite list_lookup_alter_eq, Hp. Qed.

Lemma lookup_upd_ne i j f t : i ≠ j → procs (upd_proc j f t) !! i = procs t !! i.
Proof. intros. simpl. by rewrite list_lookup_alter_ne. Qed.

Lemma head_of_set_head_eq b h t : (b < length (wt t))%nat → head_of b (set_head b h t) = h.
Proof. intros. unfold head_of. simpl. by rewrite list_lookup_insert_eq. Qed.
Lemma head_of_set_head_ne b b' h t : b' ≠ b → head_of b' (set_head b h t) = head_of b' t.
Proof. intros. unfold head_of. simpl. by rewrite list_lookup_insert_ne. Qed.
Lemma head_of_upd_proc b i f t : head_of b (upd_proc i f t) = head_of b t.
Proof. done. Qed.

(** [wq_add_locked] and [wq_clear] as one update of one process. *)
Lemma wq_add_locked_eq b c p t :
  wq_add_locked b c p t =
  set_head b (Some p) (upd_proc p (upd_wqe (λ e, mkEntry (Some p) c (head_of b t) 1)) t).
Proof.
  unfold wq_add_locked, upd_proc, set_head, head_of. simpl. f_equal.
  rewrite !list_alter_alter_eq. by apply list_alter_ext.
Qed.

Lemma wq_clear_eq p t :
  wq_clear p t = upd_proc p (upd_wqe (λ e, mkEntry (e_proc e) 0 None 0)) t.
Proof.
  unfold wq_clear, upd_proc. simpl. f_equal.
  rewrite !list_alter_alter_eq. by apply list_alter_ext.
Qed.

Lemma chain_ext t t' h l :
  (∀ i, i ∈ l → next_of i t' = next_of i t ∧ (is_Some (procs t !! i) → is_Some (procs t' !! i))) →
  chain t h l → chain t' h l.
Proof.
  revert h. induction l as [|i l IH]; intros h Hext; simpl; [done|].
  intros (-> & (p & Hp) & Hc). destruct (Hext i) as [Hn Hs]; [set_solver|].
  destruct (Hs ltac:(eauto)) as [p' Hp']. split_and!; [done|eauto|].
  rewrite Hn. apply IH; [|done]. intros j Hj. apply Hext. set_solver.
Qed.

Lemma chain_upd_notin t h l j f : j ∉ l → chain t h l → chain (upd_proc j f t) h l.
Proof.
  intros Hj. apply chain_ext. intros i Hi. assert (i ≠ j) by set_solver.
  by rewrite next_of_upd_ne, lookup_upd_ne.
Qed.

Lemma chain_upd_next t h l j f :
  (∀ p, e_next (wqe (f p)) = e_next (wqe p)) → chain t h l → chain (upd_proc j f t) h l.
Proof.
  intros Hf. apply chain_ext. intros i Hi. unfold next_of. simpl.
  destruct (decide (i = j)) as [->|].
  - rewrite list_lookup_alter_eq. destruct (procs t !! j); simpl; [|done]. by rewrite Hf.
  - by rewrite list_lookup_alter_ne.
Qed.

Lemma chain_set_head t b h' h l : chain (set_head b h' t) h l ↔ chain t h l.
Proof.
  revert h. induction l as [|i l IH]; intros h; simpl; [done|]. by rewrite IH.
Qed.

Lemma chain_inj t h l l' : chain t h l → chain t h l' → l = l'.
Proof.
  revert h l'. induction l as [|i l IH]; intros h [|i' l']; simpl; naive_solver.
Qed.

Lemma chain_app t h l1 l2 : chain t h (l1 ++ l2) →
  ∃ h', chain t h' l2 ∧ (l1 = [] → h' = h) ∧ (∀ l i, l1 = l ++ [i] → next_of i t = h').
Proof.
  revert h. induction l1 as [|i l1 IH]; intros h; simpl.
  - intros. exists h. split_and!; [done|done|]. intros [] ? ?; done.
  - intros (-> & _ & Hc). destruct (IH _ Hc) as (h' & ? & He & Hl). exists h'.
    split_and!; [done|done|]. intros l j E. destruct l as [|k l]; simplify_eq/=; [|by eapply Hl].
    symmetry. by apply He.
Qed.

Lemma chain_length t h l : chain t h l → NoDup l → (length l ≤ length (procs t))%nat.
Proof.
  intros Hc Hnd. rewrite <- (length_seq (length (procs t)) 0).
  apply submseteq_length, NoDup_submseteq; [done|]. intros i Hi.
  assert (is_Some (procs t !! i)) as Hs%lookup_lt_is_Some.
  { clear Hnd. revert h Hc. induction l as [|j l IH]; [set_solver|].
    intros h (-> & (p & Hp) & Hc). apply elem_of_cons in Hi as [->|Hi]; [eauto|]. by eapply IH. }
  apply elem_of_seq. lia.
Qed.

Lemma wq_remove_loop_spec l1 entry l2 t h fuel :
  chain t h (l1 ++ entry :: l2) → NoDup (l1 ++ entry :: l2) → (length l1 < fuel)%nat → l1 ≠ [] →
  ∃ l e, l1 = l ++ [e] ∧
    wq_remove_loop fuel h entry t =
      Some (wq_clear entry (upd_proc e (upd_wqe (set_e_next (next_of entry t))) t)).
Proof.
  revert h fuel. induction l1 as [|e l1 IH]; intros h fuel Hc Hnd Hf Hne; [done|].
  destruct fuel as [|fuel]; [simpl in Hf; lia|]. simpl in Hc. destruct Hc as (-> & _ & Hc).
  destruct l1 as [|k l1].
  - exists [], e. split; [done|]. simpl in *. destruct Hc as (Hn & _). rewrite Hn.
    by rewrite decide_True.
  - destruct (IH (next_of e t) fuel) as (l & e' & E & Hr); [done|by inversion Hnd|simpl in *; lia|done|].
    exists (e :: l), e'. rewrite E. split; [done|]. simpl. destruct Hc as (Hn & _). rewrite Hn in *.
    rewrite decide_False; [done|]. intros ->. inversion Hnd as [|?? _ Hnd']. inversion Hnd'; set_solver.
Qed.

Lemma chain_relink t h l e entry l2 :
  chain t h (l ++ e :: entry :: l2) → NoDup (l ++ e :: entry :: l2) →
  chain (upd_proc e (upd_wqe (set_e_next (next_of entry t))) t) h (l ++ e :: l2).
Proof.
  revert h. induction l as [|i l IH]; intros h Hc Hnd; simpl in Hc |- *.
  - destruct Hc as (-> & (p & Hp) & _ & _ & Hc). rewrite list_lookup_alter_eq, Hp.
    split_and!; [done|by eexists|]. rewrite (next_of_upd_eq _ _ _ _ Hp). simpl.
    apply chain_upd_notin; [|done]. simpl in Hnd. inversion Hnd; set_solver.
  - destruct Hc as (-> & (p & Hp) & Hc). simpl in Hnd. inversion Hnd as [|?? Hni Hnd']; subst.
    assert (i ≠ e) by set_solver. rewrite list_lookup_alter_ne by done.
    split_and!; [done|by eexists|]. rewrite next_of_upd_ne by done. by apply IH.
Qed.

(** What [wq_remove_locked] leaves of the other fields: processes keep
    everything but their queue entry, and entries change only as unlinking
    requires. *)
Definition unlinked (entry : nat) (l1 : list nat) (t t' : ptab) : Prop :=
  length (wt t') = length (wt t) ∧ nextpid t' = nextpid t ∧ initproc t' = initproc t ∧
  length (procs t') = length (procs t) ∧
  ∀ i p, procs t !! i = Some p → ∃ e, procs t' !! i = Some (set_wqe e p) ∧
    e_proc e = e_proc (wqe p) ∧
    (i = entry → e_chan e = 0 ∧ e_next e = None ∧ e_queued e = 0) ∧
    (i ≠ entry → e_chan e = e_chan (wqe p) ∧ e_queued e = e_queued (wqe p)) ∧
    (i ≠ entry → i ∉ l1 → e = wqe p).

Lemma set_wqe_id p : set_wqe (wqe p) p = p.
Proof. by destruct p. Qed.

Lemma wq_remove_locked_spec b l1 entry l2 t :
  chain t (head_of b t) (l1 ++ entry :: l2) → NoDup (l1 ++ entry :: l2) → (b < length (wt t))%nat →
  ∃ t', wq_remove_locked b entry t = Some t' ∧
    chain t' (head_of b t') (l1 ++ l2) ∧
    (∀ b', b' ≠ b → head_of b' t' = head_of b' t) ∧ unlinked entry l1 t t'.
Proof.
  intros Hc Hnd Hb. pose proof (chain_length _ _ _ Hc Hnd) as Hlen. unfold wq_remove_locked.
  destruct l1 as [|e0 l1].
  - simpl in Hc. destruct Hc as (Hh & (p & Hp) & Hc). rewrite decide_True by done.
    eexists. split; [done|]. rewrite wq_clear_eq. inversion Hnd; subst. split_and!.
    + apply chain_upd_notin; [set_solver|]. rewrite chain_set_head.
      by rewrite head_of_upd_proc, head_of_set_head_eq.
    + intros b' Hne. by rewrite head_of_upd_proc, head_of_set_head_ne.
    + split_and!; simpl; try done; [by rewrite length_insert|by rewrite length_alter|].
      intros i q Hq. destruct (decide (i = entry)) as [->|Hne].
      * rewrite list_lookup_alter_eq, Hq. eexists. split; [done|]. naive_solver.
      * rewrite list_lookup_alter_ne, Hq by done. exists (wqe q). by rewrite set_wqe_id.
  - rewrite decide_False.
    2:{ simpl in Hc. destruct Hc as (-> & _). intros [= ->]. inversion Hnd; set_solver. }
    destruct (wq_remove_loop_spec (e0 :: l1) entry l2 t (head_of b t) (S (length (procs t))))
      as (l & e & E & ->); [done|done|rewrite length_app in Hlen; lia|done|].
    eexists. split; [done|]. rewrite wq_clear_eq. rewrite E in *.
    rewrite <- (assoc_L (++)) in Hc, Hnd. simpl in Hc, Hnd.
    pose proof (chain_relink _ _ _ _ _ _ Hc Hnd) as Hc'.
    apply list.NoDup_app in Hnd as (_ & Hd & Hnd). inversion Hnd as [|?? Hne Hnd']; subst.
    inversion Hnd' as [|?? Hne' _]; subst. split_and!.
    + apply chain_upd_notin; [set_solver|]. by rewrite <- (assoc_L (++)).
    + done.
    + split_and!; simpl; try done; [by rewrite !length_alter|].
      intros i q Hq. destruct (decide (i = entry)) as [->|].
      * rewrite list_lookup_alter_eq, list_lookup_alter_ne, Hq by set_solver.
        eexists. split; [done|]. naive_solver.
      * rewrite list_lookup_alter_ne by done. destruct (decide (i = e)) as [->|].
        { rewrite list_lookup_alter_eq, Hq. eexists. split; [done|]. set_solver. }
        rewrite list_lookup_alter_ne, Hq by done. exists (wqe q). by rewrite set_wqe_id.
Qed.

Lemma chain_head t h l : chain t h l → h = head l.
Proof. destruct l; simpl; naive_solver. Qed.

Lemma chain_lookup t h l i : chain t h l → i ∈ l → ∃ p, procs t !! i = Some p.
Proof.
  revert h. induction l as [|j l IH]; intros h; [set_solver|].
  intros (-> & Hp & Hc) [->|Hi]%elem_of_cons; eauto.
Qed.

(** ** The queue invariant

    [L b] lists the processes queued in bucket [b].  The invariant holds
    whenever no hart is between the stores of [sleep] or [wakeup]: a process
    is SLEEPING exactly when its entry is queued, in the bucket of its
    channel, and the entry and the process name the same channel. *)

Record wq_ok (t : ptab) (L : nat → list nat) : Prop := mkWqOk {
  wo_len : length (wt t) = 16%nat;
  wo_chain : ∀ b, (b < 16)%nat → chain t (head_of b t) (L b);
  wo_nodup : ∀ b, (b < 16)%nat → NoDup (L b);
  wo_entry : ∀ b i p, (b < 16)%nat → i ∈ L b → procs t !! i = Some p →
    e_proc (wqe p) = Some i ∧ e_queued (wqe p) = 1 ∧ state p = SLEEPING ∧
    chan p = e_chan (wqe p) ∧ wq_bucket_for (chan p) = b;
  wo_sleep : ∀ i p, procs t !! i = Some p → state p = SLEEPING → i ∈ L (wq_bucket_for (chan p));
}.

Definition wq_inv (t : ptab) : Prop := ∃ L, wq_ok t L.

Definition Lset (L : nat → list nat) (b : nat) (l : list nat) : nat → list nat :=
  λ b', if decide (b' = b) then l else L b'.

(** Buckets do not share processes. *)
Lemma wq_ok_disjoint t L b b' i :
  wq_ok t L → (b < 16)%nat → (b' < 16)%nat → i ∈ L b → i ∈ L b' → b = b'.
Proof.
  intros Hok Hb Hb' Hi Hi'.
  destruct (chain_lookup _ _ _ _ (wo_chain _ _ Hok b Hb) Hi) as [p Hp].
  destruct (wo_entry _ _ Hok b i p) as (_ & _ & _ & _ & <-); [done..|].
  by destruct (wo_entry _ _ Hok b' i p) as (_ & _ & _ & _ & <-).
Qed.

(** The whole process except its queue entry. *)
Definition keeps (f : nat → proc → proc) (t t' : ptab) : Prop :=
  length (procs t') = length (procs t) ∧ nextpid t' = nextpid t ∧ initproc t' = initproc t ∧
  ∀ i p, procs t !! i = Some p → ∃ e, procs t' !! i = Some (set_wqe e (f i p)).

Lemma set_wqe_set_wqe e e' p : set_wqe e (set_wqe e' p) = set_wqe e p.
Proof. done. Qed.

(** Waking the process [i] of bucket [b]: its state becomes RUNNABLE and its
    entry leaves the bucket; everything else stays. *)
Lemma wq_ok_wake t L b l1 i l2 :
  wq_ok t L → (b < 16)%nat → L b = l1 ++ i :: l2 →
  ∃ t', wq_remove_locked b i (upd_proc i (set_state RUNNABLE) t) = Some t' ∧
    wq_ok t' (Lset L b (l1 ++ l2)) ∧
    keeps (λ j p, if decide (j = i) then set_state RUNNABLE p else p) t t'.
Proof.
  intros Hok Hb EL. set (t1 := upd_proc i (set_state RUNNABLE) t).
  assert (chain t1 (head_of b t1) (l1 ++ i :: l2)) as Hc
    by (rewrite <- EL; apply chain_upd_next; [done|exact (wo_chain _ _ Hok b Hb)]).
  pose proof (wo_nodup _ _ Hok b Hb) as Hnd. rewrite EL in Hnd.
  destruct (wq_remove_locked_spec b l1 i l2 t1) as (t' & Hr & Hc' & Hh & Hu); [done|done|..].
  { simpl. by rewrite (wo_len _ _ Hok). }
  exists t'. split; [done|]. destruct Hu as (Hwt & Hnp & Hip & Hlen & Hu).
  apply list.NoDup_app in Hnd as (Hnd1 & Hd & [Hi2 Hnd2]%list.NoDup_cons).
  assert (∀ j p, procs t !! j = Some p →
    ∃ e, procs t' !! j = Some (set_wqe e (if decide (j = i) then set_state RUNNABLE p else p)) ∧
      e_proc e = e_proc (wqe p) ∧ (j ≠ i → e_chan e = e_chan (wqe p) ∧ e_queued e = e_queued (wqe p)) ∧
      (j ≠ i → j ∉ l1 → e = wqe p)) as Hpr.
  { intros j p Hp. destruct (decide (j = i)) as [->|Hji].
    - destruct (Hu i (set_state RUNNABLE p)) as (e & He & ? & ? & ? & ?).
      { unfold t1. simpl. by rewrite list_lookup_alter_eq, Hp. }
      exists e. done.
    - destruct (Hu j p) as (e & He & ? & ? & ? & ?); [unfold t1; by rewrite lookup_upd_ne|].
      exists e. naive_solver. }
  split.
  - assert (∀ j p', procs t' !! j = Some p' → ∃ p, procs t !! j = Some p) as Hback.
    { intros j p' Hp'%lookup_lt_Some. apply lookup_lt_is_Some. unfold t1 in Hlen. simpl in Hlen.
      rewrite length_alter in Hlen. lia. }
    split.
    + rewrite Hwt. simpl. apply Hok.
    + intros b' Hb'. unfold Lset. case_decide as E; [by subst|]. rewrite Hh by done.
      eapply chain_ext; [|by apply (wo_chain _ _ Hok)].
      intros j Hj. assert (j ∉ l1 ++ i :: l2) as Hnj.
      { rewrite <- EL. intros Hj'. destruct E. by eapply wq_ok_disjoint. }
      destruct (chain_lookup _ _ _ _ (wo_chain _ _ Hok b' Hb') Hj) as [p Hp].
      destruct (Hpr j p Hp) as (e & He & _ & _ & Hee). rewrite decide_False in He by set_solver.
      rewrite Hee in He by set_solver. rewrite set_wqe_id in He.
      unfold next_of. rewrite He, Hp. done.
    + intros b' Hb'. unfold Lset. case_decide; [|by apply Hok].
      apply list.NoDup_app. split_and!; [done| |done]. set_solver.
    + intros b' j p' Hb' Hj Hp'. destruct (Hback j p' Hp') as [p Hp].
      destruct (Hpr j p Hp) as (e & He & Hep & Hec & _). rewrite He in Hp'. simplify_eq.
      assert (j ≠ i ∧ j ∈ L b') as [Hji HjL].
      { unfold Lset in Hj. destruct (decide (b' = b)) as [->|E]; [rewrite EL; set_solver|].
        split; [|done]. intros ->. destruct E.
        apply (wq_ok_disjoint t L b' b i); [done..|rewrite EL; set_solver]. }
      rewrite decide_False by done. simpl. destruct (Hec Hji) as [-> ->]. rewrite Hep.
      by apply (wo_entry _ _ Hok).
    + intros j p' Hp'. destruct (Hback j p' Hp') as [p Hp].
      destruct (Hpr j p Hp) as (e & He & _). rewrite He in Hp'. simplify_eq. simpl.
      case_decide as Hji; [done|]. intros Hs. pose proof (wo_sleep _ _ Hok j p Hp Hs) as Hin.
      unfold Lset. case_decide as E; [|done]. rewrite E, EL in Hin. set_solver.
  - split_and!; [unfold t1 in Hlen; simpl in Hlen; by rewrite length_alter in Hlen|done|done|].
    intros j p Hp. destruct (Hpr j p Hp) as (e & He & _). eauto.
Qed.

(** Going to sleep: the process is put at the head of its channel's bucket. *)

Lemma chain_notin t L b i p :
  wq_ok t L → (b < 16)%nat → procs t !! i = Some p → state p ≠ SLEEPING → i ∉ L b.
Proof.
  intros Hok Hb Hp Hs Hi. by destruct (wo_entry _ _ Hok b i p Hb Hi Hp) as (_ & _ & ? & _).
Qed.

(** The three stores [sleep] makes under the bucket lock. *)
Definition go_to_sleep (c : Z) (i : nat) (t : ptab) : ptab :=
  upd_proc i (set_state SLEEPING) (upd_proc i (set_chan c) (wq_add_locked (wq_bucket_for c) c i t)).

Lemma go_to_sleep_eq c i t :
  go_to_sleep c i t =
  set_head (wq_bucket_for c) (Some i)
    (upd_proc i (λ p, set_wqe (mkEntry (Some i) c (head_of (wq_bucket_for c) t) 1)
                        (set_state SLEEPING (set_chan c p))) t).
Proof.
  unfold go_to_sleep. rewrite wq_add_locked_eq. unfold upd_proc, set_head. simpl. f_equal.
  rewrite !list_alter_alter_eq. by apply list_alter_ext.
Qed.

Lemma lookup_go_to_sleep c i t j p :
  procs (go_to_sleep c i t) !! j = Some p →
  (j ≠ i ∧ procs t !! j = Some p) ∨
  (j = i ∧ ∃ q, procs t !! i = Some q ∧
     p = set_wqe (mkEntry (Some i) c (head_of (wq_bucket_for c) t) 1) (set_state SLEEPING (set_chan c q))).
Proof.
  rewrite go_to_sleep_eq. simpl. destruct (decide (j = i)) as [->|].
  - rewrite list_lookup_alter_eq. destruct (procs t !! i) eqn:E; naive_solver.
  - rewrite list_lookup_alter_ne by done. naive_solver.
Qed.

Lemma wq_ok_sleep t L c i p :
  wq_ok t L → procs t !! i = Some p → state p ≠ SLEEPING →
  wq_ok (go_to_sleep c i t) (Lset L (wq_bucket_for c) (i :: L (wq_bucket_for c))).
Proof.
  intros Hok Hp Hs. pose proof (bucket_lt c) as Hb. set (b := wq_bucket_for c) in *.
  pose proof (λ b' Hb', chain_notin t L b' i p Hok Hb' Hp Hs) as Hni. split.
  - rewrite go_to_sleep_eq. simpl. rewrite length_insert. apply Hok.
  - intros b' Hb'. unfold Lset. rewrite go_to_sleep_eq, chain_set_head. fold b. case_decide as E.
    + subst b'. rewrite head_of_set_head_eq by (simpl; rewrite (wo_len _ _ Hok); lia). simpl.
      rewrite list_lookup_alter_eq, Hp. split_and!; [done|by eexists|].
      unfold next_of. simpl. rewrite list_lookup_alter_eq, Hp. simpl.
      apply chain_upd_notin; [by apply Hni|by apply Hok].
    + rewrite head_of_set_head_ne, head_of_upd_proc by done.
      apply chain_upd_notin; [by apply Hni|by apply (wo_chain _ _ Hok)].
  - intros b' Hb'. unfold Lset. case_decide; [|by apply Hok].
    apply list.NoDup_cons. split; [by apply Hni|by apply Hok].
  - intros b' j q Hb' Hj Hq.
    destruct (lookup_go_to_sleep _ _ _ _ _ Hq) as [[Hne Hq']|(-> & q' & Hq' & ->)].
    + apply (wo_entry _ _ Hok); [done| |done]. unfold Lset in Hj. case_decide as E; [subst; set_solver|done].
    + simpl. split_and!; try done. unfold Lset in Hj. case_decide as E; [done|]. by destruct (Hni b' Hb').
  - intros j q Hq Hsl.
    destruct (lookup_go_to_sleep _ _ _ _ _ Hq) as [[Hne Hq']|(-> & q' & Hq' & ->)].
    + pose proof (wo_sleep _ _ Hok j q Hq' Hsl) as Hin. unfold Lset. case_decide as E; [|done].
      rewrite E in Hin. set_solver.
    + simpl. fold b. unfold Lset. rewrite decide_True by done. set_solver.
Qed.

(** Before anybody sleeps the queues are consistent. *)
Lemma wq_ok_empty t :
  length (wt t) = 16%nat → (∀ b, (b < 16)%nat → head_of b t = None) →
  (∀ i p, procs t !! i = Some p → state p ≠ SLEEPING) → wq_ok t (λ _, []).
Proof.
  intros Hl Hh Hs. split; try done.
  - intros; apply NoDup_nil_2.
  - set_solver.
  - intros i p Hp Hst. by destruct (Hs i p).
Qed.

(** Changing a process that does not sleep, without touching its entry. *)
Lemma wq_ok_upd t L i p f :
  wq_ok t L → procs t !! i = Some p → state p ≠ SLEEPING → state (f p) ≠ SLEEPING →
  wq_ok (upd_proc i f t) L.
Proof.
  intros Hok Hp Hs Hs'. assert (∀ b, (b < 16)%nat → i ∉ L b) as Hn by eauto using chain_notin.
  split.
  - apply Hok.
  - intros b Hb. apply chain_upd_notin; [by apply Hn|]. by apply (wo_chain _ _ Hok).
  - apply Hok.
  - intros b j q Hb Hj Hq. assert (j ≠ i) by (intros ->; by apply (Hn b)).
    rewrite lookup_upd_ne in Hq by done. by apply (wo_entry _ _ Hok).
  - intros j q Hq Hst. simpl in Hq. destruct (decide (j = i)) as [->|].
    + rewrite list_lookup_alter_eq, Hp in Hq. by simplify_eq/=.
    + rewrite list_lookup_alter_ne in Hq by done. by apply (wo_sleep _ _ Hok).
Qed.

Lemma wq_inv_upd t i p f :
  wq_inv t → procs t !! i = Some p → state p ≠ SLEEPING → state (f p) ≠ SLEEPING →
  wq_inv (upd_proc i f t).
Proof. intros [L Hok] ???. exists L. by eapply wq_ok_upd. Qed.
