(* ===== verification/Sched.v ===== *)
(** * Sleep, wakeup and scheduling: the second half of kernel/proc.c

    [sched] gives up the CPU: the model runs the scheduler's side of [swtch]
    (it clears [c->proc] and releases [p->lock]) and then suspends the call.
    The state at that moment is what the other threads see.  [scheduler_try]
    is the other direction: it picks a process and switches to it, and the
    suspended call goes on in the state it leaves. *)

From S2P Require Import Prelude Params Spinlock ProcDefs WaitQueue.

Definition lkp (i : nat) : lockid := L_proc (Z.of_nat i).
Definition lkb (b : nat) : lockid := L_wq (Z.of_nat b).

Section Ops.
Context {S : Type} `{HasProcs S}.

(* myproc()->..., where the code relies on a current process *)
Definition curproc : M S nat :=
  p <- myproc ;;
  match p with Some i => ret i | None => fault end.

Definition set_cproc (p : option nat) : M S unit :=
  mod_hw (λ h, let c := mycpu h in set_cpu (mkCpu p (noff c) (intena c) (sie c)) h).

Definition set_intena (b : bool) : M S unit :=
  mod_hw (λ h, let c := mycpu h in set_cpu (mkCpu (cproc c) (noff c) b (sie c)) h).

(* scheduler() after swtch() came back: c->proc = 0; release(&p->lock); *)
Definition scheduler_resume (i : nat) : M S unit :=
  set_cproc None ;;
  release (lkp i).

Definition sched : M S unit :=
  i <- curproc ;;
  h <- holding (lkp i) ;;
  if negb h then panic "sched p->lock" else
  c <- gets (λ s, mycpu (hw_of s)) ;;
  if decide (noff c ≠ 1) then panic "sched locks" else
  p <- proc_at i ;;
  if decide (state p = RUNNING) then panic "sched RUNNING" else
  on <- intr_get ;;
  if on : bool then panic "sched interruptible" else
  c <- gets (λ s, mycpu (hw_of s)) ;;
  scheduler_resume i ;;
  switch ;;
  set_intena (intena c).

(* one iteration of scheduler()'s loop, up to the switch into the process *)
Definition scheduler_try (i : nat) : M S bool :=
  acquire (lkp i) ;;
  p <- proc_at i ;;
  if decide (state p = RUNNABLE)
  then mod_proc i (set_state RUNNING) ;; set_cproc (Some i) ;; ret true
  else release (lkp i) ;; ret false.

(* the for loop over the table, from slot [i]: the slot switched to, if any *)
Fixpoint scheduler_scan (n : nat) (i : nat) : M S (option nat) :=
  match n with
  | O => ret None
  | Datatypes.S n =>
      found <- scheduler_try i ;;
      if found : bool then ret (Some i) else scheduler_scan n (Datatypes.S i)
  end.

Definition yield : M S unit :=
  i <- curproc ;;
  acquire (lkp i) ;;
  mod_proc i (set_state RUNNABLE) ;;
  sched ;;
  release (lkp i).

(* wq_remove_locked(b, e); a list that never ends is an endless loop *)
Definition wq_remove (b e : nat) : M S unit := λ s,
  match wq_remove_locked b e (pt_of s) with
  | Some t => Ok tt (with_pt t s)
  | None => Spin s
  end.

Definition sleep (chan : Z) (lk : lockid) : M S unit :=
  i <- curproc ;;
  let b := wq_bucket_for chan in
  acquire (lkb b) ;;
  acquire (lkp i) ;;
  release lk ;;
  mod_pt (wq_add_locked b chan i) ;;
  mod_proc i (set_chan chan) ;;
  mod_proc i (set_state SLEEPING) ;;
  release (lkb b) ;;
  sched ;;
  mod_proc i (set_chan 0) ;;
  release (lkp i) ;;
  acquire lk.

(* while(e){ ... e = next; } of wakeup(), at most [fuel] iterations *)
Fixpoint wakeup_loop (fuel b : nat) (chan : Z) (e : option nat) : M S unit :=
  match fuel with
  | O => λ s, Spin s
  | Datatypes.S fuel =>
      match e with
      | None => ret tt
      | Some i =>
          p <- proc_at i ;;
          let next := e_next (wqe p) in
          (if decide (e_chan (wqe p) = chan) then
             match e_proc (wqe p) with
             | None => fault
             | Some j =>
                 acquire (lkp j) ;;
                 q <- proc_at j ;;
                 (if decide (state q = SLEEPING ∧ ProcDefs.chan q = chan)
                  then mod_proc j (set_state RUNNABLE) ;; wq_remove b i
                  else ret tt) ;;
                 release (lkp j)
             end
           else ret tt) ;;
          wakeup_loop fuel b chan next
      end
  end.

Definition wakeup (chan : Z) : M S unit :=
  let b := wq_bucket_for chan in
  acquire (lkb b) ;;
  t <- gets pt_of ;;
  wakeup_loop (Datatypes.S (length (procs t))) b chan (head_of b t) ;;
  release (lkb b).

Fixpoint wakeup_one_loop (fuel b : nat) (chan : Z) (e : option nat) : M S unit :=
  match fuel with
  | O => λ s, Spin s
  | Datatypes.S fuel =>
      match e with
      | None => ret tt
      | Some i =>
          p <- proc_at i ;;
          let next := e_next (wqe p) in
          woke <- (if decide (e_chan (wqe p) = chan) then
                     match e_proc (wqe p) with
                     | None => fault
                     | Some j =>
                         acquire (lkp j) ;;
                         q <- proc_at j ;;
                         if decide (state q = SLEEPING ∧ ProcDefs.chan q = chan)
                         then mod_proc j (set_state RUNNABLE) ;; wq_remove b i ;;
                              release (lkp j) ;; ret true
                         else release (lkp j) ;; ret false
                     end
                   else ret false) ;;
          if woke : bool then ret tt else wakeup_one_loop fuel b chan next
      end
  end.

Definition wakeup_one (chan : Z) : M S unit :=
  let b := wq_bucket_for chan in
  acquire (lkb b) ;;
  t <- gets pt_of ;;
  wakeup_one_loop (Datatypes.S (length (procs t))) b chan (head_of b t) ;;
  release (lkb b).

Definition kkill (pid : Z) : M S Z :=
  r <- for_loop (Z.to_nat NPROC) 0 (λ i,
    let i := Z.to_nat i in
    acquire (lkp i) ;;
    p <- proc_at i ;;
    if decide (ProcDefs.pid p = pid) then
      mod_proc i (set_killed 1) ;;
      if decide (state p = SLEEPING) then
        let chan := ProcDefs.chan p in
        release (lkp i) ;;
        wakeup chan ;;
        ret (Some 0)
      else
        release (lkp i) ;;
        ret (Some 0)
    else
      release (lkp i) ;;
      ret None) ;;
  ret (default (-1) r).

Definition setkilled (i : nat) : M S unit :=
  acquire (lkp i) ;;
  mod_proc i (set_killed 1) ;;
  release (lkp i).

Definition killed (i : nat) : M S Z :=
  acquire (lkp i) ;;
  p <- proc_at i ;;
  let k := ProcDefs.killed p in
  release (lkp i) ;;
  ret k.

End Ops.

(** ** The reference semantics of wakeup

    docs/design.md, section 1, describes the original [wakeup]: scan the
    process table and make every process that sleeps on the channel
    RUNNABLE. *)

Definition wake1 (c : Z) (p : proc) : proc :=
  if decide (state p = SLEEPING ∧ chan p = c) then set_state RUNNABLE p else p.

Lemma wake1_set_wqe c e p : wake1 c (set_wqe e p) = set_wqe e (wake1 c p).
Proof. unfold wake1. simpl. by case_decide. Qed.

Lemma keeps_refl t : keeps (λ _ p, p) t t.
Proof. split_and!; try done. intros i p Hp. exists (wqe p). by rewrite set_wqe_id. Qed.

Lemma keeps_trans f g t1 t2 t3 :
  (∀ i e p, g i (set_wqe e p) = set_wqe e (g i p)) →
  keeps f t1 t2 → keeps g t2 t3 → keeps (λ i p, g i (f i p)) t1 t3.
Proof.
  intros Hg (? & ? & ? & K1) (? & ? & ? & K2). split_and!; try congruence.
  intros i p Hp. destruct (K1 i p Hp) as [e He]. destruct (K2 i _ He) as [e' He'].
  exists e'. by rewrite He', Hg.
Qed.

Lemma keeps_ext f g t t' :
  (∀ i p, procs t !! i = Some p → f i p = g i p) → keeps f t t' → keeps g t t'.
Proof.
  intros Hfg (? & ? & ? & K). split_and!; try done. intros i p Hp.
  rewrite <- Hfg by done. by apply K.
Qed.

(** What the invariant says of a queued process and of the entry after it. *)
Lemma wq_ok_at t L b pre i l :
  wq_ok t L → (b < 16)%nat → L b = pre ++ i :: l →
  ∃ p, procs t !! i = Some p ∧ e_proc (wqe p) = Some i ∧ state p = SLEEPING ∧
    chan p = e_chan (wqe p) ∧ e_next (wqe p) = head l ∧ i ∉ l.
Proof.
  intros Hok Hb EL. assert (i ∈ L b) as Hi by (rewrite EL; set_solver).
  pose proof (wo_chain _ _ Hok b Hb) as Hc. pose proof (wo_nodup _ _ Hok b Hb) as Hnd.
  destruct (chain_lookup _ _ _ _ Hc Hi) as [p Hp]. exists p.
  destruct (wo_entry _ _ Hok b i p Hb Hi Hp) as (Hep & Hq & Hst & Hch & Hbk).
  rewrite EL in Hnd. apply list.NoDup_app in Hnd as (_ & _ & [Hil _]%list.NoDup_cons).
  split_and!; try done.
  rewrite EL in Hc. apply chain_app in Hc as (h' & (-> & _ & Hc') & _).
  apply chain_head in Hc'. unfold next_of in Hc'. by rewrite Hp in Hc'.
Qed.

Section Wakeup.
Context {S : Type} `{HasProcs S}.
Implicit Types s : S.

Lemma wp_proc_at i s p Q : procs (pt_of s) !! i = Some p → Q p s → wp (proc_at i) s Q.
Proof. intros Hp HQ. unfold proc_at. wp_go. rewrite Hp. by wp_go. Qed.

Lemma wp_mod_proc i f s Q : Q tt (with_pt (upd_proc i f (pt_of s)) s) → wp (mod_proc i f) s Q.
Proof. done. Qed.

Lemma wp_wq_remove b e s t Q :
  wq_remove_locked b e (pt_of s) = Some t → Q tt (with_pt t s) → wp (wq_remove b e) s Q.
Proof. intros Ht HQ. unfold wp, wq_remove. by rewrite Ht. Qed.

(** Locks that a wakeup needs besides the bucket's. *)
Definition plocks_free (t : ptab) (h : hw) : Prop := ∀ j p, procs t !! j = Some p → lock_free (lkp j) h.

Lemma plocks_free_keeps f t t' h : keeps f t t' → plocks_free t h → plocks_free t' h.
Proof.
  intros (Hl & _) Hp j p Hj%lookup_lt_Some. rewrite Hl in Hj.
  apply lookup_lt_is_Some in Hj as [q Hq]. by eapply Hp.
Qed.

Lemma wakeup_loop_spec c l : ∀ fuel pre L s,
  let b := wq_bucket_for c in
  wq_ok (pt_of s) L → L b = pre ++ l →
  cpu_ok (hw_of s) → 0 < noff (mycpu (hw_of s)) → plocks_free (pt_of s) (hw_of s) →
  (length l < fuel)%nat →
  wp (wakeup_loop fuel b c (head l)) s (λ _ s', ∃ t' L', s' = with_pt t' s ∧ wq_ok t' L' ∧
    keeps (λ j p, if decide (j ∈ l) then wake1 c p else p) (pt_of s) t').
Proof.
  intros fuel pre L s b. pose proof (bucket_lt c) as Hb. fold b in Hb.
  revert fuel pre L s.
  induction l as [|i l IH]; intros fuel pre L s Hok EL Hcpu Hn Hpl Hf; (destruct fuel as [|fuel]; [simpl in *; lia|]).
  - apply wp_ret. exists (pt_of s), L. rewrite with_pt_of. split_and!; [done|done|].
    eapply keeps_ext, keeps_refl. intros j p _. by rewrite decide_False by set_solver.
  - cbn [wakeup_loop head].
    destruct (wq_ok_at _ _ _ _ _ _ Hok Hb EL) as (p & Hp & Hep & Hst & Hch & Hnext & Hil).
    wp_go. eapply wp_proc_at; [done|]. wp_go. rewrite Hnext. case_decide as Ec.
    + rewrite Hep. destruct (wq_ok_wake _ _ b pre i l Hok Hb EL) as (t1 & Hr & Hok1 & Hk1).
      wp_go. apply wp_acquire; [by eapply Hpl|]. wp_go. eapply wp_proc_at; [by st_simpl|].
      rewrite decide_True by (split; congruence). wp_go. apply wp_mod_proc. wp_go.
      eapply wp_wq_remove; [st_simpl; exact Hr|]. wp_go.
      eapply (wp_release _ _ (hw_of s)); [by st_simpl|done|by eapply Hpl|].
      rewrite hw_settle_nested by done. st_simpl.
      eapply wp_mono; [apply (IH fuel pre (Lset L b (pre ++ l)) (with_pt t1 s)); st_simpl; try done|].
      * unfold Lset. by rewrite decide_True.
      * by eapply plocks_free_keeps.
      * simpl in Hf. lia.
      * intros [] s' (t' & L' & -> & Hok' & Hk'). st_simpl. exists t', L'. split_and!; [done|done|].
        eapply keeps_ext; [|eapply keeps_trans; [|exact Hk1|exact Hk']].
        -- intros j q Hjq. simpl. destruct (decide (j = i)) as [->|].
           ++ rewrite decide_False, decide_True by set_solver. simplify_eq.
              unfold wake1. by rewrite decide_True by (split; congruence).
           ++ destruct (decide (j ∈ l)); [rewrite decide_True by set_solver|rewrite decide_False by set_solver]; done.
        -- intros j e q. simpl. case_decide; [apply wake1_set_wqe|done].
    + wp_go. eapply wp_mono; [apply (IH fuel (pre ++ [i]) L s); try done|].
      * by rewrite <- (assoc_L (++)).
      * simpl in Hf. lia.
      * intros [] s' (t' & L' & -> & Hok' & Hk'). exists t', L'. split_and!; [done|done|].
        eapply keeps_ext; [|exact Hk']. intros j q Hjq. simpl. destruct (decide (j = i)) as [->|].
        -- rewrite decide_False, decide_True by set_solver. simplify_eq.
           unfold wake1. rewrite decide_False; [done|]. intros [_ ?]. congruence.
        -- destruct (decide (j ∈ l)); [rewrite decide_True by set_solver|rewrite decide_False by set_solver]; done.
Qed.

Lemma wakeup_one_loop_spec c l : ∀ fuel pre L s,
  let b := wq_bucket_for c in
  wq_ok (pt_of s) L → L b = pre ++ l →
  cpu_ok (hw_of s) → 0 < noff (mycpu (hw_of s)) → plocks_free (pt_of s) (hw_of s) →
  (length l < fuel)%nat →
  wp (wakeup_one_loop fuel b c (head l)) s (λ _ s', ∃ t' L', s' = with_pt t' s ∧ wq_ok t' L' ∧
    ((∃ i p l1 l2, l = l1 ++ i :: l2 ∧ procs (pt_of s) !! i = Some p ∧ chan p = c ∧
        keeps (λ j p, if decide (j = i) then set_state RUNNABLE p else p) (pt_of s) t') ∨
     ((∀ i p, i ∈ l → procs (pt_of s) !! i = Some p → chan p ≠ c) ∧ t' = pt_of s))).
Proof.
  intros fuel pre L s b. pose proof (bucket_lt c) as Hb. fold b in Hb.
  revert fuel pre L s.
  induction l as [|i l IH]; intros fuel pre L s Hok EL Hcpu Hn Hpl Hf;
    (destruct fuel as [|fuel]; [simpl in *; lia|]).
  - apply wp_ret. exists (pt_of s), L. rewrite with_pt_of. split_and!; [done|done|].
    right. set_solver.
  - cbn [wakeup_one_loop head].
    destruct (wq_ok_at _ _ _ _ _ _ Hok Hb EL) as (p & Hp & Hep & Hst & Hch & Hnext & Hil).
    wp_go. eapply wp_proc_at; [done|]. wp_go. rewrite Hnext. case_decide as Ec.
    + rewrite Hep. destruct (wq_ok_wake _ _ b pre i l Hok Hb EL) as (t1 & Hr & Hok1 & Hk1).
      wp_go. apply wp_acquire; [by eapply Hpl|]. wp_go. eapply wp_proc_at; [by st_simpl|].
      rewrite decide_True by (split; congruence). wp_go. apply wp_mod_proc. wp_go.
      eapply wp_wq_remove; [st_simpl; exact Hr|]. wp_go.
      eapply (wp_release _ _ (hw_of s)); [by st_simpl|done|by eapply Hpl|].
      rewrite hw_settle_nested by done. st_simpl. wp_go.
      exists t1, (Lset L b (pre ++ l)). split_and!; [done|done|]. left.
      exists i, p, [], l. split_and!; [done|done|congruence|done].
    + wp_go. eapply wp_mono; [apply (IH fuel (pre ++ [i]) L s); try done|].
      * by rewrite <- (assoc_L (++)).
      * simpl in Hf. lia.
      * intros [] s' (t' & L' & -> & Hok' & Hcase). exists t', L'. split_and!; [done|done|].
        destruct Hcase as [(k & q & l1 & l2 & -> & ? & ? & ?)|[Hno ->]].
        -- left. by exists k, q, (i :: l1), l2.
        -- right. split; [|done]. intros j q [->|Hj]%elem_of_cons Hq; [|by eapply Hno].
           simplify_eq. congruence.
Qed.

(** A state in which this hart may call into the wait queue: the queue and
    process locks are free and the queues agree with the process table. *)
Record quiet (s : S) : Prop := mkQuiet {
  q_cpu : cpu_ok (hw_of s);
  q_wq : ∀ b : nat, (b < 16)%nat → lock_free (lkb b) (hw_of s);
  q_proc : plocks_free (pt_of s) (hw_of s);
  q_inv : wq_inv (pt_of s);
}.

Lemma plocks_free_acq b t h : plocks_free t h → plocks_free t (hw_acq (lkb b) h).
Proof. intros Hp j p Hj. apply lock_free_acq; [done|by eapply Hp]. Qed.

Lemma wakeup_spec c s : quiet s →
  ∃ t', wakeup c s = Ok tt (with_pt t' (with_hw (hw_settle (hw_of s)) s)) ∧ wq_inv t' ∧
    keeps (λ _ p, wake1 c p) (pt_of s) t'.
Proof.
  intros [Hcpu Hb Hp [L Hok]]. pose proof (bucket_lt c) as Hbl. set (b := wq_bucket_for c) in *.
  enough (wp (wakeup c) s (λ _ s', ∃ t', s' = with_pt t' (with_hw (hw_settle (hw_of s)) s) ∧
    wq_inv t' ∧ keeps (λ _ p, wake1 c p) (pt_of s) t')) as ([] & ? & -> & ? & -> & ? & ?)%wp_elim by eauto.
  unfold wakeup. fold b. wp_go. apply wp_acquire; [by apply Hb|]. wp_go.
  pose proof (wo_chain _ _ Hok b Hbl) as Hc. pose proof (wo_nodup _ _ Hok b Hbl) as Hnd.
  rewrite pt_of_with_hw, (chain_head _ _ _ Hc).
  pose proof (chain_length _ _ _ Hc Hnd). pose proof (noff_nonneg _ Hcpu).
  eapply wp_mono; [apply (wakeup_loop_spec c (L b) _ [] L); st_simpl; auto using plocks_free_acq with xv6|].
  { rewrite noff_acq. lia. }
  { lia. }
  intros [] s' (t' & L' & -> & Hok' & Hk). st_simpl.
  eapply (wp_release _ _ (hw_of s)); [by st_simpl|done|by apply Hb|]. st_simpl.
  exists t'. split_and!; [done|by exists L'|]. eapply keeps_ext; [|exact Hk].
  intros j p Hjp. simpl. case_decide as E; [done|]. unfold wake1. rewrite decide_False; [done|].
  intros [Hs <-]. destruct E. by apply (wo_sleep _ _ Hok).
Qed.

Lemma wakeup_one_spec c s : quiet s →
  ∃ t', wakeup_one c s = Ok tt (with_pt t' (with_hw (hw_settle (hw_of s)) s)) ∧ wq_inv t' ∧
    ((∃ i p, procs (pt_of s) !! i = Some p ∧ state p = SLEEPING ∧ chan p = c ∧
        keeps (λ j p, if decide (j = i) then set_state RUNNABLE p else p) (pt_of s) t') ∨
     ((∀ i p, procs (pt_of s) !! i = Some p → state p = SLEEPING → chan p ≠ c) ∧ t' = pt_of s)).
Proof.
  intros [Hcpu Hb Hp [L Hok]]. pose proof (bucket_lt c) as Hbl. set (b := wq_bucket_for c) in *.
  match goal with |- ∃ t', _ = Ok tt _ ∧ @?P t' =>
    enough (wp (wakeup_one c) s (λ _ s', ∃ t', s' = with_pt t' (with_hw (hw_settle (hw_of s)) s) ∧ P t'))
      as ([] & ? & -> & ? & -> & ?)%wp_elim by eauto end.
  unfold wakeup_one. fold b. wp_go. apply wp_acquire; [by apply Hb|]. wp_go.
  pose proof (wo_chain _ _ Hok b Hbl) as Hc. pose proof (wo_nodup _ _ Hok b Hbl) as Hnd.
  rewrite pt_of_with_hw, (chain_head _ _ _ Hc).
  pose proof (chain_length _ _ _ Hc Hnd). pose proof (noff_nonneg _ Hcpu).
  eapply wp_mono; [apply (wakeup_one_loop_spec c (L b) _ [] L); st_simpl; auto using plocks_free_acq with xv6|].
  { rewrite noff_acq. lia. }
  { lia. }
  intros [] s' (t' & L' & -> & Hok' & Hk). st_simpl.
  eapply (wp_release _ _ (hw_of s)); [by st_simpl|done|by apply Hb|]. st_simpl.
  exists t'. split_and!; [done|by exists L'|].
  destruct Hk as [(i & p & l1 & l2 & EL & Hip & <- & Hk)|[Hno ->]].
  - left. exists i, p. destruct (wo_entry _ _ Hok b i p) as (_ & _ & ? & _); [done|rewrite EL; set_solver|done|].
    done.
  - right. split; [|done]. intros i p Hip Hs <-. eapply Hno; [|done|done]. by apply (wo_sleep _ _ Hok).
Qed.

End Wakeup.

(** ** Forgetting the queues

    The abstract state of sleep and wakeup: the process table without the
    queue entries. *)

Definition erase (t : ptab) : list proc := set_wqe (mkEntry None 0 None 0) <$> procs t.

Lemma erase_keeps f t t' :
  (∀ i e p, f i (set_wqe e p) = set_wqe e (f i p)) → keeps f t t' → erase t' = imap f (erase t).
Proof.
  intros Hf (Hl & _ & _ & Hk). apply list_eq. intros i. unfold erase.
  rewrite list_lookup_imap, !list_lookup_fmap.
  destruct (procs t !! i) as [p|] eqn:Hp; simpl.
  - destruct (Hk i p Hp) as [e ->]. simpl. by rewrite Hf.
  - apply lookup_ge_None in Hp. rewrite lookup_ge_None_2 by lia. done.
Qed.

(** ** Going to sleep *)

Lemma noff_rel lk h : noff (mycpu (hw_rel lk h)) = noff (mycpu h) - 1.
Proof. unfold hw_rel, hw_pop. by hw_simpl. Qed.
Lemma sie_rel lk h : noff (mycpu h) ≠ 1 → sie (mycpu (hw_rel lk h)) = sie (mycpu h).
Proof. intros. unfold hw_rel, hw_pop. hw_simpl. rewrite decide_False; [done|]. lia. Qed.
Lemma cproc_acq lk h : cproc (mycpu (hw_acq lk h)) = cproc (mycpu h).
Proof. unfold hw_acq, hw_push. by hw_simpl. Qed.
Lemma cproc_rel lk h : cproc (mycpu (hw_rel lk h)) = cproc (mycpu h).
Proof. unfold hw_rel, hw_pop. by hw_simpl. Qed.
Lemma cpu_ok_intro h : is_Some (cpus h !! tp h) → 0 ≤ noff (mycpu h) →
  (0 < noff (mycpu h) → sie (mycpu h) = false) → cpu_ok h.
Proof. intros [c Hc] Hn Hs. unfold mycpu, cpuid in *. rewrite Hc in *. by exists c. Qed.
Lemma cpu_some_rel lk h : is_Some (cpus (hw_rel lk h) !! tp (hw_rel lk h)).
Proof. unfold hw_rel, hw_pop. simpl. rewrite lookup_insert_eq. eauto. Qed.
Lemma cpu_some_acq lk h : is_Some (cpus (hw_acq lk h) !! tp (hw_acq lk h)).
Proof. unfold hw_acq, hw_push. simpl. rewrite lookup_insert_eq. eauto. Qed.

Section Sleep.
Context {S : Type} `{HasProcs S}.
Implicit Types s : S.

Lemma wp_curproc i s Q :
  cpu_ok (hw_of s) → cproc (mycpu (hw_of s)) = Some i →
  Q i (with_hw (hw_settle (hw_of s)) s) → wp curproc s Q.
Proof.
  intros Hok Hp HQ. unfold curproc, myproc. wp_go.
  eapply wp_ok; [apply push_off_eq|]. wp_go.
  assert (mycpu (hw_push (hw_of s)) = mkCpu (Some i) (noff (mycpu (hw_of s)) + 1)
    (if decide (noff (mycpu (hw_of s)) = 0) then sie (mycpu (hw_of s)) else intena (mycpu (hw_of s))) false) as E
    by (unfold hw_push; rewrite Hp; by hw_simpl).
  pose proof (noff_nonneg _ Hok).
  eapply wp_ok; [apply pop_off_eq; rewrite hw_of_with_hw, E; simpl; done || lia|].
  wp_go. rewrite hw_of_with_hw, E. simpl. apply wp_ret.
  rewrite with_hw_with_hw, hw_pop_push by done. done.
Qed.

Lemma wp_release_gen lk s Q :
  lock_held lk (hw_of s) → sie (mycpu (hw_of s)) = false → 1 ≤ noff (mycpu (hw_of s)) →
  Q tt (with_hw (hw_rel lk (hw_of s)) s) → wp (release lk) s Q.
Proof. intros ??? HQ. unfold wp. by rewrite release_eq. Qed.

Lemma wp_holding lk s Q : lock_held lk (hw_of s) → Q true s → wp (holding lk) s Q.
Proof.
  intros (n & Hl) HQ. unfold holding. wp_go. unfold lock_of. rewrite Hl. simpl.
  by rewrite bool_decide_eq_true_2.
Qed.

(** [sched] called as its comment asks: only [p->lock] held and the state
    already changed.  The scheduler then drops [p->lock]. *)
Lemma wps_sched i p s P :
  cpu_ok (hw_of s) → noff (mycpu (hw_of s)) = 1 → cproc (mycpu (hw_of s)) = Some i →
  lock_held (lkp i) (hw_of s) → procs (pt_of s) !! i = Some p → state p ≠ RUNNING →
  (∀ h, locks h = locks (hw_rel (lkp i) (hw_of s)) → tp h = tp (hw_of s) → noff (mycpu h) = 0 →
     cproc (mycpu h) = None → cpu_ok h →
     P (with_hw h s) (set_intena (intena (mycpu (hw_of s))))) →
  wps sched s P.
Proof.
  intros Hok Hn Hc Hl Hp Hst HQ. unfold sched. wp_go. eapply wp_curproc; [done|done|].
  rewrite hw_settle_nested by (done || lia). rewrite with_hw_of. wp_go.
  apply wp_holding; [done|]. simpl. wp_go. rewrite decide_False by lia. wp_go.
  eapply wp_proc_at; [done|]. rewrite decide_False by done. unfold intr_get. wp_go.
  pose proof (sie_off _ Hok) as Hs. rewrite Hn in Hs. specialize (Hs ltac:(lia)).
  rewrite Hs. wp_go. unfold scheduler_resume at 1, set_cproc, mod_hw. wp_go.
  apply wp_release_gen; rewrite ?hw_of_with_hw; hw_simpl; [|done|lia|].
  { destruct Hl as (n & Hl). by exists n. }
  rewrite with_hw_with_hw. apply wps_bind. apply HQ; simpl; try done.
  - rewrite noff_rel. hw_simpl. lia.
  - rewrite cproc_rel. by hw_simpl.
  - apply cpu_ok_intro; [apply cpu_some_rel|..]; rewrite noff_rel; hw_simpl; lia.
Qed.

(** The locks [sleep] takes and drops, in its order: nothing is left held. *)
Lemma sleep_locks lk lb lp n nb np h :
  lk ≠ lb → lk ≠ lp → lb ≠ lp →
  locks h !! lk = Some (mkSpinlock false n None) →
  locks h !! lb = Some (mkSpinlock false nb None) →
  locks h !! lp = Some (mkSpinlock false np None) →
  locks (hw_rel lp (hw_rel lb (hw_rel lk (hw_acq lp (hw_acq lb (hw_acq lk h)))))) = locks h.
Proof.
  intros N1 N2 N3 E1 E2 E3. rewrite !locks_rel, !locks_acq.
  unfold lock_of. rewrite !locks_rel, !locks_acq.
  rewrite ?lookup_insert_ne by done. unfold lock_of. rewrite ?locks_rel, ?locks_acq.
  apply map_eq. intros k. rewrite !lookup_insert.
  repeat (case_decide; simplify_eq; simpl); rewrite ?E1, ?E2, ?E3; simpl; try done.
Qed.

(** What is left of [sleep] when it is resumed. *)
Definition sleep_rest (i : nat) (lk : lockid) (ie : bool) : M S unit :=
  set_intena ie ;; mod_proc i (set_chan 0) ;; release (lkp i) ;; acquire lk.

Lemma sleep_spec c lk s i p h :
  hw_of s = hw_acq lk h → cpu_ok h → noff (mycpu h) = 0 → cproc (mycpu h) = Some i →
  lock_free lk h → lk ≠ lkb (wq_bucket_for c) → lk ≠ lkp i →
  lock_free (lkb (wq_bucket_for c)) h → lock_free (lkp i) h →
  wq_inv (pt_of s) → procs (pt_of s) !! i = Some p → state p ≠ SLEEPING →
  ∃ h' k, sleep c lk s = Switch (with_pt (go_to_sleep c i (pt_of s)) (with_hw h' s)) k ∧
    (∀ s', ∃ ie, k s' = sleep_rest i lk ie s') ∧
    wq_inv (go_to_sleep c i (pt_of s)) ∧
    locks h' = locks h ∧ tp h' = tp h ∧ noff (mycpu h') = 0 ∧ cproc (mycpu h') = None ∧ cpu_ok h'.
Proof.
  intros Hs Hok Hn Hc (n & Hlk) N1 N2 (nb & Hlb) (np & Hlp) [L Hwq] Hp Hst.
  set (b := wq_bucket_for c) in *.
  enough (wps (sleep c lk) s (λ s' k, (∀ s', ∃ ie, k s' = sleep_rest i lk ie s') ∧ ∃ h',
    s' = with_pt (go_to_sleep c i (pt_of s)) (with_hw h' s) ∧ locks h' = locks h ∧ tp h' = tp h ∧
    noff (mycpu h') = 0 ∧ cproc (mycpu h') = None ∧ cpu_ok h')) as (s' & k & -> & ? & h' & -> & ?)%wps_elim.
  { exists h', k. split_and!; [done|done| |tauto..]. eexists. by eapply wq_ok_sleep. }
  unfold sleep. wp_go. eapply wp_curproc; rewrite Hs; [auto with xv6|by rewrite cproc_acq|].
  rewrite hw_settle_nested by (try rewrite noff_acq; auto with xv6; lia). fold b. wp_go.
  apply wp_acquire; rewrite hw_of_with_hw; [apply lock_free_acq; [done|by eexists]|]. wp_go.
  apply wp_acquire; rewrite !hw_of_with_hw.
  { apply lock_free_acq; [done|]. apply lock_free_acq; [done|]. by eexists. }
  rewrite !with_hw_with_hw. wp_go.
  apply wp_release_gen; rewrite ?hw_of_with_hw.
  { eexists. rewrite !locks_acq, !lookup_insert_ne by done. apply lookup_insert_eq. }
  { apply sie_acq. }
  { rewrite !noff_acq. lia. }
  rewrite with_hw_with_hw. unfold mod_pt. wp_go. apply wp_mod_proc. wp_go. apply wp_mod_proc. wp_go.
  st_simpl. change (upd_proc i (set_state SLEEPING) _) with (go_to_sleep c i (pt_of s)).
  apply wp_release_gen; st_simpl.
  { eexists. rewrite locks_rel, lookup_insert_ne, locks_acq, lookup_insert_ne by done. apply lookup_insert_eq. }
  { rewrite sie_rel by (rewrite !noff_acq; lia). apply sie_acq. }
  { rewrite noff_rel, !noff_acq. lia. }
  st_simpl. apply wps_bind. eapply wps_sched; st_simpl.
  - apply cpu_ok_intro; [apply cpu_some_rel|rewrite !noff_rel, !noff_acq; lia|].
    intros _. rewrite !sie_rel by (rewrite ?noff_rel, !noff_acq; lia). apply sie_acq.
  - rewrite !noff_rel, !noff_acq. lia.
  - by rewrite !cproc_rel, !cproc_acq.
  - eexists. rewrite locks_rel, lookup_insert_ne, locks_rel, lookup_insert_ne by done.
    apply lookup_insert_eq.
  - rewrite go_to_sleep_eq. simpl. by rewrite list_lookup_alter_eq, Hp.
  - done.
  - intros h' Hl Ht Hn' Hc' Hok'. split; [by eexists|]. exists h'. st_simpl. split_and!; try done.
    rewrite Hl. by eapply (sleep_locks lk (lkb b) (lkp i)).
Qed.

(** [sleep] resumed by [scheduler]: it holds [p->lock] and nothing else. *)
Lemma sleep_rest_spec i lk ie s :
  cpu_ok (hw_of s) → noff (mycpu (hw_of s)) = 1 → lock_held (lkp i) (hw_of s) →
  lock_free lk (hw_of s) →
  ∃ h', (∃ g, h' = hw_acq lk g ∧ cpu_ok g ∧ noff (mycpu g) = 0 ∧ lock_free lk g ∧ locks g = locks (hw_rel (lkp i) (hw_of s))) ∧
    sleep_rest i lk ie s = Ok tt (with_pt (upd_proc i (set_chan 0) (pt_of s)) (with_hw h' s)) ∧
    lock_held lk h' ∧ tp h' = tp (hw_of s) ∧ cproc (mycpu h') = cproc (mycpu (hw_of s)) ∧
    noff (mycpu h') = 1 ∧ locks h' = locks (hw_acq lk (hw_rel (lkp i) (hw_of s))).
Proof.
  intros Hok Hn Hl (n & Hf). assert (lk ≠ lkp i) as Hne.
  { intros ->. destruct Hl as (m & Hl). simplify_eq. }
  set (h0 := set_cpu (mkCpu (cproc (mycpu (hw_of s))) 1 ie false) (hw_of s)).
  exists (hw_acq lk (hw_rel (lkp i) h0)).
  assert (mycpu h0 = mkCpu (cproc (mycpu (hw_of s))) 1 ie false) as E0 by (unfold h0; by hw_simpl).
  assert (lock_free lk (hw_rel (lkp i) h0)) as Hf'.
  { exists n. rewrite locks_rel, lookup_insert_ne by done. done. }
  assert (noff (mycpu (hw_rel (lkp i) h0)) = 0) as Hn0 by (rewrite noff_rel, E0; done).
  split; [|split_and!].
  - exists (hw_rel (lkp i) h0). split_and!; [done| |done|done|by rewrite !locks_rel].
    apply cpu_ok_intro; [apply cpu_some_rel|lia|lia].
  - enough (wp (sleep_rest i lk ie) s (λ _ s', s' = with_pt (upd_proc i (set_chan 0) (pt_of s))
      (with_hw (hw_acq lk (hw_rel (lkp i) h0)) s))) as ([] & ? & -> & ->)%wp_elim by done.
    unfold sleep_rest, set_intena, mod_hw. wp_go. apply wp_mod_proc. wp_go. st_simpl.
    rewrite Hn, (sie_off _ Hok) by lia. fold h0.
    apply wp_release_gen; st_simpl; rewrite ?E0; simpl; [done|done|lia|]. st_simpl. wp_go.
    apply wp_acquire; [by st_simpl|]. st_simpl. done.
  - exists n. rewrite locks_acq. unfold lock_of. destruct Hf' as (n' & Hf'). 
    rewrite lookup_insert_eq. rewrite locks_rel, lookup_insert_ne in Hf' |- * by done. simpl.
    by rewrite Hf.
  - done.
  - by rewrite cproc_acq, cproc_rel, E0.
  - rewrite noff_acq, noff_rel, E0. done.
  - by rewrite !locks_acq, !locks_rel.
Qed.

(** [scheduler] finds a RUNNABLE process and switches to it. *)
Lemma scheduler_try_spec i p s :
  cpu_ok (hw_of s) → lock_free (lkp i) (hw_of s) → procs (pt_of s) !! i = Some p →
  state p = RUNNABLE →
  ∃ h', scheduler_try i s = Ok true (with_pt (upd_proc i (set_state RUNNING) (pt_of s)) (with_hw h' s)) ∧
    lock_held (lkp i) h' ∧ tp h' = tp (hw_of s) ∧ cproc (mycpu h') = Some i ∧ cpu_ok h' ∧
    noff (mycpu h') = noff (mycpu (hw_of s)) + 1 ∧ locks h' = locks (hw_acq (lkp i) (hw_of s)).
Proof.
  intros Hok (n & Hf) Hp Hst. set (h1 := hw_acq (lkp i) (hw_of s)).
  exists (set_cpu (mkCpu (Some i) (noff (mycpu h1)) (intena (mycpu h1)) (sie (mycpu h1))) h1).
  split_and!.
  - enough (wp (scheduler_try i) s (λ b s', b = true ∧
      s' = with_pt (upd_proc i (set_state RUNNING) (pt_of s)) (with_hw (set_cpu (mkCpu (Some i)
        (noff (mycpu h1)) (intena (mycpu h1)) (sie (mycpu h1))) h1) s))) as (? & ? & -> & -> & ->)%wp_elim by done.
    unfold scheduler_try. wp_go. apply wp_acquire; [by exists n|]. fold h1. wp_go.
    eapply wp_proc_at; [by st_simpl|]. rewrite decide_True by done. wp_go. apply wp_mod_proc. wp_go.
    unfold set_cproc, mod_hw. wp_go. split; [done|]. by st_simpl.
  - exists n. simpl. rewrite lookup_insert_eq. unfold lock_of. by rewrite Hf.
  - done.
  - by hw_simpl.
  - apply cpu_ok_set_cpu; simpl; pose proof (noff_nonneg _ Hok); unfold h1; rewrite ?noff_acq; [lia|].
    intros _. apply sie_acq.
  - unfold h1. hw_simpl. by rewrite noff_acq.
  - done.
Qed.

End Sleep.

(** ** A concrete machine

    Four processes, one hart running process 1 with interrupts on, every lock
    free.  It is the input at which the properties below are evaluated. *)

Definition ex_proc (i : nat) (st : procstate) : proc :=
  mkProc st 0 0 0 (Z.of_nat i + 1) None 0 0 0 0 (mkContext 0 0 []) (replicate 16 None) None
    (mkEntry None 0 None 0) [].
Definition ex_table : ptab :=
  mkPtab [ex_proc 0 RUNNABLE; ex_proc 1 RUNNING; ex_proc 2 RUNNABLE; ex_proc 3 RUNNABLE]
    (replicate 16 None) 5 (Some 0%nat).
Definition ex_locks : gmap lockid spinlock :=
  list_to_map ((λ l, (l, mkSpinlock false "lock" None)) <$>
    (lkb <$> seq 0 16) ++ (lkp <$> seq 0 4) ++ [L_wait; L_tick; L_pipe 4096]).
Definition ex_hw : hw := mkHw 0 {[0 := mkCpu (Some 1%nat) 0 false true]} ex_locks.

Lemma ex_hw_ok : cpu_ok ex_hw.
Proof. eexists. split; [reflexivity|]. simpl. split; [lia|lia]. Qed.

Lemma ex_wq_free b : (b < 16)%nat → lock_free (lkb b) ex_hw.
Proof. intros Hb. do 16 (destruct b as [|b]; [by eexists|]). lia. Qed.

Lemma ex_proc_free j : (j < 4)%nat → lock_free (lkp j) ex_hw.
Proof. intros Hb. do 4 (destruct j as [|j]; [by eexists|]). lia. Qed.

Lemma ex_wq_ok : wq_ok ex_table (λ _, []).
Proof.
  apply wq_ok_empty; [done| |].
  - intros b Hb. do 16 (destruct b as [|b]; [done|]). lia.
  - intros i p. do 4 (destruct i as [|i]; [by intros [= <-]|]). done.
Qed.

Lemma ex_plocks t : length (procs t) = 4%nat → plocks_free t ex_hw.
Proof. intros Hl j p Hj%lookup_lt_Some. apply ex_proc_free. lia. Qed.

Lemma ex_quiet : quiet (mkKproc ex_hw ex_table).
Proof.
  split; simpl; [apply ex_hw_ok|apply ex_wq_free|by apply ex_plocks|].
  eexists. apply ex_wq_ok.
Qed.

(** Processes 2 and 3 asleep on channel 536, which is [&pi->nread] of a pipe
    at address 0 modulo a page. *)
Definition ex_asleep : kproc := mkKproc ex_hw (go_to_sleep 536 3 (go_to_sleep 536 2 ex_table)).

Lemma ex_asleep_quiet : quiet ex_asleep.
Proof.
  split; simpl; [apply ex_hw_ok|apply ex_wq_free|by apply ex_plocks|].
  eexists. eapply wq_ok_sleep; [|reflexivity|done]. eapply wq_ok_sleep; [|reflexivity|done].
  apply ex_wq_ok.
Qed.

(** ** Properties *)

(** C8 Refinement: when the queues agree with the table, the bucket scan of
    [wakeup] has on the process table exactly the effect of the original scan
    of all processes: every process sleeping on the channel becomes RUNNABLE
    and no other field of any process changes.  It returns, releases every
    lock it took, and the queues agree with the table again. *)
Theorem wakeup_refines_scan (c : Z) (s : kproc) : quiet s →
  ∃ t', wakeup c s = Ok tt (mkKproc (hw_settle (k_hw s)) t') ∧ wq_inv t' ∧
    erase t' = wake1 c <$> erase (k_pt s).
Proof.
  intros Hq. destruct (wakeup_spec c s Hq) as (t' & Hw & Hinv & Hk).
  exists t'. split_and!; [done|done|].
  rewrite (erase_keeps _ _ _ (λ i e p, wake1_set_wqe c e p) Hk).
  apply list_eq. intros i. by rewrite list_lookup_imap, list_lookup_fmap.
Qed.

(** C25 [wakeup_one] wakes exactly one process sleeping on the channel when
    there is one, and otherwise changes nothing; in both cases it returns with
    its locks released and the queues consistent. *)
Theorem wakeup_one_wakes_one (c : Z) (s : kproc) : quiet s →
  ∃ t', wakeup_one c s = Ok tt (mkKproc (hw_settle (k_hw s)) t') ∧ wq_inv t' ∧
    ((∃ i p, procs (k_pt s) !! i = Some p ∧ state p = SLEEPING ∧ chan p = c ∧
        erase t' = alter (set_state RUNNABLE) i (erase (k_pt s))) ∨
     ((∀ i p, procs (k_pt s) !! i = Some p → state p = SLEEPING → chan p ≠ c) ∧ t' = k_pt s)).
Proof.
  intros Hq. destruct (wakeup_one_spec c s Hq) as (t' & Hw & Hinv & Hcase).
  exists t'. split_and!; [done|done|]. destruct Hcase as [(i & p & Hp & Hst & Hc & Hk)|?]; [left|by right].
  exists i, p. split_and!; try done.
  erewrite (erase_keeps (λ j p, if decide (j = i) then set_state RUNNABLE p else p));
    [|intros j e q; by case_decide|exact Hk].
  apply list_eq. intros j. rewrite list_lookup_imap, list_lookup_alter.
  change (pt_of s) with (k_pt s). destruct (erase (k_pt s) !! j) as [q|] eqn:E;
    destruct (decide (i = j)) as [<-|]; rewrite ?E; simpl; try done.
  - by rewrite decide_True.
  - by rewrite decide_False by congruence.
Qed.

Lemma wakeup_refines_scan_witness :
  ∃ t', wakeup 536 ex_asleep = Ok tt (mkKproc (hw_settle ex_hw) t') ∧ wq_inv t' ∧
    erase t' = wake1 536 <$> erase (k_pt ex_asleep).
Proof. exact (wakeup_refines_scan 536 ex_asleep ex_asleep_quiet). Defined.

Lemma wakeup_one_wakes_one_witness :
  ∃ t', wakeup_one 536 ex_asleep = Ok tt (mkKproc (hw_settle ex_hw) t') ∧ wq_inv t'.
Proof.
  destruct (wakeup_one_wakes_one 536 ex_asleep ex_asleep_quiet) as (t' & H1 & H2 & _).
  exact (ex_intro _ t' (conj H1 H2)).
Defined.

(** C3 The whole life of a [sleep]: called by the running process with only
    its condition lock held, it puts the process on the queue of its channel,
    drops every lock and gives up the CPU; a later [wakeup] of the channel
    makes the process RUNNABLE, the scheduler picks it, and the suspended
    [sleep] returns with the condition lock held again, [p->chan] cleared and
    the queues consistent. *)
Theorem sleep_wakeup_resume c lk (h : hw) (t : ptab) (i : nat) (p : proc) :
  quiet (mkKproc h t) → noff (mycpu h) = 0 → cproc (mycpu h) = Some i →
  procs t !! i = Some p → state p = RUNNING →
  lock_free lk h → (∀ b, lk ≠ lkb b) → (∀ j, lk ≠ lkp j) →
  ∃ s1 k s2 s3 h4 t4,
    sleep c lk (mkKproc (hw_acq lk h) t) = Switch s1 k ∧
    (∃ q, procs (k_pt s1) !! i = Some q ∧ state q = SLEEPING ∧ chan q = c) ∧ locks (k_hw s1) = locks h ∧
    wakeup c s1 = Ok tt s2 ∧ scheduler_try i s2 = Ok true s3 ∧
    k s3 = Ok tt (mkKproc h4 t4) ∧
    (∃ q, procs t4 !! i = Some q ∧ state q = RUNNING ∧ chan q = 0) ∧ wq_inv t4 ∧
    lock_held lk h4 ∧ noff (mycpu h4) = 1 ∧ locks h4 = locks (hw_acq lk h).
Proof.
  intros [Hok Hb Hpl Hinv] Hn Hc Hp Hst Hf Nb Np; simpl in *.
  destruct (sleep_spec c lk (mkKproc (hw_acq lk h) t) i p h) as (h1 & k & Hsl & Hk & Hi1 & Hl1 & Ht1 & Hn1 & _ & Hok1);
    simpl; eauto using bucket_lt; [congruence|].
  set (s1 := with_pt _ _) in Hsl. simpl in Hi1.
  assert (∃ q, procs (k_pt s1) !! i = Some q ∧ state q = SLEEPING ∧ chan q = c) as (q & Hq & Hqs & Hqc).
  { change (k_pt s1) with (go_to_sleep c i t). rewrite go_to_sleep_eq. simpl.
    rewrite list_lookup_alter_eq, Hp. by eexists. }
  assert (quiet s1) as Hq1.
  { assert (∀ l, lock_free l h → lock_free l h1) as Hfr by (unfold lock_free; by rewrite Hl1).
    split; auto. intros j r Hj. apply Hfr. apply lookup_lt_Some in Hj.
    change (pt_of s1) with (go_to_sleep c i t) in Hj. rewrite go_to_sleep_eq in Hj. simpl in Hj. rewrite length_alter in Hj.
    apply lookup_lt_is_Some in Hj as [? ?]. by eapply Hpl. }
  destruct (wakeup_spec c s1 Hq1) as (t2 & Hw & Hi2 & (_ & _ & _ & Hk2)). simpl in Hw.
  destruct (Hk2 i q Hq) as (e & He). unfold wake1 in He. rewrite decide_True in He by done.
  set (s2 := mkKproc _ t2) in Hw.
  destruct (scheduler_try_spec (S := kproc) i (set_wqe e (set_state RUNNABLE q)) s2) as (h3 & Hs3 & Hh3 & Ht3 & Hc3 & Hok3 & Hn3 & Hl3);
    [simpl; by apply cpu_ok_settle| |done|done|].
  { destruct (q_proc _ Hq1 i q Hq) as [n ?]. by exists n. }
  simpl in Hs3. set (s3 := mkKproc _ _) in Hs3. destruct (Hk s3) as [ie Hks].
  assert (locks h3 !! lk = locks h !! lk) as Hlk3.
  { rewrite Hl3, locks_acq, lookup_insert_ne by done. simpl. by rewrite Hl1. }
  destruct (sleep_rest_spec i lk ie s3) as (h4 & _ & Hr & Hh4 & _ & _ & Hn4 & Hl4); simpl; [done| |done| |].
  { rewrite Hn3. simpl. rewrite noff_settle, Hn1. done. }
  { destruct Hf as [n ?]. exists n. congruence. }
  exists s1, k, s2, s3, h4, (upd_proc i (set_chan 0) (upd_proc i (set_state RUNNING) t2)).
  split_and!; [done|eauto|exact Hl1|exact Hw|exact Hs3|rewrite Hks; exact Hr| | |done|done|].
  - simpl. rewrite !list_lookup_alter_eq, He. simpl. by eexists.
  - apply (wq_inv_upd _ i (set_state RUNNING (set_wqe e (set_state RUNNABLE q)))); [|..|done|done].
    { by eapply wq_inv_upd. }
    simpl. by rewrite list_lookup_alter_eq, He.
  - rewrite Hl4. apply locks_acq_ext.
    + rewrite (locks_rel_undo _ (hw_settle h1)); [by rewrite locks_settle| |done].
      destruct (q_proc _ Hq1 i q Hq) as [n ?]. by exists n.
    + rewrite tp_rel. simpl. by rewrite Ht3.
Qed.

Lemma sleep_wakeup_resume_witness :
  ∃ s1 k s2, sleep 536 (L_pipe 4096) (mkKproc (hw_acq (L_pipe 4096) ex_hw) ex_table) = Switch s1 k ∧
    wakeup 536 s1 = Ok tt s2.
Proof.
  destruct (sleep_wakeup_resume 536 (L_pipe 4096) ex_hw ex_table 1 (ex_proc 1 RUNNING))
    as (s1 & k & s2 & _ & _ & _ & H1 & _ & _ & H2 & _).
  - exact ex_quiet.
  - reflexivity.
  - reflexivity.
  - reflexivity.
  - reflexivity.
  - by eexists.
  - discriminate.
  - discriminate.
  - exact (ex_intro _ s1 (ex_intro _ k (ex_intro _ s2 (conj H1 H2)))).
Defined.
