(* ===== verification/SleepWakeup.v ===== *)
(** * Lost wakeups: sleep and wakeup on several harts, one instruction at a time

    Sched.v runs each call to completion.  Here the calls of any number of
    threads interleave at the points where they touch shared memory.  A thread
    waits for a condition with the loop of pipe.c ([while(!cond) sleep(chan,
    &lk)]) or makes it true and calls [wakeup] or [wakeup_one], both under the
    condition lock [lk].  The order of the steps of a waiting thread is that of
    [sleep] in kernel/proc.c; the steps of a signalling thread are those of
    [wakeup] or [wakeup_one], optionally behind the unlocked test
    [wq_has_sleeper], as in pipe.c.  The bucket holds the sleepers of one
    channel.

    [cfg] selects the variant: [fast] puts the unlocked test in front of the
    wakeup; [one] makes it [wakeup_one], which stops at the first process it
    wakes; [add_first] gives [sleep] the order of docs/design.md, section 4:
    [wq_add_locked], [release(lk)] and only then [acquire(&p->lock)].  The code
    is [add_first = false]. *)

From S2P Require Import Prelude Spinlock ProcDefs.

Record cfg : Type := mkCfg { fast : bool; one : bool; add_first : bool }.

(** What [pipewrite] and [piperead] run, what every caller of [wakeup] runs,
    and the pipe's test with the [sleep] that docs/design.md describes. *)
Definition pipe_cfg : cfg := mkCfg true true false.
Definition plain_cfg : cfg := mkCfg false false false.
Definition design_cfg : cfg := mkCfg true true true.

(** Where a thread is.  [W] is the waiting side, [S] the signalling side. *)
Inductive pc : Type :=
| Idle
| W_lk | W_test | W_bl | W_pl | W_rel | W_add | W_state | W_relbl | W_sched | Blocked | W_relpl
| S_lk | S_set | S_check | S_bl | S_scan (rest : list nat) | S_pl (i : nat) (rest : list nat)
| S_relpl (i : nat) (rest : list nat) | S_relbl | S_rel.

(** Shared memory: the owners of the condition lock, of the bucket lock and of
    each [p->lock]; the condition; the bucket's list; each [p->state]. *)
Record state : Type := mkState {
  lk : option nat;
  bl : option nat;
  pl : nat → option nat;
  cond : bool;
  queue : list nat;
  st : nat → procstate;
  at_pc : nat → pc;
}.

Definition upd {A} (i : nat) (x : A) (f : nat → A) : nat → A := λ j, if decide (j = i) then x else f j.

Definition set_lk o s := mkState o (bl s) (pl s) (cond s) (queue s) (st s) (at_pc s).
Definition set_bl o s := mkState (lk s) o (pl s) (cond s) (queue s) (st s) (at_pc s).
Definition set_pl i o s := mkState (lk s) (bl s) (upd i o (pl s)) (cond s) (queue s) (st s) (at_pc s).
Definition set_cond b s := mkState (lk s) (bl s) (pl s) b (queue s) (st s) (at_pc s).
Definition set_queue q s := mkState (lk s) (bl s) (pl s) (cond s) q (st s) (at_pc s).
Definition set_st i x s := mkState (lk s) (bl s) (pl s) (cond s) (queue s) (upd i x (st s)) (at_pc s).
Definition goto t c s := mkState (lk s) (bl s) (pl s) (cond s) (queue s) (st s) (upd t c (at_pc s)).

Definition free (o : option nat) : bool := match o with None => true | Some _ => false end.

(** The choice of an idle thread. *)
Inductive op : Type := DoWait | DoSignal.

(** One step of thread [t]; [None] when it has to spin or is not scheduled. *)
Definition step_fn (c : cfg) (t : nat) (o : op) (s : state) : option state :=
  match at_pc s t with
  | Idle => Some (goto t (match o with DoWait => W_lk | DoSignal => S_lk end) s)
  | W_lk => if free (lk s) then Some (goto t W_test (set_lk (Some t) s)) else None
  | W_test =>
      if cond s then Some (goto t Idle (set_lk None (set_cond false s)))  (* consume and leave *)
      else Some (goto t W_bl s)
  | W_bl => if free (bl s)
            then Some (goto t (if add_first c then W_add else W_pl) (set_bl (Some t) s)) else None
  | W_pl => if free (pl s t)
            then Some (goto t (if add_first c then W_state else W_rel) (set_pl t (Some t) s)) else None
  | W_rel => Some (goto t (if add_first c then W_pl else W_add) (set_lk None s))
  | W_add => Some (goto t (if add_first c then W_rel else W_state) (set_queue (t :: queue s) s))
  | W_state => Some (goto t W_relbl (set_st t SLEEPING s))
  | W_relbl => Some (goto t W_sched (set_bl None s))
  | W_sched => Some (goto t Blocked (set_pl t None s))
  | Blocked =>
      if decide (st s t = RUNNABLE)
      then if free (pl s t) then Some (goto t W_relpl (set_pl t (Some t) (set_st t RUNNING s))) else None
      else None
  | W_relpl => Some (goto t W_lk (set_pl t None s))
  | S_lk => if free (lk s) then Some (goto t S_set (set_lk (Some t) s)) else None
  | S_set => Some (goto t S_check (set_cond true s))
  | S_check => Some (goto t (if fast c && bool_decide (queue s = []) then S_rel else S_bl) s)
  | S_bl => if free (bl s) then Some (goto t (S_scan (queue s)) (set_bl (Some t) s)) else None
  | S_scan [] => Some (goto t S_relbl s)
  | S_scan (i :: rest) =>
      if free (pl s i) then Some (goto t (S_pl i rest) (set_pl i (Some t) s)) else None
  | S_pl i rest =>
      if decide (st s i = SLEEPING)
      then Some (goto t (S_relpl i (if one c then [] else rest))
                   (set_queue (filter (.≠ i) (queue s)) (set_st i RUNNABLE s)))
      else Some (goto t (S_relpl i rest) s)
  | S_relpl i rest => Some (goto t (S_scan rest) (set_pl i None s))
  | S_relbl => Some (goto t S_rel (set_bl None s))
  | S_rel => Some (goto t Idle (set_lk None s))
  end.

Definition init : state :=
  mkState None None (λ _, None) false [] (λ _, RUNNING) (λ _, Idle).

Inductive reachable (c : cfg) : state → Prop :=
| reach_init : reachable c init
| reach_step s t o s' : reachable c s → step_fn c t o s = Some s' → reachable c s'.

Fixpoint exec (c : cfg) (l : list (nat * op)) (s : state) : option state :=
  match l with
  | [] => Some s
  | (t, o) :: l => match step_fn c t o s with Some s' => exec c l s' | None => None end
  end.

Lemma exec_reachable c l s s' : reachable c s → exec c l s = Some s' → reachable c s'.
Proof.
  revert s. induction l as [|[t o] l IH]; intros s Hs; simpl; [by intros [= <-]|].
  destruct (step_fn c t o s) eqn:E; [|done]. apply IH. by eapply reach_step.
Qed.

(** ** What each thread holds *)

Definition holds_lk (c : cfg) (p : pc) : bool :=
  match p with
  | W_test | W_bl | W_rel => true
  | W_pl => negb (add_first c)
  | W_add => add_first c
  | S_set | S_check | S_bl | S_scan _ | S_pl _ _ | S_relpl _ _ | S_relbl | S_rel => true
  | _ => false
  end.

Definition holds_bl (p : pc) : bool :=
  match p with
  | W_pl | W_rel | W_add | W_state | W_relbl => true
  | S_scan _ | S_pl _ _ | S_relpl _ _ | S_relbl => true
  | _ => false
  end.

Definition holds_pl (c : cfg) (t i : nat) (p : pc) : Prop :=
  match p with
  | W_rel | W_add => add_first c = false ∧ i = t
  | W_state | W_relbl | W_sched | W_relpl => i = t
  | S_pl j _ | S_relpl j _ => i = j
  | _ => False
  end.

(** A thread at [p] with state [x] has found the condition false and has not
    been woken since. *)
Definition committed (p : pc) (x : procstate) : Prop :=
  match p with
  | W_bl | W_pl | W_rel | W_add | W_state => True
  | _ => x = SLEEPING
  end.

(** A thread at [p] with state [x] is on the bucket's list. *)
Definition listed (c : cfg) (p : pc) (x : procstate) : Prop :=
  match p with
  | W_rel | W_pl => add_first c = true
  | W_state => True
  | _ => x = SLEEPING
  end.

(** The thread at [p] has yet to wake [i]. *)
Definition will_wake (p : pc) (i : nat) : Prop :=
  match p with
  | S_check | S_bl => True
  | S_scan l => i ∈ l
  | S_pl j l => i = j ∨ i ∈ l
  | S_relpl _ l => i ∈ l
  | _ => False
  end.

(** A thread at [p] with state [x] is awake and tests the condition next. *)
Definition will_test (p : pc) (x : procstate) : Prop :=
  match p with
  | W_lk | W_test | W_relpl => True
  | Blocked => x = RUNNABLE
  | _ => False
  end.

(** The wakeup that [i] waits for is on its way: the thread that holds the
    condition lock has yet to wake [i] or, with [wakeup_one], another thread
    that is awake goes on to test the condition. *)
Definition pending (c : cfg) (s : state) (i : nat) : Prop :=
  (∃ t, lk s = Some t ∧ will_wake (at_pc s t) i) ∨
  (one c = true ∧ ∃ t, will_test (at_pc s t) (st s t)).

Record inv (c : cfg) (s : state) : Prop := mkInv {
  i_lk : ∀ t, holds_lk c (at_pc s t) = true ↔ lk s = Some t;
  i_bl : ∀ t, holds_bl (at_pc s t) = true ↔ bl s = Some t;
  i_pl : ∀ t i, holds_pl c t i (at_pc s t) ↔ pl s i = Some t;
  i_st : ∀ i, st s i = SLEEPING → at_pc s i = W_relbl ∨ at_pc s i = W_sched ∨ at_pc s i = Blocked;
  i_sl : ∀ i, at_pc s i = W_relbl ∨ at_pc s i = W_sched → st s i = SLEEPING;
  i_q : ∀ i, listed c (at_pc s i) (st s i) ↔ i ∈ queue s;
  i_key : ∀ i, committed (at_pc s i) (st s i) → cond s = true → pending c s i;
}.

Lemma inv_init c : inv c init.
Proof.
  split; simpl; try done.
  - by intros i [|].
  - intros i. split; [done|]. by intros ?%elem_of_nil.
Qed.

(** Case analysis over the step taken. *)
Ltac step_cases :=
  match goal with H : step_fn _ ?t _ ?s = Some ?s' |- _ =>
    unfold step_fn in H; destruct (at_pc s t) eqn:Hpc; repeat (case_match; simplify_eq); simplify_eq end;
  repeat match goal with
  | H : free ?o = true |- _ => let E := fresh "Hfree" in destruct o eqn:E; [discriminate H|clear H]
  end.

(** Splits on whether the thread or process in question is the one that moved. *)
Ltac upd_cases :=
  simpl in *; unfold upd in *; simpl in *;
  repeat (match goal with
  | H : context [decide (?i = ?j)] |- _ => destruct (decide (i = j)); subst
  | |- context [decide (?i = ?j)] => destruct (decide (i = j)); subst
  | |- context [add_first ?c] => destruct (add_first c) eqn:?
  | H : context [if add_first ?c then _ else _] |- _ => destruct (add_first c) eqn:?
  end; simpl in *);
  repeat match goal with H : at_pc ?s ?t = _, H' : context [at_pc ?s ?t] |- _ => rewrite H in H'; simpl in H' end;
  repeat match goal with
  | H : context [negb (add_first ?c)] |- _ => destruct (add_first c) eqn:?
  | H : context [add_first ?c = _ ∧ _] |- _ => destruct (add_first c) eqn:?
  | H : add_first ?c = _ |- context [add_first ?c] => rewrite H
  end; simpl in *.

Section Preserve.
Context (c : cfg) (t : nat) (o : op) (s s' : state).
Hypothesis Hinv : inv c s.
Hypothesis Hstep : step_fn c t o s = Some s'.

Lemma step_lk u : holds_lk c (at_pc s' u) = true ↔ lk s' = Some u.
Proof.
  pose proof (i_lk c s Hinv u). pose proof (i_lk c s Hinv t).
  step_cases; upd_cases; try intuition congruence.
Qed.

Lemma step_bl u : holds_bl (at_pc s' u) = true ↔ bl s' = Some u.
Proof.
  pose proof (i_bl c s Hinv u). pose proof (i_bl c s Hinv t).
  step_cases; upd_cases; try intuition congruence.
Qed.

Lemma step_pl u i : holds_pl c u i (at_pc s' u) ↔ pl s' i = Some u.
Proof.
  pose proof (i_pl c s Hinv u i). pose proof (i_pl c s Hinv t i).
  step_cases; upd_cases; try intuition congruence.
Qed.

Lemma step_st i :
  st s' i = SLEEPING → at_pc s' i = W_relbl ∨ at_pc s' i = W_sched ∨ at_pc s' i = Blocked.
Proof.
  pose proof (i_st c s Hinv i).
  step_cases; upd_cases; try intuition congruence.
Qed.

Lemma step_sl i : at_pc s' i = W_relbl ∨ at_pc s' i = W_sched → st s' i = SLEEPING.
Proof.
  pose proof (i_sl c s Hinv i) as Hs. pose proof (i_pl c s Hinv i i) as Hi. pose proof (i_pl c s Hinv t i).
  step_cases; upd_cases; try intuition congruence.
  all: intros [Hp|Hp]; rewrite Hp in *; simpl in Hi; intuition congruence.
Qed.

Lemma step_q i : listed c (at_pc s' i) (st s' i) ↔ i ∈ queue s'.
Proof.
  pose proof (i_q c s Hinv i) as Hq. pose proof (i_st c s Hinv i).
  step_cases; upd_cases; rewrite ?elem_of_cons, ?list_elem_of_filter; try intuition congruence.
  all: destruct (i_st c s Hinv i0) as [->|[->| ->]]; simpl; intuition congruence.
Qed.

(** A committed thread that holds neither lock is asleep and listed. *)
Lemma committed_asleep i :
  committed (at_pc s i) (st s i) → holds_lk c (at_pc s i) = false → holds_bl (at_pc s i) = false →
  st s i = SLEEPING ∧ i ∈ queue s.
Proof.
  intros Hc Hl Hb. rewrite <- (i_q c s Hinv i).
  destruct (at_pc s i) eqn:E; simpl in *; try done.
Qed.

Lemma not_lk i : lk s = Some t → i ≠ t → holds_lk c (at_pc s i) = false.
Proof.
  intros Hl Hne. destruct (holds_lk c (at_pc s i)) eqn:E; [|done].
  apply (i_lk c s Hinv) in E. congruence.
Qed.

Lemma not_bl i : bl s = None ∨ bl s = Some t → i ≠ t → holds_bl (at_pc s i) = false.
Proof.
  intros Hl Hne. destruct (holds_bl (at_pc s i)) eqn:E; [|done].
  apply (i_bl c s Hinv) in E. naive_solver congruence.
Qed.

(** A process that a signaller finds asleep has called [sched]. *)
Lemma found_blocked j l : at_pc s t = S_pl j l → st s j = SLEEPING → at_pc s j = Blocked.
Proof.
  intros Ht Hs. pose proof (i_bl c s Hinv) as Hb. pose proof (i_pl c s Hinv) as Hp.
  destruct (decide (j = t)) as [->|Hne]; [destruct (i_st c s Hinv t Hs) as [?|[?|?]]; congruence|].
  pose proof (proj1 (Hb t) ltac:(by rewrite Ht)). pose proof (proj1 (Hp t j) ltac:(by rewrite Ht)).
  destruct (i_st c s Hinv j Hs) as [E|[E|E]]; [exfalso..|done].
  - pose proof (proj1 (Hb j) ltac:(by rewrite E)). congruence.
  - pose proof (proj1 (Hp j j) ltac:(by rewrite E)). congruence.
Qed.

(** The thread that is about to wake [i] stays about to, or wakes it, or has
    woken another one instead. *)
Lemma step_waker i :
  (fast c = true → add_first c = true) →
  i ≠ t → committed (at_pc s i) (st s i) → committed (at_pc s' i) (st s' i) →
  lk s = Some t → will_wake (at_pc s t) i → pending c s' i.
Proof.
  intros Hsafe Hne Hc Hc' Hl Hw. pose proof (not_lk i Hl Hne) as Hnl.
  assert (bl s = None ∨ bl s = Some t → st s i = SLEEPING ∧ i ∈ queue s) as Has.
  { intros Hb. apply committed_asleep; [done|done|]. by apply not_bl. }
  pose proof (i_bl c s Hinv t) as Hbt. pose proof (i_st c s Hinv i) as Hst. pose proof found_blocked as Hfb.
  step_cases; simpl in *; try done; unfold pending; simpl; unfold upd in *;
    rewrite ?decide_False in Hc' by done; try (left; exists t; rewrite decide_True by done; by split).
  - match goal with H : _ && _ = true |- _ => apply andb_prop in H as [Hf Hq%bool_decide_eq_true] end.
    specialize (Hsafe Hf). pose proof (i_q c s Hinv i) as Hqi. rewrite Hq, elem_of_nil in Hqi.
    destruct (at_pc s i); simpl in *; rewrite ?Hsafe in *; intuition congruence.
  - left. exists t. rewrite decide_True by done. split; [done|]. apply Has. by left.
  - by apply elem_of_nil in Hw.
  - left. exists t. rewrite decide_True by done. split; [done|]. simpl. by apply elem_of_cons.
  - right. split; [done|]. specialize (Hfb _ _ eq_refl ltac:(done)). exists i0.
    destruct (decide (i0 = t)) as [->|]; [congruence|]. by rewrite Hfb, decide_True.
  - left. exists t. rewrite decide_True by done. split; [done|]. simpl. destruct Hw as [->|]; [|done].
    rewrite decide_True in Hc' by done. destruct (Hst ltac:(done)) as [E|[E|E]]; rewrite E in Hc'; done.
  - left. exists t. rewrite decide_True by done. split; [done|]. simpl. destruct Hw as [->|]; [|done].
    destruct Has; [|done]. right. by apply Hbt.
Qed.

(** A thread that goes on to test the condition does so, and takes it. *)
Lemma step_test u : will_test (at_pc s u) (st s u) → cond s = true → cond s' = true → will_test (at_pc s' u) (st s' u).
Proof.
  intros Hw Hc Hc'. destruct (decide (u = t)) as [->|]; step_cases; upd_cases; try done;
    match goal with H : will_test (at_pc s ?v) _ |- _ => destruct (at_pc s v); simpl in *; congruence end.
Qed.

(** A thread whose commitment is its own doing was committed before, except
    when it found the condition false. *)
Lemma step_committed i :
  committed (at_pc s' i) (st s' i) → cond s' = true →
  (committed (at_pc s i) (st s i) ∧ cond s = true) ∨ (lk s' = Some t ∧ at_pc s' t = S_check).
Proof.
  pose proof (i_st c s Hinv i). pose proof (i_lk c s Hinv t). pose proof (i_st c s Hinv t).
  step_cases; upd_cases; rewrite ?Hpc; simpl; try intuition congruence.
  all: destruct (i_st c s Hinv i0) as [E|[E|E]]; [done|rewrite E; simpl; intuition congruence..].
Qed.

Lemma step_frame u : u ≠ t → lk s = Some u → at_pc s' u = at_pc s u ∧ lk s' = Some u.
Proof.
  intros Hne Hl. pose proof (i_lk c s Hinv t).
  step_cases; upd_cases; try done; intuition congruence.
Qed.

Lemma step_key i :
  (fast c = true → add_first c = true) →
  committed (at_pc s' i) (st s' i) → cond s' = true → pending c s' i.
Proof.
  intros Hsafe Hc Hcond. destruct (step_committed i Hc Hcond) as [[Hc0 Hcond0]|[? Hp]].
  - destruct (i_key c s Hinv i Hc0 Hcond0) as [(u & Hl & Hw)|(Ho & u & Hu)].
    2:{ right. split; [done|]. exists u. by apply step_test. }
    destruct (decide (u = t)) as [->|Hne].
    + destruct (decide (i = t)) as [->|]; [exfalso|by apply step_waker].
      pose proof (i_st c s Hinv t). destruct (at_pc s t); simpl in *; intuition congruence.
    + left. exists u. destruct (step_frame u Hne Hl) as [-> ->]. done.
  - left. exists t. by rewrite Hp.
Qed.

End Preserve.

Lemma inv_always c s : (fast c = true → add_first c = true) → reachable c s → inv c s.
Proof.
  intros Hsafe. induction 1 as [|s t o s' Hr IH Hs]; [apply inv_init|].
  split; eauto using step_lk, step_bl, step_pl, step_st, step_sl, step_q, step_key.
Qed.

(** ** Properties *)


(** Thread 0 waits; thread 1 signals while thread 0 is between [release(lk)]
    and [wq_add_locked]. *)
Definition lost_schedule : list (nat * op) :=
  [(0, DoWait); (0, DoWait); (0, DoWait); (0, DoWait); (0, DoWait); (0, DoWait);
   (1, DoSignal); (1, DoSignal); (1, DoSignal); (1, DoSignal); (1, DoSignal);
   (0, DoWait); (0, DoWait); (0, DoWait); (0, DoWait)]%nat.

(** C2 The order of [release(lk)] and [wq_add_locked] in [sleep] together with
    the unlocked test [wq_has_sleeper] of pipe.c loses a wakeup: a state is
    reachable in which the condition holds and the signaller has returned,
    every lock is free, and the waiting thread is asleep and can take no step
    of its own until another thread signals. *)
Theorem pipe_loses_wakeup :
  ∃ s, reachable pipe_cfg s ∧ cond s = true ∧ at_pc s 0 = Blocked ∧ st s 0 = SLEEPING ∧
    (∀ o, step_fn pipe_cfg 0 o s = None) ∧ (∀ t, t ≠ 0%nat → at_pc s t = Idle) ∧
    lk s = None ∧ bl s = None ∧ (∀ i, pl s i = None).
Proof.
  destruct (exec pipe_cfg lost_schedule init) as [s|] eqn:E; [|vm_compute in E; discriminate E].
  exists s. split; [eapply exec_reachable; [apply reach_init|exact E]|].
  vm_compute in E. injection E as <-. split_and!; try reflexivity; unfold upd.
  - intros t Ht. simpl. unfold upd. do 2 (destruct t as [|t]; [done|]). done.
  - intros i. simpl. by do 2 (destruct i as [|i]; [done|]).
Qed.

(** Thread 0 is asleep; thread 1 has set the condition and goes on to wake it. *)
Definition signal_schedule : list (nat * op) :=
  (replicate 10 (0, DoWait) ++ replicate 4 (1, DoSignal))%nat.

(** Threads 0 and 2 are asleep; thread 1 has woken thread 2 and returned. *)
Definition one_schedule : list (nat * op) :=
  (replicate 10 (0, DoWait) ++ replicate 10 (2, DoWait) ++ replicate 11 (1, DoSignal))%nat.

