(* ===== verification/Memory.v ===== *)
(** * Physical memory

    Multi-byte loads and stores over the byte memory of CString.v
    (little-endian, as RISC-V has it), and the class of states that contain
    the physical memory and the head of kalloc.c's free list. *)

From S2P Require Import Prelude Params CString Spinlock ProcDefs.

(** ** Little-endian loads and stores *)

Fixpoint load_le (n : nat) (m : mem) (a : Z) : Z :=
  match n with
  | O => 0
  | S n => u8 (m a) + 256 * load_le n m (a + 1)
  end.

Fixpoint store_le (n : nat) (m : mem) (a v : Z) : mem :=
  match n with
  | O => m
  | S n => store_le n (upd m a (v mod 256)) (a + 1) (v / 256)
  end.

Definition load64 : mem → Z → Z := load_le 8.
Definition store64 : mem → Z → Z → mem := store_le 8.
Definition load32 : mem → Z → Z := load_le 4.
Definition store32 : mem → Z → Z → mem := store_le 4.
Definition load16 : mem → Z → Z := load_le 2.
Definition store16 : mem → Z → Z → mem := store_le 2.

Lemma store_le_out n m a v x : (x < a ∨ a + Z.of_nat n ≤ x) → store_le n m a v x = m x.
Proof.
  revert m a v. induction n as [|n IH]; intros m a v Hx; cbn [store_le]; [done|].
  rewrite IH by lia. apply upd_ne. lia.
Qed.

Lemma load_le_ext n m m' a :
  (∀ x, a ≤ x < a + Z.of_nat n → m' x = m x) → load_le n m' a = load_le n m a.
Proof.
  revert a. induction n as [|n IH]; intros a Hx; cbn [load_le]; [done|].
  rewrite Hx by lia. rewrite (IH (a + 1)); [done|]. intros. apply Hx. lia.
Qed.

Lemma load_le_range n m a : 0 ≤ load_le n m a < 256 ^ Z.of_nat n.
Proof.
  revert a. induction n as [|n IH]; intros a; cbn [load_le]; [lia|].
  pose proof (wrap_bound 8 (m a) ltac:(lia)) as Hb. change (2 ^ 8) with 256 in Hb.
  specialize (IH (a + 1)). fold (u8 (m a)) in Hb. rewrite Nat2Z.inj_succ, Z.pow_succ_r by lia. lia.
Qed.

Lemma load_store_le n m a v : 0 ≤ v < 256 ^ Z.of_nat n → load_le n (store_le n m a v) a = v.
Proof.
  revert m a v. induction n as [|n IH]; intros m a v Hv; cbn [load_le store_le].
  - simpl in Hv. lia.
  - rewrite Nat2Z.inj_succ, Z.pow_succ_r in Hv by lia.
    rewrite IH by (split; [apply Z.div_pos; lia|apply Z.div_lt_upper_bound; lia]).
    rewrite store_le_out, upd_eq by lia. unfold u8, wrap. change (2 ^ 8) with 256.
    rewrite Z.mod_mod by lia. pose proof (Z.div_mod v 256 ltac:(lia)). lia.
Qed.

Lemma load_store_le_ne n n' m a b v :
  (b + Z.of_nat n' ≤ a ∨ a + Z.of_nat n ≤ b) → load_le n' (store_le n m a v) b = load_le n' m b.
Proof. intros H. apply load_le_ext. intros x Hx. apply store_le_out. lia. Qed.

Lemma load_store64 m a v : 0 ≤ v < 2 ^ 64 → load64 (store64 m a v) a = v.
Proof. intros. apply load_store_le. done. Qed.
Lemma load_store64_ne m a b v : (b + 8 ≤ a ∨ a + 8 ≤ b) → load64 (store64 m a v) b = load64 m b.
Proof. intros. apply load_store_le_ne. done. Qed.
Lemma store64_out m a v x : (x < a ∨ a + 8 ≤ x) → store64 m a v x = m x.
Proof. intros. apply store_le_out. done. Qed.
Lemma load64_ext m m' a : (∀ x, a ≤ x < a + 8 → m' x = m x) → load64 m' a = load64 m a.
Proof. apply (load_le_ext 8). Qed.
Lemma load64_range m a : 0 ≤ load64 m a < 2 ^ 64.
Proof. apply (load_le_range 8). Qed.

Lemma load_store32 m a v : 0 ≤ v < 2 ^ 32 → load32 (store32 m a v) a = v.
Proof. intros. apply load_store_le. done. Qed.
Lemma load_store32_ne m a b v : (b + 4 ≤ a ∨ a + 4 ≤ b) → load32 (store32 m a v) b = load32 m b.
Proof. intros. apply load_store_le_ne. done. Qed.
Lemma store32_out m a v x : (x < a ∨ a + 4 ≤ x) → store32 m a v x = m x.
Proof. intros. apply store_le_out. done. Qed.
Lemma load32_ext m m' a : (∀ x, a ≤ x < a + 4 → m' x = m x) → load32 m' a = load32 m a.
Proof. apply (load_le_ext 4). Qed.
Lemma load32_range m a : 0 ≤ load32 m a < 2 ^ 32.
Proof. apply (load_le_range 4). Qed.

Lemma load_le_zero n m a : (∀ x, a ≤ x < a + Z.of_nat n → m x = 0) → load_le n m a = 0.
Proof.
  revert a. induction n as [|n IH]; intros a Hx; cbn [load_le]; [done|].
  rewrite Hx, IH by (intros; try apply Hx; lia). done.
Qed.

(** ** States with physical memory *)

Record pmem : Type := mkPmem { bytes : mem; freelist : Z }.

Class HasMem (S : Type) `{HasProcs S} : Type := {
  pm_of : S → pmem;
  with_pm : pmem → S → S;
  pm_of_with_pm : ∀ p s, pm_of (with_pm p s) = p;
  with_pm_with_pm : ∀ p p' s, with_pm p (with_pm p' s) = with_pm p s;
  with_pm_of : ∀ s, with_pm (pm_of s) s = s;
  pm_of_with_hw : ∀ h s, pm_of (with_hw h s) = pm_of s;
  pm_of_with_pt : ∀ t s, pm_of (with_pt t s) = pm_of s;
  hw_of_with_pm : ∀ p s, hw_of (with_pm p s) = hw_of s;
  pt_of_with_pm : ∀ p s, pt_of (with_pm p s) = pt_of s;
  with_hw_with_pm : ∀ h p s, with_hw h (with_pm p s) = with_pm p (with_hw h s);
  with_pt_with_pm : ∀ t p s, with_pt t (with_pm p s) = with_pm p (with_pt t s);
}.

#[export] Hint Rewrite @pm_of_with_pm @with_pm_with_pm @with_pm_of @pm_of_with_hw @pm_of_with_pt
  @hw_of_with_pm @pt_of_with_pm @with_hw_with_pm @with_pt_with_pm : st.

(** The smallest such state. *)
Record kmemst : Type := mkKmem { km_hw : hw; km_pt : ptab; km_pm : pmem }.
#[global] Instance HasHw_kmem : HasHw kmemst.
Proof. refine {| hw_of := km_hw; with_hw h s := mkKmem h (km_pt s) (km_pm s) |}; by intros; try destruct s. Defined.
#[global] Instance HasProcs_kmem : HasProcs kmemst.
Proof. refine {| pt_of := km_pt; with_pt t s := mkKmem (km_hw s) t (km_pm s) |}; by intros; try destruct s. Defined.
#[global] Instance HasMem_kmem : HasMem kmemst.
Proof. refine {| pm_of := km_pm; with_pm p s := mkKmem (km_hw s) (km_pt s) p |}; by intros; try destruct s. Defined.

Section Ops.
Context {S : Type} `{HasMem S}.

Definition mod_bytes (f : mem → mem) : M S unit :=
  modify (λ s, with_pm (mkPmem (f (bytes (pm_of s))) (freelist (pm_of s))) s).
Definition get_bytes : M S mem := gets (λ s, bytes (pm_of s)).
Definition ld64 (a : Z) : M S Z := gets (λ s, load64 (bytes (pm_of s)) a).
Definition st64 (a v : Z) : M S unit := mod_bytes (λ m, store64 m a v).
Definition set_freelist (r : Z) : M S unit :=
  modify (λ s, with_pm (mkPmem (bytes (pm_of s)) r) s).

End Ops.

(** What a call that only takes and releases locks leaves of the hart's
    state: the outermost [intena] may have been saved again. *)
Definition settled (h h' : hw) : Prop := h' = h ∨ h' = hw_settle h.

Lemma settled_refl h : settled h h.
Proof. by left. Qed.
Lemma settled_settle h : settled h (hw_settle h).
Proof. by right. Qed.
Lemma settled_trans h1 h2 h3 : settled h1 h2 → settled h2 h3 → settled h1 h3.
Proof. intros [->| ->] [->| ->]; unfold settled; rewrite ?hw_settle_settle; auto. Qed.
Lemma settled_cpu_ok h h' : settled h h' → cpu_ok h → cpu_ok h'.
Proof. intros [->| ->]; auto with xv6. Qed.
Lemma settled_locks h h' : settled h h' → locks h' = locks h.
Proof. by intros [->| ->]. Qed.
Lemma settled_free lk h h' : settled h h' → lock_free lk h → lock_free lk h'.
Proof. intros Hs. unfold lock_free. by rewrite (settled_locks _ _ Hs). Qed.
Lemma settled_cproc h h' : settled h h' → cproc (mycpu h') = cproc (mycpu h).
Proof. intros [->| ->]; [done|]. unfold hw_settle. hw_simpl. by case_decide. Qed.
#[export] Hint Resolve settled_refl settled_settle settled_trans settled_cpu_ok settled_free : xv6.
