(* ===== verification/Kalloc.v ===== *)
(** * The physical page allocator: kernel/kalloc.c

    The free list lives in the free pages themselves: the first eight bytes of
    a free page hold the address of the next.  [kend] is the linker's [end]. *)

From S2P Require Import Prelude Params CString Spinlock ProcDefs Memory.

Section Ops.
Context {S : Type} `{HasMem S}.
Variable kend : Z.

Definition kfree (pa : Z) : M S unit :=
  if decide (pa mod PGSIZE ≠ 0 ∨ pa < kend ∨ PHYSTOP ≤ pa) then panic "kfree" else
  mod_bytes (λ m, memset m pa 1 PGSIZE) ;;
  acquire L_kmem ;;
  fl <- gets (λ s, freelist (pm_of s)) ;;
  st64 pa fl ;;
  set_freelist pa ;;
  release L_kmem.

Definition kalloc : M S Z :=
  acquire L_kmem ;;
  r <- gets (λ s, freelist (pm_of s)) ;;
  (if decide (r ≠ 0) then next <- ld64 r ;; set_freelist next else ret tt) ;;
  release L_kmem ;;
  (if decide (r ≠ 0) then mod_bytes (λ m, memset m r 5 PGSIZE) else ret tt) ;;
  ret r.

(* for(; p + PGSIZE <= (char* )pa_end; p += PGSIZE) kfree(p); [fuel] iterations *)
Fixpoint freerange_loop (fuel : nat) (p pa_end : Z) : M S unit :=
  match fuel with
  | O => λ s, Spin s
  | Datatypes.S fuel =>
      if decide (p + PGSIZE ≤ pa_end)
      then kfree p ;; freerange_loop fuel (p + PGSIZE) pa_end
      else ret tt
  end.

Definition freerange (pa_start pa_end : Z) : M S unit :=
  freerange_loop (Datatypes.S (Z.to_nat (pa_end / PGSIZE))) (PGROUNDUP pa_start) pa_end.

Definition kinit : M S unit :=
  initlock L_kmem "kmem" ;;
  freerange kend PHYSTOP.

End Ops.

(** ** The free list *)

Section FreeList.
Variable kend : Z.

(** A page the allocator may hand out. *)
Definition page_ok (p : Z) : Prop := p mod PGSIZE = 0 ∧ kend ≤ p ∧ p < PHYSTOP ∧ 0 < p.

Fixpoint flist (m : mem) (h : Z) (l : list Z) : Prop :=
  match l with
  | [] => h = 0
  | p :: l => h = p ∧ page_ok p ∧ flist m (load64 m p) l
  end.

(** [l] is the list of free pages. *)
Definition kmem_ok (pm : pmem) (l : list Z) : Prop := flist (bytes pm) (freelist pm) l ∧ NoDup l.

(** Address [a] lies in the page at [p]. *)
Definition in_page (p a : Z) : Prop := p ≤ a < p + PGSIZE.

(** Address [a] lies in none of the pages. *)
Definition outside (l : list Z) (a : Z) : Prop := ∀ p, p ∈ l → ¬ in_page p a.

Lemma pages_disjoint p q a : page_ok p → page_ok q → p ≠ q → in_page p a → ¬ in_page q a.
Proof.
  unfold page_ok, in_page. intros (Hp & _) (Hq & _) Hne Ha Ha'.
  unfold PGSIZE in *. apply Z.mod_divide in Hp as [x ->], Hq as [y ->]; lia.
Qed.

Lemma flist_page m h l p : flist m h l → p ∈ l → page_ok p.
Proof.
  revert h. induction l as [|q l IH]; intros h; [by intros _ ?%elem_of_nil|].
  intros (-> & Hq & Hl) [->|Hp]%elem_of_cons; eauto.
Qed.

Lemma flist_ext m m' h l :
  (∀ p x, p ∈ l → in_page p x → m' x = m x) → flist m h l → flist m' h l.
Proof.
  revert h. induction l as [|p l IH]; intros h Hx; simpl; [done|].
  intros (-> & Hp & Hl). split_and!; [done|done|].
  rewrite (load64_ext m m'); [apply IH; [|done]|].
  - intros q x Hq. apply Hx. by right.
  - intros x ?. apply (Hx p); [by left|]. unfold in_page, PGSIZE. lia.
Qed.

Lemma flist_out m m' h l :
  flist m h l → (∀ x, ¬ outside l x → m' x = m x) → flist m' h l.
Proof.
  intros Hl Hx. eapply flist_ext; [|exact Hl]. intros p x Hp Hin. apply Hx. intros Ho. by eapply Ho.
Qed.

Lemma flist_inj m h l l' : flist m h l → flist m h l' → l = l'.
Proof.
  revert h l'. induction l as [|p l IH]; intros h [|p' l']; simpl; try done.
  - intros -> (E & (_ & _ & _ & ?) & _). lia.
  - intros (-> & (_ & _ & _ & ?) & _) ?. lia.
  - intros (-> & _ & Hl) (<- & _ & Hl'). f_equal. eauto.
Qed.

End FreeList.

(** ** What the operations do *)

Section Specs.
Context {S : Type} `{HasMem S}.
Variable kend : Z.
Implicit Types s : S.

(** A hart that may call the allocator. *)
Record can_alloc (s : S) : Prop := mkCanAlloc {
  ca_cpu : cpu_ok (hw_of s);
  ca_lock : lock_free L_kmem (hw_of s);
}.

Lemma can_alloc_settled s pm h : can_alloc s → settled (hw_of s) h → can_alloc (with_pm pm (with_hw h s)).
Proof. intros [? ?] ?. split; st_simpl; eauto with xv6. Qed.

Lemma can_alloc_with_pm s pm : can_alloc s → can_alloc (with_pm pm s).
Proof. intros [? ?]. split; by st_simpl. Qed.

Lemma wp_mod_bytes f s Q :
  Q tt (with_pm (mkPmem (f (bytes (pm_of s))) (freelist (pm_of s))) s) → wp (mod_bytes f) s Q.
Proof. done. Qed.

Lemma kalloc_none s : can_alloc s → kmem_ok kend (pm_of s) [] →
  kalloc s = Ok 0 (with_hw (hw_settle (hw_of s)) s).
Proof.
  intros [Hok Hlk] [Hfl _]. simpl in Hfl.
  enough (wp kalloc s (λ r s', r = 0 ∧ s' = with_hw (hw_settle (hw_of s)) s)) as (? & ? & -> & -> & ->)%wp_elim by done.
  unfold kalloc. wp_go. apply wp_acquire; [done|]. wp_go. st_simpl. rewrite Hfl. simpl. wp_go.
  eapply wp_release; [by st_simpl|done|done|]. wp_go. by st_simpl.
Qed.

Lemma kalloc_some s p l : can_alloc s → kmem_ok kend (pm_of s) (p :: l) →
  ∃ m', kalloc s = Ok p (with_pm (mkPmem m' (load64 (bytes (pm_of s)) p)) (with_hw (hw_settle (hw_of s)) s)) ∧
    kmem_ok kend (mkPmem m' (load64 (bytes (pm_of s)) p)) l ∧ page_ok kend p ∧ p ∉ l ∧
    (∀ a, m' a = if decide (in_page p a) then 5 else bytes (pm_of s) a).
Proof.
  intros [Hok Hlk] [(Hh & Hp & Hfl) [Hnin Hnd]%list.NoDup_cons].
  assert (p ≠ 0) by (destruct Hp as (_ & _ & _ & ?); lia).
  exists (memset (bytes (pm_of s)) p 5 PGSIZE). split_and!.
  - match goal with |- _ = Ok p ?s' => enough (wp kalloc s (λ r s1, r = p ∧ s1 = s')) as (? & ? & -> & -> & ->)%wp_elim by done end.
    unfold kalloc. wp_go. apply wp_acquire; [done|]. wp_go. st_simpl. rewrite Hh. rewrite decide_True by done.
    unfold ld64, set_freelist. wp_go. st_simpl.
    eapply wp_release; [by st_simpl|done|done|]. wp_go. rewrite decide_True by done. apply wp_mod_bytes. wp_go.
    split; [done|]. by st_simpl.
  - split; [|done]. simpl. eapply flist_ext; [|exact Hfl]. intros q x Hq Hin. rewrite memset_spec by done.
    rewrite decide_False; [done|]. intros Hx. assert (page_ok kend q) by eauto using flist_page.
    assert (p ≠ q) by (intros ->; done). by eapply (pages_disjoint kend p q x).
  - done.
  - done.
  - intros a. by rewrite memset_spec.
Qed.

Lemma kfree_spec s p l : can_alloc s → kmem_ok kend (pm_of s) l → page_ok kend p → p ∉ l →
  ∃ m', kfree kend p s = Ok tt (with_pm (mkPmem m' p) (with_hw (hw_settle (hw_of s)) s)) ∧
    kmem_ok kend (mkPmem m' p) (p :: l) ∧ (∀ a, ¬ in_page p a → m' a = bytes (pm_of s) a).
Proof.
  intros [Hok Hlk] [Hfl Hnd] Hp Hnin. pose proof Hp as (Hal & Hlo & Hhi & Hpos).
  set (m1 := memset (bytes (pm_of s)) p 1 PGSIZE).
  assert (0 ≤ freelist (pm_of s) < 2 ^ 64) as Hfr.
  { destruct l as [|q l]; simpl in Hfl; [lia|]. destruct Hfl as (-> & (_ & _ & ? & ?) & _).
    unfold PHYSTOP, KERNBASE in *. lia. }
  exists (store64 m1 p (freelist (pm_of s))).
  assert (∀ a, ¬ in_page p a → store64 m1 p (freelist (pm_of s)) a = bytes (pm_of s) a) as Hout.
  { intros a Ha. unfold in_page, PGSIZE in Ha. rewrite store64_out by lia. unfold m1.
    rewrite memset_spec by done. by rewrite decide_False by done. }
  split_and!; [| |done].
  - match goal with |- _ = Ok tt ?s' => enough (wp (kfree kend p) s (λ _ s1, s1 = s')) as ([] & ? & -> & ->)%wp_elim by done end.
    unfold kfree. rewrite decide_False by lia. wp_go. apply wp_mod_bytes. wp_go. fold m1.
    apply wp_acquire; [by st_simpl|]. wp_go. unfold st64, set_freelist. apply wp_mod_bytes. wp_go. st_simpl. simpl.
    eapply wp_release; [by st_simpl|done|done|]. by st_simpl.
  - split; [|by apply list.NoDup_cons]. simpl. split_and!; [done|done|].
    rewrite load_store64 by done. eapply flist_ext; [|exact Hfl]. intros q x Hq Hin. apply Hout.
    assert (page_ok kend q) by eauto using flist_page. assert (q ≠ p) by (intros ->; done).
    by eapply (pages_disjoint kend q p x).
Qed.

(** The pages of [freerange], last freed first. *)
Fixpoint pages_down (n : nat) (a : Z) : list Z :=
  match n with O => [] | Datatypes.S n => (a + Z.of_nat n * PGSIZE) :: pages_down n a end.

Lemma elem_of_pages_down n a p :
  p ∈ pages_down n a ↔ ∃ i, 0 ≤ i < Z.of_nat n ∧ p = a + i * PGSIZE.
Proof.
  induction n as [|n IH]; cbn [pages_down].
  - split; [by intros ?%elem_of_nil|]. intros (i & ? & _). lia.
  - rewrite elem_of_cons, IH. split.
    + intros [->|(i & ? & ->)]; [exists (Z.of_nat n)|exists i]; split; lia || done.
    + intros (i & ? & ->). destruct (decide (i = Z.of_nat n)) as [->|]; [by left|].
      right. exists i. split; [lia|done].
Qed.

Lemma freerange_loop_spec fuel n k a s :
  can_alloc s → 0 < a → a mod PGSIZE = 0 → kend ≤ a → (n < fuel)%nat →
  a + Z.of_nat (k + n) * PGSIZE ≤ PHYSTOP < a + Z.of_nat (k + n + 1) * PGSIZE →
  kmem_ok kend (pm_of s) (pages_down k a) →
  wp (freerange_loop kend fuel (a + Z.of_nat k * PGSIZE) PHYSTOP) s (λ _ s',
    ∃ pm h, s' = with_pm pm (with_hw h s) ∧ settled (hw_of s) h ∧ kmem_ok kend pm (pages_down (k + n) a)).
Proof.
  revert fuel k s. induction n as [|n IH]; intros fuel k s Hca Ha0 Ha Hka Hf Hend Hk;
    (destruct fuel as [|fuel]; [lia|]); cbn [freerange_loop]; unfold PGSIZE in *.
  - rewrite decide_False by lia. apply wp_ret. exists (pm_of s), (hw_of s). st_simpl.
    split_and!; [done|auto with xv6|]. by rewrite Nat.add_0_r.
  - rewrite decide_True by lia. wp_go.
    destruct (kfree_spec s (a + Z.of_nat k * 4096) (pages_down k a)) as (m' & Hkf & Hk' & _); [done|done| | |].
    + unfold page_ok, PGSIZE. rewrite Z.mod_add by lia. lia.
    + rewrite elem_of_pages_down. intros (i & ? & E). unfold PGSIZE in E. lia.
    + eapply wp_ok; [exact Hkf|].
      replace (a + Z.of_nat k * 4096 + 4096) with (a + Z.of_nat (Datatypes.S k) * 4096) by lia.
      eapply wp_mono; [apply (IH fuel (Datatypes.S k)); try done|].
      * by apply can_alloc_settled; [|auto with xv6].
      * lia.
      * replace (Datatypes.S k + n)%nat with (k + Datatypes.S n)%nat by lia. lia.
      * st_simpl. exact Hk'.
      * intros [] s' (pm & h & -> & Hs & Hkm). st_simpl. exists pm, h. split_and!; [done|eauto with xv6|].
        by replace (k + Datatypes.S n)%nat with (Datatypes.S k + n)%nat by lia.
Qed.

End Specs.

(** ** Properties *)

(** C32 The allocator's contract.  With no free page [kalloc] returns 0 and
    changes nothing; otherwise it returns an aligned page inside RAM, which
    leaves the free list, and no byte outside that page changes.  [kfree] of
    the page puts it back.  [kfree] of an address that is not a page of the
    allocator's range panics, address 0 included, since the kernel does not end
    there. *)
Theorem kalloc_kfree_contract (kend : Z) (s : kmemst) (l : list Z) :
  can_alloc s → kmem_ok kend (pm_of s) l →
  (l = [] → kalloc s = Ok 0 (mkKmem (hw_settle (km_hw s)) (km_pt s) (km_pm s))) ∧
  (∀ p l', l = p :: l' → ∃ s1 s2,
     kalloc s = Ok p s1 ∧ kmem_ok kend (pm_of s1) l' ∧ page_ok kend p ∧ p ∉ l' ∧
     kfree kend p s1 = Ok tt s2 ∧ kmem_ok kend (pm_of s2) l ∧
     (∀ a, ¬ in_page p a → bytes (pm_of s1) a = bytes (pm_of s) a ∧ bytes (pm_of s2) a = bytes (pm_of s) a)) ∧
  (∀ pa, 0 ≤ pa → (pa = 0 → 0 < kend) → ¬ page_ok kend pa → kfree kend pa s = Panic "kfree").
Proof.
  intros Hca Hk. split_and!.
  - intros ->. by rewrite (kalloc_none (S := kmemst) kend s Hca Hk).
  - intros p l' ->. destruct (kalloc_some (S := kmemst) kend s p l' Hca Hk) as (m1 & H1 & Hk1 & Hp & Hn & Hm1).
    set (s1 := with_pm _ _) in H1.
    assert (can_alloc s1) as Hca1 by (apply can_alloc_settled; auto with xv6).
    destruct (kfree_spec kend s1 p l' Hca1) as (m2 & H2 & Hk2 & Hm2); [exact Hk1|done|done|].
    eexists s1, _. split_and!; [exact H1|done|done|done|exact H2|exact Hk2|].
    intros a Ha. simpl. rewrite Hm2 by done. simpl. rewrite Hm1, decide_False by done. done.
  - intros pa Hpos H0 Hnp. unfold kfree. rewrite decide_True; [done|]. unfold page_ok in Hnp.
    destruct (decide (pa mod PGSIZE = 0)), (decide (pa < kend)), (decide (PHYSTOP ≤ pa)); try tauto. lia.
Qed.

(** [kinit] puts every whole page between the end of the kernel and
    PHYSTOP on the free list, each once, and nothing else. *)
Theorem kinit_frees_all (kend : Z) (s : kmemst) :
  cpu_ok (km_hw s) → freelist (km_pm s) = 0 → 0 < kend ≤ PHYSTOP →
  ∃ s' l, kinit kend s = Ok tt s' ∧ kmem_ok kend (pm_of s') l ∧ lock_free L_kmem (km_hw s') ∧
    ∀ p, p ∈ l ↔ p mod PGSIZE = 0 ∧ kend ≤ p ∧ p + PGSIZE ≤ PHYSTOP.
Proof.
  intros Hcpu Hfl Hend. unfold PHYSTOP, KERNBASE in Hend.
  set (a := (kend + 4095) / 4096 * 4096).
  assert (kend ≤ a < kend + 4096 ∧ a mod 4096 = 0) as [Ha1 Ha2].
  { unfold a. rewrite Z.mod_mul by lia. Z.div_mod_to_equations. lia. }
  set (n := Z.to_nat ((PHYSTOP - a) / 4096)).
  assert (Z.of_nat n = (PHYSTOP - a) / 4096) as En.
  { unfold n. rewrite Z2Nat.id; [done|]. apply Z.div_pos; [|lia]. unfold PHYSTOP, KERNBASE.
    apply Z.mod_divide in Ha2 as [x Hx]; lia. }
  assert (PHYSTOP = a + Z.of_nat n * 4096) as Ephys.
  { rewrite En. apply Z.mod_divide in Ha2 as [x Hx]; [|lia]. unfold PHYSTOP, KERNBASE. rewrite Hx.
    Z.div_mod_to_equations. lia. }
  set (s0 := mkKmem (set_lock L_kmem (mkSpinlock false "kmem" None) (km_hw s)) (km_pt s) (km_pm s)).
  assert (can_alloc s0) as Hca.
  { split; simpl; [by apply cpu_ok_set_lock|]. exists "kmem"%string. simpl. apply lookup_insert_eq. }
  pose proof (freerange_loop_spec kend (Datatypes.S (Z.to_nat (PHYSTOP / PGSIZE))) n 0 a s0 Hca) as Hw.
  apply wp_elim in Hw as ([] & s' & Hs & pm & h & -> & Hh & Hk); [|lia|done|lia|..].
  - exists (with_pm pm (with_hw h s0)), (pages_down n a). split_and!; [|exact Hk| |].
    + unfold kinit. unfold initlock, mod_hw, modify. unfold bind. simpl. unfold freerange.
      rewrite PGROUNDUP_spec by (unfold PGSIZE; lia). fold a. rewrite Z.add_0_r in Hs. exact Hs.
    + simpl. eapply settled_free; [exact Hh|]. exact (ca_lock _ Hca).
    + intros p. rewrite elem_of_pages_down. unfold PGSIZE. simpl. split.
      * intros (i & ? & ->). rewrite Z.mod_add by lia. lia.
      * intros (Hp & ? & ?). apply Z.mod_divide in Hp as [x ->], Ha2 as [y Hy]; [|lia..].
        exists (x - y). lia.
  - enough (Z.of_nat n ≤ PHYSTOP / PGSIZE) by lia. unfold PGSIZE. rewrite En.
    apply Z.div_le_mono; lia.
  - unfold PGSIZE. rewrite !Nat2Z.inj_add. lia.
  - split; [done|apply NoDup_nil_2].
Qed.

Definition ex_pm : kmemst :=
  mkKmem (mkHw 0 {[0 := mkCpu None 0 false true]} {[L_kmem := mkSpinlock false "kmem" None]})
    (mkPtab [] [] 1 None) (mkPmem (store64 (λ _, 0) 2147487744 2147491840) 2147487744).

Lemma ex_pm_can_alloc : can_alloc ex_pm.
Proof. split; [eexists; split; [reflexivity|simpl; lia]|by eexists]. Qed.

(** Two free pages. *)
Lemma ex_pm_ok : kmem_ok KERNBASE (km_pm ex_pm) [2147487744; 2147491840].
Proof.
  split; [|apply (bool_decide_unpack _); vm_compute; exact I].
  simpl. unfold page_ok, PHYSTOP, KERNBASE. split_and!; vm_compute; done.
Qed.

Lemma kalloc_kfree_contract_witness :
  ∃ s1 s2, kalloc ex_pm = Ok 2147487744 s1 ∧ kfree KERNBASE 2147487744 s1 = Ok tt s2.
Proof.
  destruct (kalloc_kfree_contract KERNBASE ex_pm [2147487744; 2147491840] ex_pm_can_alloc ex_pm_ok)
    as (_ & H & _).
  destruct (H _ _ eq_refl) as (s1 & s2 & H1 & _ & _ & _ & H2 & _).
  exact (ex_intro _ s1 (ex_intro _ s2 (conj H1 H2))).
Defined.

Lemma kinit_frees_all_witness :
  ∃ s' (l : list Z), kinit (KERNBASE + 100) (mkKmem (km_hw ex_pm) (km_pt ex_pm) (mkPmem (λ _, 0) 0)) = Ok tt s' ∧
    ∀ p, p ∈ l ↔ p mod PGSIZE = 0 ∧ KERNBASE + 100 ≤ p ∧ p + PGSIZE ≤ PHYSTOP.
Proof.
  destruct (kinit_frees_all (KERNBASE + 100) (mkKmem (km_hw ex_pm) (km_pt ex_pm) (mkPmem (λ _, 0) 0)))
    as (s' & l & H1 & _ & _ & H2).
  - exact (ca_cpu _ ex_pm_can_alloc).
  - reflexivity.
  - unfold PHYSTOP, KERNBASE. lia.
  - exact (ex_intro _ s' (ex_intro _ l (conj H1 H2))).
Defined.
