(* ===== verification/PageTable.v ===== *)
(** * What page tables mean: the specification level of Vm.v

    A three-level page table is described by the map [T] from index paths
    ([] for the root, [[i]] and [[i; j]] below it) to the physical pages that
    hold the tables.  [pt_wf m T] says that memory [m] encodes [T]; the leaf
    entry of a virtual address is then [pte_at m T va], which is what the
    hardware's Sv39 walk finds.  The lemmas say how the entries of vm.c's
    stores change this map. *)

From S2P Require Import Prelude Params CString Spinlock ProcDefs Memory Kalloc.

Notation ptree := (gmap (list Z) Z).

Definition idx_ok (i : Z) : Prop := 0 ≤ i < 512.

(** A valid entry that points to a table page. *)
Definition table_pte (q : Z) : Z := Z.lor (PA2PTE q) PTE_V.

Record pt_wf (kend : Z) (m : mem) (T : ptree) (root : Z) : Prop := mkPtWf {
  pw_root : T !! [] = Some root;
  pw_page : ∀ x q, T !! x = Some q → page_ok kend q;
  pw_path : ∀ x q, T !! x = Some q → (length x ≤ 2)%nat ∧ Forall idx_ok x;
  pw_inj : ∀ x y q, T !! x = Some q → T !! y = Some q → x = y;
  pw_up : ∀ x i q, T !! (x ++ [i]) = Some q → is_Some (T !! x);
  pw_ent : ∀ x q i, T !! x = Some q → (length x < 2)%nat → idx_ok i →
    match T !! (x ++ [i]) with
    | Some q' => load64 m (q + 8 * i) = table_pte q'
    | None => Z.land (load64 m (q + 8 * i)) PTE_V = 0
    end;
}.

(** The path of the leaf table of [va], and the leaf entry. *)
Definition leaf_path (va : Z) : list Z := [PX 2 va; PX 1 va].

Definition pte_at (m : mem) (T : ptree) (va : Z) : Z :=
  match T !! leaf_path va with
  | Some q => load64 m (q + 8 * PX 0 va)
  | None => 0
  end.

(** [a] lies in no page of the tree. *)
Definition off_tree (T : ptree) (a : Z) : Prop := ∀ x q, T !! x = Some q → ¬ in_page q a.

Lemma page_ok_bound kend q : page_ok kend q → 0 < q ∧ q + PGSIZE ≤ PHYSTOP ∧ q mod PGSIZE = 0.
Proof.
  intros (Hm & _ & Hhi & Hpos). split_and!; [done| |done].
  unfold PHYSTOP, KERNBASE, PGSIZE in *. apply Z.mod_divide in Hm as [x ->]; lia.
Qed.

Lemma table_pte_spec kend q : page_ok kend q →
  PTE2PA (table_pte q) = q ∧ Z.land (table_pte q) PTE_V ≠ 0 ∧ 0 ≤ table_pte q < 2 ^ 64.
Proof.
  intros Hq. pose proof (page_ok_bound _ _ Hq) as (Hpos & Hhi & Hal).
  unfold PHYSTOP, KERNBASE, PGSIZE in Hhi. unfold table_pte.
  assert (PTE2PA (Z.lor (PA2PTE q) PTE_V) = q) as E by (apply PTE2PA_PA2PTE; [lia|done|change PTE_V with 1; lia]).
  assert (0 ≤ PA2PTE q < 2 ^ 54 ∧ ∃ k, PA2PTE q = k * 2 ^ 10) as [Hb [k Hk]].
  { unfold PA2PTE, u64. rewrite Z.shiftr_div_pow2, Z.shiftl_mul_pow2 by lia.
    rewrite wrap_small by (Z.div_mod_to_equations; lia). split; [Z.div_mod_to_equations; lia|by eexists]. }
  assert (Z.lor (PA2PTE q) PTE_V = k * 2 ^ 10 + 1) as El
    by (rewrite Hk; apply lor_shift_low; change PTE_V with 1; lia).
  split_and!; [done| |lia|lia].
  rewrite Z.land_lor_distr_l. rewrite Hk, land_shift_low by (change PTE_V with 1; lia). done.
Qed.

(** Two entries of table pages that are not the same entry do not overlap. *)
Lemma entry_disjoint kend q q' i i' :
  page_ok kend q → page_ok kend q' → idx_ok i → idx_ok i' → (q ≠ q' ∨ i ≠ i') →
  q' + 8 * i' + 8 ≤ q + 8 * i ∨ q + 8 * i + 8 ≤ q' + 8 * i'.
Proof.
  intros (Hq & _) (Hq' & _) Hi Hi' Hne. unfold idx_ok, PGSIZE in *.
  apply Z.mod_divide in Hq as [x ->], Hq' as [y ->]; lia.
Qed.

Lemma entry_in_page q i x : idx_ok i → q + 8 * i ≤ x < q + 8 * i + 8 → in_page q x.
Proof. unfold idx_ok, in_page, PGSIZE. lia. Qed.

Lemma PX_idx l va : 0 ≤ l → idx_ok (PX l va).
Proof. apply PX_bound. Qed.

(** Addresses with the same indices are in the same page. *)
Lemma same_page va va' : 0 ≤ va < MAXVA → 0 ≤ va' < MAXVA →
  leaf_path va' = leaf_path va ∧ PX 0 va' = PX 0 va ↔ va' / 4096 = va / 4096.
Proof.
  intros Hv Hv'. split.
  - intros [[= E2 E1] E0]. pose proof (PX_decompose va Hv) as D. pose proof (PX_decompose va' Hv') as D'.
    rewrite E2, E1, E0 in D'. Z.div_mod_to_equations. lia.
  - intros E. unfold leaf_path. rewrite !PX_spec by lia.
    change (2 ^ (12 + 9 * 2)) with (4096 * 512 * 512). change (2 ^ (12 + 9 * 1)) with (4096 * 512).
    change (2 ^ (12 + 9 * 0)) with 4096. rewrite <- !Z.div_div by lia. by rewrite E.
Qed.

(** A leaf entry built by mappages. *)
Definition leaf_pte (pa perm : Z) : Z := Z.lor (Z.lor (PA2PTE pa) perm) PTE_V.

Lemma leaf_pte_eq pa perm : 0 ≤ pa < 2 ^ 56 → 0 ≤ perm < 1024 →
  ∃ k f, leaf_pte pa perm = k * 2 ^ 10 + f ∧ PA2PTE pa = k * 2 ^ 10 ∧ 0 ≤ k < 2 ^ 44 ∧
    f = Z.lor perm PTE_V ∧ 0 ≤ f < 1024.
Proof.
  intros Hpa Hp. exists (pa / 2 ^ 12), (Z.lor perm PTE_V).
  assert (0 ≤ Z.lor perm PTE_V < 1024) as Hf.
  { change 1024 with (2 ^ 10). split; [apply Z.lor_nonneg; change PTE_V with 1; lia|].
    destruct (decide (Z.lor perm PTE_V = 0)) as [->|]; [lia|].
    apply Z.log2_lt_pow2; [|rewrite Z.log2_lor by (change PTE_V with 1; lia)].
    - assert (0 ≤ Z.lor perm PTE_V) by (apply Z.lor_nonneg; change PTE_V with 1; lia). lia.
    - change (Z.log2 PTE_V) with 0. apply Z.max_lub_lt; [|lia].
      destruct (decide (perm = 0)) as [->|]; [done|]. apply Z.log2_lt_pow2; lia. }
  assert (0 ≤ pa / 2 ^ 12 < 2 ^ 44) by (split; [apply Z.div_pos|apply Z.div_lt_upper_bound]; lia).
  assert (PA2PTE pa = pa / 2 ^ 12 * 2 ^ 10) as E.
  { unfold PA2PTE, u64. rewrite Z.shiftr_div_pow2, Z.shiftl_mul_pow2 by lia. apply wrap_small. lia. }
  split_and!; try done || lia. unfold leaf_pte. rewrite <- Z.lor_assoc, E, lor_shift_low by lia. done.
Qed.

Lemma leaf_pte_range pa perm : 0 ≤ pa < 2 ^ 56 → 0 ≤ perm < 1024 → 0 ≤ leaf_pte pa perm < 2 ^ 64.
Proof. intros Hpa Hp. destruct (leaf_pte_eq pa perm Hpa Hp) as (k & f & -> & _ & ? & _ & ?). lia. Qed.

Lemma leaf_pte_pa pa perm : 0 ≤ pa < 2 ^ 56 → pa mod PGSIZE = 0 → 0 ≤ perm < 1024 →
  PTE2PA (leaf_pte pa perm) = pa.
Proof.
  intros Hpa Hal Hp. destruct (leaf_pte_eq pa perm Hpa Hp) as (k & f & _ & _ & _ & Ef & Hf).
  unfold leaf_pte. rewrite <- Z.lor_assoc. apply PTE2PA_PA2PTE; [done|done|]. by rewrite <- Ef.
Qed.

Lemma leaf_pte_flags pa perm : 0 ≤ pa < 2 ^ 56 → 0 ≤ perm < 1024 →
  PTE_FLAGS (leaf_pte pa perm) = Z.lor perm PTE_V.
Proof.
  intros Hpa Hp. destruct (leaf_pte_eq pa perm Hpa Hp) as (k & f & _ & _ & _ & Ef & Hf).
  unfold leaf_pte. rewrite <- Z.lor_assoc. apply PTE_FLAGS_PA2PTE; [done|]. by rewrite <- Ef.
Qed.

(** A flag bit of a leaf entry is that of its permissions. *)
Lemma leaf_pte_bit pa perm b : 0 ≤ pa < 2 ^ 56 → 0 ≤ perm < 1024 → 0 ≤ b < 1024 →
  Z.land (leaf_pte pa perm) b = Z.land (Z.lor perm PTE_V) b.
Proof.
  intros Hpa Hp Hb. rewrite <- (leaf_pte_flags pa perm) by done. unfold PTE_FLAGS.
  rewrite <- Z.land_assoc. f_equal. change 0x3FF with (Z.ones 10).
  rewrite Z.land_comm, Z.land_ones by lia. symmetry. by apply Z.mod_small.
Qed.

Lemma leaf_pte_valid pa perm : 0 ≤ pa < 2 ^ 56 → 0 ≤ perm < 1024 → Z.land (leaf_pte pa perm) PTE_V ≠ 0.
Proof.
  intros Hpa Hp. rewrite leaf_pte_bit by (done || (change PTE_V with 1; lia)).
  rewrite Z.land_comm, Z.land_lor_distr_r. change (Z.land PTE_V PTE_V) with 1.
  intros E%Z.lor_eq_0_iff. by destruct E.
Qed.

Section Wf.
Variables (kend : Z) (m m' : mem) (T : ptree) (root : Z).
Hypothesis Hwf : pt_wf kend m T root.

(** Memory changes outside the tables do not matter. *)
Lemma pt_wf_ext : (∀ a, ¬ off_tree T a → m' a = m a) →
  pt_wf kend m' T root ∧ ∀ va, pte_at m' T va = pte_at m T va.
Proof.
  intros Hm. assert (∀ x q i, T !! x = Some q → idx_ok i → load64 m' (q + 8 * i) = load64 m (q + 8 * i)) as He.
  { intros x q i Hx Hi. apply load64_ext. intros a Ha. apply Hm. intros Ho. apply (Ho x q Hx).
    by eapply entry_in_page. }
  split.
  - destruct Hwf as [? ? ? ? ? Hent]. split; try done. intros x q i Hx Hl Hi. rewrite (He x q i) by done.
    by apply Hent.
  - intros va. unfold pte_at. destruct (T !! leaf_path va) as [q|] eqn:E; [|done].
    eapply He; [done|]. by apply PX_idx.
Qed.

(** A store to a leaf entry changes the entry of one virtual page. *)
Lemma pt_wf_set_leaf va q v :
  T !! leaf_path va = Some q → 0 ≤ v < 2 ^ 64 →
  let m1 := store64 m (q + 8 * PX 0 va) v in
  pt_wf kend m1 T root ∧
  ∀ va', pte_at m1 T va' =
    if decide (leaf_path va' = leaf_path va ∧ PX 0 va' = PX 0 va) then v else pte_at m T va'.
Proof.
  intros Hq Hv m1. assert (∀ x q' i, T !! x = Some q' → idx_ok i → (x ≠ leaf_path va ∨ i ≠ PX 0 va) →
    load64 m1 (q' + 8 * i) = load64 m (q' + 8 * i)) as He.
  { intros x q' i Hx Hi Hne. apply load_store64_ne.
    eapply entry_disjoint; eauto using pw_page, PX_idx with lia.
    destruct Hne as [Hne|]; [left|right; congruence]. intros ->. apply Hne. eapply (pw_inj _ _ _ _ Hwf); eauto. }
  split.
  - destruct Hwf as [? ? ? ? ? Hent]. split; try done. intros x q' i Hx Hl Hi. rewrite (He x); [by apply Hent|done|done|].
    left. intros ->. simpl in Hl. lia.
  - intros va'. unfold pte_at. case_decide as E.
    + destruct E as [-> ->]. rewrite Hq. unfold m1. by rewrite load_store64.
    + destruct (T !! leaf_path va') as [q'|] eqn:Hq'; [|done]. apply (He (leaf_path va')); [done|by apply PX_idx|].
      destruct (decide (leaf_path va' = leaf_path va)); [|by left]. right. tauto.
Qed.

(** A zeroed page hung under a table page adds no mapping. *)
Lemma pt_wf_extend x q i p :
  T !! x = Some q → (length x < 2)%nat → idx_ok i → T !! (x ++ [i]) = None →
  page_ok kend p → (∀ y q', T !! y = Some q' → q' ≠ p) →
  (∀ a, m' a = if decide (in_page p a) then 0 else m a) →
  let m1 := store64 m' (q + 8 * i) (table_pte p) in
  let T1 := <[x ++ [i] := p]> T in
  pt_wf kend m1 T1 root ∧ ∀ va, pte_at m1 T1 va = pte_at m T va.
Proof.
  intros Hx Hl Hi Hnone Hp Hfresh Hm' m1 T1.
  pose proof (table_pte_spec kend p Hp) as (_ & _ & Hv).
  assert (∀ y q' j, T !! y = Some q' → idx_ok j → (y ≠ x ∨ j ≠ i) →
    load64 m1 (q' + 8 * j) = load64 m (q' + 8 * j)) as He.
  { intros y q' j Hy Hj Hne. unfold m1. rewrite load_store64_ne.
    - apply load64_ext. intros a Ha. rewrite Hm', decide_False; [done|].
      apply (pages_disjoint kend q'); eauto using pw_page, entry_in_page.
    - eapply entry_disjoint; eauto using pw_page.
      destruct Hne as [Hne|]; [left|right; congruence]. intros ->. apply Hne. eapply (pw_inj _ _ _ _ Hwf); eauto. }
  assert (∀ j, idx_ok j → load64 m1 (p + 8 * j) = 0) as Hz.
  { intros j Hj. unfold m1. rewrite load_store64_ne.
    - apply (load_le_zero 8). intros a Ha. rewrite Hm', decide_True; [done|]. by eapply (entry_in_page p j).
    - eapply entry_disjoint; eauto using pw_page. }
  assert (x ++ [i] ≠ []) as Hnn by (by destruct x).
  split.
  - split.
    + unfold T1. rewrite lookup_insert_ne by done. apply Hwf.
    + intros y q' [[<- <-]|[? Hy]]%lookup_insert_Some; [done|]. by eapply pw_page.
    + intros y q' [[<- <-]|[? Hy]]%lookup_insert_Some; [|by eapply pw_path].
      rewrite length_app. simpl. split; [lia|]. apply Forall_app. split; [by eapply pw_path|by constructor].
    + intros y z q' [[<- <-]|[? Hy]]%lookup_insert_Some [[<- Hq]|[? Hz']]%lookup_insert_Some; try done.
      * by destruct (Hfresh z p).
      * subst. by destruct (Hfresh y q').
      * by eapply pw_inj.
    + intros y j q' [[E <-]|[Hne Hy]]%lookup_insert_Some; unfold T1.
      * apply app_inj_2 in E as [-> _]; [|done]. rewrite lookup_insert_ne; [by eexists|].
        intros E. apply (f_equal length) in E. rewrite length_app in E. simpl in E. lia.
      * pose proof (pw_up _ _ _ _ Hwf _ _ _ Hy) as [q1 Hq1]. apply lookup_insert_is_Some.
        destruct (decide (x ++ [i] = y)); [by left|right]. split; [done|by eexists].
    + intros y q' j [[<- <-]|[Hne Hy]]%lookup_insert_Some Hly Hj; unfold T1.
      * rewrite lookup_insert_ne.
        -- destruct (T !! ((x ++ [i]) ++ [j])) as [q2|] eqn:E; [|by rewrite Hz].
           apply (pw_up _ _ _ _ Hwf) in E as [? ?]. congruence.
        -- intros E. apply (f_equal length) in E. rewrite (length_app (x ++ [i])) in E. simpl in E. lia.
      * destruct (decide (x ++ [i] = y ++ [j])) as [E|E].
        -- rewrite E, lookup_insert_eq. apply app_inj_2 in E as [-> [= ->]]; [|done].
           rewrite Hy in Hx. injection Hx as ->. unfold m1. by rewrite load_store64.
        -- rewrite lookup_insert_ne by done. rewrite (He y q' j); [by apply (pw_ent _ _ _ _ Hwf)|done|done|].
           destruct (decide (y = x)) as [->|]; [|by left]. right. intros ->. done.
  - intros va. unfold pte_at. destruct (decide (x ++ [i] = leaf_path va)) as [E|E].
    + unfold T1. rewrite E, lookup_insert_eq, <- E, Hnone. apply Hz. by apply PX_idx.
    + unfold T1. rewrite lookup_insert_ne by done. destruct (T !! leaf_path va) as [q'|] eqn:Hq'; [|done].
      apply (He (leaf_path va)); [done|by apply PX_idx|]. left. intros <-. simpl in Hl. lia.
Qed.

End Wf.
