(* ===== verification/Vm.v ===== *)
(** * Page tables and user memory: kernel/vm.c

    Page-table pages and user pages are pages of the physical memory of
    Memory.v; a page-table entry is a 64-bit load from it.  A buffer of the
    kernel that copyout reads or copyin fills is passed by value, as the list
    of its bytes: kernel objects do not live in the pages of kalloc.c.
    [copyin] and [copyinstr] return their status and the bytes they stored. *)

From S2P Require Import Prelude Params CString Spinlock ProcDefs Sched Memory Kalloc.

Section Ops.
Context {S : Type} `{HasMem S}.
Variable kend : Z.

(* for(int level = 2; level > 0; level--) of walk(); the next level's table, or
   None for return 0 *)
Fixpoint walk_loop (level : nat) (pagetable va alloc : Z) : M S (option Z) :=
  match level with
  | O => ret (Some pagetable)
  | Datatypes.S level' =>
      let pte := pagetable + 8 * PX (Z.of_nat level) va in
      e <- ld64 pte ;;
      if decide (Z.land e PTE_V ≠ 0) then walk_loop level' (PTE2PA e) va alloc
      else if decide (alloc = 0) then ret None
      else
        p <- kalloc ;;
        if decide (p = 0) then ret None else
        mod_bytes (λ m, memset m p 0 PGSIZE) ;;
        st64 pte (Z.lor (PA2PTE p) PTE_V) ;;
        walk_loop level' p va alloc
  end.

Definition walk (pagetable va alloc : Z) : M S Z :=
  if decide (MAXVA ≤ va) then panic "walk" else
  t <- walk_loop 2 pagetable va alloc ;;
  match t with
  | None => ret 0
  | Some t => ret (t + 8 * PX 0 va)
  end.

Definition walkaddr (pagetable va : Z) : M S Z :=
  if decide (MAXVA ≤ va) then ret 0 else
  pte <- walk pagetable va 0 ;;
  if decide (pte = 0) then ret 0 else
  e <- ld64 pte ;;
  if decide (Z.land e PTE_V = 0) then ret 0 else
  if decide (Z.land e PTE_U = 0) then ret 0 else
  ret (PTE2PA e).

Fixpoint mappages_loop (fuel : nat) (pagetable a last pa perm : Z) : M S Z :=
  match fuel with
  | O => λ s, Spin s
  | Datatypes.S fuel =>
      pte <- walk pagetable a 1 ;;
      if decide (pte = 0) then ret (-1) else
      e <- ld64 pte ;;
      if decide (Z.land e PTE_V ≠ 0) then panic "mappages: remap" else
      st64 pte (Z.lor (Z.lor (PA2PTE pa) perm) PTE_V) ;;
      if decide (a = last) then ret 0
      else mappages_loop fuel pagetable (u64 (a + PGSIZE)) last (u64 (pa + PGSIZE)) perm
  end.

Definition mappages (pagetable va size pa perm : Z) : M S Z :=
  if decide (va mod PGSIZE ≠ 0) then panic "mappages: va not aligned" else
  if decide (size mod PGSIZE ≠ 0) then panic "mappages: size not aligned" else
  if decide (size = 0) then panic "mappages: size" else
  mappages_loop (Z.to_nat (size / PGSIZE)) pagetable va (u64 (va + size - PGSIZE)) pa perm.

Definition kvmmap (kpgtbl va pa sz perm : Z) : M S unit :=
  r <- mappages kpgtbl va sz pa perm ;;
  if decide (r ≠ 0) then panic "kvmmap" else ret tt.

Definition uvmcreate : M S Z :=
  pagetable <- kalloc ;;
  if decide (pagetable = 0) then ret 0 else
  mod_bytes (λ m, memset m pagetable 0 PGSIZE) ;;
  ret pagetable.

(* for(a = va; a < va + npages*PGSIZE; a += PGSIZE) *)
Fixpoint uvmunmap_loop (fuel : nat) (pagetable a last do_free : Z) : M S unit :=
  match fuel with
  | O => λ s, Spin s
  | Datatypes.S fuel =>
      if decide (a < last) then
        pte <- walk pagetable a 0 ;;
        (if decide (pte = 0) then ret tt else
         e <- ld64 pte ;;
         if decide (Z.land e PTE_V = 0) then ret tt else
         (if decide (do_free ≠ 0) then kfree kend (PTE2PA e) else ret tt) ;;
         st64 pte 0) ;;
        uvmunmap_loop fuel pagetable (u64 (a + PGSIZE)) last do_free
      else ret tt
  end.

Definition uvmunmap (pagetable va npages do_free : Z) : M S unit :=
  if decide (va mod PGSIZE ≠ 0) then panic "uvmunmap: not aligned" else
  uvmunmap_loop (Datatypes.S (Z.to_nat npages)) pagetable va (u64 (va + npages * PGSIZE)) do_free.

Definition uvmdealloc (pagetable oldsz newsz : Z) : M S Z :=
  if decide (oldsz ≤ newsz) then ret oldsz else
  (if decide (PGROUNDUP newsz < PGROUNDUP oldsz) then
     let npages := i32 ((PGROUNDUP oldsz - PGROUNDUP newsz) / PGSIZE) in
     uvmunmap pagetable (PGROUNDUP newsz) (u64 npages) 1
   else ret tt) ;;
  ret newsz.

Fixpoint uvmalloc_loop (fuel : nat) (pagetable a oldsz newsz xperm : Z) : M S Z :=
  match fuel with
  | O => λ s, Spin s
  | Datatypes.S fuel =>
      if decide (a < newsz) then
        mem <- kalloc ;;
        if decide (mem = 0) then uvmdealloc pagetable a oldsz ;; ret 0 else
        mod_bytes (λ m, memset m mem 0 PGSIZE) ;;
        r <- mappages pagetable a PGSIZE mem (Z.lor (Z.lor PTE_R PTE_U) xperm) ;;
        if decide (r ≠ 0) then
          kfree kend mem ;;
          uvmdealloc pagetable a oldsz ;;
          ret 0
        else uvmalloc_loop fuel pagetable (u64 (a + PGSIZE)) oldsz newsz xperm
      else ret newsz
  end.

Definition uvmalloc (pagetable oldsz newsz xperm : Z) : M S Z :=
  if decide (newsz < oldsz) then ret oldsz else
  let oldsz := PGROUNDUP oldsz in
  uvmalloc_loop (Datatypes.S (Z.to_nat ((newsz - oldsz + PGSIZE - 1) / PGSIZE)))
    pagetable oldsz oldsz newsz xperm.

(* [fuel] bounds the depth of the recursion *)
Fixpoint freewalk (fuel : nat) (pagetable : Z) : M S unit :=
  match fuel with
  | O => λ s, Spin s
  | Datatypes.S fuel =>
      for_each 512 0 (λ i,
        pte <- ld64 (pagetable + 8 * i) ;;
        if decide (Z.land pte PTE_V ≠ 0 ∧ Z.land pte (Z.lor (Z.lor PTE_R PTE_W) PTE_X) = 0) then
          freewalk fuel (PTE2PA pte) ;;
          st64 (pagetable + 8 * i) 0
        else if decide (Z.land pte PTE_V ≠ 0) then panic "freewalk: leaf"
        else ret tt) ;;
      kfree kend pagetable
  end.

Definition uvmfree (pagetable sz : Z) : M S unit :=
  (if decide (sz > 0) then uvmunmap pagetable 0 (PGROUNDUP sz / PGSIZE) 1 else ret tt) ;;
  freewalk 3 pagetable.

(* for(i = 0; i < sz; i += PGSIZE); Some i for goto err *)
Fixpoint uvmcopy_loop (fuel : nat) (old new i sz : Z) : M S (option Z) :=
  match fuel with
  | O => λ s, Spin s
  | Datatypes.S fuel =>
      if decide (i < sz) then
        pte <- walk old i 0 ;;
        if decide (pte = 0) then uvmcopy_loop fuel old new (u64 (i + PGSIZE)) sz else
        e <- ld64 pte ;;
        if decide (Z.land e PTE_V = 0) then uvmcopy_loop fuel old new (u64 (i + PGSIZE)) sz else
        let pa := PTE2PA e in
        let flags := PTE_FLAGS e in
        mem <- kalloc ;;
        if decide (mem = 0) then ret (Some i) else
        mod_bytes (λ m, memmove m mem pa PGSIZE) ;;
        r <- mappages new i PGSIZE mem flags ;;
        if decide (r ≠ 0) then kfree kend mem ;; ret (Some i)
        else uvmcopy_loop fuel old new (u64 (i + PGSIZE)) sz
      else ret None
  end.

Definition uvmcopy (old new sz : Z) : M S Z :=
  e <- uvmcopy_loop (Datatypes.S (Z.to_nat ((sz + PGSIZE - 1) / PGSIZE))) old new 0 sz ;;
  match e with
  | None => ret 0
  | Some i => uvmunmap new 0 (i / PGSIZE) 1 ;; ret (-1)
  end.

Definition uvmclear (pagetable va : Z) : M S unit :=
  pte <- walk pagetable va 0 ;;
  if decide (pte = 0) then panic "uvmclear" else
  e <- ld64 pte ;;
  st64 pte (Z.land e (u64 (Z.lnot PTE_U))).

Definition ismapped (pagetable va : Z) : M S Z :=
  pte <- walk pagetable va 0 ;;
  if decide (pte = 0) then ret 0 else
  e <- ld64 pte ;;
  if decide (Z.land e PTE_V ≠ 0) then ret 1 else ret 0.

Definition vmfault (pagetable va read : Z) : M S Z :=
  i <- curproc ;;
  p <- proc_at i ;;
  if decide (sz p ≤ va) then ret 0 else
  let va := PGROUNDDOWN va in
  b <- ismapped pagetable va ;;
  if decide (b ≠ 0) then ret 0 else
  mem <- kalloc ;;
  if decide (mem = 0) then ret 0 else
  mod_bytes (λ m, memset m mem 0 PGSIZE) ;;
  r <- mappages (ProcDefs.pagetable p) va PGSIZE mem (Z.lor (Z.lor PTE_W PTE_U) PTE_R) ;;
  if decide (r ≠ 0) then kfree kend mem ;; ret 0 else
  ret mem.

(* memmove() of the bytes [l] to address [a] *)
Fixpoint write_bytes (m : mem) (a : Z) (l : list Z) : mem :=
  match l with
  | [] => m
  | c :: l => write_bytes (upd m a (u8 c)) (a + 1) l
  end.

(* the [n] bytes at [a] *)
Fixpoint read_bytes (m : mem) (a : Z) (n : nat) : list Z :=
  match n with
  | O => []
  | Datatypes.S n => m a :: read_bytes m (a + 1) n
  end.

Fixpoint copyout_loop (fuel : nat) (pagetable dstva : Z) (src : list Z) (len : Z) : M S Z :=
  match fuel with
  | O => λ s, Spin s
  | Datatypes.S fuel =>
      if decide (len > 0) then
        let va0 := PGROUNDDOWN dstva in
        if decide (MAXVA ≤ va0) then ret (-1) else
        pa0 <- walkaddr pagetable va0 ;;
        pa0 <- (if decide (pa0 = 0) then vmfault pagetable va0 0 else ret pa0) ;;
        if decide (pa0 = 0) then ret (-1) else
        pte <- walk pagetable va0 0 ;;
        if decide (pte = 0) then fault else
        e <- ld64 pte ;;
        if decide (Z.land e PTE_W = 0) then ret (-1) else
        let n := PGSIZE - (dstva - va0) in
        let n := if decide (n > len) then len else n in
        mod_bytes (λ m, write_bytes m (pa0 + (dstva - va0)) (take (Z.to_nat n) src)) ;;
        copyout_loop fuel pagetable (u64 (va0 + PGSIZE)) (drop (Z.to_nat n) src) (len - n)
      else ret 0
  end.

(* [src]: the [len] bytes of the kernel buffer *)
Definition copyout (pagetable dstva : Z) (src : list Z) : M S Z :=
  copyout_loop (Datatypes.S (length src)) pagetable dstva src (Z.of_nat (length src)).

Fixpoint copyin_loop (fuel : nat) (pagetable srcva len : Z) (dst : list Z) : M S (Z * list Z) :=
  match fuel with
  | O => λ s, Spin s
  | Datatypes.S fuel =>
      if decide (len > 0) then
        let va0 := PGROUNDDOWN srcva in
        pa0 <- walkaddr pagetable va0 ;;
        pa0 <- (if decide (pa0 = 0) then vmfault pagetable va0 0 else ret pa0) ;;
        if decide (pa0 = 0) then ret (-1, dst) else
        let n := PGSIZE - (srcva - va0) in
        let n := if decide (n > len) then len else n in
        m <- get_bytes ;;
        copyin_loop fuel pagetable (u64 (va0 + PGSIZE)) (len - n)
          (dst ++ read_bytes m (pa0 + (srcva - va0)) (Z.to_nat n))
      else ret (0, dst)
  end.

Definition copyin (pagetable srcva len : Z) : M S (Z * list Z) :=
  copyin_loop (Datatypes.S (Z.to_nat len)) pagetable srcva len [].

(* while(n > 0){ if( *p == '\0') ...; }: the bytes stored and whether a NUL was found *)
Fixpoint copystr_page (m : mem) (p : Z) (n : nat) : list Z * bool :=
  match n with
  | O => ([], false)
  | Datatypes.S n =>
      if decide (m p = 0) then ([0], true)
      else let '(l, b) := copystr_page m (p + 1) n in (m p :: l, b)
  end.

Fixpoint copyinstr_loop (fuel : nat) (pagetable srcva max : Z) (dst : list Z) : M S (Z * list Z) :=
  match fuel with
  | O => λ s, Spin s
  | Datatypes.S fuel =>
      if decide (max > 0) then
        let va0 := PGROUNDDOWN srcva in
        pa0 <- walkaddr pagetable va0 ;;
        if decide (pa0 = 0) then ret (-1, dst) else
        let n := PGSIZE - (srcva - va0) in
        let n := if decide (n > max) then max else n in
        m <- get_bytes ;;
        let '(l, got_null) := copystr_page m (pa0 + (srcva - va0)) (Z.to_nat n) in
        if got_null then ret (0, dst ++ l)
        else copyinstr_loop fuel pagetable (u64 (va0 + PGSIZE)) (max - n) (dst ++ l)
      else ret (-1, dst)
  end.

Definition copyinstr (pagetable srcva max : Z) : M S (Z * list Z) :=
  copyinstr_loop (Datatypes.S (Z.to_nat max)) pagetable srcva max [].

End Ops.
