(* ===== verification/VmSpec.v ===== *)
(** * Correctness of kernel/vm.c

    The functions of Vm.v against the page-table meaning of PageTable.v:
    [walk] finds the entry of an address and only adds empty tables,
    [mappages] and [uvmunmap] change exactly the entries they should, and
    [copyout]/[copyin] write and read the bytes that user code sees. *)

From S2P Require Import Prelude Params CString Spinlock ProcDefs Sched Memory Kalloc PageTable Vm.

Section Walk.
Context {S : Type} `{HasMem S}.
Variable kend : Z.
Implicit Types s : S.

Notation bytes_of s := (bytes (pm_of s)).

(** A state in which this hart may work on the page table [T]: the free pages
    are [l] and no table page is free. *)
Record vm_ok (s : S) (l : list Z) (T : ptree) (root : Z) : Prop := mkVmOk {
  vo_alloc : can_alloc s;
  vo_kmem : kmem_ok kend (pm_of s) l;
  vo_wf : pt_wf kend (bytes_of s) T root;
  vo_free : ∀ x q, T !! x = Some q → q ∉ l;
}.

(** [s'] comes from [s] by taking free pages for tables, and the pages [X]
    for other uses. *)
Record grows (s : S) (l : list Z) (T : ptree) (root : Z) (s' : S) (l' : list Z) (T' : ptree) (X : list Z) : Prop := mkGrows {
  g_state : ∃ pm h, s' = with_pm pm (with_hw h s) ∧ settled (hw_of s) h;
  g_ok : vm_ok s' l' T' root;
  g_tree : T ⊆ T';
  g_free : ∀ p, p ∈ l' → p ∈ l;
  g_new : ∀ x q, T' !! x = Some q → T !! x = Some q ∨ q ∈ l;
  g_acct : ∀ p, p ∈ l → p ∈ l' ∨ (∃ x, T' !! x = Some p) ∨ p ∈ X;
  g_frame : ∀ a, off_tree T a → outside l a → bytes_of s' a = bytes_of s a;
}.

Lemma grows_refl s l T root : vm_ok s l T root → grows s l T root s l T [].
Proof.
  intros Hok. split; try done; [|by left|by left].
  exists (pm_of s), (hw_of s). st_simpl. split; [done|auto with xv6].
Qed.

Lemma grows_off s l T root s' l' T' X a :
  grows s l T root s' l' T' X → off_tree T a → outside l a → off_tree T' a ∧ outside l' a.
Proof.
  intros Hg Ht Hl. split.
  - intros x q Hq. destruct (g_new _ _ _ _ _ _ _ _ Hg x q Hq); [by eapply Ht|by apply Hl].
  - intros p Hp. by apply Hl, (g_free _ _ _ _ _ _ _ _ Hg).
Qed.

Lemma grows_trans s1 l1 T1 root s2 l2 T2 X s3 l3 T3 Y :
  grows s1 l1 T1 root s2 l2 T2 X → grows s2 l2 T2 root s3 l3 T3 Y → grows s1 l1 T1 root s3 l3 T3 (X ++ Y).
Proof.
  intros G1 G2. pose proof G1 as [(pm1 & h1 & -> & Hs1) ? ? ? Hn1 Ha1 Hf1].
  destruct G2 as [(pm2 & h2 & -> & Hs2) ? ? ? Hn2 Ha2 Hf2]. st_simpl.
  split; [|done|by etrans|eauto| | |].
  - exists pm2, h2. st_simpl. split; [done|]. eauto with xv6.
  - intros x q [|]%Hn2; eauto.
  - intros p [Hp|[(x & Hx)|?]]%Ha1; [|right; left; exists x; by eapply lookup_weaken|right; right; by apply elem_of_app; left].
    apply Ha2 in Hp as [?|[?|?]]; [by left|by right; left|right; right; by apply elem_of_app; right].
  - intros a Ht Hl. destruct (grows_off _ _ _ _ _ _ _ _ a G1 Ht Hl). st_simpl. rewrite Hf2 by done. by apply Hf1.
Qed.

Lemma with_hw_as_pm h s : with_hw h s = with_pm (pm_of s) (with_hw h s).
Proof. by rewrite <- with_hw_with_pm, with_pm_of. Qed.

Lemma grows_settle s l T root :
  vm_ok s l T root → grows s l T root (with_hw (hw_settle (hw_of s)) s) l T [].
Proof.
  intros Hok. split; try done; [|  |by left|by left|by st_simpl].
  - exists (pm_of s), (hw_settle (hw_of s)). split; [apply with_hw_as_pm|auto with xv6].
  - destruct Hok. split; st_simpl; try done. rewrite with_hw_as_pm. eauto using can_alloc_settled with xv6.
Qed.

(** The part of the path of [va] above [level]. *)
Definition vpath (level : nat) (va : Z) : list Z := take (2 - level) (leaf_path va).

Lemma vpath_step level va : (level < 2)%nat →
  vpath (Datatypes.S level) va ++ [PX (Z.of_nat (Datatypes.S level)) va] = vpath level va.
Proof. intros. destruct level as [|[|]]; [done|done|lia]. Qed.

Lemma vpath_length level va : (level ≤ 2)%nat → length (vpath level va) = (2 - level)%nat.
Proof. intros. unfold vpath. rewrite length_take. simpl. lia. Qed.

(** [walk] without allocation only looks. *)
Lemma walk_loop_look level : ∀ t va s T root,
  (level ≤ 2)%nat → pt_wf kend (bytes_of s) T root → T !! vpath level va = Some t →
  walk_loop level t va 0 s = Ok (T !! leaf_path va) s.
Proof.
  induction level as [|level IH]; intros t va s T root Hl Hwf Ht; cbn [walk_loop].
  - unfold ret. f_equal. symmetry. exact Ht.
  - pose proof (pw_ent _ _ _ _ Hwf _ t (PX (Z.of_nat (Datatypes.S level)) va) Ht) as He.
    rewrite vpath_step, vpath_length in He by lia. specialize (He ltac:(lia) (PX_idx (Z.of_nat (Datatypes.S level)) va ltac:(lia))).
    unfold ld64, gets. unfold bind at 1. cbn [obind].
    destruct (T !! vpath level va) as [q|] eqn:Hq.
    + destruct (table_pte_spec kend q) as (Hpa & Hv & _); [by eapply (pw_page _ _ _ _ Hwf)|].
      rewrite He, decide_True, Hpa by done. eapply IH; [lia|done|done].
    + rewrite decide_False, decide_True by tauto || done. unfold ret. f_equal.
      destruct level as [|[|]]; [done| |lia]. symmetry. apply eq_None_not_Some. intros [q Hq'].
      change (leaf_path va) with (vpath 1 va ++ [PX 1 va]) in Hq'.
      apply (pw_up _ _ _ _ Hwf) in Hq' as [? ?]. congruence.
Qed.

(** The address [walk] returns when it does not allocate. *)
Definition pte_addr (T : ptree) (va : Z) : Z :=
  match T !! leaf_path va with Some q => q + 8 * PX 0 va | None => 0 end.

Lemma walk_look va s T root :
  va < MAXVA → pt_wf kend (bytes_of s) T root → walk root va 0 s = Ok (pte_addr T va) s.
Proof.
  intros Hva Hwf. unfold walk. rewrite decide_False by lia. unfold bind.
  rewrite (walk_loop_look 2 root va s T root); [|lia|done|apply Hwf].
  unfold pte_addr. by destruct (T !! leaf_path va).
Qed.

(** One more table page. *)
Lemma walk_grow_step level t va s l p T root :
  vm_ok s (p :: l) T root → (level < 2)%nat → T !! vpath (Datatypes.S level) va = Some t →
  T !! vpath level va = None →
  wp (r <- kalloc ;; mod_bytes (λ m, memset m r 0 PGSIZE) ;;
      st64 (t + 8 * PX (Z.of_nat (Datatypes.S level)) va) (Z.lor (PA2PTE r) PTE_V) ;; ret r) s
    (λ r s', r = p ∧ grows s (p :: l) T root s' l (<[vpath level va := p]> T) [] ∧
      ∀ va', pte_at (bytes_of s') (<[vpath level va := p]> T) va' = pte_at (bytes_of s) T va').
Proof.
  intros [Hca Hkm Hwf Hfree] Hl Ht Hnone.
  destruct (kalloc_some kend s p l Hca Hkm) as (m1 & Hk & Hkm' & Hp & Hnin & Hm1).
  wp_go. eapply wp_ok; [exact Hk|]. wp_go. unfold st64. apply wp_mod_bytes. wp_go. apply wp_mod_bytes. wp_go.
  st_simpl. simpl. set (i := PX _ va). set (m2 := memset m1 p 0 PGSIZE).
  assert (∀ a, m2 a = if decide (in_page p a) then 0 else bytes_of s a) as Hm2.
  { intros a. unfold m2. rewrite memset_spec by done. unfold in_page in *. case_decide; [done|]. by rewrite Hm1, decide_False. }
  assert (∀ y q', T !! y = Some q' → q' ≠ p) as Hfresh.
  { intros y q' Hy ->. by apply (Hfree y p Hy), elem_of_cons; left. }
  rewrite <- (vpath_step level va Hl) in *.
  destruct (pt_wf_extend kend (bytes_of s) m2 T root Hwf (vpath (Datatypes.S level) va) t i p) as [Hwf' Hpte];
    try done. { rewrite vpath_length; lia. } { by apply PX_idx. }
  assert (page_ok kend t) as Htp by (by eapply (pw_page _ _ _ _ Hwf)).
  assert (∀ a, ¬ in_page p a → ¬ in_page t a → store64 m2 (t + 8 * i) (table_pte p) a = bytes_of s a) as Hfr.
  { intros a Hpa Hta. rewrite store64_out, Hm2, decide_False; [done|done|].
    destruct (decide (t + 8 * i ≤ a < t + 8 * i + 8)) as [Ha|]; [|lia].
    destruct Hta. eapply (entry_in_page t i a); [by apply PX_idx|lia]. }
  split; [done|]. split; [|by st_simpl].
  split.
  - eexists _, _. split; [by st_simpl|auto with xv6].
  - split; st_simpl; simpl; [by apply can_alloc_settled; [|auto with xv6]| |exact Hwf'|].
    + destruct Hkm' as [Hfl Hnd]. split; [|done]. simpl in *. eapply flist_ext; [|exact Hfl].
      intros q x Hq Hx. rewrite Hfr, Hm1, decide_False; try done.
      * apply (pages_disjoint kend q); eauto using flist_page. by intros ->.
      * apply (pages_disjoint kend q); eauto using flist_page. by intros ->.
      * apply (pages_disjoint kend q); eauto using flist_page. intros ->. apply (Hfree _ _ Ht), elem_of_cons. by right.
    + intros x q [[_ <-]|[_ Hx]]%lookup_insert_Some; [done|]. pose proof (Hfree x q Hx) as Hq.
      rewrite elem_of_cons in Hq. tauto.
  - apply insert_subseteq. done.
  - intros q Hq. by right.
  - intros x q [[_ <-]|[_ Hx]]%lookup_insert_Some; [right; by left|by left].
  - intros q [->|?]%elem_of_cons; [right; left; eexists; apply lookup_insert_eq|by left].
  - intros a Hoff Hout. st_simpl. simpl. apply Hfr; [|by eapply Hoff]. apply Hout. by left.
Qed.

Lemma grows_look s l T root x q : vm_ok s l T root → T !! x = Some q → page_ok kend q.
Proof. intros [_ _ Hwf _]. apply (pw_page _ _ _ _ Hwf). Qed.

(** [walk] with allocation: it finds or makes the leaf table, or memory ran
    out; it never changes a leaf entry. *)
Lemma walk_loop_alloc level : ∀ t va s l T root,
  (level ≤ 2)%nat → vm_ok s l T root → T !! vpath level va = Some t →
  wp (walk_loop level t va 1) s (λ r s', ∃ l' T', grows s l T root s' l' T' [] ∧
    (∀ va', pte_at (bytes_of s') T' va' = pte_at (bytes_of s) T va') ∧
    match r with Some q => T' !! leaf_path va = Some q | None => l' = [] end).
Proof.
  induction level as [|level IH]; intros t va s l T root Hl Hok Ht; cbn [walk_loop].
  - apply wp_ret. exists l, T. split_and!; [by apply grows_refl|done|done].
  - unfold ld64 at 1. wp_go. pose proof (vo_wf _ _ _ _ Hok) as Hwf.
    pose proof (pw_ent _ _ _ _ Hwf _ t (PX (Z.of_nat (Datatypes.S level)) va) Ht) as He.
    rewrite vpath_step, vpath_length in He by lia.
    specialize (He ltac:(lia) (PX_idx (Z.of_nat (Datatypes.S level)) va ltac:(lia))).
    destruct (T !! vpath level va) as [q|] eqn:Hq.
    + destruct (table_pte_spec kend q) as (Hpa & Hv & _); [by eapply (pw_page _ _ _ _ Hwf)|].
      rewrite He, decide_True, Hpa by done. apply IH; [lia|done|done].
    + rewrite decide_False, decide_False by tauto || done. destruct l as [|p l].
      * wp_go. eapply wp_ok; [apply (kalloc_none kend); apply Hok|]. rewrite decide_True by done. apply wp_ret.
        exists [], T. split_and!; [by apply grows_settle|by st_simpl|done].
      * pose proof (walk_grow_step level t va s l p T root Hok ltac:(lia) Ht Hq) as Hg.
        pose proof Hok as [Hca Hkm _ _].
        destruct (kalloc_some kend s p l Hca Hkm) as (m1 & Hk & _ & Hp & _).
        assert (p ≠ 0) by (destruct Hp as (_ & _ & _ & ?); lia).
        unfold wp in Hg. unfold bind in Hg. rewrite Hk in Hg. cbn [obind] in Hg.
        wp_go. eapply wp_ok; [exact Hk|]. rewrite decide_False by done. wp_go.
        unfold st64, mod_bytes, modify in *. unfold wp at 1. unfold wp at 1. cbn [obind ret] in Hg.
        destruct Hg as (_ & Hg & Hpte). eapply wp_mono; [apply (IH p va _ l (<[vpath level va:=p]> T) root)|].
        -- lia.
        -- apply Hg.
        -- by rewrite lookup_insert_eq.
        -- intros r s' (l' & T' & Hg' & Hpte' & Hr). exists l', T'.
           split_and!; [by eapply (grows_trans _ _ _ _ _ _ _ [] _ _ _ [])|by intros; rewrite Hpte', Hpte|done].
Qed.

Lemma walk_alloc va s l T root :
  va < MAXVA → vm_ok s l T root →
  wp (walk root va 1) s (λ r s', ∃ l' T', grows s l T root s' l' T' [] ∧
    (∀ va', pte_at (bytes_of s') T' va' = pte_at (bytes_of s) T va') ∧
    ((r = 0 ∧ l' = []) ∨
     ∃ q, T' !! leaf_path va = Some q ∧ r = q + 8 * PX 0 va ∧ r ≠ 0)).
Proof.
  intros Hva Hok. unfold walk. rewrite decide_False by lia. wp_go.
  eapply wp_mono; [apply (walk_loop_alloc 2 root va s l T root); [lia|done|apply Hok]|].
  intros [q|] s' (l' & T' & Hg & Hpte & Hr); apply wp_ret; exists l', T'; split_and!; auto.
  right. exists q. split_and!; [done|done|].
  pose proof (grows_look _ _ _ _ _ _ (g_ok _ _ _ _ _ _ _ _ Hg) Hr) as (_ & _ & _ & ?).
  pose proof (PX_idx 0 va ltac:(lia)). unfold idx_ok in *. lia.
Qed.

(** A store to a leaf entry. *)
Lemma grows_set_leaf s l T root va q v :
  vm_ok s l T root → T !! leaf_path va = Some q → 0 ≤ v < 2 ^ 64 →
  let s' := with_pm (mkPmem (store64 (bytes_of s) (q + 8 * PX 0 va) v) (freelist (pm_of s))) s in
  grows s l T root s' l T [] ∧
  ∀ va', pte_at (bytes_of s') T va' =
    if decide (leaf_path va' = leaf_path va ∧ PX 0 va' = PX 0 va) then v else pte_at (bytes_of s) T va'.
Proof.
  intros [Hca Hkm Hwf Hfree] Hq Hv s'.
  destruct (pt_wf_set_leaf kend _ _ _ Hwf va q v Hq Hv) as [Hwf' Hpte].
  assert (∀ a, ¬ in_page q a → store64 (bytes_of s) (q + 8 * PX 0 va) v a = bytes_of s a) as Hfr.
  { intros a Ha. apply store64_out. destruct (decide (q + 8 * PX 0 va ≤ a < q + 8 * PX 0 va + 8)) as [Hx|]; [|lia].
    destruct Ha. eapply entry_in_page; [|exact Hx]. by apply PX_idx. }
  assert (s' = with_pm (mkPmem (store64 (bytes_of s) (q + 8 * PX 0 va) v) (freelist (pm_of s))) (with_hw (hw_of s) s)) as Es
    by (by rewrite with_hw_of).
  split; [|unfold s'; by st_simpl].
  split; try done; [| |by left|by left|].
  - eexists _, _. split; [exact Es|auto with xv6].
  - split; [rewrite Es; by apply can_alloc_settled; [|auto with xv6]| | |done]; unfold s'; st_simpl; [|done].
    destruct Hkm as [Hfl Hnd]. split; [|done]. simpl. eapply flist_ext; [|exact Hfl].
    intros p x Hp Hx. apply Hfr. apply (pages_disjoint kend p); eauto using flist_page.
    { by eapply (pw_page _ _ _ _ Hwf). } intros ->. by eapply Hfree.
  - intros a Hoff _. unfold s'. st_simpl. simpl. apply Hfr. by eapply Hoff.
Qed.

Lemma pte_at_leaf s T root va q :
  pt_wf kend (bytes_of s) T root → T !! leaf_path va = Some q →
  pte_at (bytes_of s) T va = load64 (bytes_of s) (q + 8 * PX 0 va).
Proof. intros _ Hq. unfold pte_at. by rewrite Hq. Qed.

(** [va'] lies in the [k] pages from [a]. *)
Definition in_range (a : Z) (k : nat) (va' : Z) : Prop := a ≤ va' < a + Z.of_nat k * PGSIZE.

#[global] Instance in_range_dec a k va' : Decision (in_range a k va').
Proof. unfold in_range. apply _. Defined.

Lemma in_range_S a k va' : a mod PGSIZE = 0 →
  in_range a (Datatypes.S k) va' ↔ va' / 4096 = a / 4096 ∨ in_range (a + PGSIZE) k va'.
Proof.
  unfold in_range, PGSIZE. intros Ha. apply Z.mod_divide in Ha as [x ->]; [|lia].
  rewrite Z.div_mul by lia. Z.div_mod_to_equations. lia.
Qed.

(** What [mappages] leaves at [va'] after mapping [k] pages. *)
Definition mapped (a : Z) (k : nat) (pa perm : Z) (old : Z → Z) (va' : Z) : Z :=
  if decide (in_range a k va') then leaf_pte (pa + (va' / 4096 * 4096 - a)) perm else old va'.

Lemma mapped_S a k pa perm old va' : a mod PGSIZE = 0 →
  mapped a (Datatypes.S k) pa perm old va' =
  mapped (a + PGSIZE) k (pa + PGSIZE) perm (λ v, if decide (v / 4096 = a / 4096) then leaf_pte pa perm else old v) va'.
Proof.
  intros Ha. unfold mapped. pose proof (in_range_S a k va' Ha) as Hr.
  destruct (decide (in_range a (Datatypes.S k) va')) as [Hin|Hin], (decide (in_range (a + PGSIZE) k va')) as [Hin'|Hin'];
    try tauto.
  - f_equal. lia.
  - destruct (proj1 Hr Hin) as [E|]; [|tauto]. rewrite decide_True by done. f_equal.
    apply Z.mod_divide in Ha as [x ->]; [|done]. unfold PGSIZE in *. rewrite E, Z.div_mul by lia. lia.
  - by rewrite decide_False by tauto.
Qed.

(** One iteration of [mappages]. *)
Lemma map_one a pa perm s l T root (k : M S Z) Q :
  vm_ok s l T root → 0 ≤ a < MAXVA → 0 ≤ pa < 2 ^ 56 → 0 ≤ perm < 1024 →
  Z.land (pte_at (bytes_of s) T a) PTE_V = 0 →
  (∀ s' l' T', grows s l T root s' l' T' [] → l' = [] →
     (∀ va, pte_at (bytes_of s') T' va = pte_at (bytes_of s) T va) → Q (-1) s') →
  (∀ s' l' T', grows s l T root s' l' T' [] →
     (∀ va, 0 ≤ va < MAXVA → pte_at (bytes_of s') T' va =
        if decide (va / 4096 = a / 4096) then leaf_pte pa perm else pte_at (bytes_of s) T va) →
     wp k s' Q) →
  wp (pte <- walk root a 1 ;;
      if decide (pte = 0) then ret (-1) else
      e <- ld64 pte ;;
      if decide (Z.land e PTE_V ≠ 0) then panic "mappages: remap" else
      st64 pte (Z.lor (Z.lor (PA2PTE pa) perm) PTE_V) ;; k) s Q.
Proof.
  intros Hok Ha Hpa Hperm Hnv Hfail Hcont. wp_go.
  eapply wp_mono; [apply (walk_alloc a s l T root); [lia|done]|].
  intros r s1 (l1 & T1 & Hg & Hpte & [[-> ->]|(q & Hq & -> & Hnz)]).
  { rewrite decide_True by done. apply wp_ret. by eapply Hfail. }
  rewrite decide_False by done. unfold ld64, st64. wp_go.
  pose proof (g_ok _ _ _ _ _ _ _ _ Hg) as Hok1.
  assert (pte_at (bytes_of s1) T1 a = load64 (bytes_of s1) (q + 8 * PX 0 a)) as E
    by (unfold pte_at; by rewrite Hq).
  rewrite <- E, Hpte, decide_False by tauto. wp_go. apply wp_mod_bytes.
  destruct (grows_set_leaf s1 l1 T1 root a q (leaf_pte pa perm) Hok1 Hq) as [Hg2 Hpte2]; [by apply leaf_pte_range|].
  eapply Hcont; [by eapply (grows_trans _ _ _ _ _ _ _ [] _ _ _ [])|]. intros va Hva. rewrite Hpte2, Hpte.
  destruct (decide (va / 4096 = a / 4096)) as [Es|Es].
  - by rewrite decide_True by (by apply same_page).
  - by rewrite decide_False by (by rewrite same_page).
Qed.

Lemma mappages_loop_S fuel root a last pa perm :
  mappages_loop (Datatypes.S fuel) root a last pa perm =
  (pte <- walk root a 1 ;;
   if decide (pte = 0) then ret (-1) else
   e <- ld64 pte ;;
   if decide (Z.land e PTE_V ≠ 0) then panic "mappages: remap" else
   st64 pte (Z.lor (Z.lor (PA2PTE pa) perm) PTE_V) ;;
   (if decide (a = last) then ret 0
    else mappages_loop fuel root (u64 (a + PGSIZE)) last (u64 (pa + PGSIZE)) perm) : M S Z).
Proof. done. Qed.

Lemma mappages_loop_spec n : ∀ a pa perm s l T root,
  vm_ok s l T root → a mod PGSIZE = 0 → 0 ≤ a → a + Z.of_nat (Datatypes.S n) * PGSIZE ≤ MAXVA →
  pa mod PGSIZE = 0 → 0 ≤ pa → pa + Z.of_nat (Datatypes.S n) * PGSIZE ≤ 2 ^ 56 → 0 ≤ perm < 1024 →
  (∀ va, in_range a (Datatypes.S n) va → Z.land (pte_at (bytes_of s) T va) PTE_V = 0) →
  wp (mappages_loop (Datatypes.S n) root a (a + Z.of_nat n * PGSIZE) pa perm) s (λ r s', ∃ l' T' k,
    grows s l T root s' l' T' [] ∧
    (∀ va, 0 ≤ va < MAXVA → pte_at (bytes_of s') T' va = mapped a k pa perm (pte_at (bytes_of s) T) va) ∧
    ((r = 0 ∧ k = Datatypes.S n) ∨ (r = -1 ∧ (k ≤ n)%nat ∧ l' = []))).
Proof.
  induction n as [|n IH]; intros a pa perm s l T root Hok Ha Ha0 Hmax Hpa Hpa0 Hpmax Hperm Hinv;
    assert (MAXVA = 2 ^ 38) as EM by done; rewrite mappages_loop_S; unfold PGSIZE in *;
    (apply (map_one a pa perm s l T root); [done|lia|lia|done| | |]).
  1,4: apply Hinv; unfold in_range, PGSIZE; lia.
  1,3: intros s' l' T' Hg -> Hpte; exists [], T', 0%nat; split_and!; [done| |right; split_and!; [done|lia|done]];
    intros va Hva; unfold mapped; rewrite decide_False by (unfold in_range; lia); done.
  - intros s' l' T' Hg Hpte. rewrite decide_True by lia. apply wp_ret. exists l', T', 1%nat.
    split_and!; [done| |by left]. intros va Hva. rewrite mapped_S by done. unfold mapped.
    rewrite decide_False by (unfold in_range; lia). by apply Hpte.
  - intros s' l' T' Hg Hpte. rewrite decide_False by lia. unfold u64. rewrite !wrap_small by lia.
    replace (a + Z.of_nat (Datatypes.S n) * 4096) with (a + 4096 + Z.of_nat n * 4096) by lia.
    eapply wp_mono; [apply (IH (a + 4096) (pa + 4096) perm s' l' T' root); unfold PGSIZE|].
    + apply Hg.
    + rewrite <- (Z.mod_add a 1 4096) in Ha by lia. by rewrite Z.mul_1_l in Ha.
    + lia.
    + lia.
    + rewrite <- (Z.mod_add pa 1 4096) in Hpa by lia. by rewrite Z.mul_1_l in Hpa.
    + lia.
    + lia.
    + done.
    + intros va Hva. unfold in_range, PGSIZE in Hva. rewrite Hpte by lia.
      rewrite decide_False by (Z.div_mod_to_equations; lia). apply Hinv. unfold in_range, PGSIZE. lia.
    + intros r s2 (l2 & T2 & k & Hg2 & Hpte2 & Hr). exists l2, T2, (Datatypes.S k).
      split_and!; [by eapply (grows_trans _ _ _ _ _ _ _ [] _ _ _ [])| |destruct Hr as [[-> ->]|(-> & ? & ->)]; [left; split; [done|lia]|right; split_and!; [done|lia|done]]].
      intros va Hva. rewrite Hpte2, mapped_S by done. unfold mapped. by rewrite Hpte.
Qed.

Lemma mappages_spec va n pa perm s l T root :
  vm_ok s l T root → va mod PGSIZE = 0 → 0 ≤ va → (0 < n)%nat → va + Z.of_nat n * PGSIZE ≤ MAXVA →
  pa mod PGSIZE = 0 → 0 ≤ pa → pa + Z.of_nat n * PGSIZE ≤ 2 ^ 56 → 0 ≤ perm < 1024 →
  (∀ va', in_range va n va' → Z.land (pte_at (bytes_of s) T va') PTE_V = 0) →
  wp (mappages root va (Z.of_nat n * PGSIZE) pa perm) s (λ r s', ∃ l' T' k,
    grows s l T root s' l' T' [] ∧
    (∀ va', 0 ≤ va' < MAXVA → pte_at (bytes_of s') T' va' = mapped va k pa perm (pte_at (bytes_of s) T) va') ∧
    ((r = 0 ∧ k = n) ∨ (r = -1 ∧ (k < n)%nat ∧ l' = []))).
Proof.
  intros Hok Ha Ha0 Hn Hmax Hpa Hpa0 Hpmax Hperm Hinv. destruct n as [|n]; [lia|].
  assert (MAXVA = 2 ^ 38) as EM by done. unfold mappages.
  rewrite decide_False by tauto. rewrite Z.mod_mul by done. rewrite decide_False by tauto.
  rewrite decide_False by (unfold PGSIZE; lia). rewrite Z.div_mul, Nat2Z.id by done.
  replace (u64 (va + Z.of_nat (Datatypes.S n) * PGSIZE - PGSIZE)) with (va + Z.of_nat n * PGSIZE)
    by (unfold u64; rewrite wrap_small; unfold PGSIZE in *; lia).
  eapply wp_mono; [by apply mappages_loop_spec|]. intros r s' (l' & T' & k & ? & ? & Hr).
  exists l', T', k. split_and!; [done|done|]. destruct Hr as [?|(? & ? & ?)]; [by left|right; split_and!; [done|lia|done]].
Qed.

End Walk.
