(* ===== verification/UserMem.v ===== *)
(** * User address spaces: the uvm functions and copying of kernel/vm.c

    [us_ok s l T root top]: below [top] the page table maps distinct pages of
    the allocator that are neither free nor page tables.  [uload] is the
    memory user code sees. *)

From S2P Require Import Prelude Params CString Spinlock ProcDefs Sched Memory Kalloc PageTable Vm VmSpec.

Definition valid (e : Z) : Prop := Z.land e PTE_V ≠ 0.
Definition user_ok (e : Z) : Prop := Z.land e PTE_U ≠ 0.
#[global] Instance valid_dec e : Decision (valid e).
Proof. unfold valid. apply _. Defined.
#[global] Instance user_ok_dec e : Decision (user_ok e).
Proof. unfold user_ok. apply _. Defined.

Lemma valid_0 : ¬ valid 0.
Proof. intros Hv. by apply Hv. Qed.

Lemma not_valid e : ¬ valid e → Z.land e PTE_V = 0.
Proof. intros Hv. by apply dec_stable. Qed.

(** The byte user code reads at [va], if the page is mapped for it. *)
Definition uload (m : mem) (T : ptree) (va : Z) : option Z :=
  let e := pte_at m T va in
  if decide (valid e ∧ user_ok e) then Some (m (PTE2PA e + va mod PGSIZE)) else None.

Section Space.
Context {S : Type} `{HasMem S}.
Variable kend : Z.
Implicit Types s : S.

Notation bytes_of s := (bytes (pm_of s)).
Notation pte s T va := (pte_at (bytes_of s) T va).
Notation vm_ok := (vm_ok kend).
Notation grows := (grows kend).

(** [p] is an allocated page that holds no table. *)
Definition data_page (l : list Z) (T : ptree) (p : Z) : Prop :=
  page_ok kend p ∧ p ∉ l ∧ ∀ x, T !! x ≠ Some p.

Record us_ok (s : S) (l : list Z) (T : ptree) (root top : Z) : Prop := mkUsOk {
  us_vm : vm_ok s l T root;
  us_top : top ≤ MAXVA;
  us_data : ∀ va, 0 ≤ va < top → valid (pte s T va) → data_page l T (PTE2PA (pte s T va));
  us_inj : ∀ va va', 0 ≤ va < top → 0 ≤ va' < top → valid (pte s T va) → valid (pte s T va') →
    PTE2PA (pte s T va) = PTE2PA (pte s T va') → va / 4096 = va' / 4096;
}.

Lemma in_page_offset p va : in_page p (p + va mod PGSIZE).
Proof. unfold in_page, PGSIZE. pose proof (Z.mod_pos_bound va 4096 ltac:(lia)). lia. Qed.

Lemma data_page_off s l T root p a :
  vm_ok s l T root → data_page l T p → in_page p a → off_tree T a ∧ outside l a.
Proof.
  intros [_ [Hfl _] Hwf _] (Hp & Hl & Ht) Ha. split.
  - intros x q Hq. apply (pages_disjoint kend p); [done| | |done]; [by eapply (pw_page _ _ _ _ Hwf)|].
    intros ->. by eapply Ht.
  - intros q Hq. apply (pages_disjoint kend p); [done| | |done]; [by eapply flist_page|]. by intros ->.
Qed.

Lemma data_page_grows s l T root s' l' T' X p :
  grows s l T root s' l' T' X → data_page l T p → data_page l' T' p.
Proof.
  intros Hg (Hp & Hl & Ht). split_and!; [done| |].
  - intros Hin. by apply Hl, (g_free _ _ _ _ _ _ _ _ _ Hg).
  - intros x Hx. destruct (g_new _ _ _ _ _ _ _ _ _ Hg x p Hx); [by eapply Ht|done].
Qed.

(** Adding empty tables leaves the address space alone. *)
Lemma us_ok_grows s l T root top s' l' T' X :
  us_ok s l T root top → grows s l T root s' l' T' X →
  (∀ va, 0 ≤ va < MAXVA → pte s' T' va = pte s T va) → us_ok s' l' T' root top.
Proof.
  intros [Hvm Htop Hd Hi] Hg Hpte. split; [apply Hg|done| |].
  - intros va Hva Hv. rewrite Hpte in * by lia. eapply data_page_grows; eauto.
  - intros va va' Hva Hva' Hv Hv' E. rewrite Hpte in * by lia. rewrite Hpte in * by lia. eauto.
Qed.

Lemma uload_grows s l T root top s' l' T' X va :
  us_ok s l T root top → grows s l T root s' l' T' X → 0 ≤ va < top →
  pte s' T' va = pte s T va → uload (bytes_of s') T' va = uload (bytes_of s) T va.
Proof.
  intros Hus Hg Hva E. unfold uload. rewrite E. case_decide as Hv; [|done]. f_equal.
  pose proof (us_data _ _ _ _ _ Hus va Hva ltac:(tauto)) as Hp.
  destruct (data_page_off s l T root _ _ (us_vm _ _ _ _ _ Hus) Hp (in_page_offset _ va)).
  by apply (g_frame _ _ _ _ _ _ _ _ _ Hg).
Qed.

(** Taking a page from the allocator. *)
Lemma kalloc_grows s p l T root : vm_ok s (p :: l) T root →
  wp kalloc s (λ r s', r = p ∧ grows s (p :: l) T root s' l T [p] ∧ data_page l T p ∧ p ≠ 0 ∧
    ∀ va, pte s' T va = pte s T va).
Proof.
  intros Hok. pose proof Hok as [Hca Hkm Hwf Hfree].
  destruct (kalloc_some kend s p l Hca Hkm) as (m1 & Hk & Hkm' & Hp & Hnin & Hm1).
  assert (∀ x, T !! x ≠ Some p) as Ht by (intros x Hx; apply (Hfree x p Hx); by left).
  assert (∀ a, ¬ off_tree T a → m1 a = bytes_of s a) as Hm.
  { intros a Ha. rewrite Hm1, decide_False; [done|]. intros Hin. apply Ha. intros x q Hq Hq'.
    eapply (pages_disjoint kend q p); eauto; [by eapply (pw_page _ _ _ _ Hwf)|]. intros ->. by eapply Ht. }
  destruct (pt_wf_ext kend _ m1 T root Hwf Hm) as [Hwf' Hpte].
  eapply wp_ok; [exact Hk|]. assert (p ≠ 0) by (destruct Hp as (_ & _ & _ & ?); lia).
  split; [done|]. split; [|by split_and!; st_simpl]. split.
  - eexists _, _. split; [done|auto with xv6].
  - split; st_simpl; [by apply can_alloc_settled; [|auto with xv6]|done|done|].
    intros x q Hx Hq. apply (Hfree x q Hx). by right.
  - done.
  - intros q Hq. by right.
  - by left.
  - intros q [->|?]%elem_of_cons; [right; right; by left|by left].
  - intros a _ Hout. st_simpl. simpl. rewrite Hm1, decide_False; [done|]. apply Hout. by left.
Qed.

Lemma kalloc_fails s T root : vm_ok s [] T root →
  wp kalloc s (λ r s', r = 0 ∧ grows s [] T root s' [] T [] ∧ ∀ va, pte s' T va = pte s T va).
Proof.
  intros Hok. eapply wp_ok; [apply (kalloc_none kend); apply Hok|].
  split_and!; [done|by apply grows_settle|by st_simpl].
Qed.

(** Writing to a data page. *)
Lemma vm_ok_write s l T root p f :
  vm_ok s l T root → data_page l T p → (∀ a, ¬ in_page p a → f (bytes_of s) a = bytes_of s a) →
  let s' := with_pm (mkPmem (f (bytes_of s)) (freelist (pm_of s))) s in
  vm_ok s' l T root ∧ ∀ va, pte s' T va = pte s T va.
Proof.
  intros Hok Hp Hf s'. pose proof Hok as [Hca [Hfl Hnd] Hwf Hfree].
  assert (∀ a, ¬ off_tree T a ∨ ¬ outside l a → f (bytes_of s) a = bytes_of s a) as Hm.
  { intros a Ha. apply Hf. intros Hin. destruct (data_page_off s l T root p a Hok Hp Hin). tauto. }
  destruct (pt_wf_ext kend _ (f (bytes_of s)) T root Hwf) as [Hwf' Hpte]; [auto|].
  unfold s'. split; [|by st_simpl]. split; st_simpl; [|split; [|done]|done|done].
  - by apply can_alloc_with_pm.
  - simpl. eapply flist_out; [exact Hfl|]. auto.
Qed.

Lemma us_ok_write s l T root top va f :
  us_ok s l T root top → 0 ≤ va < top → valid (pte s T va) →
  (∀ a, ¬ in_page (PTE2PA (pte s T va)) a → f (bytes_of s) a = bytes_of s a) →
  let s' := with_pm (mkPmem (f (bytes_of s)) (freelist (pm_of s))) s in
  us_ok s' l T root top ∧ (∀ va', pte s' T va' = pte s T va') ∧
  (∀ va', 0 ≤ va' < top → va' / 4096 ≠ va / 4096 →
     uload (bytes_of s') T va' = uload (bytes_of s) T va').
Proof.
  intros [Hvm Htop Hd Hi] Hva Hv Hf s'.
  destruct (vm_ok_write s l T root _ f Hvm (Hd va Hva Hv) Hf) as [Hvm' Hpte]. fold s' in Hvm', Hpte.
  split_and!; [|done|].
  - split; [done|done|..]; intros *; rewrite !Hpte; eauto.
  - intros va' Hva' Hne. unfold uload. rewrite Hpte. case_decide as Hv'; [|done]. f_equal.
    unfold s'. st_simpl. simpl. apply Hf.
    apply (pages_disjoint kend (PTE2PA (pte s T va'))); [by apply Hd; [|tauto]|by apply Hd| |apply in_page_offset].
    intros E. apply Hne. by apply Hi; [..|tauto|done|].
Qed.

(** Only memory and the interrupt bookkeeping changed. *)
Definition vstate (s s' : S) : Prop := ∃ pm h, s' = with_pm pm (with_hw h s) ∧ settled (hw_of s) h.

Lemma vstate_refl s : vstate s s.
Proof. exists (pm_of s), (hw_of s). st_simpl. auto with xv6. Qed.
Lemma vstate_trans s1 s2 s3 : vstate s1 s2 → vstate s2 s3 → vstate s1 s3.
Proof.
  intros (pm & h & -> & Hs) (pm' & h' & -> & Hs'). exists pm', h'. st_simpl. eauto with xv6.
Qed.
Lemma vstate_pm s pm : vstate s (with_pm pm s).
Proof. exists pm, (hw_of s). st_simpl. auto with xv6. Qed.
Lemma vstate_hw s : vstate s (with_hw (hw_settle (hw_of s)) s).
Proof. exists (pm_of s), (hw_settle (hw_of s)). split; [apply with_hw_as_pm|auto with xv6]. Qed.
Lemma vstate_pt s s' : vstate s s' → pt_of s' = pt_of s.
Proof. intros (pm & h & -> & _). by st_simpl. Qed.
Lemma vstate_settled s s' : vstate s s' → settled (hw_of s) (hw_of s').
Proof. intros (pm & h & -> & ?). by st_simpl. Qed.

(** [uvmunmap] of one valid page, with the page freed. *)
Lemma unmap_one s l T root top va q :
  us_ok s l T root top → 0 ≤ va < top → valid (pte s T va) → T !! leaf_path va = Some q →
  wp (kfree kend (PTE2PA (pte s T va)) ;; st64 (q + 8 * PX 0 va) 0) s (λ _ s',
    us_ok s' (PTE2PA (pte s T va) :: l) T root top ∧ vstate s s' ∧
    (∀ va', 0 ≤ va' < MAXVA → pte s' T va' = if decide (va' / 4096 = va / 4096) then 0 else pte s T va') ∧
    (∀ va', 0 ≤ va' < top → va' / 4096 ≠ va / 4096 → uload (bytes_of s') T va' = uload (bytes_of s) T va') ∧
    (∀ a, off_tree T a → outside (PTE2PA (pte s T va) :: l) a → bytes_of s' a = bytes_of s a)).
Proof.
  intros Hus Hva Hv Hq. pose proof Hus as [Hvm Htop Hd Hi]. set (p := PTE2PA (pte s T va)).
  destruct (Hd va Hva Hv) as (Hp & Hpl & Hpt). fold p in Hp, Hpl, Hpt. pose proof Hvm as [Hca Hkm Hwf Hfree].
  destruct (kfree_spec kend s p l Hca Hkm Hp Hpl) as (m1 & Hk & Hkm1 & Hm1).
  assert (∀ a, ¬ off_tree T a → m1 a = bytes_of s a) as Hm.
  { intros a Ha. apply Hm1. intros Hin. apply Ha.
    exact (proj1 (data_page_off s l T root p a Hvm (Hd va Hva Hv) Hin)). }
  destruct (pt_wf_ext kend _ m1 T root Hwf Hm) as [Hwf1 Hpte1].
  wp_go. eapply wp_ok; [exact Hk|]. apply wp_mod_bytes. set (s1 := with_pm _ (with_hw _ s)).
  assert (vm_ok s1 (p :: l) T root) as Hvm1.
  { unfold s1. split; st_simpl; [by apply can_alloc_settled; [|auto with xv6]|done|done|].
    intros x q' Hx [->|?]%elem_of_cons; [by eapply Hpt|by eapply Hfree]. }
  destruct (grows_set_leaf kend s1 (p :: l) T root va q 0 Hvm1 Hq) as [Hg Hpte2]; [lia|].
  assert (∀ va', 0 ≤ va' < MAXVA → pte (with_pm (mkPmem (store64 (bytes_of s1) (q + 8 * PX 0 va) 0) (freelist (pm_of s1))) s1) T va'
    = if decide (va' / 4096 = va / 4096) then 0 else pte s T va') as Hpte.
  { intros va' Hva'. rewrite Hpte2. replace (pte s1 T va') with (pte s T va') by (unfold s1; st_simpl; simpl; by rewrite Hpte1).
    assert (0 ≤ va < MAXVA) as Hvam by lia. pose proof (same_page va va' Hvam Hva') as Hsp.
    destruct (decide (va' / 4096 = va / 4096)); [rewrite decide_True by tauto|rewrite decide_False by tauto]; done. }
  assert (∀ va', 0 ≤ va' < top → va' / 4096 ≠ va / 4096 → valid (pte s T va') → data_page (p :: l) T (PTE2PA (pte s T va'))) as Hd'.
  { intros va' Hva' Hne Hv'. destruct (Hd va' Hva' Hv') as (? & ? & ?). split; [done|split; [|done]].
    intros [E|?]%elem_of_cons; [|done]. apply Hne. by apply Hi. }
  assert (∀ a, off_tree T a → outside (p :: l) a →
    bytes_of (with_pm (mkPmem (store64 (bytes_of s1) (q + 8 * PX 0 va) 0) (freelist (pm_of s1))) s1) a = bytes_of s a) as Hfr.
  { intros a Ho1 Ho2. rewrite (g_frame _ _ _ _ _ _ _ _ _ Hg) by done. unfold s1. st_simpl. simpl. apply Hm1. apply Ho2. by left. }
  split_and!.
  - split; [apply Hg|done|..].
    + intros va' Hva'. rewrite Hpte by lia. case_decide as E; [by intros ?%valid_0|]. by apply Hd'.
    + intros va1 va2 H1' H2'. rewrite !Hpte by lia. repeat case_decide; try by (intros; exfalso; eauto using valid_0).
      by apply Hi.
  - eapply vstate_trans; [|apply vstate_pm]. unfold s1. eexists _, _. split; [done|auto with xv6].
  - done.
  - intros va' Hva' Hne. unfold uload. rewrite Hpte by lia. rewrite (decide_False (P := va' / 4096 = va / 4096)) by done. case_decide as Hv'; [|done]. f_equal.
    destruct (data_page_off s1 (p :: l) T root _ _ Hvm1 (Hd' va' Hva' Hne ltac:(tauto)) (in_page_offset _ va')) as [Ho1 Ho2].
    by apply Hfr.
  - done.
Qed.

(** What [uvmunmap] of [n] pages from [a] leaves at [va]. *)
Definition unmapped (a : Z) (n : nat) (old : Z → Z) (va : Z) : Z :=
  if decide (in_range a n va ∧ valid (old va)) then 0 else old va.

(** [p] is one of the pages [uvmunmap] frees. *)
Definition freed (a : Z) (n : nat) (old : Z → Z) (p : Z) : Prop :=
  ∃ va, in_range a n va ∧ valid (old va) ∧ PTE2PA (old va) = p.

Lemma in_range_page a n va va' : a mod PGSIZE = 0 → va / 4096 = va' / 4096 → in_range a n va → in_range a n va'.
Proof.
  unfold in_range, PGSIZE. intros Ha E Hr. apply Z.mod_divide in Ha as [x ->]; [|lia].
  Z.div_mod_to_equations. lia.
Qed.

Lemma in_range_0 a va : ¬ in_range a 0 va.
Proof. unfold in_range. lia. Qed.

(** All addresses of a page have the same entry. *)
Lemma pte_same_page m T va va' : 0 ≤ va < MAXVA → 0 ≤ va' < MAXVA → va / 4096 = va' / 4096 →
  pte_at m T va = pte_at m T va'.
Proof. intros H1' H2' E. unfold pte_at. apply (same_page va' va) in E as [-> ->]; done. Qed.

Record unmap_post (s : S) (l : list Z) (T : ptree) (root top a : Z) (n : nat) (s' : S) (l' : list Z) : Prop := mkUnmapPost {
  um_ok : us_ok s' l' T root top;
  um_state : vstate s s';
  um_pte : ∀ va, 0 ≤ va < MAXVA → pte s' T va = unmapped a n (λ va, pte s T va) va;
  um_free : ∀ p, p ∈ l' ↔ p ∈ l ∨ freed a n (λ va, pte s T va) p;
  um_keep : ∀ va, 0 ≤ va < top → ¬ in_range a n va → uload (bytes_of s') T va = uload (bytes_of s) T va;
  um_frame : ∀ x, off_tree T x → outside l' x → bytes_of s' x = bytes_of s x;
}.

Lemma unmap_post_refl s l T root top a : us_ok s l T root top → unmap_post s l T root top a 0 s l.
Proof.
  intros Hus. split; try done; [apply vstate_refl| |].
  - intros va Hva. unfold unmapped. rewrite decide_False; [done|]. intros [?%in_range_0 _]. done.
  - intros p. split; [by left|]. intros [?|(va & ?%in_range_0 & _)]; done.
Qed.

(** One more page, unmapped or already absent. *)
Lemma unmap_post_S s l T root top a n s1 l1 s2 l2 :
  a mod PGSIZE = 0 → 0 ≤ a → a + Z.of_nat (Datatypes.S n) * PGSIZE ≤ MAXVA →
  unmap_post s l T root top a 1 s1 l1 → unmap_post s1 l1 T root top (a + PGSIZE) n s2 l2 →
  unmap_post s l T root top a (Datatypes.S n) s2 l2.
Proof.
  intros Ha Ha0 Hmax [Hok1 Hs1 Hp1 Hf1 Hk1 Hr1] [Hok2 Hs2 Hp2 Hf2 Hk2 Hr2].
  assert (∀ va, in_range a 1 va → ¬ in_range (a + PGSIZE) n va) as Hdis by (unfold in_range, PGSIZE; lia).
  assert (∀ va, in_range a (Datatypes.S n) va ↔ in_range a 1 va ∨ in_range (a + PGSIZE) n va) as Hr
    by (unfold in_range, PGSIZE in *; lia).
  assert (∀ va, in_range (a + PGSIZE) n va → 0 ≤ va < MAXVA ∧ pte s1 T va = pte s T va) as Hsame.
  { intros va Hva. assert (0 ≤ va < MAXVA) by (unfold in_range, PGSIZE in *; lia). split; [done|].
    rewrite Hp1 by done. unfold unmapped. rewrite decide_False; [done|]. intros [? _]. by eapply Hdis. }
  split; [done|by eapply vstate_trans| | | |].
  - intros va Hva. rewrite Hp2 by done. unfold unmapped. rewrite Hp1 by done. unfold unmapped.
    specialize (Hr va). specialize (Hdis va). specialize (Hsame va).
    repeat case_decide; try done; try tauto; exfalso; pose proof valid_0; tauto.
  - intros p. rewrite Hf2, Hf1. unfold freed. split.
    + intros [[?|(va & ? & ? & ?)]|(va & Hin & ? & ?)]; [by left|right; exists va; split_and!; [apply Hr; by left|done|done]|].
      destruct (Hsame va Hin) as [_ E]. rewrite E in *. right. exists va. split_and!; [apply Hr; by right|done|done].
    + intros [?|(va & Hin & ? & ?)]; [by left; left|]. apply Hr in Hin as [Hin|Hin]; [left; right; by exists va|].
      right. exists va. destruct (Hsame va Hin) as [_ E]. by rewrite E.
  - intros va Hva Hn. rewrite Hr in Hn. rewrite Hk2 by tauto. apply Hk1; tauto.
  - intros x Hx Ho. rewrite Hr2 by done. apply Hr1; [done|]. intros q Hq. apply Ho, Hf2. by left.
Qed.

(** The loop body of [uvmunmap] on the page at [a]. *)
Lemma unmap_step s l T root top a :
  us_ok s l T root top → a mod PGSIZE = 0 → 0 ≤ a → a + PGSIZE ≤ top →
  wp (pte <- walk root a 0 ;;
      if decide (pte = 0) then ret tt else
      e <- ld64 pte ;;
      if decide (Z.land e PTE_V = 0) then ret tt else
      (if decide (1 ≠ 0) then kfree kend (PTE2PA e) else ret tt) ;;
      st64 pte 0) s (λ _ s', ∃ l', unmap_post s l T root top a 1 s' l').
Proof.
  intros Hus Ha Ha0 Htop. pose proof (us_top _ _ _ _ _ Hus) as HtopM. unfold PGSIZE in Htop.
  assert (∀ va, in_range a 1 va ↔ va / 4096 = a / 4096) as Hr1.
  { intros va. rewrite (in_range_S a 0) by done. split; [|by left]. intros [?|?%in_range_0]; done. }
  assert (∀ va, in_range a 1 va → pte s T va = pte s T a) as Hsame.
  { intros va Hva. assert (0 ≤ va < MAXVA) by (unfold in_range, PGSIZE in *; lia).
    apply pte_same_page; [done|lia|by apply Hr1]. }
  assert (¬ valid (pte s T a) → ∃ l', unmap_post s l T root top a 1 s l') as Hnone.
  { intros Hnv. exists l. split; try done; [apply vstate_refl| |].
    - intros va Hva. unfold unmapped. rewrite decide_False; [done|]. intros [Hin Hv]. by rewrite (Hsame va Hin) in Hv.
    - intros p. split; [by left|]. intros [?|(va & Hin & Hv & _)]; [done|]. by rewrite (Hsame va Hin) in Hv. }
  wp_go. eapply wp_ok; [apply (walk_look kend a s T root); [lia|apply Hus]|].
  unfold pte_addr. destruct (T !! leaf_path a) as [q|] eqn:Hq.
  2:{ rewrite decide_True by done. apply wp_ret, Hnone. unfold pte_at. rewrite Hq. apply valid_0. }
  assert (q + 8 * PX 0 a ≠ 0).
  { pose proof (PX_idx 0 a ltac:(lia)). pose proof (grows_look kend s l T root _ q (us_vm _ _ _ _ _ Hus) Hq) as (_ & _ & _ & ?).
    unfold idx_ok in *. lia. }
  rewrite decide_False by done. unfold ld64. wp_go.
  assert (load64 (bytes_of s) (q + 8 * PX 0 a) = pte s T a) as -> by (unfold pte_at; by rewrite Hq).
  case_decide as Hv; [apply wp_ret, Hnone; unfold valid; tauto|].
  rewrite decide_True by done.
  eapply wp_mono; [apply (unmap_one s l T root top a q Hus); [lia|done|done]|].
  intros [] s' (Hus' & Hs' & Hp & Hk & Hfr). eexists. split; [done|done| | | |done].
  - intros va Hva. rewrite Hp by done. unfold unmapped. specialize (Hr1 va). specialize (Hsame va).
    destruct (decide (va / 4096 = a / 4096)) as [E|E].
    + rewrite decide_True; [done|]. split; [tauto|]. by rewrite Hsame by tauto.
    + rewrite decide_False; [done|]. tauto.
  - intros p. rewrite elem_of_cons. split.
    + intros [->|?]; [right|by left]. exists a. split_and!; [by apply Hr1|done|done].
    + intros [?|(va & Hin & _ & <-)]; [by right|left]. by rewrite (Hsame va Hin).
  - intros va Hva Hn. apply Hk; [done|]. by rewrite <- Hr1.
Qed.

Lemma uvmunmap_loop_spec n : ∀ a s l T root top,
  us_ok s l T root top → a mod PGSIZE = 0 → 0 ≤ a → a + Z.of_nat n * PGSIZE ≤ top →
  wp (uvmunmap_loop kend (Datatypes.S n) root a (a + Z.of_nat n * PGSIZE) 1) s
    (λ _ s', ∃ l', unmap_post s l T root top a n s' l').
Proof.
  induction n as [|n IH]; intros a s l T root top Hus Ha Ha0 Htop; pose proof (us_top _ _ _ _ _ Hus);
    assert (MAXVA = 2 ^ 38) by done.
  - cbn [uvmunmap_loop]. rewrite decide_False by lia. apply wp_ret. exists l. by apply unmap_post_refl.
  - remember (Datatypes.S n) as k eqn:Ek. cbn [uvmunmap_loop]. unfold PGSIZE in *. rewrite decide_True by lia. apply wp_assoc, wp_bind.
    eapply wp_mono; [apply (unmap_step s l T root top a); unfold PGSIZE; try done; lia|].
    intros [] s1 (l1 & Hp1). unfold u64. rewrite wrap_small by lia. subst k.
    replace (a + Z.of_nat (Datatypes.S n) * 4096) with (a + 4096 + Z.of_nat n * 4096) by lia.
    eapply wp_mono; [apply (IH (a + 4096) s1 l1 T root top); [apply Hp1| |lia|lia]|].
    { rewrite <- (Z.mod_add a 1 4096) in Ha by lia. by rewrite Z.mul_1_l in Ha. }
    intros [] s2 (l2 & Hp2). exists l2. eapply unmap_post_S; eauto. unfold PGSIZE. lia.
Qed.

Lemma uvmunmap_spec a n s l T root top :
  us_ok s l T root top → a mod PGSIZE = 0 → 0 ≤ a → a + Z.of_nat n * PGSIZE ≤ top →
  wp (uvmunmap kend root a (Z.of_nat n) 1) s (λ _ s', ∃ l', unmap_post s l T root top a n s' l').
Proof.
  intros Hus Ha Ha0 Htop. pose proof (us_top _ _ _ _ _ Hus). assert (MAXVA = 2 ^ 38) by done.
  unfold uvmunmap. rewrite decide_False by tauto. rewrite Nat2Z.id. unfold u64.
  rewrite wrap_small by (unfold PGSIZE in *; lia). by apply uvmunmap_loop_spec.
Qed.

(** Giving a data page back. *)
Lemma kfree_data s l T root p : vm_ok s l T root → data_page l T p →
  wp (kfree kend p) s (λ _ s', vm_ok s' (p :: l) T root ∧ vstate s s' ∧
    (∀ va, pte s' T va = pte s T va) ∧ ∀ a, ¬ in_page p a → bytes_of s' a = bytes_of s a).
Proof.
  intros Hvm Hd. pose proof Hvm as [Hca Hkm Hwf Hfree]. pose proof Hd as (Hp & Hpl & Hpt).
  destruct (kfree_spec kend s p l Hca Hkm Hp Hpl) as (m1 & Hk & Hkm1 & Hm1).
  assert (∀ a, ¬ off_tree T a → m1 a = bytes_of s a) as Hm.
  { intros a Ha. apply Hm1. intros Hin. apply Ha. exact (proj1 (data_page_off s l T root p a Hvm Hd Hin)). }
  destruct (pt_wf_ext kend _ m1 T root Hwf Hm) as [Hwf1 Hpte1].
  eapply wp_ok; [exact Hk|]. split_and!; [|eexists _, _; split; [done|auto with xv6]|by st_simpl|by st_simpl].
  split; st_simpl; [by apply can_alloc_settled; [|auto with xv6]|done|done|].
  intros x q' Hx [->|?]%elem_of_cons; [by eapply Hpt|by eapply Hfree].
Qed.

(** A page that the address space does not map yet. *)
Definition fresh_page (s : S) (l : list Z) (T : ptree) (top p : Z) : Prop :=
  data_page l T p ∧ ∀ va, 0 ≤ va < top → valid (pte s T va) → PTE2PA (pte s T va) ≠ p.

Lemma page_ok_56 p : page_ok kend p → 0 ≤ p < 2 ^ 56 ∧ p + PGSIZE ≤ 2 ^ 56 ∧ p mod PGSIZE = 0.
Proof. intros (? & ? & ?)%page_ok_bound. unfold PHYSTOP, KERNBASE, PGSIZE in *. lia. Qed.

Lemma us_ok_mapped s l T root top s' l' T' X a p perm :
  us_ok s l T root top → fresh_page s l T top p → grows s l T root s' l' T' X →
  a mod PGSIZE = 0 → 0 ≤ perm < 1024 →
  (∀ va, 0 ≤ va < MAXVA → pte s' T' va = mapped a 1 p perm (λ va, pte s T va) va) →
  us_ok s' l' T' root top.
Proof.
  intros [Hvm Htop Hd Hi] [Hp Hnm] Hg Ha Hperm Hpte.
  assert (∀ va, 0 ≤ va < top → pte s' T' va = leaf_pte p perm ∧ va / 4096 = a / 4096 ∨
    pte s' T' va = pte s T va ∧ va / 4096 ≠ a / 4096) as Hcase.
  { intros va Hva. rewrite Hpte by lia. rewrite mapped_S by done. unfold mapped.
    rewrite decide_False by apply in_range_0. case_decide; auto. }
  assert (PTE2PA (leaf_pte p perm) = p) as Epa.
  { destruct (page_ok_56 p ltac:(apply Hp)) as (? & ? & ?). by apply leaf_pte_pa. }
  split; [apply Hg|done| |].
  - intros va Hva Hv. destruct (Hcase va Hva) as [[-> _]|[E _]].
    + rewrite Epa. by eapply data_page_grows.
    + rewrite E in *. eapply data_page_grows; eauto.
  - intros va va' Hva Hva' Hv Hv' E.
    destruct (Hcase va Hva) as [[E1 ?]|[E1 ?]], (Hcase va' Hva') as [[E2 ?]|[E2 ?]]; rewrite E1, E2, ?Epa in *.
    + congruence.
    + by destruct (Hnm va' Hva' Hv').
    + by destruct (Hnm va Hva Hv).
    + eauto.
Qed.

(** A page taken from the allocator and filled by [g]. *)
Record filled (s : S) (l : list Z) (T : ptree) (root top : Z) (g : mem → Z → mem) (p : Z) (s2 : S) (l2 : list Z) : Prop := mkFilled {
  fi_list : l = p :: l2;
  fi_grows : grows s l T root s2 l2 T [p];
  fi_ok : us_ok s2 l2 T root top;
  fi_fresh : fresh_page s2 l2 T top p;
  fi_pte : ∀ va, pte s2 T va = pte s T va;
  fi_fill : ∃ m1, (∀ x, off_tree T x → outside l x → m1 x = bytes_of s x) ∧ ∀ x, in_page p x → bytes_of s2 x = g m1 p x;
}.

Lemma kalloc_fill {A} s l T root top g (K0 : M S A) (K : Z → M S A) Q :
  us_ok s l T root top → (∀ m p x, ¬ in_page p x → g m p x = m x) →
  (∀ s', grows s l T root s' l T [] → (∀ va, pte s' T va = pte s T va) → wp K0 s' Q) →
  (∀ p s2 l2, filled s l T root top g p s2 l2 → wp (K p) s2 Q) →
  wp (mem <- kalloc ;; if decide (mem = 0) then K0 else mod_bytes (λ m, g m mem) ;; K mem) s Q.
Proof.
  intros Hus Hg HK0 HK. wp_go. pose proof Hus as [Hvm Htop Hdat Hinj]. destruct l as [|p l].
  { eapply wp_mono; [by apply kalloc_fails|]. intros r s1 (-> & Hg1 & Hp1). rewrite decide_True by done. eauto. }
  eapply wp_mono; [by apply kalloc_grows|]. intros r s1 (-> & Hg1 & Hd & Hnz & Hp1). rewrite decide_False by done. wp_go.
  apply wp_mod_bytes. set (s2 := with_pm _ s1).
  destruct (vm_ok_write s1 l T root p (λ m, g m p) (g_ok _ _ _ _ _ _ _ _ _ Hg1) Hd) as [Hvm2 Hp2]; [auto|].
  fold s2 in Hvm2, Hp2. assert (∀ va, pte s2 T va = pte s T va) as Hp by (intros; by rewrite Hp2, Hp1).
  assert (grows s (p :: l) T root s2 l T [p]) as Hg2.
  { destruct Hg1 as [(pm & h & -> & Hs) ? ? ? ? ? Hf]. split; try done.
    - unfold s2. eexists _, _. st_simpl. split; [done|done].
    - intros x Hx Ho. unfold s2. st_simpl. simpl. rewrite Hg; [|apply Ho; by left].
      specialize (Hf x Hx Ho). by st_simpl. }
  apply (HK p s2 l). split; [done|done| | |done|].
  - eapply us_ok_grows; eauto.
  - split; [done|]. intros va Hva Hv E. rewrite Hp in *. destruct (Hdat va Hva Hv) as (_ & Hn & _).
    rewrite E in Hn. apply Hn. by left.
  - exists (bytes_of s1). split; [|unfold s2; by st_simpl].
    apply (g_frame _ _ _ _ _ _ _ _ _ Hg1).
Qed.

(** What [kalloc], filling the page and [mappages] do when they succeed. *)
Record new_page_post (s : S) (l : list Z) (T : ptree) (root top a perm : Z) (g : mem → Z → mem)
    (p : Z) (s' : S) (l' : list Z) (T' : ptree) : Prop := mkNewPage {
  np_grows : grows s l T root s' l' T' [p];
  np_ok : us_ok s' l' T' root top;
  np_in : p ∈ l;
  np_page : page_ok kend p;
  np_pte : ∀ va, 0 ≤ va < MAXVA → pte s' T' va = mapped a 1 p perm (λ va, pte s T va) va;
  np_fill : ∃ m1, (∀ x, off_tree T x → outside l x → m1 x = bytes_of s x) ∧
    ∀ x, in_page p x → bytes_of s' x = g m1 p x;
}.

Lemma mapped_ext a k pa perm f f' va : f va = f' va → mapped a k pa perm f va = mapped a k pa perm f' va.
Proof. intros E. unfold mapped. by case_decide. Qed.

Lemma map_filled {A} s l T root top a perm g p s2 l2 (K1 K2 : M S A) Q :
  filled s l T root top g p s2 l2 →
  a mod PGSIZE = 0 → 0 ≤ a → a + PGSIZE ≤ top → 0 ≤ perm < 1024 → ¬ valid (pte s T a) →
  (∀ s' l' T', grows s l T root s' l' T' [] → (∀ va, 0 ≤ va < MAXVA → pte s' T' va = pte s T va) → wp K1 s' Q) →
  (∀ s' l' T', new_page_post s l T root top a perm g p s' l' T' → wp K2 s' Q) →
  wp (r <- mappages root a PGSIZE p perm ;; if decide (r ≠ 0) then kfree kend p ;; K1 else K2) s2 Q.
Proof.
  intros [El Hg2 Hus2 Hfr Hp2 (m1 & Hm1 & Hfill)] Ha Ha0 Htop Hperm Hnv HK1 HK2. wp_go.
  pose proof Hfr as [Hd _]. pose proof (us_top _ _ _ _ _ Hus2) as HtopM.
  destruct (page_ok_56 p ltac:(apply Hd)) as (? & ? & ?).
  assert (PGSIZE = Z.of_nat 1 * PGSIZE) as E1 by (unfold PGSIZE; lia). rewrite E1 at 1.
  eapply wp_mono; [apply (mappages_spec kend a 1 p perm s2 l2 T root); try done; try apply Hus2; try (unfold PGSIZE in *; lia)|].
  { intros va Hva. rewrite Hp2. assert (0 ≤ va < MAXVA) by (unfold in_range, PGSIZE in *; lia).
    rewrite (pte_same_page _ _ va a); [by apply not_valid|done|unfold PGSIZE in *; lia|].
    apply (in_range_S a 0) in Hva as [?|?%in_range_0]; done. }
  intros r s3 (l3 & T3 & k & Hg3 & Hp3 & Hr).
  pose proof (grows_trans kend _ _ _ _ _ _ _ _ _ _ _ _ Hg2 Hg3) as Hg13. simpl in Hg13.
  assert (∀ x, in_page p x → bytes_of s3 x = bytes_of s2 x) as Hkeep.
  { intros x Hx. destruct (data_page_off s2 l2 T root p x (us_vm _ _ _ _ _ Hus2) Hd Hx).
    by apply (g_frame _ _ _ _ _ _ _ _ _ Hg3). }
  assert (∀ va k, mapped a k p perm (pte_at (bytes_of s2) T) va = mapped a k p perm (λ va, pte s T va) va) as Hext
    by (intros; by apply mapped_ext, Hp2).
  destruct Hr as [[-> ->]|(-> & Hk & ->)].
  - rewrite decide_False by tauto. apply (HK2 _ l3 T3). split; [done| |subst l; by left|apply Hd| |].
    + eapply (us_ok_mapped s2 l2 T root top _ _ _ _ a p perm); eauto.
    + intros va Hva. by rewrite Hp3, Hext.
    + exists m1. split; [done|]. intros x Hx. by rewrite Hkeep, Hfill.
  - rewrite decide_True by done. wp_go. replace k with 0%nat in * by lia.
    pose proof (data_page_grows _ _ _ _ _ _ _ _ p Hg3 Hd) as Hd3.
    eapply wp_mono; [apply (kfree_data s3 [] T3 root p); [apply Hg3|done]|].
    intros [] s4 (Hvm4 & Hs4 & Hp4 & Hf4). apply (HK1 _ [p] T3).
    + destruct Hg13 as [(pm & h & -> & Hs) ? ? ? ? Hac Hf]. destruct Hs4 as (pm' & h' & -> & Hs'). st_simpl. subst l. split; try done.
      * eexists _, _. split; [done|]. eauto with xv6.
      * intros q [->|?%elem_of_nil]%elem_of_cons; [by left|done].
      * intros q [?%elem_of_nil|[?|Hq]]%Hac; [done|by right; left|by left].
      * intros x Hx Ho. specialize (Hf4 x). specialize (Hf x Hx Ho). st_simpl. rewrite Hf4; [done|]. apply Ho. by left.
    + intros va Hva. rewrite Hp4, Hp3, Hext by done. unfold mapped. by rewrite decide_False by apply in_range_0.
Qed.

Definition page_up (a : Z) : Z := (a + 4095) / 4096 * 4096.

Lemma page_up_spec a : page_up a mod PGSIZE = 0 ∧ a ≤ page_up a < a + PGSIZE.
Proof. unfold page_up, PGSIZE. rewrite Z.mod_mul by lia. Z.div_mod_to_equations. lia. Qed.

Lemma page_up_id a : a mod PGSIZE = 0 → page_up a = a.
Proof. unfold page_up, PGSIZE. intros Ha. Z.div_mod_to_equations. lia. Qed.

Lemma page_up_mono a b : a ≤ b → page_up a ≤ page_up b.
Proof. intros. unfold page_up. apply Z.mul_le_mono_nonneg_r, Z.div_le_mono; lia. Qed.

Lemma uvmdealloc_spec s l T root top oldsz newsz :
  us_ok s l T root top → 0 ≤ newsz < oldsz → page_up oldsz ≤ top →
  wp (uvmdealloc kend root oldsz newsz) s (λ r s', r = newsz ∧ ∃ l',
    unmap_post s l T root top (page_up newsz) (Z.to_nat ((page_up oldsz - page_up newsz) / PGSIZE)) s' l').
Proof.
  intros Hus Hsz Htop. pose proof (us_top _ _ _ _ _ Hus) as HM. assert (MAXVA = 2 ^ 38) as EM by done.
  destruct (page_up_spec oldsz) as [Ho1 Ho2], (page_up_spec newsz) as [Hn1 Hn2].
  pose proof (page_up_mono newsz oldsz ltac:(lia)) as Hm. unfold PGSIZE in *.
  unfold uvmdealloc. rewrite decide_False by lia.
  rewrite !PGROUNDUP_spec by (unfold PGSIZE; lia). fold (page_up oldsz) (page_up newsz). unfold PGSIZE.
  set (n := Z.to_nat ((page_up oldsz - page_up newsz) / 4096)).
  assert (page_up newsz + Z.of_nat n * 4096 = page_up oldsz) as En.
  { unfold n. rewrite Z2Nat.id by (apply Z.div_pos; lia). Z.div_mod_to_equations. lia. }
  wp_go. eapply (wp_mono _ _ (λ _ s', ∃ l', unmap_post s l T root top (page_up newsz) n s' l')).
  - case_decide.
    + replace (u64 _) with (Z.of_nat n).
      * apply uvmunmap_spec; try done; unfold PGSIZE; lia.
      * unfold u64. rewrite i32_small.
        -- rewrite wrap_small; unfold n; rewrite ?Z2Nat.id; try done; Z.div_mod_to_equations; lia.
        -- Z.div_mod_to_equations; lia.
    + apply wp_ret. exists l. replace n with 0%nat by lia. by apply unmap_post_refl.
  - intros [] s' (l' & Hp). apply wp_ret. split; [done|]. by exists l'.
Qed.

Lemma lor_small x y : 0 ≤ x < 1024 → 0 ≤ y < 1024 → 0 ≤ Z.lor x y < 1024.
Proof.
  intros Hx Hy. split; [apply Z.lor_nonneg; lia|]. change 1024 with (2 ^ 10).
  destruct (decide (Z.lor x y = 0)) as [->|]; [lia|].
  assert (0 ≤ Z.lor x y) by (apply Z.lor_nonneg; lia).
  apply Z.log2_lt_pow2; [lia|]. rewrite Z.log2_lor by lia.
  apply Z.max_lub_lt; [destruct (decide (x = 0)) as [->|]|destruct (decide (y = 0)) as [->|]]; try done;
    apply Z.log2_lt_pow2; lia.
Qed.

(** The permission bits uvmalloc and vmfault give contain [PTE_U]. *)
Lemma leaf_user pa perm : 0 ≤ pa < 2 ^ 56 → 0 ≤ perm < 1024 → Z.land perm PTE_U ≠ 0 → user_ok (leaf_pte pa perm).
Proof.
  intros Hpa Hp Hu. unfold user_ok. rewrite leaf_pte_bit by (done || (change PTE_U with 16; lia)).
  rewrite Z.land_lor_distr_l. intros E%Z.lor_eq_0_iff. tauto.
Qed.

End Space.
