(* ===== verification/UserAlloc.v ===== *)
(** * Growing and copying user address spaces

    [uvmalloc] and [uvmcopy] of kernel/vm.c: both add pages to an address
    space one by one and take them all back when they run out of memory. *)

From S2P Require Import Prelude Params CString Spinlock ProcDefs Sched Memory Kalloc PageTable Vm VmSpec UserMem.

Section Alloc.
Context {S : Type} `{HasMem S}.
Variable kend : Z.
Implicit Types s : S.

Notation bytes_of s := (bytes (pm_of s)).
Notation pte s T va := (pte_at (bytes_of s) T va).
Notation vm_ok := (vm_ok kend).
Notation grows := (grows kend).
Notation us_ok := (us_ok kend).
Notation unmap_post := (unmap_post kend).
Notation new_page_post := (new_page_post kend).

(** What a page should hold once it is added: its permission bits and its
    bytes by offset, or [None] for a page that stays unmapped. *)
Definition wanted : Type := Z → option (Z * (Z → Z)).

(** The [j] pages from [o] have been added to the address space as [want]
    says. *)
Record alloc_inv (s : S) (l : list Z) (T : ptree) (root top o : Z) (want : wanted) (j : nat)
    (s' : S) (l' : list Z) (T' : ptree) : Prop := mkAllocInv {
  ai_ok : us_ok s' l' T' root top;
  ai_state : vstate s s';
  ai_new : ∀ va, 0 ≤ va < MAXVA → in_range o j va →
    match want va with
    | Some (perm, c) => ∃ p, pte s' T' va = leaf_pte p perm ∧ page_ok kend p ∧ 0 ≤ perm < 1024 ∧
        ∀ x, in_page p x → bytes_of s' x = c (x - p)
    | None => ¬ valid (pte s' T' va)
    end;
  ai_old : ∀ va, 0 ≤ va < MAXVA → ¬ in_range o j va → pte s' T' va = pte s T va;
  ai_keep : ∀ va, 0 ≤ va < top → ¬ in_range o j va → uload (bytes_of s') T' va = uload (bytes_of s) T va;
  ai_acct : ∀ p, p ∈ l → p ∈ l' ∨ (∃ x, T' !! x = Some p) ∨ freed o j (λ va, pte s' T' va) p;
  ai_free : ∀ p, p ∈ l' → p ∈ l;
  ai_tree : ∀ x q, T' !! x = Some q → T !! x = Some q ∨ q ∈ l;
  ai_data : ∀ va, 0 ≤ va < MAXVA → in_range o j va → valid (pte s' T' va) → PTE2PA (pte s' T' va) ∈ l;
  ai_frame : ∀ x, off_tree T x → outside l x → bytes_of s' x = bytes_of s x;
}.

Lemma alloc_inv_refl s l T root top o want : us_ok s l T root top → alloc_inv s l T root top o want 0 s l T.
Proof.
  intros Hus. split; try done; [apply vstate_refl| |by left|by left|].
  - intros va _ ?%in_range_0. done.
  - intros va _ ?%in_range_0. done.
Qed.

Lemma in_range_snoc o j va : in_range o (Datatypes.S j) va ↔ in_range o j va ∨ in_range (o + Z.of_nat j * PGSIZE) 1 va.
Proof. unfold in_range, PGSIZE. lia. Qed.

Definition zero_page (m : mem) (p : Z) : mem := memset m p 0 PGSIZE.

Lemma zero_page_out m p x : ¬ in_page p x → zero_page m p x = m x.
Proof. intros Hx. unfold zero_page. rewrite memset_spec by done. by rewrite decide_False. Qed.
Lemma zero_page_in m p x : in_page p x → zero_page m p x = 0.
Proof. intros Hx. unfold zero_page. rewrite memset_spec by done. by rewrite decide_True. Qed.

Lemma grows_vstate s l T root s' l' T' X : grows s l T root s' l' T' X → vstate s s'.
Proof. intros [(pm & h & -> & ?) _ _ _ _ _ _]. by exists pm, h. Qed.

Lemma freed_grows s l T root s' l' T' X a n p :
  grows s l T root s' l' T' X → (∀ va, in_range a n va → pte s' T' va = pte s T va) →
  freed a n (λ va, pte s T va) p → freed a n (λ va, pte s' T' va) p.
Proof. intros _ Hp (va & Hin & Hv & E). exists va. by rewrite !Hp. Qed.

(** Pages added earlier are not touched by later additions. *)
Lemma page_kept s l T root top s' l' T' X va q perm x :
  us_ok s l T root top → grows s l T root s' l' T' X → 0 ≤ va < top →
  pte s T va = leaf_pte q perm → page_ok kend q → 0 ≤ perm < 1024 → in_page q x →
  bytes_of s' x = bytes_of s x.
Proof.
  intros Hus Hg Hva Eq Hq Hperm Hx. destruct (page_ok_56 kend q Hq) as (? & ? & ?).
  pose proof (us_data _ _ _ _ _ _ Hus va Hva) as Hd. rewrite Eq, leaf_pte_pa in Hd by done.
  destruct (data_page_off kend s l T root q x (us_vm _ _ _ _ _ _ Hus) (Hd ltac:(by apply leaf_pte_valid)) Hx).
  by apply (g_frame _ _ _ _ _ _ _ _ _ Hg).
Qed.

Lemma alloc_inv_off s l T root top o want j s1 l1 T1 x :
  alloc_inv s l T root top o want j s1 l1 T1 → off_tree T x → outside l x → off_tree T1 x ∧ outside l1 x.
Proof.
  intros Hai Hx Ho. split.
  - intros y q Hq. destruct (ai_tree _ _ _ _ _ _ _ _ _ _ _ Hai y q Hq); [by eapply Hx|by apply Ho].
  - intros q Hq. by apply Ho, (ai_free _ _ _ _ _ _ _ _ _ _ _ Hai).
Qed.

(** More tables, no entry changed. *)
Lemma alloc_inv_grows s l T root top o want j s1 l1 T1 s2 l2 T2 :
  alloc_inv s l T root top o want j s1 l1 T1 → o + Z.of_nat j * PGSIZE ≤ top → 0 ≤ o →
  grows s1 l1 T1 root s2 l2 T2 [] → (∀ va, 0 ≤ va < MAXVA → pte s2 T2 va = pte s1 T1 va) →
  alloc_inv s l T root top o want j s2 l2 T2.
Proof.
  intros Hai Htop Ho0 Hg Hp. pose proof Hai as [Hus1 Hs1 Hnew Hold Hkeep Hac Hfree Htree Hdat Hfr].
  pose proof (us_top _ _ _ _ _ _ Hus1) as HM.
  split; [by eapply us_ok_grows|eapply vstate_trans; [done|by eapply grows_vstate]| | | | | | | |].
  - intros va Hva Hr. rewrite Hp by done. specialize (Hnew va Hva Hr). destruct (want va) as [[perm c]|]; [|done].
    destruct Hnew as (q & Eq & Hq & Hpm & Hz). exists q. split_and!; [done|done|lia|lia|]. intros x Hx.
    rewrite <- (Hz x Hx). eapply page_kept; eauto. unfold in_range, PGSIZE in *; lia.
  - intros va Hva Hr. rewrite Hp by done. by apply Hold.
  - intros va Hva Hr. rewrite <- Hkeep by done. eapply uload_grows; eauto. apply Hp. lia.
  - intros q [Hq|[(x & Hx)|(va & Hr & Hv & E)]]%Hac.
    + apply (g_acct _ _ _ _ _ _ _ _ _ Hg) in Hq as [?|[?|?%elem_of_nil]]; [by left|by right; left|done].
    + right. left. exists x. by eapply lookup_weaken; [|apply Hg].
    + right. right. exists va. by rewrite Hp by (unfold in_range, PGSIZE in *; lia).
  - intros q Hq. by apply Hfree, (g_free _ _ _ _ _ _ _ _ _ Hg).
  - intros x q Hq. destruct (g_new _ _ _ _ _ _ _ _ _ Hg x q Hq); auto.
  - intros va Hva Hr. rewrite Hp by done. by apply Hdat.
  - intros x Hx Ho. rewrite <- Hfr by done. destruct (alloc_inv_off _ _ _ _ _ _ _ _ _ _ _ x Hai Hx Ho).
    by apply (g_frame _ _ _ _ _ _ _ _ _ Hg).
Qed.

(** A page that stays unmapped. *)
Lemma alloc_inv_skip s l T root top o want j s1 l1 T1 :
  alloc_inv s l T root top o want j s1 l1 T1 → o mod PGSIZE = 0 → 0 ≤ o →
  (∀ va, in_range (o + Z.of_nat j * PGSIZE) 1 va → want va = None ∧ ¬ valid (pte s T va)) →
  alloc_inv s l T root top o want (Datatypes.S j) s1 l1 T1.
Proof.
  intros [Hus1 Hs1 Hnew Hold Hkeep Hac Hfree Htree Hdat Hfr] Ho Ho0 Hno.
  assert (∀ va, 0 ≤ va < MAXVA → in_range (o + Z.of_nat j * PGSIZE) 1 va → pte s1 T1 va = pte s T va) as Hsame.
  { intros va Hva Hr. apply Hold; [done|]. unfold in_range, PGSIZE in *. lia. }
  split; try done.
  - intros va Hva [Hr|Hr]%in_range_snoc; [by apply Hnew|]. destruct (Hno va Hr) as [-> ?]. by rewrite Hsame.
  - intros va Hva Hr. rewrite in_range_snoc in Hr. apply Hold; tauto.
  - intros va Hva Hr. rewrite in_range_snoc in Hr. apply Hkeep; tauto.
  - intros q [Hq|[Hq|(va & Hr & Hv & E)]]%Hac; [by left|by right; left|]. right. right. exists va.
    split_and!; [apply in_range_snoc; by left|done|done].
  - intros va Hva [Hr|Hr]%in_range_snoc; [by apply Hdat|]. rewrite Hsame by done. intros Hv. by destruct (Hno va Hr).
Qed.

Lemma new_page_at s l T root top a perm g p s' l' T' va :
  new_page_post s l T root top a perm g p s' l' T' → a mod PGSIZE = 0 → 0 ≤ va < MAXVA →
  pte s' T' va = if decide (in_range a 1 va) then leaf_pte p perm else pte s T va.
Proof.
  intros Hnp Ha Hva. rewrite (np_pte _ _ _ _ _ _ _ _ _ _ _ _ _ Hnp) by done. unfold mapped. case_decide as Hr; [|done].
  f_equal. apply (in_range_S a 0) in Hr as [->|?%in_range_0]; [|done|done]. apply Z.mod_divide in Ha as [x ->]; [|done].
  unfold PGSIZE. rewrite Z.div_mul; lia.
Qed.

(** One more page, mapped. *)
Lemma alloc_inv_S s l T root top o want j s1 l1 T1 perm c g p s2 l2 T2 :
  alloc_inv s l T root top o want j s1 l1 T1 →
  o mod PGSIZE = 0 → 0 ≤ o → o + Z.of_nat (Datatypes.S j) * PGSIZE ≤ top → 0 ≤ perm < 1024 →
  (∀ va, in_range (o + Z.of_nat j * PGSIZE) 1 va → want va = Some (perm, c)) →
  new_page_post s1 l1 T1 root top (o + Z.of_nat j * PGSIZE) perm g p s2 l2 T2 →
  (∀ x, in_page p x → bytes_of s2 x = c (x - p)) →
  alloc_inv s l T root top o want (Datatypes.S j) s2 l2 T2.
Proof.
  intros Hai Ho Ho0 Htop Hperm Hw Hnpp Hfill. pose proof Hai as [Hus1 Hs1 Hnew Hold Hkeep Hac Hfree Htree Hdat Hfr].
  pose proof Hnpp as [Hg Hus2 Hin Hp _ _]. set (a := o + Z.of_nat j * PGSIZE) in *. pose proof (us_top _ _ _ _ _ _ Hus1) as HM.
  assert (a mod PGSIZE = 0) as Ha by (unfold a; rewrite Z.mod_add; done).
  destruct (page_ok_56 kend p Hp) as (? & ? & ?).
  assert (∀ va, 0 ≤ va < MAXVA → in_range a 1 va → pte s2 T2 va = leaf_pte p perm) as Hnp.
  { intros va Hva Hr. erewrite new_page_at by eauto. by rewrite decide_True. }
  assert (∀ va, 0 ≤ va < MAXVA → ¬ in_range a 1 va → pte s2 T2 va = pte s1 T1 va) as Hop.
  { intros va Hva Hr. erewrite new_page_at by eauto. by rewrite decide_False. }
  assert (∀ va, in_range o j va → ¬ in_range a 1 va) as Hdis by (unfold a, in_range, PGSIZE; lia).
  split; [done|eapply vstate_trans; [done|by eapply grows_vstate]| | | | | | | |].
  - intros va Hva [Hr|Hr]%in_range_snoc.
    + rewrite Hop by auto. specialize (Hnew va Hva Hr). destruct (want va) as [[perm' c']|]; [|done].
      destruct Hnew as (q & Eq & Hq & Hpm & Hz). exists q. split_and!; [done|done|lia|lia|]. intros x Hx.
      rewrite <- (Hz x Hx). eapply page_kept; eauto. unfold in_range, PGSIZE in *; lia.
    + rewrite Hw by done. exists p. split_and!; [by apply Hnp|done|lia|lia|done].
  - intros va Hva Hr. rewrite in_range_snoc in Hr. rewrite Hop by tauto. apply Hold; tauto.
  - intros va Hva Hr. rewrite in_range_snoc in Hr. rewrite <- Hkeep by tauto.
    eapply uload_grows; eauto. apply Hop; [lia|tauto].
  - intros q [Hq|[(x & Hx)|Hq]]%Hac.
    + apply (g_acct _ _ _ _ _ _ _ _ _ Hg) in Hq as [?|[?|Hq]]; [by left|by right; left|].
      apply list_elem_of_singleton in Hq as ->. right. right. exists a.
      assert (0 ≤ a < MAXVA) by (unfold a, PGSIZE in *; lia).
      assert (in_range a 1 a) by (unfold in_range, PGSIZE; lia).
      rewrite Hnp by done. split_and!; [apply in_range_snoc; by right|by apply leaf_pte_valid|by apply leaf_pte_pa].
    + right. left. exists x. by eapply lookup_weaken; [|apply Hg].
    + right. right. destruct Hq as (va & Hr & Hv & E). exists va.
      rewrite Hop by (auto || (unfold in_range, PGSIZE in *; lia)). split_and!; [apply in_range_snoc; by left|done|done].
  - intros q Hq. by apply Hfree, (g_free _ _ _ _ _ _ _ _ _ Hg).
  - intros x q Hq. destruct (g_new _ _ _ _ _ _ _ _ _ Hg x q Hq); auto.
  - intros va Hva [Hr|Hr]%in_range_snoc.
    + rewrite Hop by auto. by apply Hdat.
    + rewrite Hnp by done. intros _. rewrite leaf_pte_pa by done. auto.
  - intros x Hx Ho'. rewrite <- Hfr by done. destruct (alloc_inv_off _ _ _ _ _ _ _ _ _ _ _ x Hai Hx Ho').
    by apply (g_frame _ _ _ _ _ _ _ _ _ Hg).
Qed.

(** The address space as it was, and no page lost: what a failed [uvmalloc]
    or [uvmcopy] leaves. *)
Record restored (s : S) (l : list Z) (T : ptree) (root top : Z) (s' : S) (l' : list Z) (T' : ptree) : Prop := mkRestored {
  re_ok : us_ok s' l' T' root top;
  re_state : vstate s s';
  re_valid : ∀ va, 0 ≤ va < MAXVA → valid (pte s' T' va) ↔ valid (pte s T va);
  re_keep : ∀ va, 0 ≤ va < top → uload (bytes_of s') T' va = uload (bytes_of s) T va;
  re_acct : ∀ p, p ∈ l → p ∈ l' ∨ ∃ x, T' !! x = Some p;
  re_free : ∀ p, p ∈ l' → p ∈ l;
  re_frame : ∀ x, off_tree T x → outside l x → bytes_of s' x = bytes_of s x;
}.

(** Unmapping the [j] pages undoes the additions. *)
Lemma alloc_inv_undo s l T root top o want j s1 l1 T1 s2 l2 :
  alloc_inv s l T root top o want j s1 l1 T1 → 0 ≤ o → o + Z.of_nat j * PGSIZE ≤ top →
  (∀ va, in_range o j va → ¬ valid (pte s T va)) →
  unmap_post s1 l1 T1 root top o j s2 l2 → restored s l T root top s2 l2 T1.
Proof.
  intros Hai Ho0 Htop Hnv [Hus2 Hs2 Hp2 Hf2 Hk2 Hfr2]. pose proof Hai as [Hus1 Hs1 Hnew Hold Hkeep Hac Hfree Htree Hdat Hfr].
  pose proof (us_top _ _ _ _ _ _ Hus1) as HM.
  assert (∀ va, in_range o j va → 0 ≤ va < MAXVA) as Hrb by (unfold in_range, PGSIZE in *; lia).
  split; [done|by eapply vstate_trans| | | | |].
  - intros va Hva. rewrite Hp2 by done. unfold unmapped. case_decide as E.
    + split; [by intros ?%valid_0|]. intros Hv. by destruct (Hnv va (proj1 E)).
    + destruct (decide (in_range o j va)); [split; [tauto|]; intros Hv; by destruct (Hnv va)|]. by rewrite Hold.
  - intros va Hva. destruct (decide (in_range o j va)) as [Hr|Hr]; [|by rewrite Hk2, Hkeep].
    unfold uload. rewrite Hp2 by lia. unfold unmapped.
    rewrite (decide_False (P := valid (pte s T va) ∧ _)) by (intros [? _]; by eapply Hnv).
    rewrite decide_False; [done|]. intros [Hv _]. case_decide as E; [by eapply valid_0|]. apply E. by split.
  - intros q [Hq|[Hx|Hq]]%Hac; [left; apply Hf2; by left|by right|left; apply Hf2; by right].
  - intros q [Hq|(va & Hr & Hv & <-)]%Hf2; [by apply Hfree|apply Hdat; auto].
  - intros x Hx Ho. destruct (alloc_inv_off _ _ _ _ _ _ _ _ _ _ _ x Hai Hx Ho) as [Hx1 Ho1].
    rewrite <- Hfr, Hfr2; try done. intros q [Hq|(va & Hr & Hv & <-)]%Hf2; [by apply Ho1|].
    apply Ho, Hdat; auto.
Qed.

Lemma uvmalloc_undo s l T root top o want j s1 l1 T1 :
  alloc_inv s l T root top o want j s1 l1 T1 → o mod PGSIZE = 0 → 0 ≤ o → o + Z.of_nat j * PGSIZE ≤ top →
  (∀ va, in_range o j va → ¬ valid (pte s T va)) →
  wp (uvmdealloc kend root (o + Z.of_nat j * PGSIZE) o ;; ret 0) s1
    (λ r s', r = 0 ∧ ∃ l', restored s l T root top s' l' T1).
Proof.
  intros Hai Ho Ho0 Htop Hnv. wp_go. pose proof (ai_ok _ _ _ _ _ _ _ _ _ _ _ Hai) as Hus1.
  assert ((o + Z.of_nat j * PGSIZE) mod PGSIZE = 0) as Ha by (rewrite Z.mod_add; done).
  eapply (wp_mono _ _ (λ _ s', ∃ l', unmap_post s1 l1 T1 root top o j s' l')).
  - destruct (decide (j = 0%nat)) as [->|].
    + unfold uvmdealloc. rewrite decide_True by lia. apply wp_ret. exists l1. by apply unmap_post_refl.
    + eapply wp_mono; [apply (uvmdealloc_spec kend s1 l1 T1 root top); [done|unfold PGSIZE; lia|by rewrite page_up_id]|].
      intros r s' (_ & l' & Hpost). exists l'. rewrite !page_up_id in Hpost by done.
      replace (Z.to_nat _) with j in Hpost; [done|].
      replace (o + Z.of_nat j * PGSIZE - o) with (Z.of_nat j * PGSIZE) by lia. by rewrite Z.div_mul, Nat2Z.id.
  - intros r s2 (l2 & Hpost). apply wp_ret. split; [done|]. exists l2. by eapply alloc_inv_undo.
Qed.

Definition ualloc_perm (xperm : Z) : Z := Z.lor (Z.lor PTE_R PTE_U) xperm.

(** Zeroed pages throughout. *)
Definition zeroed (perm : Z) : wanted := λ _, Some (perm, λ _, 0).

Lemma uvmalloc_loop_spec k : ∀ j s l T root top o newsz xperm s1 l1 T1,
  let perm := ualloc_perm xperm in
  alloc_inv s l T root top o (zeroed perm) j s1 l1 T1 → o mod PGSIZE = 0 → 0 ≤ o →
  page_up newsz ≤ top → 0 ≤ xperm < 1024 →
  (∀ va, in_range o (j + k) va → ¬ valid (pte s T va)) →
  o + Z.of_nat (j + k) * PGSIZE - PGSIZE < newsz ≤ o + Z.of_nat (j + k) * PGSIZE →
  wp (uvmalloc_loop kend (Datatypes.S k) root (o + Z.of_nat j * PGSIZE) o newsz xperm) s1 (λ r s', ∃ l' T',
    (r = newsz ∧ alloc_inv s l T root top o (zeroed perm) (j + k) s' l' T') ∨
    (r = 0 ∧ restored s l T root top s' l' T')).
Proof.
  induction k as [|k IH]; intros j s l T root top o newsz xperm s1 l1 T1 perm Hai Ho Ho0 Htop Hx Hnv Hsz;
    pose proof (us_top _ _ _ _ _ _ (ai_ok _ _ _ _ _ _ _ _ _ _ _ Hai)) as HM; assert (MAXVA = 2 ^ 38) as EM by done.
  - cbn [uvmalloc_loop]. rewrite decide_False by (rewrite Nat.add_0_r in Hsz; lia). apply wp_ret. exists l1, T1. left.
    by rewrite Nat.add_0_r.
  - remember (Datatypes.S k) as k1 eqn:Ek. cbn [uvmalloc_loop]. set (a := o + Z.of_nat j * PGSIZE).
    destruct (page_up_spec newsz) as [Hpu Hpu2].
    assert (0 ≤ perm < 1024) as Hperm.
    { unfold perm, ualloc_perm. apply lor_small; [|done]. by vm_compute. }
    assert (a + PGSIZE ≤ page_up newsz) as Hle.
    { unfold a, PGSIZE in *. apply Z.mod_divide in Hpu as [x Ex], Ho as [y Ey]; [|lia..]. subst k1. lia. }
    rewrite decide_True by (unfold a, PGSIZE in *; subst k1; lia).
    assert (∀ va, in_range o j va → ¬ valid (pte s T va)) as Hnv'.
    { intros va Hva. apply Hnv. unfold in_range, PGSIZE in *. lia. }
    eapply (kalloc_fill kend s1 l1 T1 root top zero_page); [apply Hai|apply zero_page_out| |].
    { intros s' Hg Hp. eapply wp_mono; [eapply (uvmalloc_undo s l T root top o (zeroed perm) j s' l1 T1)|]; try done.
      - eapply alloc_inv_grows; eauto. unfold a, PGSIZE in *. lia.
      - unfold a, PGSIZE in *. lia.
      - intros r s2 (-> & l' & Hr). exists l', T1. by right. }
    intros p s2 l2 Hfi. change (Z.lor (Z.lor PTE_R PTE_U) xperm) with perm.
    eapply (map_filled kend s1 l1 T1 root top a perm zero_page); [done| | |lia|done| | |].
    + unfold a. by rewrite Z.mod_add.
    + unfold a, PGSIZE. lia.
    + rewrite (ai_old _ _ _ _ _ _ _ _ _ _ _ Hai); [apply Hnv|..]; unfold a, in_range, PGSIZE in *; subst k1; lia.
    + intros s3 l3 T3 Hg Hp. eapply wp_mono; [eapply (uvmalloc_undo s l T root top o (zeroed perm) j s3 l3 T3)|]; try done.
      * eapply alloc_inv_grows; eauto. unfold a, PGSIZE in *. lia.
      * unfold a, PGSIZE in *. lia.
      * intros r s4 (-> & l' & Hr). exists l', T3. by right.
    + intros s3 l3 T3 Hnp. subst k1. unfold u64. rewrite wrap_small by (unfold a, PGSIZE in *; lia).
      replace (a + PGSIZE) with (o + Z.of_nat (Datatypes.S j) * PGSIZE) by (unfold a, PGSIZE; lia).
      replace (j + Datatypes.S k)%nat with (Datatypes.S j + k)%nat in * by lia.
      eapply IH; try done. eapply alloc_inv_S; eauto; [unfold a, PGSIZE in *; lia|]. intros x Hxp.
      destruct (np_fill _ _ _ _ _ _ _ _ _ _ _ _ _ Hnp) as (m1 & _ & ->); [|done]. by apply zero_page_in.
Qed.

Lemma uvmalloc_spec s l T root top oldsz newsz xperm :
  us_ok s l T root top → 0 ≤ oldsz ≤ newsz → page_up newsz ≤ top → 0 ≤ xperm < 1024 →
  let o := page_up oldsz in
  let n := Z.to_nat ((page_up newsz - o) / PGSIZE) in
  (∀ va, in_range o n va → ¬ valid (pte s T va)) →
  wp (uvmalloc kend root oldsz newsz xperm) s (λ r s', ∃ l' T',
    (r = newsz ∧ alloc_inv s l T root top o (zeroed (ualloc_perm xperm)) n s' l' T') ∨
    (r = 0 ∧ restored s l T root top s' l' T')).
Proof.
  intros Hus Hsz Htop Hx o n Hnv. pose proof (us_top _ _ _ _ _ _ Hus) as HM. assert (MAXVA = 2 ^ 38) as EM by done.
  destruct (page_up_spec oldsz) as [Ho1 Ho2], (page_up_spec newsz) as [Hn1 Hn2].
  pose proof (page_up_mono oldsz newsz ltac:(lia)) as Hm. fold o in Ho1, Ho2, Hm.
  assert (o + Z.of_nat n * PGSIZE = page_up newsz) as En.
  { unfold n, PGSIZE in *. rewrite Z2Nat.id by (apply Z.div_pos; lia). Z.div_mod_to_equations. lia. }
  unfold uvmalloc. rewrite decide_False by lia. rewrite PGROUNDUP_spec by (unfold PGSIZE in *; lia).
  fold (page_up oldsz). fold o.
  replace (Z.to_nat ((newsz - o + PGSIZE - 1) / PGSIZE)) with n.
  2:{ unfold n, PGSIZE in *. unfold page_up at 1.
      apply Z.mod_divide in Ho1 as [y Ey]; [|lia]. rewrite Ey in *.
      f_equal. Z.div_mod_to_equations. lia. }
  replace (uvmalloc_loop kend (Datatypes.S n) root o o newsz xperm)
    with (uvmalloc_loop kend (Datatypes.S n) root (o + Z.of_nat 0 * PGSIZE) o newsz xperm)
    by (f_equal; lia).
  eapply (uvmalloc_loop_spec n 0 s l T root top o newsz xperm s l T); try done; [by apply alloc_inv_refl|unfold PGSIZE in *; lia|].
  simpl. unfold PGSIZE in *. lia.
Qed.

(** ** uvmcopy *)

(** The address space [To] shares no page with the page table [Tn]. *)
Record apart (s : S) (l : list Z) (To : ptree) (ro top : Z) (Tn : ptree) (rn : Z) : Prop := mkApart {
  ap_old : us_ok s l To ro top;
  ap_new : us_ok s l Tn rn top;
  ap_tables : ∀ x y q, To !! x = Some q → Tn !! y ≠ Some q;
  ap_data : ∀ va y, 0 ≤ va < top → valid (pte s To va) → Tn !! y ≠ Some (PTE2PA (pte s To va));
}.

Lemma apart_page s l To ro top Tn rn q x :
  apart s l To ro top Tn rn → page_ok kend q → q ∉ l → (∀ y, Tn !! y ≠ Some q) → in_page q x →
  off_tree Tn x ∧ outside l x.
Proof.
  intros Hap Hq Hl Hn Hx.
  apply (data_page_off kend s l Tn rn q x); [apply (us_vm _ _ _ _ _ _ (ap_new _ _ _ _ _ _ _ Hap))| |done].
  split; [done|]. by split.
Qed.

(** What does not touch [Tn] or free pages does not touch [To]. *)
Lemma apart_kept s l To ro top Tn rn m' :
  apart s l To ro top Tn rn → (∀ x, off_tree Tn x → outside l x → m' x = bytes_of s x) →
  (pt_wf kend m' To ro ∧ ∀ va, pte_at m' To va = pte s To va) ∧
  ∀ va x, 0 ≤ va < top → valid (pte s To va) → in_page (PTE2PA (pte s To va)) x → m' x = bytes_of s x.
Proof.
  intros Hap Hfr. pose proof Hap as [Ho Hn Ht Hd]. pose proof (us_vm _ _ _ _ _ _ Ho) as Hvo. split.
  - apply (pt_wf_ext kend _ m' To ro (vo_wf _ _ _ _ _ Hvo)). intros a Ha. apply dec_stable. intros Hne. apply Ha.
    intros x q Hq Hin. apply Hne. destruct (apart_page s l To ro top Tn rn q a Hap) as [? ?]; try done; auto.
    + by eapply (pw_page _ _ _ _ (vo_wf _ _ _ _ _ Hvo)).
    + by eapply (vo_free _ _ _ _ _ Hvo).
    + intros y. by eapply Ht.
  - intros va x Hva Hv Hin. destruct (us_data _ _ _ _ _ _ Ho va Hva Hv) as (Hp & Hl & _).
    destruct (apart_page s l To ro top Tn rn _ x Hap Hp Hl) as [? ?]; auto.
Qed.

(** The parent keeps its memory. *)
Lemma apart_old s l To ro top Tn rn s' l' :
  apart s l To ro top Tn rn → can_alloc s' → kmem_ok kend (pm_of s') l' → (∀ p, p ∈ l' → p ∈ l) →
  (∀ x, off_tree Tn x → outside l x → bytes_of s' x = bytes_of s x) →
  us_ok s' l' To ro top ∧ ∀ va, 0 ≤ va < top → uload (bytes_of s') To va = uload (bytes_of s) To va.
Proof.
  intros Hap Hca Hkm Hl Hfr. destruct (apart_kept _ _ _ _ _ _ _ _ Hap Hfr) as [[Hwf Hp] Hb].
  destruct Hap as [[Hvm Htop Hd Hi] _ _ _]. split.
  - split; [|done| |].
    + split; try done. intros x q Hx Hq. by eapply (vo_free _ _ _ _ _ Hvm), Hl.
    + intros va Hva. rewrite Hp. intros Hv. destruct (Hd va Hva Hv) as (? & ? & ?). split; [done|split; auto].
    + intros va va' Hva Hva'. rewrite !Hp. auto.
  - intros va Hva. unfold uload. rewrite Hp. case_decide as Hv; [|done]. f_equal.
    apply (Hb va); [done|tauto|apply in_page_offset].
Qed.

Definition copy_want (m : mem) (To : ptree) : wanted := λ va,
  let e := pte_at m To va in
  if decide (valid e) then Some (PTE_FLAGS e, λ x, m (PTE2PA e + x)) else None.

Lemma PTE_FLAGS_range e : 0 ≤ PTE_FLAGS e < 1024.
Proof.
  unfold PTE_FLAGS. change 0x3FF with (Z.ones 10). rewrite Z.land_ones by lia. apply Z.mod_pos_bound. lia.
Qed.

Lemma copy_want_page m To a va : a mod PGSIZE = 0 → 0 ≤ a → a + PGSIZE ≤ MAXVA → in_range a 1 va →
  copy_want m To va = copy_want m To a ∧ pte_at m To va = pte_at m To a.
Proof.
  intros Ha Ha0 Hmax Hva. assert (pte_at m To va = pte_at m To a) as E.
  { apply pte_same_page; [unfold in_range, PGSIZE in *; lia..|].
    apply (in_range_S a 0) in Hva as [?|?%in_range_0]; done. }
  unfold copy_want. by rewrite E.
Qed.

Lemma flag_low e b : Z.land 0x3FF b = b → Z.land e b = Z.land (PTE_FLAGS e) b.
Proof. intros Hb. unfold PTE_FLAGS. by rewrite <- Z.land_assoc, Hb. Qed.

Lemma lor_valid x : Z.land x PTE_V ≠ 0 → Z.lor x PTE_V = x.
Proof.
  change PTE_V with (2 ^ 0). intros Hv. apply Z.bits_inj'. intros i Hi.
  rewrite Z.lor_spec, Z.pow2_bits_eqb by lia. destruct (Z.eqb_spec 0 i) as [<-|]; [|apply orb_false_r].
  rewrite orb_true_r. symmetry. destruct (Z.testbit x 0) eqn:E0; [done|]. destruct Hv. apply Z.bits_inj'. intros i Hi'.
  rewrite Z.land_spec, Z.pow2_bits_eqb, Z.bits_0 by lia.
  destruct (Z.eqb_spec 0 i) as [<-|]; [by rewrite E0|apply andb_false_r].
Qed.

(** The child sees what the parent sees. *)
Lemma copy_want_uload s l Tn rn top To j s' l' Tn' va :
  alloc_inv s l Tn rn top 0 (copy_want (bytes_of s) To) j s' l' Tn' → 0 ≤ va < MAXVA → in_range 0 j va →
  uload (bytes_of s') Tn' va = uload (bytes_of s) To va ∧
  (valid (pte s' Tn' va) ↔ valid (pte s To va)) ∧
  (valid (pte s To va) → PTE_FLAGS (pte s' Tn' va) = PTE_FLAGS (pte s To va)).
Proof.
  intros Hai Hva Hr. pose proof (ai_new _ _ _ _ _ _ _ _ _ _ _ Hai va Hva Hr) as Hnew. unfold copy_want in Hnew.
  set (e := pte s To va) in *. unfold uload. fold e. case_decide as Hv.
  - destruct Hnew as (p & Ep & Hp & Hpm & Hc). destruct (page_ok_56 kend p Hp) as (? & ? & ?).
    assert (PTE_FLAGS (pte s' Tn' va) = PTE_FLAGS e) as Ef.
    { rewrite Ep, leaf_pte_flags by done. apply lor_valid. by rewrite <- (flag_low e PTE_V). }
    assert (∀ b, Z.land 0x3FF b = b → Z.land (pte s' Tn' va) b = Z.land e b) as Eb.
    { intros b Hb. by rewrite (flag_low _ b), Ef, <- (flag_low e b). }
    assert (valid (pte s' Tn' va) ↔ valid e) as Hv' by (unfold valid; by rewrite Eb).
    assert (user_ok (pte s' Tn' va) ↔ user_ok e) as Hu by (unfold user_ok; by rewrite Eb).
    split_and!; [|done|done]. rewrite (decide_ext _ (valid e ∧ user_ok e)) by (by rewrite Hv', Hu).
    case_decide as Hd; [|done]. f_equal. rewrite Ep, leaf_pte_pa by done. rewrite Hc by apply in_page_offset. f_equal. lia.
  - rewrite !decide_False by tauto. split_and!; [done|tauto|done].
Qed.

Definition copy_page (pa : Z) (m : mem) (p : Z) : mem := memmove m p pa PGSIZE.

Lemma copy_page_out pa m p x : ¬ in_page p x → copy_page pa m p x = m x.
Proof. intros Hx. unfold copy_page. rewrite memmove_spec by (unfold PGSIZE; lia). by rewrite decide_False. Qed.

(** One mapped page of the parent is copied to the child. *)
Lemma uvmcopy_page j s l To ro top Tn rn s1 l1 T1 Q (K1 K2 : M S (option Z)) :
  let a := Z.of_nat j * PGSIZE in
  let want := copy_want (bytes_of s) To in
  apart s l To ro top Tn rn → alloc_inv s l Tn rn top 0 want j s1 l1 T1 →
  a + PGSIZE ≤ top → (∀ va, in_range a 1 va → ¬ valid (pte s Tn va)) → valid (pte s To a) →
  (∀ s' l' T', alloc_inv s l Tn rn top 0 want j s' l' T' → wp K1 s' Q) →
  (∀ s' l' T', alloc_inv s l Tn rn top 0 want (Datatypes.S j) s' l' T' → wp K2 s' Q) →
  wp (mem <- kalloc ;;
      if decide (mem = 0) then K1 else
      mod_bytes (λ m, copy_page (PTE2PA (pte s To a)) m mem) ;;
      r <- mappages rn a PGSIZE mem (PTE_FLAGS (pte s To a)) ;;
      if decide (r ≠ 0) then kfree kend mem ;; K1 else K2) s1 Q.
Proof.
  intros a want Hap Hai Hat Hnv Hv HK1 HK2. pose proof (PTE_FLAGS_range (pte s To a)) as Hperm.
  pose proof (us_top _ _ _ _ _ _ (ap_old _ _ _ _ _ _ _ Hap)) as HM.
  assert (a mod PGSIZE = 0 ∧ 0 ≤ a) as [Ha Ha0] by (unfold a; rewrite Z.mod_mul by done; unfold PGSIZE; lia).
  assert (∀ s' l' T', grows s1 l1 T1 rn s' l' T' [] → (∀ va, 0 ≤ va < MAXVA → pte s' T' va = pte s1 T1 va) →
    alloc_inv s l Tn rn top 0 want j s' l' T') as Hstay.
  { intros s' l' T' Hg Hp. eapply alloc_inv_grows; eauto; [unfold a, PGSIZE in *; lia|lia]. }
  set (pa := PTE2PA (pte s To a)) in *.
  eapply (kalloc_fill kend s1 l1 T1 rn top (copy_page pa)); [apply Hai|apply copy_page_out| |].
  { intros s' Hg Hp. apply (HK1 s' l1 T1), Hstay; auto. }
  intros p s2 l2 Hfi.
  eapply (map_filled kend s1 l1 T1 rn top a _ (copy_page pa)); [done|done|done|done|done| | |].
  - rewrite (ai_old _ _ _ _ _ _ _ _ _ _ _ Hai); [apply Hnv|unfold PGSIZE in *; lia|]; unfold a, in_range, PGSIZE in *; lia.
  - intros s3 l3 T3 Hg Hp. apply (HK1 s3 l3 T3), Hstay; auto.
  - intros s3 l3 T3 Hnp. apply (HK2 s3 l3 T3).
    eapply (alloc_inv_S s l Tn rn top 0 want j s1 l1 T1 (PTE_FLAGS (pte s To a)) (λ x, bytes_of s (pa + x)));
      rewrite ?Z.add_0_l; [done|done|lia|unfold a, PGSIZE in *; lia|done| |exact Hnp|].
    + intros va Hva. unfold want. destruct (copy_want_page (bytes_of s) To a va) as [-> _]; [done|done|lia|done|].
      unfold copy_want. by rewrite decide_True.
    + intros x Hx. destruct (np_fill _ _ _ _ _ _ _ _ _ _ _ _ _ Hnp) as (m1 & Hm1 & ->); [|done].
      unfold copy_page. rewrite memmove_spec by (unfold PGSIZE; lia). rewrite decide_True by done.
      assert (in_page pa (pa + (x - p))) as Hin by (unfold in_page in *; lia).
      destruct (us_data _ _ _ _ _ _ (ap_old _ _ _ _ _ _ _ Hap) a ltac:(unfold PGSIZE in *; lia) Hv) as (Hpk & Hl & _).
      destruct (apart_page s l To ro top Tn rn pa _ Hap Hpk Hl ltac:(intros; eapply (ap_data _ _ _ _ _ _ _ Hap); [unfold PGSIZE in *; lia|done]) Hin) as [Ho1 Ho2].
      destruct (alloc_inv_off _ _ _ _ _ _ _ _ _ _ _ _ Hai Ho1 Ho2) as [Ho3 Ho4].
      rewrite Hm1 by done. by apply (ai_frame _ _ _ _ _ _ _ _ _ _ _ Hai).
Qed.

(** The loop of [uvmcopy]; on [Some i] the caller unmaps the pages below [i]. *)
Lemma uvmcopy_loop_spec k : ∀ j s l To ro top Tn rn sz s1 l1 T1,
  apart s l To ro top Tn rn → alloc_inv s l Tn rn top 0 (copy_want (bytes_of s) To) j s1 l1 T1 →
  (∀ va, in_range 0 (j + k) va → ¬ valid (pte s Tn va)) →
  Z.of_nat (j + k) * PGSIZE - PGSIZE < sz ≤ Z.of_nat (j + k) * PGSIZE → Z.of_nat (j + k) * PGSIZE ≤ top →
  wp (uvmcopy_loop kend (Datatypes.S k) ro rn (Z.of_nat j * PGSIZE) sz) s1 (λ r s', ∃ l' T' j',
    alloc_inv s l Tn rn top 0 (copy_want (bytes_of s) To) j' s' l' T' ∧
    (r = None ∧ j' = (j + k)%nat ∨ r = Some (Z.of_nat j' * PGSIZE) ∧ (j' < j + k)%nat)).
Proof.
  induction k as [|k IH]; intros j s l To ro top Tn rn sz s1 l1 T1 Hap Hai Hnv Hsz Htop;
    pose proof (us_top _ _ _ _ _ _ (ap_old _ _ _ _ _ _ _ Hap)) as HM; assert (MAXVA = 2 ^ 38) as EM by done.
  - cbn [uvmcopy_loop]. rewrite Nat.add_0_r in *. rewrite decide_False by lia. apply wp_ret. exists l1, T1, j. auto.
  - remember (Datatypes.S k) as k1 eqn:Ek. cbn [uvmcopy_loop]. set (a := Z.of_nat j * PGSIZE).
    assert (a mod PGSIZE = 0 ∧ 0 ≤ a ∧ a + PGSIZE ≤ top ∧ a < sz ∧ a < MAXVA) as (Ha & Ha0 & Hat & Has & HaM).
    { unfold a, PGSIZE in *. rewrite Z.mod_mul by done. subst k1. lia. }
    rewrite decide_True by done. unfold u64. rewrite wrap_small by (unfold PGSIZE in *; lia).
    replace (a + PGSIZE) with (Z.of_nat (Datatypes.S j) * PGSIZE) by (unfold a, PGSIZE; lia).
    replace (j + k1)%nat with (Datatypes.S j + k)%nat in * by lia. subst k1.
    destruct (apart_kept _ _ _ _ _ _ _ _ Hap (ai_frame _ _ _ _ _ _ _ _ _ _ _ Hai)) as [[Hwf Hpo] Hbo].
    assert (∀ va, in_range a 1 va → ¬ valid (pte s Tn va)) as Hnva.
    { intros va Hva. apply Hnv. unfold a, in_range, PGSIZE in *. lia. }
    assert (¬ valid (pte s To a) →
      alloc_inv s l Tn rn top 0 (copy_want (bytes_of s) To) (Datatypes.S j) s1 l1 T1) as Hskip.
    { intros Hno. apply alloc_inv_skip; [done|done|lia|]. rewrite Z.add_0_l. intros va Hva. split; [|by apply Hnva].
      destruct (copy_want_page (bytes_of s) To a va) as [-> _]; [done|done|lia|done|].
      unfold copy_want. by rewrite decide_False. }
    wp_go. eapply wp_ok; [by apply (walk_look kend a s1 To ro)|]. unfold pte_addr.
    destruct (To !! leaf_path a) as [q|] eqn:Hq.
    2:{ rewrite decide_True by done. eapply IH; eauto. apply Hskip. unfold pte_at. rewrite Hq. apply valid_0. }
    assert (q + 8 * PX 0 a ≠ 0).
    { pose proof (PX_idx 0 a ltac:(lia)). pose proof (pw_page _ _ _ _ Hwf _ _ Hq) as (? & ?)%page_ok_bound.
      unfold idx_ok in *. lia. }
    rewrite decide_False by done. unfold ld64. wp_go.
    assert (load64 (bytes_of s1) (q + 8 * PX 0 a) = pte s To a) as -> by (rewrite <- Hpo; unfold pte_at; by rewrite Hq).
    case_decide as Hv; [eapply IH; eauto; apply Hskip; unfold valid; tauto|].
    eapply (uvmcopy_page j s l To ro top Tn rn s1 l1 T1 (λ r s', ∃ l' T' j', _ ∧ _)); try done.
    + intros s2 l2 T2 Hai2. apply wp_ret. exists l2, T2, j. split; [done|right; split; [done|lia]].
    + intros s2 l2 T2 Hai2. by eapply IH.
Qed.

(** [uvmcopy] gives the child a copy of the parent's memory or nothing. *)
Lemma uvmcopy_spec s l To ro top Tn rn sz :
  let n := Z.to_nat (page_up sz / PGSIZE) in
  apart s l To ro top Tn rn → 0 ≤ sz → page_up sz ≤ top → (∀ va, in_range 0 n va → ¬ valid (pte s Tn va)) →
  wp (uvmcopy kend ro rn sz) s (λ r s', ∃ l' T',
    (r = 0 ∧ alloc_inv s l Tn rn top 0 (copy_want (bytes_of s) To) n s' l' T' ∨
     r = -1 ∧ restored s l Tn rn top s' l' T')).
Proof.
  intros n Hap Hsz Htop Hnv. destruct (page_up_spec sz) as [Hp1 Hp2].
  assert (Z.of_nat n * PGSIZE = page_up sz) as En.
  { unfold n, PGSIZE in *. rewrite Z2Nat.id by (apply Z.div_pos; lia). Z.div_mod_to_equations. lia. }
  unfold uvmcopy. replace (Z.to_nat ((sz + PGSIZE - 1) / PGSIZE)) with n.
  2:{ unfold n, page_up, PGSIZE. rewrite Z.div_mul by lia. f_equal. f_equal. lia. }
  wp_go. eapply wp_mono; [apply (uvmcopy_loop_spec n 0 s l To ro top Tn rn sz s l Tn); try done|].
  - apply alloc_inv_refl, (ap_new _ _ _ _ _ _ _ Hap).
  - simpl. unfold PGSIZE in *. lia.
  - simpl. lia.
  - simpl. intros r s1 (l1 & T1 & j & Hai & [[-> ->]|[-> Hj]]).
    + apply wp_ret. exists l1, T1. by left.
    + rewrite Z.div_mul by done. wp_go.
      eapply wp_mono; [apply (uvmunmap_spec kend 0 j s1 l1 T1 rn top); [apply Hai|done|lia|unfold PGSIZE in *; lia]|].
      intros [] s2 (l2 & Hpost). apply wp_ret. exists l2, T1. right. split; [done|].
      eapply (alloc_inv_undo _ _ _ _ _ _ _ j); eauto; [lia|unfold PGSIZE in *; lia|].
      intros va Hva. apply Hnv. unfold in_range, PGSIZE in *. lia.
Qed.

End Alloc.
