(* ===== verification/CopyUser.v ===== *)
(** * Copying between kernel and user memory

    [copyout], [copyin], [copyinstr] and the lazy allocation of [vmfault]
    (kernel/vm.c), with the memory user code sees ([uload]) as the meaning of
    an address space. *)

From S2P Require Import Prelude Params CString Spinlock ProcDefs Sched Memory Kalloc PageTable Vm VmSpec UserMem UserAlloc.

(** ** Byte lists in memory *)

Lemma write_bytes_spec m a l x :
  write_bytes m a l x = if decide (a ≤ x < a + Z.of_nat (length l)) then u8 (l !!! Z.to_nat (x - a)) else m x.
Proof.
  revert m a. induction l as [|c l IH]; intros m a; cbn [write_bytes length].
  - by rewrite decide_False by lia.
  - rewrite IH, upd_spec. repeat case_decide; try lia.
    + f_equal. replace (Z.to_nat (x - a)) with (Datatypes.S (Z.to_nat (x - (a + 1)))) by lia. done.
    + by replace (x - a) with 0 by lia.
Qed.

Lemma read_bytes_length m a n : length (read_bytes m a n) = n.
Proof. revert a. induction n as [|n IH]; intros a; simpl; [done|]. by rewrite IH. Qed.

Lemma read_bytes_lookup m a n i : (i < n)%nat → read_bytes m a n !! i = Some (m (a + Z.of_nat i)).
Proof.
  revert a i. induction n as [|n IH]; intros a i Hi; [lia|]. destruct i as [|i]; simpl.
  - by rewrite Z.add_0_r.
  - rewrite IH by lia. do 2 f_equal. lia.
Qed.

Section Copy.
Context {S : Type} `{HasMem S}.
Variable kend : Z.
Implicit Types s : S.

Notation bytes_of s := (bytes (pm_of s)).
Notation pte s T va := (pte_at (bytes_of s) T va).
Notation us_ok := (us_ok kend).
Notation ul s T va := (uload (bytes_of s) T va).

(** The current process runs in this address space. *)
Record ucur (s : S) (root top size : Z) : Prop := mkUcur {
  uc_cpu : cpu_ok (hw_of s);
  uc_proc : ∃ i p, cproc (mycpu (hw_of s)) = Some i ∧ procs (pt_of s) !! i = Some p ∧
    ProcDefs.pagetable p = root ∧ sz p = size;
  uc_size : size ≤ top;
  uc_top : top mod PGSIZE = 0;
}.

Lemma ucur_vstate s s' root top size : vstate s s' → ucur s root top size → ucur s' root top size.
Proof.
  intros Hs [Hcpu (i & p & Hc & Hp & Hr & Hz) ? ?]. split; try done.
  - eapply settled_cpu_ok; [by apply vstate_settled|done].
  - exists i, p. rewrite (settled_cproc _ _ (vstate_settled _ _ Hs)), (vstate_pt _ _ Hs). done.
Qed.

(** User code that reads from [va] on sees [bs]. *)
Definition reads_at (m : mem) (T : ptree) (va : Z) (bs : list Z) : Prop :=
  ∀ j b, bs !! j = Some b → uload m T (va + Z.of_nat j) = Some b.

(** Nothing above [top] is accessible to user code. *)
Definition top_guard (s : S) (T : ptree) (top : Z) : Prop :=
  ∀ va, 0 ≤ va → top ≤ va < MAXVA → ¬ (valid (pte s T va) ∧ user_ok (pte s T va)).

(** Pages that belong neither to the allocator nor to this address space stay
    so, with their contents. *)
Definition private (s : S) (l : list Z) (T : ptree) (top : Z) (s' : S) (l' : list Z) (T' : ptree) : Prop :=
  ∀ p, fresh_page kend s l T top p →
    fresh_page kend s' l' T' top p ∧ ∀ x, in_page p x → bytes_of s' x = bytes_of s x.

Lemma private_refl s l T top : private s l T top s l T.
Proof. done. Qed.

Lemma private_trans s1 l1 T1 top s2 l2 T2 s3 l3 T3 :
  private s1 l1 T1 top s2 l2 T2 → private s2 l2 T2 top s3 l3 T3 → private s1 l1 T1 top s3 l3 T3.
Proof.
  intros P1 P2 p Hp. destruct (P1 p Hp) as [Hp2 E1]. destruct (P2 p Hp2) as [Hp3 E2]. split; [done|].
  intros x Hx. by rewrite E2, E1.
Qed.

(** Pages taken from the allocator were not private. *)
Lemma private_grows s l T root top s' l' T' X :
  us_ok s l T root top → grows kend s l T root s' l' T' X →
  (∀ va, 0 ≤ va < top → valid (pte s' T' va) → pte s' T' va = pte s T va ∨ PTE2PA (pte s' T' va) ∈ l) →
  private s l T top s' l' T'.
Proof.
  intros Hus Hg Hp p [Hd Hno]. split; [split|].
  - by eapply data_page_grows.
  - intros va Hva Hv E. destruct (Hp va Hva Hv) as [E'|Hl]; [rewrite E' in *; by eapply Hno|].
    rewrite E in Hl. by destruct Hd as (_ & ? & _).
  - intros x Hx. destruct (data_page_off kend s l T root p x (us_vm _ _ _ _ _ _ Hus) Hd Hx).
    by apply (g_frame _ _ _ _ _ _ _ _ _ Hg).
Qed.

(** Mapped user memory stays what it was; pages may have been added. *)
Record ugrow (s : S) (l : list Z) (T : ptree) (root top : Z) (s' : S) (l' : list Z) (T' : ptree) : Prop := mkUgrow {
  ug_ok : us_ok s' l' T' root top;
  ug_state : vstate s s';
  ug_guard : top_guard s' T' top;
  ug_keep : ∀ va, 0 ≤ va < top → valid (pte s T va) → pte s' T' va = pte s T va ∧ ul s' T' va = ul s T va;
  ug_private : private s l T top s' l' T';
}.

Lemma ugrow_refl s l T root top : us_ok s l T root top → top_guard s T top → ugrow s l T root top s l T.
Proof. intros ? ?. split; try done. apply vstate_refl. Qed.

Lemma walkaddr_look s l T root top va : us_ok s l T root top → 0 ≤ va →
  walkaddr root va s = Ok (if decide (va < MAXVA ∧ valid (pte s T va) ∧ user_ok (pte s T va)) then PTE2PA (pte s T va) else 0) s.
Proof.
  intros Hus Hva. unfold walkaddr. destruct (decide (MAXVA ≤ va)); [by rewrite decide_False by lia|].
  unfold bind. rewrite (walk_look kend va s T root); [|lia|apply Hus]. cbn [obind]. unfold pte_addr, pte_at.
  destruct (T !! leaf_path va) as [q|] eqn:Hq.
  - assert (q + 8 * PX 0 va ≠ 0).
    { pose proof (PX_idx 0 va ltac:(lia)). pose proof (grows_look kend s l T root _ q (us_vm _ _ _ _ _ _ Hus) Hq) as (_ & _ & _ & ?).
      unfold idx_ok in *. lia. }
    assert (va < MAXVA) by lia.
    rewrite decide_False by done. unfold ld64, gets. cbn [obind]. unfold valid, user_ok.
    repeat case_decide; try done; try tauto.
  - rewrite decide_True by done. rewrite decide_False; [done|]. intros (_ & Hv & _). by eapply valid_0.
Qed.

Lemma ismapped_look s l T root top va : us_ok s l T root top → 0 ≤ va < MAXVA →
  ismapped root va s = Ok (if decide (valid (pte s T va)) then 1 else 0) s.
Proof.
  intros Hus Hva. unfold ismapped, bind. rewrite (walk_look kend va s T root); [|lia|apply Hus]. cbn [obind].
  unfold pte_addr, pte_at. destruct (T !! leaf_path va) as [q|] eqn:Hq.
  - assert (q + 8 * PX 0 va ≠ 0).
    { pose proof (PX_idx 0 va ltac:(lia)). pose proof (grows_look kend s l T root _ q (us_vm _ _ _ _ _ _ Hus) Hq) as (_ & _ & _ & ?).
      unfold idx_ok in *. lia. }
    rewrite decide_False by done. unfold ld64, gets. cbn [obind]. unfold valid. by repeat case_decide.
  - rewrite decide_True by done. by rewrite decide_False by apply valid_0.
Qed.

Definition vmfault_perm : Z := Z.lor (Z.lor PTE_W PTE_U) PTE_R.

(** [ugrow] through a page-table change that keeps all entries. *)
Lemma ugrow_grows s l T root top s' l' T' X :
  us_ok s l T root top → top_guard s T top → grows kend s l T root s' l' T' X →
  (∀ va, 0 ≤ va < MAXVA → pte s' T' va = pte s T va) → ugrow s l T root top s' l' T'.
Proof.
  intros Hus Hgu Hg Hp. pose proof (us_top _ _ _ _ _ _ Hus) as HM. split.
  - by eapply us_ok_grows.
  - by eapply grows_vstate.
  - intros va Hva0 Hva. rewrite Hp by lia. by apply Hgu.
  - intros va Hva _. split; [apply Hp; lia|]. eapply uload_grows; eauto. apply Hp. lia.
  - eapply private_grows; eauto. intros va Hva _. left. apply Hp. lia.
Qed.

Lemma ugrow_trans s1 l1 T1 root top s2 l2 T2 s3 l3 T3 :
  ugrow s1 l1 T1 root top s2 l2 T2 → ugrow s2 l2 T2 root top s3 l3 T3 → ugrow s1 l1 T1 root top s3 l3 T3.
Proof.
  intros [? ? ? K1 P1] [? ? ? K2 P2]. split; [done|by eapply vstate_trans|done| |by eapply private_trans].
  intros va Hva Hv. destruct (K1 va Hva Hv) as [E1 E1']. rewrite <- E1 in Hv.
  destruct (K2 va Hva Hv) as [E2 E2']. split; congruence.
Qed.

(** [vmfault]: an unmapped page below the process size becomes a zeroed,
    writable user page; anything else is refused and leaves memory alone. *)
Lemma vmfault_spec s l T root top size va :
  us_ok s l T root top → top_guard s T top → ucur s root top size → 0 ≤ va < 2 ^ 64 →
  wp (vmfault kend root va 0) s (λ r s', ∃ l' T', ugrow s l T root top s' l' T' ∧
    (r = 0 ∨
     r ≠ 0 ∧ va < size ∧ ¬ valid (pte s T va) ∧ pte s' T' va = leaf_pte r vmfault_perm ∧ page_ok kend r ∧
       ∀ x, in_page r x → bytes_of s' x = 0)).
Proof.
  intros Hus Hgu [Hcpu (i & p & Hc & Hp & Hroot & Hsz) Hst Htp] Hva. pose proof (us_top _ _ _ _ _ _ Hus) as HM.
  assert (MAXVA = 2 ^ 38) as EM by done.
  unfold vmfault. wp_go. eapply wp_curproc; [done|done|]. wp_go. eapply wp_proc_at; [by st_simpl|].
  set (s1 := with_hw _ s). assert (grows kend s l T root s1 l T []) as Hg1 by (apply grows_settle, Hus).
  assert (∀ va, pte s1 T va = pte s T va) as Hp1 by (intros; unfold s1; by st_simpl).
  destruct (decide (sz p ≤ va)) as [Hle|Hle].
  { apply wp_ret. exists l, T. split; [|by left]. eapply ugrow_grows; eauto. }
  rewrite PGROUNDDOWN_spec by lia. set (a := va / 4096 * 4096).
  assert (a mod PGSIZE = 0 ∧ 0 ≤ a ≤ va ∧ a / 4096 = va / 4096 ∧ a + PGSIZE ≤ top) as (Ha & Ha0 & Ea & Hat).
  { unfold a, PGSIZE in *. rewrite Z.mod_mul, Z.div_mul by lia. apply Z.mod_divide in Htp as [x ->]; [|lia].
    Z.div_mod_to_equations. lia. }
  assert (us_ok s1 l T root top) as Hus1 by (eapply us_ok_grows; eauto).
  assert (pte s1 T a = pte s T va) as Epa.
  { rewrite Hp1. apply pte_same_page; unfold PGSIZE in *; lia || done. }
  wp_go. eapply wp_ok; [apply (ismapped_look s1 l T root top a Hus1); unfold PGSIZE in *; lia|]. rewrite Epa.
  destruct (decide (valid (pte s T va))) as [Hv|Hv].
  { rewrite decide_True by done. apply wp_ret. exists l, T. split; [|by left]. eapply ugrow_grows; eauto. }
  rewrite decide_False by tauto. rewrite Hroot. change (Z.lor (Z.lor PTE_W PTE_U) PTE_R) with vmfault_perm.
  eapply (kalloc_fill kend s1 l T root top zero_page); [done|apply zero_page_out| |].
  { intros s2 Hg2 Hp2. apply wp_ret. exists l, T. split; [|by left].
    eapply (ugrow_grows _ _ _ _ _ _ _ _ []); eauto.
    - exact (grows_trans kend _ _ _ _ _ _ _ _ _ _ _ _ Hg1 Hg2).
    - intros. by rewrite Hp2, Hp1. }
  intros q s2 l2 Hfi.
  eapply (map_filled kend s1 l T root top a vmfault_perm zero_page); [done|done|lia|done|by vm_compute|by rewrite Epa| |].
  { intros s3 l3 T3 Hg3 Hp3. apply wp_ret. exists l3, T3. split; [|by left].
    eapply (ugrow_grows _ _ _ _ _ _ _ _ []); eauto.
    - exact (grows_trans kend _ _ _ _ _ _ _ _ _ _ _ _ Hg1 Hg3).
    - intros. by rewrite Hp3, Hp1. }
  intros s3 l3 T3 [Hg3 Hus3 Hin Hq Hp3 (m1 & _ & Hfill)]. apply wp_ret. exists l3, T3.
  assert (∀ va', 0 ≤ va' < MAXVA → va' / 4096 ≠ va / 4096 → pte s3 T3 va' = pte s T va') as Hother.
  { intros va' Hva' Hne. rewrite Hp3, mapped_S by done. unfold mapped. rewrite decide_False by apply in_range_0.
    rewrite decide_False by congruence. by rewrite Hp1. }
  split.
  - split; [done| | | |].
    + eapply vstate_trans; eapply grows_vstate; eauto.
    + intros va' Hva0' Hva'. rewrite Hother; [by apply Hgu|lia|]. unfold PGSIZE in *. Z.div_mod_to_equations. lia.
    + intros va' Hva' Hv'. assert (va' / 4096 ≠ va / 4096) as Hne.
      { intros E. apply Hv. rewrite <- (pte_same_page _ _ va' va); [done|lia|lia|done]. }
      pose proof (Hother va' ltac:(lia) Hne) as E. split; [done|].
      rewrite (uload_grows kend s1 l T root top s3 l3 T3 [q] va' Hus1 Hg3 Hva') by (by rewrite E, Hp1).
      unfold s1. by st_simpl.
    + eapply private_trans; [eapply (private_grows s l T root top s1 l T []); eauto|].
      eapply private_grows; eauto. intros va' Hva' _. destruct (page_ok_56 kend q Hq) as (? & ? & ?).
      destruct (decide (va' / 4096 = va / 4096)) as [E|E]; [right|left; rewrite Hother, Hp1; [done|lia|done]].
      rewrite Hp3, mapped_S by (done || lia). unfold mapped. rewrite decide_False by apply in_range_0.
      rewrite decide_True by congruence. by rewrite leaf_pte_pa.
  - right. destruct (page_ok_56 kend q Hq) as (? & ? & ?). destruct Hq as (Hq1 & Hq2 & Hq3 & Hq4).
    split_and!; try done; try lia.
    + rewrite Hp3, mapped_S by (done || lia). unfold mapped. rewrite decide_False by apply in_range_0.
      by rewrite decide_True by done.
    + intros x Hx. rewrite Hfill by done. by apply zero_page_in.
Qed.

(** Looking up a user page, allocating it if the process may have it. *)
Lemma fault_in {A} s l T root top size va (K : Z → M S A) Q :
  us_ok s l T root top → top_guard s T top → ucur s root top size → 0 ≤ va < 2 ^ 64 →
  (∀ s' l' T', ugrow s l T root top s' l' T' →
     (va < top → ¬ (valid (pte s T va) ∧ user_ok (pte s T va))) → wp (K 0) s' Q) →
  (∀ s' l' T', ugrow s l T root top s' l' T' → 0 ≤ va < top →
     valid (pte s' T' va) → user_ok (pte s' T' va) → PTE2PA (pte s' T' va) ≠ 0 → wp (K (PTE2PA (pte s' T' va))) s' Q) →
  wp (pa0 <- walkaddr root va ;;
      pa0 <- (if decide (pa0 = 0) then vmfault kend root va 0 else ret pa0) ;; K pa0) s Q.
Proof.
  intros Hus Hgu Hcur Hva HK0 HK. pose proof (us_top _ _ _ _ _ _ Hus) as HM. wp_go.
  eapply wp_ok; [apply (walkaddr_look s l T root top va Hus); lia|]. wp_go.
  destruct (decide (va < MAXVA ∧ valid (pte s T va) ∧ user_ok (pte s T va))) as [(Hm & Hv & Hu)|Hno].
  - assert (va < top) as Ht by (destruct (decide (va < top)); [done|]; destruct (Hgu va); [lia|lia|done]).
    destruct (us_data _ _ _ _ _ _ Hus va ltac:(lia) Hv) as ((_ & _ & _ & ?) & _).
    rewrite decide_False by lia. apply wp_ret. apply (HK s l T); [by apply ugrow_refl|lia|done|done|lia].
  - rewrite decide_True by done. eapply wp_mono; [by apply vmfault_spec|].
    intros r s' (l' & T' & Hug & [->|(Hnz & Hlt & Hnv & Hp & Hpg & _)]).
    { eapply HK0; [done|]. intros Ht [? ?]. apply Hno. split_and!; [lia|done|done]. }
    destruct (page_ok_56 kend r Hpg) as (? & ? & ?). pose proof (uc_size _ _ _ _ Hcur).
    replace r with (PTE2PA (pte s' T' va)) by (rewrite Hp; by apply leaf_pte_pa).
    apply (HK s' l' T'); rewrite ?Hp; [done|lia|by apply leaf_pte_valid|by apply leaf_user|by rewrite leaf_pte_pa].
Qed.

(** What a copy to [len] bytes from [va0] leaves of user memory. *)
Record copied (s : S) (l : list Z) (T : ptree) (root top va0 len : Z) (s' : S) (l' : list Z) (T' : ptree) : Prop := mkCopied {
  cp_ok : us_ok s' l' T' root top;
  cp_state : vstate s s';
  cp_guard : top_guard s' T' top;
  cp_keep : ∀ va b, 0 ≤ va < top → (va < va0 ∨ va0 + len ≤ va) → ul s T va = Some b → ul s' T' va = Some b;
  cp_pte : ∀ va, 0 ≤ va < top → valid (pte s T va) → pte s' T' va = pte s T va;
  cp_private : private s l T top s' l' T';
}.

(** User code may store at [va]. *)
Definition uwritable (m : mem) (T : ptree) (va : Z) : Prop :=
  let e := pte_at m T va in valid e ∧ user_ok e ∧ Z.land e PTE_W ≠ 0.

Lemma uload_valid m T va b : uload m T va = Some b → valid (pte_at m T va).
Proof. unfold uload. case_decide; [tauto|done]. Qed.

Lemma copied_ugrow s l T root top va0 len s' l' T' :
  ugrow s l T root top s' l' T' → copied s l T root top va0 len s' l' T'.
Proof.
  intros [? ? ? Hk ?]. split; try done.
  - intros va b Hva _ Hb. destruct (Hk va Hva (uload_valid _ _ _ _ Hb)). congruence.
  - intros va Hva Hv. by apply Hk.
Qed.

(** Storing [n] bytes in the page of [va], which lies inside that page. *)
Lemma copied_write s l T root top va src (n : nat) :
  us_ok s l T root top → top_guard s T top → 0 ≤ va < top → length src = n →
  va mod PGSIZE + Z.of_nat n ≤ PGSIZE → valid (pte s T va) → user_ok (pte s T va) →
  let s' := with_pm (mkPmem (write_bytes (bytes_of s) (PTE2PA (pte s T va) + va mod PGSIZE) src) (freelist (pm_of s))) s in
  copied s l T root top va (Z.of_nat n) s' l T ∧ (∀ va', pte s' T va' = pte s T va') ∧
  ∀ j, (j < n)%nat → ul s' T (va + Z.of_nat j) = Some (u8 (src !!! j)).
Proof.
  intros Hus Hgu Hva Hlen Hn Hv Hu s'. pose proof (us_top _ _ _ _ _ _ Hus) as HM.
  set (pa := PTE2PA (pte s T va)) in *. set (f := λ m, write_bytes m (pa + va mod PGSIZE) src).
  pose proof (Z.mod_pos_bound va PGSIZE ltac:(done)) as Hmod.
  destruct (us_ok_write kend s l T root top va f Hus Hva Hv) as (Hus' & Hp & Hk).
  { intros a Ha. unfold f. rewrite write_bytes_spec, decide_False; [done|]. unfold in_page in Ha. fold pa in Ha. lia. }
  change (with_pm (mkPmem (f (bytes_of s)) (freelist (pm_of s))) s) with s' in Hus', Hp, Hk.
  assert (∀ va', 0 ≤ va' < top → va' / 4096 = va / 4096 → pte s T va' = pte s T va) as Hsame
    by (intros; apply pte_same_page; lia || done).
  assert (∀ va', va' / 4096 = va / 4096 → va' - va' mod PGSIZE = va - va mod PGSIZE) as Hoff
    by (unfold PGSIZE; intros; Z.div_mod_to_equations; lia).
  split_and!; [|done|].
  - split; [done|apply vstate_pm|intros va' ? ?; rewrite Hp; by apply Hgu| |by intros|].
    2:{ intros p [Hd Hno]. split; [split; [done|]; intros va'; rewrite Hp; apply Hno|].
        intros x Hx. unfold s'. st_simpl. simpl. rewrite write_bytes_spec, decide_False; [done|]. intros Hin.
        apply (pages_disjoint kend p pa x); [apply Hd|apply (us_data _ _ _ _ _ _ Hus va Hva Hv)|symmetry; by apply Hno|done|].
        unfold in_page. lia. }
    intros va' b Hva' Hout Hb. destruct (decide (va' / 4096 = va / 4096)) as [E|E]; [|by rewrite Hk].
    rewrite <- Hb. unfold uload. rewrite Hp, (Hsame va') by done. fold pa. case_decide; [|done]. f_equal.
    unfold s'. st_simpl. simpl. rewrite write_bytes_spec, decide_False; [done|]. specialize (Hoff va' E). lia.
  - intros j Hj. assert ((va + Z.of_nat j) / 4096 = va / 4096) as E.
    { unfold PGSIZE in *. Z.div_mod_to_equations. lia. }
    assert ((va + Z.of_nat j) mod PGSIZE = va mod PGSIZE + Z.of_nat j) as Em by (specialize (Hoff _ E); lia).
    unfold uload. rewrite Hp. unfold pte_at. pose proof (same_page va (va + Z.of_nat j)) as Hsp.
    assert (pte s T (va + Z.of_nat j) = pte s T va) as Ep.
    { destruct (decide (va + Z.of_nat j < MAXVA)); [apply pte_same_page; lia || done|].
      exfalso. change MAXVA with (2 ^ 26 * 4096) in *. Z.div_mod_to_equations. lia. }
    fold (pte s T (va + Z.of_nat j)). rewrite Ep. fold pa. rewrite decide_True by done. f_equal.
    unfold s'. st_simpl. simpl. rewrite write_bytes_spec, Em, decide_True by lia. do 2 f_equal. lia.
Qed.

(** The state a copy starts from. *)
Record copy_pre (s : S) (l : list Z) (T : ptree) (root top size : Z) : Prop := mkCopyPre {
  pre_ok : us_ok s l T root top;
  pre_guard : top_guard s T top;
  pre_cur : ucur s root top size;
}.

Lemma copy_pre_ugrow s l T root top size s' l' T' :
  copy_pre s l T root top size → ugrow s l T root top s' l' T' → copy_pre s' l' T' root top size.
Proof. intros [? ? ?] [? ? ? ? ?]. split; try done. by eapply ucur_vstate. Qed.

Lemma copy_pre_copied s l T root top size va len s' l' T' :
  copy_pre s l T root top size → copied s l T root top va len s' l' T' → copy_pre s' l' T' root top size.
Proof. intros [? ? ?] [? ? ? ? ? ?]. split; try done. by eapply ucur_vstate. Qed.

Lemma copied_trans s1 l1 T1 root top va n m s2 l2 T2 s3 l3 T3 :
  0 ≤ n → 0 ≤ m →
  copied s1 l1 T1 root top va n s2 l2 T2 → copied s2 l2 T2 root top (va + n) m s3 l3 T3 →
  copied s1 l1 T1 root top va (n + m) s3 l3 T3.
Proof.
  intros Hn Hm [? ? ? K1 P1 ?] [? ? ? K2 P2 ?]. split; [done|by eapply vstate_trans|done| | |by eapply private_trans].
  - intros va' b Hva Hout Hb. apply K2; [done|lia|]. apply K1; [done|lia|done].
  - intros va' Hva Hv. rewrite P2, P1; [done|done|done|done|]. by rewrite P1.
Qed.

Lemma copied_weaken s l T root top va n m s' l' T' :
  n ≤ m → copied s l T root top va n s' l' T' → copied s l T root top va m s' l' T'.
Proof. intros Hm [? ? ? K ? ?]. split; try done. intros va' b Hva Hout Hb. apply K; [done|lia|done]. Qed.

(** One chunk and the rest: the rest starts where the chunk ends, unless
    nothing is left. *)
Lemma copied_join s l T root top dst n len next s2 l2 T2 s3 l3 T3 :
  0 < n ≤ len → dst + n ≤ next → (n < len → next = dst + n) →
  copied s l T root top dst n s2 l2 T2 → copied s2 l2 T2 root top next (len - n) s3 l3 T3 →
  copied s l T root top dst len s3 l3 T3 ∧
  ∀ va b, 0 ≤ va < top → dst ≤ va < dst + n → ul s2 T2 va = Some b → ul s3 T3 va = Some b.
Proof.
  intros Hn Hnext Hnext' [? ? ? K1 P1 ?] [? ? ? K2 P2 ?]. split.
  - split; [done|by eapply vstate_trans|done| | |by eapply private_trans].
    + intros va b Hva Hout Hb. apply K2; [done|lia|]. apply K1; [done|lia|done].
    + intros va Hva Hv. rewrite P2, P1; [done|done|done|done|]. by rewrite P1.
  - intros va b Hva Hin Hb. apply K2; [done|lia|done].
Qed.

(** Page arithmetic of one iteration. *)
Lemma chunk_bounds va len : 0 ≤ va < 2 ^ 64 → 0 < len →
  let va0 := va / 4096 * 4096 in
  let n := if decide (PGSIZE - (va - va0) > len) then len else PGSIZE - (va - va0) in
  0 < n ≤ len ∧ va - va0 = va mod PGSIZE ∧ va mod PGSIZE + n ≤ PGSIZE ∧ 0 ≤ va0 ≤ va ∧
  va0 / 4096 = va / 4096 ∧ (n < len → va0 + PGSIZE = va + n).
Proof.
  intros Hva Hlen va0 n. assert (va - va0 = va mod 4096) as E by (unfold va0; Z.div_mod_to_equations; lia).
  pose proof (Z.mod_pos_bound va 4096 ltac:(lia)). assert (va0 / 4096 = va / 4096) by (unfold va0; by rewrite Z.div_mul).
  assert (0 ≤ va0) by (unfold va0; Z.div_mod_to_equations; lia).
  unfold n, PGSIZE. case_decide; split_and!; lia || done.
Qed.

Lemma in_top top va j : top mod PGSIZE = 0 → 0 ≤ va < top → va mod PGSIZE + j < PGSIZE → 0 ≤ j → 0 ≤ va + j < top.
Proof.
  unfold PGSIZE. intros Ht Hva Hj Hj0. apply Z.mod_divide in Ht as [x ->]; [|lia]. Z.div_mod_to_equations. lia.
Qed.

Lemma copyout_loop_spec fuel : ∀ dst src s l T root top size,
  copy_pre s l T root top size → 0 ≤ dst → dst + Z.of_nat (length src) < 2 ^ 64 → (length src < fuel)%nat →
  wp (copyout_loop kend fuel root dst src (Z.of_nat (length src))) s (λ r s', ∃ l' T',
    copied s l T root top dst (Z.of_nat (length src)) s' l' T' ∧
    (r = -1 ∧ (dst + Z.of_nat (length src) ≤ top → ∃ j, 0 ≤ j < Z.of_nat (length src) ∧ ¬ uwritable (bytes_of s) T (dst + j)) ∨
     r = 0 ∧ ∀ j, (j < length src)%nat → ul s' T' (dst + Z.of_nat j) = Some (u8 (src !!! j)))).
Proof.
  induction fuel as [|fuel IH]; intros dst src s l T root top size Hpre Hd Hov Hf; [lia|].
  pose proof Hpre as [Hus Hgu Hcur]. pose proof (us_top _ _ _ _ _ _ Hus) as HM. assert (MAXVA = 2 ^ 38) as EM by done.
  cbn [copyout_loop]. case_decide as Hlen.
  2:{ apply wp_ret. exists l, T. split; [by apply copied_ugrow, ugrow_refl|]. right. split; [done|]. lia. }
  rewrite PGROUNDDOWN_spec by lia.
  destruct (chunk_bounds dst (Z.of_nat (length src)) ltac:(lia) ltac:(lia)) as (Hn & Eoff & Hfit & Hva0 & Epg & Hnext).
  set (va0 := dst / 4096 * 4096) in *. set (n := if decide (PGSIZE - (dst - va0) > _) then _ else _) in *.
  case_decide as Hmax. { apply wp_ret. exists l, T. split; [by apply copied_ugrow, ugrow_refl|left; split; [done|lia]]. }
  eapply (fault_in s l T root top size va0 _ _ Hus Hgu Hcur); [lia| |].
  { intros s1 l1 T1 Hug Hno. rewrite decide_True by done. apply wp_ret. exists l1, T1. split; [by apply copied_ugrow|].
    left. split; [done|]. intros Ht. exists 0. split; [lia|]. rewrite Z.add_0_r. unfold uwritable.
    rewrite (pte_same_page _ _ dst va0) by (lia || done). intros (? & ? & _). apply Hno; [lia|done]. }
  intros s1 l1 T1 Hug Hvt Hv Hu Hnz. rewrite decide_False by done. pose proof (ug_ok _ _ _ _ _ _ _ _ Hug) as Hus1.
  wp_go. eapply wp_ok; [apply (walk_look kend va0 s1 T1 root); [lia|apply Hus1]|].
  unfold pte_addr. destruct (T1 !! leaf_path va0) as [q|] eqn:Hq.
  2:{ exfalso. unfold pte_at in Hv. rewrite Hq in Hv. by eapply valid_0. }
  assert (q + 8 * PX 0 va0 ≠ 0).
  { pose proof (PX_idx 0 va0 ltac:(lia)). pose proof (grows_look kend s1 l1 T1 root _ q (us_vm _ _ _ _ _ _ Hus1) Hq) as (_ & _ & _ & ?).
    unfold idx_ok in *. lia. }
  rewrite decide_False by done. unfold ld64. wp_go.
  assert (∀ va, 0 ≤ va < top → ¬ uwritable (bytes_of s1) T1 va → ¬ uwritable (bytes_of s) T va) as Hwr.
  { intros va Hva Hnn (Hv' & Hu' & Hw'). apply Hnn. destruct (ug_keep _ _ _ _ _ _ _ _ Hug va Hva Hv') as [E _].
    unfold uwritable. by rewrite E. }
  case_decide as Hnw.
  { apply wp_ret. exists l1, T1. split; [by apply copied_ugrow|left; split; [done|]]. intros Ht. exists 0.
    split; [lia|]. rewrite Z.add_0_r. apply Hwr; [lia|]. unfold uwritable.
    rewrite (pte_same_page _ _ dst va0) by (lia || done). intros (_ & _ & Hw). apply Hw. unfold pte_at. by rewrite Hq. }
  wp_go. apply wp_mod_bytes. rewrite Eoff.
  assert (dst < top) as Hdt.
  { pose proof (uc_top _ _ _ _ Hcur) as Htp. unfold PGSIZE in *. apply Z.mod_divide in Htp as [x ->]; [|lia].
    Z.div_mod_to_equations. lia. }
  assert (pte s1 T1 va0 = pte s1 T1 dst) as Ep by (apply pte_same_page; lia || done). rewrite Ep in *.
  destruct (copied_write s1 l1 T1 root top dst (take (Z.to_nat n) src) (Z.to_nat n)) as (Hc & Hp2 & Hw);
    [done|apply Hug|lia|rewrite length_take; lia|lia|done|done|].
  set (s2 := with_pm _ s1) in *. rewrite Z2Nat.id in Hc by lia.
  assert (copied s l T root top dst n s2 l1 T1) as Hc02.
  { pose proof (copied_trans s l T root top dst 0 n s1 l1 T1 s2 l1 T1 ltac:(lia) ltac:(lia)) as Ht.
    rewrite Z.add_0_r in Ht. by apply Ht; [apply copied_ugrow|]. }
  assert (Z.of_nat (length src) - n = Z.of_nat (length (drop (Z.to_nat n) src))) as El by (rewrite length_drop; lia).
  rewrite El. unfold u64. rewrite wrap_small by (unfold PGSIZE in *; lia).
  eapply wp_mono; [apply (IH _ _ s2 l1 T1 root top size)|].
  - by eapply copy_pre_copied.
  - unfold PGSIZE; lia.
  - destruct (decide (n < Z.of_nat (length src))); [rewrite Hnext by done; lia|unfold PGSIZE; lia].
  - rewrite length_drop. lia.
  - intros r s3 (l3 & T3 & Hc3 & Hr). exists l3, T3.
    rewrite <- El in Hc3.
    destruct (copied_join s l T root top dst n (Z.of_nat (length src)) (va0 + PGSIZE) s2 l1 T1 s3 l3 T3) as [Hc13 Hw3];
      [done|lia|done|done|done|].
    split; [done|]. destruct Hr as [[-> Hr]|[-> Hr]]; [left|right]; (split; [done|]).
    { intros Ht. rewrite <- El in Hr. destruct (decide (n < Z.of_nat (length src))) as [Hlt|Hge].
      - rewrite Hnext in Hr by done. destruct (Hr ltac:(lia)) as (j & Hj & Hn'). exists (n + j). split; [lia|].
        apply Hwr; [lia|]. unfold uwritable in *. rewrite Hp2 in Hn'. by rewrite Z.add_assoc.
      - assert (va0 + PGSIZE ≤ top).
        { pose proof (uc_top _ _ _ _ Hcur) as Htp. unfold PGSIZE in *. apply Z.mod_divide in Htp as [x ->]; [|lia].
          Z.div_mod_to_equations. lia. }
        destruct (Hr ltac:(lia)) as (j & Hj & _). lia. }
    intros j Hj.
    destruct (decide (j < Z.to_nat n)%nat) as [Hjn|Hjn].
    { apply Hw3; [|lia|rewrite Hw by done; by rewrite lookup_total_take_lt].
      apply in_top; [apply (uc_top _ _ _ _ Hcur)|lia|lia|lia]. }
    specialize (Hr (j - Z.to_nat n)%nat). rewrite length_drop in Hr. specialize (Hr ltac:(lia)).
    rewrite lookup_total_drop in Hr. rewrite Hnext in Hr by lia.
    replace (dst + n + Z.of_nat (j - Z.to_nat n)) with (dst + Z.of_nat j) in Hr by lia.
    by replace (Z.to_nat n + (j - Z.to_nat n))%nat with j in Hr by lia.
Qed.

(** [copyin] reads [len] bytes that user code sees. *)
Lemma copyin_loop_spec fuel : ∀ src len acc s l T root top size,
  copy_pre s l T root top size → 0 ≤ src → 0 ≤ len → src + len < 2 ^ 64 → len < Z.of_nat fuel →
  wp (copyin_loop kend fuel root src len acc) s (λ r s', ∃ l' T' bs,
    ugrow s l T root top s' l' T' ∧ r.2 = acc ++ bs ∧
    (∀ j b, bs !! j = Some b → ul s' T' (src + Z.of_nat j) = Some b) ∧
    Z.of_nat (length bs) ≤ len ∧
    ((r.1 = -1 ∧ (src + len ≤ top → ∃ j, 0 ≤ j < len ∧ ul s T (src + j) = None)) ∨
     r.1 = 0 ∧ Z.of_nat (length bs) = len)).
Proof.
  induction fuel as [|fuel IH]; intros src len acc s l T root top size Hpre Hsrc Hl Hov Hf; [lia|].
  pose proof Hpre as [Hus Hgu Hcur]. pose proof (us_top _ _ _ _ _ _ Hus) as HM. assert (MAXVA = 2 ^ 38) as EM by done.
  cbn [copyin_loop]. case_decide as Hlen.
  2:{ apply wp_ret. exists l, T, []. split_and!; [by apply ugrow_refl|by rewrite app_nil_r|done|simpl; lia|right; simpl; lia]. }
  rewrite PGROUNDDOWN_spec by lia.
  destruct (chunk_bounds src len ltac:(lia) ltac:(lia)) as (Hn & Eoff & Hfit & Hva0 & Epg & Hnext).
  set (va0 := src / 4096 * 4096) in *. set (n := if decide (PGSIZE - (src - va0) > _) then _ else _) in *.
  eapply (fault_in s l T root top size va0 _ _ Hus Hgu Hcur); [lia| |].
  { intros s1 l1 T1 Hug Hno. rewrite decide_True by done. apply wp_ret. exists l1, T1, [].
    split_and!; [done|by rewrite app_nil_r|done|simpl; lia|left; split; [done|]]. intros Ht. exists 0.
    split; [lia|]. rewrite Z.add_0_r. unfold uload. rewrite decide_False; [done|].
    rewrite (pte_same_page _ _ src va0) by (lia || done). apply Hno. lia. }
  intros s1 l1 T1 Hug Hvt Hv Hu Hnz. rewrite decide_False by done. unfold get_bytes. wp_go. rewrite Eoff.
  assert (src < top) as Hdt.
  { pose proof (uc_top _ _ _ _ Hcur) as Htp. unfold PGSIZE in *. apply Z.mod_divide in Htp as [x ->]; [|lia].
    Z.div_mod_to_equations. lia. }
  assert (pte s1 T1 va0 = pte s1 T1 src) as Ep by (apply pte_same_page; lia || done). rewrite Ep in *.
  set (bs := read_bytes (bytes_of s1) (PTE2PA (pte s1 T1 src) + src mod PGSIZE) (Z.to_nat n)).
  assert (∀ j b, bs !! j = Some b → 0 ≤ src + Z.of_nat j < top ∧ ul s1 T1 (src + Z.of_nat j) = Some b) as Hbs.
  { intros j b Hj. pose proof (lookup_lt_Some _ _ _ Hj) as Hlt. unfold bs in Hj, Hlt. rewrite read_bytes_length in Hlt.
    rewrite read_bytes_lookup in Hj by done. injection Hj as <-.
    assert (0 ≤ src + Z.of_nat j < top) as Hjt by (apply in_top; [apply (uc_top _ _ _ _ Hcur)|lia|lia|lia]).
    split; [done|]. assert ((src + Z.of_nat j) mod PGSIZE = src mod PGSIZE + Z.of_nat j ∧ (src + Z.of_nat j) / 4096 = src / 4096) as [Em Ed].
    { unfold PGSIZE in *. Z.div_mod_to_equations. lia. }
    unfold uload. rewrite (pte_same_page _ _ (src + Z.of_nat j) src) by (lia || done).
    rewrite decide_True by done. rewrite Em. do 2 f_equal. lia. }
  unfold u64. rewrite wrap_small by (unfold PGSIZE in *; lia).
  eapply wp_mono; [apply (IH (va0 + PGSIZE) (len - n) _ s1 l1 T1 root top size)|].
  - by eapply copy_pre_ugrow.
  - unfold PGSIZE; lia.
  - lia.
  - destruct (decide (n < len)); [rewrite Hnext by done; lia|unfold PGSIZE; lia].
  - lia.
  - intros [r acc'] s2 (l2 & T2 & bs2 & Hug2 & Eacc & Hb2 & Hle & Hr). simpl in *. exists l2, T2, (bs ++ bs2). subst acc'.
    assert (length bs = Z.to_nat n) as Elen by (unfold bs; apply read_bytes_length).
    split_and!; [by eapply ugrow_trans|by rewrite (assoc_L (++))| |rewrite length_app; lia|].
    + intros j b [Hj|[Hge Hj]]%lookup_app_Some.
      * destruct (Hbs j b Hj) as [Hjt Hjb]. destruct (ug_keep _ _ _ _ _ _ _ _ Hug2 _ Hjt (uload_valid _ _ _ _ Hjb)) as [_ ->]. done.
      * pose proof (lookup_lt_Some _ _ _ Hj). specialize (Hb2 _ _ Hj). rewrite Elen in Hb2, Hge.
        rewrite Hnext in Hb2 by lia. rewrite <- Hb2. f_equal. lia.
    + destruct Hr as [[-> Hr]|[-> Hr]]; [left|right]; (split; [done|]); [|rewrite length_app; lia].
      intros Ht. destruct (decide (n < len)) as [Hlt|Hge].
      * rewrite Hnext in Hr by done. destruct (Hr ltac:(lia)) as (j & Hj & Hnone). exists (n + j). split; [lia|].
        rewrite Z.add_assoc. destruct (ul s T (src + n + j)) as [b|] eqn:Eb; [|done].
        destruct (ug_keep _ _ _ _ _ _ _ _ Hug (src + n + j)) as [_ E]; [lia|by eapply uload_valid|]. congruence.
      * assert (va0 + PGSIZE ≤ top).
        { pose proof (uc_top _ _ _ _ Hcur) as Htp. unfold PGSIZE in *. apply Z.mod_divide in Htp as [x ->]; [|lia].
          Z.div_mod_to_equations. lia. }
        destruct (Hr ltac:(lia)) as (j & Hj & _). lia.
Qed.

(** A whole range that user code can read is copied without a change of state. *)
Lemma read_chunk s T va bs n : 0 ≤ va → va + Z.of_nat (length bs) ≤ MAXVA → reads_at (bytes_of s) T va bs → 0 < n ≤ Z.of_nat (length bs) →
  va mod PGSIZE + n ≤ PGSIZE →
  valid (pte s T va) ∧ user_ok (pte s T va) ∧
  read_bytes (bytes_of s) (PTE2PA (pte s T va) + va mod PGSIZE) (Z.to_nat n) = take (Z.to_nat n) bs.
Proof.
  intros Hva Htop Hr Hn Hfit.
  assert (∀ j b, (j < Z.to_nat n)%nat → bs !! j = Some b →
    valid (pte s T va) ∧ user_ok (pte s T va) ∧ b = bytes_of s (PTE2PA (pte s T va) + va mod PGSIZE + Z.of_nat j)) as Hj.
  { intros j b Hjn Hb. apply Hr in Hb. unfold uload in Hb.
    assert ((va + Z.of_nat j) mod PGSIZE = va mod PGSIZE + Z.of_nat j ∧ (va + Z.of_nat j) / 4096 = va / 4096) as [Em Ed].
    { unfold PGSIZE in *. Z.div_mod_to_equations. lia. }
    rewrite (pte_same_page _ _ (va + Z.of_nat j) va), Em in Hb by (lia || done). case_decide as Hv; [|done]. injection Hb as <-.
    split_and!; [tauto|tauto|]. f_equal. lia. }
  destruct (lookup_lt_is_Some_2 bs 0%nat) as [b0 Hb0]; [lia|]. destruct (Hj 0%nat b0) as (Hv & Hu & _); [lia|done|].
  split_and!; [done|done|]. apply list_eq. intros j. destruct (decide (j < Z.to_nat n)%nat) as [Hlt|Hge].
  - rewrite read_bytes_lookup, lookup_take_lt by done. destruct (lookup_lt_is_Some_2 bs j) as [b Hb]; [lia|].
    rewrite Hb. f_equal. symmetry. by apply Hj.
  - rewrite lookup_take_ge, lookup_ge_None_2 by (rewrite ?read_bytes_length; lia). done.
Qed.

Lemma copyin_present s l T root top : us_ok s l T root top → ∀ fuel va bs acc,
  bs = [] ∨ 0 ≤ va ∧ va + Z.of_nat (length bs) ≤ top → reads_at (bytes_of s) T va bs → (length bs < fuel)%nat →
  copyin_loop kend fuel root va (Z.of_nat (length bs)) acc s = Ok (0, acc ++ bs) s.
Proof.
  intros Hus. pose proof (us_top _ _ _ _ _ _ Hus) as HM. assert (MAXVA = 2 ^ 38) as EM by done.
  induction fuel as [|fuel IH]; intros va bs acc Hva Hr Hf; [lia|]. cbn [copyin_loop]. case_decide as Hlen.
  2:{ destruct bs; [by rewrite app_nil_r|simpl in Hlen; lia]. }
  destruct Hva as [->|[Hva Htop]]; [simpl in Hlen; lia|]. rewrite PGROUNDDOWN_spec by lia.
  destruct (chunk_bounds va (Z.of_nat (length bs)) ltac:(lia) ltac:(lia)) as (Hn & Eoff & Hfit & Hva0 & Epg & Hnext).
  set (va0 := va / 4096 * 4096) in *. set (n := if decide (PGSIZE - (va - va0) > _) then _ else _) in *.
  destruct (read_chunk s T va bs n) as (Hv & Hu & Hc); [lia|lia|done|lia|done|].
  assert (pte s T va0 = pte s T va) as Ep by (apply pte_same_page; lia || done).
  assert (walkaddr root va0 s = Ok (PTE2PA (pte s T va)) s) as Ew.
  { rewrite (walkaddr_look s l T root top va0 Hus) by lia. rewrite Ep, decide_True by (split; [lia|done]). done. }
  rewrite (bind_ok _ _ _ _ _ Ew). clear Ew.
  destruct (us_data _ _ _ _ _ _ Hus va ltac:(lia) Hv) as ((_ & _ & _ & Hpos) & _).
  rewrite decide_False by lia. erewrite bind_ok by done. rewrite decide_False by lia. unfold get_bytes.
  erewrite bind_ok by done. rewrite Eoff, Hc.
  assert (Z.of_nat (length bs) - n = Z.of_nat (length (drop (Z.to_nat n) bs))) as -> by (rewrite length_drop; lia).
  rewrite IH; [by rewrite <- (assoc_L (++)), take_drop| | |rewrite length_drop; lia].
  - destruct (decide (n < Z.of_nat (length bs))) as [Hlt|Hge]; [right|left; apply drop_ge; lia].
    rewrite Hnext by done. unfold u64. rewrite wrap_small by lia. rewrite length_drop. lia.
  - intros j b Hj. rewrite lookup_drop in Hj. pose proof (lookup_lt_Some _ _ _ Hj) as Hlt. apply Hr in Hj. rewrite <- Hj.
    rewrite Hnext by lia. unfold u64. rewrite wrap_small by lia. f_equal. lia.
Qed.

End Copy.
