(* ===== verification/AddressSpace.v ===== *)
(** * What the virtual-memory functions promise

    The theorems on kernel/vm.c, stated on the whole kernel state, with one
    concrete address space on which they are applied. *)

From S2P Require Import Prelude Params CString Spinlock ProcDefs Sched Memory Kalloc PageTable Vm VmSpec UserMem UserAlloc CopyUser.

(** ** An empty address space and eight free pages *)

Definition ex_page (i : Z) : Z := KERNBASE + i * PGSIZE.
Definition ex_free : list Z := ex_page <$> [1; 2; 3; 4; 5; 6; 7; 8].
Definition ex_root : Z := ex_page 9.

Definition ex_links : mem :=
  foldr (λ i m, store64 m (ex_page i) (ex_page (i + 1))) (λ _, 0) [1; 2; 3; 4; 5; 6; 7].

Definition ex_vm_proc : proc := set_pagetable ex_root (set_sz 8192 (ex_proc 1 RUNNING)).
Definition ex_vm_table : ptab := upd_proc 1 (λ _, ex_vm_proc) ex_table.
Definition ex_vm_hw : hw :=
  mkHw 0 (cpus ex_hw) (<[L_kmem := mkSpinlock false "kmem" None]> (<[L_pipe (ex_page 13) := mkSpinlock false "pipe" None]> ex_locks)).
Definition ex_vm : kmemst := mkKmem ex_vm_hw ex_vm_table (mkPmem ex_links (ex_page 1)).

Lemma ex_vm_can_alloc : can_alloc ex_vm.
Proof. split; [eexists; split; [reflexivity|simpl; lia]|by eexists]. Qed.

Lemma ex_kmem_ok : kmem_ok KERNBASE (km_pm ex_vm) ex_free.
Proof.
  split; [|apply (bool_decide_unpack _); vm_compute; exact I].
  cbn [flist ex_free fmap list_fmap]. unfold page_ok, PHYSTOP, KERNBASE. split_and!; vm_compute; done.
Qed.

Lemma ex_links_root a : in_page ex_root a → ex_links a = 0.
Proof.
  unfold in_page, ex_root, ex_page, ex_links, PGSIZE, KERNBASE. intros Ha. simpl foldr.
  rewrite !store64_out by (unfold ex_page, PGSIZE, KERNBASE; lia). done.
Qed.

Lemma ex_wf : pt_wf KERNBASE ex_links {[[] := ex_root]} ex_root.
Proof.
  split.
  - apply lookup_singleton_eq.
  - intros x q [<- <-]%lookup_singleton_Some. unfold page_ok. split_and!; vm_compute; done.
  - intros x q [<- <-]%lookup_singleton_Some. simpl. split; [lia|constructor].
  - intros x y q [<- <-]%lookup_singleton_Some [<- _]%lookup_singleton_Some. done.
  - intros x i q [E _]%lookup_singleton_Some. by destruct x.
  - intros x q i [<- <-]%lookup_singleton_Some _ Hi. rewrite lookup_singleton_ne by done. unfold load64.
    rewrite (load_le_ext _ (λ _, 0)); [by rewrite load_le_zero|].
    intros a Ha. apply ex_links_root. unfold in_page, PGSIZE, idx_ok in *. lia.
Qed.

Lemma ex_vm_ok : vm_ok KERNBASE ex_vm ex_free {[[] := ex_root]} ex_root.
Proof.
  split; [exact ex_vm_can_alloc|exact ex_kmem_ok|exact ex_wf|].
  intros x q [<- <-]%lookup_singleton_Some. apply (bool_decide_unpack _). vm_compute. exact I.
Qed.

Lemma ex_pte m va : pte_at m {[[] := ex_root]} va = 0.
Proof. unfold pte_at. by rewrite lookup_singleton_ne. Qed.

Lemma ex_us_ok : us_ok KERNBASE ex_vm ex_free {[[] := ex_root]} ex_root TRAPFRAME.
Proof.
  split; [exact ex_vm_ok|done| |]; intros va; rewrite ex_pte; [intros _ Hv|intros va' _ _ Hv]; by eapply valid_0 in Hv.
Qed.

Lemma ex_copy_pre : copy_pre KERNBASE ex_vm ex_free {[[] := ex_root]} ex_root TRAPFRAME 8192.
Proof.
  split; [exact ex_us_ok| |].
  - intros va _ _. rewrite ex_pte. intros [Hv _]. by eapply valid_0.
  - split; [apply ex_vm_can_alloc| |done|done]. by eexists _, _.
Qed.

(** ** The theorems *)

(** [mappages] on page-aligned addresses never panics: it either installs
    an entry for every page of the range and returns 0, or runs out of free
    pages, returns -1 and has installed a prefix.  No other entry changes, the
    page table stays well-formed, every page it takes from the free list
    becomes a page-table page, and memory that is neither a table nor free is
    untouched. *)
Theorem mappages_installs (kend va pa perm root : Z) (n : nat) (s : kmemst) (l : list Z) (T : ptree) :
  vm_ok kend s l T root → va mod PGSIZE = 0 → 0 ≤ va → (0 < n)%nat → va + Z.of_nat n * PGSIZE ≤ MAXVA →
  pa mod PGSIZE = 0 → 0 ≤ pa → pa + Z.of_nat n * PGSIZE ≤ 2 ^ 56 → 0 ≤ perm < 1024 →
  (∀ va', in_range va n va' → ¬ valid (pte_at (bytes (pm_of s)) T va')) →
  ∃ r s' l' T' k, mappages root va (Z.of_nat n * PGSIZE) pa perm s = Ok r s' ∧
    vm_ok kend s' l' T' root ∧
    (∀ va', 0 ≤ va' < MAXVA →
       pte_at (bytes (pm_of s')) T' va' = mapped va k pa perm (pte_at (bytes (pm_of s)) T) va') ∧
    (r = 0 ∧ k = n ∨ r = -1 ∧ (k < n)%nat ∧ l' = []) ∧
    (∀ p, p ∈ l → p ∈ l' ∨ ∃ x, T' !! x = Some p) ∧
    (∀ a, off_tree T a → outside l a → bytes (pm_of s') a = bytes (pm_of s) a).
Proof.
  intros Hok Ha Ha0 Hn Hmax Hpa Hpa0 Hpmax Hperm Hinv.
  pose proof (mappages_spec kend va n pa perm s l T root Hok Ha Ha0 Hn Hmax Hpa Hpa0 Hpmax Hperm
    (λ va' Hr, not_valid _ (Hinv va' Hr))) as (r & s' & E & l' & T' & k & Hg & Hp & Hr)%wp_elim.
  exists r, s', l', T', k. split_and!; [done|apply Hg|done|done| |apply Hg].
  intros p Hp'. destruct (g_acct _ _ _ _ _ _ _ _ _ Hg p Hp') as [?|[?|?%not_elem_of_nil]]; auto; done.
Qed.

Lemma mappages_installs_witness :
  ∃ r s', mappages ex_root 4096 (2 * PGSIZE) 2147545088 (Z.lor PTE_R PTE_U) ex_vm = Ok r s' ∧ (r = 0 ∨ r = -1).
Proof.
  destruct (mappages_installs KERNBASE 4096 2147545088 (Z.lor PTE_R PTE_U) ex_root 2 ex_vm ex_free {[[] := ex_root]}
    ex_vm_ok) as (r & s' & l' & T' & k & E & _ & _ & Hr & _).
  - reflexivity.
  - lia.
  - lia.
  - vm_compute. discriminate.
  - reflexivity.
  - lia.
  - vm_compute. discriminate.
  - vm_compute. split; [discriminate|reflexivity].
  - intros va' _. rewrite ex_pte. exact valid_0.
  - exists r, s'. split; [exact E|]. destruct Hr as [[Hr _]|(Hr & _)]; [left; exact Hr|right; exact Hr].
Defined.

(** C31 [uvmalloc] grows an address space or leaves it as it was.  On success
    every page between the rounded old and new sizes is mapped, readable,
    accessible to user code, to a zeroed page of its own; on failure (0)
    exactly the pages that were mapped before are mapped.  In both cases the
    rest of user memory is unchanged and no free page is lost: it is still
    free, a page-table page or one of the new pages. *)
Theorem uvmalloc_all_or_nothing (kend root top oldsz newsz xperm : Z) (s : kmemst) (l : list Z) (T : ptree) :
  us_ok kend s l T root top → 0 ≤ oldsz ≤ newsz → page_up newsz ≤ top → 0 ≤ xperm < 1024 →
  let o := page_up oldsz in
  let n := Z.to_nat ((page_up newsz - o) / PGSIZE) in
  (∀ va, in_range o n va → ¬ valid (pte_at (bytes (pm_of s)) T va)) →
  ∃ r s' l' T', uvmalloc kend root oldsz newsz xperm s = Ok r s' ∧
    (r = newsz ∧ alloc_inv kend s l T root top o (zeroed (ualloc_perm xperm)) n s' l' T' ∨
     r = 0 ∧ restored kend s l T root top s' l' T').
Proof.
  intros Hus Hsz Htop Hx o n Hnv.
  pose proof (uvmalloc_spec kend s l T root top oldsz newsz xperm Hus Hsz Htop Hx Hnv)
    as (r & s' & E & l' & T' & Hr)%wp_elim.
  by exists r, s', l', T'.
Qed.

Lemma uvmalloc_all_or_nothing_witness :
  ∃ r s', uvmalloc KERNBASE ex_root 100 9000 PTE_W ex_vm = Ok r s' ∧ (r = 9000 ∨ r = 0).
Proof.
  destruct (uvmalloc_all_or_nothing KERNBASE ex_root TRAPFRAME 100 9000 PTE_W ex_vm ex_free {[[] := ex_root]} ex_us_ok)
    as (r & s' & l' & T' & E & Hr).
  - lia.
  - vm_compute. discriminate.
  - vm_compute. split; [discriminate|reflexivity].
  - intros va' _. rewrite ex_pte. exact valid_0.
  - exists r, s'. split; [exact E|]. destruct Hr as [[Hr _]|(Hr & _)]; [left; exact Hr|right; exact Hr].
Defined.

(** [uvmunmap] with [do_free] removes the entries of the range and no
    other, frees exactly the pages those entries pointed to, once each, skips
    pages that were never mapped, and leaves the rest of user memory alone. *)
Theorem uvmunmap_exact (kend root top a : Z) (n : nat) (s : kmemst) (l : list Z) (T : ptree) :
  us_ok kend s l T root top → a mod PGSIZE = 0 → 0 ≤ a → a + Z.of_nat n * PGSIZE ≤ top →
  ∃ s' l', uvmunmap kend root a (Z.of_nat n) 1 s = Ok tt s' ∧ us_ok kend s' l' T root top ∧ NoDup l' ∧
    (∀ va, 0 ≤ va < MAXVA →
       pte_at (bytes (pm_of s')) T va = unmapped a n (pte_at (bytes (pm_of s)) T) va) ∧
    (∀ p, p ∈ l' ↔ p ∈ l ∨ freed a n (pte_at (bytes (pm_of s)) T) p) ∧
    (∀ va, 0 ≤ va < top → ¬ in_range a n va →
       uload (bytes (pm_of s')) T va = uload (bytes (pm_of s)) T va).
Proof.
  intros Hus Ha Ha0 Htop.
  pose proof (uvmunmap_spec kend a n s l T root top Hus Ha Ha0 Htop) as ([] & s' & E & l' & [Hok _ Hp Hf Hk])%wp_elim.
  exists s', l'. split_and!; try done; apply (us_vm _ _ _ _ _ _ Hok).
Qed.

Lemma uvmunmap_exact_witness : ∃ s', uvmunmap KERNBASE ex_root 4096 3 1 ex_vm = Ok tt s'.
Proof.
  destruct (uvmunmap_exact KERNBASE ex_root TRAPFRAME 4096 3 ex_vm ex_free {[[] := ex_root]} ex_us_ok)
    as (s' & l' & E & _).
  - reflexivity.
  - lia.
  - vm_compute. discriminate.
  - exact (ex_intro _ s' E).
Defined.

(** C14 Round trip through user memory: if [copyout] returns 0, a [copyin] of
    the same range returns 0 and the bytes that were copied out, even across
    pages that [vmfault] had to allocate on the way; bytes of user memory
    outside the range keep their values.  [copyout] fails, with -1, only if
    some byte of the range is not mapped writable for user code. *)
Theorem copyout_copyin (kend root top size dst : Z) (src : list Z) (s : kmemst) (l : list Z) (T : ptree) :
  copy_pre kend s l T root top size → 0 ≤ dst → dst + Z.of_nat (length src) ≤ top →
  ∃ r s' l' T', copyout kend root dst src s = Ok r s' ∧ copied kend s l T root top dst (Z.of_nat (length src)) s' l' T' ∧
    (r = -1 ∧ (∃ j, 0 ≤ j < Z.of_nat (length src) ∧ ¬ uwritable (bytes (pm_of s)) T (dst + j)) ∨
     r = 0 ∧ ∃ s'', copyin kend root dst (Z.of_nat (length src)) s' = Ok (0, u8 <$> src) s'').
Proof.
  intros Hpre Hd Htop. pose proof (us_top _ _ _ _ _ _ (pre_ok _ _ _ _ _ _ _ Hpre)) as HM. assert (MAXVA = 2 ^ 38) by done.
  pose proof (copyout_loop_spec kend (Datatypes.S (length src)) dst src s l T root top size Hpre Hd
    ltac:(lia) ltac:(lia)) as (r & s' & E & l' & T' & Hc & Hr)%wp_elim.
  exists r, s', l', T'. split_and!; [exact E|done|]. destruct Hr as [[-> Hno]|[-> Hb]]; [by left; split; [|apply Hno]|right; split; [done|]].
  pose proof (copy_pre_copied _ _ _ _ _ _ _ _ _ _ _ _ Hpre Hc) as Hpre'.
  pose proof (copyin_loop_spec kend (Datatypes.S (Z.to_nat (Z.of_nat (length src)))) dst (Z.of_nat (length src)) []
    s' l' T' root top size Hpre' Hd ltac:(lia) ltac:(lia) ltac:(lia)) as ([r bs] & s2 & E2 & Hin)%wp_elim.
  destruct Hin as (l2 & T2 & bs' & Hug & Ebs & Hbs & Hle & Hr2). cbn [fst snd app] in *. subst bs'. exists s2.
  destruct Hr2 as [[-> Hj]|[-> Hlen]].
  - destruct (Hj Htop) as (j & Hj' & Hnone). rewrite <- (Z2Nat.id j) in Hnone by lia. rewrite Hb in Hnone by lia. done.
  - unfold copyin. rewrite E2. do 2 f_equal. apply list_eq_same_length with (length src); [by rewrite length_fmap|lia|].
    intros i x y Hi Hx Hy. apply Hbs in Hx. rewrite list_lookup_fmap in Hy.
    destruct (src !! i) as [c|] eqn:Hc'; [|done]. injection Hy as <-.
    specialize (Hb i ltac:(by eapply lookup_lt_Some)). rewrite (list_lookup_total_correct _ _ _ Hc') in Hb.
    destruct (ug_keep _ _ _ _ _ _ _ _ _ Hug (dst + Z.of_nat i)) as [_ Eq]; [lia|by eapply uload_valid|]. congruence.
Qed.

Lemma copyout_copyin_witness :
  ∃ r s', copyout KERNBASE ex_root 4090 [1; 2; 3; 4; 5; 6; 7; 8; 9; 300] ex_vm = Ok r s' ∧
    (r = -1 ∨ r = 0 ∧ ∃ s'', copyin KERNBASE ex_root 4090 10 s' = Ok (0, [1; 2; 3; 4; 5; 6; 7; 8; 9; 44]) s'').
Proof.
  destruct (copyout_copyin KERNBASE ex_root TRAPFRAME 8192 4090 [1; 2; 3; 4; 5; 6; 7; 8; 9; 300] ex_vm ex_free
    {[[] := ex_root]} ex_copy_pre) as (r & s' & l' & T' & E & _ & Hr).
  - lia.
  - vm_compute. discriminate.
  - exists r, s'. split; [exact E|]. destruct Hr as [[Hr _]|Hr]; [left; exact Hr|right; exact Hr].
Defined.

(** Page [p] was free in [s] and is not free any more, and the address space
    [To] of [s] does not use it. *)
Definition own_page (s : kmemst) (l : list Z) (To : ptree) (top : Z) (l' : list Z) (p : Z) : Prop :=
  p ∈ l ∧ p ∉ l' ∧ (∀ x, To !! x ≠ Some p) ∧
  ∀ va, 0 ≤ va < top → valid (pte_at (bytes (pm_of s)) To va) → PTE2PA (pte_at (bytes (pm_of s)) To va) ≠ p.

(** What a copy adds to the child are pages of its own. *)
Lemma copied_own kend s l To ro top Tn rn n s' l' T' va :
  us_ok kend s l To ro top → alloc_inv kend s l Tn rn top 0 (copy_want (bytes (pm_of s)) To) n s' l' T' →
  0 ≤ va < top → in_range 0 n va → valid (pte_at (bytes (pm_of s')) T' va) →
  own_page s l To top l' (PTE2PA (pte_at (bytes (pm_of s')) T' va)).
Proof.
  intros Ho Hai Hva Hr Hv. pose proof (us_top _ _ _ _ _ _ Ho).
  assert (PTE2PA (pte_at (bytes (pm_of s')) T' va) ∈ l) as Hl by (eapply (ai_data _ _ _ _ _ _ _ _ _ _ _ _ Hai); [lia|done..]).
  split_and!; [done| | |].
  - apply (us_data _ _ _ _ _ _ (ai_ok _ _ _ _ _ _ _ _ _ _ _ _ Hai)); done.
  - intros x Hx. by apply (vo_free _ _ _ _ _ (us_vm _ _ _ _ _ _ Ho)) in Hx.
  - intros va' Hva' Hv' E. destruct (us_data _ _ _ _ _ _ Ho va' Hva' Hv') as (_ & Hn & _). apply Hn. by rewrite E.
Qed.

(** C12 fork's [uvmcopy] is all or nothing.  On success the child's address
    space shows user code the same bytes as the parent's, with the same
    permission bits, on pages of its own: each was free before the call, is not
    free after it, and is neither mapped by the parent nor one of the parent's
    page-table pages.  Pages the parent never touched stay unmapped in the
    child.  On failure (-1) the child is as empty as before
    and every page taken is free again or a page-table page of the child.
    The parent's page table and memory are the same in both cases. *)
Theorem uvmcopy_copies (kend top ro rn sz : Z) (s : kmemst) (l : list Z) (To Tn : ptree) :
  let n := Z.to_nat (page_up sz / PGSIZE) in
  apart kend s l To ro top Tn rn → 0 ≤ sz → page_up sz ≤ top →
  (∀ va, in_range 0 n va → ¬ valid (pte_at (bytes (pm_of s)) Tn va)) →
  ∃ r s' l' T', uvmcopy kend ro rn sz s = Ok r s' ∧
    us_ok kend s' l' T' rn top ∧ us_ok kend s' l' To ro top ∧
    (∀ va, 0 ≤ va < top → uload (bytes (pm_of s')) To va = uload (bytes (pm_of s)) To va ∧
       pte_at (bytes (pm_of s')) To va = pte_at (bytes (pm_of s)) To va) ∧
    (r = 0 ∧ (∀ va, in_range 0 n va →
        uload (bytes (pm_of s')) T' va = uload (bytes (pm_of s)) To va ∧
        (valid (pte_at (bytes (pm_of s')) T' va) ↔ valid (pte_at (bytes (pm_of s)) To va)) ∧
        (valid (pte_at (bytes (pm_of s)) To va) →
           PTE_FLAGS (pte_at (bytes (pm_of s')) T' va) = PTE_FLAGS (pte_at (bytes (pm_of s)) To va) ∧
           own_page s l To top l' (PTE2PA (pte_at (bytes (pm_of s')) T' va)))) ∨
     r = -1 ∧ restored kend s l Tn rn top s' l' T').
Proof.
  intros n Hap Hsz Htop Hnv. pose proof (us_top _ _ _ _ _ _ (ap_old _ _ _ _ _ _ _ _ Hap)) as HM.
  pose proof (uvmcopy_spec kend s l To ro top Tn rn sz Hap Hsz Htop Hnv) as (r & s' & E & l' & T' & Hr)%wp_elim.
  assert (Z.of_nat n * PGSIZE = page_up sz) as En.
  { destruct (page_up_spec sz). unfold n, PGSIZE in *. rewrite Z2Nat.id by (apply Z.div_pos; lia). Z.div_mod_to_equations. lia. }
  exists r, s', l', T'. split; [done|]. destruct Hr as [[-> Hai]|[-> Hre]].
  - pose proof (ai_ok _ _ _ _ _ _ _ _ _ _ _ _ Hai) as Hus. pose proof (us_vm _ _ _ _ _ _ Hus) as [Hca Hkm _ _].
    destruct (apart_old kend s l To ro top Tn rn s' l' Hap Hca Hkm) as [? ?]; [apply Hai|apply Hai|].
    destruct (apart_kept kend s l To ro top Tn rn _ Hap (ai_frame _ _ _ _ _ _ _ _ _ _ _ _ Hai)) as [[_ Hp] _].
    split_and!; [done..|by auto|]. left. split; [done|]. intros va Hva. assert (0 ≤ va < top) by (unfold in_range in Hva; lia).
    destruct (copy_want_uload kend s l Tn rn top To n s' l' T' va Hai) as (Hu & Hv & Hf); [lia|done|].
    split_and!; [done|done|]. intros Hvo. split; [auto|]. eapply copied_own; [apply Hap|exact Hai|done|done|by apply Hv].
  - pose proof (re_ok _ _ _ _ _ _ _ _ _ Hre) as Hus. pose proof (us_vm _ _ _ _ _ _ Hus) as [Hca Hkm _ _].
    destruct (apart_old kend s l To ro top Tn rn s' l' Hap Hca Hkm) as [? ?]; [apply Hre|apply Hre|].
    destruct (apart_kept kend s l To ro top Tn rn _ Hap (re_frame _ _ _ _ _ _ _ _ _ Hre)) as [[_ Hp] _].
    split_and!; [done..|by auto|]. by right.
Qed.

(** A parent with one writable page at address 0, which holds 7, 8, 9 and
    zeros, beside the empty space. *)
Definition ex_parent : Z := ex_page 10.
Definition ex_tree : ptree := {[[] := ex_parent; [0] := ex_page 11; [0; 0] := ex_page 12]}.
Definition ex_rw : Z := Z.lor (Z.lor PTE_R PTE_W) PTE_U.
Definition ex_mem2 : mem :=
  upd (upd (upd (store64 (store64 (store64 ex_links (ex_page 10) (table_pte (ex_page 11)))
    (ex_page 11) (table_pte (ex_page 12))) (ex_page 12) (leaf_pte (ex_page 14) ex_rw)) (ex_page 14) 7) (ex_page 14 + 1) 8) (ex_page 14 + 2) 9.
Definition ex_vm2 : kmemst := mkKmem (km_hw ex_vm) (km_pt ex_vm) (mkPmem ex_mem2 (ex_page 1)).

Lemma ex_tree_lookup x q : ex_tree !! x = Some q ↔
  x = [] ∧ q = ex_page 10 ∨ x = [0] ∧ q = ex_page 11 ∨ x = [0; 0] ∧ q = ex_page 12.
Proof.
  unfold ex_tree, ex_parent. rewrite !lookup_insert_Some, lookup_singleton_Some. naive_solver.
Qed.

Lemma ex_mem2_load a : (∃ i, 9 ≤ i ≤ 12 ∧ ex_page i ≤ a ∧ a + 8 ≤ ex_page (i + 1)) → a mod 8 = 0 →
  load64 ex_mem2 a =
    if decide (a = ex_page 10) then table_pte (ex_page 11) else
    if decide (a = ex_page 11) then table_pte (ex_page 12) else
    if decide (a = ex_page 12) then leaf_pte (ex_page 14) ex_rw else 0.
Proof.
  intros (i & Hi & Ha) Hm. unfold ex_mem2, ex_page, KERNBASE, PGSIZE in *.
  rewrite (load64_ext (store64 _ _ (leaf_pte _ _))) by (intros x Hx; rewrite !upd_ne by lia; done).
  repeat case_decide; subst.
  - by vm_compute.
  - by vm_compute.
  - by vm_compute.
  - rewrite !load_store64_ne by (Z.div_mod_to_equations; lia). unfold load64. apply load_le_zero. intros x Hx.
    unfold ex_links. simpl foldr. rewrite !store64_out by (unfold ex_page, PGSIZE, KERNBASE; lia). done.
Qed.

Lemma ex_parent_wf : pt_wf KERNBASE ex_mem2 ex_tree ex_parent.
Proof.
  split.
  - by apply ex_tree_lookup; left.
  - intros x q [[-> ->]|[[-> ->]|[-> ->]]]%ex_tree_lookup; unfold page_ok; split_and!; vm_compute; done.
  - intros x q [[-> ->]|[[-> ->]|[-> ->]]]%ex_tree_lookup; simpl; (split; [lia|]); repeat constructor; unfold idx_ok; lia.
  - intros x y q Hx Hy. apply ex_tree_lookup in Hx, Hy. unfold ex_page, PGSIZE, KERNBASE in *. naive_solver lia.
  - intros x i q [[E _]|[[E _]|[E _]]]%ex_tree_lookup; [by destruct x| |].
    + change [0] with ([] ++ [0]) in E. apply app_inj_tail in E as [-> _]. eexists. apply ex_tree_lookup. by left.
    + change [0; 0] with ([0] ++ [0]) in E. apply app_inj_tail in E as [-> _]. eexists. apply ex_tree_lookup. auto.
  - intros x q i Hx Hlen Hi. unfold idx_ok in Hi.
    assert (∀ j, q = ex_page j → 10 ≤ j ≤ 11 → load64 ex_mem2 (q + 8 * i) =
      if decide (i = 0) then table_pte (ex_page (j + 1)) else 0) as Hld.
    { intros j -> Hj. rewrite ex_mem2_load; [|exists j|]; unfold ex_page, PGSIZE, KERNBASE; [|lia|Z.div_mod_to_equations; lia].
      repeat case_decide; try lia; repeat f_equal; lia. }
    apply ex_tree_lookup in Hx as [[-> Eq]|[[-> Eq]|[-> _]]]; [| |simpl in Hlen; lia]; rewrite (Hld _ Eq) by lia;
      (case_decide; [subst i; by vm_compute|]); simpl app.
    + destruct (ex_tree !! [i]) as [q'|] eqn:E; [|done]. apply ex_tree_lookup in E. naive_solver.
    + destruct (ex_tree !! [0; i]) as [q'|] eqn:E; [|done]. apply ex_tree_lookup in E. naive_solver.
Qed.

Lemma ex_mem2_free a : in_page ex_root a ∨ ¬ outside ex_free a → ex_mem2 a = ex_links a.
Proof.
  intros Ha. assert (a < ex_page 10).
  { apply dec_stable. intros Hge. destruct Ha as [Ha|Ha]; [unfold in_page, ex_root, ex_page, PGSIZE in *; lia|].
    apply Ha. intros p Hp. unfold in_page. assert (p + PGSIZE ≤ ex_page 10); [|lia].
    apply list_elem_of_fmap in Hp as (i & -> & Hi). repeat (apply elem_of_cons in Hi as [->|Hi]; [done|]). by apply elem_of_nil in Hi. }
  unfold ex_mem2, ex_page, PGSIZE, KERNBASE in *. rewrite !upd_ne by lia. by rewrite !store64_out by lia.
Qed.

Lemma ex_pte2 va : 0 ≤ va < MAXVA → valid (pte_at ex_mem2 ex_tree va) →
  pte_at ex_mem2 ex_tree va = leaf_pte (ex_page 14) ex_rw ∧ va / 4096 = 0.
Proof.
  intros Hva. unfold pte_at. destruct (ex_tree !! leaf_path va) as [q|] eqn:E; [|by intros ?%valid_0].
  assert (MAXVA = 2 ^ 38) by done.
  apply ex_tree_lookup in E as [[E _]|[[E _]|[E ->]]]; [done|done|]. pose proof (PX_idx 0 va ltac:(lia)) as Hi. unfold idx_ok in Hi.
  rewrite ex_mem2_load; [|exists 12; unfold ex_page, PGSIZE, KERNBASE; lia|unfold ex_page, PGSIZE, KERNBASE; Z.div_mod_to_equations; lia].
  unfold ex_page, PGSIZE, KERNBASE. repeat case_decide; try lia; [|by intros ?%valid_0]. intros _. split; [done|].
  change 0 with (0 / 4096). apply same_page; [by vm_compute|done|]. split; [exact E|]. change (PX 0 0) with 0. lia.
Qed.

Lemma ex_pte2_pa : PTE2PA (leaf_pte (ex_page 14) ex_rw) = ex_page 14.
Proof. by vm_compute. Qed.

Lemma ex_not_free i : 9 ≤ i → ex_page i ∉ ex_free.
Proof.
  intros Hi (k & E & Hk)%list_elem_of_fmap. unfold ex_page, PGSIZE in E.
  repeat (apply elem_of_cons in Hk as [->|Hk]; [lia|]). by apply elem_of_nil in Hk.
Qed.

Lemma ex_tree_page x q : ex_tree !! x = Some q → ∃ i, 10 ≤ i ≤ 12 ∧ q = ex_page i.
Proof. intros [[_ ->]|[[_ ->]|[_ ->]]]%ex_tree_lookup; [exists 10|exists 11|exists 12]; (split; [lia|done]). Qed.

Lemma ex_kmem2 : kmem_ok KERNBASE (km_pm ex_vm2) ex_free.
Proof.
  destruct ex_kmem_ok as [Hfl Hnd]. split; [|done]. eapply flist_out; [exact Hfl|].
  intros a Ha. apply ex_mem2_free. by right.
Qed.

(** The state with the address space of the parent, whatever the processes. *)
Lemma ex_us_ok2 pt : us_ok KERNBASE (mkKmem ex_vm_hw pt (mkPmem ex_mem2 (ex_page 1))) ex_free ex_tree ex_parent TRAPFRAME.
Proof.
  assert (∀ va, 0 ≤ va < TRAPFRAME → 0 ≤ va < MAXVA) as Hmax.
  { intros va. change TRAPFRAME with (2 ^ 38 - 2 * 4096). change MAXVA with (2 ^ 38). lia. }
  split; [|done| |].
  - split; [destruct ex_vm_can_alloc; by split|exact ex_kmem2|exact ex_parent_wf|].
    intros x q (i & Hi & ->)%ex_tree_page. apply ex_not_free. lia.
  - intros va Hva Hv. cbn [pm_of HasMem_kmem km_pm bytes] in *. destruct (ex_pte2 va (Hmax va Hva) Hv) as [-> _]. rewrite ex_pte2_pa.
    split; [unfold page_ok; split_and!; vm_compute; done|split; [by apply ex_not_free|]].
    intros x (i & Hi & E)%ex_tree_page. unfold ex_page, PGSIZE in E. lia.
  - intros va va' Hva Hva' Hv Hv' _. cbn [pm_of HasMem_kmem km_pm bytes] in *.
    destruct (ex_pte2 va (Hmax va Hva) Hv) as [_ ->], (ex_pte2 va' (Hmax va' Hva') Hv') as [_ ->]. done.
Qed.

Lemma ex_apart : apart KERNBASE ex_vm2 ex_free ex_tree ex_parent TRAPFRAME {[[] := ex_root]} ex_root.
Proof.
  assert (can_alloc ex_vm2) as Hca by (destruct ex_vm_can_alloc; by split).
  split.
  - apply ex_us_ok2.
  - assert (pt_wf KERNBASE ex_mem2 {[[] := ex_root]} ex_root) as Hwf.
    { apply (pt_wf_ext KERNBASE ex_links). { exact ex_wf. } intros a Ha. apply dec_stable. intros Hne. apply Ha.
      intros x q [<- <-]%lookup_singleton_Some Hin. apply Hne, ex_mem2_free. by left. }
    split; [split; [done|exact ex_kmem2|exact Hwf|]|done| |].
    + intros x q [<- <-]%lookup_singleton_Some. by apply ex_not_free.
    + intros va _. rewrite ex_pte. by intros ?%valid_0.
    + intros va va' _ _. rewrite ex_pte. by intros ?%valid_0.
  - intros x y q (i & Hi & ->)%ex_tree_page [_ E]%lookup_singleton_Some. unfold ex_root, ex_page, PGSIZE in E. lia.
  - intros va y Hva Hv [_ E]%lookup_singleton_Some. change (bytes (pm_of ex_vm2)) with ex_mem2 in *.
    destruct (ex_pte2 va) as [Eq _]; [|done|].
    { change TRAPFRAME with (2 ^ 38 - 2 * 4096) in Hva. change MAXVA with (2 ^ 38). lia. }
    rewrite Eq, ex_pte2_pa in E. unfold ex_root, ex_page, PGSIZE in E. lia.
Qed.

(** Process 1 runs in the parent's address space. *)
Definition ex_user_proc : proc := set_pagetable ex_parent ex_vm_proc.
Definition ex_user_table : ptab := upd_proc 1 (λ _, ex_user_proc) ex_table.

Lemma ex_user_pre : copy_pre KERNBASE (mkKmem ex_vm_hw ex_user_table (mkPmem ex_mem2 (ex_page 1))) ex_free ex_tree ex_parent TRAPFRAME 8192.
Proof.
  split; [apply ex_us_ok2| |].
  - intros va Hva0 Hva [Hv _]. cbn [pm_of HasMem_kmem km_pm bytes] in Hv. destruct (ex_pte2 va) as [_ E]; [lia|done|].
    change TRAPFRAME with (2 ^ 38 - 2 * 4096) in Hva. Z.div_mod_to_equations. lia.
  - split; [apply ex_vm_can_alloc| |done|done]. by eexists _, _.
Qed.

Lemma uvmcopy_copies_witness :
  ∃ r s' l' T', uvmcopy KERNBASE ex_parent ex_root 8192 ex_vm2 = Ok r s' ∧
    (r = 0 ∧ uload (bytes (pm_of s')) T' 0 = Some 7 ∧
       own_page ex_vm2 ex_free ex_tree TRAPFRAME l' (PTE2PA (pte_at (bytes (pm_of s')) T' 0)) ∨ r = -1).
Proof.
  destruct (uvmcopy_copies KERNBASE TRAPFRAME ex_parent ex_root 8192 ex_vm2 ex_free ex_tree {[[] := ex_root]} ex_apart)
    as (r & s' & l' & T' & E & _ & _ & _ & Hr).
  - lia.
  - vm_compute. discriminate.
  - intros va _. rewrite ex_pte. exact valid_0.
  - exists r, s', l', T'. split; [exact E|]. destruct Hr as [[Hr Hc]|[Hr _]]; [left; split; [exact Hr|]|right; exact Hr].
    destruct (Hc 0) as (Hu & _ & Hp); [apply (bool_decide_unpack _); vm_compute; exact I|].
    split; [rewrite Hu; vm_compute; reflexivity|]. apply Hp. vm_compute. discriminate.
Defined.
