(* ===== verification/Pipe.v ===== *)
(** * Pipes (kernel/pipe.c)

    A pipe is a page of memory: [data] is a ring of 512 bytes, [nread] and
    [nwrite] count bytes modulo 2^32.  [pipe_holds] relates the page to the
    queue of bytes it stands for. *)

From S2P Require Import Prelude Params CString Spinlock ProcDefs WaitQueue Sched Memory Kalloc PageTable Vm VmSpec UserMem UserAlloc CopyUser AddressSpace.

Definition PIPESIZE : Z := 512.

(** Offsets in struct pipe; the first 24 bytes are its spinlock. *)
Definition pi_data (pi i : Z) : Z := pi + 24 + i.
Definition pi_nread (pi : Z) : Z := pi + 536.
Definition pi_nwrite (pi : Z) : Z := pi + 540.
Definition pi_readopen (pi : Z) : Z := pi + 544.
Definition pi_writeopen (pi : Z) : Z := pi + 548.

Section Ops.
Context {S : Type} `{HasMem S}.
Variable kend : Z.

Definition ld32 (a : Z) : M S Z := gets (λ s, load32 (bytes (pm_of s)) a).
Definition st32 (a v : Z) : M S unit := mod_bytes (λ m, store32 m a v).
Definition ld8 (a : Z) : M S Z := gets (λ s, bytes (pm_of s) a).
Definition st8 (a v : Z) : M S unit := mod_bytes (λ m, upd m a (u8 v)).

Definition pipeclose (pi writable : Z) : M S unit :=
  acquire (L_pipe pi) ;;
  (if decide (writable ≠ 0) then
     st32 (pi_writeopen pi) 0 ;;
     wakeup (pi_nread pi)
   else
     st32 (pi_readopen pi) 0 ;;
     wakeup (pi_nwrite pi)) ;;
  ro <- ld32 (pi_readopen pi) ;;
  wo <- ld32 (pi_writeopen pi) ;;
  if decide (ro = 0 ∧ wo = 0) then
    release (L_pipe pi) ;;
    kfree kend pi
  else
    release (L_pipe pi).

(* if(wq_has_sleeper(chan)) wakeup_one(chan); *)
Definition wake_if_waiting (chan : Z) : M S unit :=
  t <- gets pt_of ;;
  if wq_has_sleeper chan t then wakeup_one chan else ret tt.

(* while(i < n) of pipewrite(), at most [fuel] iterations; None after the
   early return of -1 *)
Fixpoint pipewrite_loop (fuel : nat) (pi addr n : Z) (pr : nat) (i : Z) : M S (option Z) :=
  match fuel with
  | O => λ s, Spin s
  | Datatypes.S fuel =>
      if decide (i < n) then
        ro <- ld32 (pi_readopen pi) ;;
        k <- (if decide (ro = 0) then ret 1 else Sched.killed pr) ;;
        if decide (k ≠ 0) then
          release (L_pipe pi) ;;
          ret None
        else
        nwrite <- ld32 (pi_nwrite pi) ;;
        nread <- ld32 (pi_nread pi) ;;
        if decide (nwrite = u32 (nread + PIPESIZE)) then
          wake_if_waiting (pi_nread pi) ;;
          sleep (pi_nwrite pi) (L_pipe pi) ;;
          pipewrite_loop fuel pi addr n pr i
        else
          p <- proc_at pr ;;
          r <- copyin kend (pagetable p) (u64 (addr + i)) 1 ;;
          if decide (r.1 = -1) then ret (Some i) else
          let ch := r.2 !!! 0%nat in
          st32 (pi_nwrite pi) (u32 (nwrite + 1)) ;;
          st8 (pi_data pi (nwrite mod PIPESIZE)) ch ;;
          pipewrite_loop fuel pi addr n pr (i + 1)
      else ret (Some i)
  end.

Definition pipewrite (fuel : nat) (pi addr n : Z) : M S Z :=
  pr <- curproc ;;
  acquire (L_pipe pi) ;;
  r <- pipewrite_loop fuel pi addr n pr 0 ;;
  match r with
  | None => ret (-1)
  | Some i =>
      wake_if_waiting (pi_nread pi) ;;
      release (L_pipe pi) ;;
      ret i
  end.

(* while(pi->nread == pi->nwrite && pi->writeopen); false after the early return *)
Fixpoint piperead_wait (fuel : nat) (pi : Z) (pr : nat) : M S bool :=
  match fuel with
  | O => λ s, Spin s
  | Datatypes.S fuel =>
      nread <- ld32 (pi_nread pi) ;;
      nwrite <- ld32 (pi_nwrite pi) ;;
      wo <- ld32 (pi_writeopen pi) ;;
      if decide (nread = nwrite ∧ wo ≠ 0) then
        k <- Sched.killed pr ;;
        if decide (k ≠ 0) then release (L_pipe pi) ;; ret false
        else sleep (pi_nread pi) (L_pipe pi) ;; piperead_wait fuel pi pr
      else ret true
  end.

(* for(i = 0; i < n; i++), with [k] iterations left *)
Fixpoint piperead_copy (k : nat) (pi addr : Z) (pr : nat) (i : Z) : M S Z :=
  match k with
  | O => ret i
  | Datatypes.S k =>
      nread <- ld32 (pi_nread pi) ;;
      nwrite <- ld32 (pi_nwrite pi) ;;
      if decide (nread = nwrite) then ret i else
      ch <- ld8 (pi_data pi (nread mod PIPESIZE)) ;;
      p <- proc_at pr ;;
      r <- copyout kend (pagetable p) (u64 (addr + i)) [ch] ;;
      if decide (r = -1) then ret (if decide (i = 0) then -1 else i) else
      st32 (pi_nread pi) (u32 (nread + 1)) ;;
      piperead_copy k pi addr pr (i + 1)
  end.

Definition piperead (fuel : nat) (pi addr n : Z) : M S Z :=
  pr <- curproc ;;
  acquire (L_pipe pi) ;;
  b <- piperead_wait fuel pi pr ;;
  if b then
    i <- piperead_copy (Z.to_nat n) pi addr pr 0 ;;
    wake_if_waiting (pi_nwrite pi) ;;
    release (L_pipe pi) ;;
    ret i
  else ret (-1).

End Ops.

(** ** The ring as a queue *)

Record pipe_holds (m : mem) (pi : Z) (q : list Z) : Prop := mkPipeHolds {
  ph_len : Z.of_nat (length q) ≤ PIPESIZE;
  ph_count : load32 m (pi_nwrite pi) = u32 (load32 m (pi_nread pi) + Z.of_nat (length q));
  ph_data : ∀ k b, q !! k = Some b → m (pi_data pi ((load32 m (pi_nread pi) + Z.of_nat k) mod PIPESIZE)) = b;
}.

(** The ends that are open. *)
Definition pipe_ends (m : mem) (pi ro wo : Z) : Prop :=
  load32 m (pi_readopen pi) = ro ∧ load32 m (pi_writeopen pi) = wo.

Ltac pipe_off := unfold pi_data, pi_nread, pi_nwrite, pi_readopen, pi_writeopen, in_page, PIPESIZE, PGSIZE in *.

Section Ring.
Variables (m : mem) (pi : Z).

Lemma pipe_ext m' q ro wo :
  (∀ x, in_page pi x → m' x = m x) → pipe_holds m pi q → pipe_ends m pi ro wo →
  pipe_holds m' pi q ∧ pipe_ends m' pi ro wo.
Proof.
  intros Hm [Hl Hc Hd] [Hr Hw].
  assert (∀ o, 536 ≤ o ≤ 548 → load32 m' (pi + o) = load32 m (pi + o)) as He.
  { intros o Ho. apply load32_ext. intros x Hx. apply Hm. pipe_off. lia. }
  unfold pipe_ends. pipe_off. rewrite !He by lia. split; [split|done]; pipe_off; rewrite ?He by lia; [done|done|].
  intros k b Hk. rewrite ?He by lia. rewrite Hm; [by apply Hd|].
  pose proof (Z.mod_pos_bound (load32 m (pi + 536) + Z.of_nat k) 512 ltac:(lia)). lia.
Qed.

Lemma u32_mod x : u32 x mod PIPESIZE = x mod PIPESIZE.
Proof.
  unfold u32, wrap, PIPESIZE. change (2 ^ 32) with (512 * 8388608). rewrite Z.rem_mul_r by lia.
  rewrite Z.mul_comm, Z.mod_add by lia. apply Z.mod_mod. lia.
Qed.

Lemma ring_full q : pipe_holds m pi q →
  load32 m (pi_nwrite pi) = u32 (load32 m (pi_nread pi) + PIPESIZE) ↔ Z.of_nat (length q) = PIPESIZE.
Proof.
  intros [Hl Hc _]. rewrite Hc. pose proof (load32_range m (pi_nread pi)). unfold u32, wrap, PIPESIZE in *.
  split; [|by intros ->]. intros E. Z.div_mod_to_equations. lia.
Qed.

Lemma ring_empty q : pipe_holds m pi q → load32 m (pi_nread pi) = load32 m (pi_nwrite pi) ↔ q = [].
Proof.
  intros [Hl Hc _]. rewrite Hc. pose proof (load32_range m (pi_nread pi)). unfold u32, wrap, PIPESIZE in *. split.
  - intros E. destruct q; [done|]. exfalso. simpl length in *. Z.div_mod_to_equations. lia.
  - intros ->. simpl. rewrite Z.add_0_r, Z.mod_small by lia. done.
Qed.

Lemma ring_push q ch ro wo : pipe_holds m pi q → pipe_ends m pi ro wo → Z.of_nat (length q) < PIPESIZE →
  let nw := load32 m (pi_nwrite pi) in
  let m' := upd (store32 m (pi_nwrite pi) (u32 (nw + 1))) (pi_data pi (nw mod PIPESIZE)) (u8 ch) in
  pipe_holds m' pi (q ++ [u8 ch]) ∧ pipe_ends m' pi ro wo ∧ ∀ x, ¬ in_page pi x → m' x = m x.
Proof.
  intros [Hl Hc Hd] [Hr Hw] Hlen nw m'. pose proof (wrap_bound 32 (nw + 1) ltac:(lia)) as Hwb. fold (u32 (nw + 1)) in Hwb.
  pose proof (Z.mod_pos_bound nw PIPESIZE ltac:(done)) as Hmb.
  assert (nw mod PIPESIZE = (load32 m (pi_nread pi) + Z.of_nat (length q)) mod PIPESIZE) as Enw
    by (unfold nw; rewrite Hc; apply u32_mod).
  assert (∀ o, 536 ≤ o ≤ 548 → (o + 4 ≤ 540 ∨ 544 ≤ o) → load32 m' (pi + o) = load32 m (pi + o)) as He.
  { intros o Ho Ho'. unfold m'. rewrite (load32_ext (store32 m (pi_nwrite pi) (u32 (nw + 1)))) by (intros; apply upd_ne; pipe_off; lia).
    apply load_store32_ne. pipe_off. lia. }
  assert (load32 m' (pi_nwrite pi) = u32 (nw + 1)) as Ew.
  { unfold m'. rewrite (load32_ext (store32 m (pi_nwrite pi) (u32 (nw + 1)))) by (intros; apply upd_ne; pipe_off; lia).
    by apply load_store32. }
  assert (load32 m' (pi_nread pi) = load32 m (pi_nread pi)) as Er by (apply He; lia).
  split_and!; [split| |].
  - rewrite length_app. simpl. lia.
  - rewrite Ew, Er. unfold nw. rewrite Hc. rewrite length_app. simpl. unfold u32, wrap. rewrite Z.add_mod_idemp_l by lia. f_equal. lia.
  - intros k b Hk. rewrite Er. unfold m'. rewrite upd_spec.
    apply lookup_snoc_Some in Hk as [[Hk Hb]|[Hk Hb]].
    + rewrite decide_False.
      * rewrite store32_out; [by apply Hd|]. pose proof (Z.mod_pos_bound (load32 m (pi_nread pi) + Z.of_nat k) PIPESIZE ltac:(done)). pipe_off. lia.
      * rewrite Enw. pipe_off. intros E. Z.div_mod_to_equations. lia.
    + subst. rewrite decide_True by (by rewrite Enw). done.
  - unfold pipe_ends. unfold pi_readopen, pi_writeopen. by rewrite !He by lia.
  - intros x Hx. unfold m'. rewrite upd_ne, store32_out; pipe_off; lia || done.
Qed.

Lemma ring_pop q b ro wo : pipe_holds m pi (b :: q) → pipe_ends m pi ro wo →
  let nr := load32 m (pi_nread pi) in
  let m' := store32 m (pi_nread pi) (u32 (nr + 1)) in
  m (pi_data pi (nr mod PIPESIZE)) = b ∧ pipe_holds m' pi q ∧ pipe_ends m' pi ro wo ∧ ∀ x, ¬ in_page pi x → m' x = m x.
Proof.
  intros [Hl Hc Hd] [Hr Hw] nr m'. pose proof (wrap_bound 32 (nr + 1) ltac:(lia)) as Hwb. fold (u32 (nr + 1)) in Hwb.
  assert (∀ o, 540 ≤ o ≤ 548 → load32 m' (pi + o) = load32 m (pi + o)) as He.
  { intros o Ho. apply load_store32_ne. pipe_off. lia. }
  assert (load32 m' (pi_nread pi) = u32 (nr + 1)) as Er by by apply load_store32.
  simpl in Hl. split_and!.
  - specialize (Hd 0%nat b eq_refl). by rewrite Z.add_0_r in Hd.
  - split; [lia| |].
    + unfold pi_nwrite at 1. rewrite He, Er by lia. fold (pi_nwrite pi). rewrite Hc. simpl length. unfold u32, wrap.
      rewrite Z.add_mod_idemp_l by lia. f_equal. unfold nr. lia.
    + intros k b' Hk. specialize (Hd (Datatypes.S k) b' Hk). rewrite Er.
      assert ((u32 (nr + 1) + Z.of_nat k) mod PIPESIZE = (nr + Z.of_nat (Datatypes.S k)) mod PIPESIZE) as E.
      { rewrite Z.add_mod, u32_mod, <- Z.add_mod by done. f_equal. lia. }
      rewrite E. unfold m'. rewrite store32_out; [done|].
      pose proof (Z.mod_pos_bound (nr + Z.of_nat (Datatypes.S k)) PIPESIZE ltac:(done)). pipe_off. lia.
  - unfold pipe_ends, pi_readopen, pi_writeopen. by rewrite !He by lia.
  - intros x Hx. apply store32_out. pipe_off. lia.
Qed.

Lemma ring_close q ro wo (w : bool) : pipe_holds m pi q → pipe_ends m pi ro wo →
  let m' := store32 m (if w then pi_writeopen pi else pi_readopen pi) 0 in
  pipe_holds m' pi q ∧ pipe_ends m' pi (if w then ro else 0) (if w then 0 else wo) ∧
  ∀ x, ¬ in_page pi x → m' x = m x.
Proof.
  intros [Hl Hc Hd] [Hr Hw] m'.
  assert (∀ o, o + 4 ≤ 544 → load32 m' (pi + o) = load32 m (pi + o)) as He.
  { intros o Ho. unfold m'. destruct w; apply load_store32_ne; pipe_off; lia. }
  assert (load32 m' (if w then pi_writeopen pi else pi_readopen pi) = 0) as E0 by (by apply load_store32).
  split_and!.
  - unfold pi_nread, pi_nwrite in *. split; unfold pi_nread, pi_nwrite; rewrite ?He by lia; [done|done|].
    intros k b Hk. rewrite ?He by lia. rewrite <- (Hd k b Hk). unfold m'.
    pose proof (Z.mod_pos_bound (load32 m (pi + 536) + Z.of_nat k) PIPESIZE ltac:(done)).
    destruct w; apply store32_out; pipe_off; lia.
  - unfold pipe_ends. destruct w; (split; [|]); try exact E0; unfold m'; rewrite load_store32_ne by (pipe_off; lia); done.
  - intros x Hx. unfold m'. destruct w; apply store32_out; pipe_off; lia.
Qed.

End Ring.

(** ** Under the pipe's lock *)

Section Spec.
Context {S : Type} `{HasMem S}.
Variable kend : Z.
Implicit Types s : S.

Notation bytes_of s := (bytes (pm_of s)).
Notation pte s T va := (pte_at (bytes_of s) T va).
Notation us_ok := (us_ok kend).
Notation fresh_page := (fresh_page kend).
Notation copied := (copied kend).
Notation ul s T va := (uload (bytes_of s) T va).

(** Writing a page that no address space maps. *)
Lemma private_write s l T root top p f :
  us_ok s l T root top → fresh_page s l T top p → (∀ x, ¬ in_page p x → f (bytes_of s) x = bytes_of s x) →
  let s' := with_pm (mkPmem (f (bytes_of s)) (freelist (pm_of s))) s in
  us_ok s' l T root top ∧ (∀ va, pte s' T va = pte s T va) ∧ fresh_page s' l T top p ∧
  ∀ va, 0 ≤ va < top → ul s' T va = ul s T va.
Proof.
  intros [Hvm Htop Hd Hi] [Hp Hno] Hf s'. destruct (vm_ok_write kend s l T root p f Hvm Hp Hf) as [Hvm' Hpte].
  fold s' in Hvm', Hpte. split_and!; [|done| |].
  - split; [done|done|..]; intros *; rewrite !Hpte; eauto.
  - split; [done|]. intros va. rewrite Hpte. apply Hno.
  - intros va Hva. unfold uload. rewrite Hpte. case_decide as Hv; [|done]. f_equal. unfold s'. st_simpl. simpl.
    apply Hf. intros Hin. destruct (Hd va Hva ltac:(tauto)) as (Hq & _).
    eapply (pages_disjoint kend p _ _); [apply Hp|exact Hq| |exact Hin|apply in_page_offset].
    intros E. apply (Hno va Hva); [tauto|done].
Qed.

Lemma vstate_nested s s' : vstate s s' → cpu_ok (hw_of s) → 1 ≤ noff (mycpu (hw_of s)) → ∃ pm, s' = with_pm pm s.
Proof.
  intros (pm & h & -> & [->| ->]) Hok Hn; exists pm; [by st_simpl|].
  rewrite hw_settle_nested by (done || lia). by st_simpl.
Qed.

(** [p], the current process, runs kernel code that holds a lock; the pipe's
    page [pi] is private to the kernel. *)
Record pctx (s : S) (l : list Z) (T : ptree) (root top size pi : Z) (pr : nat) (p : proc) : Prop := mkPctx {
  pc_copy : copy_pre kend s l T root top size;
  pc_noff : 1 ≤ noff (mycpu (hw_of s));
  pc_proc : procs (pt_of s) !! pr = Some p;
  pc_root : pagetable p = root;
  pc_lock : lock_free (lkp pr) (hw_of s);
  pc_page : fresh_page s l T top pi;
}.

(** What user code reads is still there. *)
Definition umono (top : Z) (s : S) (T : ptree) (s' : S) (T' : ptree) : Prop :=
  ∀ va b, 0 ≤ va < top → ul s T va = Some b → ul s' T' va = Some b.

Lemma pctx_copied s l T root top size pi pr p va n s' l' T' :
  pctx s l T root top size pi pr p → copied s l T root top va n s' l' T' →
  pctx s' l' T' root top size pi pr p ∧ (∃ pm, s' = with_pm pm s) ∧
  ∀ x, in_page pi x → bytes_of s' x = bytes_of s x.
Proof.
  intros [Hpre Hn Hp Hr Hl Hpg] Hc. pose proof (copy_pre_copied _ _ _ _ _ _ _ _ _ _ _ _ Hpre Hc) as Hpre'.
  destruct (cp_private _ _ _ _ _ _ _ _ _ _ _ Hc pi Hpg) as [Hpg' Hb].
  destruct (vstate_nested s s') as [pm ->]; [apply Hc|apply (uc_cpu _ _ _ _ (pre_cur _ _ _ _ _ _ _ Hpre))|done|].
  split_and!; [|by exists pm|done]. split; st_simpl; done.
Qed.

Lemma pctx_write s l T root top size pi pr p f :
  pctx s l T root top size pi pr p → (∀ x, ¬ in_page pi x → f (bytes_of s) x = bytes_of s x) →
  let s' := with_pm (mkPmem (f (bytes_of s)) (freelist (pm_of s))) s in
  pctx s' l T root top size pi pr p ∧ ∀ va, 0 ≤ va < top → ul s' T va = ul s T va.
Proof.
  intros [[Hus Hgu Hcur] Hn Hp Hr Hl Hpg] Hf s'.
  destruct (private_write s l T root top pi f Hus Hpg Hf) as (Hus' & Hpte & Hpg' & Hul). split; [|done].
  split; unfold s'; st_simpl; try done. split; [done| |].
  - intros va Hva Hva'. specialize (Hpte va). st_simpl. rewrite Hpte. by apply Hgu.
  - eapply ucur_vstate; [apply vstate_pm|done].
Qed.

Lemma killed_spec i p s Q : cpu_ok (hw_of s) → 1 ≤ noff (mycpu (hw_of s)) → lock_free (lkp i) (hw_of s) →
  procs (pt_of s) !! i = Some p → Q (ProcDefs.killed p) s → wp (Sched.killed i) s Q.
Proof.
  intros Hok Hn Hl Hp HQ. unfold Sched.killed. wp_go. apply wp_acquire; [done|]. wp_go.
  eapply wp_proc_at; [by st_simpl|]. wp_go. eapply (wp_release _ _ (hw_of s)); [by st_simpl|done|done|]. st_simpl.
  rewrite hw_settle_nested by (done || lia). rewrite with_hw_of. apply wp_ret, HQ.
Qed.

(** [copyin] of one byte. *)
Lemma copyin_one s l T root top size va :
  copy_pre kend s l T root top size → 0 ≤ va → va + 1 ≤ top →
  wp (copyin kend root va 1) s (λ r s', ∃ l' T', ugrow kend s l T root top s' l' T' ∧
    (r.1 = -1 ∧ ul s T va = None ∨ r.1 = 0 ∧ ul s' T' va = Some (r.2 !!! 0%nat))).
Proof.
  intros Hpre Hva Ht. pose proof (us_top _ _ _ _ _ _ (pre_ok _ _ _ _ _ _ _ Hpre)). assert (MAXVA = 2 ^ 38) by done.
  eapply wp_mono; [apply (copyin_loop_spec kend 2 va 1 [] s l T root top size Hpre); lia|].
  intros [r bs] s' (l' & T' & bs' & Hug & E & Hb & Hle & Hr). cbn [fst snd app] in *. subst bs'. exists l', T'. split; [done|].
  destruct Hr as [[-> Hr]|[-> Hl]].
  - left. split; [done|]. destruct (Hr Ht) as (j & Hj & Hn). replace j with 0 in Hn by lia. by rewrite Z.add_0_r in Hn.
  - right. split; [done|]. destruct bs as [|b bs]; [simpl in Hl; lia|]. specialize (Hb 0%nat b eq_refl).
    by rewrite Z.add_0_r in Hb.
Qed.

Lemma umono_trans top s1 T1 s2 T2 s3 T3 :
  umono top s1 T1 s2 T2 → umono top s2 T2 s3 T3 → umono top s1 T1 s3 T3.
Proof. intros M1 M2 va b Hva Hb. by apply M2, M1. Qed.

Lemma umono_none top s T s' T' va : umono top s T s' T' → 0 ≤ va < top → ul s' T' va = None → ul s T va = None.
Proof. intros Hm Hva Hn. destruct (ul s T va) as [b|] eqn:E; [|done]. rewrite (Hm va b Hva E) in Hn. done. Qed.

Section Transfer.
Variables (root top size pi addr n : Z) (pr : nat) (p : proc).
Hypothesis Haddr : 0 ≤ addr.
Hypothesis Htop : addr + n ≤ top.

(** What [pipewrite]'s loop leaves after reading [bs] from user memory at
    offset [i]. *)
Record wrote (s : S) (T : ptree) (q : list Z) (ro wo i : Z) (k : nat) (bs : list Z) (s' : S) (l' : list Z) (T' : ptree) : Prop := mkWrote {
  wr_ctx : pctx s' l' T' root top size pi pr p;
  wr_queue : pipe_holds (bytes_of s') pi (q ++ (u8 <$> bs));
  wr_ends : pipe_ends (bytes_of s') pi ro wo;
  wr_mono : umono top s T s' T';
  wr_state : ∃ pm, s' = with_pm pm s;
  wr_bytes : ∀ j b, bs !! j = Some b → ul s' T' (addr + i + Z.of_nat j) = Some b;
  wr_len : (length bs ≤ k)%nat;
  wr_short : (length bs < k)%nat → ul s T (addr + i + Z.of_nat (length bs)) = None;
}.

Lemma pipewrite_loop_spec k : ∀ fuel i s l T q ro wo,
  pctx s l T root top size pi pr p → ProcDefs.killed p = 0 →
  pipe_holds (bytes_of s) pi q → pipe_ends (bytes_of s) pi ro wo → ro ≠ 0 →
  0 ≤ i → n - i = Z.of_nat k → Z.of_nat (length q + k) ≤ PIPESIZE → (k < fuel)%nat →
  wp (pipewrite_loop kend fuel pi addr n pr i) s (λ r s', ∃ l' T' bs,
    r = Some (i + Z.of_nat (length bs)) ∧ wrote s T q ro wo i k bs s' l' T').
Proof.
  induction k as [|k IH]; intros [|fuel] i s l T q ro wo Hc Hk Hq He Hro Hi Hn Hlen Hf; try lia; cbn [pipewrite_loop].
  { rewrite decide_False by lia. apply wp_ret. exists l, T, []. rewrite Z.add_0_r. split; [done|].
    split; simpl; rewrite ?app_nil_r; [done|done|done|by intros ? ?|exists (pm_of s); by rewrite with_pm_of|done|lia|lia]. }
  pose proof Hc as [Hpre Hno Hp Hroot Hl Hpg]. pose proof (us_top _ _ _ _ _ _ (pre_ok _ _ _ _ _ _ _ Hpre)) as HM.
  pose proof (uc_cpu _ _ _ _ (pre_cur _ _ _ _ _ _ _ Hpre)) as Hcpu. assert (MAXVA = 2 ^ 38) by done.
  rewrite decide_True by lia. unfold ld32. wp_go. destruct He as [Er Ew]. rewrite Er, decide_False by done.
  eapply killed_spec; [done|done|done|done|]. rewrite Hk, decide_False by tauto. wp_go.
  rewrite decide_False. 2:{ rewrite (ring_full _ _ q) by done. lia. }
  wp_go. eapply wp_proc_at; [done|]. wp_go. rewrite Hroot. unfold u64. rewrite wrap_small by lia.
  eapply wp_mono; [apply (copyin_one s l T root top size (addr + i) Hpre); lia|].
  intros [r bs1] s1 (l1 & T1 & Hug & Hr). cbn [fst snd] in *.
  destruct (pctx_copied s l T root top size pi pr p 0 0 s1 l1 T1 Hc (copied_ugrow _ _ _ _ _ _ _ _ _ _ _ Hug)) as (Hc1 & [pm1 E1] & Hb1).
  destruct (pipe_ext _ _ (bytes_of s1) q ro wo Hb1 Hq ltac:(done)) as [Hq1 He1].
  assert (umono top s T s1 T1) as Hm1.
  { intros va b Hva Hb. destruct (ug_keep _ _ _ _ _ _ _ _ _ Hug va Hva (uload_valid _ _ _ _ Hb)). congruence. }
  destruct Hr as [[-> Hnone]|[-> Hch]].
  { rewrite decide_True by done. apply wp_ret. exists l1, T1, []. rewrite Z.add_0_r. split; [done|].
    split; simpl; rewrite ?app_nil_r; [done|done|done|done|by exists pm1|done|lia|]. intros _. by rewrite Z.add_0_r. }
  rewrite decide_False by done. set (ch := bs1 !!! 0%nat) in *. unfold st32, st8. wp_go. apply wp_mod_bytes. wp_go. apply wp_mod_bytes. st_simpl. simpl.
  assert (load32 (bytes_of s) (pi_nwrite pi) = load32 (bytes_of s1) (pi_nwrite pi)) as ->.
  { symmetry. apply load32_ext. intros x Hx. apply Hb1. pipe_off. lia. }
  destruct (ring_push (bytes_of s1) pi q ch ro wo Hq1 He1) as (Hq2 & He2 & Hf2); [lia|].
  set (f := λ m : mem, upd (store32 m (pi_nwrite pi) (u32 (load32 m (pi_nwrite pi) + 1))) (pi_data pi (load32 m (pi_nwrite pi) mod PIPESIZE)) (u8 ch)).
  destruct (pctx_write s1 l1 T1 root top size pi pr p f Hc1 Hf2) as [Hc2 Hu2].
  match goal with |- wp _ ?x _ => set (s2 := x) end. change (with_pm _ s1) with s2 in Hc2, Hu2.
  assert (bytes_of s2 = f (bytes_of s1)) as E2 by (unfold s2; by st_simpl).
  eapply wp_mono; [apply (IH fuel (i + 1) s2 l1 T1 (q ++ [u8 ch]) ro wo Hc2 Hk); rewrite ?E2, ?length_app; simpl; done || lia|].
  intros r' s3 (l3 & T3 & bs & -> & [Hc3 Hq3 He3 Hm3 [pm3 E3] Hb3 Hl3 Hs3]). exists l3, T3, (ch :: bs).
  assert (umono top s1 T1 s2 T1) as Hm12 by (intros va b Hva Hb; by rewrite Hu2).
  pose proof (umono_trans _ _ _ _ _ _ _ Hm12 Hm3) as Hm13. split; [simpl; f_equal; lia|].
  split; simpl; [done| |done|by eapply umono_trans| | |lia|].
  - by rewrite <- app_assoc in Hq3.
  - exists pm3. rewrite E3. unfold s2. rewrite E1. by st_simpl.
  - intros [|j] b Hj.
    + simpl in Hj. injection Hj as <-. rewrite Z.add_0_r. apply Hm13; [lia|done].
    + specialize (Hb3 j b Hj). rewrite <- Hb3. f_equal. lia.
  - intros Hlt. replace (addr + i + Z.of_nat (Datatypes.S (length bs))) with (addr + (i + 1) + Z.of_nat (length bs)) by lia.
    eapply (umono_none top); [eapply umono_trans; [exact Hm1|exact Hm12]|lia|]. apply Hs3. lia.
Qed.

(** What [piperead]'s loop leaves after storing the first [c] bytes of [q] at
    offset [i]. *)
Record taken (s : S) (T : ptree) (q : list Z) (ro wo i : Z) (k c : nat) (s' : S) (l' : list Z) (T' : ptree) : Prop := mkTaken {
  tk_ctx : pctx s' l' T' root top size pi pr p;
  tk_queue : pipe_holds (bytes_of s') pi (drop c q);
  tk_ends : pipe_ends (bytes_of s') pi ro wo;
  tk_state : ∃ pm, s' = with_pm pm s;
  tk_bytes : ∀ j b, (j < c)%nat → q !! j = Some b → ul s' T' (addr + i + Z.of_nat j) = Some (u8 b);
  tk_keep : ∀ va b, 0 ≤ va < top → (va < addr + i ∨ addr + n ≤ va) → ul s T va = Some b → ul s' T' va = Some b;
  tk_pte : ∀ va, 0 ≤ va < top → valid (pte s T va) → pte s' T' va = pte s T va;
  tk_len : (c ≤ k)%nat ∧ (c ≤ length q)%nat;
}.

Lemma uwritable_mono s T s' T' va :
  (∀ va, 0 ≤ va < top → valid (pte s T va) → pte s' T' va = pte s T va) → 0 ≤ va < top →
  ¬ uwritable (bytes_of s') T' va → ¬ uwritable (bytes_of s) T va.
Proof. intros Hp Hva Hn (Hv & Hu & Hw). apply Hn. unfold uwritable. by rewrite Hp. Qed.

Lemma piperead_copy_spec k : ∀ i s l T q ro wo,
  pctx s l T root top size pi pr p → pipe_holds (bytes_of s) pi q → pipe_ends (bytes_of s) pi ro wo →
  0 ≤ i → n - i = Z.of_nat k →
  wp (piperead_copy kend k pi addr pr i) s (λ r s', ∃ l' T' c, taken s T q ro wo i k c s' l' T' ∧
    (r = i + Z.of_nat c ∧ c = Nat.min k (length q) ∨
     r = (if decide (i + Z.of_nat c = 0) then -1 else i + Z.of_nat c) ∧ (c < Nat.min k (length q))%nat ∧
       ¬ uwritable (bytes_of s) T (addr + i + Z.of_nat c))).
Proof.
  assert (∀ k i s l T q ro wo, pctx s l T root top size pi pr p → pipe_holds (bytes_of s) pi q →
    pipe_ends (bytes_of s) pi ro wo → taken s T q ro wo i k 0 s l T) as Hzero.
  { intros. split; simpl; rewrite ?drop_0; try done; [|lia|lia]. exists (pm_of s). by rewrite with_pm_of. }
  induction k as [|k IH]; intros i s l T q ro wo Hc Hq He Hi Hn; cbn [piperead_copy].
  { apply wp_ret. exists l, T, 0%nat. split; [by apply Hzero|]. left. simpl. lia. }
  pose proof Hc as [Hpre Hno Hp Hroot Hl Hpg]. pose proof (us_top _ _ _ _ _ _ (pre_ok _ _ _ _ _ _ _ Hpre)) as HM.
  assert (MAXVA = 2 ^ 38) by done. unfold ld32. wp_go.
  case_decide as Hemp.
  { apply (ring_empty _ _ q) in Hemp as ->; [|done]. apply wp_ret. exists l, T, 0%nat. split; [by apply Hzero|]. left. simpl. lia. }
  destruct q as [|b q]; [by destruct Hemp; apply (ring_empty _ _ [])|].
  unfold ld8. wp_go. eapply wp_proc_at; [done|]. wp_go. rewrite Hroot. unfold u64. rewrite wrap_small by lia.
  destruct (ring_pop (bytes_of s) pi q b ro wo Hq He) as (Hb & _).  rewrite Hb.
  eapply wp_mono; [apply (copyout_loop_spec kend 2 (addr + i) [b] s l T root top size Hpre); simpl; lia|].
  intros r s1 (l1 & T1 & Hcp & Hr). change (Z.of_nat (length [b])) with 1 in *. simpl length in Hr.
  destruct (pctx_copied s l T root top size pi pr p _ _ s1 l1 T1 Hc Hcp) as (Hc1 & [pm1 E1] & Hb1).
  destruct (pipe_ext _ _ (bytes_of s1) (b :: q) ro wo Hb1 Hq He) as [Hq1 He1].
  destruct Hr as [[-> Hnw]|[-> Hw]].
  { rewrite decide_True by done. apply wp_ret. exists l1, T1, 0%nat. split; [|right].
    - split; simpl; rewrite ?drop_0; [done|done|done|by exists pm1|lia| |apply Hcp|lia].
      intros va b' Hva Hout. apply (cp_keep _ _ _ _ _ _ _ _ _ _ _ Hcp); [done|lia].
    - rewrite Z.add_0_r. split_and!; [done|simpl; lia|]. destruct (Hnw ltac:(lia)) as (j & Hj & Hn').
      replace j with 0 in Hn' by lia. by rewrite Z.add_0_r in *. }
  rewrite decide_False by done. unfold st32. wp_go. apply wp_mod_bytes.
  assert (load32 (bytes_of s) (pi_nread pi) = load32 (bytes_of s1) (pi_nread pi)) as ->.
  { symmetry. apply load32_ext. intros x Hx. apply Hb1. pipe_off. lia. }
  destruct (ring_pop (bytes_of s1) pi q b ro wo Hq1 He1) as (_ & Hq2 & He2 & Hf2).
  set (f := λ m : mem, store32 m (pi_nread pi) (u32 (load32 m (pi_nread pi) + 1))).
  destruct (pctx_write s1 l1 T1 root top size pi pr p f Hc1 Hf2) as [Hc2 Hu2].
  match goal with |- wp _ ?x _ => set (s2 := x) end. change (with_pm _ s1) with s2 in Hc2, Hu2.
  assert (bytes_of s2 = f (bytes_of s1)) as E2 by (unfold s2; by st_simpl).
  assert (∀ va, pte s2 T1 va = pte s1 T1 va) as Hp2.
  { destruct (private_write s1 l1 T1 root top pi f) as (_ & Hpt & _); [apply Hc1|apply Hc1|done|exact Hpt]. }
  assert (∀ va, 0 ≤ va < top → valid (pte s T va) → pte s2 T1 va = pte s T va) as Hpt.
  { intros va Hva Hv. rewrite Hp2. by apply (cp_pte _ _ _ _ _ _ _ _ _ _ _ Hcp). }
  eapply wp_mono; [apply (IH (i + 1) s2 l1 T1 q ro wo Hc2); rewrite ?E2; done || lia|].
  intros r' s3 (l3 & T3 & c & [Hc3 Hq3 He3 [pm3 E3] Hb3 Hk3 Hpt3 Hl3] & Hr). exists l3, T3, (Datatypes.S c). split.
  - split; simpl; [done|done|done| | | | |lia].
    + exists pm3. rewrite E3. unfold s2. rewrite E1. by st_simpl.
    + intros [|j] b' Hj Hbj; [|specialize (Hb3 j b' ltac:(lia) Hbj); rewrite <- Hb3; f_equal; lia].
      simpl in Hbj. injection Hbj as <-. rewrite Z.add_0_r. apply Hk3; [lia|lia|]. rewrite Hu2 by lia.
      specialize (Hw 0%nat ltac:(lia)). by rewrite Z.add_0_r in Hw.
    + intros va b' Hva Hout Hvb. apply Hk3; [done|lia|]. rewrite Hu2 by done.
      apply (cp_keep _ _ _ _ _ _ _ _ _ _ _ Hcp); [done|lia|done].
    + intros va Hva Hv. rewrite Hpt3; [by apply Hpt|done|]. by rewrite Hpt.
  - destruct Hr as [[-> ->]|(-> & Hlt & Hnw)]; [left; simpl; lia|right]. split_and!; [|simpl; lia|].
    + replace (i + 1 + Z.of_nat c) with (i + Z.of_nat (Datatypes.S c)) by lia. done.
    + replace (addr + i + Z.of_nat (Datatypes.S c)) with (addr + (i + 1) + Z.of_nat c) by lia.
      eapply uwritable_mono; [exact Hpt|lia|done].
Qed.

End Transfer.

(** [if(wq_has_sleeper(c)) wakeup_one(c)]: one sleeper on [c] is woken if
    there is one. *)
Definition woken_one (c : Z) (t t' : ptab) : Prop :=
  (∃ i p, procs t !! i = Some p ∧ state p = SLEEPING ∧ chan p = c ∧
     keeps (λ j p, if decide (j = i) then set_state RUNNABLE p else p) t t') ∨
  (∀ i p, procs t !! i = Some p → state p = SLEEPING → chan p ≠ c) ∧ t' = t.

Lemma wake_if_waiting_spec c s : quiet s → 1 ≤ noff (mycpu (hw_of s)) →
  wp (wake_if_waiting c) s (λ _ s', ∃ t', s' = with_pt t' s ∧ wq_inv t' ∧ woken_one c (pt_of s) t').
Proof.
  intros Hq Hn. pose proof (q_cpu _ Hq) as Hcpu. unfold wake_if_waiting. wp_go. destruct (wq_has_sleeper c (pt_of s)) eqn:E.
  - destruct (wakeup_one_spec c s Hq) as (t' & Ew & Hinv & Hw). eapply wp_ok; [exact Ew|]. exists t'.
    rewrite hw_settle_nested by (done || lia). by rewrite with_hw_of.
  - apply wp_ret. exists (pt_of s). rewrite with_pt_of. split_and!; [done|apply Hq|]. right. split; [|done].
    intros i p Hp Hs <-. destruct (q_inv _ Hq) as [L Hok]. pose proof (wo_sleep _ _ Hok i p Hp Hs) as Hin.
    pose proof (wo_chain _ _ Hok _ (bucket_lt (chan p))) as Hc. apply chain_head in Hc.
    unfold wq_has_sleeper in E. rewrite Hc in E. by destruct (L (wq_bucket_for (chan p))); [apply elem_of_nil in Hin|].
Qed.

(** A process about to enter the kernel's pipe code. *)
Record pidle (s : S) (l : list Z) (T : ptree) (root top size pi : Z) (pr : nat) (p : proc) : Prop := mkPidle {
  pd_copy : copy_pre kend s l T root top size;
  pd_quiet : quiet s;
  pd_lock : lock_free (L_pipe pi) (hw_of s);
  pd_cur : cproc (mycpu (hw_of s)) = Some pr;
  pd_proc : procs (pt_of s) !! pr = Some p;
  pd_root : pagetable p = root;
  pd_page : fresh_page s l T top pi;
}.

Lemma copy_pre_hw s l T root top size h :
  copy_pre kend s l T root top size → cpu_ok h → lock_free L_kmem h → cproc (mycpu h) = cproc (mycpu (hw_of s)) →
  copy_pre kend (with_hw h s) l T root top size.
Proof.
  intros [[Hvm Htop Hd Hi] Hgu [Hcpu (i & p & Hc & Hp & Hr & Hz) Hs Ht]] Hok Hl Ec. destruct Hvm as [Hca Hkm Hwf Hf].
  split; [split; [|done|..]| |]; st_simpl.
  - split; st_simpl; try done. split; st_simpl; done.
  - done.
  - done.
  - intros va. st_simpl. apply Hgu.
  - split; st_simpl; try done. exists i, p. by rewrite Ec.
Qed.

Lemma quiet_acq s lk : quiet s → (∀ b, lk ≠ lkb b) → (∀ i, lk ≠ lkp i) → quiet (with_hw (hw_acq lk (hw_of s)) s).
Proof.
  intros [Hcpu Hb Hp Hi] Nb Np. split; st_simpl; [auto with xv6| | |done].
  - intros b Hb'. apply lock_free_acq; [done|auto].
  - intros j q Hj. apply lock_free_acq; [done|]. by eapply Hp.
Qed.

(** Entering: [myproc] and [acquire(&pi->lock)]. *)
Lemma pipe_enter s l T root top size pi pr p :
  pidle s l T root top size pi pr p →
  let h := hw_settle (hw_of s) in
  let s1 := with_hw (hw_acq (L_pipe pi) h) s in
  pctx s1 l T root top size pi pr p ∧ quiet s1 ∧ cpu_ok h ∧ lock_free (L_pipe pi) h.
Proof.
  intros [Hpre Hq Hl Hc Hp Hr Hpg] h s1. pose proof (q_cpu _ Hq) as Hcpu.
  assert (cpu_ok h) as Hok by (unfold h; auto with xv6).
  assert (cproc (mycpu (hw_acq (L_pipe pi) h)) = cproc (mycpu (hw_of s))) as Ec.
  { rewrite cproc_acq. apply settled_cproc. auto with xv6. }
  assert (quiet (with_hw h s)) as Hq'.
  { destruct Hq as [_ Hb Hpl Hi]. unfold h. split; st_simpl; done. }
  split_and!; [|by pose proof (quiet_acq _ (L_pipe pi) Hq' ltac:(done) ltac:(done)) as Hq''; st_simpl|done|done].
  split; unfold s1; st_simpl; try done.
  - apply copy_pre_hw; [done|auto with xv6| |done]. apply lock_free_acq; [done|].
    apply (ca_lock _ (vo_alloc _ _ _ _ _ (us_vm _ _ _ _ _ _ (pre_ok _ _ _ _ _ _ _ Hpre)))).
  - rewrite noff_acq. pose proof (noff_nonneg _ Hok). lia.
  - apply lock_free_acq; [done|]. by eapply (q_proc _ Hq).
  - destruct Hpg as [Hd Hno]. split; [done|]. by st_simpl.
Qed.

(** Leaving: the wakeup and [release(&pi->lock)]. *)
Lemma pipe_leave {A} c pi h s0 s1 s (r : A) (Q : A → S → Prop) :
  quiet s1 → s1 = with_hw (hw_acq (L_pipe pi) h) s0 → cpu_ok h → lock_free (L_pipe pi) h → (∃ pm, s = with_pm pm s1) →
  (∀ t', wq_inv t' → woken_one c (pt_of s) t' → Q r (with_pt t' (with_hw (hw_settle h) s))) →
  wp (wake_if_waiting c ;; release (L_pipe pi) ;; ret r) s Q.
Proof.
  intros Hq E Hok Hl [pm ->] HQ. wp_go. assert (hw_of (with_pm pm s1) = hw_acq (L_pipe pi) h) as Eh by (rewrite E; by st_simpl).
  assert (quiet (with_pm pm s1)) as Hq' by (destruct Hq; split; st_simpl; done).
  eapply wp_mono; [apply wake_if_waiting_spec; [done|rewrite Eh, noff_acq; pose proof (noff_nonneg _ Hok); lia]|].
  intros [] s2 (t' & -> & Hi & Hw). wp_go. eapply (wp_release _ _ h); [by rewrite hw_of_with_pt|done|done|].
  apply wp_ret. specialize (HQ t' Hi Hw). st_simpl. done.
Qed.

(** [bs], read from user memory at [addr], has been appended to [q]. *)
Record write_post (top pi addr n ro wo : Z) (s : S) (T : ptree) (q bs : list Z) (s' : S) (T' : ptree) : Prop := mkWritePost {
  wp_queue : pipe_holds (bytes_of s') pi (q ++ (u8 <$> bs));
  wp_ends : pipe_ends (bytes_of s') pi ro wo;
  wp_bytes : ∀ j b, bs !! j = Some b → ul s' T' (addr + Z.of_nat j) = Some b;
  wp_user : umono top s T s' T';
  wp_len : Z.of_nat (length bs) ≤ n;
  wp_short : Z.of_nat (length bs) < n → ul s T (addr + Z.of_nat (length bs)) = None;
  wp_lock : lock_free (L_pipe pi) (hw_of s');
  wp_wq : wq_inv (pt_of s');
  wp_woken : woken_one (pi_nread pi) (pt_of s) (pt_of s');
}.

(** All bytes are appended when all are mapped. *)
Lemma write_all top pi addr n ro wo s T q bs s' T' src :
  write_post top pi addr n ro wo s T q bs s' T' → 0 ≤ addr → addr + n ≤ top → Z.of_nat (length src) = n →
  reads_at (bytes_of s) T addr src → bs = src.
Proof.
  intros [_ _ Hb Hu Hl Hs _ _ _] Ha Ht Hsrc Hr.
  assert (length bs = length src) as El.
  { destruct (decide (length bs < length src)%nat) as [Hlt|]; [|lia]. destruct (lookup_lt_is_Some_2 src _ Hlt) as [b Hbs].
    apply Hr in Hbs. rewrite Hs in Hbs by lia. done. }
  apply (list_eq_same_length _ _ (length src)); [done|done|]. intros i x y Hi Hx Hy. apply Hb in Hx. apply Hr, Hu in Hy; [congruence|lia].
Qed.

Lemma pipewrite_spec s l T root top size pi pr p addr n q ro wo fuel :
  pidle s l T root top size pi pr p → ProcDefs.killed p = 0 →
  pipe_holds (bytes_of s) pi q → pipe_ends (bytes_of s) pi ro wo → ro ≠ 0 →
  0 ≤ n → Z.of_nat (length q) + n ≤ PIPESIZE → 0 ≤ addr → addr + n ≤ top → (Z.to_nat n < fuel)%nat →
  wp (pipewrite kend fuel pi addr n) s (λ r s', ∃ T' bs, r = Z.of_nat (length bs) ∧
    write_post top pi addr n ro wo s T q bs s' T').
Proof.
  intros Hid Hk Hq He Hro Hn Hlen Ha Ht Hf. destruct (pipe_enter s l T root top size pi pr p Hid) as (Hc & Hqu & Hok & Hl).
  set (h := hw_settle (hw_of s)) in *. set (s1 := with_hw _ s) in *. unfold pipewrite. wp_go.
  eapply wp_curproc; [apply (q_cpu _ (pd_quiet _ _ _ _ _ _ _ _ _ Hid))|apply Hid|]. wp_go. apply wp_acquire; st_simpl; [done|].
  fold h s1. wp_go. eapply wp_mono.
  { apply (pipewrite_loop_spec root top size pi addr n pr p Ha Ht (Z.to_nat n) fuel 0 s1 l T q ro wo);
      unfold s1; st_simpl; done || lia. }
  intros r s2 (l2 & T2 & bs & -> & [Hc2 Hq2 He2 Hm2 [pm ->] Hb2 Hl2 Hs2]). rewrite Z.add_0_l, Z.add_0_r in *.
  assert (umono top s T (with_pm pm s1) T2) as Hm by (unfold umono, s1 in *; st_simpl; done).
  eapply (pipe_leave _ _ h s s1); [done|done|done|done|by exists pm|].
  intros t' Hi Hw. exists T2, bs. split; [done|]. unfold s1, umono in *. split; st_simpl; try done.
  - unfold umono. st_simpl. done.
  - lia.
  - intros Hlt. apply Hs2. lia.
Qed.

(** The first [c] bytes of [q] have been stored in user memory at [addr]. *)
Record read_post (top pi addr n ro wo : Z) (s : S) (T : ptree) (q : list Z) (c : nat) (s' : S) (T' : ptree) : Prop := mkReadPost {
  rp_queue : pipe_holds (bytes_of s') pi (drop c q);
  rp_ends : pipe_ends (bytes_of s') pi ro wo;
  rp_bytes : ∀ j b, (j < c)%nat → q !! j = Some b → ul s' T' (addr + Z.of_nat j) = Some (u8 b);
  rp_keep : ∀ va b, 0 ≤ va < top → (va < addr ∨ addr + n ≤ va) → ul s T va = Some b → ul s' T' va = Some b;
  rp_lock : lock_free (L_pipe pi) (hw_of s');
  rp_wq : wq_inv (pt_of s');
  rp_woken : woken_one (pi_nwrite pi) (pt_of s) (pt_of s');
}.

Lemma piperead_spec s l T root top size pi pr p addr n q ro wo fuel :
  pidle s l T root top size pi pr p →
  pipe_holds (bytes_of s) pi q → pipe_ends (bytes_of s) pi ro wo → (q ≠ [] ∨ wo = 0) →
  0 ≤ n → 0 ≤ addr → addr + n ≤ top → (0 < fuel)%nat →
  wp (piperead kend fuel pi addr n) s (λ r s', ∃ T' c, read_post top pi addr n ro wo s T q c s' T' ∧
    (r = Z.of_nat c ∧ c = Nat.min (Z.to_nat n) (length q) ∨
     r = (if decide (c = 0%nat) then -1 else Z.of_nat c) ∧ (c < Nat.min (Z.to_nat n) (length q))%nat ∧
       ¬ uwritable (bytes_of s) T (addr + Z.of_nat c))).
Proof.
  intros Hid Hq He Hne Hn Ha Ht Hf. destruct (pipe_enter s l T root top size pi pr p Hid) as (Hc & Hqu & Hok & Hl).
  set (h := hw_settle (hw_of s)) in *. set (s1 := with_hw _ s) in *. unfold piperead. wp_go.
  eapply wp_curproc; [apply (q_cpu _ (pd_quiet _ _ _ _ _ _ _ _ _ Hid))|apply Hid|]. wp_go. apply wp_acquire; st_simpl; [done|].
  fold h s1. destruct fuel as [|fuel]; [lia|]. cbn [piperead_wait]. unfold ld32. wp_go.
  assert (bytes_of s1 = bytes_of s) as Eb by (unfold s1; by st_simpl). rewrite Eb. rewrite decide_False.
  2:{ rewrite (ring_empty _ _ q) by done. destruct He as [_ ->]. tauto. }
  wp_go. eapply wp_mono.
  { apply (piperead_copy_spec root top size pi addr n pr p Ha Ht (Z.to_nat n) 0 s1 l T q ro wo); rewrite ?Eb; done || lia. }
  intros r s2 (l2 & T2 & c & [Hc2 Hq2 He2 [pm ->] Hb2 Hk2 _ Hl2] & Hr). rewrite Z.add_0_l, Z.add_0_r in *. rewrite Eb in *.
  eapply (pipe_leave _ _ h s s1); [done|done|done|done|by exists pm|].
  intros t' Hi Hw. exists T2, c. split.
  - split; unfold s1 in *; st_simpl; try done.
  - destruct Hr as [?|(-> & ? & ?)]; [by left|right]. split_and!; [|done|done].
    destruct (decide (c = 0%nat)) as [->|]; [by rewrite decide_True|by rewrite decide_False by lia].
Qed.

Lemma kmem_ok_private pm m' l p :
  kmem_ok kend pm l → page_ok kend p → p ∉ l → (∀ x, ¬ in_page p x → m' x = bytes pm x) →
  kmem_ok kend (mkPmem m' (freelist pm)) l.
Proof.
  intros [Hfl Hnd] Hp Hl Hm. split; [|done]. simpl. eapply flist_out; [exact Hfl|]. intros x Hx. apply Hm. intros Hin.
  apply Hx. intros q Hq. apply (pages_disjoint kend p); [done|by eapply flist_page|by intros ->|done].
Qed.

Lemma pipeclose_spec pi (w : bool) s l q ro wo :
  can_alloc s → quiet s → lock_free (L_pipe pi) (hw_of s) → kmem_ok kend (pm_of s) l → page_ok kend pi → pi ∉ l →
  pipe_holds (bytes_of s) pi q → pipe_ends (bytes_of s) pi ro wo →
  let ro' := if w then ro else 0 in
  let wo' := if w then 0 else wo in
  let c := if w then pi_nread pi else pi_nwrite pi in
  wp (pipeclose kend pi (if w then 1 else 0)) s (λ _ s',
    lock_free (L_pipe pi) (hw_of s') ∧ wq_inv (pt_of s') ∧ keeps (λ _ p, wake1 c p) (pt_of s) (pt_of s') ∧
    (if decide (ro' = 0 ∧ wo' = 0) then kmem_ok kend (pm_of s') (pi :: l)
     else kmem_ok kend (pm_of s') l ∧ pipe_holds (bytes_of s') pi q ∧ pipe_ends (bytes_of s') pi ro' wo')).
Proof.
  intros [Hcpu Hlk] Hqu Hl Hkm Hpg Hnl Hq He ro' wo' c.
  destruct (ring_close (bytes_of s) pi q ro wo w Hq He) as (Hq' & He' & Hfr). fold ro' wo' in He'.
  set (m' := store32 (bytes_of s) _ 0) in *. unfold pipeclose. wp_go. apply wp_acquire; [done|].
  set (h := hw_of s) in *. set (s1 := with_pm (mkPmem m' (freelist (pm_of s))) (with_hw (hw_acq (L_pipe pi) h) s)).
  assert (quiet s1) as Hq1.
  { pose proof (quiet_acq s (L_pipe pi) Hqu ltac:(done) ltac:(done)) as [? ? ? ?]. unfold s1. split; st_simpl; done. }
  destruct (wakeup_spec c s1 Hq1) as (t' & Ew & Hinv & Hk).
  assert (hw_settle (hw_of s1) = hw_acq (L_pipe pi) h) as Es.
  { unfold s1. st_simpl. apply hw_settle_nested; [auto with xv6|]. rewrite noff_acq. pose proof (noff_nonneg _ Hcpu). lia. }
  rewrite Es in Ew. set (s2 := with_pt t' s1).
  assert (with_pt t' (with_hw (hw_acq (L_pipe pi) h) s1) = s2) as E2 by (unfold s2, s1; by st_simpl). rewrite E2 in Ew.
  assert (∀ {A} (K : unit → M S A) Q, wp (K tt) s2 Q → wp (bind (if decide ((if w then 1 else 0) ≠ 0) then
      st32 (pi_writeopen pi) 0 ;; wakeup (pi_nread pi) else st32 (pi_readopen pi) 0 ;; wakeup (pi_nwrite pi)) K)
      (with_hw (hw_acq (L_pipe pi) h) s) Q) as Hstep.
  { intros A K Q HK. wp_go. unfold st32. unfold c, m' in *. unfold s1 in Ew.
    destruct w; simpl; wp_go; apply wp_mod_bytes; st_simpl; (eapply wp_ok; [exact Ew|done]). }
  apply Hstep. unfold ld32. wp_go.
  assert (bytes_of s2 = m') as Eb by (unfold s2, s1; by st_simpl). rewrite Eb. destruct He' as [Er Ewo]. rewrite Er, Ewo.
  assert (keeps (λ _ p, wake1 c p) (pt_of s) t') as Hk' by (unfold s1 in Hk; by st_simpl).
  pose proof (kmem_ok_private (pm_of s) m' l pi Hkm Hpg Hnl Hfr) as Hkm'.
  assert (lock_free (L_pipe pi) (hw_settle h)) as Hl' by done.
  destruct (decide (ro' = 0 ∧ wo' = 0)) as [Hd|Hd].
  - wp_go. eapply (wp_release _ _ h); [unfold s2, s1; by st_simpl|done|done|].
    destruct (kfree_spec kend (with_hw (hw_settle h) s2) pi l) as (m2 & Hf & Hkm2 & _); [|unfold s2, s1; by st_simpl|done|done|].
    { split; unfold s2, s1; st_simpl; auto with xv6. }
    eapply wp_ok; [exact Hf|]. unfold s2, s1. st_simpl. rewrite hw_settle_settle. done.
  - eapply (wp_release _ _ h); [unfold s2, s1; by st_simpl|done|done|]. unfold s2, s1. st_simpl. simpl. done.
Qed.

(** A writer that finds the pipe full gives up the processor. *)
Lemma pipewrite_full s l T root top size pi pr p addr n q ro wo fuel :
  pidle s l T root top size pi pr p → ProcDefs.killed p = 0 → state p ≠ SLEEPING → noff (mycpu (hw_of s)) = 0 →
  pipe_holds (bytes_of s) pi q → pipe_ends (bytes_of s) pi ro wo → ro ≠ 0 →
  0 < n → Z.of_nat (length q) = PIPESIZE →
  wps (pipewrite kend (Datatypes.S fuel) pi addr n) s (λ s' _, ∃ t', woken_one (pi_nread pi) (pt_of s) t' ∧
    pt_of s' = go_to_sleep (pi_nwrite pi) pr t' ∧ pm_of s' = pm_of s ∧
    lock_free (L_pipe pi) (hw_of s') ∧ wq_inv (pt_of s')).
Proof.
  intros Hid Hk Hst Hn0 Hq He Hro Hn Hfull. destruct (pipe_enter s l T root top size pi pr p Hid) as (Hc & Hqu & Hok & Hl).
  set (h := hw_settle (hw_of s)) in *. set (s1 := with_hw _ s) in *. unfold pipewrite. wp_go.
  eapply wp_curproc; [apply (q_cpu _ (pd_quiet _ _ _ _ _ _ _ _ _ Hid))|apply Hid|]. wp_go. apply wp_acquire; st_simpl; [done|].
  fold h s1. cbn [pipewrite_loop]. rewrite decide_True by lia. unfold ld32. apply wps_bind. wp_go.
  assert (bytes_of s1 = bytes_of s) as Eb by (unfold s1; by st_simpl). rewrite Eb. destruct He as [-> _]. rewrite decide_False by done.
  pose proof Hc as [_ Hno Hp _ Hlp _].
  eapply killed_spec; [apply Hqu|done|done|done|]. rewrite Hk, decide_False by tauto. wp_go. rewrite Eb.
  rewrite decide_True by (by apply (ring_full _ _ q)). wp_go.
  eapply wp_mono; [by apply wake_if_waiting_spec|]. intros [] s2 (t' & -> & Hi & Hw). apply wps_bind.
  assert (∃ p', procs t' !! pr = Some p' ∧ state p' ≠ SLEEPING) as (p' & Hp' & Hst').
  { destruct Hw as [(i & pi' & Hpi & Hs & _ & (_ & _ & _ & Hk'))|[_ ->]]; [|by eexists].
    destruct (Hk' pr p Hp) as [e He']. eexists. split; [exact He'|]. simpl. case_decide; [done|done]. }
  destruct (sleep_spec (pi_nwrite pi) (L_pipe pi) (with_pt t' s1) pr p' h) as (h' & k & E & _ & Hi' & Hl' & _);
    try done; st_simpl; try done.
  - unfold s1. by st_simpl.
  - unfold h. by rewrite noff_settle.
  - unfold h. rewrite (settled_cproc _ _ (settled_settle _)). apply Hid.
  - apply (q_wq _ (pd_quiet _ _ _ _ _ _ _ _ _ Hid)), bucket_lt.
  - apply (q_proc _ (pd_quiet _ _ _ _ _ _ _ _ _ Hid) pr p), Hid.
  - unfold wps. rewrite E. exists t'. unfold s1. st_simpl. split_and!; try done.
    + unfold s1 in Hw. by st_simpl.
    + unfold lock_free. by rewrite Hl'.
Qed.

End Spec.

(** ** A pipe that holds two bytes, with its counters about to wrap *)

Definition ex_pipe : Z := ex_page 13.
Definition ex_pipe_fill (m : mem) : mem :=
  upd (upd (store32 (store32 (store32 (store32 m (pi_nread ex_pipe) 4294967295) (pi_nwrite ex_pipe) 1)
    (pi_readopen ex_pipe) 1) (pi_writeopen ex_pipe) 1) (pi_data ex_pipe 511) 65) (pi_data ex_pipe 0) 66.
Definition ex_pipe_st : kmemst := mkKmem ex_vm_hw ex_vm_table (mkPmem (ex_pipe_fill ex_links) (ex_page 1)).

Lemma ex_pipe_page : fresh_page KERNBASE ex_vm ex_free {[[] := ex_root]} TRAPFRAME ex_pipe.
Proof.
  split; [split; [unfold page_ok; split_and!; vm_compute; done|split]|].
  - apply (bool_decide_unpack _). vm_compute. exact I.
  - intros x [_ E]%lookup_singleton_Some. revert E. by vm_compute.
  - intros va _. rewrite ex_pte. by intros ?%valid_0.
Qed.

Lemma ex_pipe_fill_out x : ¬ in_page ex_pipe x → ex_pipe_fill ex_links x = ex_links x.
Proof.
  intros Hx. unfold ex_pipe_fill. pipe_off. rewrite !upd_ne, !store32_out by lia. done.
Qed.

Lemma ex_vm_free lk : lk ≠ L_kmem → lk ≠ L_pipe ex_pipe → lock_free lk ex_hw → lock_free lk ex_vm_hw.
Proof.
  intros ? ? [n Hn]. exists n. unfold ex_vm_hw. cbn [locks]. by rewrite !lookup_insert_ne.
Qed.

Lemma ex_vm_quiet pm : quiet (mkKmem ex_vm_hw ex_vm_table pm).
Proof.
  split; cbn [hw_of pt_of HasHw_kmem HasProcs_kmem km_hw km_pt].
  - exact ex_hw_ok.
  - intros b Hb. by apply ex_vm_free, ex_wq_free.
  - intros j q Hj%lookup_lt_Some. by apply ex_vm_free, ex_proc_free.
  - eexists. apply wq_ok_empty; [done| |].
    + intros b Hb. do 16 (destruct b as [|b]; [done|]). lia.
    + intros i p. do 4 (destruct i as [|i]; [by intros [= <-]|]). done.
Qed.

Lemma ex_pipe_idle : pidle KERNBASE ex_pipe_st ex_free {[[] := ex_root]} ex_root TRAPFRAME 8192 ex_pipe 1 ex_vm_proc.
Proof.
  destruct (private_write KERNBASE ex_vm ex_free {[[] := ex_root]} ex_root TRAPFRAME ex_pipe ex_pipe_fill
    ex_us_ok ex_pipe_page ex_pipe_fill_out) as (Hus & Hpte & Hpg & _).
  destruct ex_copy_pre as [_ Hgu Hcur]. split; [split; [exact Hus| |]|apply ex_vm_quiet|by eexists|done|done|done|exact Hpg].
  - intros va _ _. change (bytes (pm_of ex_pipe_st)) with (ex_pipe_fill ex_links). rewrite ex_pte. intros [Hv _]. by eapply valid_0.
  - destruct Hcur as [? ? ? ?]. by split.
Qed.

Lemma ex_pipe_holds : pipe_holds (bytes (pm_of ex_pipe_st)) ex_pipe [65; 66] ∧ pipe_ends (bytes (pm_of ex_pipe_st)) ex_pipe 1 1.
Proof.
  split; [split; [done|by vm_compute|]|by vm_compute].
  intros [|[|k]] b; [by intros [= <-]; vm_compute|by intros [= <-]; vm_compute|done].
Qed.

(** ** The theorems *)


(** C34 [piperead] takes bytes from the front of the queue.  When there are
    bytes, or no writer is left, it stores min(n, available) bytes at [addr],
    in the order they were written, removes exactly those from the pipe and
    returns their number; if user memory is not writable at some byte it stops
    there, with -1 if that was the first byte, and the byte stays in the pipe.
    Other user memory is unchanged and one writer is woken. *)
Theorem piperead_takes (kend root top size pi addr n ro wo : Z) (fuel pr : nat) (p : proc)
    (s : kmemst) (l : list Z) (T : ptree) (q : list Z) :
  pidle kend s l T root top size pi pr p →
  pipe_holds (bytes (pm_of s)) pi q → pipe_ends (bytes (pm_of s)) pi ro wo → (q ≠ [] ∨ wo = 0) →
  0 ≤ n → 0 ≤ addr → addr + n ≤ top → (0 < fuel)%nat →
  ∃ r s' T' c, piperead kend fuel pi addr n s = Ok r s' ∧ read_post top pi addr n ro wo s T q c s' T' ∧
    (r = Z.of_nat c ∧ c = Nat.min (Z.to_nat n) (length q) ∨
     r = (if decide (c = 0%nat) then -1 else Z.of_nat c) ∧ (c < Nat.min (Z.to_nat n) (length q))%nat ∧
       ¬ uwritable (bytes (pm_of s)) T (addr + Z.of_nat c)).
Proof.
  intros A1 A2 A3 A4 A5 A6 A7 A8.
  pose proof (piperead_spec kend s l T root top size pi pr p addr n q ro wo fuel A1 A2 A3 A4 A5 A6 A7 A8)
    as (r & s' & E & T' & c & Hp & Hr)%wp_elim.
  exists r, s', T', c. by split_and!.
Qed.

(** The two channels of a pipe always share a hash bucket, bucket 3, for
    every page-aligned pipe: readers and writers of all pipes are queued
    together, so the unlocked test [wq_has_sleeper(&pi->nread)] is also true
    when only writers, or users of other pipes, sleep. *)
Theorem pipe_channels_share_bucket (pi : Z) : pi mod PGSIZE = 0 →
  wq_bucket_for (pi_nread pi) = 3%nat ∧ wq_bucket_for (pi_nwrite pi) = 3%nat.
Proof.
  unfold PGSIZE, wq_bucket_for, pi_nread, pi_nwrite. intros Hp. rewrite !wq_hash_spec.
  apply Z.mod_divide in Hp as [x ->]; [|lia]. split; f_equal.
  - replace (x * 4096 + 536) with ((x * 512 + 67) * 8) by lia. rewrite Z.div_mul by lia.
    replace (x * 512 + 67) with (3 + (x * 32 + 4) * 16) by lia. by rewrite Z.mod_add.
  - replace (x * 4096 + 540) with ((x * 512 + 67) * 8 + 4) by lia. rewrite Z.div_add_l by lia. change (4 / 8) with 0.
    replace (x * 512 + 67 + 0) with (3 + (x * 32 + 4) * 16) by lia. by rewrite Z.mod_add.
Qed.

Lemma pipe_channels_share_bucket_witness : wq_bucket_for (pi_nread 2147536896) = wq_bucket_for (pi_nwrite 2147536896).
Proof.
  destruct (pipe_channels_share_bucket 2147536896) as [E1 E2]; [reflexivity|]. rewrite E1, E2. reflexivity.
Defined.

(** [pipeclose] frees the pipe exactly when its last end is closed: then
    the page is back on the free list; otherwise the other end stays open, the
    queued bytes and the free list are as before.  Every process sleeping on
    the channel of the other end is woken. *)
Theorem pipeclose_frees_last (kend pi ro wo : Z) (w : bool) (s : kmemst) (l q : list Z) :
  can_alloc s → quiet s → lock_free (L_pipe pi) (hw_of s) → kmem_ok kend (pm_of s) l → page_ok kend pi → pi ∉ l →
  pipe_holds (bytes (pm_of s)) pi q → pipe_ends (bytes (pm_of s)) pi ro wo →
  let ro' := if w then ro else 0 in
  let wo' := if w then 0 else wo in
  ∃ s', pipeclose kend pi (if w then 1 else 0) s = Ok tt s' ∧ lock_free (L_pipe pi) (hw_of s') ∧ wq_inv (pt_of s') ∧
    keeps (λ _ p, wake1 (if w then pi_nread pi else pi_nwrite pi) p) (pt_of s) (pt_of s') ∧
    (if decide (ro' = 0 ∧ wo' = 0) then kmem_ok kend (pm_of s') (pi :: l)
     else kmem_ok kend (pm_of s') l ∧ pipe_holds (bytes (pm_of s')) pi q ∧ pipe_ends (bytes (pm_of s')) pi ro' wo').
Proof.
  intros A1 A2 A3 A4 A5 A6 A7 A8 ro' wo'.
  pose proof (pipeclose_spec kend pi w s l q ro wo A1 A2 A3 A4 A5 A6 A7 A8) as ([] & s' & E & Hp)%wp_elim.
  exists s'. by split.
Qed.

Lemma pipeclose_frees_last_witness :
  ∃ s', pipeclose KERNBASE ex_pipe 1 ex_pipe_st = Ok tt s' ∧ kmem_ok KERNBASE (pm_of s') ex_free.
Proof.
  destruct (pipeclose_frees_last KERNBASE ex_pipe 1 1 true ex_pipe_st ex_free [65; 66]) as (s' & E & _ & _ & _ & Hk & _).
  - exact (vo_alloc _ _ _ _ _ (us_vm _ _ _ _ _ _ (pre_ok _ _ _ _ _ _ _ (pd_copy _ _ _ _ _ _ _ _ _ _ ex_pipe_idle)))).
  - exact (ex_vm_quiet _).
  - exact (pd_lock _ _ _ _ _ _ _ _ _ _ ex_pipe_idle).
  - exact (vo_kmem _ _ _ _ _ (us_vm _ _ _ _ _ _ (pre_ok _ _ _ _ _ _ _ (pd_copy _ _ _ _ _ _ _ _ _ _ ex_pipe_idle)))).
  - exact (proj1 (proj1 ex_pipe_page)).
  - exact (proj1 (proj2 (proj1 ex_pipe_page))).
  - exact (proj1 ex_pipe_holds).
  - exact (proj2 ex_pipe_holds).
  - exact (ex_intro _ s' (conj E Hk)).
Defined.

Lemma ex_user_quiet pm : quiet (mkKmem ex_vm_hw ex_user_table pm).
Proof.
  split; [exact ex_hw_ok|..].
  - intros b Hb. by apply ex_vm_free, ex_wq_free.
  - intros j q Hj%lookup_lt_Some. by apply ex_vm_free, ex_proc_free.
  - eexists. apply wq_ok_empty; [done| |].
    + intros b Hb. do 16 (destruct b as [|b]; [done|]). lia.
    + intros i p. do 4 (destruct i as [|i]; [by intros [= <-]|]). done.
Qed.

(* the same pipe, written by a process with a page mapped at address 0 *)
Definition ex_pipe_user : kmemst := mkKmem ex_vm_hw ex_user_table (mkPmem (ex_pipe_fill ex_mem2) (ex_page 1)).

Lemma ex_pipe_user_idle : pidle KERNBASE ex_pipe_user ex_free ex_tree ex_parent TRAPFRAME 8192 ex_pipe 1 ex_user_proc.
Proof.
  destruct ex_user_pre as [Hus Hgu Hcur].
  destruct (private_write KERNBASE _ ex_free ex_tree ex_parent TRAPFRAME ex_pipe ex_pipe_fill Hus) as (Hus' & Hpte & Hpg & _).
  { split; [split; [unfold page_ok; split_and!; vm_compute; done|split]|].
    - by apply ex_not_free.
    - intros x (i & Hi & E)%ex_tree_page. unfold ex_pipe, ex_page, PGSIZE in E. lia.
    - intros va Hva Hv. cbn [pm_of HasMem_kmem km_pm bytes] in *. destruct (ex_pte2 va) as [-> _]; [|done|by vm_compute].
      change TRAPFRAME with (2 ^ 38 - 2 * 4096) in Hva. change MAXVA with (2 ^ 38). lia. }
  { intros x Hx. cbn [pm_of HasMem_kmem km_pm bytes]. unfold ex_pipe_fill. pipe_off. rewrite !upd_ne, !store32_out by lia. done. }
  split; [split; [exact Hus'| |]|apply ex_user_quiet|by eexists|done|done|done|exact Hpg].
  - intros va Hva0 Hva. assert (pte_at (ex_pipe_fill ex_mem2) ex_tree va = pte_at ex_mem2 ex_tree va) as E by exact (Hpte va).
    change (bytes (pm_of ex_pipe_user)) with (ex_pipe_fill ex_mem2). rewrite E. exact (Hgu va Hva0 Hva).
  - destruct Hcur as [? ? ? ?]. by split.
Qed.

Lemma ex_pipe_user_holds : pipe_holds (bytes (pm_of ex_pipe_user)) ex_pipe [65; 66] ∧ pipe_ends (bytes (pm_of ex_pipe_user)) ex_pipe 1 1.
Proof.
  split; [split; [done|by vm_compute|]|by vm_compute].
  intros [|[|k]] b; [by intros [= <-]; vm_compute|by intros [= <-]; vm_compute|done].
Qed.


Lemma piperead_takes_witness :
  ∃ r s' T' c, piperead KERNBASE 1 ex_pipe 4094 4 ex_pipe_st = Ok r s' ∧
    read_post TRAPFRAME ex_pipe 4094 4 1 1 ex_pipe_st {[[] := ex_root]} [65; 66] c s' T'.
Proof.
  destruct (piperead_takes KERNBASE ex_root TRAPFRAME 8192 ex_pipe 4094 4 1 1 1 1 ex_vm_proc ex_pipe_st ex_free
    {[[] := ex_root]} [65; 66] ex_pipe_idle) as (r & s' & T' & c & E & Hp & _).
  - exact (proj1 ex_pipe_holds).
  - exact (proj2 ex_pipe_holds).
  - left. discriminate.
  - lia.
  - lia.
  - vm_compute. discriminate.
  - lia.
  - exact (ex_intro _ r (ex_intro _ s' (ex_intro _ T' (ex_intro _ c (conj E Hp))))).
Defined.

(** C35 A writer that finds the pipe full and a reader end open switches away:
    the pipe and its bytes are unchanged, the pipe's lock is free, the writer
    sleeps on [&pi->nwrite] in a consistent wait queue, and before that one
    reader sleeping on [&pi->nread] was woken if there was one. *)
Theorem pipewrite_full_sleeps (kend root top size pi addr n ro wo : Z) (fuel pr : nat) (p : proc)
    (s : kmemst) (l : list Z) (T : ptree) (q : list Z) :
  pidle kend s l T root top size pi pr p → ProcDefs.killed p = 0 → state p ≠ SLEEPING → noff (mycpu (hw_of s)) = 0 →
  pipe_holds (bytes (pm_of s)) pi q → pipe_ends (bytes (pm_of s)) pi ro wo → ro ≠ 0 →
  0 < n → Z.of_nat (length q) = PIPESIZE →
  ∃ s' k t', pipewrite kend (S fuel) pi addr n s = Switch s' k ∧ woken_one (pi_nread pi) (pt_of s) t' ∧
    pt_of s' = go_to_sleep (pi_nwrite pi) pr t' ∧ pm_of s' = pm_of s ∧
    lock_free (L_pipe pi) (hw_of s') ∧ wq_inv (pt_of s').
Proof.
  intros A1 A2 A3 A4 A5 A6 A7 A8 A9.
  pose proof (pipewrite_full kend s l T root top size pi pr p addr n q ro wo fuel A1 A2 A3 A4 A5 A6 A7 A8 A9)
    as (s' & k & E & t' & Hp)%wps_elim.
  by exists s', k, t'.
Qed.

(** The same process beside a full pipe. *)
Definition ex_full (m : mem) : mem :=
  store32 (store32 m (pi_nwrite ex_pipe) 512) (pi_readopen ex_pipe) 1.
Definition ex_full_st : kmemst := mkKmem ex_vm_hw ex_vm_table (mkPmem (ex_full ex_links) (ex_page 1)).

Lemma ex_full_out x : ¬ in_page ex_pipe x → ex_full ex_links x = ex_links x.
Proof. intros Hx. unfold ex_full. pipe_off. rewrite !store32_out by lia. done. Qed.

Lemma ex_links_pipe x : in_page ex_pipe x → ex_links x = 0.
Proof.
  unfold in_page, ex_pipe, ex_page, ex_links, PGSIZE, KERNBASE. intros Hx. simpl foldr.
  rewrite !store64_out by (unfold ex_page, PGSIZE, KERNBASE; lia). done.
Qed.

Lemma ex_full_idle : pidle KERNBASE ex_full_st ex_free {[[] := ex_root]} ex_root TRAPFRAME 8192 ex_pipe 1 ex_vm_proc.
Proof.
  destruct (private_write KERNBASE ex_vm ex_free {[[] := ex_root]} ex_root TRAPFRAME ex_pipe ex_full
    ex_us_ok ex_pipe_page ex_full_out) as (Hus & Hpte & Hpg & _).
  destruct ex_copy_pre as [_ Hgu Hcur]. split; [split; [exact Hus| |]|apply ex_vm_quiet|by eexists|done|done|done|exact Hpg].
  - intros va _ _. change (bytes (pm_of ex_full_st)) with (ex_full ex_links). rewrite ex_pte. intros [Hv _]. by eapply valid_0.
  - destruct Hcur as [? ? ? ?]. by split.
Qed.

Lemma ex_full_holds : pipe_holds (bytes (pm_of ex_full_st)) ex_pipe (replicate 512 0) ∧
  pipe_ends (bytes (pm_of ex_full_st)) ex_pipe 1 0.
Proof.
  assert (load32 (ex_full ex_links) (pi_nread ex_pipe) = 0) as E by by vm_compute.
  split; [split; [by rewrite length_replicate|by vm_compute|]|by vm_compute].
  change (bytes (pm_of ex_full_st)) with (ex_full ex_links).
  intros k b [-> Hk]%lookup_replicate. rewrite E. pose proof (Z.mod_pos_bound (0 + Z.of_nat k) PIPESIZE ltac:(done)).
  unfold ex_full. rewrite !store32_out by (pipe_off; lia). apply ex_links_pipe. pipe_off. lia.
Qed.

Lemma pipewrite_full_sleeps_witness :
  ∃ s' k, pipewrite KERNBASE 3 ex_pipe 100 4 ex_full_st = Switch s' k ∧ pm_of s' = pm_of ex_full_st.
Proof.
  destruct (pipewrite_full_sleeps KERNBASE ex_root TRAPFRAME 8192 ex_pipe 100 4 1 0 2 1 ex_vm_proc ex_full_st ex_free
    {[[] := ex_root]} (replicate 512 0) ex_full_idle) as (s' & k & t' & E & _ & _ & Hp & _).
  - reflexivity.
  - discriminate.
  - reflexivity.
  - exact (proj1 ex_full_holds).
  - exact (proj2 ex_full_holds).
  - lia.
  - lia.
  - reflexivity.
  - exact (ex_intro _ s' (ex_intro _ k (conj E Hp))).
Defined.
