(* ===== verification/Dll.v ===== *)
(** * Circular doubly linked lists over indices

    [nx] and [pv] are the next and previous pointers; [hd] is the list head.
    [dll nx pv O]: following [nx] from [hd] visits [O] and comes back, following
    [pv] visits it backwards.  Used for the buffer cache's LRU list. *)

From S2P Require Import Prelude.

Definition fupd (g : nat → nat) (i v : nat) : nat → nat := λ j, if decide (j = i) then v else g j.

Lemma fupd_eq g i v : fupd g i v i = v.
Proof. unfold fupd. by rewrite decide_True. Qed.
Lemma fupd_ne g i v j : j ≠ i → fupd g i v j = g j.
Proof. intros. unfold fupd. by rewrite decide_False. Qed.

Fixpoint fchain (g : nat → nat) (a : nat) (l : list nat) : Prop :=
  match l with [] => True | b :: l => g a = b ∧ fchain g b l end.

(** The last element of [a :: l]. *)
Fixpoint lastd (a : nat) (l : list nat) : nat :=
  match l with [] => a | b :: l => lastd b l end.

Lemma lastd_snoc a l b : lastd a (l ++ [b]) = b.
Proof. revert a. induction l as [|c l IH]; intros a; simpl; done. Qed.

Lemma fchain_app g a l1 b l2 : fchain g a (l1 ++ b :: l2) ↔ fchain g a (l1 ++ [b]) ∧ fchain g b l2.
Proof. revert a. induction l1 as [|c l1 IH]; intros a; simpl; [tauto|]. rewrite IH. tauto. Qed.

Lemma fchain_ext g g' a l z :
  (∀ j, j ∈ a :: l → g' j = g j) → fchain g a (l ++ [z]) → fchain g' a (l ++ [z]).
Proof.
  revert a. induction l as [|b l IH]; intros a He; simpl.
  - intros [E _]. split; [|done]. rewrite He; [done|by left].
  - intros [E Hc]. rewrite He by by left. split; [done|]. apply IH; [|done]. intros j Hj. apply He. by right.
Qed.

(** The element before [z]. *)
Lemma fchain_last g a l z : fchain g a (l ++ [z]) → g (lastd a l) = z.
Proof. revert a. induction l as [|b l IH]; intros a; simpl; [by intros [? _]|]. intros [<- Hc]. by apply IH. Qed.

Lemma last_cons_in a l : lastd a l ∈ a :: l.
Proof. revert a. induction l as [|b l IH]; intros a; [by left|]. right. apply IH. Qed.

(** Taking [i] out. *)
Lemma fchain_remove g a l1 i l2 z n :
  NoDup (a :: l1 ++ i :: l2) → g i = n → fchain g a (l1 ++ i :: l2 ++ [z]) →
  fchain (fupd g (lastd a l1) n) a (l1 ++ l2 ++ [z]).
Proof.
  revert a. induction l1 as [|b l1 IH]; intros a Hnd Hn; simpl.
  - intros [Ei Hc]. destruct l2 as [|c l2]; simpl in *.
    + destruct Hc as [<- _]. rewrite fupd_eq. done.
    + destruct Hc as [<- Hc]. rewrite fupd_eq. split; [done|]. rewrite Hn in Hc. rewrite Hn.
      eapply fchain_ext; [|exact Hc]. intros j Hj. apply fupd_ne. intros ->.
      apply list.NoDup_cons in Hnd as [Hnd _]. apply Hnd. right. by rewrite Hn.
  - intros [Eb Hc]. apply list.NoDup_cons in Hnd as [Ha Hnd].
    pose proof (last_cons_in b l1) as Hin. split.
    + rewrite fupd_ne; [done|]. intros ->. apply Ha. apply elem_of_app. by left.
    + by apply IH.
Qed.

(** Putting [i] at the front. *)
Lemma fchain_push g a l i z :
  i ∉ a :: l → a ∉ l → fchain g a (l ++ [z]) → fchain (fupd (fupd g i (g a)) a i) a (i :: l ++ [z]).
Proof.
  intros Hi Ha Hc. apply not_elem_of_cons in Hi as [Hia Hil]. simpl. split; [apply fupd_eq|].
  destruct l as [|b l]; simpl in *.
  - destruct Hc as [<- _]. rewrite fupd_ne, fupd_eq by done. done.
  - destruct Hc as [<- Hc]. rewrite fupd_ne, fupd_eq by done. split; [done|].
    eapply fchain_ext; [|exact Hc]. intros j Hj. rewrite !fupd_ne; [done| |]; intros ->; contradiction.
Qed.

(** Putting [i] at the end. *)
Lemma fchain_snoc g a l i z :
  i ∉ a :: l → NoDup (a :: l) → fchain g a (l ++ [z]) →
  fchain (fupd (fupd g i z) (lastd a l) i) a (l ++ [i; z]).
Proof.
  intros Hi Hnd Hc. change [i; z] with ([i] ++ [z]). rewrite app_assoc. rewrite <- app_assoc. simpl.
  apply fchain_app. split.
  - revert a Hi Hnd Hc. induction l as [|b l IH]; intros a Hi Hnd Hc; simpl in *.
    + by rewrite fupd_eq.
    + destruct Hc as [<- Hc]. apply list.NoDup_cons in Hnd as [Ha Hnd].
      pose proof (last_cons_in (g a) l) as Hin.
      apply not_elem_of_cons in Hi as [Hia Hil].
      rewrite fupd_ne by (intros E; apply Ha; by rewrite <- E in Hin). rewrite fupd_ne by done. split; [done|].
      by apply IH.
  - simpl. split; [|done]. pose proof (last_cons_in a l) as Hin.
    rewrite fupd_ne by (intros ->; contradiction). by rewrite fupd_eq.
Qed.

Section Dll.
Variable hd : nat.

Definition dll (nx pv : nat → nat) (O : list nat) : Prop :=
  fchain nx hd (O ++ [hd]) ∧ fchain pv hd (reverse O ++ [hd]) ∧ NoDup (hd :: O).

(** The pointer updates that unlink [i] and put it at the front. *)
Definition move_nx (nx pv : nat → nat) (i : nat) : nat → nat :=
  let nx1 := fupd nx (pv i) (nx i) in fupd (fupd nx1 i (nx1 hd)) hd i.
Definition move_pv (nx pv : nat → nat) (i : nat) : nat → nat :=
  let nx1 := fupd nx (pv i) (nx i) in
  let pv1 := fupd pv (nx i) (pv i) in fupd (fupd pv1 i hd) (nx1 hd) i.

Lemma dll_prev nx pv l1 i l2 : dll nx pv (l1 ++ i :: l2) → pv i = lastd hd l1 ∧ nx i = lastd hd (reverse l2).
Proof.
  intros (Hn & Hp & Hnd). split.
  - rewrite reverse_app, reverse_cons, <- !app_assoc in Hp. simpl in Hp. apply fchain_app in Hp as [_ Hp].
    destruct l1 as [|b l1] using rev_ind; simpl in *; [by destruct Hp|].
    rewrite reverse_app in Hp. simpl in Hp. destruct Hp as [-> _]. by rewrite lastd_snoc.
  - rewrite <- app_assoc in Hn. simpl in Hn. apply fchain_app in Hn as [_ Hn].
    destruct l2 as [|b l2]; simpl in *; [by destruct Hn|]. destruct Hn as [-> _].
    by rewrite reverse_cons, lastd_snoc.
Qed.

Lemma dll_first nx pv O : dll nx pv O → nx hd ∈ hd :: O.
Proof. intros (Hn & _). destruct O as [|b O]; simpl in Hn; destruct Hn as [-> _]; set_solver. Qed.

Lemma dll_move nx pv l1 i l2 :
  dll nx pv (l1 ++ i :: l2) → dll (move_nx nx pv i) (move_pv nx pv i) (i :: l1 ++ l2).
Proof.
  intros Hd. pose proof (dll_prev _ _ _ _ _ Hd) as [Epv Enx]. destruct Hd as (Hn & Hp & Hnd).
  assert (NoDup (hd :: i :: l1 ++ l2)) as Hnd'.
  { by rewrite (Permutation_middle l1 l2 i). }
  assert (i ∉ hd :: l1 ++ l2 ∧ NoDup (hd :: l1 ++ l2)) as [Hi Hnd2].
  { apply list.NoDup_cons in Hnd' as [Hh Hnd']. apply list.NoDup_cons in Hnd' as [Hi Hnd'].
    apply not_elem_of_cons in Hh as [Hhi Hh]. split; [apply not_elem_of_cons; done|by apply list.NoDup_cons]. }
  pose proof (fchain_remove nx hd l1 i l2 hd (nx i) Hnd eq_refl ltac:(by rewrite <- app_assoc in Hn)) as Hn1.
  rewrite reverse_app, reverse_cons, <- !app_assoc in Hp. simpl in Hp.
  assert (NoDup (hd :: reverse l2 ++ i :: reverse l1)) as Hndr.
  { rewrite <- (reverse_Permutation (l1 ++ i :: l2)) in Hnd. by rewrite reverse_app, reverse_cons, <- app_assoc in Hnd. }
  pose proof (fchain_remove pv hd (reverse l2) i (reverse l1) hd (pv i) Hndr eq_refl Hp) as Hp1.
  rewrite <- Enx in Hp1. rewrite <- Epv in Hn1. unfold move_nx, move_pv.
  set (nx1 := fupd nx (pv i) (nx i)) in *. set (pv1 := fupd pv (nx i) (pv i)) in *. split_and!; [| |done].
  - simpl. rewrite <- app_assoc. rewrite (app_assoc l1) in *. apply fchain_push; [done|by apply list.NoDup_cons in Hnd2 as [? _]|done].
  - rewrite reverse_cons, reverse_app, <- !app_assoc. simpl. rewrite (app_assoc (reverse l2)) in *.
    assert (nx1 hd = lastd hd (reverse l2 ++ reverse l1)) as ->.
    { rewrite <- reverse_app. destruct (l1 ++ l2) as [|b l] eqn:E; simpl.
      - rewrite app_assoc, E in Hn1. by destruct Hn1.
      - rewrite app_assoc, E in Hn1. destruct Hn1 as [-> _]. by rewrite reverse_cons, lastd_snoc. }
    apply fchain_snoc; [| |done]; rewrite <- reverse_app.
    + apply not_elem_of_cons in Hi as [? ?]. apply not_elem_of_cons. split; [done|]. by rewrite elem_of_reverse.
    + apply list.NoDup_cons in Hnd2 as [? ?]. apply list.NoDup_cons. by rewrite reverse_Permutation.
Qed.

End Dll.
