(* ===== verification/FsDefs.v ===== *)
(** * File-system data (kernel/fs.h, buf.h, file.h, sleeplock.h and the
    structures of bio.c, log.c and fs.c)

    Blocks are lists of 1024 bytes.  Buffers, inodes and files are named by
    their index in [bcache.buf], [itable.inode] and [ftable.file]; sleep-locks
    by their address.  The disk keeps, besides its contents, the sequence of
    block writes it has performed, which the crash theorems quantify over. *)

From S2P Require Import Prelude Params CString Spinlock ProcDefs Memory.

Definition ROOTINO : Z := 1.
Definition BSIZE : Z := 1024.
Definition FSMAGIC : Z := 0x10203040.
Definition NDIRECT : Z := 12.
Definition NINDIRECT : Z := BSIZE / 4.
Definition MAXFILE : Z := NDIRECT + NINDIRECT.
Definition IPB : Z := BSIZE / 64.
Definition BPB : Z := BSIZE * 8.
Definition DIRSIZ : Z := 14.
Definition T_DIR : Z := 1.
Definition T_FILE : Z := 2.
Definition T_DEVICE : Z := 3.

(** ** Little-endian fields of a block *)

Fixpoint le_bytes (n : nat) (v : Z) : list Z :=
  match n with O => [] | S n => v mod 256 :: le_bytes n (v / 256) end.
Fixpoint le_val (l : list Z) : Z :=
  match l with [] => 0 | b :: l => b + 256 * le_val l end.

Definition get_le (n : nat) (off : Z) (d : list Z) : Z := le_val (take n (drop (Z.to_nat off) d)).
Definition put_le (n : nat) (off v : Z) (d : list Z) : list Z := list_inserts (Z.to_nat off) (le_bytes n v) d.
Definition get32 : Z → list Z → Z := get_le 4.
Definition put32 : Z → Z → list Z → list Z := put_le 4.
Definition get16 : Z → list Z → Z := get_le 2.
Definition put16 : Z → Z → list Z → list Z := put_le 2.

Lemma length_le_bytes n v : length (le_bytes n v) = n.
Proof. revert v. induction n as [|n IH]; intros v; simpl; [done|]. by rewrite IH. Qed.

Lemma le_val_bytes n v : le_val (le_bytes n v) = v mod 256 ^ Z.of_nat n.
Proof.
  revert v. induction n as [|n IH]; intros v; simpl le_bytes; simpl le_val.
  - by rewrite Z.mod_1_r.
  - rewrite IH, Nat2Z.inj_succ, Z.pow_succ_r by lia. rewrite Z.rem_mul_r by lia. done.
Qed.

Lemma length_put_le n off v d : length (put_le n off v d) = length d.
Proof. apply length_inserts. Qed.

Lemma get_put_le n off v d : 0 ≤ off → off + Z.of_nat n ≤ Z.of_nat (length d) →
  get_le n off (put_le n off v d) = v mod 256 ^ Z.of_nat n.
Proof.
  intros Ho Hl. unfold get_le, put_le. rewrite <- le_val_bytes. f_equal.
  apply list_eq. intros i. destruct (decide (i < n)%nat) as [Hi|Hi].
  - rewrite lookup_take_lt, lookup_drop by done.
    rewrite list_lookup_inserts by (rewrite ?length_le_bytes; lia). f_equal. lia.
  - rewrite lookup_take_ge by lia. symmetry. apply lookup_ge_None_2. rewrite length_le_bytes. lia.
Qed.

Lemma get_put_le_ne n n' off off' v d : 0 ≤ off → 0 ≤ off' →
  (off + Z.of_nat n ≤ off' ∨ off' + Z.of_nat n' ≤ off) →
  get_le n' off' (put_le n off v d) = get_le n' off' d.
Proof.
  intros Ho Ho' Hd. unfold get_le, put_le. f_equal. apply list_eq. intros i.
  destruct (decide (i < n')%nat) as [Hi|Hi]; [|by rewrite !lookup_take_ge by lia].
  rewrite !lookup_take_lt, !lookup_drop by done.
  destruct Hd; [rewrite list_lookup_inserts_ge|rewrite list_lookup_inserts_lt]; rewrite ?length_le_bytes; done || lia.
Qed.

(** ** Structures *)

Record sleeplock : Type := mkSlock { slocked : Z; sname : string; spid : Z }.

Record buf : Type := mkBuf {
  bvalid : Z;
  bdisk : Z;
  bdev : Z;
  blockno : Z;
  refcnt : Z;
  bprev : nat;
  bnext : nat;
  data : list Z;
}.

Record logst : Type := mkLog {
  lstart : Z;
  outstanding : Z;
  committing : Z;
  ldev : Z;
  lh_n : Z;
  lh_block : list Z;
}.

Record inode : Type := mkInode {
  idev : Z;
  inum : Z;
  iref : Z;
  ivalid : Z;
  itype : Z;
  imajor : Z;
  iminor : Z;
  inlink : Z;
  isize : Z;
  addrs : list Z;
}.

Record superblock : Type := mkSb {
  magic : Z; sbsize : Z; nblocks : Z; ninodes : Z;
  nlog : Z; logstart : Z; inodestart : Z; bmapstart : Z;
}.

Inductive ftype : Type := FD_NONE | FD_PIPE | FD_INODE | FD_DEVICE.
#[global] Instance ftype_eq_dec : EqDecision ftype.
Proof. solve_decision. Defined.

Record file : Type := mkFile {
  ftyp : ftype;
  fref : Z;
  readable : Z;
  writable : Z;
  fpipe : Z;
  fip : option nat;
  foff : Z;
  fmajor : Z;
}.

(** The contents of the device and the block writes done so far, oldest
    first. *)
Record diskst : Type := mkDisk { image : Z → list Z; writes : list (Z * list Z) }.

Definition disk_write (b : Z) (d : list Z) (k : diskst) : diskst :=
  mkDisk (λ x, if decide (x = b) then d else image k x) (writes k ++ [(b, d)]).

Record fsst : Type := mkFs {
  slocks : gmap Z sleeplock;
  bufs : list buf;
  bhead : nat * nat;  (* bcache.head.prev, bcache.head.next *)
  log : logst;
  inodes : list inode;
  files : list file;
  sb : superblock;
  disk : diskst;
}.

Definition set_slocks x f := mkFs x (bufs f) (bhead f) (log f) (inodes f) (files f) (sb f) (disk f).
Definition set_bufs x f := mkFs (slocks f) x (bhead f) (log f) (inodes f) (files f) (sb f) (disk f).
Definition set_bhead x f := mkFs (slocks f) (bufs f) x (log f) (inodes f) (files f) (sb f) (disk f).
Definition set_log x f := mkFs (slocks f) (bufs f) (bhead f) x (inodes f) (files f) (sb f) (disk f).
Definition set_inodes x f := mkFs (slocks f) (bufs f) (bhead f) (log f) x (files f) (sb f) (disk f).
Definition set_files x f := mkFs (slocks f) (bufs f) (bhead f) (log f) (inodes f) x (sb f) (disk f).
Definition set_sb x f := mkFs (slocks f) (bufs f) (bhead f) (log f) (inodes f) (files f) x (disk f).
Definition set_disk x f := mkFs (slocks f) (bufs f) (bhead f) (log f) (inodes f) (files f) (sb f) x.

(** States with a file system. *)
Class HasFs (S : Type) `{HasMem S} : Type := {
  fs_of : S → fsst;
  with_fs : fsst → S → S;
  fs_of_with_fs : ∀ f s, fs_of (with_fs f s) = f;
  with_fs_with_fs : ∀ f f' s, with_fs f (with_fs f' s) = with_fs f s;
  with_fs_of : ∀ s, with_fs (fs_of s) s = s;
  fs_of_with_hw : ∀ h s, fs_of (with_hw h s) = fs_of s;
  fs_of_with_pt : ∀ t s, fs_of (with_pt t s) = fs_of s;
  fs_of_with_pm : ∀ p s, fs_of (with_pm p s) = fs_of s;
  hw_of_with_fs : ∀ f s, hw_of (with_fs f s) = hw_of s;
  pt_of_with_fs : ∀ f s, pt_of (with_fs f s) = pt_of s;
  pm_of_with_fs : ∀ f s, pm_of (with_fs f s) = pm_of s;
  with_hw_with_fs : ∀ h f s, with_hw h (with_fs f s) = with_fs f (with_hw h s);
  with_pt_with_fs : ∀ t f s, with_pt t (with_fs f s) = with_fs f (with_pt t s);
  with_pm_with_fs : ∀ p f s, with_pm p (with_fs f s) = with_fs f (with_pm p s);
}.

#[export] Hint Rewrite @fs_of_with_fs @with_fs_with_fs @with_fs_of @fs_of_with_hw @fs_of_with_pt @fs_of_with_pm
  @hw_of_with_fs @pt_of_with_fs @pm_of_with_fs @with_hw_with_fs @with_pt_with_fs @with_pm_with_fs : st.

(** The whole kernel state. *)
Record kst : Type := mkKst { ks_hw : hw; ks_pt : ptab; ks_pm : pmem; ks_fs : fsst }.
#[global] Instance HasHw_kst : HasHw kst.
Proof. refine {| hw_of := ks_hw; with_hw h s := mkKst h (ks_pt s) (ks_pm s) (ks_fs s) |}; by intros; try destruct s. Defined.
#[global] Instance HasProcs_kst : HasProcs kst.
Proof. refine {| pt_of := ks_pt; with_pt t s := mkKst (ks_hw s) t (ks_pm s) (ks_fs s) |}; by intros; try destruct s. Defined.
#[global] Instance HasMem_kst : HasMem kst.
Proof. refine {| pm_of := ks_pm; with_pm p s := mkKst (ks_hw s) (ks_pt s) p (ks_fs s) |}; by intros; try destruct s. Defined.
#[global] Instance HasFs_kst : HasFs kst.
Proof. refine {| fs_of := ks_fs; with_fs f s := mkKst (ks_hw s) (ks_pt s) (ks_pm s) f |}; by intros; try destruct s. Defined.

Section Access.
Context {S : Type} `{HasFs S}.

Definition get_fs : M S fsst := gets fs_of.
Definition mod_fs (g : fsst → fsst) : M S unit := modify (λ s, with_fs (g (fs_of s)) s).

(* b->field; a null or wild pointer faults *)
Definition buf_at (b : nat) : M S buf :=
  f <- get_fs ;;
  match bufs f !! b with Some x => ret x | None => fault end.
Definition mod_buf (b : nat) (g : buf → buf) : M S unit := mod_fs (λ f, set_bufs (alter g b (bufs f)) f).
Definition inode_at (i : nat) : M S inode :=
  f <- get_fs ;;
  match inodes f !! i with Some x => ret x | None => fault end.
Definition mod_inode (i : nat) (g : inode → inode) : M S unit := mod_fs (λ f, set_inodes (alter g i (inodes f)) f).
Definition file_at (i : nat) : M S file :=
  f <- get_fs ;;
  match files f !! i with Some x => ret x | None => fault end.
Definition mod_file (i : nat) (g : file → file) : M S unit := mod_fs (λ f, set_files (alter g i (files f)) f).
Definition get_log : M S logst := f <- get_fs ;; ret (log f).
Definition mod_log (g : logst → logst) : M S unit := mod_fs (λ f, set_log (g (log f)) f).
Definition get_sb : M S superblock := f <- get_fs ;; ret (sb f).

End Access.
