(* ===== verification/Seq.v ===== *)
(** * Sequential runs of file-system code

    The file system is reasoned about one call at a time: the current process
    runs, nobody sleeps and the locks it takes are free.  In such a run locks
    are taken and released in stack order and nothing but the file-system
    state changes, so a call is a function of that state.  [fwp held m f Q]:
    run from file-system state [f] with the spinlocks [held], [m] returns, does
    not panic or switch, and the result and final state satisfy [Q]. *)

From S2P Require Import Prelude Params CString Spinlock ProcDefs WaitQueue Sched Memory FsDefs.

Section Seq.
Context {S : Type} `{HasFs S}.
Variables (s0 : S) (me : nat) (mep : proc) (sleeplocks : list Z).

(** The spinlocks file-system code takes. *)
Definition fs_lock (lk : lockid) : Prop :=
  lk ∈ [L_bcache; L_itable; L_ftable; L_log] ∨ ∃ a, a ∈ sleeplocks ∧ lk = L_sleep a.

Record seq_base : Prop := mkSeqBase {
  sq_quiet : quiet s0;
  sq_settled : hw_settle (hw_of s0) = hw_of s0;
  sq_cur : cproc (mycpu (hw_of s0)) = Some me;
  sq_proc : procs (pt_of s0) !! me = Some mep;
  sq_awake : ∀ i p, procs (pt_of s0) !! i = Some p → state p ≠ SLEEPING;
  sq_free : ∀ lk, fs_lock lk → lock_free lk (hw_of s0);
}.

Fixpoint hw_acqs (held : list lockid) (h : hw) : hw :=
  match held with [] => h | lk :: held => hw_acq lk (hw_acqs held h) end.

Definition st (held : list lockid) (f : fsst) : S := with_fs f (with_hw (hw_acqs held (hw_of s0)) s0).

Definition fwp {A} (held : list lockid) (m : M S A) (f : fsst) (Q : A → list lockid → fsst → Prop) : Prop :=
  ∃ r held' f', m (st held f) = Ok r (st held' f') ∧ Q r held' f'.

Hypothesis Hbase : seq_base.

Lemma acqs_ok held : cpu_ok (hw_acqs held (hw_of s0)).
Proof. induction held as [|lk held IH]; simpl; [apply Hbase|auto with xv6]. Qed.

Lemma acqs_settle held : hw_settle (hw_acqs held (hw_of s0)) = hw_acqs held (hw_of s0).
Proof.
  destruct held as [|lk held]; simpl; [apply Hbase|]. pose proof (acqs_ok held) as Hok.
  apply hw_settle_nested; [auto with xv6|]. rewrite noff_acq. pose proof (noff_nonneg _ Hok). lia.
Qed.

Lemma acqs_cproc held : cproc (mycpu (hw_acqs held (hw_of s0))) = Some me.
Proof. induction held as [|lk held IH]; simpl; [apply Hbase|by rewrite cproc_acq]. Qed.

Lemma acqs_free lk held : lk ∉ held → lock_free lk (hw_of s0) → lock_free lk (hw_acqs held (hw_of s0)).
Proof.
  induction held as [|lk' held IH]; simpl; intros Hn Hf; [done|]. apply not_elem_of_cons in Hn as [? ?].
  apply lock_free_acq; auto.
Qed.

Lemma hw_of_st held f : hw_of (st held f) = hw_acqs held (hw_of s0).
Proof. unfold st. by st_simpl. Qed.
Lemma fs_of_st held f : fs_of (st held f) = f.
Proof. unfold st. by st_simpl. Qed.
Lemma pt_of_st held f : pt_of (st held f) = pt_of s0.
Proof. unfold st. by st_simpl. Qed.
Lemma with_hw_st held held' f : with_hw (hw_acqs held' (hw_of s0)) (st held f) = st held' f.
Proof. unfold st. by st_simpl. Qed.
Lemma with_fs_st held f f' : with_fs f' (st held f) = st held f'.
Proof. unfold st. by st_simpl. Qed.

(** ** Rules *)

Lemma fwp_ret {A} held (a : A) f (Q : A → list lockid → fsst → Prop) : Q a held f → fwp held (ret a) f Q.
Proof. intros HQ. by exists a, held, f. Qed.

Lemma fwp_bind {A B} held (m : M S A) (k : A → M S B) f Q :
  fwp held m f (λ r held' f', fwp held' (k r) f' Q) → fwp held (bind m k) f Q.
Proof.
  intros (r & held' & f' & E & (r2 & h2 & f2 & E2 & HQ)). exists r2, h2, f2. split; [|done].
  unfold bind. by rewrite E.
Qed.

Lemma fwp_mono {A} held (m : M S A) f (Q R : A → list lockid → fsst → Prop) :
  fwp held m f Q → (∀ r held' f', Q r held' f' → R r held' f') → fwp held m f R.
Proof. intros (r & h' & f' & E & HQ) HR. exists r, h', f'. auto. Qed.

Lemma fwp_panic {A B} held (m : M S A) (k : A → M S B) f msg :
  fwp held m f (λ r held' f', k r (st held' f') = Panic msg) → bind m k (st held f) = Panic msg.
Proof. intros (r & held' & f' & E & Hk). unfold bind. by rewrite E. Qed.

Lemma bind_panic {A B} (m : M S A) (k : A → M S B) s msg : m s = Panic msg → bind m k s = Panic msg.
Proof. unfold bind. by intros ->. Qed.

Lemma fwp_get held f (Q : fsst → list lockid → fsst → Prop) : Q f held f → fwp held get_fs f Q.
Proof. intros HQ. exists f, held, f. unfold get_fs, gets. by rewrite fs_of_st. Qed.

Lemma fwp_mod held g f (Q : unit → list lockid → fsst → Prop) : Q tt held (g f) → fwp held (mod_fs g) f Q.
Proof. intros HQ. exists tt, held, (g f). unfold mod_fs, modify. by rewrite fs_of_st, with_fs_st. Qed.

Lemma fwp_acquire held lk f (Q : unit → list lockid → fsst → Prop) :
  fs_lock lk → lk ∉ held → Q tt (lk :: held) f → fwp held (acquire lk) f Q.
Proof.
  intros Hlk Hn HQ. exists tt, (lk :: held), f. split; [|done]. rewrite acquire_eq.
  - rewrite hw_of_st. by rewrite <- (with_hw_st held (lk :: held)).
  - rewrite hw_of_st. apply acqs_free; [done|]. by apply Hbase.
Qed.

Lemma fwp_release held lk f (Q : unit → list lockid → fsst → Prop) :
  fs_lock lk → lk ∉ held → Q tt held f → fwp (lk :: held) (release lk) f Q.
Proof.
  intros Hlk Hn HQ. exists tt, held, f. split; [|done].
  assert (wp (release lk) (st (lk :: held) f) (λ _ s', s' = st held f)) as ([] & ? & -> & ->)%wp_elim; [|done].
  eapply (wp_release _ _ (hw_acqs held (hw_of s0))); [by rewrite hw_of_st|apply acqs_ok|apply acqs_free; [done|by apply Hbase]|].
  rewrite acqs_settle. apply with_hw_st.
Qed.

Lemma fwp_curproc held f (Q : nat → list lockid → fsst → Prop) : Q me held f → fwp held curproc f Q.
Proof.
  intros HQ. exists me, held, f. split; [|done].
  assert (wp curproc (st held f) (λ i s', i = me ∧ s' = st held f)) as (? & ? & -> & -> & ->)%wp_elim; [|done].
  eapply wp_curproc; [rewrite hw_of_st; apply acqs_ok|rewrite hw_of_st; apply acqs_cproc|].
  split; [done|]. by rewrite hw_of_st, acqs_settle, with_hw_st.
Qed.

Lemma fwp_me held f (Q : proc → list lockid → fsst → Prop) : Q mep held f → fwp held (proc_at me) f Q.
Proof.
  intros HQ. exists mep, held, f. split; [|done]. unfold proc_at, bind, gets. cbn [obind].
  by rewrite pt_of_st, (sq_proc Hbase).
Qed.

(** [I] holds on entry to each iteration. *)
Lemma fwp_for_each held n (I : Z → fsst → Prop) body : ∀ i f,
  I i f →
  (∀ j f, i ≤ j < i + Z.of_nat n → I j f → fwp held (body j) f (λ _ held' f', held' = held ∧ I (j + 1) f')) →
  fwp held (for_each n i body) f (λ _ held' f', held' = held ∧ I (i + Z.of_nat n) f').
Proof.
  induction n as [|n IH]; intros i f HI Hb; cbn [for_each].
  - apply fwp_ret. split; [done|]. by rewrite Z.add_0_r.
  - apply fwp_bind. eapply fwp_mono; [apply Hb; [lia|done]|]. intros [] ? f' [-> HI']. eapply fwp_mono.
    + apply IH; [done|]. intros j g Hj. apply Hb. lia.
    + intros [] ? g [-> HQ]. split; [done|]. by replace (i + Z.of_nat (Datatypes.S n)) with (i + 1 + Z.of_nat n) by lia.
Qed.

Lemma fwp_for_loop {R} held n (I : Z → fsst → Prop) (Q : option R → list lockid → fsst → Prop) body : ∀ i f,
  I i f →
  (∀ j f, i ≤ j < i + Z.of_nat n → I j f →
     fwp held (body j) f (λ r held' f', match r with Some _ => Q r held' f' | None => held' = held ∧ I (j + 1) f' end)) →
  (∀ f, I (i + Z.of_nat n) f → Q None held f) →
  fwp held (for_loop n i body) f Q.
Proof.
  induction n as [|n IH]; intros i f HI Hb HQ; cbn [for_loop].
  - apply fwp_ret, HQ. by rewrite Z.add_0_r.
  - apply fwp_bind. eapply fwp_mono; [apply Hb; [lia|done]|]. intros [r|] ? f'; [intros; by apply fwp_ret|].
    intros [-> HI']. apply IH; [done| |].
    + intros j g Hj. apply Hb. lia.
    + intros g Hg. apply HQ. by replace (i + Z.of_nat (Datatypes.S n)) with (i + 1 + Z.of_nat n) by lia.
Qed.

(** Nobody sleeps, so wakeups find empty queues. *)
Lemma no_sleepers b : (b < 16)%nat → head_of b (pt_of s0) = None.
Proof.
  intros Hb. destruct (q_inv _ (sq_quiet Hbase)) as [L Hok]. pose proof (wo_chain _ _ Hok b Hb) as Hc.
  destruct (L b) as [|i l] eqn:EL; [by apply chain_head in Hc|].
  assert (i ∈ L b) as Hi by (rewrite EL; by left). destruct (chain_lookup _ _ _ i Hc) as [p Hp]; [by left|].
  destruct (wo_entry _ _ Hok b i p Hb Hi Hp) as (_ & _ & Hs & _). by apply (sq_awake Hbase) in Hp.
Qed.

Lemma fwp_wakeup held c f (Q : unit → list lockid → fsst → Prop) :
  Forall fs_lock held → Q tt held f → fwp held (wakeup c) f Q.
Proof.
  intros Hh HQ. exists tt, held, f. split; [|done]. set (b := wq_bucket_for c).
  assert (lkb b ∉ held) as Hn.
  { intros Hin. rewrite list.Forall_forall in Hh. destruct (Hh _ Hin) as [Hl|(a & _ & E)]; [|done].
    repeat (apply elem_of_cons in Hl as [E|Hl]; [done|]). by apply elem_of_nil in Hl. }
  pose proof (acqs_free (lkb b) held Hn (q_wq _ (sq_quiet Hbase) b (bucket_lt c))) as Hfree.
  assert (wp (wakeup c) (st held f) (λ _ s', s' = st held f)) as ([] & ? & -> & ->)%wp_elim; [|done].
  unfold wakeup. fold b. wp_go. apply wp_acquire; [by rewrite hw_of_st|]. wp_go.
  rewrite pt_of_with_hw, pt_of_st, (no_sleepers b (bucket_lt c)). cbn [wakeup_loop]. apply wp_ret.
  eapply (wp_release _ _ (hw_acqs held (hw_of s0))); [by rewrite hw_of_with_hw, hw_of_st|apply acqs_ok|done|].
  rewrite acqs_settle, with_hw_with_hw. apply with_hw_st.
Qed.

End Seq.

Arguments fwp {S _ _ _ _} s0 {A} held m f Q.
Arguments fs_lock sleeplocks lk.

Lemma fs_lock_global sleeplocks lk : lk ∈ [L_bcache; L_itable; L_ftable; L_log] → fs_lock sleeplocks lk.
Proof. by left. Qed.
Lemma fs_lock_bcache sleeplocks : fs_lock sleeplocks L_bcache.
Proof. apply fs_lock_global. set_solver. Qed.
Lemma fs_lock_itable sleeplocks : fs_lock sleeplocks L_itable.
Proof. apply fs_lock_global. set_solver. Qed.
Lemma fs_lock_ftable sleeplocks : fs_lock sleeplocks L_ftable.
Proof. apply fs_lock_global. set_solver. Qed.
Lemma fs_lock_log sleeplocks : fs_lock sleeplocks L_log.
Proof. apply fs_lock_global. set_solver. Qed.

(** One step of symbolic execution. *)
Ltac fwp_step Hb :=
  lazymatch goal with
  | |- fwp _ _ (bind _ _) _ _ => apply fwp_bind
  | |- fwp _ _ (ret _) _ _ => apply fwp_ret
  | |- fwp _ _ get_fs _ _ => apply fwp_get
  | |- fwp _ _ (mod_fs _) _ _ => apply fwp_mod
  | |- fwp _ _ curproc _ _ => eapply (fwp_curproc _ _ _ _ Hb)
  end; cbv beta.
Ltac fwp_go Hb := repeat fwp_step Hb.
