(* ===== verification/Sleeplock.v ===== *)
(** * Sleep-locks (kernel/sleeplock.c)

    A sleep-lock is named by its address, which is also the channel its
    waiters sleep on; [L_sleep] is the spinlock inside it. *)

From S2P Require Import Prelude Params CString Spinlock ProcDefs WaitQueue Sched Memory FsDefs Seq.

Section Ops.
Context {S : Type} `{HasFs S}.
(* how often a waiter may find the lock taken again before the model gives up *)
Variable patience : nat.

Definition slock_at (lk : Z) : M S sleeplock :=
  f <- get_fs ;;
  match slocks f !! lk with Some x => ret x | None => fault end.
Definition mod_slock (lk : Z) (g : sleeplock → sleeplock) : M S unit :=
  mod_fs (λ f, set_slocks (alter g lk (slocks f)) f).

Definition initsleeplock (lk : Z) (name : string) : M S unit :=
  initlock (L_sleep lk) "sleep lock" ;;
  mod_fs (λ f, set_slocks (<[lk := mkSlock 0 name 0]> (slocks f)) f).

(* while (lk->locked) sleep(lk, &lk->lk); *)
Fixpoint acquiresleep_wait (fuel : nat) (lk : Z) : M S unit :=
  match fuel with
  | O => λ s, Spin s
  | Datatypes.S fuel =>
      l <- slock_at lk ;;
      if decide (slocked l ≠ 0) then
        sleep lk (L_sleep lk) ;;
        acquiresleep_wait fuel lk
      else ret tt
  end.

Definition acquiresleep (lk : Z) : M S unit :=
  acquire (L_sleep lk) ;;
  acquiresleep_wait (Datatypes.S patience) lk ;;
  mod_slock lk (λ l, mkSlock 1 (sname l) (spid l)) ;;
  i <- curproc ;;
  p <- proc_at i ;;
  mod_slock lk (λ l, mkSlock (slocked l) (sname l) (pid p)) ;;
  release (L_sleep lk).

Definition releasesleep (lk : Z) : M S unit :=
  acquire (L_sleep lk) ;;
  mod_slock lk (λ l, mkSlock 0 (sname l) (spid l)) ;;
  mod_slock lk (λ l, mkSlock (slocked l) (sname l) 0) ;;
  wakeup lk ;;
  release (L_sleep lk).

Definition holdingsleep (lk : Z) : M S Z :=
  acquire (L_sleep lk) ;;
  l <- slock_at lk ;;
  r <- (if decide (slocked l ≠ 0) then
          i <- curproc ;;
          p <- proc_at i ;;
          ret (if decide (spid l = pid p) then 1 else 0)
        else ret 0) ;;
  release (L_sleep lk) ;;
  ret r.

End Ops.

(** ** Sequential behaviour *)

Section Spec.
Context {S : Type} `{HasFs S}.
Variables (s0 : S) (me : nat) (mep : proc) (sleeplocks : list Z) (patience : nat).
Hypothesis Hbase : seq_base s0 me mep sleeplocks.

Lemma fs_lock_sleep lk : lk ∈ sleeplocks → fs_lock sleeplocks (L_sleep lk).
Proof. intros Hin. right. by exists lk. Qed.

Lemma fwp_acquiresleep held lk n p f (Q : unit → list lockid → fsst → Prop) :
  lk ∈ sleeplocks → L_sleep lk ∉ held → slocks f !! lk = Some (mkSlock 0 n p) →
  Q tt held (set_slocks (<[lk := mkSlock 1 n (pid mep)]> (slocks f)) f) →
  fwp s0 held (acquiresleep patience lk) f Q.
Proof.
  intros Hlk Hn Hl HQ. unfold acquiresleep. fwp_go Hbase.
  apply (fwp_acquire _ _ _ _ Hbase); [by apply fs_lock_sleep|done|]. cbn [acquiresleep_wait]. unfold slock_at. fwp_go Hbase.
  rewrite Hl. fwp_go Hbase. rewrite decide_False by (simpl; tauto). unfold mod_slock. fwp_go Hbase.
  apply (fwp_me _ _ _ _ Hbase). fwp_go Hbase.
  apply (fwp_release _ _ _ _ Hbase); [by apply fs_lock_sleep|done|]. simpl.
  replace (alter _ lk (alter _ lk (slocks f))) with (<[lk := mkSlock 1 n (pid mep)]> (slocks f)); [done|].
  apply map_eq. intros k. destruct (decide (k = lk)) as [->|Hk].
  - by rewrite lookup_insert_eq, !lookup_alter_eq, Hl.
  - by rewrite lookup_insert_ne, !lookup_alter_ne.
Qed.

Lemma fwp_releasesleep held lk l f (Q : unit → list lockid → fsst → Prop) :
  lk ∈ sleeplocks → L_sleep lk ∉ held → Forall (fs_lock sleeplocks) held → slocks f !! lk = Some l →
  Q tt held (set_slocks (<[lk := mkSlock 0 (sname l) 0]> (slocks f)) f) →
  fwp s0 held (releasesleep lk) f Q.
Proof.
  intros Hlk Hn Hh Hl HQ. unfold releasesleep. fwp_go Hbase.
  apply (fwp_acquire _ _ _ _ Hbase); [by apply fs_lock_sleep|done|]. unfold mod_slock. fwp_go Hbase.
  apply (fwp_wakeup _ _ _ _ Hbase); [constructor; [by apply fs_lock_sleep|done]|].
  apply (fwp_release _ _ _ _ Hbase); [by apply fs_lock_sleep|done|]. simpl.
  replace (alter _ lk (alter _ lk (slocks f))) with (<[lk := mkSlock 0 (sname l) 0]> (slocks f)); [done|].
  apply map_eq. intros k. destruct (decide (k = lk)) as [->|Hk].
  - by rewrite lookup_insert_eq, !lookup_alter_eq, Hl.
  - by rewrite lookup_insert_ne, !lookup_alter_ne.
Qed.

Lemma fwp_holdingsleep held lk l f (Q : Z → list lockid → fsst → Prop) :
  lk ∈ sleeplocks → L_sleep lk ∉ held → slocks f !! lk = Some l →
  Q (if decide (slocked l ≠ 0 ∧ spid l = pid mep) then 1 else 0) held f → fwp s0 held (holdingsleep lk) f Q.
Proof.
  intros Hlk Hn Hl HQ. unfold holdingsleep. fwp_go Hbase.
  apply (fwp_acquire _ _ _ _ Hbase); [by apply fs_lock_sleep|done|]. unfold slock_at. fwp_go Hbase.
  rewrite Hl. fwp_go Hbase. destruct (decide (slocked l ≠ 0)) as [Hd|Hd].
  - fwp_go Hbase. apply (fwp_me _ _ _ _ Hbase). fwp_go Hbase.
    apply (fwp_release _ _ _ _ Hbase); [by apply fs_lock_sleep|done|]. fwp_go Hbase.
    destruct (decide (spid l = pid mep)); [rewrite decide_True in HQ by done|rewrite decide_False in HQ by tauto]; done.
  - fwp_go Hbase. apply (fwp_release _ _ _ _ Hbase); [by apply fs_lock_sleep|done|]. fwp_go Hbase.
    by rewrite decide_False in HQ by tauto.
Qed.

(** ... by the process itself. *)
Lemma fwp_holdingsleep_mine held lk n f (Q : Z → list lockid → fsst → Prop) :
  lk ∈ sleeplocks → L_sleep lk ∉ held → slocks f !! lk = Some (mkSlock 1 n (pid mep)) →
  Q 1 held f → fwp s0 held (holdingsleep lk) f Q.
Proof. intros Hlk Hn Hl HQ. eapply fwp_holdingsleep; [done..|]. simpl. by rewrite decide_True. Qed.


End Spec.
