(* ===== verification/Bio.v ===== *)
(** * The buffer cache (kernel/bio.c)

    Buffers are indices into [bcache.buf]; index [NBUF] stands for
    [bcache.head].  [bcache] is the address the linker gives the structure, on
    which only the addresses of the buffers' sleep-locks depend.

    [virtio_disk_rw] is the effect of the driver's function once the device
    has completed the request: the device itself is hardware. *)

From S2P Require Import Prelude Params CString Spinlock ProcDefs WaitQueue Sched Memory FsDefs Seq Sleeplock.

Definition HEAD : nat := Z.to_nat NBUF.

Definition set_valid x b := mkBuf x (bdisk b) (bdev b) (blockno b) (refcnt b) (bprev b) (bnext b) (data b).
Definition set_bdev x b := mkBuf (bvalid b) (bdisk b) x (blockno b) (refcnt b) (bprev b) (bnext b) (data b).
Definition set_blockno x b := mkBuf (bvalid b) (bdisk b) (bdev b) x (refcnt b) (bprev b) (bnext b) (data b).
Definition set_refcnt x b := mkBuf (bvalid b) (bdisk b) (bdev b) (blockno b) x (bprev b) (bnext b) (data b).
Definition set_bprev x b := mkBuf (bvalid b) (bdisk b) (bdev b) (blockno b) (refcnt b) x (bnext b) (data b).
Definition set_bnext x b := mkBuf (bvalid b) (bdisk b) (bdev b) (blockno b) (refcnt b) (bprev b) x (data b).
Definition set_data x b := mkBuf (bvalid b) (bdisk b) (bdev b) (blockno b) (refcnt b) (bprev b) (bnext b) x.

Section Ops.
Context {S : Type} `{HasFs S}.
Variables (patience : nat) (bcache : Z).

(* &bcache.buf[i].lock: the spinlock takes 24 bytes, a buffer 1112 *)
Definition b_lock (i : nat) : Z := bcache + 24 + 1112 * Z.of_nat i + 16.

Definition get_next (b : nat) : M S nat :=
  if decide (b = HEAD) then f <- get_fs ;; ret (bhead f).2
  else x <- buf_at b ;; ret (bnext x).
Definition get_prev (b : nat) : M S nat :=
  if decide (b = HEAD) then f <- get_fs ;; ret (bhead f).1
  else x <- buf_at b ;; ret (bprev x).
Definition put_next (b v : nat) : M S unit :=
  if decide (b = HEAD) then mod_fs (λ f, set_bhead ((bhead f).1, v) f)
  else mod_buf b (set_bnext v).
Definition put_prev (b v : nat) : M S unit :=
  if decide (b = HEAD) then mod_fs (λ f, set_bhead (v, (bhead f).2) f)
  else mod_buf b (set_bprev v).

Definition virtio_disk_rw (b : nat) (write : bool) : M S unit :=
  x <- buf_at b ;;
  if write then mod_fs (λ f, set_disk (disk_write (blockno x) (data x) (disk f)) f)
  else f <- get_fs ;; mod_buf b (set_data (image (disk f) (blockno x))).

Definition binit : M S unit :=
  initlock L_bcache "bcache" ;;
  put_prev HEAD HEAD ;;
  put_next HEAD HEAD ;;
  for_each (Z.to_nat NBUF) 0 (λ i,
    let b := Z.to_nat i in
    n <- get_next HEAD ;;
    put_next b n ;;
    put_prev b HEAD ;;
    initsleeplock (b_lock b) "buffer" ;;
    n <- get_next HEAD ;;
    put_prev n b ;;
    put_next HEAD b).

(* for(b = bcache.head.next; b != &bcache.head; b = b->next) *)
Fixpoint bget_find (fuel : nat) (dev bno : Z) (b : nat) : M S (option nat) :=
  match fuel with
  | O => λ s, Spin s
  | Datatypes.S fuel =>
      if decide (b = HEAD) then ret None else
      x <- buf_at b ;;
      if decide (bdev x = dev ∧ blockno x = bno) then
        mod_buf b (λ x, set_refcnt (u32 (refcnt x + 1)) x) ;;
        ret (Some b)
      else n <- get_next b ;; bget_find fuel dev bno n
  end.

(* for(b = bcache.head.prev; b != &bcache.head; b = b->prev) *)
Fixpoint bget_recycle (fuel : nat) (dev bno : Z) (b : nat) : M S (option nat) :=
  match fuel with
  | O => λ s, Spin s
  | Datatypes.S fuel =>
      if decide (b = HEAD) then ret None else
      x <- buf_at b ;;
      if decide (refcnt x = 0) then
        mod_buf b (set_bdev dev) ;;
        mod_buf b (set_blockno bno) ;;
        mod_buf b (set_valid 0) ;;
        mod_buf b (set_refcnt 1) ;;
        ret (Some b)
      else p <- get_prev b ;; bget_recycle fuel dev bno p
  end.

Definition bget (dev bno : Z) : M S nat :=
  acquire L_bcache ;;
  n <- get_next HEAD ;;
  r <- bget_find (Datatypes.S HEAD) dev bno n ;;
  match r with
  | Some b => release L_bcache ;; acquiresleep patience (b_lock b) ;; ret b
  | None =>
      p <- get_prev HEAD ;;
      r <- bget_recycle (Datatypes.S HEAD) dev bno p ;;
      match r with
      | Some b => release L_bcache ;; acquiresleep patience (b_lock b) ;; ret b
      | None => panic "bget: no buffers"
      end
  end.

Definition bread (dev bno : Z) : M S nat :=
  b <- bget dev bno ;;
  x <- buf_at b ;;
  (if decide (bvalid x = 0) then
     virtio_disk_rw b false ;;
     mod_buf b (set_valid 1)
   else ret tt) ;;
  ret b.

Definition bwrite (b : nat) : M S unit :=
  h <- holdingsleep (b_lock b) ;;
  if decide (h = 0) then panic "bwrite" else
  virtio_disk_rw b true.

Definition brelse (b : nat) : M S unit :=
  h <- holdingsleep (b_lock b) ;;
  if decide (h = 0) then panic "brelse" else
  releasesleep (b_lock b) ;;
  acquire L_bcache ;;
  mod_buf b (λ x, set_refcnt (u32 (refcnt x - 1)) x) ;;
  x <- buf_at b ;;
  (if decide (refcnt x = 0) then
     n <- get_next b ;; p <- get_prev b ;;
     put_prev n p ;;
     p <- get_prev b ;; n <- get_next b ;;
     put_next p n ;;
     hn <- get_next HEAD ;;
     put_next b hn ;;
     put_prev b HEAD ;;
     hn <- get_next HEAD ;;
     put_prev hn b ;;
     put_next HEAD b
   else ret tt) ;;
  release L_bcache.

Definition bpin (b : nat) : M S unit :=
  acquire L_bcache ;;
  mod_buf b (λ x, set_refcnt (u32 (refcnt x + 1)) x) ;;
  release L_bcache.

Definition bunpin (b : nat) : M S unit :=
  acquire L_bcache ;;
  mod_buf b (λ x, set_refcnt (u32 (refcnt x - 1)) x) ;;
  release L_bcache.

End Ops.
