(* ===== verification/BioInv.v ===== *)
(** * The buffer-cache invariant and its steps

    [bent ms sl img V P H] relates the buffers [ms] (without list pointers),
    the sleep-locks [sl] and the disk image [img] to the abstract cache: [V]
    the contents of the blocks, [P] the pinned blocks, [H] the held blocks. *)

From S2P Require Import Prelude Params CString Spinlock ProcDefs FsDefs Bio.

Lemma alter_cases {A} (g : A → A) (i : nat) (l : list A) j y :
  alter g i l !! j = Some y → (j = i ∧ ∃ x, l !! i = Some x ∧ y = g x) ∨ (j ≠ i ∧ l !! j = Some y).
Proof.
  destruct (decide (j = i)) as [->|Hne]; [|by rewrite list_lookup_alter_ne by done; right].
  rewrite list_lookup_alter_eq. destruct (l !! i) as [x|]; [|done]. intros [= <-]. left. eauto.
Qed.

Lemma list_alter_alter {A} (g h : A → A) (i : nat) (l : list A) : alter g i (alter h i l) = alter (λ x, g (h x)) i l.
Proof.
  apply list_eq. intros j. destruct (decide (j = i)) as [->|]; [|by rewrite !list_lookup_alter_ne].
  rewrite !list_lookup_alter_eq. by destruct (l !! i).
Qed.

Definition b2z (b : bool) : Z := if b then 1 else 0.

Section Inv.
Variables (bcache mypid : Z).
Notation b_lock := (b_lock bcache).

Lemma b_lock_inj i j : b_lock i = b_lock j → i = j.
Proof. unfold b_lock. lia. Qed.

Record bent (ms : list buf) (sl : gmap Z sleeplock) (img V : Z → list Z) (P H : list Z) : Prop := mkBent {
  be_lock : ∀ i x, ms !! i = Some x → ∃ n p,
    sl !! b_lock i = Some (mkSlock (b2z (bool_decide (bdev x = 1 ∧ blockno x ∈ H))) n p) ∧
    (bdev x = 1 → blockno x ∈ H → p = mypid);
  be_ref : ∀ i x, ms !! i = Some x → bdev x = 1 →
    refcnt x = b2z (bool_decide (blockno x ∈ P)) + b2z (bool_decide (blockno x ∈ H));
  be_data : ∀ i x, ms !! i = Some x → bdev x = 1 → bvalid x = 1 ∧ data x = V (blockno x);
  be_clean : ∀ i x, ms !! i = Some x → bdev x = 1 → blockno x ∉ P → blockno x ∉ H →
    V (blockno x) = img (blockno x);
  be_unused : ∀ i x, ms !! i = Some x → bdev x ≠ 1 → refcnt x = 0;
  be_uniq : ∀ i j x y, ms !! i = Some x → ms !! j = Some y → bdev x = 1 → bdev y = 1 →
    blockno x = blockno y → i = j;
  be_miss : ∀ b, (∀ i x, ms !! i = Some x → bdev x = 1 → blockno x ≠ b) → V b = img b ∧ b ∉ P ∧ b ∉ H;
  be_P : NoDup P;
  be_H : NoDup H;
}.

(** The buffer at [i] holds block [b]. *)
Definition caches (ms : list buf) (i : nat) (b : Z) : Prop :=
  ∃ x, ms !! i = Some x ∧ bdev x = 1 ∧ blockno x = b.

#[global] Instance caches_dec ms b : Decision (∃ i, caches ms i b).
Proof.
  destruct (decide (Exists (λ x, bdev x = 1 ∧ blockno x = b) ms)) as [He|Hn]; [left|right].
  - apply Exists_exists in He as (x & Hx & Hd). apply list_elem_of_In, list_elem_of_lookup in Hx as [i Hi]. by exists i, x.
  - intros (i & x & Hx & Hd). apply Hn, Exists_exists. exists x. split; [|done]. apply list_elem_of_In. by eapply list_elem_of_lookup_2.
Defined.

Section Steps.
Variables (ms : list buf) (sl : gmap Z sleeplock) (img V : Z → list Z) (P H : list Z).
Hypothesis Hb : bent ms sl img V P H.

Lemma bent_cached b : b ∈ P ∨ b ∈ H → ∃ i, caches ms i b.
Proof.
  intros Hin. destruct (decide (∃ i, caches ms i b)) as [|Hn]; [done|].
  exfalso. destruct (be_miss _ _ _ _ _ _ Hb b) as (_ & ? & ?); [|tauto]. intros i x Hi Hd E. apply Hn. by exists i, x.
Qed.

Lemma caches_inj i j b : caches ms i b → caches ms j b → i = j.
Proof. intros (x & Hx & Hd & E) (y & Hy & Hd' & E'). eapply (be_uniq _ _ _ _ _ _ Hb); eauto. congruence. Qed.

(** One buffer changes; the state of every block but its own stays. *)
Lemma bent_step i x0 y0 sl' img' V' P' H' n p :
  let b0 := blockno y0 in
  ms !! i = Some x0 → bdev y0 = 1 →
  (caches ms i b0 ∨ (∀ j, ¬ caches ms j b0) ∧ refcnt x0 = 0) →
  (∀ b, b ≠ b0 → (b ∈ P' ↔ b ∈ P) ∧ (b ∈ H' ↔ b ∈ H) ∧ V' b = V b ∧ img' b = img b) →
  (∀ j, j ≠ i → sl' !! b_lock j = sl !! b_lock j) →
  sl' !! b_lock i = Some (mkSlock (b2z (bool_decide (b0 ∈ H'))) n p) → (b0 ∈ H' → p = mypid) →
  refcnt y0 = b2z (bool_decide (b0 ∈ P')) + b2z (bool_decide (b0 ∈ H')) →
  bvalid y0 = 1 → data y0 = V' b0 → (b0 ∉ P' → b0 ∉ H' → V' b0 = img' b0) → NoDup P' → NoDup H' →
  bent (<[i := y0]> ms) sl' img' V' P' H'.
Proof.
  intros b0 Hx0 Hd0 Hold Hag Hsl Hli Hpid Href Hval Hdat Hcl HP HH.
  assert (∀ j y, ms !! j = Some y → bdev y = 1 → j ≠ i → blockno y ≠ b0) as Hoth.
  { intros j y Hy Hd Hne E. destruct Hold as [Hc|[Hc _]].
    - apply Hne. eapply caches_inj; [by exists y|done].
    - apply (Hc j). by exists y. }
  assert (∀ j y, <[i := y0]> ms !! j = Some y → (j = i ∧ y = y0) ∨ (j ≠ i ∧ ms !! j = Some y)) as Hcase.
  { intros j y. rewrite list_lookup_insert_Some. naive_solver. }
  split.
  - intros j y [[-> ->]|[Hne Hy]]%Hcase.
    + exists n, p. split; [|auto]. rewrite Hli. repeat f_equal. apply bool_decide_ext. tauto.
    + destruct (be_lock _ _ _ _ _ _ Hb j y Hy) as (n' & p' & E & Hp). exists n', p'. rewrite Hsl by done. split.
      * rewrite E. repeat f_equal. apply bool_decide_ext. specialize (Hoth j y Hy). specialize (Hag (blockno y)). tauto.
      * intros Hd Hin. apply Hp; [done|]. by apply (Hag (blockno y) (Hoth j y Hy Hd Hne)).
  - intros j y [[-> ->]|[Hne Hy]]%Hcase Hd; [done|]. rewrite (be_ref _ _ _ _ _ _ Hb j y Hy Hd).
    destruct (Hag (blockno y) (Hoth j y Hy Hd Hne)) as (Hp & Hh & _).
    do 2 f_equal; by apply bool_decide_ext.
  - intros j y [[-> ->]|[Hne Hy]]%Hcase Hd; [done|]. destruct (be_data _ _ _ _ _ _ Hb j y Hy Hd) as [? ->]. split; [done|].
    by destruct (Hag (blockno y) (Hoth j y Hy Hd Hne)) as (_ & _ & -> & _).
  - intros j y [[-> ->]|[Hne Hy]]%Hcase Hd; [done|].
    destruct (Hag (blockno y) (Hoth j y Hy Hd Hne)) as (-> & -> & -> & ->). by eapply be_clean.
  - intros j y [[-> ->]|[Hne Hy]]%Hcase Hd; [done|]. by eapply be_unused.
  - intros j k y z [[-> ->]|[Hne Hy]]%Hcase [[-> ->]|[Hne' Hz]]%Hcase Hdy Hdz E; [done|..].
    + by destruct (Hoth k z).
    + by destruct (Hoth j y).
    + by eapply be_uniq.
  - intros b Hm. assert (b ≠ b0) as Hne.
    { intros ->. apply (Hm i y0); [|done|done]. apply list_lookup_insert_eq. by eapply lookup_lt_Some. }
    destruct (Hag b Hne) as (-> & -> & -> & ->).
    destruct (decide (bdev x0 = 1 ∧ blockno x0 = b)) as [[Hd <-]|Hnx].
    + destruct Hold as [(x & Hx & _ & E)|[_ Hr]]; [simplify_eq; congruence|].
      pose proof (be_ref _ _ _ _ _ _ Hb i x0 Hx0 Hd) as Er. rewrite Hr in Er. unfold b2z in Er.
      assert (blockno x0 ∉ P ∧ blockno x0 ∉ H) as [??] by (repeat case_bool_decide; lia || done).
      split_and!; [by eapply (be_clean _ _ _ _ _ _ Hb)|done|done].
    + apply (be_miss _ _ _ _ _ _ Hb). intros j x Hx Hd. destruct (decide (j = i)) as [->|Hji]; [simplify_eq; tauto|].
      apply (Hm j x); [|done]. by rewrite list_lookup_insert_ne.
  - done.
  - done.
Qed.

Lemma alter_as_insert (g : buf → buf) i x : ms !! i = Some x → alter g i ms = <[i := g x]> ms.
Proof. intros Hx. apply list_eq. intros j. destruct (decide (j = i)) as [->|].
  - rewrite list_lookup_alter_eq, Hx, list_lookup_insert_eq by (by eapply lookup_lt_Some). done.
  - by rewrite list_lookup_alter_ne, list_lookup_insert_ne.
Qed.

Lemma b2z_mod b c : u32 (b2z b + b2z c) = b2z b + b2z c.
Proof. unfold u32. apply wrap_small. destruct b, c; simpl; lia. Qed.

(** A cached block is taken. *)
Lemma bent_hold i b n :
  caches ms i b → b ∉ H →
  bent (alter (λ x, set_refcnt (u32 (refcnt x + 1)) x) i ms) (<[b_lock i := mkSlock 1 n mypid]> sl) img V P (b :: H).
Proof.
  intros Hi HbH. pose proof Hi as (x & Hx & Hd & <-). rewrite (alter_as_insert _ i x Hx).
  assert (bool_decide (blockno x ∈ blockno x :: H) = true) as Et by (apply bool_decide_eq_true_2; by left).
  eapply (bent_step i x _ _ _ _ _ _ n mypid); simpl; rewrite ?Et; try done.
  - by left.
  - set_solver.
  - intros j Hj. apply lookup_insert_ne. intros E. by apply Hj, b_lock_inj.
  - apply lookup_insert_eq.
  - rewrite (be_ref _ _ _ _ _ _ Hb i x Hx Hd), (bool_decide_eq_false_2 (blockno x ∈ H)) by done.
    rewrite Z.add_0_r. apply (b2z_mod _ true).
  - by eapply be_data.
  - by eapply be_data.
  - set_solver.
  - apply Hb.
  - constructor; [done|apply Hb].
Qed.

(** A free buffer is reused for block [b] and filled from the disk. *)
Lemma bent_recycle i x b n :
  ms !! i = Some x → refcnt x = 0 → (∀ j, ¬ caches ms j b) →
  bent (<[i := mkBuf 1 (bdisk x) 1 b 1 (bprev x) (bnext x) (img b)]> ms) (<[b_lock i := mkSlock 1 n mypid]> sl)
    img V P (b :: H).
Proof.
  intros Hx Hr Hno.
  destruct (be_miss _ _ _ _ _ _ Hb b) as (Ev & HbP & HbH). { intros j y Hy Hd E. apply (Hno j). by exists y. }
  assert (bool_decide (b ∈ b :: H) = true) as Et by (apply bool_decide_eq_true_2; by left).
  eapply (bent_step i x _ _ _ _ _ _ n mypid); simpl; rewrite ?Et; try done.
  - by right.
  - set_solver.
  - intros j Hj. apply lookup_insert_ne. intros E. by apply Hj, b_lock_inj.
  - apply lookup_insert_eq.
  - by rewrite (bool_decide_eq_false_2 (b ∈ P)).
  - apply Hb.
  - constructor; [done|apply Hb].
Qed.

(** New contents for a held block. *)
Lemma bent_set_data i b d :
  caches ms i b → b ∈ H →
  bent (alter (set_data d) i ms) sl img (λ x, if decide (x = b) then d else V x) P H.
Proof.
  intros Hi HbH. pose proof Hi as (x & Hx & Hd & <-). rewrite (alter_as_insert _ i x Hx).
  destruct (be_lock _ _ _ _ _ _ Hb i x Hx) as (n & p & El & Hp).
  eapply (bent_step i x _ _ _ _ _ _ n p); simpl; try done.
  - by left.
  - intros b' Hne. by rewrite decide_False.
  - rewrite El. repeat f_equal. apply bool_decide_ext. tauto.
  - auto.
  - by eapply be_ref.
  - by eapply be_data.
  - by rewrite decide_True.
  - apply Hb.
  - apply Hb.
Qed.

(** A held block is written to the disk. *)
Lemma bent_bwrite i x :
  ms !! i = Some x → bdev x = 1 → blockno x ∈ H →
  bent ms sl (λ b, if decide (b = blockno x) then data x else img b) V P H.
Proof.
  intros Hx Hd HbH. rewrite <- (list_insert_id ms i x Hx).
  destruct (be_lock _ _ _ _ _ _ Hb i x Hx) as (n & p & El & Hp).
  eapply (bent_step i x _ _ _ _ _ _ n p); simpl; try done.
  - left. by exists x.
  - intros b' Hne. by rewrite decide_False.
  - rewrite El. repeat f_equal. apply bool_decide_ext. tauto.
  - auto.
  - by eapply be_ref.
  - by eapply be_data.
  - by eapply be_data.
  - apply Hb.
  - apply Hb.
Qed.

(** A held block is given back. *)
Lemma bent_release i b n H1 H2 :
  caches ms i b → H = H1 ++ b :: H2 → (b ∈ P ∨ V b = img b) →
  bent (alter (λ x, set_refcnt (u32 (refcnt x - 1)) x) i ms) (<[b_lock i := mkSlock 0 n 0]> sl) img V P (H1 ++ H2).
Proof.
  intros Hi EH Hcl. pose proof Hi as (x & Hx & Hd & <-). rewrite (alter_as_insert _ i x Hx).
  pose proof (be_H _ _ _ _ _ _ Hb) as Hnd. rewrite EH, <- Permutation_middle in Hnd. apply list.NoDup_cons in Hnd as [Hnin Hnd].
  assert (bool_decide (blockno x ∈ H1 ++ H2) = false) as Ef by by apply bool_decide_eq_false_2.
  eapply (bent_step i x _ _ _ _ _ _ n 0); simpl; rewrite ?Ef; try done.
  - by left.
  - intros b' Hne. rewrite EH. set_solver.
  - intros j Hj. apply lookup_insert_ne. intros E. by apply Hj, b_lock_inj.
  - apply lookup_insert_eq.
  - rewrite (be_ref _ _ _ _ _ _ Hb i x Hx Hd), (bool_decide_eq_true_2 (blockno x ∈ H)) by (rewrite EH; set_solver).
    pose proof (b2z_mod (bool_decide (blockno x ∈ P)) false) as E. simpl in *. rewrite Z.add_0_r in *. rewrite <- E at 2.
    f_equal. lia.
  - by eapply be_data.
  - by eapply be_data.
  - intros HnP _. destruct Hcl; [done|]. done.
  - apply Hb.
Qed.

(** The log pins a held block. *)
Lemma bent_pin i b :
  caches ms i b → b ∉ P →
  bent (alter (λ x, set_refcnt (u32 (refcnt x + 1)) x) i ms) sl img V (P ++ [b]) H.
Proof.
  intros Hi HbP. pose proof Hi as (x & Hx & Hd & <-). rewrite (alter_as_insert _ i x Hx).
  destruct (be_lock _ _ _ _ _ _ Hb i x Hx) as (n & p & El & Hp).
  assert (bool_decide (blockno x ∈ P ++ [blockno x]) = true) as Et by (apply bool_decide_eq_true_2; set_solver).
  eapply (bent_step i x _ _ _ _ _ _ n p); simpl; rewrite ?Et; try done.
  - by left.
  - set_solver.
  - rewrite El. repeat f_equal. apply bool_decide_ext. tauto.
  - auto.
  - rewrite (be_ref _ _ _ _ _ _ Hb i x Hx Hd), (bool_decide_eq_false_2 (blockno x ∈ P)) by done. simpl.
    rewrite <- (b2z_mod true). simpl. f_equal. lia.
  - by eapply be_data.
  - by eapply be_data.
  - set_solver.
  - apply list.NoDup_app. split_and!; [apply Hb|set_solver|apply NoDup_singleton].
  - apply Hb.
Qed.

(** A pinned, clean or held block is unpinned. *)
Lemma bent_unpin i b P1 P2 :
  caches ms i b → P = P1 ++ b :: P2 → (b ∈ H ∨ V b = img b) →
  bent (alter (λ x, set_refcnt (u32 (refcnt x - 1)) x) i ms) sl img V (P1 ++ P2) H.
Proof.
  intros Hi EP Hcl. pose proof Hi as (x & Hx & Hd & <-). rewrite (alter_as_insert _ i x Hx).
  destruct (be_lock _ _ _ _ _ _ Hb i x Hx) as (n & p & El & Hp).
  pose proof (be_P _ _ _ _ _ _ Hb) as Hnd. rewrite EP, <- Permutation_middle in Hnd. apply list.NoDup_cons in Hnd as [Hnin Hnd].
  assert (bool_decide (blockno x ∈ P1 ++ P2) = false) as Ef by by apply bool_decide_eq_false_2.
  eapply (bent_step i x _ _ _ _ _ _ n p); simpl; rewrite ?Ef; try done.
  - by left.
  - intros b' Hne. rewrite EP. set_solver.
  - rewrite El. repeat f_equal. apply bool_decide_ext. tauto.
  - auto.
  - rewrite (be_ref _ _ _ _ _ _ Hb i x Hx Hd), (bool_decide_eq_true_2 (blockno x ∈ P)) by (rewrite EP; set_solver). simpl.
    rewrite <- (b2z_mod false). simpl. f_equal. lia.
  - by eapply be_data.
  - by eapply be_data.
  - intros _ HnH. destruct Hcl; done.
  - apply Hb.
Qed.

(** Counting: when every buffer is in use, all are pinned or held. *)
Lemma bent_room b : (length ms = HEAD)%nat → (∀ i, ¬ caches ms i b) → Z.of_nat (length P + length H) < NBUF →
  ∃ i x, ms !! i = Some x ∧ refcnt x = 0.
Proof.
  intros Hlen _ Hroom. destruct (decide (Exists (λ x, refcnt x = 0) ms)) as [He|Hn].
  { apply Exists_exists in He as (x & Hx & Hr). apply list_elem_of_In, list_elem_of_lookup in Hx as [i Hi]. eauto. }
  exfalso. assert (∀ i x, ms !! i = Some x → bdev x = 1 ∧ blockno x ∈ P ++ H) as Hall.
  { intros i x Hx. assert (refcnt x ≠ 0) as Hr.
    { intros E. apply Hn, Exists_exists. exists x. split; [|done]. apply list_elem_of_In. by eapply list_elem_of_lookup_2. }
    assert (bdev x = 1) as Hd by (destruct (decide (bdev x = 1)); [done|]; destruct Hr; by eapply be_unused).
    split; [done|]. rewrite (be_ref _ _ _ _ _ _ Hb i x Hx Hd) in Hr. apply elem_of_app. unfold b2z in Hr.
    repeat case_bool_decide; tauto. }
  assert (NoDup (blockno <$> ms)) as Hnd.
  { apply NoDup_alt. intros i j bb Hi Hj. rewrite list_lookup_fmap in Hi, Hj.
    destruct (ms !! i) as [x|] eqn:Ex, (ms !! j) as [y|] eqn:Ey; simplify_eq/=.
    apply (be_uniq _ _ _ _ _ _ Hb i j x y Ex Ey); [apply (Hall i x Ex)|apply (Hall j y Ey)|congruence]. }
  assert (blockno <$> ms ⊆+ P ++ H) as Hsub.
  { apply NoDup_submseteq; [done|]. intros bb (x & -> & Hx)%list_elem_of_fmap.
    apply list_elem_of_lookup in Hx as [i Hi]. by apply (Hall i). }
  apply submseteq_length in Hsub. rewrite length_fmap, length_app, Hlen in Hsub. unfold HEAD in Hsub. lia.
Qed.

(** With as many pinned blocks as buffers, every buffer is in use. *)
Lemma bent_full i x : (length ms = HEAD)%nat → Z.of_nat (length P) = NBUF → ms !! i = Some x → refcnt x ≠ 0.
Proof.
  intros Hlen HlenP Hx. assert (∃ I, Forall2 (caches ms) I P) as [I HI].
  { assert (∀ l, l ⊆ P → ∃ I, Forall2 (caches ms) I l) as Hgen; [|by apply Hgen].
    induction l as [|b l IH]; intros Hl; [by exists []|]. destruct IH as [I HI]; [set_solver|].
    destruct (bent_cached b) as [j Hj]; [left; set_solver|]. exists (j :: I). by constructor. }
  assert (NoDup I) as Hnd.
  { apply NoDup_alt. intros a b j Ha Hb'. destruct (Forall2_lookup_l _ _ _ _ _ HI Ha) as (c & Hc & y & Hy & _ & <-).
    destruct (Forall2_lookup_l _ _ _ _ _ HI Hb') as (d & Hd & z & Hz & _ & <-). simplify_eq.
    by eapply (NoDup_lookup P); [apply (be_P _ _ _ _ _ _ Hb)| |]. }
  assert (I ⊆+ seq 0 HEAD) as Hsub.
  { apply NoDup_submseteq; [done|]. intros j (k & Hk)%list_elem_of_lookup. apply elem_of_seq.
    destruct (Forall2_lookup_l _ _ _ _ _ HI Hk) as (c & _ & y & Hy%lookup_lt_Some & _). lia. }
  assert (i ∈ I) as (k & Hk)%list_elem_of_lookup.
  { rewrite (submseteq_length_Permutation I (seq 0 HEAD)); [|done|].
    - apply elem_of_seq. apply lookup_lt_Some in Hx. lia.
    - rewrite length_seq, (Forall2_length HI). unfold HEAD. lia. }
  destruct (Forall2_lookup_l _ _ _ _ _ HI Hk) as (c & Hc & y & Hy & Hd & <-). simplify_eq.
  rewrite (be_ref _ _ _ _ _ _ Hb i x Hx Hd), (bool_decide_eq_true_2 (blockno x ∈ P)) by by eapply list_elem_of_lookup_2.
  destruct (bool_decide (blockno x ∈ H)); simpl; lia.
Qed.

End Steps.
End Inv.
