(* ===== verification/BioSpec.v ===== *)
(** * What the buffer cache promises

    [bst f V P H]: in state [f], block [b] of the root device reads as [V b];
    the blocks [P] are pinned by the log and the blocks [H] are held, locked,
    by the current process.  A block that is neither is the same in the cache
    and on the disk.  Every operation of bio.c is a step on (V, P, H). *)

From S2P Require Import Prelude Params CString Spinlock ProcDefs WaitQueue Sched Memory Dll FsDefs Seq Sleeplock Bio BioInv.

(** ** Pointers and contents of the buffers *)

Definition nxt (f : fsst) (i : nat) : nat :=
  if decide (i = HEAD) then (bhead f).2 else match bufs f !! i with Some x => bnext x | None => HEAD end.
Definition prv (f : fsst) (i : nat) : nat :=
  if decide (i = HEAD) then (bhead f).1 else match bufs f !! i with Some x => bprev x | None => HEAD end.

(** A buffer without its list pointers. *)
Definition strip (x : buf) : buf := set_bprev 0 (set_bnext 0 x).
Definition metas (f : fsst) : list buf := strip <$> bufs f.

Definition in_cache (f : fsst) (i : nat) : Prop := i = HEAD ∨ (i < length (bufs f))%nat.

Definition put_nxt (i v : nat) (f : fsst) : fsst :=
  if decide (i = HEAD) then set_bhead ((bhead f).1, v) f else set_bufs (alter (set_bnext v) i (bufs f)) f.
Definition put_prv (i v : nat) (f : fsst) : fsst :=
  if decide (i = HEAD) then set_bhead (v, (bhead f).2) f else set_bufs (alter (set_bprev v) i (bufs f)) f.

(** Everything but pointers. *)
Definition same_but_ptrs (f f' : fsst) : Prop :=
  metas f' = metas f ∧ slocks f' = slocks f ∧ log f' = log f ∧ inodes f' = inodes f ∧
  files f' = files f ∧ sb f' = sb f ∧ disk f' = disk f.

Lemma metas_length f : length (metas f) = length (bufs f).
Proof. apply length_fmap. Qed.

Lemma metas_alter g (i : nat) (l : list buf) : (∀ x, strip (g x) = strip x) → strip <$> alter g i l = strip <$> l.
Proof.
  intros Hg. apply list_eq. intros j. rewrite !list_lookup_fmap.
  destruct (decide (j = i)) as [->|]; [|by rewrite list_lookup_alter_ne].
  rewrite list_lookup_alter_eq. destruct (l !! i); simpl; [by rewrite Hg|done].
Qed.

Lemma put_nxt_spec i v f : in_cache f i →
  (∀ j, nxt (put_nxt i v f) j = fupd (nxt f) i v j) ∧ (∀ j, prv (put_nxt i v f) j = prv f j) ∧
  same_but_ptrs f (put_nxt i v f).
Proof.
  intros Hi. unfold put_nxt. destruct (decide (i = HEAD)) as [->|Hne]; split_and!.
  - intros j. unfold nxt, fupd. simpl. by case_decide.
  - done.
  - done.
  - destruct Hi as [?|Hi]; [done|]. intros j. unfold nxt, fupd. simpl.
    destruct (decide (j = HEAD)) as [->|]; [by rewrite decide_False by congruence|].
    destruct (decide (j = i)) as [->|]; [|by rewrite list_lookup_alter_ne].
    rewrite list_lookup_alter_eq. apply lookup_lt_is_Some in Hi as [x ->]. done.
  - intros j. unfold prv. simpl. case_decide; [done|]. destruct (decide (j = i)) as [->|]; [|by rewrite list_lookup_alter_ne].
    rewrite list_lookup_alter_eq. by destruct (bufs f !! i).
  - split; [|done]. unfold metas. simpl. by apply metas_alter.
Qed.

Lemma put_prv_spec i v f : in_cache f i →
  (∀ j, prv (put_prv i v f) j = fupd (prv f) i v j) ∧ (∀ j, nxt (put_prv i v f) j = nxt f j) ∧
  same_but_ptrs f (put_prv i v f).
Proof.
  intros Hi. unfold put_prv. destruct (decide (i = HEAD)) as [->|Hne]; split_and!.
  - intros j. unfold prv, fupd. simpl. by case_decide.
  - done.
  - done.
  - destruct Hi as [?|Hi]; [done|]. intros j. unfold prv, fupd. simpl.
    destruct (decide (j = HEAD)) as [->|]; [by rewrite decide_False by congruence|].
    destruct (decide (j = i)) as [->|]; [|by rewrite list_lookup_alter_ne].
    rewrite list_lookup_alter_eq. apply lookup_lt_is_Some in Hi as [x ->]. done.
  - intros j. unfold nxt. simpl. case_decide; [done|]. destruct (decide (j = i)) as [->|]; [|by rewrite list_lookup_alter_ne].
    rewrite list_lookup_alter_eq. by destruct (bufs f !! i).
  - split; [|done]. unfold metas. simpl. by apply metas_alter.
Qed.

Lemma same_but_ptrs_trans f1 f2 f3 : same_but_ptrs f1 f2 → same_but_ptrs f2 f3 → same_but_ptrs f1 f3.
Proof. intros (? & ? & ? & ? & ? & ? & ?) (? & ? & ? & ? & ? & ? & ?). unfold same_but_ptrs. by split_and!; congruence. Qed.

Lemma same_but_ptrs_in f f' i : same_but_ptrs f f' → in_cache f i → in_cache f' i.
Proof. intros (E & _) [?|?]; [by left|right]. by rewrite <- metas_length, E, metas_length. Qed.

Lemma fchain_pt g g' a l : (∀ j, g' j = g j) → fchain g a l → fchain g' a l.
Proof. intros He. revert a. induction l as [|b l IH]; intros a; simpl; [done|]. rewrite He. intros [? ?]. auto. Qed.

Lemma dll_pt hd nx pv nx' pv' O : (∀ j, nx' j = nx j) → (∀ j, pv' j = pv j) → dll hd nx pv O → dll hd nx' pv' O.
Proof. intros ? ? (? & ? & ?). split_and!; [by eapply fchain_pt|by eapply fchain_pt|done]. Qed.

(** The LRU list runs through all the buffers. *)
Definition lru (f : fsst) (O : list nat) : Prop :=
  length (bufs f) = HEAD ∧ dll HEAD (nxt f) (prv f) O ∧ ∀ i, i ∈ O ↔ (i < HEAD)%nat.

Section Ptrs.
Context {S : Type} `{HasFs S}.
Variables (s0 : S).

Lemma fwp_buf_at held i f x (Q : buf → list lockid → fsst → Prop) :
  bufs f !! i = Some x → Q x held f → fwp s0 held (buf_at i) f Q.
Proof. intros Hx HQ. unfold buf_at. apply fwp_bind, fwp_get. rewrite Hx. by apply fwp_ret. Qed.

Lemma fwp_get_next held i f (Q : nat → list lockid → fsst → Prop) :
  in_cache f i → Q (nxt f i) held f → fwp s0 held (get_next i) f Q.
Proof.
  intros Hi HQ. unfold get_next. unfold nxt in HQ. case_decide as E.
  - apply fwp_bind, fwp_get, fwp_ret, HQ.
  - destruct Hi as [?|Hi]; [done|]. apply lookup_lt_is_Some in Hi as [x Hx]. rewrite Hx in HQ.
    apply fwp_bind. eapply fwp_buf_at; [done|]. by apply fwp_ret.
Qed.

Lemma fwp_get_prev held i f (Q : nat → list lockid → fsst → Prop) :
  in_cache f i → Q (prv f i) held f → fwp s0 held (get_prev i) f Q.
Proof.
  intros Hi HQ. unfold get_prev. unfold prv in HQ. case_decide as E.
  - apply fwp_bind, fwp_get, fwp_ret, HQ.
  - destruct Hi as [?|Hi]; [done|]. apply lookup_lt_is_Some in Hi as [x Hx]. rewrite Hx in HQ.
    apply fwp_bind. eapply fwp_buf_at; [done|]. by apply fwp_ret.
Qed.

Lemma fwp_put_next held i v f (Q : unit → list lockid → fsst → Prop) :
  Q tt held (put_nxt i v f) → fwp s0 held (put_next i v) f Q.
Proof. intros HQ. unfold put_next. unfold put_nxt in HQ. case_decide; by apply fwp_mod. Qed.

Lemma fwp_put_prev held i v f (Q : unit → list lockid → fsst → Prop) :
  Q tt held (put_prv i v f) → fwp s0 held (put_prev i v) f Q.
Proof. intros HQ. unfold put_prev. unfold put_prv in HQ. case_decide; by apply fwp_mod. Qed.

Lemma lru_in f O i : lru f O → i ∈ HEAD :: O → in_cache f i.
Proof. intros (Hl & _ & Hin) [->|Hi]%elem_of_cons; [by left|right]. rewrite Hl. by apply Hin. Qed.

(** [brelse]'s pointer code moves the buffer to the front of the list. *)
Lemma fwp_move_front held i f O (Q : unit → list lockid → fsst → Prop) :
  lru f O → (i < HEAD)%nat →
  (∀ f' O', lru f' O' → same_but_ptrs f f' → Q tt held f') →
  fwp s0 held (n <- get_next i ;; p <- get_prev i ;;
     put_prev n p ;;
     p <- get_prev i ;; n <- get_next i ;;
     put_next p n ;;
     hn <- get_next HEAD ;;
     put_next i hn ;;
     put_prev i HEAD ;;
     hn <- get_next HEAD ;;
     put_prev hn i ;;
     put_next HEAD i) f Q.
Proof.
  intros Hlru Hi HK. pose proof Hlru as (Hlen & Hd & Hin). pose proof (proj2 (Hin i) Hi) as HiO.
  apply list_elem_of_split in HiO as (l1 & l2 & ->). destruct (dll_prev _ _ _ _ _ _ Hd) as [Ep En].
  assert (∀ j, j ∈ HEAD :: l1 ++ l2 → j ≠ i ∧ in_cache f j) as Hother.
  { intros j Hj. destruct Hd as (_ & _ & Hnd). rewrite <- (Permutation_middle l1 l2 i) in Hnd. split.
    - intros ->. apply list.NoDup_cons in Hnd as [Hh Hnd]. apply list.NoDup_cons in Hnd as [Hii _].
      apply elem_of_cons in Hj as [->|?]; [|done]. lia.
    - eapply lru_in; [exact Hlru|]. apply elem_of_cons in Hj as [->|Hj]; [by left|right]. set_solver. }
  destruct (Hother (nxt f i)) as [Hni Hnc].
  { rewrite En. pose proof (last_cons_in HEAD (reverse l2)). set_solver. }
  destruct (Hother (prv f i)) as [Hpi Hpc].
  { rewrite Ep. pose proof (last_cons_in HEAD l1). set_solver. }
  assert (in_cache f i) as Hic by (right; lia). assert (in_cache f HEAD) as Hhc by by left.
  set (n := nxt f i) in *. set (p := prv f i) in *.
  apply fwp_bind, fwp_get_next; [done|]. apply fwp_bind, fwp_get_prev; [done|]. fold n p.
  apply fwp_bind, fwp_put_prev. destruct (put_prv_spec n p f Hnc) as (P1 & N1 & S1). set (f1 := put_prv n p f) in *.
  pose proof (same_but_ptrs_in _ _ i S1 Hic) as Hic1.
  apply fwp_bind, fwp_get_prev; [done|]. apply fwp_bind, fwp_get_next; [done|].
  rewrite P1, N1, fupd_ne by done. fold n p.
  apply fwp_bind, fwp_put_next. destruct (put_nxt_spec p n f1 (same_but_ptrs_in _ _ _ S1 Hpc)) as (N2 & P2 & S2).
  set (f2 := put_nxt p n f1) in *. pose proof (same_but_ptrs_trans _ _ _ S1 S2) as S12.
  apply fwp_bind, fwp_get_next; [by left|]. set (hn := nxt f2 HEAD).
  apply fwp_bind, fwp_put_next. destruct (put_nxt_spec i hn f2 (same_but_ptrs_in _ _ _ S12 Hic)) as (N3 & P3 & S3).
  set (f3 := put_nxt i hn f2) in *. pose proof (same_but_ptrs_trans _ _ _ S12 S3) as S13.
  apply fwp_bind, fwp_put_prev. destruct (put_prv_spec i HEAD f3 (same_but_ptrs_in _ _ _ S13 Hic)) as (P4 & N4 & S4).
  set (f4 := put_prv i HEAD f3) in *. pose proof (same_but_ptrs_trans _ _ _ S13 S4) as S14.
  apply fwp_bind, fwp_get_next; [by left|].
  assert (nxt f4 HEAD = hn) as -> by (rewrite N4, N3; apply fupd_ne; unfold HEAD in *; lia).
  assert (in_cache f hn) as Hhn.
  { unfold hn. rewrite N2. unfold fupd. case_decide; [done|]. rewrite N1. eapply lru_in; [exact Hlru|]. by apply (dll_first HEAD _ _ _ Hd). }
  apply fwp_bind, fwp_put_prev. destruct (put_prv_spec hn i f4 (same_but_ptrs_in _ _ _ S14 Hhn)) as (P5 & N5 & S5).
  set (f5 := put_prv hn i f4) in *. pose proof (same_but_ptrs_trans _ _ _ S14 S5) as S15.
  apply fwp_put_next. destruct (put_nxt_spec HEAD i f5) as (N6 & P6 & S6); [by left|].
  set (f6 := put_nxt HEAD i f5) in *. pose proof (same_but_ptrs_trans _ _ _ S15 S6) as S16.
  apply (HK f6 (i :: l1 ++ l2)); [|done]. split_and!.
  - rewrite <- metas_length. destruct S16 as (-> & _). by rewrite metas_length.
  - eapply dll_pt; [| |apply (dll_move HEAD _ _ _ _ _ Hd)]; unfold move_nx, move_pv; fold n p.
    + intros j. rewrite N6. unfold fupd at 1 2. case_decide; [done|]. rewrite N5, N4, N3. unfold fupd at 1 2.
      case_decide; [|by rewrite N2; unfold fupd; case_decide; [|rewrite N1]].
      unfold hn. rewrite N2. unfold fupd. case_decide; [done|]. by rewrite N1.
    + assert (hn = fupd (nxt f) p n HEAD) as <- by (unfold hn; rewrite N2; unfold fupd; case_decide; [done|]; by rewrite N1).
      intros j. rewrite P6, P5. unfold fupd at 1 2. case_decide; [done|]. rewrite P4. unfold fupd at 1 2. case_decide; [done|].
      by rewrite P3, P2, P1.
  - intros j. rewrite Permutation_middle. apply Hin.
Qed.

End Ptrs.

(** ** Changing a buffer's fields *)

Definition upd_buf (i : nat) (g : buf → buf) (f : fsst) : fsst := set_bufs (alter g i (bufs f)) f.

(** [g] leaves the list pointers alone. *)
Definition meta_fun (g : buf → buf) : Prop :=
  ∀ x, strip (g x) = g (strip x) ∧ bnext (g x) = bnext x ∧ bprev (g x) = bprev x.

Lemma upd_buf_metas i g f : meta_fun g → metas (upd_buf i g f) = alter g i (metas f).
Proof.
  intros Hg. unfold metas, upd_buf. simpl. apply list_eq. intros j. rewrite list_lookup_fmap.
  destruct (decide (j = i)) as [->|].
  - rewrite !list_lookup_alter_eq, list_lookup_fmap. destruct (bufs f !! i) as [x|]; simpl; [|done]. by rewrite (proj1 (Hg x)).
  - by rewrite !list_lookup_alter_ne, list_lookup_fmap.
Qed.

Lemma upd_buf_lru i g f O : meta_fun g → lru f O → lru (upd_buf i g f) O.
Proof.
  intros Hg (Hl & Hd & Hin). split_and!; [by simpl; rewrite length_alter| |done].
  eapply dll_pt; [| |exact Hd]; intros j; unfold nxt, prv, upd_buf; simpl; (case_decide; [done|]);
    (destruct (decide (j = i)) as [->|]; [|by rewrite list_lookup_alter_ne]); rewrite list_lookup_alter_eq;
    destruct (bufs f !! i) as [x|]; simpl; try done; apply Hg.
Qed.

Lemma mod_buf_eq {S} `{HasFs S} i g : mod_buf (S := S) i g = mod_fs (upd_buf i g).
Proof. done. Qed.

Lemma metas_lookup f i x : metas f !! i = Some x ↔ ∃ y, bufs f !! i = Some y ∧ x = strip y.
Proof. unfold metas. rewrite list_lookup_fmap. destruct (bufs f !! i); simpl; naive_solver. Qed.

Section Cache.
Context {S : Type} `{HasFs S}.
Variables (s0 : S) (me : nat) (mep : proc) (sleeplocks : list Z) (patience : nat) (bcache : Z).
Hypothesis Hbase : seq_base s0 me mep sleeplocks.
Hypothesis Hlocks : ∀ i, (i < HEAD)%nat → b_lock bcache i ∈ sleeplocks.
Notation b_lock := (b_lock bcache).
Notation bent := (bent bcache (pid mep)).

Definition bst (f : fsst) (V : Z → list Z) (P H : list Z) : Prop :=
  (∃ O, lru f O) ∧ bent (metas f) (slocks f) (image (disk f)) V P H.

(** What the buffer cache leaves alone. *)
Definition bio_frame (f f' : fsst) : Prop :=
  log f' = log f ∧ inodes f' = inodes f ∧ files f' = files f ∧ sb f' = sb f ∧
  ∀ a, (∀ i, a ≠ b_lock i) → slocks f' !! a = slocks f !! a.

Lemma bio_frame_refl f : bio_frame f f.
Proof. done. Qed.
Lemma bio_frame_trans f1 f2 f3 : bio_frame f1 f2 → bio_frame f2 f3 → bio_frame f1 f3.
Proof.
  intros (? & ? & ? & ? & E1) (? & ? & ? & ? & E2). unfold bio_frame. split_and!; try congruence.
  intros a Ha. by rewrite E2, E1.
Qed.

Lemma caches_lt f O i b : lru f O → caches (metas f) i b → (i < HEAD)%nat.
Proof. intros (Hl & _) (x & Hx%lookup_lt_Some & _). rewrite metas_length in Hx. lia. Qed.

(** Walking the list forwards. *)
Lemma bget_find_spec held b l : ∀ fuel a f (Q : option nat → list lockid → fsst → Prop),
  fchain (nxt f) a (l ++ [HEAD]) → (length l < fuel)%nat → (∀ j, j ∈ l → (j < HEAD)%nat ∧ in_cache f j) →
  (∀ i, i ∈ l → caches (metas f) i b → Q (Some i) held (upd_buf i (λ x, set_refcnt (u32 (refcnt x + 1)) x) f)) →
  ((∀ i, i ∈ l → ¬ caches (metas f) i b) → Q None held f) →
  fwp s0 held (bget_find fuel 1 b (nxt f a)) f Q.
Proof.
  induction l as [|j l IH]; intros [|fuel] a f Q Hc Hf Hl HS HN; simpl in Hf; try lia; cbn [bget_find].
  - destruct Hc as [-> _]. rewrite decide_True by done. apply fwp_ret, HN. set_solver.
  - destruct Hc as [-> Hc]. destruct (Hl j) as [Hj Hjc]; [by left|]. rewrite decide_False by lia.
    destruct Hjc as [?|Hlen]; [lia|]. destruct (lookup_lt_is_Some_2 _ _ Hlen) as [x Hx].
    apply fwp_bind. eapply fwp_buf_at; [done|].
    assert (caches (metas f) j b ↔ bdev x = 1 ∧ blockno x = b) as Hca.
    { unfold caches. setoid_rewrite metas_lookup. split; [|intros [? ?]; exists (strip x); eauto].
      intros (? & (y & Hy & ->) & ? & ?). simplify_eq. done. }
    case_decide as Hd.
    + rewrite mod_buf_eq. apply fwp_bind, fwp_mod, fwp_ret, HS; [by left|tauto].
    + apply fwp_bind, fwp_get_next; [by right|]. apply IH; [done|lia|set_solver|set_solver|].
      intros Hno. apply HN. intros i [->|Hi]%elem_of_cons; [tauto|auto].
Qed.

Definition recycled (b : Z) (x : buf) : buf := set_refcnt 1 (set_valid 0 (set_blockno b (set_bdev 1 x))).

(** Walking it backwards. *)
Lemma bget_recycle_spec held b l : ∀ fuel a f (Q : option nat → list lockid → fsst → Prop),
  fchain (prv f) a (l ++ [HEAD]) → (length l < fuel)%nat → (∀ j, j ∈ l → (j < HEAD)%nat ∧ in_cache f j) →
  (∀ i x, i ∈ l → metas f !! i = Some x → refcnt x = 0 → Q (Some i) held (upd_buf i (recycled b) f)) →
  ((∀ i x, i ∈ l → metas f !! i = Some x → refcnt x ≠ 0) → Q None held f) →
  fwp s0 held (bget_recycle fuel 1 b (prv f a)) f Q.
Proof.
  induction l as [|j l IH]; intros [|fuel] a f Q Hc Hf Hl HS HN; simpl in Hf; try lia; cbn [bget_recycle].
  - destruct Hc as [-> _]. rewrite decide_True by done. apply fwp_ret, HN. set_solver.
  - destruct Hc as [-> Hc]. destruct (Hl j) as [Hj Hjc]; [by left|]. rewrite decide_False by lia.
    destruct Hjc as [?|Hlen]; [lia|]. destruct (lookup_lt_is_Some_2 _ _ Hlen) as [x Hx].
    apply fwp_bind. eapply fwp_buf_at; [done|].
    assert (metas f !! j = Some (strip x)) as Hm by (apply metas_lookup; eauto).
    case_decide as Hd.
    + rewrite !mod_buf_eq. do 4 apply fwp_bind, fwp_mod. apply fwp_ret.
      specialize (HS j (strip x) ltac:(by left) Hm Hd). unfold upd_buf, recycled in *. simpl.
      by rewrite !list_alter_alter.
    + apply fwp_bind, fwp_get_prev; [by right|]. apply IH; [done|lia|set_solver|set_solver|].
      intros Hno. apply HN. intros i y [->|Hi]%elem_of_cons Hy; [simplify_eq; done|by eapply Hno].
Qed.

Lemma meta_refcnt g : meta_fun (λ x, set_refcnt (g x) x) ↔ ∀ x, g (strip x) = g x.
Proof.
  split; [|intros Hg x; split_and!; [by unfold strip; simpl; f_equal; rewrite <- Hg|done|done]].
  intros Hg x. destruct (Hg x) as [E _]. unfold strip, set_refcnt in E. simpl in E. by injection E.
Qed.

Lemma meta_inc : meta_fun (λ x, set_refcnt (u32 (refcnt x + 1)) x).
Proof. by apply (meta_refcnt (λ x, u32 (refcnt x + 1))). Qed.
Lemma meta_dec : meta_fun (λ x, set_refcnt (u32 (refcnt x - 1)) x).
Proof. by apply (meta_refcnt (λ x, u32 (refcnt x - 1))). Qed.
Lemma meta_data d : meta_fun (set_data d).
Proof. done. Qed.
Lemma meta_recycled b : meta_fun (recycled b).
Proof. done. Qed.
Lemma meta_valid v : meta_fun (set_valid v).
Proof. done. Qed.

Definition lock_buf (i : nat) (l : sleeplock) (f : fsst) : fsst := set_slocks (<[b_lock i := l]> (slocks f)) f.

Lemma lru_lock_buf i l f O : lru f O → lru (lock_buf i l f) O.
Proof. done. Qed.

Lemma bio_frame_buf i g f : bio_frame f (upd_buf i g f).
Proof. done. Qed.
Lemma bio_frame_lock i l f : bio_frame f (lock_buf i l f).
Proof. split_and!; try done. intros a Ha. simpl. by rewrite lookup_insert_ne. Qed.

(** Taking the sleep-lock of a free buffer. *)
Lemma fwp_lock_buf {A} f O i n p (K : M S A) Q :
  lru f O → (i < HEAD)%nat → slocks f !! b_lock i = Some (mkSlock 0 n p) →
  fwp s0 [] K (lock_buf i (mkSlock 1 n (pid mep)) f) Q →
  fwp s0 [L_bcache] (release L_bcache ;; acquiresleep patience (b_lock i) ;; K) f Q.
Proof.
  intros Hl Hi Hs HK. apply fwp_bind, (fwp_release _ _ _ _ Hbase); [apply fs_lock_bcache|set_solver|].
  apply fwp_bind. eapply (fwp_acquiresleep _ _ _ _ _ Hbase); [by apply Hlocks|set_solver|done|]. exact HK.
Qed.

(** The state in which [bread] returns. *)
Definition bread_post (f : fsst) (V : Z → list Z) (P X : list Z) (b : Z) (i : nat) (held' : list lockid) (f' : fsst) : Prop :=
  held' = [] ∧ bst f' V P (b :: X) ∧ caches (metas f') i b ∧ bio_frame f f' ∧ disk f' = disk f ∧
  ∀ j c, c ∈ X → caches (metas f) j c → caches (metas f') j c.

Lemma caches_alter ms i g j c : (∀ x, bdev (g x) = bdev x ∧ blockno (g x) = blockno x) →
  caches (alter g i ms) j c ↔ caches ms j c.
Proof.
  intros Hg. unfold caches. destruct (decide (j = i)) as [->|].
  - rewrite list_lookup_alter_eq. destruct (ms !! i) as [x|]; simpl; [|naive_solver].
    destruct (Hg x) as [E1 E2]. split; intros (y & [= <-] & Hd & Eb); eexists; (split; [done|]); rewrite ?E1, ?E2 in *; done.
  - by rewrite list_lookup_alter_ne.
Qed.

Definition fill (i : nat) : M S nat :=
  x <- buf_at i ;;
  (if decide (bvalid x = 0) then
     virtio_disk_rw i false ;;
     mod_buf i (set_valid 1)
   else ret tt) ;;
  ret i.

Lemma bread_hit f V P X b i :
  bst f V P X → b ∉ X → caches (metas f) i b →
  fwp s0 [L_bcache] (release L_bcache ;; acquiresleep patience (b_lock i) ;; ret i)
    (upd_buf i (λ x, set_refcnt (u32 (refcnt x + 1)) x) f)
    (λ r held' f', fwp s0 held' (fill r) f' (bread_post f V P X b)).
Proof.
  intros [[O Hl] Hb] HbX Hi. pose proof Hi as (x & Hx & Hd & Eb).
  destruct (be_lock _ _ _ _ _ _ _ _ Hb i x Hx) as (n & p & Es & _).
  rewrite bool_decide_eq_false_2 in Es by (rewrite Eb; tauto).
  set (g := λ x, set_refcnt (u32 (refcnt x + 1)) x). set (f1 := upd_buf i g f).
  eapply (fwp_lock_buf _ O i n p); [by apply upd_buf_lru; [apply meta_inc|]|by eapply caches_lt|done|]. apply fwp_ret.
  set (f2 := lock_buf i (mkSlock 1 n (pid mep)) f1).
  assert (metas f2 = alter g i (metas f)) as Em by apply (upd_buf_metas i _ f meta_inc).
  assert (metas f2 !! i = Some (g x)) as Emi by (rewrite Em, list_lookup_alter_eq, Hx; done).
  pose proof (bent_hold bcache (pid mep) _ _ _ _ _ _ Hb i b n Hi HbX) as Hb'.
  pose proof Emi as (y & Hy & Ey)%metas_lookup. unfold fill. apply fwp_bind. eapply fwp_buf_at; [exact Hy|].
  destruct (be_data _ _ _ _ _ _ _ _ Hb i x Hx Hd) as [Hv _].
  assert (bvalid y = 1) as -> by (transitivity (bvalid (strip y)); [done|]; by rewrite <- Ey).
  rewrite decide_False by done. apply fwp_bind, fwp_ret, fwp_ret. split_and!; [done| | | |done|].
  - split; [exists O; apply lru_lock_buf, upd_buf_lru; [apply meta_inc|done]|]. rewrite Em. exact Hb'.
  - by exists (g x).
  - eapply bio_frame_trans; [apply bio_frame_buf|apply bio_frame_lock].
  - intros j c _. rewrite Em. by rewrite caches_alter.
Qed.

Lemma bread_miss f V P X b i x :
  bst f V P X → (∀ j, ¬ caches (metas f) j b) → (i < HEAD)%nat → metas f !! i = Some x → refcnt x = 0 →
  fwp s0 [L_bcache] (release L_bcache ;; acquiresleep patience (b_lock i) ;; ret i) (upd_buf i (recycled b) f)
    (λ r held' f', fwp s0 held' (fill r) f' (bread_post f V P X b)).
Proof.
  intros [[O Hl] Hb] Hno Hi Hx Hr.
  destruct (be_lock _ _ _ _ _ _ _ _ Hb i x Hx) as (n & p & Es & _).
  rewrite bool_decide_eq_false_2 in Es.
  2:{ intros [Hd Hin]. rewrite (be_ref _ _ _ _ _ _ _ _ Hb i x Hx Hd), (bool_decide_eq_true_2 (blockno x ∈ X)) in Hr by done.
      destruct (bool_decide (blockno x ∈ P)); simpl in Hr; lia. }
  pose proof (upd_buf_lru i _ f O (meta_recycled b) Hl) as Hl1. set (f1 := upd_buf i (recycled b) f) in *.
  eapply (fwp_lock_buf _ O i n p); [done|done|done|]. apply fwp_ret.
  pose proof Hx as (y & Hy & Ey)%metas_lookup. set (f2 := lock_buf i (mkSlock 1 n (pid mep)) f1).
  assert (bufs f2 !! i = Some (recycled b y)) as Hy2 by (simpl; by rewrite list_lookup_alter_eq, Hy).
  unfold fill. apply fwp_bind. eapply fwp_buf_at; [exact Hy2|]. rewrite decide_True by done. apply fwp_bind.
  apply fwp_bind. unfold virtio_disk_rw. apply fwp_bind. eapply fwp_buf_at; [exact Hy2|]. apply fwp_bind, fwp_get.
  rewrite mod_buf_eq. apply fwp_mod. rewrite mod_buf_eq. apply fwp_mod, fwp_ret.
  set (f3 := upd_buf i (set_valid 1) (upd_buf i (set_data _) f2)).
  assert (lru f3 O) as Hl3 by (apply upd_buf_lru, upd_buf_lru; done).
  assert (metas f3 = <[i := mkBuf 1 (bdisk x) 1 b 1 (bprev x) (bnext x) (image (disk f) b)]> (metas f)) as Em.
  { unfold f3. rewrite !upd_buf_metas by done. unfold f2, f1. change (metas (lock_buf i _ ?z)) with (metas z).
    rewrite upd_buf_metas by done. rewrite !list_alter_alter. by erewrite alter_as_insert by exact Hx. }
  split_and!; [done| | |eapply bio_frame_trans; [apply bio_frame_buf|apply bio_frame_lock]|done|].
  - split; [by exists O|]. rewrite Em. by apply (bent_recycle bcache (pid mep) _ _ _ _ _ _ Hb).
  - rewrite Em. eexists. split; [apply list_lookup_insert_eq; by eapply lookup_lt_Some|done].
  - intros j c Hc (z & Hz & Hdz & Ez). rewrite Em. exists z. split; [|done]. rewrite list_lookup_insert_ne; [done|].
    intros E. subst j. assert (z = x) by congruence. subst z c.
    rewrite (be_ref _ _ _ _ _ _ _ _ Hb i x Hx Hdz), (bool_decide_eq_true_2 (blockno x ∈ X)) in Hr by done.
    destruct (bool_decide (blockno x ∈ P)); simpl in Hr; lia.
Qed.

Lemma lru_length f O : lru f O → (length O < Datatypes.S HEAD)%nat.
Proof.
  intros (_ & (_ & _ & Hnd) & Hin). apply list.NoDup_cons in Hnd as [_ Hnd]. assert (O ⊆+ seq 0 HEAD) as Hs.
  { apply NoDup_submseteq; [done|]. intros j Hj. apply elem_of_seq. apply Hin in Hj. lia. }
  apply submseteq_length in Hs. rewrite length_seq in Hs. lia.
Qed.

(** [bread]: the block, locked, with its current contents. *)
Lemma bread_spec f V P X b :
  bst f V P X → b ∉ X → (b ∈ P ∨ Z.of_nat (length P + length X) < NBUF) →
  fwp s0 [] (bread patience bcache 1 b) f (bread_post f V P X b).
Proof.
  intros Hbst HbX Hroom. pose proof Hbst as [[O Hl] Hb]. pose proof Hl as (Hlen & (Hn & Hp & Hnd) & Hin).
  assert (∀ j, j ∈ O → (j < HEAD)%nat ∧ in_cache f j) as HO.
  { intros j Hj. split; [by apply Hin|]. eapply lru_in; [done|by right]. }
  pose proof (lru_length _ _ Hl) as HOl. unfold bread, bget. fold fill. apply fwp_bind.
  apply fwp_bind, (fwp_acquire _ _ _ _ Hbase); [apply fs_lock_bcache|set_solver|].
  apply fwp_bind, fwp_get_next; [by left|]. apply fwp_bind. apply (bget_find_spec _ b O); [done|done|done| |].
  { intros i _ Hi. by apply bread_hit. }
  intros Hno. assert (∀ j, ¬ caches (metas f) j b) as Hno'.
  { intros j Hj. apply (Hno j); [|done]. apply Hin. by eapply caches_lt. }
  apply fwp_bind, fwp_get_prev; [by left|]. apply fwp_bind.
  apply (bget_recycle_spec _ b (reverse O)); [done|by rewrite length_reverse|intros j; rewrite elem_of_reverse; apply HO| |].
  - intros i x Hi Hx Hr. rewrite elem_of_reverse in Hi. apply (bread_miss _ _ _ _ _ _ x); [done|done|by apply Hin|done|done].
  - intros Hall. exfalso. destruct Hroom as [HbP|Hroom].
    { destruct (bent_cached _ _ _ _ _ _ _ _ Hb b) as [i Hi]; [by left|]. by apply (Hno' i). }
    destruct (bent_room _ _ _ _ _ _ _ _ Hb b) as (i & x & Hx & Hr); [by rewrite metas_length|done|done|].
    apply (Hall i x); [|done|done]. rewrite elem_of_reverse. apply Hin. apply lookup_lt_Some in Hx. rewrite metas_length in Hx. lia.
Qed.

(** [bread] of another block when every buffer is in use. *)
Lemma bread_full f V P b :
  bst f V P [] → b ∉ P → Z.of_nat (length P) = NBUF → bread patience bcache 1 b (st s0 [] f) = Panic "bget: no buffers".
Proof.
  intros [[O Hl] Hb] HbP Hlp. pose proof Hl as (Hlen & (Hn & Hp & Hnd) & Hin). rewrite <- metas_length in Hlen.
  assert (∀ j, j ∈ O → (j < HEAD)%nat ∧ in_cache f j) as HO.
  { intros j Hj. split; [by apply Hin|]. eapply lru_in; [done|by right]. }
  pose proof (lru_length _ _ Hl) as HOl. unfold bread. apply bind_panic. unfold bget.
  apply fwp_panic, (fwp_acquire _ _ _ _ Hbase); [apply fs_lock_bcache|set_solver|].
  apply fwp_panic, fwp_get_next; [by left|]. apply fwp_panic. apply (bget_find_spec _ b O); [done|done|done| |].
  - intros i _ (x & Hx & Hd & Ex). exfalso. apply (bent_full _ _ _ _ _ _ _ _ Hb i x Hlen Hlp Hx).
    rewrite (be_ref _ _ _ _ _ _ _ _ Hb i x Hx Hd), !bool_decide_eq_false_2; [done|by apply not_elem_of_nil|by rewrite Ex].
  - intros _. apply fwp_panic, fwp_get_prev; [by left|]. apply fwp_panic.
    apply (bget_recycle_spec _ b (reverse O)); [done|by rewrite length_reverse|intros j; rewrite elem_of_reverse; apply HO| |done].
    intros i x _ Hx Hr. exfalso. by eapply (bent_full _ _ _ _ _ _ _ _ Hb).
Qed.

Lemma bst_ext f V V' P X : (∀ x, V x = V' x) → bst f V P X → bst f V' P X.
Proof.
  intros E [Hl []]. split; [done|]. split; try done; intros; rewrite <- ?E; eauto.
Qed.

(** With nothing pinned or held the cache agrees with the disk. *)
Lemma bst_idle f V b P X : bst f V P X → b ∉ P → b ∉ X → V b = image (disk f) b.
Proof.
  intros [_ Hb] HP HX. destruct (decide (∃ i, caches (metas f) i b)) as [(i & x & Hx & Hd & <-)|Hn].
  - by eapply (be_clean _ _ _ _ _ _ _ _ Hb).
  - apply (be_miss _ _ _ _ _ _ _ _ Hb b). intros i x Hx Hd E. apply Hn. by exists i, x.
Qed.

(** The buffer of a held or pinned block. *)
Lemma bst_buf f V P X i b : bst f V P X → caches (metas f) i b →
  ∃ x, bufs f !! i = Some x ∧ bdev x = 1 ∧ blockno x = b ∧ data x = V b ∧ (i < HEAD)%nat.
Proof.
  intros [[O Hl] Hb] Hi. pose proof Hi as (x & Hx & Hd & Eb). pose proof Hx as (y & Hy & ->)%metas_lookup.
  destruct (be_data _ _ _ _ _ _ _ _ Hb i _ Hx Hd) as [_ Ed]. simpl in *. exists y. rewrite <- Eb.
  split_and!; try done. by eapply caches_lt.
Qed.

Lemma fwp_buf_held {A} held f V P X i b (K : buf → M S A) Q : bst f V P X → caches (metas f) i b →
  (∀ x, data x = V b → blockno x = b → fwp s0 held (K x) f Q) → fwp s0 held (x <- buf_at i ;; K x) f Q.
Proof.
  intros Hb Hi HK. destruct (bst_buf f V P X i b Hb Hi) as (x & Hx & _ & Eb & Ed & _).
  apply fwp_bind. eapply fwp_buf_at; [done|]. by apply HK.
Qed.

(** Storing in the buffer of a held block. *)
Lemma fwp_set_data held f V P X i b d (Q : unit → list lockid → fsst → Prop) :
  bst f V P X → caches (metas f) i b → b ∈ X →
  (∀ f', bst f' (λ x, if decide (x = b) then d else V x) P X → bio_frame f f' → disk f' = disk f →
     (∀ j c, caches (metas f') j c ↔ caches (metas f) j c) → Q tt held f') →
  fwp s0 held (mod_buf i (set_data d)) f Q.
Proof.
  intros [[O Hl] Hb] Hi HbX HQ. rewrite mod_buf_eq. apply fwp_mod, HQ; [|done|done|].
  - split; [exists O; by apply upd_buf_lru|]. rewrite upd_buf_metas by done. by apply bent_set_data.
  - intros j c. rewrite upd_buf_metas by done. by apply caches_alter.
Qed.

Lemma fwp_upd_data held f V P X i b g (Q : unit → list lockid → fsst → Prop) :
  bst f V P X → caches (metas f) i b → b ∈ X →
  (∀ f', bst f' (λ x, if decide (x = b) then g (V b) else V x) P X → bio_frame f f' → disk f' = disk f →
     (∀ j c, caches (metas f') j c ↔ caches (metas f) j c) → Q tt held f') →
  fwp s0 held (mod_buf i (λ x, set_data (g (data x)) x)) f Q.
Proof.
  intros Hb Hi HbX HQ. destruct (bst_buf f V P X i b Hb Hi) as (x & Hx & _ & _ & Ed & _).
  pose proof (fwp_set_data held f V P X i b (g (V b)) Q Hb Hi HbX HQ) as (r & h' & f' & E & HQ').
  exists r, h', f'. split; [|done]. rewrite <- E. rewrite !mod_buf_eq. unfold mod_fs, modify. rewrite fs_of_st.
  do 2 f_equal. unfold upd_buf. apply (f_equal (λ l, set_bufs l f)), list_eq. intros j. destruct (decide (j = i)) as [->|].
  - rewrite !list_lookup_alter_eq, Hx. simpl. by rewrite Ed.
  - by rewrite !list_lookup_alter_ne.
Qed.

Lemma held_lock f V P X i b : bst f V P X → caches (metas f) i b → b ∈ X →
  ∃ n, slocks f !! b_lock i = Some (mkSlock 1 n (pid mep)).
Proof.
  intros [_ Hb] (x & Hx & Hd & Eb) HbX. destruct (be_lock _ _ _ _ _ _ _ _ Hb i x Hx) as (n & p & E & Hp). subst b.
  rewrite bool_decide_eq_true_2 in E by done. exists n. by rewrite E, Hp.
Qed.

(** [bwrite] of a held block. *)
Lemma bwrite_spec f V P X i b (Q : unit → list lockid → fsst → Prop) :
  bst f V P X → caches (metas f) i b → b ∈ X →
  (∀ f', bst f' V P X → bio_frame f f' → disk f' = disk_write b (V b) (disk f) → metas f' = metas f → Q tt [] f') →
  fwp s0 [] (bwrite bcache i) f Q.
Proof.
  intros Hbst Hi HbX HQ. destruct (held_lock f V P X i b Hbst Hi HbX) as [n Hs].
  destruct (bst_buf f V P X i b Hbst Hi) as (x & Hx & Hd & Eb & Ed & Hlt). pose proof Hbst as [[O Hl] Hb].
  unfold bwrite. apply fwp_bind. eapply (fwp_holdingsleep_mine _ _ _ _ Hbase); [by apply Hlocks|set_solver|done|].
  rewrite decide_False by done. unfold virtio_disk_rw.
  apply fwp_bind. eapply fwp_buf_at; [done|]. apply fwp_mod, HQ; [|done|by rewrite Eb, Ed|done].
  split; [by exists O|]. change (metas (set_disk _ f)) with (metas f). change (slocks (set_disk _ f)) with (slocks f).
  pose proof (bent_bwrite bcache (pid mep) _ _ _ _ _ _ Hb i (strip x)) as Hw. apply Hw; [apply metas_lookup; eauto|done|].
  by change (blockno (strip x)) with (blockno x); rewrite Eb.
Qed.

(** [brelse] of a held block that is pinned or clean. *)
Lemma brelse_spec f V P X1 X2 i b (Q : unit → list lockid → fsst → Prop) :
  bst f V P (X1 ++ b :: X2) → caches (metas f) i b → (b ∈ P ∨ V b = image (disk f) b) →
  (∀ f', bst f' V P (X1 ++ X2) → bio_frame f f' → disk f' = disk f →
     (∀ j c, caches (metas f') j c ↔ caches (metas f) j c) → Q tt [] f') →
  fwp s0 [] (brelse bcache i) f Q.
Proof.
  intros Hbst Hi Hcl HQ. destruct (held_lock f V P _ i b Hbst Hi ltac:(set_solver)) as [n Hs].
  destruct (bst_buf f V P _ i b Hbst Hi) as (x & Hx & Hd & Eb & Ed & Hlt). pose proof Hbst as [[O Hl] Hb].
  unfold brelse. apply fwp_bind. eapply (fwp_holdingsleep_mine _ _ _ _ Hbase); [by apply Hlocks|set_solver|done|].
  rewrite decide_False by done.
  apply fwp_bind. eapply (fwp_releasesleep _ _ _ _ Hbase); [by apply Hlocks|set_solver|constructor|done|]. simpl.
  fold (lock_buf i (mkSlock 0 n 0) f). set (f1 := lock_buf i (mkSlock 0 n 0) f).
  apply fwp_bind, (fwp_acquire _ _ _ _ Hbase); [apply fs_lock_bcache|set_solver|].
  rewrite mod_buf_eq. apply fwp_bind, fwp_mod. set (g := λ x, set_refcnt (u32 (refcnt x - 1)) x). set (f2 := upd_buf i g f1).
  assert (lru f2 O) as Hl2 by (apply upd_buf_lru; [apply meta_dec|done]).
  assert (metas f2 = alter g i (metas f)) as Em by apply (upd_buf_metas i g f1 meta_dec).
  pose proof (bent_release bcache (pid mep) _ _ _ _ _ _ Hb i b n X1 X2 Hi eq_refl Hcl) as Hb'.
  apply fwp_bind. eapply fwp_buf_at; [simpl; by rewrite list_lookup_alter_eq, Hx|].
  assert (∀ f3 O3, lru f3 O3 → same_but_ptrs f2 f3 → fwp s0 [L_bcache] (release L_bcache) f3 Q) as Hend.
  { intros f3 O3 Hl3 (Em3 & Es3 & E1 & E2 & E3 & E4 & E5). apply (fwp_release _ _ _ _ Hbase); [apply fs_lock_bcache|set_solver|].
    apply HQ; [| |by rewrite E5|].
    - split; [by exists O3|]. rewrite Em3, Es3, E5, Em. exact Hb'.
    - split_and!; [by rewrite E1|by rewrite E2|by rewrite E3|by rewrite E4|].
      intros a Ha. rewrite Es3. simpl. by rewrite lookup_insert_ne.
    - intros j c. rewrite Em3, Em. by apply caches_alter. }
  case_decide as Hr.
  - by apply fwp_bind, (fwp_move_front s0 _ i f2 O).
  - apply fwp_bind, fwp_ret. by eapply Hend.
Qed.

Lemma bpin_spec held f V P X i b (Q : unit → list lockid → fsst → Prop) :
  bst f V P X → caches (metas f) i b → b ∉ P → L_bcache ∉ held →
  (∀ f', bst f' V (P ++ [b]) X → bio_frame f f' → disk f' = disk f →
     (∀ j c, caches (metas f') j c ↔ caches (metas f) j c) → Q tt held f') →
  fwp s0 held (bpin i) f Q.
Proof.
  intros [[O Hl] Hb] Hi HbP Hh HQ. unfold bpin. apply fwp_bind, (fwp_acquire _ _ _ _ Hbase); [apply fs_lock_bcache|done|].
  rewrite mod_buf_eq. apply fwp_bind, fwp_mod, (fwp_release _ _ _ _ Hbase); [apply fs_lock_bcache|done|]. apply HQ; [|done|done|].
  - split; [exists O; by apply upd_buf_lru; [apply meta_inc|]|]. rewrite upd_buf_metas by apply meta_inc. by apply bent_pin.
  - intros j c. rewrite upd_buf_metas by apply meta_inc. by apply caches_alter.
Qed.

Lemma bunpin_spec held f V P1 P2 X i b (Q : unit → list lockid → fsst → Prop) :
  bst f V (P1 ++ b :: P2) X → caches (metas f) i b → (b ∈ X ∨ V b = image (disk f) b) → L_bcache ∉ held →
  (∀ f', bst f' V (P1 ++ P2) X → bio_frame f f' → disk f' = disk f →
     (∀ j c, caches (metas f') j c ↔ caches (metas f) j c) → Q tt held f') →
  fwp s0 held (bunpin i) f Q.
Proof.
  intros [[O Hl] Hb] Hi Hcl Hh HQ. unfold bunpin. apply fwp_bind, (fwp_acquire _ _ _ _ Hbase); [apply fs_lock_bcache|done|].
  rewrite mod_buf_eq. apply fwp_bind, fwp_mod, (fwp_release _ _ _ _ Hbase); [apply fs_lock_bcache|done|]. apply HQ; [|done|done|].
  - split; [exists O; by apply upd_buf_lru; [apply meta_dec|]|]. rewrite upd_buf_metas by apply meta_dec.
    by eapply bent_unpin.
  - intros j c. rewrite upd_buf_metas by apply meta_dec. by apply caches_alter.
Qed.

End Cache.
