(* ===== verification/Log.v ===== *)
(** * The redo log (kernel/log.c)

    [logaddr] is the address of the structure [log], the channel on which
    [begin_op] sleeps.  The message that [install_trans] prints while
    recovering goes to the console, which is not part of this state. *)

From S2P Require Import Prelude Params CString Spinlock ProcDefs WaitQueue Sched Memory FsDefs Seq Sleeplock Bio.

Definition set_lstart x l := mkLog x (outstanding l) (committing l) (ldev l) (lh_n l) (lh_block l).
Definition set_outstanding x l := mkLog (lstart l) x (committing l) (ldev l) (lh_n l) (lh_block l).
Definition set_committing x l := mkLog (lstart l) (outstanding l) x (ldev l) (lh_n l) (lh_block l).
Definition set_ldev x l := mkLog (lstart l) (outstanding l) (committing l) x (lh_n l) (lh_block l).
Definition set_lh_n x l := mkLog (lstart l) (outstanding l) (committing l) (ldev l) x (lh_block l).
Definition set_lh_block x l := mkLog (lstart l) (outstanding l) (committing l) (ldev l) (lh_n l) x.

(* sizeof(struct logheader) *)
Definition logheader_size : Z := 4 + 4 * LOGBLOCKS.
(* the fields of a struct logheader at the start of a block *)
Definition hdr_n (d : list Z) : Z := i32 (get32 0 d).
Definition hdr_block (i : Z) (d : list Z) : Z := i32 (get32 (4 + 4 * i) d).

Section Ops.
Context {S : Type} `{HasFs S}.
Variables (patience : nat) (bcache logaddr : Z).
Notation bread := (bread patience bcache).
Notation bwrite := (bwrite bcache).
Notation brelse := (brelse bcache).

(* log.lh.block[i]; an index outside the array is undefined behaviour *)
Definition lh_get (i : Z) : M S Z :=
  l <- get_log ;;
  match (if decide (0 ≤ i) then lh_block l !! Z.to_nat i else None) with Some x => ret x | None => fault end.
Definition lh_put (i v : Z) : M S unit :=
  if decide (0 ≤ i < LOGBLOCKS) then mod_log (λ l, set_lh_block (<[Z.to_nat i := v]> (lh_block l)) l) else fault.

(* bread(log.dev, log.start+tail+1) and bread(log.dev, log.lh.block[tail]) *)
Definition bread_log (tail : Z) : M S nat :=
  l <- get_log ;; bread (u32 (ldev l)) (u32 (lstart l + tail + 1)).
Definition bread_home (tail : Z) : M S nat :=
  l <- get_log ;; b <- lh_get tail ;; bread (u32 (ldev l)) (u32 b).

Definition install_trans (recovering : Z) : M S unit :=
  l <- get_log ;;
  for_each (Z.to_nat (lh_n l)) 0 (λ tail,
    lbuf <- bread_log tail ;;
    dbuf <- bread_home tail ;;
    x <- buf_at lbuf ;;
    mod_buf dbuf (set_data (data x)) ;;
    bwrite dbuf ;;
    (if decide (recovering = 0) then bunpin dbuf else ret tt) ;;
    brelse lbuf ;;
    brelse dbuf).

Definition read_head : M S unit :=
  l <- get_log ;;
  buf <- bread (u32 (ldev l)) (u32 (lstart l)) ;;
  x <- buf_at buf ;;
  mod_log (set_lh_n (hdr_n (data x))) ;;
  l <- get_log ;;
  for_each (Z.to_nat (lh_n l)) 0 (λ i, lh_put i (hdr_block i (data x))) ;;
  brelse buf.

Definition write_head : M S unit :=
  l <- get_log ;;
  buf <- bread (u32 (ldev l)) (u32 (lstart l)) ;;
  mod_buf buf (λ x, set_data (put32 0 (lh_n l) (data x)) x) ;;
  for_each (Z.to_nat (lh_n l)) 0 (λ i,
    v <- lh_get i ;;
    mod_buf buf (λ x, set_data (put32 (4 + 4 * i) v (data x)) x)) ;;
  bwrite buf ;;
  brelse buf.

Definition recover_from_log : M S unit :=
  read_head ;;
  install_trans 1 ;;
  mod_log (set_lh_n 0) ;;
  write_head.

Definition initlog (dev : Z) (sb : superblock) : M S unit :=
  (if decide (BSIZE ≤ logheader_size) then panic "initlog: too big logheader" else ret tt) ;;
  initlock L_log "log" ;;
  mod_log (set_lstart (i32 (logstart sb))) ;;
  mod_log (set_ldev dev) ;;
  recover_from_log.

(* the while(1) of begin_op *)
Fixpoint begin_op_loop (fuel : nat) : M S unit :=
  match fuel with
  | O => λ s, Spin s
  | Datatypes.S fuel =>
      l <- get_log ;;
      if decide (committing l ≠ 0) then
        sleep logaddr L_log ;; begin_op_loop fuel
      else if decide (LOGBLOCKS < lh_n l + (outstanding l + 1) * MAXOPBLOCKS) then
        sleep logaddr L_log ;; begin_op_loop fuel
      else
        mod_log (λ l, set_outstanding (i32 (outstanding l + 1)) l) ;;
        release L_log
  end.

Definition begin_op : M S unit :=
  acquire L_log ;;
  begin_op_loop (Datatypes.S patience).

Definition write_log : M S unit :=
  l <- get_log ;;
  for_each (Z.to_nat (lh_n l)) 0 (λ tail,
    to <- bread_log tail ;;
    from <- bread_home tail ;;
    x <- buf_at from ;;
    mod_buf to (set_data (data x)) ;;
    bwrite to ;;
    brelse from ;;
    brelse to).

Definition commit : M S unit :=
  l <- get_log ;;
  if decide (0 < lh_n l) then
    write_log ;;
    write_head ;;
    install_trans 0 ;;
    mod_log (set_lh_n 0) ;;
    write_head
  else ret tt.

Definition end_op : M S unit :=
  acquire L_log ;;
  mod_log (λ l, set_outstanding (i32 (outstanding l - 1)) l) ;;
  l <- get_log ;;
  if decide (committing l ≠ 0) then panic "log.committing" else
  do_commit <- (if decide (outstanding l = 0) then mod_log (set_committing 1) ;; ret true
                else wakeup logaddr ;; ret false) ;;
  release L_log ;;
  if do_commit then
    commit ;;
    acquire L_log ;;
    mod_log (set_committing 0) ;;
    wakeup logaddr ;;
    release L_log
  else ret tt.

Definition log_write (b : nat) : M S unit :=
  acquire L_log ;;
  l <- get_log ;;
  if decide (LOGBLOCKS ≤ lh_n l) then panic "too big a transaction" else
  if decide (outstanding l < 1) then panic "log_write outside of trans" else
  x <- buf_at b ;;
  r <- for_loop (Z.to_nat (lh_n l)) 0 (λ i,
         v <- lh_get i ;;
         ret (if decide (u32 v = blockno x) then Some i else None)) ;;
  let i := match r with Some i => i | None => lh_n l end in
  lh_put i (i32 (blockno x)) ;;
  (if decide (i = lh_n l) then
     bpin b ;;
     mod_log (λ l, set_lh_n (i32 (lh_n l + 1)) l)
   else ret tt) ;;
  release L_log.

End Ops.
