(* ===== verification/Fs.v ===== *)
(** * The file system (kernel/fs.c)

    Inodes are indices into [itable.inode]; a null inode pointer is [None].
    Path names and directory names are kernel character arrays: a C string is
    the list of its bytes before the NUL.  Where the code copies to or from a
    local variable the bytes are passed as a list.  What the code prints goes
    to the console, which is not part of this state.

    [itable] is the address of the inode table, on which only the addresses of
    the inodes' sleep-locks depend. *)

From S2P Require Import Prelude Params CString Spinlock ProcDefs WaitQueue Sched Memory Vm FsDefs Seq Sleeplock Bio Log.

Definition set_idev x i := mkInode x (inum i) (iref i) (ivalid i) (itype i) (imajor i) (iminor i) (inlink i) (isize i) (addrs i).
Definition set_inum x i := mkInode (idev i) x (iref i) (ivalid i) (itype i) (imajor i) (iminor i) (inlink i) (isize i) (addrs i).
Definition set_iref x i := mkInode (idev i) (inum i) x (ivalid i) (itype i) (imajor i) (iminor i) (inlink i) (isize i) (addrs i).
Definition set_ivalid x i := mkInode (idev i) (inum i) (iref i) x (itype i) (imajor i) (iminor i) (inlink i) (isize i) (addrs i).
Definition set_itype x i := mkInode (idev i) (inum i) (iref i) (ivalid i) x (imajor i) (iminor i) (inlink i) (isize i) (addrs i).
Definition set_imajor x i := mkInode (idev i) (inum i) (iref i) (ivalid i) (itype i) x (iminor i) (inlink i) (isize i) (addrs i).
Definition set_iminor x i := mkInode (idev i) (inum i) (iref i) (ivalid i) (itype i) (imajor i) x (inlink i) (isize i) (addrs i).
Definition set_inlink x i := mkInode (idev i) (inum i) (iref i) (ivalid i) (itype i) (imajor i) (iminor i) x (isize i) (addrs i).
Definition set_isize x i := mkInode (idev i) (inum i) (iref i) (ivalid i) (itype i) (imajor i) (iminor i) (inlink i) x (addrs i).
Definition set_addrs x i := mkInode (idev i) (inum i) (iref i) (ivalid i) (itype i) (imajor i) (iminor i) (inlink i) (isize i) x.

(* &itable.inode[i].lock: the spinlock takes 24 bytes, an inode 136 *)
Definition i_lock (itable : Z) (i : nat) : Z := itable + 24 + 136 * Z.of_nat i + 16.

Definition IBLOCK (i : Z) (s : superblock) : Z := u32 (i / IPB + inodestart s).
Definition BBLOCK (b : Z) (s : superblock) : Z := u32 (b / BPB + bmapstart s).

Definition byte_at (i : Z) (d : list Z) : Z := default 0 (d !! Z.to_nat i).
Definition put_byte (i v : Z) (d : list Z) : list Z := <[Z.to_nat i := v]> d.

(** ** struct dinode and struct dirent *)

(* (struct dinode* )bp->data + inum%IPB *)
Definition doff (inum : Z) : Z := (inum mod IPB) * 64.
Definition di_type (o : Z) (d : list Z) : Z := i16 (get16 o d).
Definition di_major (o : Z) (d : list Z) : Z := i16 (get16 (o + 2) d).
Definition di_minor (o : Z) (d : list Z) : Z := i16 (get16 (o + 4) d).
Definition di_nlink (o : Z) (d : list Z) : Z := i16 (get16 (o + 6) d).
Definition di_size (o : Z) (d : list Z) : Z := get32 (o + 8) d.
Definition di_addr (o k : Z) (d : list Z) : Z := get32 (o + 12 + 4 * k) d.
Definition di_addrs (o : Z) (d : list Z) : list Z := map (λ k, di_addr o (Z.of_nat k) d) (seq 0 (Z.to_nat (NDIRECT + 1))).

Fixpoint put_addrs (o k : Z) (l : list Z) (d : list Z) : list Z :=
  match l with [] => d | a :: l => put_addrs o (k + 1) l (put32 (o + 12 + 4 * k) a d) end.
Definition put_dinode (o : Z) (x : inode) (d : list Z) : list Z :=
  put_addrs o 0 (addrs x)
    (put32 (o + 8) (isize x) (put16 (o + 6) (inlink x) (put16 (o + 4) (iminor x) (put16 (o + 2) (imajor x) (put16 o (itype x) d))))).

Definition dirent_size : Z := 16.
Definition de_inum (de : list Z) : Z := get16 0 de.
Definition de_name (de : list Z) : list Z := take (Z.to_nat DIRSIZ) (drop 2 de).
Definition mk_dirent (inum : Z) (name : list Z) : list Z := le_bytes 2 inum ++ name.

(** ** C strings *)

(* strncmp of string.c on two character arrays *)
Fixpoint strncmp_list (p q : list Z) (n : nat) : Z :=
  match n with
  | O => 0
  | Datatypes.S n =>
      let a := default 0 (head p) in let b := default 0 (head q) in
      if decide (a ≠ 0 ∧ a = b) then strncmp_list (tail p) (tail q) n else a - b
  end.
(* the n bytes that strncpy stores *)
Definition strncpy_list (t : list Z) (n : nat) : list Z := take n (t ++ replicate n 0).

Definition namecmp (s t : list Z) : Z := strncmp_list s t (Z.to_nat DIRSIZ).

Definition slash : Z := 47.
Fixpoint skip_slashes (path : list Z) : list Z :=
  match path with c :: path' => if decide (c = slash) then skip_slashes path' else path | [] => [] end.
(* while( *path != '/' && *path != 0) path++; the element and what follows *)
Fixpoint skip_elem (path : list Z) : list Z * list Z :=
  match path with
  | c :: path' => if decide (c ≠ slash) then let '(e, r) := skip_elem path' in (c :: e, r) else ([], path)
  | [] => ([], [])
  end.

(* the rest of the path and the name, None for the null pointer *)
Definition skipelem (path : list Z) : option (list Z * list Z) :=
  match skip_slashes path with
  | [] => None
  | path =>
      let '(e, path) := skip_elem path in
      let name := if decide (DIRSIZ ≤ Z.of_nat (length e)) then take (Z.to_nat DIRSIZ) e else e in
      Some (skip_slashes path, name)
  end.

(** Where readi copies to and writei from: a user address, a kernel address or
    a local variable of the caller. *)
Inductive dest : Type := D_user (va : Z) | D_kmem (pa : Z) | D_local.
Inductive source : Type := S_user (va : Z) | S_local (bs : list Z).

Fixpoint store_list (m : mem) (a : Z) (l : list Z) : mem :=
  match l with [] => m | b :: l => store_list (upd m a b) (a + 1) l end.

Definition dest_add (d : dest) (m : Z) : dest :=
  match d with D_user va => D_user (u64 (va + m)) | D_kmem pa => D_kmem (u64 (pa + m)) | D_local => D_local end.
Definition source_add (s : source) (m : Z) : source :=
  match s with S_user va => S_user (u64 (va + m)) | S_local bs => S_local (drop (Z.to_nat m) bs) end.

Record stat : Type := mkStat { st_dev : Z; st_ino : Z; st_type : Z; st_nlink : Z; st_size : Z }.

Section Ops.
Context {S : Type} `{HasFs S}.
Variables (kend : Z) (patience : nat) (bcache itable logaddr : Z).
Notation bread := (bread patience bcache).
Notation brelse := (brelse bcache).
Notation i_lock := (i_lock itable).

Definition mod_data (b : nat) (g : list Z → list Z) : M S unit := mod_buf b (λ x, set_data (g (data x)) x).

(* proc.c *)
Definition either_copyout (d : dest) (src : list Z) : M S Z :=
  i <- curproc ;;
  match d with
  | D_user dst => p <- proc_at i ;; copyout kend (pagetable p) dst src
  | D_kmem pa => mod_bytes (λ m, store_list m pa src) ;; ret 0
  | D_local => ret 0
  end.
(* with the bytes that reach the destination *)
Definition either_copyin (s : source) (len : Z) : M S (Z * list Z) :=
  i <- curproc ;;
  match s with
  | S_user src => p <- proc_at i ;; copyin kend (pagetable p) src len
  | S_local bs => ret (0, take (Z.to_nat len) bs)
  end.

(** ** Blocks *)

Definition readsb (dev : Z) : M S superblock :=
  bp <- bread dev 1 ;;
  x <- buf_at bp ;;
  let d := data x in
  brelse bp ;;
  ret (mkSb (get32 0 d) (get32 4 d) (get32 8 d) (get32 12 d) (get32 16 d) (get32 20 d) (get32 24 d) (get32 28 d)).

Definition bzero (dev bno : Z) : M S unit :=
  bp <- bread dev bno ;;
  mod_buf bp (set_data (replicate (Z.to_nat BSIZE) 0)) ;;
  log_write bp ;;
  brelse bp.

(* the body of balloc's inner loop *)
Definition balloc_bit (dev : Z) (bp : nat) (b bi : Z) : M S (option Z) :=
  let m := Z.shiftl 1 (bi mod 8) in
  x <- buf_at bp ;;
  if decide (Z.land (byte_at (bi / 8) (data x)) m = 0) then
    mod_data bp (λ d, put_byte (bi / 8) (Z.lor (byte_at (bi / 8) d) m) d) ;;
    log_write bp ;;
    brelse bp ;;
    bzero dev (b + bi) ;;
    ret (Some (b + bi))
  else ret None.

Definition balloc (dev : Z) : M S Z :=
  s <- get_sb ;;
  r <- for_loop (Z.to_nat ((sbsize s + BPB - 1) / BPB)) 0 (λ k,
    let b := k * BPB in
    bp <- bread dev (BBLOCK b s) ;;
    r <- for_loop (Z.to_nat (Z.min BPB (sbsize s - b))) 0 (balloc_bit dev bp b) ;;
    match r with
    | Some a => ret (Some a)
    | None => brelse bp ;; ret None
    end) ;;
  ret (default 0 r).

Definition bfree (dev b : Z) : M S unit :=
  s <- get_sb ;;
  bp <- bread dev (BBLOCK b s) ;;
  let bi := b mod BPB in
  let m := Z.shiftl 1 (bi mod 8) in
  x <- buf_at bp ;;
  if decide (Z.land (byte_at (bi / 8) (data x)) m = 0) then panic "freeing free block" else
  mod_data bp (λ d, put_byte (bi / 8) (Z.land (byte_at (bi / 8) d) (Z.lnot m)) d) ;;
  log_write bp ;;
  brelse bp.

(** ** Inodes *)

Definition iinit : M S unit :=
  initlock L_itable "itable" ;;
  for_each (Z.to_nat NINODE) 0 (λ i, initsleeplock (i_lock (Z.to_nat i)) "inode").

(* the loop over the inode table: the entry found, or the first empty slot *)
Fixpoint iget_scan (n i : nat) (dev num : Z) (empty : option nat) : M S (nat + option nat) :=
  match n with
  | O => ret (inr empty)
  | Datatypes.S n =>
      ip <- inode_at i ;;
      if decide (0 < iref ip ∧ idev ip = dev ∧ inum ip = num) then ret (inl i) else
      iget_scan n (i + 1) dev num (if decide (empty = None ∧ iref ip = 0) then Some i else empty)
  end.

Definition iget (dev num : Z) : M S nat :=
  acquire L_itable ;;
  r <- iget_scan (Z.to_nat NINODE) 0 dev num None ;;
  match r with
  | inl i =>
      mod_inode i (λ x, set_iref (i32 (iref x + 1)) x) ;;
      release L_itable ;;
      ret i
  | inr None => panic "iget: no inodes"
  | inr (Some i) =>
      mod_inode i (set_idev dev) ;;
      mod_inode i (set_inum num) ;;
      mod_inode i (set_iref 1) ;;
      mod_inode i (set_ivalid 0) ;;
      release L_itable ;;
      ret i
  end.

Definition ialloc (dev type : Z) : M S (option nat) :=
  s <- get_sb ;;
  r <- for_loop (Z.to_nat (ninodes s - 1)) 1 (λ num,
    bp <- bread dev (IBLOCK num s) ;;
    x <- buf_at bp ;;
    let o := doff num in
    if decide (di_type o (data x) = 0) then
      mod_data bp (λ d, put16 o type (list_inserts (Z.to_nat o) (replicate 64 0) d)) ;;
      log_write bp ;;
      brelse bp ;;
      ip <- iget dev num ;;
      ret (Some ip)
    else brelse bp ;; ret None) ;;
  ret r.

Definition iupdate (ip : nat) : M S unit :=
  x <- inode_at ip ;;
  s <- get_sb ;;
  bp <- bread (idev x) (IBLOCK (inum x) s) ;;
  mod_data bp (put_dinode (doff (inum x)) x) ;;
  log_write bp ;;
  brelse bp.

Definition idup (ip : nat) : M S nat :=
  acquire L_itable ;;
  x <- inode_at ip ;;
  mod_inode ip (λ x, set_iref (i32 (iref x + 1)) x) ;;
  release L_itable ;;
  ret ip.

Definition ilock (p : option nat) : M S unit :=
  match p with
  | None => panic "ilock"
  | Some ip =>
      x <- inode_at ip ;;
      if decide (iref x < 1) then panic "ilock" else
      acquiresleep patience (i_lock ip) ;;
      x <- inode_at ip ;;
      if decide (ivalid x = 0) then
        s <- get_sb ;;
        bp <- bread (idev x) (IBLOCK (inum x) s) ;;
        b <- buf_at bp ;;
        let o := doff (inum x) in
        let d := data b in
        mod_inode ip (λ x, set_addrs (di_addrs o d) (set_isize (di_size o d) (set_inlink (di_nlink o d)
          (set_iminor (di_minor o d) (set_imajor (di_major o d) (set_itype (di_type o d) x)))))) ;;
        brelse bp ;;
        mod_inode ip (set_ivalid 1) ;;
        x <- inode_at ip ;;
        if decide (itype x = 0) then panic "ilock: no type" else ret tt
      else ret tt
  end.

Definition iunlock (p : option nat) : M S unit :=
  match p with
  | None => panic "iunlock"
  | Some ip =>
      h <- holdingsleep (i_lock ip) ;;
      if decide (h = 0) then panic "iunlock" else
      x <- inode_at ip ;;
      if decide (iref x < 1) then panic "iunlock" else
      releasesleep (i_lock ip)
  end.

(** ** Inode content *)

(* ip->addrs[k]; an index outside the array is undefined behaviour *)
Definition addr_at (ip : nat) (k : Z) : M S Z :=
  x <- inode_at ip ;;
  match addrs x !! Z.to_nat k with Some a => ret a | None => fault end.
Definition put_addr (ip : nat) (k a : Z) : M S unit :=
  mod_inode ip (λ x, set_addrs (<[Z.to_nat k := a]> (addrs x)) x).

Definition bmap (ip : nat) (bn : Z) : M S Z :=
  x <- inode_at ip ;;
  if decide (bn < NDIRECT) then
    addr <- addr_at ip bn ;;
    if decide (addr = 0) then
      addr <- balloc (idev x) ;;
      if decide (addr = 0) then ret 0 else
      put_addr ip bn addr ;;
      ret addr
    else ret addr
  else
  let bn := bn - NDIRECT in
  if decide (bn < NINDIRECT) then
    addr <- addr_at ip NDIRECT ;;
    addr <- (if decide (addr = 0) then
               addr <- balloc (idev x) ;;
               (if decide (addr = 0) then ret tt else put_addr ip NDIRECT addr) ;;
               ret addr
             else ret addr) ;;
    if decide (addr = 0) then ret 0 else
    bp <- bread (idev x) addr ;;
    b <- buf_at bp ;;
    let addr := get32 (4 * bn) (data b) in
    addr <- (if decide (addr = 0) then
               addr <- balloc (idev x) ;;
               (if decide (addr ≠ 0) then
                  mod_data bp (put32 (4 * bn) addr) ;;
                  log_write bp
                else ret tt) ;;
               ret addr
             else ret addr) ;;
    brelse bp ;;
    ret addr
  else panic "bmap: out of range".

Definition itrunc (ip : nat) : M S unit :=
  x <- inode_at ip ;;
  let dev := idev x in
  for_each (Z.to_nat NDIRECT) 0 (λ i,
    a <- addr_at ip i ;;
    if decide (a ≠ 0) then bfree dev a ;; put_addr ip i 0 else ret tt) ;;
  a <- addr_at ip NDIRECT ;;
  (if decide (a ≠ 0) then
     bp <- bread dev a ;;
     for_each (Z.to_nat NINDIRECT) 0 (λ j,
       b <- buf_at bp ;;
       let e := get32 (4 * j) (data b) in
       if decide (e ≠ 0) then bfree dev e else ret tt) ;;
     brelse bp ;;
     bfree dev a ;;
     put_addr ip NDIRECT 0
   else ret tt) ;;
  mod_inode ip (set_isize 0) ;;
  iupdate ip.

Definition iput (ip : nat) : M S unit :=
  acquire L_itable ;;
  x <- inode_at ip ;;
  (if decide (iref x = 1 ∧ ivalid x ≠ 0 ∧ inlink x = 0) then
     acquiresleep patience (i_lock ip) ;;
     release L_itable ;;
     itrunc ip ;;
     mod_inode ip (set_itype 0) ;;
     iupdate ip ;;
     mod_inode ip (set_ivalid 0) ;;
     releasesleep (i_lock ip) ;;
     acquire L_itable
   else ret tt) ;;
  mod_inode ip (λ x, set_iref (i32 (iref x - 1)) x) ;;
  release L_itable.

Definition iunlockput (ip : nat) : M S unit :=
  iunlock (Some ip) ;;
  iput ip.

Definition ireclaim (dev : Z) : M S unit :=
  s <- get_sb ;;
  for_each (Z.to_nat (ninodes s - 1)) 1 (λ num,
    bp <- bread dev (IBLOCK num s) ;;
    x <- buf_at bp ;;
    let o := doff num in
    ip <- (if decide (di_type o (data x) ≠ 0 ∧ di_nlink o (data x) = 0) then
             ip <- iget dev num ;; ret (Some ip)
           else ret None) ;;
    brelse bp ;;
    match ip with
    | Some ip =>
        begin_op patience logaddr ;;
        ilock (Some ip) ;;
        iunlock (Some ip) ;;
        iput ip ;;
        end_op patience bcache logaddr
    | None => ret tt
    end).

Definition fsinit (dev : Z) : M S unit :=
  s <- readsb dev ;;
  mod_fs (set_sb s) ;;
  if decide (magic s ≠ FSMAGIC) then panic "invalid file system" else
  initlog patience bcache dev s ;;
  ireclaim dev.

Definition stati (ip : nat) : M S stat :=
  x <- inode_at ip ;;
  ret (mkStat (i32 (idev x)) (inum x) (itype x) (inlink x) (isize x)).

(* for(tot=0; tot<n; tot+=m, off+=m, dst+=m); [got] is what a local
   destination has received *)
Fixpoint readi_loop (fuel : nat) (ip : nat) (d : dest) (off n tot : Z) (got : list Z) : M S (Z * list Z) :=
  match fuel with
  | O => λ s, Spin s
  | Datatypes.S fuel =>
      if decide (tot < n) then
        addr <- bmap ip (off / BSIZE) ;;
        if decide (addr = 0) then ret (tot, got) else
        x <- inode_at ip ;;
        bp <- bread (idev x) addr ;;
        let m := Z.min (n - tot) (BSIZE - off mod BSIZE) in
        b <- buf_at bp ;;
        let bs := take (Z.to_nat m) (drop (Z.to_nat (off mod BSIZE)) (data b)) in
        r <- either_copyout d bs ;;
        if decide (r = -1) then brelse bp ;; ret (-1, got) else
        brelse bp ;;
        readi_loop fuel ip (dest_add d m) (u32 (off + m)) n (tot + m) (got ++ bs)
      else ret (tot, got)
  end.

Definition readi (ip : nat) (d : dest) (off n : Z) : M S (Z * list Z) :=
  x <- inode_at ip ;;
  if decide (isize x < off ∨ u32 (off + n) < off) then ret (0, []) else
  let n := if decide (isize x < off + n) then isize x - off else n in
  readi_loop (Datatypes.S (Z.to_nat n)) ip d off n 0 [].

(* the loop of writei: the bytes written and the offset reached *)
Fixpoint writei_loop (fuel : nat) (ip : nat) (s : source) (off n tot : Z) : M S (Z * Z) :=
  match fuel with
  | O => λ s, Spin s
  | Datatypes.S fuel =>
      if decide (tot < n) then
        addr <- bmap ip (off / BSIZE) ;;
        if decide (addr = 0) then ret (tot, off) else
        x <- inode_at ip ;;
        bp <- bread (idev x) addr ;;
        let m := Z.min (n - tot) (BSIZE - off mod BSIZE) in
        r <- either_copyin s m ;;
        mod_data bp (list_inserts (Z.to_nat (off mod BSIZE)) r.2) ;;
        if decide (r.1 = -1) then brelse bp ;; ret (tot, off) else
        log_write bp ;;
        brelse bp ;;
        writei_loop fuel ip (source_add s m) (u32 (off + m)) n (tot + m)
      else ret (tot, off)
  end.

Definition writei (ip : nat) (s : source) (off n : Z) : M S Z :=
  x <- inode_at ip ;;
  if decide (isize x < off ∨ u32 (off + n) < off) then ret (-1) else
  if decide (MAXFILE * BSIZE < off + n) then ret (-1) else
  r <- writei_loop (Datatypes.S (Z.to_nat n)) ip s off n 0 ;;
  let '(tot, off) := r in
  x <- inode_at ip ;;
  (if decide (isize x < off) then mod_inode ip (set_isize off) else ret tt) ;;
  iupdate ip ;;
  ret tot.

(** ** Directories *)

(* the loop of dirlookup: the inode and the offset of its entry *)
Definition dirlookup (dp : nat) (name : list Z) : M S (option (nat * Z)) :=
  x <- inode_at dp ;;
  if decide (itype x ≠ T_DIR) then panic "dirlookup not DIR" else
  for_loop (Z.to_nat ((isize x + dirent_size - 1) / dirent_size)) 0 (λ k,
    let off := k * dirent_size in
    r <- readi dp D_local off dirent_size ;;
    if decide (r.1 ≠ dirent_size) then panic "dirlookup read" else
    let de := r.2 in
    if decide (de_inum de = 0) then ret None else
    if decide (namecmp name (de_name de) = 0) then
      ip <- iget (idev x) (de_inum de) ;;
      ret (Some (ip, off))
    else ret None).

(* the search of dirlink for an empty entry *)
Definition dirlink_slot (dp : nat) : M S Z :=
  x <- inode_at dp ;;
  r <- for_loop (Z.to_nat ((isize x + dirent_size - 1) / dirent_size)) 0 (λ k,
    let off := k * dirent_size in
    r <- readi dp D_local off dirent_size ;;
    if decide (r.1 ≠ dirent_size) then panic "dirlink read" else
    ret (if decide (de_inum r.2 = 0) then Some off else None)) ;;
  ret (default (dirent_size * ((isize x + dirent_size - 1) / dirent_size)) r).

Definition dirlink (dp : nat) (name : list Z) (num : Z) : M S Z :=
  r <- dirlookup dp name ;;
  match r with
  | Some (ip, _) => iput ip ;; ret (-1)
  | None =>
      off <- dirlink_slot dp ;;
      let de := mk_dirent (u16 num) (strncpy_list name (Z.to_nat DIRSIZ)) in
      w <- writei dp (S_local de) off dirent_size ;;
      ret (if decide (w ≠ dirent_size) then -1 else 0)
  end.

(** ** Paths *)

(* the while loop of namex, from inode [ip]; the inode and the name last
   copied *)
Fixpoint namex_loop (fuel : nat) (path : list Z) (parent : bool) (ip : nat) (name : list Z) : M S (option nat * list Z) :=
  match fuel with
  | O => λ s, Spin s
  | Datatypes.S fuel =>
      match skipelem path with
      | None => if parent then iput ip ;; ret (None, name) else ret (Some ip, name)
      | Some (path, name) =>
          ilock (Some ip) ;;
          x <- inode_at ip ;;
          if decide (itype x ≠ T_DIR) then iunlockput ip ;; ret (None, name) else
          if decide (parent = true ∧ path = []) then iunlock (Some ip) ;; ret (Some ip, name) else
          next <- dirlookup ip name ;;
          match next with
          | None => iunlockput ip ;; ret (None, name)
          | Some (next, _) =>
              iunlockput ip ;;
              namex_loop fuel path parent next name
          end
      end
  end.

Definition namex (path : list Z) (parent : bool) (name : list Z) : M S (option nat * list Z) :=
  ip <- (if decide (head path = Some slash) then iget ROOTDEV ROOTINO
         else
           i <- curproc ;;
           p <- proc_at i ;;
           match cwd p with Some ip => idup ip | None => fault end) ;;
  namex_loop (Datatypes.S (length path)) path parent ip name.

Definition namei (path : list Z) : M S (option nat) :=
  r <- namex path false [] ;; ret r.1.

Definition nameiparent (path : list Z) : M S (option nat * list Z) := namex path true [].

End Ops.
