(* ===== verification/File.v ===== *)
(** * Open files and pipe creation (kernel/file.c and pipealloc of pipe.c)

    Files are indices into [ftable.file].  [devsw] is the table of device
    functions; [pad] are the bytes of struct stat between its fields, which
    filestat copies from the stack as they are. *)

From S2P Require Import Prelude Params CString Spinlock ProcDefs WaitQueue Sched Memory Kalloc Vm Pipe FsDefs Seq Sleeplock Bio Log Fs.

Definition set_ftyp x f := mkFile x (fref f) (readable f) (writable f) (fpipe f) (fip f) (foff f) (fmajor f).
Definition set_fref x f := mkFile (ftyp f) x (readable f) (writable f) (fpipe f) (fip f) (foff f) (fmajor f).
Definition set_readable x f := mkFile (ftyp f) (fref f) x (writable f) (fpipe f) (fip f) (foff f) (fmajor f).
Definition set_writable x f := mkFile (ftyp f) (fref f) (readable f) x (fpipe f) (fip f) (foff f) (fmajor f).
Definition set_fpipe x f := mkFile (ftyp f) (fref f) (readable f) (writable f) x (fip f) (foff f) (fmajor f).
Definition set_fip x f := mkFile (ftyp f) (fref f) (readable f) (writable f) (fpipe f) x (foff f) (fmajor f).
Definition set_foff x f := mkFile (ftyp f) (fref f) (readable f) (writable f) (fpipe f) (fip f) x (fmajor f).
Definition set_fmajor x f := mkFile (ftyp f) (fref f) (readable f) (writable f) (fpipe f) (fip f) (foff f) x.

(* struct stat as it lies in memory *)
Definition stat_bytes (pad : list Z) (s : stat) : list Z :=
  le_bytes 4 (st_dev s) ++ le_bytes 4 (st_ino s) ++ le_bytes 2 (st_type s) ++ le_bytes 2 (st_nlink s) ++
  take 4 (pad ++ replicate 4 0) ++ le_bytes 8 (st_size s).

(* devsw[major].read and .write *)
Record devops (S : Type) : Type := mkDevops {
  dev_read : option (Z → Z → Z → M S Z);
  dev_write : option (Z → Z → Z → M S Z);
}.
Arguments dev_read {S} _.
Arguments dev_write {S} _.

(* the most filewrite writes in one transaction *)
Definition write_max : Z := (MAXOPBLOCKS - 1 - 1 - 2) / 2 * BSIZE.

Section Ops.
Context {S : Type} `{HasFs S}.
Variables (kend : Z) (patience : nat) (bcache itable logaddr : Z).
Variables (devsw : Z → devops S) (pad : list Z).
Notation ilock := (ilock patience bcache itable).
Notation iunlock := (iunlock itable).
Notation iput := (iput patience bcache itable).
Notation begin_op := (begin_op patience logaddr).
Notation end_op := (end_op patience bcache logaddr).

Definition fileinit : M S unit := initlock L_ftable "ftable".

Definition filealloc : M S (option nat) :=
  acquire L_ftable ;;
  r <- for_loop (Z.to_nat NFILE) 0 (λ i,
    let f := Z.to_nat i in
    x <- file_at f ;;
    if decide (fref x = 0) then
      mod_file f (set_fref 1) ;;
      release L_ftable ;;
      ret (Some f)
    else ret None) ;;
  match r with
  | Some f => ret (Some f)
  | None => release L_ftable ;; ret None
  end.

Definition filedup (f : nat) : M S nat :=
  acquire L_ftable ;;
  x <- file_at f ;;
  if decide (fref x < 1) then panic "filedup" else
  mod_file f (λ x, set_fref (i32 (fref x + 1)) x) ;;
  release L_ftable ;;
  ret f.

Definition fileclose (f : nat) : M S unit :=
  acquire L_ftable ;;
  x <- file_at f ;;
  if decide (fref x < 1) then panic "fileclose" else
  mod_file f (λ x, set_fref (i32 (fref x - 1)) x) ;;
  x <- file_at f ;;
  if decide (0 < fref x) then release L_ftable else
  let ff := x in
  mod_file f (set_fref 0) ;;
  mod_file f (set_ftyp FD_NONE) ;;
  release L_ftable ;;
  match ftyp ff with
  | FD_PIPE => pipeclose kend (fpipe ff) (writable ff)
  | FD_INODE | FD_DEVICE =>
      begin_op ;;
      match fip ff with Some ip => iput ip | None => fault end ;;
      end_op
  | FD_NONE => ret tt
  end.

Definition filestat (f : nat) (addr : Z) : M S Z :=
  i <- curproc ;;
  x <- file_at f ;;
  if decide (ftyp x = FD_INODE ∨ ftyp x = FD_DEVICE) then
    ilock (fip x) ;;
    s <- match fip x with Some ip => stati ip | None => fault end ;;
    iunlock (fip x) ;;
    p <- proc_at i ;;
    r <- copyout kend (pagetable p) addr (stat_bytes pad s) ;;
    ret (if decide (r < 0) then -1 else 0)
  else ret (-1).

Definition fileread (f : nat) (addr n : Z) : M S Z :=
  x <- file_at f ;;
  if decide (readable x = 0) then ret (-1) else
  match ftyp x with
  | FD_PIPE => piperead kend (Datatypes.S patience) (fpipe x) addr n
  | FD_DEVICE =>
      if decide (fmajor x < 0 ∨ NDEV ≤ fmajor x) then ret (-1) else
      match dev_read (devsw (fmajor x)) with
      | None => ret (-1)
      | Some read => read 1 addr n
      end
  | FD_INODE =>
      ilock (fip x) ;;
      x <- file_at f ;;
      r <- match fip x with Some ip => readi kend patience bcache ip (D_user addr) (foff x) (u32 n) | None => fault end ;;
      (if decide (0 < r.1) then mod_file f (λ x, set_foff (u32 (foff x + r.1)) x) else ret tt) ;;
      iunlock (fip x) ;;
      ret r.1
  | FD_NONE => panic "fileread"
  end.

(* while(i < n), the bytes written *)
Fixpoint filewrite_loop (fuel : nat) (f : nat) (addr n i : Z) : M S Z :=
  match fuel with
  | O => λ s, Spin s
  | Datatypes.S fuel =>
      if decide (i < n) then
        let n1 := Z.min (n - i) write_max in
        x <- file_at f ;;
        begin_op ;;
        ilock (fip x) ;;
        x <- file_at f ;;
        r <- match fip x with
             | Some ip => writei kend patience bcache ip (S_user (u64 (addr + i))) (foff x) n1
             | None => fault
             end ;;
        (if decide (0 < r) then mod_file f (λ x, set_foff (u32 (foff x + r)) x) else ret tt) ;;
        iunlock (fip x) ;;
        end_op ;;
        if decide (r ≠ n1) then ret i else filewrite_loop fuel f addr n (i + r)
      else ret i
  end.

Definition filewrite (f : nat) (addr n : Z) : M S Z :=
  x <- file_at f ;;
  if decide (writable x = 0) then ret (-1) else
  match ftyp x with
  | FD_PIPE => pipewrite kend (Datatypes.S (Z.to_nat n + patience)) (fpipe x) addr n
  | FD_DEVICE =>
      if decide (fmajor x < 0 ∨ NDEV ≤ fmajor x) then ret (-1) else
      match dev_write (devsw (fmajor x)) with
      | None => ret (-1)
      | Some write => write 1 addr n
      end
  | FD_INODE =>
      i <- filewrite_loop (Datatypes.S (Z.to_nat n)) f addr n 0 ;;
      ret (if decide (i = n) then n else -1)
  | FD_NONE => panic "filewrite"
  end.

(** ** pipealloc *)

(* the label bad: pi is null whenever it is reached *)
Definition pipealloc_bad (f0 f1 : option nat) : M S (Z * option nat * option nat) :=
  match f0 with Some f => fileclose f | None => ret tt end ;;
  match f1 with Some f => fileclose f | None => ret tt end ;;
  ret (-1, f0, f1).

Definition pipe_end (f : nat) (r w pi : Z) : M S unit :=
  mod_file f (set_ftyp FD_PIPE) ;;
  mod_file f (set_readable r) ;;
  mod_file f (set_writable w) ;;
  mod_file f (set_fpipe pi).

Definition pipealloc : M S (Z * option nat * option nat) :=
  f0 <- filealloc ;;
  match f0 with
  | None => pipealloc_bad None None
  | Some a =>
      f1 <- filealloc ;;
      match f1 with
      | None => pipealloc_bad f0 None
      | Some b =>
          pi <- kalloc ;;
          if decide (pi = 0) then pipealloc_bad f0 f1 else
          st32 (pi_readopen pi) 1 ;;
          st32 (pi_writeopen pi) 1 ;;
          st32 (pi_nwrite pi) 0 ;;
          st32 (pi_nread pi) 0 ;;
          initlock (L_pipe pi) "pipe" ;;
          pipe_end a 1 0 pi ;;
          pipe_end b 0 1 pi ;;
          ret (0, f0, f1)
      end
  end.

End Ops.
