(* ===== verification/ProcLife.v ===== *)
(** * Process creation, exit and wait (kernel/proc.c)

    Processes are indices into [proc].  [proc_addr i] is the address of
    [proc[i]], the channel on which kwait sleeps; [trampoline] and
    [forkret] are link-time addresses.  A process name is the C string in its
    array. *)

From S2P Require Import Prelude Params CString Spinlock ProcDefs WaitQueue Sched Memory Kalloc Vm FsDefs Seq Sleeplock Bio Log Pipe Fs File.

(** Offsets in struct trapframe and its size. *)
Definition tf_kernel_satp : Z := 0.
Definition tf_kernel_sp : Z := 8.
Definition tf_kernel_trap : Z := 16.
Definition tf_epc : Z := 24.
Definition tf_kernel_hartid : Z := 32.
Definition tf_sp : Z := 48.
Definition tf_a (k : Z) : Z := 112 + 8 * k.
Definition tf_size : Z := 288.

(* what safestrcpy(s, t, n) leaves in s *)
Definition safestrcpy_list (t : list Z) (n : nat) : list Z := take (n - 1) t.

Section Ops.
Context {S : Type} `{HasFs S}.
Variables (kend : Z) (patience : nat) (bcache itable logaddr : Z).
Variables (proc_addr : nat → Z) (trampoline forkret : Z).
Notation ilock := (ilock patience bcache itable).
Notation iput := (iput patience bcache itable).
Notation begin_op := (begin_op patience logaddr).
Notation end_op := (end_op patience bcache logaddr).
Notation fileclose := (fileclose kend patience bcache itable logaddr).

Definition proc_mapstacks (kpgtbl : Z) : M S unit :=
  for_each (Z.to_nat NPROC) 0 (λ i,
    pa <- kalloc ;;
    if decide (pa = 0) then panic "kalloc" else
    kvmmap kpgtbl (KSTACK i) pa PGSIZE (Z.lor PTE_R PTE_W)).

Definition procinit : M S unit :=
  initlock L_pid "nextpid" ;;
  initlock L_wait "wait_lock" ;;
  wq_init ;;
  for_each (Z.to_nat NPROC) 0 (λ i,
    let p := Z.to_nat i in
    initlock (L_proc i) "proc" ;;
    mod_proc p (set_state UNUSED) ;;
    mod_proc p (set_kstack (KSTACK i)) ;;
    mod_proc p (set_wqe (mkEntry (Some p) 0 None 0))).

Definition allocpid : M S Z :=
  acquire L_pid ;;
  t <- gets pt_of ;;
  let pid := nextpid t in
  modify (λ s, with_pt (set_nextpid (i32 (nextpid (pt_of s) + 1)) (pt_of s)) s) ;;
  release L_pid ;;
  ret pid.

Definition proc_pagetable (p : nat) : M S Z :=
  pagetable <- uvmcreate ;;
  if decide (pagetable = 0) then ret 0 else
  r <- mappages pagetable TRAMPOLINE PGSIZE trampoline (Z.lor PTE_R PTE_X) ;;
  if decide (r < 0) then uvmfree kend pagetable 0 ;; ret 0 else
  x <- proc_at p ;;
  r <- mappages pagetable TRAPFRAME PGSIZE (trapframe x) (Z.lor PTE_R PTE_W) ;;
  if decide (r < 0) then
    uvmunmap kend pagetable TRAMPOLINE 1 0 ;;
    uvmfree kend pagetable 0 ;;
    ret 0
  else ret pagetable.

Definition proc_freepagetable (pagetable sz : Z) : M S unit :=
  uvmunmap kend pagetable TRAMPOLINE 1 0 ;;
  uvmunmap kend pagetable TRAPFRAME 1 0 ;;
  uvmfree kend pagetable sz.

Definition freeproc (p : nat) : M S unit :=
  x <- proc_at p ;;
  (if decide (trapframe x ≠ 0) then kfree kend (trapframe x) else ret tt) ;;
  mod_proc p (set_trapframe 0) ;;
  x <- proc_at p ;;
  (if decide (pagetable x ≠ 0) then proc_freepagetable (pagetable x) (sz x) else ret tt) ;;
  mod_proc p (set_pagetable 0) ;;
  mod_proc p (set_sz 0) ;;
  mod_proc p (set_pid 0) ;;
  mod_proc p (set_parent None) ;;
  mod_proc p (set_name []) ;;
  mod_proc p (set_chan 0) ;;
  mod_proc p (upd_wqe (set_e_chan 0)) ;;
  mod_proc p (upd_wqe (set_e_next None)) ;;
  mod_proc p (upd_wqe (set_e_queued 0)) ;;
  mod_proc p (set_killed 0) ;;
  mod_proc p (set_xstate 0) ;;
  mod_proc p (set_state UNUSED).

(* the search for an UNUSED slot, which returns with its lock held *)
Definition allocproc_find : M S (option nat) :=
  for_loop (Z.to_nat NPROC) 0 (λ i,
    let p := Z.to_nat i in
    acquire (L_proc i) ;;
    x <- proc_at p ;;
    if decide (state x = UNUSED) then ret (Some p)
    else release (L_proc i) ;; ret None).

Definition allocproc : M S (option nat) :=
  r <- allocproc_find ;;
  match r with
  | None => ret None
  | Some p =>
      pid <- allocpid ;;
      mod_proc p (set_pid pid) ;;
      mod_proc p (set_state USED) ;;
      tf <- kalloc ;;
      mod_proc p (set_trapframe tf) ;;
      if decide (tf = 0) then freeproc p ;; release (lkp p) ;; ret None else
      pt <- proc_pagetable p ;;
      mod_proc p (set_pagetable pt) ;;
      if decide (pt = 0) then freeproc p ;; release (lkp p) ;; ret None else
      x <- proc_at p ;;
      mod_proc p (set_ctx (mkContext forkret (u64 (kstack x + PGSIZE)) (replicate 12 0))) ;;
      ret (Some p)
  end.

Definition userinit : M S unit :=
  p <- allocproc ;;
  modify (λ s, with_pt (set_initproc p (pt_of s)) s) ;;
  match p with
  | None => fault
  | Some p =>
      ip <- namei kend patience bcache itable [slash] ;;
      mod_proc p (set_cwd ip) ;;
      mod_proc p (set_state RUNNABLE) ;;
      release (lkp p)
  end.

Definition growproc (n : Z) : M S Z :=
  i <- curproc ;;
  p <- proc_at i ;;
  let sz0 := sz p in
  r <- (if decide (0 < n) then
          if decide (TRAPFRAME < u64 (sz0 + n)) then ret None else
          sz1 <- uvmalloc kend (pagetable p) sz0 (u64 (sz0 + n)) PTE_W ;;
          ret (if decide (sz1 = 0) then None else Some sz1)
        else if decide (n < 0) then
          sz1 <- uvmdealloc kend (pagetable p) sz0 (u64 (sz0 + n)) ;; ret (Some sz1)
        else ret (Some sz0)) ;;
  match r with
  | None => ret (-1)
  | Some sz1 => mod_proc i (set_sz sz1) ;; ret 0
  end.

Definition kfork : M S Z :=
  i <- curproc ;;
  r <- allocproc ;;
  match r with
  | None => ret (-1)
  | Some np =>
      p <- proc_at i ;;
      c <- proc_at np ;;
      r <- uvmcopy kend (pagetable p) (pagetable c) (sz p) ;;
      if decide (r < 0) then freeproc np ;; release (lkp np) ;; ret (-1) else
      mod_proc np (set_sz (sz p)) ;;
      mod_bytes (λ m, memmove m (trapframe c) (trapframe p) tf_size) ;;
      st64 (trapframe c + tf_a 0) 0 ;;
      for_each (Z.to_nat NOFILE) 0 (λ k,
        p <- proc_at i ;;
        match ofile p !! Z.to_nat k with
        | Some (Some f) => f <- filedup f ;; mod_proc np (λ c, set_ofile (<[Z.to_nat k := Some f]> (ofile c)) c)
        | _ => ret tt
        end) ;;
      ip <- match cwd p with Some ip => idup ip | None => fault end ;;
      mod_proc np (set_cwd (Some ip)) ;;
      mod_proc np (set_name (safestrcpy_list (name p) 16)) ;;
      c <- proc_at np ;;
      let pid := pid c in
      release (lkp np) ;;
      acquire L_wait ;;
      mod_proc np (set_parent (Some i)) ;;
      release L_wait ;;
      acquire (lkp np) ;;
      mod_proc np (set_state RUNNABLE) ;;
      release (lkp np) ;;
      ret pid
  end.

Definition wakeup_proc (p : option nat) : M S unit :=
  wakeup (match p with Some p => proc_addr p | None => 0 end).

Definition reparent (p : nat) : M S unit :=
  for_each (Z.to_nat NPROC) 0 (λ i,
    let pp := Z.to_nat i in
    x <- proc_at pp ;;
    if decide (parent x = Some p) then
      t <- gets pt_of ;;
      mod_proc pp (set_parent (initproc t)) ;;
      t <- gets pt_of ;;
      wakeup_proc (initproc t)
    else ret tt).

Definition kexit (status : Z) : M S unit :=
  i <- curproc ;;
  t <- gets pt_of ;;
  if decide (initproc t = Some i) then panic "init exiting" else
  for_each (Z.to_nat NOFILE) 0 (λ fd,
    p <- proc_at i ;;
    match ofile p !! Z.to_nat fd with
    | Some (Some f) =>
        fileclose f ;;
        mod_proc i (λ p, set_ofile (<[Z.to_nat fd := None]> (ofile p)) p)
    | _ => ret tt
    end) ;;
  begin_op ;;
  p <- proc_at i ;;
  match cwd p with Some ip => iput ip | None => fault end ;;
  end_op ;;
  mod_proc i (set_cwd None) ;;
  acquire L_wait ;;
  reparent i ;;
  p <- proc_at i ;;
  wakeup_proc (parent p) ;;
  acquire (lkp i) ;;
  mod_proc i (set_xstate status) ;;
  mod_proc i (set_state ZOMBIE) ;;
  release L_wait ;;
  sched ;;
  panic "zombie exit".

(* the for loop over the table: Some r when it returns, else havekids *)
Fixpoint kwait_scan (n : nat) (pp : nat) (i : nat) (addr : Z) (havekids : bool) : M S (Z + bool) :=
  match n with
  | O => ret (inr havekids)
  | Datatypes.S n =>
      x <- proc_at pp ;;
      if decide (parent x = Some i) then
        acquire (lkp pp) ;;
        x <- proc_at pp ;;
        if decide (state x = ZOMBIE) then
          let pid := pid x in
          p <- proc_at i ;;
          r <- (if decide (addr ≠ 0) then copyout kend (pagetable p) addr (le_bytes 4 (xstate x)) else ret 0) ;;
          if decide (r < 0) then
            release (lkp pp) ;;
            release L_wait ;;
            ret (inl (-1))
          else
            freeproc pp ;;
            release (lkp pp) ;;
            release L_wait ;;
            ret (inl pid)
        else
          release (lkp pp) ;;
          kwait_scan n (pp + 1) i addr true
      else kwait_scan n (pp + 1) i addr havekids
  end.

Fixpoint kwait_loop (fuel : nat) (i : nat) (addr : Z) : M S Z :=
  match fuel with
  | O => λ s, Spin s
  | Datatypes.S fuel =>
      r <- kwait_scan (Z.to_nat NPROC) 0 i addr false ;;
      match r with
      | inl v => ret v
      | inr havekids =>
          k <- (if havekids then Sched.killed i else ret 1) ;;
          if decide (k ≠ 0) then release L_wait ;; ret (-1) else
          sleep (proc_addr i) L_wait ;;
          kwait_loop fuel i addr
      end
  end.

Definition kwait (addr : Z) : M S Z :=
  i <- curproc ;;
  acquire L_wait ;;
  kwait_loop (Datatypes.S patience) i addr.

End Ops.
