(* ===== verification/Exec.v ===== *)
(** * System-call arguments (kernel/syscall.c) and exec (kernel/exec.c)

    The argument vector of kexec is the list of the C strings that argv points
    to.  A string that the code fetches into a kernel buffer is the list of
    its bytes before the NUL. *)

From S2P Require Import Prelude Params CString Spinlock ProcDefs WaitQueue Sched Memory Kalloc Vm FsDefs Seq Sleeplock Bio Log Pipe Fs File ProcLife.

Definition ELF_MAGIC : Z := 0x464C457F.
Definition ELF_PROG_LOAD : Z := 1.

(** struct elfhdr and struct proghdr as they lie in the file. *)
Definition elf_size : Z := 64.
Definition elf_magic (e : list Z) : Z := get32 0 e.
Definition elf_entry (e : list Z) : Z := get_le 8 24 e.
Definition elf_phoff (e : list Z) : Z := get_le 8 32 e.
Definition elf_phnum (e : list Z) : Z := get16 56 e.
Definition ph_size : Z := 56.
Definition ph_type (h : list Z) : Z := get32 0 h.
Definition ph_flags (h : list Z) : Z := get32 4 h.
Definition ph_off (h : list Z) : Z := get_le 8 8 h.
Definition ph_vaddr (h : list Z) : Z := get_le 8 16 h.
Definition ph_filesz (h : list Z) : Z := get_le 8 32 h.
Definition ph_memsz (h : list Z) : Z := get_le 8 40 h.

Definition flags2perm (flags : Z) : Z :=
  let perm := if decide (Z.land flags 1 ≠ 0) then PTE_X else 0 in
  if decide (Z.land flags 2 ≠ 0) then Z.lor perm PTE_W else perm.

(* for(last=s=path; *s; s++) if( *s == '/') last = s+1; *)
Fixpoint path_last (path last : list Z) : list Z :=
  match path with [] => last | c :: path => path_last path (if decide (c = slash) then path else last) end.

(* the C string at the start of a buffer *)
Fixpoint cstr (l : list Z) : list Z :=
  match l with [] => [] | b :: l => if decide (b = 0) then [] else b :: cstr l end.

Section Args.
Context {S : Type} `{HasFs S}.
Variable kend : Z.

Definition argraw (n : Z) : M S Z :=
  i <- curproc ;;
  p <- proc_at i ;;
  if decide (0 ≤ n ≤ 5) then ld64 (trapframe p + tf_a n) else panic "argraw".

Definition argint (n : Z) : M S Z := v <- argraw n ;; ret (i32 v).
Definition argaddr (n : Z) : M S Z := argraw n.

(* -1, or 0 and the word *)
Definition fetchaddr (addr : Z) : M S (Z * Z) :=
  i <- curproc ;;
  p <- proc_at i ;;
  if decide (sz p ≤ addr ∨ sz p < u64 (addr + 8)) then ret (-1, 0) else
  r <- copyin kend (pagetable p) addr 8 ;;
  if decide (r.1 ≠ 0) then ret (-1, 0) else ret (0, le_val r.2).

(* -1, or the length of the string, and the string *)
Definition fetchstr (addr max : Z) : M S (Z * list Z) :=
  i <- curproc ;;
  p <- proc_at i ;;
  r <- copyinstr (pagetable p) addr max ;;
  if decide (r.1 < 0) then ret (-1, []) else
  let s := cstr r.2 in
  ret (Z.of_nat (length s), s).

Definition argstr (n max : Z) : M S (Z * list Z) :=
  addr <- argaddr n ;;
  fetchstr addr max.

End Args.

Section Ops.
Context {S : Type} `{HasFs S}.
Variables (kend : Z) (patience : nat) (bcache itable logaddr trampoline : Z).
Notation ilock := (ilock patience bcache itable).
Notation iunlockput := (iunlockput patience bcache itable).
Notation begin_op := (begin_op patience logaddr).
Notation end_op := (end_op patience bcache logaddr).
Notation readi := (readi kend patience bcache).
Notation namei := (namei kend patience bcache itable).
Notation proc_pagetable := (proc_pagetable kend trampoline).
Notation proc_freepagetable := (proc_freepagetable kend).

(* for(i = 0; i < sz; i += PGSIZE) *)
Fixpoint loadseg_loop (fuel : nat) (pagetable va : Z) (ip : nat) (offset sz i : Z) : M S Z :=
  match fuel with
  | O => λ s, Spin s
  | Datatypes.S fuel =>
      if decide (i < sz) then
        pa <- walkaddr pagetable (u64 (va + i)) ;;
        if decide (pa = 0) then panic "loadseg: address should exist" else
        let n := if decide (sz - i < PGSIZE) then sz - i else PGSIZE in
        r <- readi ip (D_kmem pa) (u32 (offset + i)) n ;;
        if decide (r.1 ≠ n) then ret (-1) else
        loadseg_loop fuel pagetable va ip offset sz (u32 (i + PGSIZE))
      else ret 0
  end.

Definition loadseg (pagetable va : Z) (ip : nat) (offset sz : Z) : M S Z :=
  loadseg_loop (Datatypes.S (Z.to_nat (sz / PGSIZE + 1))) pagetable va ip offset sz 0.

(* the loop over the program headers: false for goto bad, with the size that
   the page table has got so far *)
Fixpoint load_segments (n : nat) (ip : nat) (pagetable off sz : Z) : M S (bool * Z) :=
  match n with
  | O => ret (true, sz)
  | Datatypes.S n =>
      r <- readi ip D_local (u32 off) ph_size ;;
      if decide (r.1 ≠ ph_size) then ret (false, sz) else
      let ph := r.2 in
      if decide (ph_type ph ≠ ELF_PROG_LOAD) then load_segments n ip pagetable (i32 (off + ph_size)) sz else
      if decide (ph_memsz ph < ph_filesz ph) then ret (false, sz) else
      if decide (u64 (ph_vaddr ph + ph_memsz ph) < ph_vaddr ph) then ret (false, sz) else
      if decide (ph_vaddr ph mod PGSIZE ≠ 0) then ret (false, sz) else
      sz1 <- uvmalloc kend pagetable sz (u64 (ph_vaddr ph + ph_memsz ph)) (flags2perm (ph_flags ph)) ;;
      if decide (sz1 = 0) then ret (false, sz) else
      r <- loadseg pagetable (ph_vaddr ph) ip (u32 (ph_off ph)) (u32 (ph_filesz ph)) ;;
      if decide (r < 0) then ret (false, sz1) else
      load_segments n ip pagetable (i32 (off + ph_size)) sz1
  end.

(* for(argc = 0; argv[argc]; argc++): the stack pointer and ustack; None for
   goto bad *)
Fixpoint push_args (pagetable stackbase : Z) (argv : list (list Z)) (sp : Z) (ustack : list Z) : M S (option (Z * list Z)) :=
  match argv with
  | [] => ret (Some (sp, ustack))
  | s :: argv =>
      if decide (MAXARG ≤ Z.of_nat (length ustack)) then ret None else
      let sp := u64 (sp - (Z.of_nat (length s) + 1)) in
      let sp := u64 (sp - sp mod 16) in
      if decide (sp < stackbase) then ret None else
      r <- copyout kend pagetable sp (s ++ [0]) ;;
      if decide (r < 0) then ret None else
      push_args pagetable stackbase argv sp (ustack ++ [sp])
  end.

(* everything after the segments are loaded: None for goto bad with the
   size the page table has, else the stack pointer and argc *)
Definition build_stack (pagetable sz : Z) (argv : list (list Z)) : M S (Z * option (Z * Z)) :=
  let sz := PGROUNDUP sz in
  sz1 <- uvmalloc kend pagetable sz (u64 (sz + (USERSTACK + 1) * PGSIZE)) PTE_W ;;
  if decide (sz1 = 0) then ret (sz, None) else
  let sz := sz1 in
  uvmclear pagetable (u64 (sz - (USERSTACK + 1) * PGSIZE)) ;;
  let stackbase := u64 (sz - USERSTACK * PGSIZE) in
  r <- push_args pagetable stackbase argv sz [] ;;
  match r with
  | None => ret (sz, None)
  | Some (sp, ustack) =>
      (* ustack[argc] = 0 *)
      if decide (MAXARG ≤ Z.of_nat (length ustack)) then fault else
      let argc := Z.of_nat (length ustack) in
      let sp := u64 (sp - (argc + 1) * 8) in
      let sp := u64 (sp - sp mod 16) in
      if decide (sp < stackbase) then ret (sz, None) else
      r <- copyout kend pagetable sp (concat (le_bytes 8 <$> (ustack ++ [0]))) ;;
      if decide (r < 0) then ret (sz, None) else
      ret (sz, Some (sp, argc))
  end.

(* the label bad *)
Definition kexec_bad (pagetable sz : Z) (ip : option nat) : M S Z :=
  (if decide (pagetable ≠ 0) then proc_freepagetable pagetable sz else ret tt) ;;
  match ip with Some ip => iunlockput ip ;; end_op | None => ret tt end ;;
  ret (-1).

Definition kexec (path : list Z) (argv : list (list Z)) : M S Z :=
  i <- curproc ;;
  begin_op ;;
  ip <- namei path ;;
  match ip with
  | None => end_op ;; ret (-1)
  | Some ip =>
      ilock (Some ip) ;;
      r <- readi ip D_local 0 elf_size ;;
      if decide (r.1 ≠ elf_size) then kexec_bad 0 0 (Some ip) else
      let elf := r.2 in
      if decide (elf_magic elf ≠ ELF_MAGIC) then kexec_bad 0 0 (Some ip) else
      pt <- proc_pagetable i ;;
      if decide (pt = 0) then kexec_bad 0 0 (Some ip) else
      r <- load_segments (Z.to_nat (elf_phnum elf)) ip pt (i32 (elf_phoff elf)) 0 ;;
      let '(ok, sz1) := r in
      if negb ok then kexec_bad pt sz1 (Some ip) else
      iunlockput ip ;;
      end_op ;;
      i <- curproc ;;
      p <- proc_at i ;;
      let oldsz := sz p in
      r <- build_stack pt sz1 argv ;;
      match r with
      | (sz1, None) => kexec_bad pt sz1 None
      | (sz1, Some (sp, argc)) =>
          st64 (trapframe p + tf_a 1) sp ;;
          mod_proc i (set_name (safestrcpy_list (path_last path path) 16)) ;;
          let oldpagetable := pagetable p in
          mod_proc i (set_pagetable pt) ;;
          mod_proc i (set_sz sz1) ;;
          st64 (trapframe p + tf_epc) (elf_entry elf) ;;
          st64 (trapframe p + tf_sp) sp ;;
          proc_freepagetable oldpagetable oldsz ;;
          ret argc
      end
  end.

End Ops.
