(* ===== verification/Sysfile.v ===== *)
(** * File system calls (kernel/sysfile.c) *)

From S2P Require Import Prelude Params CString Spinlock ProcDefs WaitQueue Sched Memory Kalloc Vm FsDefs Seq Sleeplock Bio Log Pipe Fs File ProcLife Exec.

(* fcntl.h *)
Definition O_RDONLY : Z := 0x000.
Definition O_WRONLY : Z := 0x001.
Definition O_RDWR : Z := 0x002.
Definition O_CREATE : Z := 0x200.
Definition O_TRUNC : Z := 0x400.

Definition dot : list Z := [46].
Definition dotdot : list Z := [46; 46].

Section Ops.
Context {S : Type} `{HasFs S}.
Variables (kend : Z) (patience : nat) (bcache itable logaddr trampoline : Z).
Variables (devsw : Z → devops S) (pad : list Z).
Notation ilock := (ilock patience bcache itable).
Notation iunlock := (iunlock itable).
Notation iput := (iput patience bcache itable).
Notation iunlockput := (iunlockput patience bcache itable).
Notation iupdate := (iupdate patience bcache).
Notation begin_op := (begin_op patience logaddr).
Notation end_op := (end_op patience bcache logaddr).
Notation readi := (readi kend patience bcache).
Notation writei := (writei kend patience bcache).
Notation namei := (namei kend patience bcache itable).
Notation nameiparent := (nameiparent kend patience bcache itable).
Notation dirlookup := (dirlookup kend patience bcache).
Notation dirlink := (dirlink kend patience bcache itable).
Notation fileclose := (fileclose kend patience bcache itable logaddr).
Notation argstr := (argstr (S := S)).

(* the descriptor and the file; None for -1 *)
Definition argfd (n : Z) : M S (option (Z * nat)) :=
  fd <- argint n ;;
  if decide (fd < 0 ∨ NOFILE ≤ fd) then ret None else
  i <- curproc ;;
  p <- proc_at i ;;
  match ofile p !! Z.to_nat fd with
  | Some (Some f) => ret (Some (fd, f))
  | _ => ret None
  end.

Definition set_fd (i : nat) (fd : Z) (f : option nat) : M S unit :=
  mod_proc i (λ p, set_ofile (<[Z.to_nat fd := f]> (ofile p)) p).

Definition fdalloc (f : nat) : M S Z :=
  i <- curproc ;;
  r <- for_loop (Z.to_nat NOFILE) 0 (λ fd,
    p <- proc_at i ;;
    match ofile p !! Z.to_nat fd with
    | Some None => set_fd i fd (Some f) ;; ret (Some fd)
    | _ => ret None
    end) ;;
  ret (default (-1) r).

Definition sys_dup : M S Z :=
  r <- argfd 0 ;;
  match r with
  | None => ret (-1)
  | Some (_, f) =>
      fd <- fdalloc f ;;
      if decide (fd < 0) then ret (-1) else
      filedup f ;;
      ret fd
  end.

Definition sys_read : M S Z :=
  p <- argaddr 1 ;;
  n <- argint 2 ;;
  r <- argfd 0 ;;
  match r with
  | None => ret (-1)
  | Some (_, f) => fileread kend patience bcache itable devsw f p n
  end.

Definition sys_write : M S Z :=
  p <- argaddr 1 ;;
  n <- argint 2 ;;
  r <- argfd 0 ;;
  match r with
  | None => ret (-1)
  | Some (_, f) => filewrite kend patience bcache itable logaddr devsw f p n
  end.

Definition sys_close : M S Z :=
  r <- argfd 0 ;;
  match r with
  | None => ret (-1)
  | Some (fd, f) =>
      i <- curproc ;;
      set_fd i fd None ;;
      fileclose f ;;
      ret 0
  end.

Definition sys_fstat : M S Z :=
  st <- argaddr 1 ;;
  r <- argfd 0 ;;
  match r with
  | None => ret (-1)
  | Some (_, f) => filestat kend patience bcache itable pad f st
  end.

(* the label bad of sys_link *)
Definition sys_link_bad (ip : nat) : M S Z :=
  ilock (Some ip) ;;
  mod_inode ip (λ x, set_inlink (i16 (inlink x - 1)) x) ;;
  iupdate ip ;;
  iunlockput ip ;;
  end_op ;;
  ret (-1).

Definition sys_link : M S Z :=
  old <- argstr 0 MAXPATH ;;
  if decide (old.1 < 0) then ret (-1) else
  new <- argstr 1 MAXPATH ;;
  if decide (new.1 < 0) then ret (-1) else
  begin_op ;;
  r <- namei old.2 ;;
  match r with
  | None => end_op ;; ret (-1)
  | Some ip =>
      ilock (Some ip) ;;
      x <- inode_at ip ;;
      if decide (itype x = T_DIR) then
        iunlockput ip ;;
        end_op ;;
        ret (-1)
      else
      mod_inode ip (λ x, set_inlink (i16 (inlink x + 1)) x) ;;
      iupdate ip ;;
      iunlock (Some ip) ;;
      r <- nameiparent new.2 ;;
      match r with
      | (None, _) => sys_link_bad ip
      | (Some dp, name) =>
          ilock (Some dp) ;;
          d <- inode_at dp ;;
          x <- inode_at ip ;;
          e <- (if decide (idev d ≠ idev x) then ret (-1) else dirlink dp name (inum x)) ;;
          if decide (e < 0) then
            iunlockput dp ;;
            sys_link_bad ip
          else
          iunlockput dp ;;
          iput ip ;;
          end_op ;;
          ret 0
      end
  end.

Definition isdirempty (dp : nat) : M S Z :=
  x <- inode_at dp ;;
  r <- for_loop (Z.to_nat ((isize x + dirent_size - 1) / dirent_size - 2)) 2 (λ k,
    r <- readi dp D_local (k * dirent_size) dirent_size ;;
    if decide (r.1 ≠ dirent_size) then panic "isdirempty: readi" else
    ret (if decide (de_inum r.2 ≠ 0) then Some 0 else None)) ;;
  ret (default 1 r).

(* the label bad of sys_unlink *)
Definition sys_unlink_bad (dp : nat) : M S Z :=
  iunlockput dp ;;
  end_op ;;
  ret (-1).

Definition sys_unlink : M S Z :=
  path <- argstr 0 MAXPATH ;;
  if decide (path.1 < 0) then ret (-1) else
  begin_op ;;
  r <- nameiparent path.2 ;;
  match r with
  | (None, _) => end_op ;; ret (-1)
  | (Some dp, name) =>
      ilock (Some dp) ;;
      if decide (namecmp name dot = 0 ∨ namecmp name dotdot = 0) then sys_unlink_bad dp else
      r <- dirlookup dp name ;;
      match r with
      | None => sys_unlink_bad dp
      | Some (ip, off) =>
          ilock (Some ip) ;;
          x <- inode_at ip ;;
          if decide (inlink x < 1) then panic "unlink: nlink < 1" else
          e <- (if decide (itype x = T_DIR) then isdirempty ip else ret 1) ;;
          if decide (e = 0) then
            iunlockput ip ;;
            sys_unlink_bad dp
          else
          w <- writei dp (S_local (replicate (Z.to_nat dirent_size) 0)) off dirent_size ;;
          if decide (w ≠ dirent_size) then panic "unlink: writei" else
          x <- inode_at ip ;;
          (if decide (itype x = T_DIR) then
             mod_inode dp (λ x, set_inlink (i16 (inlink x - 1)) x) ;;
             iupdate dp
           else ret tt) ;;
          iunlockput dp ;;
          mod_inode ip (λ x, set_inlink (i16 (inlink x - 1)) x) ;;
          iupdate ip ;;
          iunlockput ip ;;
          end_op ;;
          ret 0
      end
  end.

(* the label fail of create *)
Definition create_fail (ip dp : nat) : M S (option nat) :=
  mod_inode ip (set_inlink 0) ;;
  iupdate ip ;;
  iunlockput ip ;;
  iunlockput dp ;;
  ret None.

Definition create (path : list Z) (type major minor : Z) : M S (option nat) :=
  r <- nameiparent path ;;
  match r with
  | (None, _) => ret None
  | (Some dp, name) =>
      ilock (Some dp) ;;
      r <- dirlookup dp name ;;
      match r with
      | Some (ip, _) =>
          iunlockput dp ;;
          ilock (Some ip) ;;
          x <- inode_at ip ;;
          if decide (type = T_FILE ∧ (itype x = T_FILE ∨ itype x = T_DEVICE)) then ret (Some ip) else
          iunlockput ip ;;
          ret None
      | None =>
          d <- inode_at dp ;;
          r <- ialloc patience bcache (idev d) type ;;
          match r with
          | None => iunlockput dp ;; ret None
          | Some ip =>
              ilock (Some ip) ;;
              mod_inode ip (set_imajor major) ;;
              mod_inode ip (set_iminor minor) ;;
              mod_inode ip (set_inlink 1) ;;
              iupdate ip ;;
              x <- inode_at ip ;;
              d <- inode_at dp ;;
              e <- (if decide (type = T_DIR) then
                      e <- dirlink ip dot (inum x) ;;
                      if decide (e < 0) then ret e else dirlink ip dotdot (inum d)
                    else ret 0) ;;
              if decide (e < 0) then create_fail ip dp else
              e <- dirlink dp name (inum x) ;;
              if decide (e < 0) then create_fail ip dp else
              (if decide (type = T_DIR) then
                 mod_inode dp (λ x, set_inlink (i16 (inlink x + 1)) x) ;;
                 iupdate dp
               else ret tt) ;;
              iunlockput dp ;;
              ret (Some ip)
          end
      end
  end.

(* iunlockput(ip); end_op(); return -1; *)
Definition sys_open_fail (ip : nat) : M S Z :=
  iunlockput ip ;;
  end_op ;;
  ret (-1).

(* the file structure of an inode just opened *)
Definition open_file (f ip : nat) (x : inode) (omode : Z) : M S unit :=
  (if decide (itype x = T_DEVICE) then
     mod_file f (set_ftyp FD_DEVICE) ;;
     mod_file f (set_fmajor (imajor x))
   else
     mod_file f (set_ftyp FD_INODE) ;;
     mod_file f (set_foff 0)) ;;
  mod_file f (set_fip (Some ip)) ;;
  mod_file f (set_readable (if decide (Z.land omode O_WRONLY ≠ 0) then 0 else 1)) ;;
  mod_file f (set_writable (if decide (Z.land omode O_WRONLY ≠ 0 ∨ Z.land omode O_RDWR ≠ 0) then 1 else 0)).

(* the inode to open, locked; None after the early returns *)
Definition open_inode (path : list Z) (omode : Z) : M S (option nat) :=
  if decide (Z.land omode O_CREATE ≠ 0) then
    r <- create path T_FILE 0 0 ;;
    match r with
    | None => end_op ;; ret None
    | Some ip => ret (Some ip)
    end
  else
    r <- namei path ;;
    match r with
    | None => end_op ;; ret None
    | Some ip =>
        ilock (Some ip) ;;
        x <- inode_at ip ;;
        if decide (itype x = T_DIR ∧ omode ≠ O_RDONLY) then
          iunlockput ip ;;
          end_op ;;
          ret None
        else ret (Some ip)
    end.

Definition sys_open : M S Z :=
  omode <- argint 1 ;;
  path <- argstr 0 MAXPATH ;;
  if decide (path.1 < 0) then ret (-1) else
  begin_op ;;
  r <- open_inode path.2 omode ;;
  match r with
  | None => ret (-1)
  | Some ip =>
      x <- inode_at ip ;;
      if decide (itype x = T_DEVICE ∧ (imajor x < 0 ∨ NDEV ≤ imajor x)) then sys_open_fail ip else
      r <- filealloc ;;
      match r with
      | None => sys_open_fail ip
      | Some f =>
          fd <- fdalloc f ;;
          if decide (fd < 0) then
            fileclose f ;;
            sys_open_fail ip
          else
          open_file f ip x omode ;;
          (if decide (Z.land omode O_TRUNC ≠ 0 ∧ itype x = T_FILE) then itrunc patience bcache ip else ret tt) ;;
          iunlock (Some ip) ;;
          end_op ;;
          ret fd
      end
  end.

Definition sys_mkdir : M S Z :=
  begin_op ;;
  path <- argstr 0 MAXPATH ;;
  r <- (if decide (path.1 < 0) then ret None else create path.2 T_DIR 0 0) ;;
  match r with
  | None => end_op ;; ret (-1)
  | Some ip =>
      iunlockput ip ;;
      end_op ;;
      ret 0
  end.

Definition sys_mknod : M S Z :=
  begin_op ;;
  major <- argint 1 ;;
  minor <- argint 2 ;;
  path <- argstr 0 MAXPATH ;;
  r <- (if decide (path.1 < 0) then ret None else create path.2 T_DEVICE (i16 major) (i16 minor)) ;;
  match r with
  | None => end_op ;; ret (-1)
  | Some ip =>
      iunlockput ip ;;
      end_op ;;
      ret 0
  end.

Definition sys_chdir : M S Z :=
  i <- curproc ;;
  begin_op ;;
  path <- argstr 0 MAXPATH ;;
  r <- (if decide (path.1 < 0) then ret None else namei path.2) ;;
  match r with
  | None => end_op ;; ret (-1)
  | Some ip =>
      ilock (Some ip) ;;
      x <- inode_at ip ;;
      if decide (itype x ≠ T_DIR) then
        iunlockput ip ;;
        end_op ;;
        ret (-1)
      else
      iunlock (Some ip) ;;
      p <- proc_at i ;;
      match cwd p with Some d => iput d | None => fault end ;;
      end_op ;;
      mod_proc i (set_cwd (Some ip)) ;;
      ret 0
  end.

(* for(i=0;; i++): the pages and the strings fetched; false for goto bad *)
Fixpoint fetch_args (n : nat) (uargv i : Z) (pages : list Z) (argv : list (list Z)) : M S (bool * list Z * list (list Z)) :=
  match n with
  | O => ret (false, pages, argv)
  | Datatypes.S n =>
      a <- fetchaddr kend (u64 (uargv + 8 * i)) ;;
      if decide (a.1 < 0) then ret (false, pages, argv) else
      if decide (a.2 = 0) then ret (true, pages, argv) else
      page <- kalloc ;;
      if decide (page = 0) then ret (false, pages, argv) else
      s <- fetchstr a.2 PGSIZE ;;
      if decide (s.1 < 0) then ret (false, pages ++ [page], argv) else
      mod_bytes (λ m, store_list m page (s.2 ++ [0])) ;;
      fetch_args n uargv (i + 1) (pages ++ [page]) (argv ++ [s.2])
  end.

Fixpoint free_args (pages : list Z) : M S unit :=
  match pages with [] => ret tt | page :: pages => kfree kend page ;; free_args pages end.

Definition sys_exec : M S Z :=
  uargv <- argaddr 1 ;;
  path <- argstr 0 MAXPATH ;;
  if decide (path.1 < 0) then ret (-1) else
  r <- fetch_args (Z.to_nat MAXARG) uargv 0 [] [] ;;
  let '(ok, pages, argv) := r in
  if negb ok then free_args pages ;; ret (-1) else
  r <- kexec kend patience bcache itable logaddr trampoline path.2 argv ;;
  free_args pages ;;
  ret r.

Definition sys_pipe : M S Z :=
  i <- curproc ;;
  fdarray <- argaddr 0 ;;
  r <- pipealloc kend patience bcache itable logaddr ;;
  match r with
  | (_, Some rf, Some wf) =>
      if decide (r.1.1 < 0) then ret (-1) else
      fd0 <- fdalloc rf ;;
      fd1 <- (if decide (fd0 < 0) then ret (-1) else fdalloc wf) ;;
      if decide (fd0 < 0 ∨ fd1 < 0) then
        (if decide (0 ≤ fd0) then set_fd i fd0 None else ret tt) ;;
        fileclose rf ;;
        fileclose wf ;;
        ret (-1)
      else
      p <- proc_at i ;;
      r <- copyout kend (pagetable p) fdarray (le_bytes 4 fd0) ;;
      r <- (if decide (r < 0) then ret r else copyout kend (pagetable p) (u64 (fdarray + 4)) (le_bytes 4 fd1)) ;;
      if decide (r < 0) then
        set_fd i fd0 None ;;
        set_fd i fd1 None ;;
        fileclose rf ;;
        fileclose wf ;;
        ret (-1)
      else ret 0
  | _ => ret (-1)
  end.

End Ops.
