(* ===== verification/LogCrash.v ===== *)
(** * What a crash leaves of a transaction

    Pure facts about the sequence of block writes of a commit: whatever prefix
    of them has reached the disk, replaying the log gives the home blocks all
    their old or all their new contents.  A block write is atomic. *)

From S2P Require Import Prelude Params FsDefs Log.

(** ** Sequences of block writes *)

Definition img1 (b : Z) (d : list Z) (img : Z → list Z) : Z → list Z := λ x, if decide (x = b) then d else img x.

Fixpoint apply_writes (ws : list (Z * list Z)) (img : Z → list Z) : Z → list Z :=
  match ws with [] => img | (b, d) :: ws => apply_writes ws (img1 b d img) end.

Lemma apply_writes_app ws1 ws2 img : apply_writes (ws1 ++ ws2) img = apply_writes ws2 (apply_writes ws1 img).
Proof. revert img. induction ws1 as [|[b d] ws1 IH]; intros img; simpl; [done|]. apply IH. Qed.

Lemma apply_writes_ext ws : ∀ img img', (∀ x, img x = img' x) → ∀ x, apply_writes ws img x = apply_writes ws img' x.
Proof.
  induction ws as [|[b d] ws IH]; intros img img' E x; simpl; [done|]. apply IH. intros y. unfold img1. by case_decide.
Qed.

Lemma apply_writes_notin ws x : ∀ img, x ∉ ws.*1 → apply_writes ws img x = img x.
Proof.
  induction ws as [|[b d] ws IH]; intros img Hx; simpl; [done|]. apply not_elem_of_cons in Hx as [Hb Hx].
  rewrite IH by done. unfold img1. by rewrite decide_False.
Qed.

Lemma apply_writes_indep ws x : ∀ img img', (img x = img' x ∨ x ∈ ws.*1) → apply_writes ws img x = apply_writes ws img' x.
Proof.
  induction ws as [|[b d] ws IH]; intros img img' Hx; simpl.
  - destruct Hx as [?|Hx]; [done|]. by apply elem_of_nil in Hx.
  - apply IH. unfold img1. case_decide; [by left|]. destruct Hx as [?|[?|?]%elem_of_cons]; auto. done.
Qed.

(** All writes to [x] store [d]. *)
Lemma apply_writes_const ws x d : ∀ img,
  (∀ e, (x, e) ∈ ws → e = d) → (img x = d ∨ x ∈ ws.*1) → apply_writes ws img x = d.
Proof.
  induction ws as [|[b e] ws IH]; intros img Hw Hx; simpl.
  - destruct Hx as [?|Hx]; [done|]. by apply elem_of_nil in Hx.
  - apply IH; [intros e' He; apply Hw; by right|]. unfold img1. case_decide as E.
    + subst b. left. apply Hw. by left.
    + destruct Hx as [?|Hx]; [by left|]. right. by apply elem_of_cons in Hx as [?|?].
Qed.

Lemma prefix_app_cases {A} (ws l1 l2 : list A) : ws `prefix_of` l1 ++ l2 →
  ws `prefix_of` l1 ∨ ∃ ws', ws = l1 ++ ws' ∧ ws' `prefix_of` l2.
Proof.
  intros [k E]. destruct (decide (length ws ≤ length l1)%nat) as [Hl|Hl]; [left|right].
  - exists (drop (length ws) l1). apply (f_equal (take (length l1))) in E. rewrite take_app_length in E.
    rewrite E at 1. rewrite take_app_ge by done. f_equal.
    rewrite E at 2. rewrite take_app_ge by done. by rewrite drop_app_length.
  - exists (drop (length l1) ws). pose proof (f_equal (take (length l1)) E) as E1. rewrite take_app_length, take_app_le in E1 by lia.
    split; [by rewrite E1 at 1; rewrite take_drop|]. exists k. pose proof (f_equal (drop (length l1)) E) as E2.
    by rewrite drop_app_length, drop_app_le in E2 by lia.
Qed.

Lemma prefix_one {A} (ws : list A) x : ws `prefix_of` [x] → ws = [] ∨ ws = [x].
Proof. intros [k E]. destruct ws as [|y [|z ws]]; [by left|right; by simplify_eq/=|by simplify_eq/=]. Qed.

(** ** The header block *)

Fixpoint put_blocks (i : Z) (bs : list Z) (d : list Z) : list Z :=
  match bs with [] => d | b :: bs => put_blocks (i + 1) bs (put32 (4 + 4 * i) b d) end.
Definition put_header (bs : list Z) (d : list Z) : list Z := put_blocks 0 bs (put32 0 (Z.of_nat (length bs)) d).

(** The header block [d] lists the blocks [bs]. *)
Definition hdr_lists (d : list Z) (bs : list Z) : Prop :=
  hdr_n d = Z.of_nat (length bs) ∧ ∀ t b, bs !! t = Some b → hdr_block (Z.of_nat t) d = b.

Lemma length_put_blocks bs : ∀ i d, length (put_blocks i bs d) = length d.
Proof. induction bs as [|b bs IH]; intros i d; simpl; [done|]. rewrite IH. apply length_put_le. Qed.

Lemma length_put_header bs d : length (put_header bs d) = length d.
Proof. unfold put_header. rewrite length_put_blocks. apply length_put_le. Qed.

Lemma get_put_blocks_before bs : ∀ i d off, 0 ≤ i → 0 ≤ off → off + 4 ≤ 4 + 4 * i → get32 off (put_blocks i bs d) = get32 off d.
Proof.
  induction bs as [|b bs IH]; intros i d off Hi Ho Hlt; simpl; [done|]. rewrite IH by lia.
  unfold get32, put32. apply get_put_le_ne; lia.
Qed.

Lemma get_put_blocks bs : ∀ i d t b, 0 ≤ i → 4 + 4 * (i + Z.of_nat (length bs)) ≤ Z.of_nat (length d) →
  bs !! t = Some b → get32 (4 + 4 * (i + Z.of_nat t)) (put_blocks i bs d) = b mod 256 ^ 4.
Proof.
  induction bs as [|c bs IH]; intros i d [|t] b Hi Hl Hb; simpl in *; try done.
  - injection Hb as ->. rewrite get_put_blocks_before by lia. rewrite Z.add_0_r. unfold get32, put32. apply get_put_le; lia.
  - replace (i + Z.of_nat (Datatypes.S t)) with (i + 1 + Z.of_nat t) by lia. apply IH; [lia| |done].
    unfold put32. rewrite length_put_le. lia.
Qed.

Lemma i32_small32 z : 0 ≤ z < 2 ^ 31 → i32 (z mod 256 ^ 4) = z.
Proof. intros Hz. rewrite (Z.mod_small z) by lia. apply i32_small. lia. Qed.

Lemma put_header_lists bs d :
  Z.of_nat (length bs) ≤ LOGBLOCKS → BSIZE ≤ Z.of_nat (length d) → Forall (λ b, 0 ≤ b < 2 ^ 31) bs →
  hdr_lists (put_header bs d) bs.
Proof.
  unfold LOGBLOCKS, MAXOPBLOCKS, BSIZE. intros Hn Hd Hb. unfold hdr_lists, hdr_n, hdr_block, put_header. split.
  - rewrite get_put_blocks_before by lia. unfold get32, put32. rewrite get_put_le by lia. apply i32_small32. lia.
  - intros t b Ht. rewrite <- (Z.add_0_l (Z.of_nat t)). rewrite (get_put_blocks bs 0 _ t b); [|lia| |done].
    + apply i32_small32. rewrite Forall_lookup in Hb. eauto.
    + unfold put32. rewrite length_put_le. lia.
Qed.

(** ** Replaying the log *)

Section Replay.
Variable start : Z.

Definition in_log (x : Z) : Prop := start ≤ x ≤ start + LOGBLOCKS.
#[global] Instance in_log_dec x : Decision (in_log x).
Proof. unfold in_log. apply _. Defined.

(** The blocks the on-disk header lists. *)
Definition listed (d : list Z) : list Z := map (λ t, hdr_block (Z.of_nat t) d) (seq 0 (Z.to_nat (hdr_n d))).

Definition log_blk (t : nat) : Z := start + 1 + Z.of_nat t.

(** The writes that copy the log blocks of [img] to the home blocks [bs]. *)
Definition home_writes (img : Z → list Z) (bs : list Z) : list (Z * list Z) :=
  imap (λ t b, (b, img (log_blk t))) bs.

(** The contents of the home blocks after recovery. *)
Definition replay (img : Z → list Z) : Z → list Z := apply_writes (home_writes img (listed (img start))) img.

Lemma hdr_lists_listed d bs : hdr_lists d bs → listed d = bs.
Proof.
  intros [En Eb]. unfold listed. rewrite En, Nat2Z.id. apply list_eq. intros t.
  rewrite list_lookup_fmap. destruct (decide (t < length bs)%nat) as [Ht|Ht].
  - rewrite lookup_seq_lt by done. simpl. destruct (lookup_lt_is_Some_2 _ _ Ht) as [b Hb]. rewrite Hb. f_equal. by apply Eb.
  - rewrite lookup_seq_ge by lia. symmetry. apply lookup_ge_None_2. lia.
Qed.

Lemma home_writes_fst img bs : (home_writes img bs).*1 = bs.
Proof.
  unfold home_writes. apply list_eq. intros t. rewrite list_lookup_fmap, list_lookup_imap. by destruct (bs !! t).
Qed.

Lemma home_writes_elem img bs b e : (b, e) ∈ home_writes img bs → ∃ t, bs !! t = Some b ∧ e = img (log_blk t).
Proof.
  unfold home_writes. intros (t & Ht)%list_elem_of_lookup. rewrite list_lookup_imap in Ht.
  destruct (bs !! t) as [c|] eqn:E; simplify_eq/=. by exists t.
Qed.

(** The writes of a recovery from a disk whose header lists [bs]. *)
Definition recover_writes (V : Z → list Z) (bs : list Z) : list (Z * list Z) :=
  home_writes V bs ++ [(start, put_header [] (V start))].

Lemma start_in_log : in_log start.
Proof. unfold in_log, LOGBLOCKS, MAXOPBLOCKS. lia. Qed.

(** The transaction: home blocks [bs] get the contents [V]. *)
Variables (img0 V : Z → list Z) (bs : list Z).
Hypothesis Hlen : Z.of_nat (length bs) ≤ LOGBLOCKS.
Hypothesis Hhome : ∀ b, b ∈ bs → ¬ in_log b.
Hypothesis Hsame : ∀ x, ¬ in_log x → x ∉ bs → V x = img0 x.
Hypothesis Hempty : hdr_n (img0 start) = 0.

Definition log_writes : list (Z * list Z) := imap (λ t b, (log_blk t, V b)) bs.

(** The writes of a commit. *)
Definition commit_writes : list (Z * list Z) :=
  log_writes ++ [(start, put_header bs (V start))] ++ map (λ b, (b, V b)) bs ++
  [(start, put_header [] (put_header bs (V start)))].

Lemma log_writes_in b e : (b, e) ∈ log_writes → in_log b ∧ b ≠ start.
Proof.
  unfold log_writes. intros (t & Ht)%list_elem_of_lookup. rewrite list_lookup_imap in Ht.
  destruct (bs !! t) as [c|] eqn:E; simplify_eq/=. apply lookup_lt_Some in E. unfold in_log, log_blk. lia.
Qed.

(** Before the header is written nothing has happened. *)
Lemma crash_before ws : ws `prefix_of` log_writes → ∀ x, ¬ in_log x → replay (apply_writes ws img0) x = img0 x.
Proof.
  intros [ws2 E] x Hx. assert (∀ b, b ∈ ws.*1 → in_log b ∧ b ≠ start) as Hin.
  { intros b ([b' e] & -> & Hb)%list_elem_of_fmap. apply (log_writes_in b' e). rewrite E. set_solver. }
  unfold replay. rewrite (apply_writes_notin ws start) by (intros Hi; by destruct (Hin _ Hi)).
  assert (listed (img0 start) = []) as -> by (unfold listed; by rewrite Hempty). simpl.
  apply apply_writes_notin. intros Hi. apply Hin in Hi. tauto.
Qed.

(** The disk after the log and its header have been written. *)
Definition committed (img : Z → list Z) : Prop :=
  hdr_lists (img start) bs ∧ (∀ t b, bs !! t = Some b → img (log_blk t) = V b) ∧
  (∀ x, ¬ in_log x → x ∉ bs → img x = V x).

Lemma committed_replay img : committed img → ∀ x, ¬ in_log x → replay img x = V x.
Proof.
  intros (Hh & Hl & Hx0) x Hx. unfold replay. rewrite (hdr_lists_listed _ bs) by done.
  apply apply_writes_const.
  - intros e (t & Ht & ->)%home_writes_elem. by apply Hl.
  - rewrite home_writes_fst. destruct (decide (x ∈ bs)); [by right|left; auto].
Qed.

(** Copying to home blocks does not undo it. *)
Lemma committed_install img ws : committed img → (∀ b e, (b, e) ∈ ws → b ∈ bs ∧ e = V b) → committed (apply_writes ws img).
Proof.
  intros (Hh & Hl & Hx0) Hw.
  assert (∀ x, x ∉ bs → apply_writes ws img x = img x) as E.
  { intros x Hx. apply apply_writes_notin. intros ([b e] & -> & Hb)%list_elem_of_fmap. apply Hw in Hb. simpl in Hx. tauto. }
  assert (∀ x, in_log x → x ∉ bs) as Hn by (intros x Hx Hb; by apply Hhome in Hb).
  split_and!.
  - rewrite E; [done|]. apply Hn. unfold in_log, LOGBLOCKS, MAXOPBLOCKS. lia.
  - intros t b Ht. rewrite E; [by apply Hl|]. apply Hn. apply lookup_lt_Some in Ht. unfold in_log, log_blk. lia.
  - intros x Hx Hb. rewrite E by done. auto.
Qed.

(** Once the home blocks are written and the header says so, it stays done. *)
Lemma cleared_replay img : (∀ x, ¬ in_log x → img x = V x) → hdr_n (img start) = 0 → ∀ x, ¬ in_log x → replay img x = V x.
Proof. intros Hx0 Hh x Hx. unfold replay, listed. rewrite Hh. simpl. auto. Qed.

Lemma log_writes_val t b img : bs !! t = Some b → apply_writes log_writes img (log_blk t) = V b.
Proof.
  intros Ht. apply apply_writes_const.
  - intros e (u & Hu)%list_elem_of_lookup. unfold log_writes in Hu. rewrite list_lookup_imap in Hu.
    destruct (bs !! u) as [c|] eqn:Ec; simplify_eq/=. assert (u = t) by (unfold log_blk in *; lia). congruence.
  - right. apply list_elem_of_fmap. exists (log_blk t, V b). split; [done|].
    eapply (list_elem_of_lookup_2 _ t). unfold log_writes. by rewrite list_lookup_imap, Ht.
Qed.

Lemma log_writes_start img : apply_writes log_writes img start = img start.
Proof.
  apply apply_writes_notin. intros ([c e] & E & Hc)%list_elem_of_fmap. apply log_writes_in in Hc as [_ Hc]. by subst.
Qed.

Lemma log_writes_home img x : ¬ in_log x → apply_writes log_writes img x = img x.
Proof.
  intros Hx. apply apply_writes_notin. intros ([c e] & E & Hc)%list_elem_of_fmap. apply log_writes_in in Hc as [Hc _].
  simpl in E. by subst.
Qed.

Lemma home_elem b e : (b, e) ∈ map (λ b, (b, V b)) bs → b ∈ bs ∧ e = V b.
Proof. by intros (y & [= -> ->] & ?)%list_elem_of_fmap. Qed.

Lemma home_all img x : x ∈ bs → apply_writes (map (λ b, (b, V b)) bs) img x = V x.
Proof.
  intros Hx. apply apply_writes_const; [by intros e [_ ?]%home_elem|right].
  apply list_elem_of_fmap. exists (x, V x). split; [done|]. apply list_elem_of_fmap. eauto.
Qed.

Hypothesis Hstart : V start = img0 start.
Hypothesis Hblock : BSIZE ≤ Z.of_nat (length (img0 start)).
Hypothesis Hnums : Forall (λ b, 0 ≤ b < 2 ^ 31) bs.

(** After the header's write the transaction is committed. *)
Lemma committed_head : committed (apply_writes (log_writes ++ [(start, put_header bs (V start))]) img0).
Proof.
  rewrite apply_writes_app. simpl. split_and!; unfold img1.
  - rewrite decide_True by done. apply put_header_lists; [done|by rewrite Hstart|done].
  - intros t b Ht. rewrite decide_False by (unfold log_blk; lia). by apply log_writes_val.
  - intros x Hx Hb. rewrite decide_False by (intros ->; by apply Hx, start_in_log). rewrite log_writes_home by done. symmetry. auto.
Qed.



(** The home blocks after all the writes. *)
Lemma commit_all x : ¬ in_log x → apply_writes commit_writes img0 x = V x.
Proof.
  intros Hx. assert (x ≠ start) as Hne by (intros ->; by apply Hx, start_in_log).
  unfold commit_writes. rewrite !apply_writes_app. simpl. unfold img1 at 1. rewrite decide_False by done.
  destruct (decide (x ∈ bs)) as [Hb|Hb]; [by apply home_all|].
  rewrite apply_writes_notin.
  - unfold img1. rewrite decide_False by done. rewrite log_writes_home by done. symmetry. auto.
  - intros ([c e] & -> & Hc)%list_elem_of_fmap. apply home_elem in Hc as [? _]. done.
Qed.

(** Whatever prefix of the writes of a commit reaches the disk, recovery
    gives all old or all new contents; all writes give the new ones. *)
Lemma commit_prefix ws : ws `prefix_of` commit_writes →
  (∀ x, ¬ in_log x → replay (apply_writes ws img0) x = img0 x) ∨
  (∀ x, ¬ in_log x → replay (apply_writes ws img0) x = V x).
Proof.
  unfold commit_writes. rewrite app_assoc. intros [Hp|(w & -> & Hp)]%prefix_app_cases.
  - apply prefix_app_cases in Hp as [Hp|(w & -> & [->| ->]%prefix_one)]; [left; by apply crash_before| |].
    + left. rewrite app_nil_r. by apply crash_before.
    + right. apply committed_replay, committed_head.
  - right. rewrite apply_writes_app. apply prefix_app_cases in Hp as [[k Ek]|(w' & -> & [->| ->]%prefix_one)].
    + apply committed_replay, committed_install; [apply committed_head|]. intros b e Hb. apply home_elem. rewrite Ek. set_solver.
    + rewrite app_nil_r. apply committed_replay, committed_install; [apply committed_head|]. apply home_elem.
    + rewrite <- apply_writes_app, <- app_assoc. fold commit_writes. intros x Hx.
      apply (cleared_replay (apply_writes commit_writes img0)); [by apply commit_all| |done].
      unfold commit_writes. rewrite !app_assoc, apply_writes_app. simpl. unfold img1. rewrite decide_True by done.
      destruct (put_header_lists [] (put_header bs (V start))) as [-> _]; [done|by rewrite length_put_header, Hstart|done|done].
Qed.

(** The header after any prefix lists nothing or the transaction. *)
Lemma commit_prefix_hdr ws : ws `prefix_of` commit_writes →
  ∃ bs', hdr_lists (apply_writes ws img0 start) bs' ∧ (bs' = [] ∨ bs' = bs).
Proof.
  assert (∀ w, w `prefix_of` log_writes → hdr_lists (apply_writes w img0 start) []) as Hbefore.
  { intros w [k E]. rewrite apply_writes_notin; [by split|]. intros ([c e] & E' & Hc)%list_elem_of_fmap. simpl in E'. subst c.
    destruct (log_writes_in start e) as [_ ?]; [|done]. rewrite E. set_solver. }
  unfold commit_writes. rewrite app_assoc. intros [Hp|(w & -> & Hp)]%prefix_app_cases.
  - apply prefix_app_cases in Hp as [Hp|(w & -> & [->| ->]%prefix_one)]; [by exists []; auto| |].
    + exists []. rewrite app_nil_r. auto.
    + exists bs. split; [apply committed_head|by right].
  - rewrite apply_writes_app. apply prefix_app_cases in Hp as [[k Ek]|(w' & -> & [->| ->]%prefix_one)].
    + exists bs. split; [|by right]. eapply committed_install; [apply committed_head|].
      intros b e Hb. apply home_elem. rewrite Ek. set_solver.
    + exists bs. split; [|by right]. rewrite app_nil_r. eapply committed_install; [apply committed_head|]. apply home_elem.
    + exists []. split; [|by left]. rewrite apply_writes_app. simpl. unfold img1. rewrite decide_True by done.
      apply put_header_lists; [done|by rewrite length_put_header, Hstart|done].
Qed.

Lemma commit_prefix_size ws : ws `prefix_of` commit_writes → BSIZE ≤ Z.of_nat (length (apply_writes ws img0 start)).
Proof.
  assert (∀ w img, (∀ e, (start, e) ∈ w → BSIZE ≤ Z.of_nat (length e)) → BSIZE ≤ Z.of_nat (length (img start)) →
    BSIZE ≤ Z.of_nat (length (apply_writes w img start))) as Hgen.
  { induction w as [|[c d] w IH]; intros img He Hi; simpl; [done|]. apply IH; [intros e Hin; apply He; by right|].
    unfold img1. case_decide; [subst; apply He; by left|done]. }
  intros [k E]. apply Hgen; [|done]. intros e Hin. assert ((start, e) ∈ commit_writes) as Hc by (rewrite E; set_solver).
  unfold commit_writes in Hc. rewrite !elem_of_app, !list_elem_of_singleton in Hc.
  destruct Hc as [Hc|[[= ->]|[[Hc ->]%home_elem|[= ->]]]].
  - by apply log_writes_in in Hc as [_ ?].
  - by rewrite length_put_header, Hstart.
  - by rewrite Hstart.
  - by rewrite !length_put_header, Hstart.
Qed.

End Replay.

(** Recovery may itself be interrupted: whatever prefix of its writes reaches
    the disk, recovering again gives the same home blocks. *)
Lemma recover_prefix start img bs ws :
  hdr_lists (img start) bs → (∀ b, b ∈ bs → ¬ in_log start b) → Z.of_nat (length bs) ≤ LOGBLOCKS →
  BSIZE ≤ Z.of_nat (length (img start)) →
  ws `prefix_of` recover_writes start img bs →
  ∀ x, ¬ in_log start x → replay start (apply_writes ws img) x = replay start img x.
Proof.
  intros Hh Hhome Hcap Hlen Hp x Hx. pose proof (hdr_lists_listed _ _ Hh) as El.
  assert (∀ ws y, ws `prefix_of` home_writes start img bs → y ∉ bs → apply_writes ws img y = img y) as Hkeep.
  { intros w y [k E] Hy. apply apply_writes_notin. intros Hw. apply Hy. rewrite <- (home_writes_fst start img bs), E, fmap_app. set_solver. }
  assert (∀ y, in_log start y → y ∉ bs) as Hlog by (intros y Hy Hb; by apply Hhome in Hb).
  assert (∀ w, w `prefix_of` home_writes start img bs → replay start (apply_writes w img) x = replay start img x) as Hpart.
  { intros w Hw. unfold replay. rewrite (Hkeep w start Hw) by (apply Hlog, start_in_log). rewrite El.
    assert (home_writes start (apply_writes w img) bs = home_writes start img bs) as ->.
    { unfold home_writes. apply list_eq. intros t. rewrite !list_lookup_imap. destruct (bs !! t) as [b|] eqn:Ht; [|done].
      simpl. rewrite Hkeep; [done|done|]. apply Hlog. apply lookup_lt_Some in Ht. unfold in_log, log_blk. lia. }
    apply apply_writes_indep. rewrite home_writes_fst. destruct (decide (x ∈ bs)); [by right|left; by apply Hkeep]. }
  apply prefix_app_cases in Hp as [Hp|(w & -> & [->| ->]%prefix_one)]; [by apply Hpart|rewrite app_nil_r; by apply Hpart|].
  rewrite apply_writes_app. simpl. unfold replay at 1, listed. unfold img1 at 3. rewrite decide_True by done.
  destruct (put_header_lists [] (img start)) as [-> _]; [done|done|done|]. simpl.
  unfold img1. rewrite decide_False by (intros ->; by apply Hx, start_in_log). unfold replay. by rewrite El.
Qed.

Lemma recover_prefix_hdr start img bs ws :
  hdr_lists (img start) bs → (∀ b, b ∈ bs → ¬ in_log start b) → BSIZE ≤ Z.of_nat (length (img start)) →
  ws `prefix_of` recover_writes start img bs →
  ∃ bs', hdr_lists (apply_writes ws img start) bs' ∧ (bs' = [] ∨ bs' = bs) ∧ BSIZE ≤ Z.of_nat (length (apply_writes ws img start)).
Proof.
  intros Hh Hhome Hlen Hp.
  assert (∀ w, w `prefix_of` home_writes start img bs → apply_writes w img start = img start) as Hkeep.
  { intros w [k E]. apply apply_writes_notin. intros Hw. apply (Hhome start); [|apply start_in_log].
    rewrite <- (home_writes_fst start img bs), E, fmap_app. set_solver. }
  apply prefix_app_cases in Hp as [Hp|(w & -> & [->| ->]%prefix_one)].
  - exists bs. rewrite Hkeep by done. auto.
  - exists bs. rewrite app_nil_r, Hkeep by done. auto.
  - exists []. rewrite apply_writes_app. simpl. unfold img1. rewrite decide_True by done.
    split_and!; [by apply put_header_lists|by left|by rewrite length_put_header].
Qed.
