(* ===== verification/LogSpec.v ===== *)
(** * Correctness of the redo log

    Sequential specifications of log.c: what each function writes to disk and
    in which order, and, with the crash lemmas of LogCrash.v, that commits are
    atomic and that recovery is idempotent. *)

From S2P Require Import Prelude Params CString Spinlock ProcDefs WaitQueue Sched Memory FsDefs Seq Sleeplock Bio BioInv BioSpec Log LogCrash.

(** [f'] is [f] after the block writes [ws]. *)
Definition wrote (ws : list (Z * list Z)) (f f' : fsst) : Prop :=
  writes (disk f') = writes (disk f) ++ ws ∧ ∀ x, image (disk f') x = apply_writes ws (image (disk f)) x.

Lemma wrote_nil f f' : disk f' = disk f → wrote [] f f'.
Proof. intros E. split; rewrite E; [by rewrite app_nil_r|done]. Qed.

Lemma wrote_one b d f f' : disk f' = disk_write b d (disk f) → wrote [(b, d)] f f'.
Proof. intros E. by split; rewrite E. Qed.

Lemma wrote_app ws1 ws2 f1 f2 f3 : wrote ws1 f1 f2 → wrote ws2 f2 f3 → wrote (ws1 ++ ws2) f1 f3.
Proof.
  intros [E1 I1] [E2 I2]. split; [by rewrite E2, E1, app_assoc|]. intros x. rewrite I2, apply_writes_app.
  by apply apply_writes_ext.
Qed.

Lemma wrote_disk ws f1 f2 f3 : wrote ws f1 f2 → disk f3 = disk f2 → wrote ws f1 f3.
Proof. intros Hw E. rewrite <- (app_nil_r ws). eapply wrote_app; [done|by apply wrote_nil]. Qed.

(** The in-memory log lists [bs]. *)
Record logged (start : Z) (l : logst) (bs : list Z) : Prop := mkLogged {
  lg_start : lstart l = start;
  lg_dev : ldev l = 1;
  lg_n : lh_n l = Z.of_nat (length bs);
  lg_cap : length (lh_block l) = Z.to_nat LOGBLOCKS;
  lg_blocks : ∀ t b, bs !! t = Some b → lh_block l !! t = Some b;
  lg_nums : Forall (λ b, 0 ≤ b < 2 ^ 31) bs;
  lg_where : 0 ≤ start ∧ start + LOGBLOCKS < 2 ^ 31;
}.

Lemma u32_small z : 0 ≤ z < 2 ^ 32 → u32 z = z.
Proof. apply wrap_small. Qed.

Section Spec.
Context {S : Type} `{HasFs S}.
Variables (s0 : S) (me : nat) (mep : proc) (sleeplocks : list Z) (patience : nat) (bcache logaddr : Z).
Hypothesis Hbase : seq_base s0 me mep sleeplocks.
Hypothesis Hlocks : ∀ i, (i < HEAD)%nat → b_lock bcache i ∈ sleeplocks.
Variable start : Z.
Notation bst := (bst mep bcache).
Notation bio_frame := (bio_frame bcache).
Notation bread_post := (bread_post mep bcache).
Notation logged := (logged start).
Notation log_blk := (log_blk start).
Notation recover_writes := (recover_writes start).
Notation commit_writes := (commit_writes start).

Lemma fwp_get_log held f (Q : logst → list lockid → fsst → Prop) : Q (log f) held f → fwp s0 held get_log f Q.
Proof. intros HQ. unfold get_log. by apply fwp_bind, fwp_get, fwp_ret. Qed.

Lemma fwp_lh_get held f bs t b (Q : Z → list lockid → fsst → Prop) :
  logged (log f) bs → bs !! t = Some b → Q b held f → fwp s0 held (lh_get (Z.of_nat t)) f Q.
Proof.
  intros Hl Ht HQ. unfold lh_get. apply fwp_bind, fwp_get_log. rewrite decide_True by lia.
  rewrite Nat2Z.id, (lg_blocks _ _ _ Hl t b Ht). by apply fwp_ret.
Qed.

Lemma fwp_bread_log f V P X bs t :
  bst f V P X → logged (log f) bs → Z.of_nat t < LOGBLOCKS → log_blk t ∉ X →
  (log_blk t ∈ P ∨ Z.of_nat (length P + length X) < NBUF) →
  fwp s0 [] (bread_log patience bcache (Z.of_nat t)) f (bread_post f V P X (log_blk t)).
Proof.
  intros Hb Hl Ht HX Hroom. unfold bread_log. apply fwp_bind, fwp_get_log. destruct Hl as [-> -> _ _ _ _ Hw].
  replace (start + Z.of_nat t + 1) with (log_blk t) by (unfold LogCrash.log_blk; lia).
  rewrite (u32_small 1), (u32_small (log_blk t)) by (unfold LogCrash.log_blk; lia). by eapply bread_spec.
Qed.

Lemma fwp_bread_home f V P X bs t b :
  bst f V P X → logged (log f) bs → bs !! t = Some b → b ∉ X →
  (b ∈ P ∨ Z.of_nat (length P + length X) < NBUF) →
  fwp s0 [] (bread_home patience bcache (Z.of_nat t)) f (bread_post f V P X b).
Proof.
  intros Hb Hl Ht HX Hroom. unfold bread_home. apply fwp_bind, fwp_get_log. apply fwp_bind.
  eapply fwp_lh_get; [done|done|]. rewrite (lg_dev _ _ _ Hl).
  pose proof (proj1 (Forall_lookup _ _) (lg_nums _ _ _ Hl) t b Ht) as Hn. cbv beta in Hn. rewrite (u32_small 1), (u32_small b) by lia. by eapply bread_spec.
Qed.

(** Copy one held buffer to another and write it to disk. *)
Lemma fwp_store_write {A} f V P X i j s d (K : M S A) Q :
  bst f V P X → caches (metas f) i s → caches (metas f) j d → d ∈ X →
  (∀ f1, bst f1 (img1 d (V s) V) P X → bio_frame f f1 → wrote [(d, V s)] f f1 → image (disk f1) d = V s →
     (∀ k c, caches (metas f1) k c ↔ caches (metas f) k c) → fwp s0 [] K f1 Q) →
  fwp s0 [] (x <- buf_at i ;; mod_buf j (set_data (data x)) ;; bwrite bcache j ;; K) f Q.
Proof.
  intros Hb Hi Hj Hd HK. eapply fwp_buf_held; [done|done|]. intros x Ex _. rewrite Ex.
  apply fwp_bind. eapply fwp_set_data; [done|done|done|]. intros f1 Hb1 Hf1 Ed1 Hc1.
  apply fwp_bind. eapply (bwrite_spec _ _ _ _ _ Hbase Hlocks f1); [done|by apply Hc1|done|].
  intros f2 Hb2 Hf2 Ed2 Em. cbv beta in Ed2. rewrite decide_True in Ed2 by done. rewrite Ed1 in Ed2. apply HK.
  - exact Hb2.
  - by eapply bio_frame_trans.
  - by apply wrote_one.
  - rewrite Ed2. simpl. by rewrite decide_True.
  - intros k c. rewrite Em. apply Hc1.
Qed.

Lemma fwp_release_two f V P X i j s d (Q : unit → list lockid → fsst → Prop) :
  bst f V P X → (X = [s; d] ∨ X = [d; s]) → caches (metas f) i s → caches (metas f) j d →
  (s ∈ P ∨ V s = image (disk f) s) → (d ∈ P ∨ V d = image (disk f) d) →
  (∀ f', bst f' V P [] → bio_frame f f' → disk f' = disk f → Q tt [] f') →
  fwp s0 [] (brelse bcache i ;; brelse bcache j) f Q.
Proof.
  intros Hb HX Hi Hj Hs Hd HQ. assert (∃ X1 X2, X = X1 ++ s :: X2 ∧ X1 ++ X2 = [d]) as (X1 & X2 & -> & E).
  { destruct HX as [->| ->]; [by exists [], [d]|by exists [d], []]. }
  apply fwp_bind. eapply (brelse_spec _ _ _ _ _ Hbase Hlocks); [done|done|done|]. intros f1 Hb1 Hf1 Ed1 Hc1.
  rewrite E in Hb1. eapply (brelse_spec _ _ _ _ _ Hbase Hlocks f1 V P [] []); [done|by apply Hc1|by rewrite Ed1|].
  intros f2 Hb2 Hf2 Ed2 _. apply HQ; [done|by eapply bio_frame_trans|congruence].
Qed.

Lemma bread_two f V P bs t b :
  bst f V P [] → logged (log f) bs → bs !! t = Some b → (∀ b, b ∈ bs → ¬ in_log start b) →
  Z.of_nat t < LOGBLOCKS → (b ∈ P ∨ Z.of_nat (length P) + 1 < NBUF) → log_blk t ∉ P → Z.of_nat (length P) < NBUF →
  fwp s0 [] (bread_log patience bcache (Z.of_nat t)) f (λ i held1 f1, held1 = [] ∧
    fwp s0 [] (bread_home patience bcache (Z.of_nat t)) f1 (λ j held f2,
      held = [] ∧ bst f2 V P [b; log_blk t] ∧ caches (metas f2) i (log_blk t) ∧ caches (metas f2) j b ∧
      bio_frame f f2 ∧ disk f2 = disk f ∧ b ≠ log_blk t ∧ V (log_blk t) = image (disk f) (log_blk t))).
Proof.
  intros Hb Hl Ht Hhome Htn HbP Hlp Hroom. assert (b ≠ log_blk t) as Hne.
  { intros ->. apply (Hhome (log_blk t)); [by eapply list_elem_of_lookup_2|]. unfold in_log, LogCrash.log_blk. lia. }
  pose proof (bst_idle _ _ _ _ _ _ _ Hb Hlp ltac:(set_solver)) as Hcl.
  eapply fwp_mono; [eapply (fwp_bread_log f V P []); [done|done|done|set_solver|right; simpl; lia]|].
  intros i held f1 (-> & Hb1 & Hi1 & Hf1 & Ed1 & _). split; [done|].
  eapply fwp_mono; [eapply (fwp_bread_home f1 V P _ bs t b); [done|by rewrite (proj1 Hf1)|done|set_solver|simpl; lia || (destruct HbP; [by left|right; simpl; lia])]|].
  intros j held f2 (-> & Hb2 & Hi2 & Hf2 & Ed2 & Hc2).
  split_and!; try done; [apply Hc2; [by left|done]|by eapply bio_frame_trans|congruence].
Qed.

(** The state of the loop of [write_log] after [k] iterations. *)
Definition log_copied (f : fsst) (V : Z → list Z) (bs : list Z) (k : nat) (f' : fsst) : Prop :=
  bst f' (apply_writes (take k (log_writes start V bs)) V) bs [] ∧ bio_frame f f' ∧
  wrote (take k (log_writes start V bs)) f f'.

Lemma log_writes_lookup V bs t b : bs !! t = Some b → log_writes start V bs !! t = Some (log_blk t, V b).
Proof. intros Ht. unfold log_writes. by rewrite list_lookup_imap, Ht. Qed.

Lemma log_writes_keeps V bs k b : (∀ b, b ∈ bs → ¬ in_log start b) → Z.of_nat (length bs) ≤ LOGBLOCKS → b ∈ bs →
  apply_writes (take k (log_writes start V bs)) V b = V b.
Proof.
  intros Hhome Hn Hb. apply apply_writes_notin. intros ([c e] & -> & Hc)%list_elem_of_fmap.
  apply (Hhome c Hb). destruct (log_writes_in start V bs Hn c e); [|done]. by eapply elem_of_take in Hc as (? & ?%list_elem_of_lookup_2 & _).
Qed.

Lemma write_log_body f V bs f1 k b : logged (log f) bs → (∀ b, b ∈ bs → ¬ in_log start b) →
  Z.of_nat (length bs) < NBUF → bs !! k = Some b → log_copied f V bs k f1 →
  fwp s0 [] (
    to <- bread_log patience bcache (Z.of_nat k) ;;
    from <- bread_home patience bcache (Z.of_nat k) ;;
    x <- buf_at from ;;
    mod_buf to (set_data (data x)) ;;
    bwrite bcache to ;;
    brelse bcache from ;;
    brelse bcache to) f1 (λ _ held' f', held' = [] ∧ log_copied f V bs (Datatypes.S k) f').
Proof.
  intros Hl Hhome Hn Hk (Hb1 & Hf1 & Hw1). set (V1 := apply_writes _ V) in *. pose proof (lookup_lt_Some _ _ _ Hk).
  pose proof (list_elem_of_lookup_2 _ _ _ Hk) as Hbin.
  assert (Z.of_nat k < LOGBLOCKS) as Hk2 by (unfold LOGBLOCKS, NBUF, MAXOPBLOCKS in *; lia).
  assert (log_blk k ∉ bs) as Hlog by (intros Hi%Hhome; apply Hi; unfold in_log, LogCrash.log_blk; lia).
  apply fwp_bind. eapply fwp_mono.
  { apply (bread_two f1 V1 bs bs k b); try done; [by rewrite (proj1 Hf1)|by left]. }
  intros i ? f2 [-> HK]. apply fwp_bind. eapply fwp_mono; [exact HK|]. clear HK f2.
  intros j held f2 (-> & Hb2 & Hi & Hj & Hf2 & Ed2 & Hne & _).
  eapply fwp_store_write; [exact Hb2|done|done|set_solver|].
  intros f3 Hb3 Hf3 Hw3 Him Hc3. eapply fwp_release_two; [exact Hb3|by left|by apply Hc3|by apply Hc3|by left|right|].
  { rewrite Him. unfold img1. by rewrite decide_True. }
  intros f4 Hb4 Hf4 Ed4. split; [done|]. unfold log_copied.
  rewrite (take_S_r _ _ _ (log_writes_lookup V bs k b Hk)), apply_writes_app. simpl. fold V1.
  assert (V1 b = V b) as <- by (apply log_writes_keeps; [done|unfold LOGBLOCKS, NBUF in *; lia|done]).
  split_and!; [done| |].
  - eapply bio_frame_trans; [done|]. eapply bio_frame_trans; [done|]. by eapply bio_frame_trans.
  - eapply wrote_app; [done|]. eapply wrote_disk; [|exact Ed4]. destruct Hw3 as [E1 E2]. split; [by rewrite E1, Ed2|].
    intros x. rewrite E2. by rewrite Ed2.
Qed.

(** [write_log] copies every logged block to its log block, in order. *)
Lemma write_log_spec f V bs (Q : unit → list lockid → fsst → Prop) :
  bst f V bs [] → logged (log f) bs → (∀ b, b ∈ bs → ¬ in_log start b) → Z.of_nat (length bs) < NBUF →
  (∀ f', log_copied f V bs (length bs) f' → Q tt [] f') → fwp s0 [] (write_log patience bcache) f Q.
Proof.
  intros Hb Hl Hhome Hn HQ. unfold write_log. apply fwp_bind, fwp_get_log. rewrite (lg_n _ _ _ Hl), Nat2Z.id.
  eapply fwp_mono; [apply (fwp_for_each _ [] _ (λ t g, 0 ≤ t ∧ log_copied f V bs (Z.to_nat t) g))|].
  - split; [done|]. split_and!; [done|done|by apply wrote_nil].
  - intros t g Ht [_ Hg]. destruct (lookup_lt_is_Some_2 bs (Z.to_nat t)) as [b Hk]; [lia|].
    pose proof (write_log_body f V bs g _ b Hl Hhome Hn Hk Hg) as Hbody. rewrite Z2Nat.id in Hbody by lia.
    eapply fwp_mono; [exact Hbody|]. intros [] ? g' [-> Hg']. split; [done|]. split; [lia|].
    by replace (Z.to_nat (t + 1)) with (Datatypes.S (Z.to_nat t)) by lia.
  - intros [] ? g [-> [_ Hg]]. apply HQ. by replace (Z.to_nat (0 + Z.of_nat (length bs))) with (length bs) in Hg by lia.
Qed.

(** ** The header *)

Lemma put_blocks_snoc bs b : ∀ i d, put_blocks i (bs ++ [b]) d = put32 (4 + 4 * (i + Z.of_nat (length bs))) b (put_blocks i bs d).
Proof.
  induction bs as [|c bs IH]; intros i d; simpl; [by rewrite Z.add_0_r|]. rewrite IH. do 2 f_equal. lia.
Qed.

Definition head_at (f : fsst) (V : Z → list Z) (P bs : list Z) (i : nat) (k : nat) (f' : fsst) : Prop :=
  bst f' (img1 start (put_blocks 0 (take k bs) (put32 0 (Z.of_nat (length bs)) (V start))) V) P [start] ∧
  bio_frame f f' ∧ disk f' = disk f ∧ caches (metas f') i start.

Lemma img1_twice b d d' V x : img1 b d' (img1 b d V) x = img1 b d' V x.
Proof. unfold img1. by case_decide. Qed.

(** [write_head] writes the header that lists the logged blocks. *)
Lemma write_head_spec f V P bs (Q : unit → list lockid → fsst → Prop) :
  bst f V P [] → logged (log f) bs → start ∉ P → Z.of_nat (length P) < NBUF →
  (∀ f', bst f' (img1 start (put_header bs (V start)) V) P [] → bio_frame f f' →
     wrote [(start, put_header bs (V start))] f f' → Q tt [] f') →
  fwp s0 [] (write_head patience bcache) f Q.
Proof.
  intros Hb Hl HsP Hroom HQ. unfold write_head. apply fwp_bind, fwp_get_log. pose proof (lg_where _ _ _ Hl) as Hw. change LOGBLOCKS with 30 in Hw.
  rewrite (lg_dev _ _ _ Hl), (lg_start _ _ _ Hl), (lg_n _ _ _ Hl), (u32_small 1), (u32_small start), Nat2Z.id by lia.
  apply fwp_bind. eapply fwp_mono; [by eapply (bread_spec _ _ _ _ _ _ Hbase Hlocks f V P []); [done|set_solver|right; simpl; lia]|].
  intros i ? f1 (-> & Hb1 & Hi & Hf1 & Ed1 & _).
  apply fwp_bind. eapply (fwp_upd_data _ _ _ _ _ _ _ _ _ _ (put32 0 (Z.of_nat (length bs)))); [exact Hb1|done|set_solver|].
  intros f2 Hb2 Hf2 Ed2 Hc2. apply fwp_bind.
  eapply fwp_mono; [apply (fwp_for_each _ [] _ (λ t g, 0 ≤ t ∧ head_at f V P bs i (Z.to_nat t) g))|].
  - split; [done|]. split_and!; [done|by eapply bio_frame_trans|congruence|by apply Hc2].
  - intros t g Ht [_ (Hg & Hfg & Edg & Hig)]. destruct (lookup_lt_is_Some_2 bs (Z.to_nat t)) as [b Hk]; [lia|].
    apply fwp_bind. rewrite <- (Z2Nat.id t) at 1 by lia. eapply fwp_lh_get; [by rewrite (proj1 Hfg)|exact Hk|].
    eapply (fwp_upd_data _ _ _ _ _ _ _ _ _ _ (put32 (4 + 4 * t) b)); [exact Hg|done|set_solver|].
    intros g' Hg' Hfg' Edg' Hcg'. split; [done|]. split; [lia|].
    replace (Z.to_nat (t + 1)) with (Datatypes.S (Z.to_nat t)) by lia. unfold head_at.
    rewrite (take_S_r _ _ _ Hk), put_blocks_snoc, length_take_le, Z.add_0_l, Z2Nat.id by lia.
    split_and!; [|by eapply bio_frame_trans|congruence|by apply Hcg'].
    eapply bst_ext; [|exact Hg']. intros x. unfold img1. case_decide; [by rewrite decide_True|done].
  - intros [] ? g [-> [_ (Hg & Hfg & Edg & Hig)]]. rewrite Z.add_0_l, Nat2Z.id, firstn_all in Hg.
    fold (put_header bs (V start)) in Hg. apply fwp_bind. eapply (bwrite_spec _ _ _ _ _ Hbase Hlocks); [exact Hg|done|set_solver|].
    intros g1 Hg1 Hfg1 Edg1 Em1. unfold img1 at 1 in Edg1. rewrite decide_True in Edg1 by done.
    eapply (brelse_spec _ _ _ _ _ Hbase Hlocks g1 _ P [] [] i start); [exact Hg1|by rewrite Em1|right|].
    { rewrite Edg1. unfold img1. simpl. by rewrite !decide_True. }
    intros g2 Hg2 Hfg2 Edg2 _. apply HQ; [done| |].
    + eapply bio_frame_trans; [done|]. by eapply bio_frame_trans.
    + eapply wrote_disk; [|done]. apply wrote_one. by rewrite Edg1, Edg.
Qed.

(** ** Copying the log to the home blocks *)

Definition pinned (recovering : Z) (k : nat) (bs : list Z) : list Z := if decide (recovering = 0) then drop k bs else [].

Definition installed (f : fsst) (V : Z → list Z) (bs : list Z) (r : Z) (k : nat) (f' : fsst) : Prop :=
  bst f' (apply_writes (take k (home_writes start V bs)) V) (pinned r k bs) [] ∧ bio_frame f f' ∧
  wrote (take k (home_writes start V bs)) f f'.

Lemma home_writes_lookup V bs t b : bs !! t = Some b → home_writes start V bs !! t = Some (b, V (log_blk t)).
Proof. intros Ht. unfold home_writes. by rewrite list_lookup_imap, Ht. Qed.

Lemma home_writes_keeps V bs k x : x ∉ bs → apply_writes (take k (home_writes start V bs)) V x = V x.
Proof.
  intros Hx. apply apply_writes_notin. intros ([c e] & -> & Hc)%list_elem_of_fmap. apply Hx. simpl.
  rewrite <- (home_writes_fst start V bs). apply list_elem_of_fmap. exists (c, e). split; [done|].
  by eapply elem_of_take in Hc as (? & ?%list_elem_of_lookup_2 & _).
Qed.

Lemma pinned_in r k bs x : x ∈ pinned r k bs → x ∈ bs.
Proof. unfold pinned. case_decide; [|set_solver]. intros (? & Hx)%list_elem_of_lookup. rewrite lookup_drop in Hx. by eapply list_elem_of_lookup_2. Qed.
Lemma pinned_length r k bs : (length (pinned r k bs) ≤ length bs)%nat.
Proof. unfold pinned. case_decide; [rewrite length_drop; lia|simpl; lia]. Qed.

Lemma install_body f V bs r f1 k b : logged (log f) bs → (∀ b, b ∈ bs → ¬ in_log start b) →
  Z.of_nat (length bs) ≤ LOGBLOCKS → (r = 0 → Z.of_nat (length bs) < NBUF) → bs !! k = Some b → installed f V bs r k f1 →
  fwp s0 [] (
    lbuf <- bread_log patience bcache (Z.of_nat k) ;;
    dbuf <- bread_home patience bcache (Z.of_nat k) ;;
    x <- buf_at lbuf ;;
    mod_buf dbuf (set_data (data x)) ;;
    bwrite bcache dbuf ;;
    (if decide (r = 0) then bunpin dbuf else ret tt) ;;
    brelse bcache lbuf ;;
    brelse bcache dbuf) f1 (λ _ held' f', held' = [] ∧ installed f V bs r (Datatypes.S k) f').
Proof.
  intros Hl Hhome Hcap Hn Hk (Hb1 & Hf1 & Hw1). set (V1 := apply_writes _ V) in *. pose proof (lookup_lt_Some _ _ _ Hk) as Hlt.
  assert (Z.of_nat k < LOGBLOCKS) as Hk2 by lia.
  assert (log_blk k ∉ bs) as Hlog by (intros Hi%Hhome; apply Hi; unfold in_log, LogCrash.log_blk; lia).
  assert (b ∈ pinned r k bs ∨ length (pinned r k bs) = 0%nat) as HbP.
  { unfold pinned. case_decide; [left|by right]. apply list_elem_of_lookup. exists 0%nat. by rewrite lookup_drop, Nat.add_0_r. }
  apply fwp_bind. eapply fwp_mono.
  { apply (bread_two f1 V1 (pinned r k bs) bs k b); try done; [by rewrite (proj1 Hf1)| |by intros ?%pinned_in|].
    - destruct HbP as [?| ->]; [by left|right; done].
    - pose proof (pinned_length r k bs). destruct (decide (r = 0)); [|unfold pinned; rewrite decide_False by done; done].
      specialize (Hn ltac:(done)). lia. }
  intros i ? f2 [-> HK]. apply fwp_bind. eapply fwp_mono; [exact HK|]. clear HK f2.
  intros j held f2 (-> & Hb2 & Hi & Hj & Hf2 & Ed2 & Hne & Hcl).
  eapply fwp_store_write; [exact Hb2|done|done|set_solver|].
  intros f3 Hb3 Hf3 Hw3 Him Hc3. set (V3 := img1 b _ V1) in *.
  assert (V3 b = image (disk f3) b) as Hcb by (rewrite Him; unfold V3, img1; by rewrite decide_True).
  assert (V3 (log_blk k) = image (disk f3) (log_blk k)) as Hcs.
  { rewrite (proj2 Hw3), Ed2. unfold V3. simpl. unfold img1. by rewrite !decide_False. }
  assert (∀ f4, bst f4 V3 (pinned r (Datatypes.S k) bs) [b; log_blk k] → bio_frame f3 f4 → disk f4 = disk f3 →
     (∀ j c, caches (metas f4) j c ↔ caches (metas f3) j c) →
     fwp s0 [] (brelse bcache i ;; brelse bcache j) f4 (λ _ held' f', held' = [] ∧ installed f V bs r (Datatypes.S k) f')) as Hend.
  { intros f4 Hb4 Hf4 Ed4 Hc4. eapply fwp_release_two; [exact Hb4|by right|by apply Hc4, Hc3|by apply Hc4, Hc3|right|right|]; [by rewrite Ed4..|].
    intros f5 Hb5 Hf5 Ed5. split; [done|]. unfold installed.
    rewrite (take_S_r _ _ _ (home_writes_lookup V bs k b Hk)), apply_writes_app. simpl.
    rewrite <- (home_writes_keeps V bs k (log_blk k)) by done. fold V1. fold V3. split_and!; [done| |].
    - do 4 (eapply bio_frame_trans; [eassumption|]). exact Hf5.
    - eapply wrote_app; [done|]. eapply wrote_disk; [|by transitivity (disk f4)]. destruct Hw3 as [E1 E2].
      split; [by rewrite E1, Ed2|]. intros x. by rewrite E2, Ed2. }
  apply fwp_bind. unfold pinned in Hb3, Hend. case_decide as Hr.
  - rewrite (drop_S _ _ _ Hk) in Hb3. eapply (bunpin_spec _ _ _ _ _ Hbase [] f3 V3 []); [exact Hb3|by apply Hc3|by right|set_solver|].
    intros f4 ????. by apply Hend.
  - apply fwp_ret. by apply Hend.
Qed.

(** [install_trans] copies every log block to its home block, in order. *)
Lemma install_trans_spec f V bs r (Q : unit → list lockid → fsst → Prop) :
  bst f V (pinned r 0 bs) [] → logged (log f) bs → (∀ b, b ∈ bs → ¬ in_log start b) →
  Z.of_nat (length bs) ≤ LOGBLOCKS → (r = 0 → Z.of_nat (length bs) < NBUF) →
  (∀ f', bst f' (apply_writes (home_writes start V bs) V) [] [] → bio_frame f f' →
     wrote (home_writes start V bs) f f' → Q tt [] f') →
  fwp s0 [] (install_trans patience bcache r) f Q.
Proof.
  intros Hb Hl Hhome Hcap Hn HQ. unfold install_trans. apply fwp_bind, fwp_get_log. rewrite (lg_n _ _ _ Hl), Nat2Z.id.
  eapply fwp_mono; [apply (fwp_for_each _ [] _ (λ t g, 0 ≤ t ∧ installed f V bs r (Z.to_nat t) g))|].
  - split; [done|]. split_and!; [done|done|by apply wrote_nil].
  - intros t g Ht [_ Hg]. destruct (lookup_lt_is_Some_2 bs (Z.to_nat t)) as [b Hk]; [lia|].
    pose proof (install_body f V bs r g _ b Hl Hhome Hcap Hn Hk Hg) as Hbody. rewrite Z2Nat.id in Hbody by lia.
    eapply fwp_mono; [exact Hbody|]. intros [] ? g' [-> Hg']. split; [done|]. split; [lia|].
    by replace (Z.to_nat (t + 1)) with (Datatypes.S (Z.to_nat t)) by lia.
  - intros [] ? g [-> [_ (Hg & Hf & Hw)]]. rewrite Z.add_0_l, Nat2Z.id in Hg, Hw.
    assert (length bs = length (home_writes start V bs)) as El by (unfold home_writes; by rewrite length_imap).
    rewrite El, firstn_all in Hg, Hw. apply HQ; [|done|done].
    unfold pinned in Hg. case_decide; [|done]. by rewrite <- El, drop_all in Hg.
Qed.

(** What recovery leaves alone. *)
Definition same_tables (f f' : fsst) : Prop := inodes f' = inodes f ∧ files f' = files f ∧ sb f' = sb f.

(** The log after [k] iterations of the loop of [read_head]. *)
Definition head_read (f1 : fsst) (bs : list Z) (k : nat) (g : fsst) : Prop :=
  ∃ l, g = set_log l f1 ∧ lstart l = start ∧ ldev l = 1 ∧ lh_n l = Z.of_nat (length bs) ∧
    length (lh_block l) = Z.to_nat LOGBLOCKS ∧ ∀ u b, (u < k)%nat → bs !! u = Some b → lh_block l !! u = Some b.

Lemma head_read_step f1 bs k b g : bs !! k = Some b → Z.of_nat (length bs) ≤ LOGBLOCKS → head_read f1 bs k g →
  fwp s0 [] (lh_put (Z.of_nat k) b) g (λ _ held' g', held' = [] ∧ head_read f1 bs (Datatypes.S k) g').
Proof.
  intros Hk Hcap (l & -> & Hs & Hd & Hn & Hlen & Hu). pose proof (lookup_lt_Some _ _ _ Hk) as Hlt. unfold lh_put.
  rewrite decide_True by lia. apply fwp_mod. split; [done|]. eexists. split; [done|]. simpl.
  split_and!; try done; [by rewrite length_insert|]. rewrite Nat2Z.id. intros u c Hu' Hc. destruct (decide (u = k)) as [->|].
  - rewrite list_lookup_insert_eq by lia. congruence.
  - rewrite list_lookup_insert_ne by done. apply Hu; [lia|done].
Qed.

(** [read_head] reads the header of a disk whose header lists [bs]. *)
Lemma read_head_spec f V bs0 bs (Q : unit → list lockid → fsst → Prop) :
  bst f V [] [] → logged (log f) bs0 → hdr_lists (V start) bs →
  Z.of_nat (length bs) ≤ LOGBLOCKS → Forall (λ b, 0 ≤ b < 2 ^ 31) bs →
  (∀ f', bst f' V [] [] → logged (log f') bs → wrote [] f f' → same_tables f f' → Q tt [] f') →
  fwp s0 [] (read_head patience bcache) f Q.
Proof.
  intros Hb Hl [Hn Hblk] Hcap Hnum HQ. unfold read_head. apply fwp_bind, fwp_get_log.
  pose proof (lg_where _ _ _ Hl) as Hw. rewrite (lg_dev _ _ _ Hl), (lg_start _ _ _ Hl).
  rewrite (u32_small 1), (u32_small start) by (change LOGBLOCKS with 30 in *; lia).
  apply fwp_bind. eapply fwp_mono; [by eapply (bread_spec _ _ _ _ _ _ Hbase Hlocks f V [] []); [done|set_solver|right]|].
  intros i ? f1 (-> & Hb1 & Hi & Hf1 & Ed1 & _). eapply fwp_buf_held; [done|done|]. intros x Ex _. rewrite Ex.
  unfold mod_log. apply fwp_bind, fwp_mod. apply fwp_bind, fwp_get_log. simpl. rewrite Hn, Nat2Z.id. apply fwp_bind.
  eapply fwp_mono; [apply (fwp_for_each _ [] _ (λ t g, 0 ≤ t ∧ head_read f1 bs (Z.to_nat t) g))|].
  - split; [done|]. eexists. split; [done|]. simpl. rewrite (proj1 Hf1). destruct Hl. split_and!; try done. intros; lia.
  - intros t g Ht [_ Hg]. destruct (lookup_lt_is_Some_2 bs (Z.to_nat t)) as [b Hk]; [lia|].
    pose proof (head_read_step f1 bs _ b g Hk Hcap Hg) as Hbody. pose proof (Hblk _ _ Hk) as <-. rewrite Z2Nat.id in Hbody by lia.
    eapply fwp_mono; [exact Hbody|]. intros [] ? g' [-> Hg']. split; [done|]. split; [lia|].
    by replace (Z.to_nat (t + 1)) with (Datatypes.S (Z.to_nat t)) by lia.
  - intros [] ? g [-> [_ (l & -> & Es & Ed & En & El & Hu)]]. rewrite Z.add_0_l, Nat2Z.id in Hu.
    assert (logged l bs) as Hl2 by (split; try done; intros t b Ht; apply Hu; [by eapply lookup_lt_Some|done]).
    eapply (brelse_spec _ _ _ _ _ Hbase Hlocks (set_log l f1) V [] [] [] i start); [exact Hb1|exact Hi| |].
    { right. change (disk (set_log l f1)) with (disk f1). rewrite Ed1. by apply (bst_idle _ _ _ _ _ _ _ Hb); set_solver. }
    intros f2 Hb2 Hf2 Ed2 _. apply HQ; [done| | |].
    + by rewrite (proj1 Hf2).
    + apply wrote_nil. by rewrite Ed2.
    + destruct Hf1 as (_ & A1 & A2 & A3 & _), Hf2 as (_ & B1 & B2 & B3 & _). unfold same_tables. cbn [set_log inodes files sb] in *. split_and!; congruence.
Qed.

Lemma logged_clear l bs : logged l bs → logged (set_lh_n 0 l) [].
Proof. intros []. by split. Qed.

Lemma recover_spec f V bs0 bs (Q : unit → list lockid → fsst → Prop) :
  bst f V [] [] → logged (log f) bs0 → hdr_lists (V start) bs → (∀ b, b ∈ bs → ¬ in_log start b) →
  Z.of_nat (length bs) ≤ LOGBLOCKS → Forall (λ b, 0 ≤ b < 2 ^ 31) bs →
  (∀ f', bst f' (apply_writes (recover_writes V bs) V) [] [] → logged (log f') [] →
     wrote (recover_writes V bs) f f' → same_tables f f' → Q tt [] f') →
  fwp s0 [] (recover_from_log patience bcache) f Q.
Proof.
  intros Hb Hl Hh Hhome Hcap Hnum HQ. unfold recover_from_log. apply fwp_bind.
  eapply (read_head_spec f V bs0 bs); [done..|]. intros f1 Hb1 Hl1 Hw1 Ht1. apply fwp_bind.
  eapply (install_trans_spec f1 V bs 1); [exact Hb1|done|done|done|done|]. intros f2 Hb2 Hf2 Hw2.
  unfold mod_log. apply fwp_bind, fwp_mod.
  assert (logged (log f2) bs) as Hl2 by by rewrite (proj1 Hf2). apply logged_clear in Hl2.
  set (f3 := set_log (set_lh_n 0 (log f2)) f2). set (V2 := apply_writes (home_writes start V bs) V) in *.
  assert (V2 start = V start) as Es.
  { apply apply_writes_notin. rewrite home_writes_fst. intros Hi%Hhome. apply Hi. unfold in_log, LOGBLOCKS, MAXOPBLOCKS. lia. }
  eapply (write_head_spec f3 V2 [] []); [exact Hb2|done|set_solver|done|]. intros f4 Hb4 Hf4 Hw4. rewrite Es in *.
  apply HQ.
  - unfold recover_writes. rewrite apply_writes_app. exact Hb4.
  - by rewrite (proj1 Hf4).
  - eapply (wrote_app []); [done|]. by eapply (wrote_app _ _ f1 f2).
  - destruct Ht1 as (A1 & A2 & A3), Hf2 as (_ & B1 & B2 & B3 & _), Hf4 as (_ & C1 & C2 & C3 & _). unfold same_tables, f3 in *. cbn [set_log inodes files sb] in *. split_and!; congruence.
Qed.

(** ** Commit *)

Lemma log_blk_in t : Z.of_nat t < LOGBLOCKS → in_log start (log_blk t).
Proof. unfold in_log, LogCrash.log_blk. lia. Qed.

(** With the log blocks written, copying them home stores [V]. *)
Lemma home_writes_logged V bs img : (∀ t b, bs !! t = Some b → img (log_blk t) = V b) →
  home_writes start img bs = map (λ b, (b, V b)) bs.
Proof.
  intros Hl. unfold home_writes. apply list_eq. intros t. rewrite list_lookup_imap, list_lookup_fmap.
  destruct (bs !! t) as [b|] eqn:E; [|done]. simpl. by rewrite (Hl t b).
Qed.

Lemma commit_spec f V bs (Q : unit → list lockid → fsst → Prop) :
  bst f V bs [] → logged (log f) bs → (∀ b, b ∈ bs → ¬ in_log start b) → 0 < Z.of_nat (length bs) < NBUF →
  (∀ f' V', bst f' V' [] [] → (∀ x, ¬ in_log start x → V' x = V x) → log f' = set_lh_n 0 (log f) →
     wrote (commit_writes V bs) f f' → Q tt [] f') →
  fwp s0 [] (commit patience bcache) f Q.
Proof.
  intros Hb Hl Hhome Hn HQ. assert (Z.of_nat (length bs) ≤ LOGBLOCKS) as Hcap by (change LOGBLOCKS with NBUF; lia).
  unfold commit. apply fwp_bind, fwp_get_log. rewrite (lg_n _ _ _ Hl), decide_True by lia.
  apply fwp_bind. eapply (write_log_spec f V bs); [done|done|done|lia|]. intros f1 (Hb1 & Hf1 & Hw1).
  assert (length bs = length (log_writes start V bs)) as El by (unfold log_writes; by rewrite length_imap).
  rewrite El, firstn_all in Hb1, Hw1. set (V1 := apply_writes _ V) in *.
  assert (V1 start = V start) as E1 by by apply log_writes_start.
  apply fwp_bind. eapply (write_head_spec f1 V1 bs bs); [done|by rewrite (proj1 Hf1)|intros Hi%Hhome; by apply Hi, start_in_log|lia|].
  intros f2 Hb2 Hf2 Hw2. rewrite E1 in *. set (V2 := img1 start _ V1) in *.
  assert (∀ t b, bs !! t = Some b → V2 (log_blk t) = V b) as Hlog.
  { intros t b Ht. unfold V2, img1. rewrite decide_False by (unfold LogCrash.log_blk; lia). by apply log_writes_val. }
  apply fwp_bind. eapply (install_trans_spec f2 V2 bs 0); [exact Hb2|by rewrite (proj1 Hf2), (proj1 Hf1)|done|done|lia|].
  rewrite (home_writes_logged V bs V2 Hlog). intros f3 Hb3 Hf3 Hw3. unfold mod_log. apply fwp_bind, fwp_mod.
  set (V3 := apply_writes _ V2) in *. set (f3' := set_log _ f3).
  assert (∀ x, x ∉ bs → V3 x = V2 x) as E3.
  { intros x Hx. apply apply_writes_notin. intros ([c e] & -> & Hc)%list_elem_of_fmap.
    apply list_elem_of_fmap in Hc as (? & [= -> ->] & ?). done. }
  assert (V3 start = put_header bs (V start)) as Es.
  { rewrite E3 by (intros Hi%Hhome; by apply Hi, start_in_log). unfold V2, img1. by rewrite decide_True. }
  assert (log f3 = log f) as Elog by by rewrite (proj1 Hf3), (proj1 Hf2), (proj1 Hf1).
  eapply (write_head_spec f3' V3 [] []); [exact Hb3|simpl; rewrite Elog; by eapply logged_clear|set_solver|done|].
  intros f4 Hb4 Hf4 Hw4. rewrite Es in *. eapply HQ; [exact Hb4| | |].
  - intros x Hx. unfold img1. rewrite decide_False by (intros ->; by apply Hx, start_in_log).
    destruct (decide (x ∈ bs)) as [Hin|Hin].
    + apply apply_writes_const; [|right; apply list_elem_of_fmap; exists (x, V x); split; [done|]; apply list_elem_of_fmap; eauto].
      intros e (y & [= -> ->] & _)%list_elem_of_fmap. done.
    + rewrite E3 by done. unfold V2, img1. rewrite decide_False by (intros ->; by apply Hx, start_in_log). by apply log_writes_home.
  - rewrite (proj1 Hf4). simpl. by rewrite Elog.
  - unfold commit_writes. eapply wrote_app; [done|]. eapply wrote_app; [done|]. by eapply (wrote_app _ _ f2 f3).
Qed.

(** ** Transactions *)

(** The log after [log_write] of block [b]. *)
Definition log_add (b : Z) (bs : list Z) : list Z := if decide (b ∈ bs) then bs else bs ++ [b].

Lemma i32_id b : 0 ≤ b < 2 ^ 31 → i32 b = b.
Proof. intros. apply i32_small. lia. Qed.

(** The search of [log_write]. *)
Lemma log_find f bs b held (Q : option Z → list lockid → fsst → Prop) :
  logged (log f) bs →
  (∀ t, bs !! t = Some b → Q (Some (Z.of_nat t)) held f) → (b ∉ bs → Q None held f) →
  fwp s0 held (for_loop (length bs) 0 (λ i, v <- lh_get i ;; ret (if decide (u32 v = b) then Some i else None))) f Q.
Proof.
  intros Hl HS HN.
  apply (fwp_for_loop _ held _ (λ t g, 0 ≤ t ∧ g = f ∧ ∀ u, (u < Z.to_nat t)%nat → bs !! u ≠ Some b)).
  - split_and!; [done|done|lia].
  - intros t g Ht (_ & -> & Hu). destruct (lookup_lt_is_Some_2 bs (Z.to_nat t)) as [c Hk]; [lia|].
    apply fwp_bind. rewrite <- (Z2Nat.id t) at 1 by lia. eapply fwp_lh_get; [done|exact Hk|]. apply fwp_ret.
    pose proof (proj1 (Forall_lookup _ _) (lg_nums _ _ _ Hl) _ _ Hk) as Hc. cbv beta in Hc. rewrite (u32_small c) by lia.
    destruct (decide (c = b)) as [->|Hne]; [rewrite <- (Z2Nat.id t) by lia; by apply HS|].
    split_and!; [done|lia|done|]. intros u Hu'. destruct (decide (u = Z.to_nat t)) as [->|]; [congruence|apply Hu; lia].
  - intros g (_ & -> & Hu). apply HN. intros (u & Hk)%list_elem_of_lookup. apply (Hu u); [|done].
    apply lookup_lt_Some in Hk. lia.
Qed.

Lemma logged_same l bs t b : logged l bs → bs !! t = Some b → logged (set_lh_block (<[t := b]> (lh_block l)) l) bs.
Proof.
  intros Hl Ht. destruct Hl as [? ? ? ? Hb ? ?]. split; simpl; try done; [by rewrite length_insert|].
  intros u c Hu. destruct (decide (u = t)) as [->|]; [|rewrite list_lookup_insert_ne by done; auto].
  rewrite list_lookup_insert_eq; [congruence|]. apply Hb in Ht. by eapply lookup_lt_Some.
Qed.

Lemma logged_snoc l bs b : logged l bs → Z.of_nat (length bs) < LOGBLOCKS → 0 ≤ b < 2 ^ 31 →
  logged (set_lh_n (i32 (lh_n l + 1)) (set_lh_block (<[length bs := b]> (lh_block l)) l)) (bs ++ [b]).
Proof.
  intros Hl Hn Hbn. destruct Hl as [? ? En Ec Hb Hnum ?]. split; simpl; try done.
  - rewrite En, length_app, i32_id; simpl; change LOGBLOCKS with 30 in *; lia.
  - by rewrite length_insert.
  - intros u c Hu. destruct (decide (u = length bs)) as [->|].
    + rewrite list_lookup_insert_eq by lia. rewrite list_lookup_middle in Hu by done. done.
    + rewrite list_lookup_insert_ne by done. apply Hb. apply lookup_app_Some in Hu as [?|[? Hu]]; [done|].
      destruct (u - length bs)%nat eqn:E; simpl in Hu; [lia|done].
  - apply Forall_app. auto.
Qed.

(** [log_write] pins the block and records it once. *)
Lemma log_write_spec f V bs X i b (Q : unit → list lockid → fsst → Prop) :
  bst f V bs X → logged (log f) bs → caches (metas f) i b → 0 ≤ b < 2 ^ 31 →
  Z.of_nat (length bs) < LOGBLOCKS → 1 ≤ outstanding (log f) →
  (∀ f', bst f' V (log_add b bs) X → logged (log f') (log_add b bs) → outstanding (log f') = outstanding (log f) →
     committing (log f') = committing (log f) → bio_frame (set_log (log f') f) f' → disk f' = disk f →
     (∀ j c, caches (metas f') j c ↔ caches (metas f) j c) → Q tt [] f') →
  fwp s0 [] (log_write i) f Q.
Proof.
  intros Hb Hl Hi Hbn Hn Ho HQ. destruct (bst_buf _ _ _ _ _ _ _ _ Hb Hi) as (x & Hx & _ & Eb & _ & _).
  unfold log_write. apply fwp_bind, (fwp_acquire _ _ _ _ Hbase); [apply fs_lock_log|set_solver|].
  apply fwp_bind, fwp_get_log. rewrite (lg_n _ _ _ Hl), decide_False, decide_False, Nat2Z.id by lia.
  apply fwp_bind. eapply fwp_buf_at; [done|]. rewrite Eb. apply fwp_bind.
  apply (log_find f bs b); [done| |]; unfold lh_put, mod_log; rewrite ?i32_id by done.
  - intros t Ht. pose proof (lookup_lt_Some _ _ _ Ht). rewrite decide_True, Nat2Z.id by lia. apply fwp_bind, fwp_mod.
    rewrite decide_False by lia. apply fwp_bind, fwp_ret. apply (fwp_release _ _ _ _ Hbase); [apply fs_lock_log|set_solver|].
    assert (log_add b bs = bs) as El by (unfold log_add; rewrite decide_True; [done|by eapply list_elem_of_lookup_2]).
    apply HQ; try done; rewrite El; [done|by apply logged_same].
  - intros HbP. rewrite decide_True, Nat2Z.id by lia. apply fwp_bind, fwp_mod. rewrite decide_True by done.
    set (f1 := set_log _ f). apply fwp_bind, fwp_bind.
    eapply (bpin_spec _ _ _ _ _ Hbase [L_log] f1 V bs X i b); [exact Hb|exact Hi|done|set_solver|].
    intros f2 Hb2 Hf2 Ed2 Hc2. apply fwp_mod. apply (fwp_release _ _ _ _ Hbase); [apply fs_lock_log|set_solver|].
    assert (log_add b bs = bs ++ [b]) as El by (unfold log_add; by rewrite decide_False).
    destruct Hf2 as (Elog & E2 & E3 & E4 & E5).
    apply HQ; rewrite ?El; simpl; rewrite ?Elog; try done. by apply (logged_snoc (log f)).
Qed.

(** [begin_op] when there is room in the log. *)
Lemma begin_op_spec f bs (Q : unit → list lockid → fsst → Prop) :
  logged (log f) bs → committing (log f) = 0 → 0 ≤ outstanding (log f) →
  Z.of_nat (length bs) + (outstanding (log f) + 1) * MAXOPBLOCKS ≤ LOGBLOCKS →
  Q tt [] (set_log (set_outstanding (outstanding (log f) + 1) (log f)) f) →
  fwp s0 [] (begin_op patience logaddr) f Q.
Proof.
  intros Hl Hc Ho Hroom HQ. unfold begin_op. apply fwp_bind, (fwp_acquire _ _ _ _ Hbase); [apply fs_lock_log|set_solver|].
  cbn [begin_op_loop]. apply fwp_bind, fwp_get_log. rewrite Hc, decide_False, (lg_n _ _ _ Hl), decide_False by lia.
  unfold mod_log. apply fwp_bind, fwp_mod, (fwp_release _ _ _ _ Hbase); [apply fs_lock_log|set_solver|].
  rewrite i32_id; [done|]. change LOGBLOCKS with 30 in Hroom. change MAXOPBLOCKS with 10 in Hroom. lia.
Qed.

Definition end_writes (V : Z → list Z) (bs : list Z) : list (Z * list Z) :=
  match bs with [] => [] | _ => commit_writes V bs end.

(** [commit], also of an empty transaction. *)
Lemma commit_spec' f V bs (Q : unit → list lockid → fsst → Prop) :
  bst f V bs [] → logged (log f) bs → (∀ b, b ∈ bs → ¬ in_log start b) → Z.of_nat (length bs) < NBUF →
  (∀ f' V', bst f' V' [] [] → (∀ x, ¬ in_log start x → V' x = V x) → log f' = set_lh_n 0 (log f) →
     wrote (end_writes V bs) f f' → Q tt [] f') →
  fwp s0 [] (commit patience bcache) f Q.
Proof.
  intros Hb Hl Hhome Hn HQ. destruct bs as [|b bs].
  - unfold commit. apply fwp_bind, fwp_get_log. rewrite (lg_n _ _ _ Hl), decide_False by done. apply fwp_ret.
    apply (HQ f V); [done|done| |by apply wrote_nil]. pose proof (lg_n _ _ _ Hl) as En. by destruct (log f); simpl in *; subst.
  - apply (commit_spec f V (b :: bs)); [done|done|done|simpl in *; lia|done].
Qed.

(** [end_op] of the last outstanding operation. *)
Lemma end_op_spec f V bs (Q : unit → list lockid → fsst → Prop) :
  bst f V bs [] → logged (log f) bs → outstanding (log f) = 1 → committing (log f) = 0 →
  (∀ b, b ∈ bs → ¬ in_log start b) → Z.of_nat (length bs) < NBUF →
  (∀ f' V', bst f' V' [] [] → (∀ x, ¬ in_log start x → V' x = V x) →
     logged (log f') [] → outstanding (log f') = 0 → committing (log f') = 0 → wrote (end_writes V bs) f f' → Q tt [] f') →
  fwp s0 [] (end_op patience bcache logaddr) f Q.
Proof.
  intros Hb Hl Ho Hc Hhome Hn HQ. unfold end_op, mod_log.
  apply fwp_bind, (fwp_acquire _ _ _ _ Hbase); [apply fs_lock_log|set_solver|].
  apply fwp_bind, fwp_mod. apply fwp_bind, fwp_get_log. simpl. rewrite Ho, Hc. change (i32 (1 - 1)) with 0.
  rewrite decide_False, decide_True by lia. apply fwp_bind, fwp_bind, fwp_mod, fwp_ret.
  apply fwp_bind, (fwp_release _ _ _ _ Hbase); [apply fs_lock_log|set_solver|].
  set (f1 := set_log _ (set_log _ f)). apply fwp_bind.
  apply (commit_spec' f1 V bs); [exact Hb|by destruct Hl; split|done|done|]. intros f2 V2 Hb2 HV2 El2 Hw2.
  apply fwp_bind, (fwp_acquire _ _ _ _ Hbase); [apply fs_lock_log|set_solver|].
  apply fwp_bind, fwp_mod. apply fwp_bind, (fwp_wakeup _ _ _ _ Hbase); [constructor; [apply fs_lock_log|constructor]|].
  apply (fwp_release _ _ _ _ Hbase); [apply fs_lock_log|set_solver|].
  apply (HQ _ V2); [exact Hb2|done| | |done|exact Hw2]; simpl; rewrite El2; [|done]. by destruct Hl; split.
Qed.

End Spec.
