(* ===== verification/FsExample.v ===== *)
(** * A concrete file system state

    The machine of AddressSpace.v with an empty buffer cache, an empty log and
    any disk contents; the input at which the file-system properties are
    evaluated. *)

From S2P Require Import Prelude Params CString Spinlock ProcDefs WaitQueue Sched Memory AddressSpace Pipe FsDefs Seq Sleeplock Bio Log Fs Dll BioInv BioSpec.

Definition ex_bcache : Z := 0x80020000.
Definition ex_itable : Z := 0x80030000.
Definition ex_sleeplocks : list Z := (b_lock ex_bcache <$> seq 0 30) ++ (i_lock ex_itable <$> seq 0 50).

Definition ex_fs_locks : list lockid := [L_bcache; L_itable; L_ftable; L_log] ++ (L_sleep <$> ex_sleeplocks).
Definition add_locks (ids : list lockid) (h : hw) : hw := foldr (λ l, set_lock l (mkSpinlock false "lock" None)) h ids.
Definition ex_fs_hw : hw := hw_settle (add_locks ex_fs_locks ex_vm_hw).

Definition ex_buf (i : nat) : buf := mkBuf 0 0 0 0 0 (i + 1) (if decide (i = 0%nat) then 30 else (i - 1))%nat [].

(* after binit, iinit and fileinit, with the log at block 2 *)
Definition ex_fs (img : Z → list Z) : fsst :=
  mkFs (list_to_map ((λ a, (a, mkSlock 0 "sleep lock" 0)) <$> ex_sleeplocks)) (ex_buf <$> seq 0 30) (0%nat, 29%nat)
    (mkLog 2 0 0 1 0 (replicate 30 0))
    (replicate 50 (mkInode 0 0 0 0 0 0 0 0 0 (replicate 13 0))) (replicate 100 (mkFile FD_NONE 0 0 0 0 None 0 0))
    (mkSb FSMAGIC FSSIZE 1954 200 31 2 33 46) (mkDisk img []).

Definition ex_kst : kst := mkKst ex_fs_hw ex_vm_table (mkPmem ex_links (ex_page 1)) (ex_fs (λ _, replicate 1024 0)).

Lemma free_add_locks ids h lk : lk ∈ ids ∨ lock_free lk h → lock_free lk (add_locks ids h).
Proof.
  induction ids as [|l ids IH]; intros Hl; simpl; [destruct Hl as [Hl|]; [by apply elem_of_nil in Hl|done]|].
  unfold lock_free. cbn [locks set_lock]. destruct (decide (lk = l)) as [->|Hne].
  - exists "lock". by rewrite lookup_insert_eq.
  - rewrite lookup_insert_ne by done. apply IH. destruct Hl as [[?|?]%elem_of_cons|?]; auto. done.
Qed.

Lemma add_locks_cpus ids h : tp (add_locks ids h) = tp h ∧ cpus (add_locks ids h) = cpus h.
Proof. by induction ids. Qed.

Lemma ex_fs_free lk : lk ∈ ex_fs_locks ∨ lock_free lk ex_vm_hw → lock_free lk ex_fs_hw.
Proof. intros Hl. by apply lock_free_settle, free_add_locks. Qed.

Lemma ex_fs_base_of pt pm f q : quiet (mkKmem ex_vm_hw pt pm) → procs pt !! 1%nat = Some q →
  (∀ i p, procs pt !! i = Some p → state p ≠ SLEEPING) → seq_base (mkKst ex_fs_hw pt pm f) 1 q ex_sleeplocks.
Proof.
  intros [Hc Hw Hp Hi] Hq Ha. destruct (add_locks_cpus ex_fs_locks ex_vm_hw) as [Et Ec].
  split.
  - split.
    + apply cpu_ok_settle. destruct Hc as (c & Hc & Hn). exists c. split; [|done]. by rewrite Et, Ec.
    + intros b Hb. by apply ex_fs_free; right; apply Hw.
    + intros j q' Hj. eapply ex_fs_free. right. eapply (Hp j q'), Hj.
    + exact Hi.
  - apply hw_settle_settle.
  - reflexivity.
  - exact Hq.
  - exact Ha.
  - intros lk Hlk. apply ex_fs_free. left. apply elem_of_app. destruct Hlk as [?|(a & ? & ->)]; [by left|right].
    by apply list_elem_of_fmap_2.
Qed.

Lemma ex_fs_base : seq_base ex_kst 1 ex_vm_proc ex_sleeplocks.
Proof.
  apply ex_fs_base_of; [apply ex_vm_quiet|reflexivity|]. intros i p. do 4 (destruct i as [|i]; [by intros [= <-]|]). done.
Qed.

(** The same with the process of AddressSpace.v that has a page at address 0. *)
Definition ex_ukst : kst := mkKst ex_fs_hw ex_user_table (mkPmem ex_mem2 (ex_page 1)) (ex_fs (λ _, replicate 1024 0)).

Lemma ex_ufs_base : seq_base ex_ukst 1 ex_user_proc ex_sleeplocks.
Proof.
  apply ex_fs_base_of; [apply ex_user_quiet|reflexivity|]. intros i p. do 4 (destruct i as [|i]; [by intros [= <-]|]). done.
Qed.

Lemma ex_fs_buf_locks i : (i < HEAD)%nat → b_lock ex_bcache i ∈ ex_sleeplocks.
Proof. intros Hi. apply elem_of_app. left. apply list_elem_of_fmap. exists i. split; [done|]. apply elem_of_seq. change HEAD with 30%nat in Hi. lia. Qed.

Lemma ex_fs_slock img a : a ∈ ex_sleeplocks → slocks (ex_fs img) !! a = Some (mkSlock 0 "sleep lock" 0).
Proof.
  intros Ha. apply elem_of_list_to_map_1.
  - rewrite <- list_fmap_compose, list_fmap_id. apply (bool_decide_unpack _). vm_compute. exact I.
  - apply list_elem_of_fmap. eauto.
Qed.

Lemma ex_fs_lru img : lru (ex_fs img) (reverse (seq 0 30)).
Proof.
  split_and!; [reflexivity| |].
  - split_and!; [repeat split|repeat split|apply (bool_decide_unpack _); vm_compute; exact I].
  - intros i. rewrite elem_of_reverse, elem_of_seq. change HEAD with 30%nat. lia.
Qed.

Lemma ex_fs_bst img : bst ex_vm_proc ex_bcache (ex_fs img) img [] [].
Proof.
  split; [eexists; apply ex_fs_lru|].
  assert (∀ i x, metas (ex_fs img) !! i = Some x → bdev x = 0 ∧ refcnt x = 0 ∧ (i < 30)%nat) as Hx.
  { intros i x Hx. pose proof Hx as Hl%lookup_lt_Some. change (length (metas (ex_fs img))) with 30%nat in Hl.
    do 30 (destruct i as [|i]; [by injection Hx as <-|]). lia. }
  split.
  - intros i x Hi. destruct (Hx i x Hi) as (Hd & _ & Hl). exists "sleep lock", 0.
    rewrite bool_decide_eq_false_2 by (intros [? _]; lia). split; [|lia]. by apply ex_fs_slock, ex_fs_buf_locks.
  - intros i x Hi ?. destruct (Hx i x Hi). lia.
  - intros i x Hi ?. destruct (Hx i x Hi). lia.
  - intros i x Hi ?. destruct (Hx i x Hi). lia.
  - intros i x Hi ?. by destruct (Hx i x Hi) as (? & ? & _).
  - intros i j x y Hi ? ?. destruct (Hx i x Hi). lia.
  - intros b _. split_and!; [done|apply not_elem_of_nil..].
  - constructor.
  - constructor.
Qed.
