(* ===== verification/LogTheorems.v ===== *)
(** * Crash safety of the file system

    The theorems on log.c and on the buffer cache beneath it. *)

From S2P Require Import Prelude Params CString Spinlock ProcDefs WaitQueue Sched Memory FsDefs Seq Sleeplock Bio BioInv BioSpec Log LogCrash LogSpec AddressSpace FsExample.

(** The file system is idle but for the calling process. *)
Record fs_env {S} `{HasFs S} (s0 : S) (me : nat) (mep : proc) (sleeplocks : list Z) (bcache : Z) : Prop := mkEnv {
  fe_base : seq_base s0 me mep sleeplocks;
  fe_locks : ∀ i, (i < HEAD)%nat → b_lock bcache i ∈ sleeplocks;
}.

(** One operation is open; it has changed the blocks [bs], which the cache
    holds with contents [V]; the log on disk is empty. *)
Record transaction (mep : proc) (bcache start : Z) (f : fsst) (V : Z → list Z) (bs : list Z) : Prop := mkTx {
  tx_cache : bst mep bcache f V bs [];
  tx_log : logged start (log f) bs;
  tx_open : outstanding (log f) = 1;
  tx_idle : committing (log f) = 0;
  tx_home : ∀ b, b ∈ bs → ¬ in_log start b;
  tx_fit : Z.of_nat (length bs) < NBUF;
  tx_clear : hdr_n (image (disk f) start) = 0;
  tx_block : Z.of_nat (length (image (disk f) start)) = BSIZE;
}.

(** A machine that has just booted from a disk with contents [img]. *)
Record booted (mep : proc) (bcache start : Z) (img : Z → list Z) (g : fsst) : Prop := mkBooted {
  bo_cache : bst mep bcache g (image (disk g)) [] [];
  bo_log : logged start (log g) [];
  bo_disk : ∀ x, image (disk g) x = img x;
}.

Section Recovery.
Context {S : Type} `{HasFs S}.
Variables (s0 : S) (me : nat) (mep : proc) (sleeplocks : list Z) (patience : nat) (bcache start : Z).
Hypothesis Henv : fs_env s0 me mep sleeplocks bcache.

(** What [recover_from_log] does on a disk whose header lists [bs]. *)
Lemma recover_replays g img bs :
  booted mep bcache start img g → hdr_lists (img start) bs → (∀ b, b ∈ bs → ¬ in_log start b) →
  Z.of_nat (length bs) ≤ LOGBLOCKS → Forall (λ b, 0 ≤ b < 2 ^ 31) bs → BSIZE ≤ Z.of_nat (length (img start)) →
  ∃ g' V', recover_from_log patience bcache (st s0 [] g) = Ok tt (st s0 [] g') ∧
    bst mep bcache g' V' [] [] ∧ logged start (log g') [] ∧ wrote (recover_writes start img bs) g g' ∧
    (∀ x, ¬ in_log start x → image (disk g') x = replay start img x) ∧ hdr_n (image (disk g') start) = 0.
Proof.
  intros [Hb Hl Hd] Hh Hhome Hcap Hnum Hlen. destruct Henv as [Hbase Hlocks].
  enough (fwp s0 [] (recover_from_log patience bcache) g (λ _ held' g', held' = [] ∧ ∃ V',
    bst mep bcache g' V' [] [] ∧ logged start (log g') [] ∧ wrote (recover_writes start img bs) g g')) as
    ([] & ? & g' & E & -> & V' & Hb' & Hl' & Hw).
  { exists g', V'. split_and!; try done.
    - intros x Hx. rewrite (proj2 Hw). unfold recover_writes. rewrite apply_writes_app. simpl. unfold img1.
      rewrite decide_False by (intros ->; by apply Hx, start_in_log). unfold replay. rewrite (hdr_lists_listed _ bs) by done.
      by apply apply_writes_ext.
    - rewrite (proj2 Hw). unfold recover_writes. rewrite apply_writes_app. simpl. unfold img1. rewrite decide_True by done.
      by destruct (put_header_lists [] (img start)) as [-> _]. }
  eapply bst_ext in Hb; [|exact Hd].
  eapply (recover_spec _ _ _ _ _ _ Hbase Hlocks start g img [] bs); [done..|]. intros g' Hb' Hl' Hw' _. split; [done|]. eauto.
Qed.

End Recovery.

(** What a prefix of the writes of a transaction leaves on disk. *)
Section Prefix.
Variables (mep : proc) (bcache start : Z) (f : fsst) (V : Z → list Z) (bs : list Z).
Hypothesis Htx : transaction mep bcache start f V bs.
Notation img0 := (image (disk f)).

Lemma tx_same x : ¬ in_log start x → x ∉ bs → V x = img0 x.
Proof. intros _ Hx. eapply bst_idle; [apply Htx|done|set_solver]. Qed.
Lemma tx_start : V start = img0 start.
Proof. eapply bst_idle; [apply Htx| |set_solver]. intros Hi%(tx_home _ _ _ _ _ _ Htx). by apply Hi, start_in_log. Qed.
Lemma tx_cap : Z.of_nat (length bs) ≤ LOGBLOCKS.
Proof. pose proof (tx_fit _ _ _ _ _ _ Htx). change LOGBLOCKS with NBUF. lia. Qed.

Lemma end_writes_prefix ws : ws `prefix_of` end_writes start V bs → ws `prefix_of` commit_writes start V bs ∧ (bs = [] → ws = []).
Proof.
  unfold end_writes. destruct bs; [|done]. intros Hp. apply prefix_nil_inv in Hp as ->. split; [apply prefix_nil|done].
Qed.

Lemma tx_prefix ws : ws `prefix_of` end_writes start V bs →
  (∃ bs', hdr_lists (apply_writes ws img0 start) bs' ∧ (bs' = [] ∨ bs' = bs)) ∧
  BSIZE ≤ Z.of_nat (length (apply_writes ws img0 start)) ∧
  ((∀ x, ¬ in_log start x → replay start (apply_writes ws img0) x = img0 x) ∨
   (∀ x, ¬ in_log start x → replay start (apply_writes ws img0) x = V x)).
Proof.
  intros [Hp _]%end_writes_prefix. destruct Htx as [Hb Hl Ho Hc Hhome Hn Hclr Hlen].
  pose proof (lg_nums _ _ _ Hl). pose proof tx_same. pose proof tx_start. pose proof tx_cap.
  split_and!; [eapply commit_prefix_hdr|eapply commit_prefix_size|eapply commit_prefix]; eauto; lia.
Qed.

Lemma tx_all x : ¬ in_log start x → apply_writes (end_writes start V bs) img0 x = V x.
Proof.
  intros Hx. pose proof tx_same as Hs. pose proof (tx_home _ _ _ _ _ _ Htx) as Hh. pose proof tx_cap as Hcap.
  unfold end_writes. destruct bs as [|b l] eqn:E; [simpl; symmetry; apply Hs; [done|apply not_elem_of_nil]|].
  apply commit_all; done.
Qed.

Lemma tx_cleared : hdr_n (apply_writes (end_writes start V bs) img0 start) = 0.
Proof.
  destruct Htx as [_ _ _ _ _ _ Hclr Hlen]. pose proof tx_start as Es. unfold end_writes. destruct bs as [|b l] eqn:E; [done|].
  unfold commit_writes. rewrite !app_assoc, apply_writes_app. simpl. unfold img1. rewrite decide_True by done.
  destruct (put_header_lists [] (put_header (b :: l) (V start))) as [-> _]; [done| |done|done].
  rewrite length_put_header, Es. lia.
Qed.

End Prefix.

(** ** An example transaction: block 50 gets new contents *)

Definition ex_zero : list Z := replicate 1024 0.
Definition ex_ones : list Z := replicate 1024 1.

Lemma ex_fs_env : fs_env ex_kst 1 ex_vm_proc ex_sleeplocks ex_bcache.
Proof. split; [apply ex_fs_base|apply ex_fs_buf_locks]. Qed.

Lemma ex_fs_logged img : logged 2 (log (ex_fs img)) [].
Proof. by split. Qed.

Lemma ex_booted img : booted ex_vm_proc ex_bcache 2 img (ex_fs img).
Proof. split; [apply ex_fs_bst|apply ex_fs_logged|done]. Qed.

Lemma ex_transaction : ∃ f, transaction ex_vm_proc ex_bcache 2 f (img1 50 ex_ones (λ _, ex_zero)) [50] ∧
  ∀ x, image (disk f) x = ex_zero.
Proof.
  pose proof ex_fs_env as [Hbase Hlocks]. set (f0 := set_log (set_outstanding 1 (log (ex_fs (λ _, ex_zero)))) (ex_fs (λ _, ex_zero))).
  enough (fwp ex_kst [] (i <- bread 0 ex_bcache 1 50 ;; mod_buf i (set_data ex_ones) ;; log_write i ;; brelse ex_bcache i) f0
    (λ _ _ f, transaction ex_vm_proc ex_bcache 2 f (img1 50 ex_ones (λ _, ex_zero)) [50] ∧ ∀ x, image (disk f) x = ex_zero)) as
    (_ & _ & f & _ & Hf) by by exists f.
  assert (bst ex_vm_proc ex_bcache f0 (λ _, ex_zero) [] []) as Hb0 by exact (ex_fs_bst (λ _, ex_zero)).
  apply fwp_bind. eapply fwp_mono; [apply (bread_spec _ _ _ _ _ _ Hbase Hlocks f0 _ [] [] 50 Hb0); [apply not_elem_of_nil|by right]|].
  intros i ? f1 (-> & Hb1 & Hi1 & Hf1 & Ed1 & _). apply fwp_bind.
  eapply fwp_set_data; [exact Hb1|done|by left|]. intros f2 Hb2 Hf2 Ed2 Hc2. apply fwp_bind.
  assert (log f2 = log f0) as El2 by by rewrite (proj1 Hf2), (proj1 Hf1).
  eapply (log_write_spec _ _ _ _ _ Hbase Hlocks 2 f2 _ [] [50] i 50); [exact Hb2|by rewrite El2|by apply Hc2|done|done|by rewrite El2|].
  intros f3 Hb3 Hl3 Eo3 Ec3 _ Ed3 Hc3.
  eapply (brelse_spec _ _ _ _ _ Hbase Hlocks f3 _ [50] [] [] i 50); [exact Hb3|by apply Hc3, Hc2|left; by left|].
  intros f4 Hb4 Hf4 Ed4 _.
  assert (∀ x, image (disk f4) x = ex_zero) as Him by (intros x; by rewrite Ed4, Ed3, Ed2, Ed1).
  split; [|done]. split; rewrite ?(proj1 Hf4), ?Eo3, ?Ec3, ?El2, ?Him; try done.
  intros b ->%list_elem_of_singleton. unfold in_log, LOGBLOCKS, MAXOPBLOCKS. lia.
Qed.

(** C5 Crash atomicity: [end_op] of a transaction returns with the log empty
    and the new contents on their home blocks; and whatever prefix of its
    block writes had reached the disk when the machine stopped,
    [recover_from_log] at the next boot returns and leaves the home blocks
    with either all their old or all their new contents. *)
Theorem end_op_atomic {S} `{HasFs S} (s0 : S) me mep sleeplocks patience bcache logaddr start f V bs :
  fs_env s0 me mep sleeplocks bcache → transaction mep bcache start f V bs →
  ∃ f' ws, end_op patience bcache logaddr (st s0 [] f) = Ok tt (st s0 [] f') ∧
    writes (disk f') = writes (disk f) ++ ws ∧
    (∀ x, ¬ in_log start x → image (disk f') x = V x) ∧ logged start (log f') [] ∧ hdr_n (image (disk f') start) = 0 ∧
    ∀ ws1 g, ws1 `prefix_of` ws → booted mep bcache start (apply_writes ws1 (image (disk f))) g →
      ∃ g', recover_from_log patience bcache (st s0 [] g) = Ok tt (st s0 [] g') ∧
        ((∀ x, ¬ in_log start x → image (disk g') x = image (disk f) x) ∨
         (∀ x, ¬ in_log start x → image (disk g') x = V x)).
Proof.
  intros Henv Htx. pose proof Henv as [Hbase Hlocks]. pose proof Htx as [Hb Hl Ho Hc Hhome Hn Hclr Hlen].
  enough (fwp s0 [] (end_op patience bcache logaddr) f (λ _ held' f', held' = [] ∧
    logged start (log f') [] ∧ wrote (end_writes start V bs) f f')) as ([] & ? & f' & E & -> & Hl' & [Ew Hw]).
  2:{ eapply (end_op_spec _ _ _ _ _ _ _ Hbase Hlocks start f V bs); [done..|]. auto. }
  exists f', (end_writes start V bs). split_and!; try done.
  - intros x Hx. rewrite Hw. by eapply tx_all.
  - rewrite Hw. by eapply tx_cleared.
  - intros ws g Hp Hg. destruct (tx_prefix _ _ _ _ _ _ Htx ws Hp) as ((bs' & Hh & Hbs) & Hsz & Hr).
    destruct (recover_replays s0 me mep sleeplocks patience bcache start Henv g _ bs' Hg Hh) as (g' & V' & Er & _ & _ & _ & Hi & _).
    + destruct Hbs as [->| ->]; [intros b Hin; by apply elem_of_nil in Hin|done].
    + destruct Hbs as [->| ->]; [done|by eapply tx_cap].
    + destruct Hbs as [->| ->]; [constructor|apply (lg_nums _ _ _ Hl)].
    + done.
    + exists g'. split; [done|]. destruct Hr as [Hr|Hr]; [left|right]; intros x Hx; rewrite Hi by done; auto.
Qed.

Lemma end_op_atomic_witness : ∃ f f', (∀ x, image (disk f) x = ex_zero) ∧
  end_op 0 ex_bcache 4096 (st ex_kst [] f) = Ok tt (st ex_kst [] f') ∧ image (disk f') 50 = ex_ones.
Proof.
  destruct ex_transaction as (f & Htx & Him).
  destruct (end_op_atomic ex_kst 1 ex_vm_proc ex_sleeplocks 0 ex_bcache 4096 2 f _ [50] ex_fs_env Htx) as (f' & ws & E & _ & Hi & _).
  exists f, f'. split; [exact Him|]. split; [exact E|]. rewrite Hi; [reflexivity|].
  unfold in_log, LOGBLOCKS, MAXOPBLOCKS. lia.
Defined.

(** C15 Recovery is idempotent: on a disk whose log header lists blocks outside
    the log, [recover_from_log] returns, gives the home blocks the contents of
    the log blocks and empties the log; and whatever prefix of its own writes
    reaches the disk before another crash, recovering again gives the same
    home blocks. *)
Theorem recovery_idempotent {S} `{HasFs S} (s0 : S) me mep sleeplocks patience bcache start img bs g :
  fs_env s0 me mep sleeplocks bcache → booted mep bcache start img g →
  hdr_lists (img start) bs → (∀ b, b ∈ bs → ¬ in_log start b) → Z.of_nat (length bs) ≤ LOGBLOCKS →
  Forall (λ b, 0 ≤ b < 2 ^ 31) bs → Z.of_nat (length (img start)) = BSIZE →
  ∃ g' ws, recover_from_log patience bcache (st s0 [] g) = Ok tt (st s0 [] g') ∧
    writes (disk g') = writes (disk g) ++ ws ∧ hdr_n (image (disk g') start) = 0 ∧
    (∀ x, ¬ in_log start x → image (disk g') x = apply_writes (home_writes start img bs) img x) ∧
    ∀ ws1 g1, ws1 `prefix_of` ws → booted mep bcache start (apply_writes ws1 img) g1 →
      ∃ g2, recover_from_log patience bcache (st s0 [] g1) = Ok tt (st s0 [] g2) ∧
        ∀ x, ¬ in_log start x → image (disk g2) x = image (disk g') x.
Proof.
  intros Henv Hg Hh Hhome Hcap Hnum Hlen.
  destruct (recover_replays s0 me mep sleeplocks patience bcache start Henv g img bs) as (g' & V' & E & _ & _ & [Ew Hw] & Hi & Hz);
    [done..|lia|].
  exists g', (recover_writes start img bs). split_and!; try done.
  { intros x Hx. rewrite Hi by done. unfold replay. by rewrite (hdr_lists_listed _ bs). }
  intros ws g1 Hp Hg1.
  destruct (recover_prefix_hdr start img bs ws Hh Hhome ltac:(lia) Hp) as (bs' & Hh' & Hbs & Hsz).
  destruct (recover_replays s0 me mep sleeplocks patience bcache start Henv g1 _ bs' Hg1 Hh') as (g2 & V2 & E2 & _ & _ & _ & Hi2 & _).
  - destruct Hbs as [->| ->]; [intros b Hin; by apply elem_of_nil in Hin|done].
  - destruct Hbs as [->| ->]; done.
  - destruct Hbs as [->| ->]; [constructor|done].
  - done.
  - exists g2. split; [done|]. intros x Hx. rewrite Hi2, Hi by done. eapply recover_prefix; eauto. lia.
Qed.

(** A disk whose log holds a committed transaction on block 50. *)
Definition ex_committed : Z → list Z := img1 2 (put_header [50] ex_zero) (img1 3 ex_ones (λ _, ex_zero)).

Lemma recovery_idempotent_witness : ∃ g', recover_from_log 0 ex_bcache (st ex_kst [] (ex_fs ex_committed)) = Ok tt (st ex_kst [] g') ∧
  image (disk g') 50 = ex_ones.
Proof.
  destruct (recovery_idempotent ex_kst 1 ex_vm_proc ex_sleeplocks 0 ex_bcache 2 ex_committed [50] (ex_fs ex_committed) ex_fs_env
    (ex_booted _)) as (g' & ws & E & _ & _ & Hi & _).
  - apply (put_header_lists [50] ex_zero); [done|done|repeat constructor; lia].
  - intros b ->%list_elem_of_singleton. unfold in_log, LOGBLOCKS, MAXOPBLOCKS. lia.
  - done.
  - repeat constructor; lia.
  - reflexivity.
  - exists g'. split; [exact E|]. rewrite Hi; [reflexivity|]. unfold in_log, LOGBLOCKS, MAXOPBLOCKS. lia.
Defined.

(** ** A full log *)

(** C26 Bounds: the cache has no more buffers than the log has blocks, so when
    a transaction has filled the log [end_op] cannot read the first log block
    into the cache and panics. *)
Theorem full_log_panics {S} `{HasFs S} (s0 : S) me mep sleeplocks patience bcache logaddr start f V bs :
  fs_env s0 me mep sleeplocks bcache → bst mep bcache f V bs [] → logged start (log f) bs →
  outstanding (log f) = 1 → committing (log f) = 0 → (∀ b, b ∈ bs → ¬ in_log start b) →
  Z.of_nat (length bs) = LOGBLOCKS →
  end_op patience bcache logaddr (st s0 [] f) = Panic "bget: no buffers".
Proof.
  intros [Hbase Hlocks] Hb Hl Ho Hc Hhome Hn. unfold end_op, mod_log.
  apply fwp_panic, (fwp_acquire _ _ _ _ Hbase); [apply fs_lock_log|set_solver|].
  apply fwp_panic, fwp_mod. apply fwp_panic, fwp_get_log. simpl. rewrite Ho, Hc. change (i32 (1 - 1)) with 0.
  rewrite decide_False, decide_True by lia. apply fwp_panic, fwp_bind, fwp_mod, fwp_ret.
  apply fwp_panic, (fwp_release _ _ _ _ Hbase); [apply fs_lock_log|set_solver|].
  set (f1 := set_log _ (set_log _ f)). assert (logged start (log f1) bs) as Hl1 by by destruct Hl; split.
  apply bind_panic. unfold commit. apply fwp_panic, fwp_get_log. rewrite (lg_n _ _ _ Hl1), Hn, decide_True by done.
  apply bind_panic. unfold write_log. apply fwp_panic, fwp_get_log. rewrite (lg_n _ _ _ Hl1), Hn.
  change (Z.to_nat LOGBLOCKS) with 30%nat. cbn [for_each]. do 2 apply bind_panic. unfold bread_log.
  apply fwp_panic, fwp_get_log. pose proof (lg_where _ _ _ Hl1) as Hw. change LOGBLOCKS with 30 in Hw.
  rewrite (lg_dev _ _ _ Hl1), (lg_start _ _ _ Hl1), (u32_small 1), (u32_small (start + 0 + 1)) by lia.
  eapply (bread_full _ _ _ _ _ _ Hbase Hlocks f1 V bs); [exact Hb| |by rewrite Hn].
  intros Hi%Hhome. apply Hi. unfold in_log, LOGBLOCKS, MAXOPBLOCKS. lia.
Qed.

Lemma ex_pin n : (n ≤ 30)%nat → ∃ f, bst ex_vm_proc ex_bcache f (λ _, ex_zero) (Z.of_nat <$> seq 50 n) [] ∧
  logged 2 (log f) (Z.of_nat <$> seq 50 n) ∧ outstanding (log f) = 1 ∧ committing (log f) = 0.
Proof.
  pose proof ex_fs_env as [Hbase Hlocks]. induction n as [|n IH]; intros Hn.
  { exists (set_log (set_outstanding 1 (log (ex_fs (λ _, ex_zero)))) (ex_fs (λ _, ex_zero))).
    split; [exact (ex_fs_bst (λ _, ex_zero))|by split]. }
  destruct IH as (f0 & Hb0 & Hl0 & Ho0 & Hc0); [lia|]. set (b := Z.of_nat (50 + n)). set (bs := Z.of_nat <$> seq 50 n) in *.
  assert (b ∉ bs) as Hbn by (intros (k & E & Hk%elem_of_seq)%list_elem_of_fmap; unfold b in E; lia).
  assert (Z.of_nat <$> seq 50 (Datatypes.S n) = log_add b bs) as ->.
  { unfold log_add. rewrite decide_False by done. rewrite seq_S, fmap_app. done. }
  assert (length bs = n) as Hlen by (unfold bs; by rewrite length_fmap, length_seq).
  enough (fwp ex_kst [] (i <- bread 0 ex_bcache 1 b ;; log_write i ;; brelse ex_bcache i) f0
    (λ _ _ f, bst ex_vm_proc ex_bcache f (λ _, ex_zero) (log_add b bs) [] ∧ logged 2 (log f) (log_add b bs) ∧
       outstanding (log f) = 1 ∧ committing (log f) = 0)) as (_ & _ & f & _ & Hf) by by exists f.
  apply fwp_bind. eapply fwp_mono; [apply (bread_spec _ _ _ _ _ _ Hbase Hlocks f0 _ bs [] b Hb0); [apply not_elem_of_nil|]|].
  { right. simpl. rewrite Hlen. unfold NBUF, MAXOPBLOCKS. lia. }
  intros i ? f1 (-> & Hb1 & Hi1 & Hf1 & Ed1 & _). apply fwp_bind. assert (log f1 = log f0) as El by apply Hf1.
  eapply (log_write_spec _ _ _ _ _ Hbase Hlocks 2 f1 _ bs [b] i b); [exact Hb1|by rewrite El|done|lia| |rewrite El; lia|].
  { rewrite Hlen. unfold LOGBLOCKS, MAXOPBLOCKS. lia. }
  intros f2 Hb2 Hl2 Ho2 Hc2 _ Ed2 Hca2.
  eapply (brelse_spec _ _ _ _ _ Hbase Hlocks f2 _ _ [] [] i b); [exact Hb2|by apply Hca2|left|].
  { unfold log_add. rewrite decide_False by done. set_solver. }
  intros f3 Hb3 Hf3 Ed3 _. rewrite (proj1 Hf3), Ho2, Hc2, El. done.
Qed.

Lemma full_log_panics_witness : ∃ f, lh_n (log f) = 30 ∧ end_op 0 ex_bcache 4096 (st ex_kst [] f) = Panic "bget: no buffers".
Proof.
  destruct (ex_pin 30) as (f & Hb & Hl & Ho & Hc); [lia|]. exists f. split; [rewrite (lg_n _ _ _ Hl); reflexivity|].
  apply (full_log_panics ex_kst 1 ex_vm_proc ex_sleeplocks 0 ex_bcache 4096 2 f _ _ ex_fs_env Hb Hl Ho Hc); [|reflexivity].
  intros b (k & -> & Hk%elem_of_seq)%list_elem_of_fmap. unfold in_log, LOGBLOCKS, MAXOPBLOCKS. lia.
Defined.
