(* ===== verification/Grep.v ===== *)
(** * grep (user/grep.c)

    Characters are bytes; a C string is the list of its bytes before the NUL.
    The regular-expression matcher is compared with the language of the
    pattern, and the loop of grep, which reads in pieces of any size and keeps
    an unfinished line in its buffer, with matching line by line. *)

From S2P Require Import Prelude.

Definition caret : Z := 94.
Definition star : Z := 42.
Definition dollar : Z := 36.
Definition period : Z := 46.
Definition newline : Z := 10.

(** ** The matcher *)

(* matchstar, given matchhere for the rest of the pattern *)
Fixpoint matchstar (here : list Z → bool) (c : Z) (text : list Z) : bool :=
  if here text then true else
  match text with
  | [] => false
  | t :: text => if decide (t = c ∨ c = period) then matchstar here c text else false
  end.

Fixpoint matchhere (re text : list Z) {struct re} : bool :=
  match re with
  | [] => true
  | c :: re' =>
      let one := match text with
                 | t :: text => if decide (c = period ∨ c = t) then matchhere re' text else false
                 | [] => false
                 end in
      match re' with
      | s :: re'' => if decide (s = star) then matchstar (matchhere re'') c text else one
      | [] => if decide (c = dollar) then bool_decide (text = []) else one
      end
  end.

(* do { if(matchhere(re, text)) return 1; } while( *text++ != 0) *)
Fixpoint match_any (re text : list Z) : bool :=
  if matchhere re text then true else
  match text with [] => false | _ :: text => match_any re text end.

Definition grep_match (re text : list Z) : bool :=
  match re with
  | c :: re' => if decide (c = caret) then matchhere re' text else match_any re text
  | [] => match_any re text
  end.

(** ** The language of a pattern *)

Inductive item : Type := One (c : Z) | Many (c : Z).

(** The items of a pattern and whether it ends with the anchor. *)
Fixpoint parse_re (re : list Z) : list item * bool :=
  match re with
  | [] => ([], false)
  | c :: re' =>
      match re' with
      | s :: re'' => if decide (s = star) then let '(l, b) := parse_re re'' in (Many c :: l, b)
                     else let '(l, b) := parse_re re' in (One c :: l, b)
      | [] => if decide (c = dollar) then ([], true) else ([One c], false)
      end
  end.

Definition fits (c t : Z) : Prop := c = period ∨ c = t.

Fixpoint lang (l : list item) (s : list Z) : Prop :=
  match l with
  | [] => s = []
  | One c :: l => ∃ t s', s = t :: s' ∧ fits c t ∧ lang l s'
  | Many c :: l => ∃ u s', s = u ++ s' ∧ Forall (fits c) u ∧ lang l s'
  end.

(** [re] matches at the start of [text]. *)
Definition matches_at (re text : list Z) : Prop :=
  ∃ s r, text = s ++ r ∧ lang (parse_re re).1 s ∧ ((parse_re re).2 = true → r = []).

Definition occurs (re text : list Z) : Prop :=
  match re with
  | c :: re' => if decide (c = caret) then matches_at re' text else ∃ p t, text = p ++ t ∧ matches_at re t
  | [] => ∃ p t, text = p ++ t ∧ matches_at re t
  end.

Lemma matchstar_spec here c text :
  matchstar here c text = true ↔ ∃ u t, text = u ++ t ∧ Forall (fits c) u ∧ here t = true.
Proof.
  induction text as [|x text IH]; simpl.
  - destruct (here []) eqn:E; split; try done.
    + intros _. exists [], []. auto.
    + intros (u & t & Eu & _ & Ht). symmetry in Eu. apply app_nil in Eu as [-> ->]. congruence.
  - destruct (here (x :: text)) eqn:E; [split; [|done]; intros _; exists [], (x :: text); auto|].
    split.
    + destruct (decide (x = c ∨ c = period)) as [Hf|]; [|done]. intros (u & t & -> & Hu & Ht)%IH.
      exists (x :: u), t. split_and!; [done| |done]. constructor; [|done]. unfold fits. naive_solver.
    + intros (u & t & Eu & Hu & Ht). destruct u as [|y u]; simplify_eq/=; [congruence|].
      inversion Hu as [|? ? Hy Hu']; subst. rewrite decide_True by (unfold fits in Hy; naive_solver). apply IH. eauto.
Qed.

(** Induction on patterns by the length of the item at their head. *)
Lemma re_ind (P : list Z → Prop) :
  P [] → (∀ c, P [c]) → (∀ c re, P re → P (c :: star :: re)) → (∀ c s re, s ≠ star → P (s :: re) → P (c :: s :: re)) →
  ∀ re, P re.
Proof.
  intros H0 H1 H2 H3 re. enough (P re ∧ ∀ c, P (c :: re)) by tauto. induction re as [|s re [IH IHc]]; [auto|].
  split; [apply IHc|]. intros c. destruct (decide (s = star)) as [->|]; [by apply H2|]. apply H3; [done|apply IHc].
Qed.

Lemma matches_one c re' text : (parse_re (c :: re')) = (One c :: (parse_re re').1, (parse_re re').2) →
  matches_at (c :: re') text ↔ ∃ t text', text = t :: text' ∧ fits c t ∧ matches_at re' text'.
Proof.
  intros E. unfold matches_at. rewrite E. simpl. split.
  - intros (? & r & -> & (t & s' & -> & Hf & Hl) & Hr). exists t, (s' ++ r). naive_solver.
  - intros (t & ? & -> & Hf & s & r & -> & Hl & Hr). exists (t :: s), r. split_and!; [done|by exists t, s|done].
Qed.

Lemma matchhere_spec re : ∀ text, matchhere re text = true ↔ matches_at re text.
Proof.
  induction re as [|c|c re IH|c s re Hs IH] using re_ind; intros text.
  - split; [|done]. intros _. by exists [], text.
  - simpl. destruct (decide (c = dollar)) as [->|Hd].
    + rewrite bool_decide_eq_true. unfold matches_at. simpl. split.
      * intros ->. by exists [], [].
      * intros (s & r & -> & -> & ->); done.
    + rewrite matches_one by (simpl; by rewrite decide_False). destruct text as [|t text]; [naive_solver|].
      destruct (decide (c = period ∨ c = t)) as [Hf|Hf].
      * split; [|done]. intros _. exists t, text. split_and!; [done|exact Hf|]. by exists [], text.
      * split; [done|]. intros (? & ? & [= <- <-] & ? & _). unfold fits in *. tauto.
  - cbn [matchhere]. rewrite decide_True by done. rewrite matchstar_spec. unfold matches_at.
    assert (parse_re (c :: star :: re) = (Many c :: (parse_re re).1, (parse_re re).2)) as ->.
    { simpl. by destruct (parse_re re). }
    simpl. setoid_rewrite IH. unfold matches_at. split.
    + intros (u & ? & -> & Hu & s & r & -> & Hl & Hr). exists (u ++ s), r. split_and!; [by rewrite app_assoc|by exists u, s|done].
    + intros (? & r & -> & (u & s & -> & Hu & Hl) & Hr). exists u, (s ++ r). rewrite app_assoc. naive_solver.
  - assert (parse_re (c :: s :: re) = (One c :: (parse_re (s :: re)).1, (parse_re (s :: re)).2)) as E.
    { change (parse_re (c :: s :: re)) with (if decide (s = star) then let '(l, b) := parse_re re in (Many c :: l, b)
        else let '(l, b) := parse_re (s :: re) in (One c :: l, b)). rewrite decide_False by done. by destruct (parse_re (s :: re)). }
    rewrite (matches_one _ _ _ E).
    change (matchhere (c :: s :: re) text) with (if decide (s = star) then matchstar (matchhere re) c text else
      match text with t :: text => if decide (c = period ∨ c = t) then matchhere (s :: re) text else false | [] => false end).
    rewrite decide_False by done. destruct text as [|t text]; [naive_solver|].
    destruct (decide (c = period ∨ c = t)) as [Hf|Hf]; [|split; [done|intros (? & ? & [= <- <-] & ? & _); unfold fits in *; tauto]].
    rewrite IH. split; [intros Hm; exists t, text; auto|by intros (? & ? & [= <- <-] & ? & ?)].
Qed.

Lemma match_any_spec re text : match_any re text = true ↔ ∃ p t, text = p ++ t ∧ matches_at re t.
Proof.
  induction text as [|x text IH]; simpl.
  - destruct (matchhere re []) eqn:E; split; try done.
    + intros _. exists [], []. split; [done|by apply matchhere_spec].
    + intros (p & t & Ep & Ht). symmetry in Ep. apply app_nil in Ep as [-> ->]. apply matchhere_spec in Ht. congruence.
  - destruct (matchhere re (x :: text)) eqn:E.
    + split; [|done]. intros _. exists [], (x :: text). split; [done|by apply matchhere_spec].
    + rewrite IH. split; [intros (p & t & -> & Ht); by exists (x :: p), t|].
      intros (p & t & Ep & Ht). destruct p as [|y p]; simplify_eq/=; [apply matchhere_spec in Ht; congruence|eauto].
Qed.

(** C37 Equivalence: the backtracking matcher [match] of grep answers true
    exactly when the language of the pattern (literals, [.], [*], the anchors)
    has a word that occurs in the text. *)
Theorem match_iff_occurs (re text : list Z) : grep_match re text = true ↔ occurs re text.
Proof.
  unfold grep_match, occurs. destruct re as [|c re]; [apply match_any_spec|].
  destruct (decide (c = caret)); [apply matchhere_spec|apply match_any_spec].
Qed.

(** ** The loop of grep

    [src] is what the successive reads deliver: a read of up to [n] bytes
    returns the first [n] bytes of the first piece, and nothing at the end of
    the file. *)

Definition bufsize : Z := 1024.

Definition read (n : nat) (src : list (list Z)) : list Z * list (list Z) :=
  match src with
  | [] => ([], [])
  | p :: src => (take n p, if decide (length p ≤ n)%nat then src else drop n p :: src)
  end.

(* while((q = strchr(p, newline)) != 0): the lines written and what follows the last newline; a
   NUL byte ends the string that strchr and match see *)
Fixpoint strchr_nl (p : list Z) : option (list Z * list Z) :=
  match p with
  | [] => None
  | c :: p =>
      if decide (c = 0) then None else
      if decide (c = newline) then Some ([], p) else
      match strchr_nl p with Some (l, r) => Some (c :: l, r) | None => None end
  end.

Fixpoint grep_lines (fuel : nat) (pattern p : list Z) (out : list Z) : list Z * list Z :=
  match fuel with
  | O => (out, p)
  | S fuel =>
      match strchr_nl p with
      | None => (out, p)
      | Some (line, rest) => grep_lines fuel pattern rest (if grep_match pattern line then out ++ line ++ [newline] else out)
      end
  end.

(* [m] bytes of an unfinished line are at the start of the buffer *)
Fixpoint grep_loop (fuel : nat) (pattern m : list Z) (src : list (list Z)) (out : list Z) : option (list Z) :=
  match fuel with
  | O => None
  | S fuel =>
      let '(got, src) := read (Z.to_nat (bufsize - Z.of_nat (length m) - 1)) src in
      match got with
      | [] => Some out
      | _ =>
          let '(out, p) := grep_lines (length (m ++ got)) pattern (m ++ got) out in
          grep_loop fuel pattern p src out
      end
  end.

Definition grep (pattern : list Z) (src : list (list Z)) : option (list Z) :=
  grep_loop (S (length (concat src))) pattern [] src [].

(** The matching lines among the complete lines of a text. *)
Definition line_ok (l : list Z) : Prop := Forall (λ c, c ≠ 0 ∧ c ≠ newline) l ∧ Z.of_nat (length l) < bufsize - 1.
Definition unlines (ls : list (list Z)) : list Z := concat ((λ l, l ++ [newline]) <$> ls).
Definition grep_ref (pattern : list Z) (ls : list (list Z)) : list Z :=
  unlines (filter (λ l, grep_match pattern l = true) ls).

Lemma strchr_nl_line l r : Forall (λ c, c ≠ 0 ∧ c ≠ newline) l → strchr_nl (l ++ newline :: r) = Some (l, r).
Proof.
  induction 1 as [|c l [H0 Hn] Hl IH]; simpl; [done|]. rewrite decide_False, decide_False by done. by rewrite IH.
Qed.

Lemma strchr_nl_none l : Forall (λ c, c ≠ 0 ∧ c ≠ newline) l → strchr_nl l = None.
Proof.
  induction 1 as [|c l [H0 Hn] Hl IH]; simpl; [done|]. rewrite decide_False, decide_False by done. by rewrite IH.
Qed.

(** All complete lines are handled; the rest stays. *)
Lemma grep_lines_spec pattern ls rest : Forall line_ok ls → Forall (λ c, c ≠ 0 ∧ c ≠ newline) rest →
  ∀ fuel out, (length ls ≤ fuel)%nat →
  grep_lines fuel pattern (unlines ls ++ rest) out = (out ++ grep_ref pattern ls, rest).
Proof.
  intros Hls Hr. induction Hls as [|l ls [Hl Hlen] Hls IH]; intros fuel out Hf; unfold unlines, grep_ref; simpl.
  - rewrite app_nil_r. destruct fuel; simpl; [done|]. by rewrite strchr_nl_none.
  - destruct fuel as [|fuel]; simpl in *; [lia|]. rewrite <- !app_assoc. simpl. rewrite strchr_nl_line by done.
    change (concat ((λ l, l ++ [newline]) <$> ls)) with (unlines ls). rewrite IH by lia. unfold grep_ref.
    rewrite filter_cons. destruct (grep_match pattern l) eqn:E; [rewrite decide_True by done|rewrite decide_False by done]; [|done].
    unfold unlines. simpl. by rewrite <- !app_assoc.
Qed.

(** A prefix of a text consists of complete lines and the start of one. *)
Lemma split_prefix t ls : Forall line_ok ls → Forall (λ c, c ≠ 0 ∧ c ≠ newline) t →
  ∀ q r, q ++ r = unlines ls ++ t →
  ∃ ls1 ls2 rest, ls = ls1 ++ ls2 ∧ q = unlines ls1 ++ rest ∧ rest ++ r = unlines ls2 ++ t ∧
    Forall (λ c, c ≠ 0 ∧ c ≠ newline) rest.
Proof.
  intros Hls Ht. induction Hls as [|l ls [Hl Hlen] Hls IH]; intros q r E.
  - exists [], [], q. unfold unlines in *. simpl in *. split_and!; try done. rewrite <- E in Ht. by apply Forall_app in Ht as [? _].
  - unfold unlines in E. simpl in E. rewrite <- !app_assoc in E. simpl in E.
    destruct (decide (length q ≤ length l)%nat) as [Hq|Hq].
    + exists [], (l :: ls), q. unfold unlines. simpl. rewrite <- !app_assoc. split_and!; try done.
      assert (q = take (length q) l) as ->; [|by apply Forall_take].
      apply (f_equal (take (length q))) in E. by rewrite take_app_length, take_app_le in E.
    + assert (∃ q', q = l ++ newline :: q' ∧ q' ++ r = unlines ls ++ t) as (q' & -> & E').
      { pose proof (f_equal (drop (length l + 1)) E) as E1. pose proof (f_equal (take (length l + 1)) E) as E2.
        rewrite take_app_le in E2 by lia. rewrite take_app_add in E2. simpl in E2.
        rewrite drop_app_le in E1 by lia. rewrite drop_app_add in E1. simpl in E1.
        exists (drop (length l + 1) q). split; [|done].
        rewrite <- (take_drop (length l + 1) q) at 1. rewrite E2. by rewrite <- app_assoc. }
      destruct (IH q' r E') as (ls1 & ls2 & rest & -> & -> & E2 & Hrest).
      exists (l :: ls1), ls2, rest. unfold unlines. simpl. rewrite <- !app_assoc. done.
Qed.

Lemma unlines_app ls1 ls2 : unlines (ls1 ++ ls2) = unlines ls1 ++ unlines ls2.
Proof. unfold unlines. by rewrite fmap_app, concat_app. Qed.

Lemma length_unlines ls : (length ls ≤ length (unlines ls))%nat.
Proof.
  induction ls as [|l ls IH]; [simpl; lia|]. change (unlines (l :: ls)) with ((l ++ [newline]) ++ unlines ls).
  rewrite !length_app. simpl. lia.
Qed.

Lemma read_spec n src got src' : Forall (λ p, p ≠ []) src → (0 < n)%nat → read n src = (got, src') →
  concat src = got ++ concat src' ∧ Forall (λ p, p ≠ []) src' ∧ (got = [] → src = []) ∧ (length got ≤ n)%nat.
Proof.
  intros Hp Hn. destruct src as [|p src]; simpl; [intros [= <- <-]; simpl; auto with lia|].
  inversion Hp as [|? ? Hp0 Hp']; subst. intros [= <- <-]. rewrite length_take. destruct (decide (length p ≤ n)%nat).
  - rewrite take_ge by done. split_and!; [done|done| |lia]. intros ->. done.
  - simpl. rewrite app_assoc, take_drop. split_and!; [done| | |lia].
    + constructor; [|done]. intros E%(f_equal length). rewrite length_drop in E. simpl in E. lia.
    + intros E%(f_equal length). rewrite length_take in E. assert (length p ≠ 0)%nat by by destruct p. change (length []) with 0%nat in E. lia.
Qed.

(** An unfinished line fits the buffer as long as more lines follow. *)
Lemma unfinished_fits m src t ls : Forall line_ok ls → ls ≠ [] → Forall (λ c, c ≠ 0 ∧ c ≠ newline) m →
  m ++ concat src = unlines ls ++ t → Z.of_nat (length m) < bufsize - 1.
Proof.
  intros Hls Hne Hm E. destruct ls as [|l ls]; [done|]. inversion Hls as [|? ? [Hl Hlen] _]; subst.
  unfold unlines in E. simpl in E. rewrite <- !app_assoc in E. simpl in E.
  destruct (decide (length m ≤ length l)%nat) as [|Hn]; [lia|]. exfalso.
  pose proof (f_equal (λ x, x !! length l) E) as E1. simpl in E1. rewrite lookup_app_l in E1 by lia.
  rewrite list_lookup_middle in E1 by done. rewrite Forall_lookup in Hm. destruct (Hm _ _ E1). done.
Qed.

Lemma grep_loop_spec pattern t : Forall (λ c, c ≠ 0 ∧ c ≠ newline) t →
  ∀ fuel m src ls out, (length (concat src) < fuel)%nat → Forall (λ p, p ≠ []) src → Forall line_ok ls →
  Forall (λ c, c ≠ 0 ∧ c ≠ newline) m → m ++ concat src = unlines ls ++ t →
  grep_loop fuel pattern m src out = Some (out ++ grep_ref pattern ls).
Proof.
  intros Ht. induction fuel as [|fuel IH]; intros m src ls out Hf Hsrc Hls Hm E; [lia|]. cbn [grep_loop].
  destruct (read (Z.to_nat (bufsize - Z.of_nat (length m) - 1)) src) as [got src'] eqn:Er.
  destruct (decide (ls ≠ [] ∨ Z.of_nat (length m) < bufsize - 1)) as [Hroom|Hfull].
  - assert (Z.of_nat (length m) < bufsize - 1) as Hm' by (destruct Hroom; [by eapply unfinished_fits|done]).
    apply read_spec in Er as (Ec & Hsrc' & Hend & _); [|done|lia]. destruct got as [|g got].
    + rewrite Hend in E by done. simpl in E. rewrite app_nil_r in E. destruct ls as [|l ls]; [by rewrite app_nil_r|].
      exfalso. rewrite E in Hm. unfold unlines in Hm. simpl in Hm. rewrite <- !app_assoc in Hm. apply Forall_app in Hm as [_ Hm].
      inversion Hm as [|? ? [_ ?] _]. done.
    + destruct (split_prefix t ls Hls Ht (m ++ g :: got) (concat src')) as (ls1 & ls2 & rest & -> & Eq & Er & Hrest).
      { rewrite <- app_assoc, <- Ec. done. }
      apply Forall_app in Hls as [Hls1 Hls2]. rewrite Eq, (grep_lines_spec pattern ls1 rest Hls1 Hrest).
      * rewrite (IH rest src' ls2); try done; [|rewrite Ec in Hf; rewrite length_app in Hf; simpl in Hf; lia].
        unfold grep_ref. by rewrite list.filter_app, unlines_app, app_assoc.
      * pose proof (length_unlines ls1). rewrite length_app. lia.
  - assert (ls = []) as -> by (destruct (decide (ls = [])); [done|tauto]).
    assert (got = []) as ->.
    { replace (Z.to_nat _) with 0%nat in Er by lia. destruct src; simpl in Er; by injection Er as <- _. }
    by rewrite app_nil_r.
Qed.

(** Functional: however the input arrives in pieces, grep terminates and
    writes exactly the newline-terminated lines that match, each once and in
    order, provided each line with its newline fits the buffer and the text
    has no NUL; an unterminated last line is never written. *)
Theorem grep_filters_lines (pattern t : list Z) (ls src : list (list Z)) :
  Forall line_ok ls → Forall (λ c, c ≠ 0 ∧ c ≠ newline) t → Forall (λ p, p ≠ []) src →
  concat src = unlines ls ++ t → grep pattern src = Some (grep_ref pattern ls).
Proof.
  intros Hls Ht Hsrc E. unfold grep. rewrite (grep_loop_spec pattern t Ht _ [] src ls); [done|lia|done|done|constructor|done].
Qed.

Lemma grep_filters_lines_witness : grep [97; 42; 98] [[97; 97]; [98; 10; 99]; [10; 98; 10; 97]] = Some [97; 97; 98; 10; 98; 10].
Proof.
  rewrite (grep_filters_lines [97; 42; 98] [97] [[97; 97; 98]; [99]; [98]] [[97; 97]; [98; 10; 99]; [10; 98; 10; 97]]).
  - reflexivity.
  - repeat constructor; done.
  - repeat constructor; done.
  - repeat constructor; done.
  - reflexivity.
Defined.
