(* ===== verification/Wc.v ===== *)
(** * wc (user/wc.c)

    The input arrives in the pieces that successive reads return. *)

From S2P Require Import Prelude.

(* strchr of ulib.c with the white-space characters of wc; the NUL that ends
   them is not found *)
Definition spaces : list Z := [32; 13; 9; 10; 11].
Definition is_space (c : Z) : bool := bool_decide (c ∈ spaces).

Record counts : Type := mkCounts { lines : Z; words : Z; chars : Z; inword : bool }.

(* the body of the for loop; the counters are ints *)
Definition wc_char (s : counts) (ch : Z) : counts :=
  let c := i32 (chars s + 1) in
  let l := if decide (ch = 10) then i32 (lines s + 1) else lines s in
  if is_space ch then mkCounts l (words s) c false
  else if inword s then mkCounts l (words s) c true
  else mkCounts l (i32 (words s + 1)) c true.

(* for(i=0; i<n; i++) *)
Fixpoint wc_buf (s : counts) (buf : list Z) : counts :=
  match buf with [] => s | ch :: buf => wc_buf (wc_char s ch) buf end.

(* while((n = read(fd, buf, sizeof(buf))) > 0); an empty read ends the file *)
Fixpoint wc_loop (s : counts) (src : list (list Z)) : counts :=
  match src with
  | [] => s
  | [] :: _ => s
  | buf :: src => wc_loop (wc_buf s buf) src
  end.

Definition wc (src : list (list Z)) : Z * Z * Z :=
  let s := wc_loop (mkCounts 0 0 0 false) src in (lines s, words s, chars s).

(** ** The counts of a text *)

(** Positions at which a word starts. *)
Definition word_start (t : list Z) (i : nat) : bool :=
  match t !! i with
  | None => false
  | Some c => negb (is_space c) && match i with O => true | S j => match t !! j with Some d => is_space d | None => true end end
  end.
Definition count_words (t : list Z) : Z := Z.of_nat (length (filter (λ i, word_start t i = true) (seq 0 (length t)))).
Definition count_lines (t : list Z) : Z := Z.of_nat (length (filter (λ c, c = 10) t)).

(** The state after a text. *)
Definition wc_at (t : list Z) : counts :=
  mkCounts (count_lines t) (count_words t) (Z.of_nat (length t))
    (match list.last t with Some c => negb (is_space c) | None => false end).

Lemma word_start_app t c i : (i < length t)%nat → word_start (t ++ [c]) i = word_start t i.
Proof.
  intros Hi. unfold word_start. rewrite lookup_app_l by done. destruct (t !! i); [|done]. destruct i; [done|].
  by rewrite lookup_app_l by lia.
Qed.

Lemma word_start_last t c : word_start (t ++ [c]) (length t) =
  negb (is_space c) && negb (match list.last t with Some d => negb (is_space d) | None => false end).
Proof.
  unfold word_start. rewrite list_lookup_middle by done. f_equal. destruct t as [|x t] using rev_ind; [done|].
  rewrite length_app. simpl. replace (length t + 1)%nat with (S (length t)) by lia.
  rewrite list.last_snoc, lookup_app_l by (rewrite length_app; simpl; lia). rewrite list_lookup_middle by done.
  by rewrite Bool.negb_involutive.
Qed.

Lemma filter_ext_in {A} (P Q : A → Prop) `{∀ x, Decision (P x)} `{∀ x, Decision (Q x)} (l : list A) :
  (∀ x, x ∈ l → (P x ↔ Q x)) → filter P l = filter Q l.
Proof.
  induction l as [|x l IH]; intros HPQ; [done|]. rewrite !filter_cons, IH by (intros; apply HPQ; by right).
  destruct (HPQ x) as [? ?]; [by left|]. destruct (decide (P x)), (decide (Q x)); naive_solver.
Qed.

Lemma count_words_snoc t c : count_words (t ++ [c]) = count_words t + (if word_start (t ++ [c]) (length t) then 1 else 0).
Proof.
  unfold count_words. rewrite length_app. simpl. rewrite Nat.add_1_r, seq_S, list.filter_app. simpl.
  rewrite length_app. assert (filter (λ i, word_start (t ++ [c]) i = true) (seq 0 (length t)) =
    filter (λ i, word_start t i = true) (seq 0 (length t))) as ->.
  { apply filter_ext_in. intros i Hi%elem_of_seq. by rewrite word_start_app by lia. }
  rewrite filter_cons, filter_nil. destruct (word_start (t ++ [c]) (length t)); [rewrite decide_True by done|rewrite decide_False by done]; simpl; lia.
Qed.

Lemma count_le t : 0 ≤ count_words t ≤ Z.of_nat (length t) ∧ 0 ≤ count_lines t ≤ Z.of_nat (length t).
Proof.
  unfold count_words, count_lines. pose proof (length_filter (λ i, word_start t i = true) (seq 0 (length t))) as H1.
  pose proof (length_filter (λ c, c = 10) t) as H2. rewrite length_seq in H1. lia.
Qed.

Lemma wc_char_at t c : Z.of_nat (length t) < 2 ^ 31 - 1 → wc_char (wc_at t) c = wc_at (t ++ [c]).
Proof.
  intros Hl. pose proof (count_le t) as [? ?]. unfold wc_char, wc_at. cbn [lines words chars inword].
  rewrite list.last_snoc, count_words_snoc, word_start_last. unfold count_lines. rewrite list.filter_app, !length_app. simpl length.
  fold (count_lines t). rewrite !i32_small by lia. rewrite filter_cons, filter_nil.
  destruct (decide (c = 10)); destruct (is_space c); simpl;
    destruct (match list.last t with Some d => negb (is_space d) | None => false end); simpl; f_equal; unfold count_lines; lia.
Qed.

Lemma wc_buf_at buf : ∀ t, Z.of_nat (length t + length buf) < 2 ^ 31 → wc_buf (wc_at t) buf = wc_at (t ++ buf).
Proof.
  induction buf as [|c buf IH]; intros t Hl; simpl in *; [by rewrite app_nil_r|]. rewrite wc_char_at by lia.
  rewrite IH by (rewrite length_app; simpl; lia). by rewrite <- app_assoc.
Qed.

Lemma wc_loop_at src : Forall (λ p, p ≠ []) src → ∀ t, Z.of_nat (length t + length (concat src)) < 2 ^ 31 →
  wc_loop (wc_at t) src = wc_at (t ++ concat src).
Proof.
  induction 1 as [|p src Hp Hs IH]; intros t Hl; simpl in *; [by rewrite app_nil_r|]. destruct p as [|c p]; [done|].
  rewrite length_app in Hl. rewrite wc_buf_at by lia. rewrite IH by (rewrite length_app; lia). by rewrite <- app_assoc.
Qed.

(** Functional: however the text arrives in pieces, wc counts its newlines,
    the places where a word starts (a non-space at the beginning or after a
    space), and its bytes, for texts below 2^31 bytes. *)
Theorem wc_counts (src : list (list Z)) :
  Forall (λ p, p ≠ []) src → Z.of_nat (length (concat src)) < 2 ^ 31 →
  wc src = (count_lines (concat src), count_words (concat src), Z.of_nat (length (concat src))).
Proof.
  intros Hs Hl. unfold wc. change (mkCounts 0 0 0 false) with (wc_at []). by rewrite (wc_loop_at src Hs []).
Qed.

Lemma wc_counts_witness : wc [[97; 98; 32]; [99; 10; 10]; [100]] = (2, 3, 7).
Proof. rewrite wc_counts; [reflexivity|repeat constructor; done|done]. Defined.
