(* ===== verification/Printf.v ===== *)
(** * Formatted output (kernel/printf.c and user/printf.c)

    What the two printf functions send, as a function of the format and the
    arguments.  A store past the end of an array is undefined behaviour and
    shows as [None], as does an argument that is missing or of the wrong kind.
    A string is the list of its bytes before the NUL. *)

From S2P Require Import Prelude.

Inductive arg : Type := AInt (v : Z) | AStr (s : option (list Z)).

(* a long long *)
Definition i64 (z : Z) : Z := (z + 2 ^ 63) mod 2 ^ 64 - 2 ^ 63.

(* "0123456789abcdef" of the kernel, "0123456789ABCDEF" of user/printf.c *)
Definition kdigits : list Z := [48; 49; 50; 51; 52; 53; 54; 55; 56; 57; 97; 98; 99; 100; 101; 102].
Definition udigits : list Z := [48; 49; 50; 51; 52; 53; 54; 55; 56; 57; 65; 66; 67; 68; 69; 70].

(* buf[i++] = c, with char buf[20] *)
Definition push (buf : list Z) (c : Z) : option (list Z) :=
  if decide (length buf < 20)%nat then Some (buf ++ [c]) else None.

Section Int.
Variable digits : list Z.

Definition digit (k : Z) : Z := default 0 (digits !! Z.to_nat k).

(* do { buf[i++] = digits[x % base]; } while((x /= base) != 0); *)
Fixpoint digits_loop (fuel : nat) (x base : Z) (buf : list Z) : option (list Z) :=
  match fuel with
  | O => None
  | S fuel =>
      buf ← push buf (digit (x mod base));
      let x := x / base in
      if decide (x = 0) then Some buf else digits_loop fuel x base buf
  end.

(* for (i = 0; i < 16; i++, x <<= 4) *)
Fixpoint ptr_loop (n : nat) (x : Z) : list Z :=
  match n with O => [] | S n => digit (Z.shiftr x 60) :: ptr_loop n (u64 (Z.shiftl x 4)) end.
End Int.

(** ** The kernel's printf *)

Definition printint (xx base sign : Z) : option (list Z) :=
  let sign := if decide (sign ≠ 0) then (if decide (xx < 0) then 1 else 0) else 0 in
  let x := if decide (sign ≠ 0) then u64 (- xx) else u64 xx in
  buf ← digits_loop kdigits 64 x base [];
  buf ← (if decide (sign ≠ 0) then push buf 45 else Some buf);
  Some (reverse buf).

Definition printptr (x : Z) : list Z := [48; 120] ++ ptr_loop kdigits 16 x.

Definition BACKSPACE : Z := 0x100.
(* the bytes that consputc sends to the uart *)
Definition consputc (c : Z) : list Z := if decide (c = BACKSPACE) then [8; 32; 8] else [u8 c].

Definition null_str : list Z := [40; 110; 117; 108; 108; 41].

(* one conversion: the characters c0 c1 c2 after the %; what is sent, the
   arguments left and how many characters more than one it takes *)
Definition kconv (c0 c1 c2 : Z) (args : list arg) : option (list Z * list arg * nat) :=
  let int (f : Z → Z) (base sign : Z) (n : nat) :=
    match args with
    | AInt v :: args => out ← printint (f v) base sign; Some (out, args, n)
    | _ => None
    end in
  let d := 100 in let l := 108 in let u := 117 in let x := 120 in
  if decide (c0 = d) then int i32 10 1 0%nat
  else if decide (c0 = l ∧ c1 = d) then int i64 10 1 1%nat
  else if decide (c0 = l ∧ c1 = l ∧ c2 = d) then int i64 10 1 2%nat
  else if decide (c0 = u) then int u32 10 0 0%nat
  else if decide (c0 = l ∧ c1 = u) then int i64 10 0 1%nat
  else if decide (c0 = l ∧ c1 = l ∧ c2 = u) then int i64 10 0 2%nat
  else if decide (c0 = x) then int u32 16 0 0%nat
  else if decide (c0 = l ∧ c1 = x) then int i64 16 0 1%nat
  else if decide (c0 = l ∧ c1 = l ∧ c2 = x) then int i64 16 0 2%nat
  else if decide (c0 = 112) then
    match args with AInt v :: args => Some (printptr (u64 v), args, 0%nat) | _ => None end
  else if decide (c0 = 99) then
    match args with AInt v :: args => Some (consputc (u32 v), args, 0%nat) | _ => None end
  else if decide (c0 = 115) then
    match args with AStr s :: args => Some (default null_str s, args, 0%nat) | _ => None end
  else if decide (c0 = 37) then Some ([37], args, 0%nat)
  else Some ([37; c0], args, 0%nat).

(* for(i = 0; (cx = fmt[i] & 0xff) != 0; i++) *)
Fixpoint printf_loop (fuel : nat) (fmt : list Z) (args : list arg) (out : list Z) : option (list Z) :=
  match fuel with
  | O => None
  | S fuel =>
      match fmt with
      | [] => Some out
      | cx :: fmt =>
          if decide (cx ≠ 37) then printf_loop fuel fmt args (out ++ consputc cx) else
          match fmt with
          | [] => Some out
          | c0 :: fmt =>
              r ← kconv c0 (default 0 (head fmt)) (default 0 (head (tail fmt))) args;
              let '(o, args, n) := r in
              printf_loop fuel (drop n fmt) args (out ++ o)
          end
      end
  end.

(* printf's acquire and release of pr.lock surround the loop *)
Definition printf (fmt : list Z) (args : list arg) : option (list Z) := printf_loop (S (length fmt)) fmt args [].

(** ** The user library's printf *)

Module User.

Definition printint (xx base sgn : Z) : option (list Z) :=
  let neg := if decide (sgn ≠ 0 ∧ xx < 0) then 1 else 0 in
  let x := if decide (sgn ≠ 0 ∧ xx < 0) then u64 (- xx) else u64 xx in
  buf ← digits_loop udigits 64 x base [];
  buf ← (if decide (neg ≠ 0) then push buf 45 else Some buf);
  Some (reverse buf).

Definition printptr (x : Z) : list Z := [48; 120] ++ ptr_loop udigits 16 x.

(* putc(fd, c): one byte *)
Definition putc (c : Z) : list Z := [u8 c].

(* one conversion, in state '%' *)
Definition conv (c0 c1 c2 : Z) (args : list arg) : option (list Z * list arg * nat) :=
  let int (f : Z → Z) (base sgn : Z) (n : nat) :=
    match args with
    | AInt v :: args => out ← printint (f v) base sgn; Some (out, args, n)
    | _ => None
    end in
  let d := 100 in let l := 108 in let u := 117 in let x := 120 in
  if decide (c0 = d) then int i32 10 1 0%nat
  else if decide (c0 = l ∧ c1 = d) then int i64 10 1 1%nat
  else if decide (c0 = l ∧ c1 = l ∧ c2 = d) then int i64 10 1 2%nat
  else if decide (c0 = u) then int u32 10 0 0%nat
  else if decide (c0 = l ∧ c1 = u) then int i64 10 0 1%nat
  else if decide (c0 = l ∧ c1 = l ∧ c2 = u) then int i64 10 0 2%nat
  else if decide (c0 = x) then int u32 16 0 0%nat
  else if decide (c0 = l ∧ c1 = x) then int i64 16 0 1%nat
  else if decide (c0 = l ∧ c1 = l ∧ c2 = x) then int i64 16 0 2%nat
  else if decide (c0 = 112) then
    match args with AInt v :: args => Some (printptr (u64 v), args, 0%nat) | _ => None end
  else if decide (c0 = 99) then
    match args with AInt v :: args => Some (putc (u32 v), args, 0%nat) | _ => None end
  else if decide (c0 = 115) then
    match args with AStr s :: args => Some (default null_str s, args, 0%nat) | _ => None end
  else if decide (c0 = 37) then Some ([37], args, 0%nat)
  else Some ([37; c0], args, 0%nat).

(* for(i = 0; fmt[i]; i++); [pct] is state == '%' *)
Fixpoint vprintf_loop (fuel : nat) (fmt : list Z) (args : list arg) (pct : bool) (out : list Z) : option (list Z) :=
  match fuel with
  | O => None
  | S fuel =>
      match fmt with
      | [] => Some out
      | c0 :: fmt =>
          if pct then
            r ← conv c0 (default 0 (head fmt)) (default 0 (head (tail fmt))) args;
            let '(o, args, n) := r in
            vprintf_loop fuel (drop n fmt) args false (out ++ o)
          else if decide (c0 = 37) then vprintf_loop fuel fmt args true out
          else vprintf_loop fuel fmt args false (out ++ putc c0)
      end
  end.

Definition vprintf (fmt : list Z) (args : list arg) : option (list Z) := vprintf_loop (S (length fmt)) fmt args false [].

End User.

(** ** Integers are printed in full and read back *)

Definition undigit (digits : list Z) (c : Z) : Z :=
  match list_find (λ x, x = c) digits with Some (i, _) => Z.of_nat i | None => -1 end.
Definition read_digits (digits : list Z) (base : Z) (l : list Z) : Z :=
  foldl (λ v c, v * base + undigit digits c) 0 l.
(** A decimal or hexadecimal numeral with an optional minus sign. *)
Definition read_int (digits : list Z) (base : Z) (l : list Z) : Z :=
  match l with
  | c :: l' => if decide (c = 45) then - read_digits digits base l' else read_digits digits base l
  | [] => 0
  end.

(** The value of digits, least significant first. *)
Fixpoint lev (base : Z) (ds : list Z) : Z := match ds with [] => 0 | d :: ds => d + base * lev base ds end.

Section Digits.
Variables (digits : list Z) (base : Z).
Hypothesis Hbase : 2 ≤ base ≤ 16.
Hypothesis Htable : ∀ k, 0 ≤ k < 16 → undigit digits (digit digits k) = k ∧ digit digits k ≠ 45.

Lemma digits_loop_spec k : ∀ x buf fuel, 0 ≤ x < base ^ Z.of_nat k → (0 < k ≤ fuel)%nat → (length buf + k ≤ 20)%nat →
  ∃ ds, digits_loop digits fuel x base buf = Some (buf ++ (digit digits <$> ds)) ∧ (0 < length ds ≤ k)%nat ∧
    Forall (λ d, 0 ≤ d < base) ds ∧ lev base ds = x.
Proof.
  induction k as [|k IH]; intros x buf fuel Hx Hk Hb; [lia|]. destruct fuel as [|fuel]; [lia|]. cbn [digits_loop].
  unfold push. rewrite decide_True by lia. simpl. pose proof (Z.mod_pos_bound x base) as Hm.
  pose proof (Z.div_mod x base) as Hdm. rewrite Nat2Z.inj_succ, Z.pow_succ_r in Hx by lia.
  destruct (decide (x / base = 0)) as [E|E].
  - exists [x mod base]. simpl. split_and!; [done|lia|lia|repeat constructor; lia|lia].
  - assert (0 < x / base < base ^ Z.of_nat k) as Hq.
    { split; [|apply Z.div_lt_upper_bound; lia]. assert (0 ≤ x / base) by (apply Z.div_pos; lia). lia. }
    destruct k as [|k']; [simpl in Hq; lia|].
    destruct (IH (x / base) (buf ++ [digit digits (x mod base)]) fuel) as (ds & -> & Hl & Hf & Ev); [lia|lia|rewrite length_app; simpl; lia|].
    exists (x mod base :: ds). simpl. rewrite <- app_assoc. split_and!; [done|lia|lia|constructor; [lia|done]|lia].
Qed.

Lemma read_digits_lev ds : Forall (λ d, 0 ≤ d < base) ds → read_digits digits base (reverse (digit digits <$> ds)) = lev base ds.
Proof.
  induction 1 as [|d ds Hd Hds IH]; [done|]. rewrite fmap_cons, reverse_cons. unfold read_digits in *.
  rewrite foldl_app, IH. simpl. destruct (Htable d) as [-> _]; [lia|]. lia.
Qed.

Lemma read_int_digits ds : Forall (λ d, 0 ≤ d < base) ds → (0 < length ds)%nat →
  read_int digits base (reverse (digit digits <$> ds)) = lev base ds.
Proof.
  intros Hds Hl. rewrite <- read_digits_lev by done. destruct (reverse (digit digits <$> ds)) as [|c l] eqn:E.
  - apply (f_equal length) in E. rewrite length_reverse, length_fmap in E. simpl in E. lia.
  - simpl. rewrite decide_False; [done|]. intros ->.
    assert (45 ∈ digit digits <$> ds) as (d & Ed & Hd)%list_elem_of_fmap by (rewrite <- elem_of_reverse, E; by left).
    rewrite list.Forall_forall in Hds. destruct (Htable d) as [_ ?]; [specialize (Hds d Hd); lia|]. done.
Qed.

(** The text of printint, whichever sign rule. *)
Lemma print_signed (neg : bool) x : base = 10 ∨ base = 16 → 0 ≤ x < (if neg then 2 ^ 63 + 1 else 2 ^ 64) →
  ∃ out, (buf ← digits_loop digits 64 x base []; buf ← (if neg then push buf 45 else Some buf); Some (reverse buf)) = Some out ∧
    (length out ≤ 20)%nat ∧ read_int digits base out = if neg then - x else x.
Proof.
  intros Hb Hx.
  assert (x < base ^ (if neg then 19 else 20)) as Hlt by (destruct Hb as [->| ->]; destruct neg; lia).
  destruct (digits_loop_spec (if neg then 19 else 20)%nat x [] 64) as (ds & -> & Hl & Hf & Ev);
    [destruct neg; lia|destruct neg; lia|destruct neg; simpl; lia|].
  simpl. destruct neg.
  - unfold push. rewrite decide_True by (rewrite length_fmap; lia). simpl. eexists. split; [done|]. rewrite reverse_app. simpl. split.
    + rewrite length_reverse, length_fmap. lia.
    + rewrite <- Ev. f_equal. by apply read_digits_lev.
  - eexists. split; [done|]. split; [rewrite length_reverse, length_fmap; lia|]. rewrite <- Ev. apply read_int_digits; [done|lia].
Qed.
End Digits.

Lemma table_ok digits : forallb (λ k, bool_decide (undigit digits (digit digits k) = k) && bool_decide (digit digits k ≠ 45))
    (Z.of_nat <$> seq 0 16) = true →
  ∀ k, 0 ≤ k < 16 → undigit digits (digit digits k) = k ∧ digit digits k ≠ 45.
Proof.
  intros Hf k Hk. rewrite forallb_forall in Hf. specialize (Hf k). rewrite andb_true_iff, !bool_decide_eq_true in Hf. apply Hf.
  apply list_elem_of_In, list_elem_of_fmap. exists (Z.to_nat k). split; [lia|]. apply elem_of_seq. lia.
Qed.

Lemma u64_signed xx : - 2 ^ 63 ≤ xx < 2 ^ 63 →
  (xx < 0 → u64 (- xx) = - xx) ∧ 0 ≤ u64 xx < 2 ^ 64.
Proof.
  intros Hx. split; [intros; apply wrap_small; lia|apply wrap_bound; lia].
Qed.

Lemma printint_both (xx base sign : Z) : - 2 ^ 63 ≤ xx < 2 ^ 63 → (base = 10 ∨ base = 16) →
  ∃ out out', printint xx base sign = Some out ∧ User.printint xx base sign = Some out' ∧
    (length out ≤ 20)%nat ∧ (length out' ≤ 20)%nat ∧
    read_int kdigits base out = (if decide (sign = 0) then u64 xx else xx) ∧
    read_int udigits base out' = (if decide (sign = 0) then u64 xx else xx).
Proof.
  intros Hx Hb. destruct (u64_signed xx Hx) as [Hneg Hpos].
  set (neg := bool_decide (sign ≠ 0 ∧ xx < 0)). set (x := if neg then u64 (- xx) else u64 xx).
  assert (0 ≤ x < (if neg then 2 ^ 63 + 1 else 2 ^ 64)) as Hxr.
  { unfold x, neg. case_bool_decide; [rewrite Hneg by tauto; lia|done]. }
  assert ((if neg then - x else x) = if decide (sign = 0) then u64 xx else xx) as Ev.
  { unfold x, neg. case_bool_decide as Hn.
    - rewrite Hneg, decide_False by tauto. lia.
    - destruct (decide (sign = 0)); [done|]. apply wrap_small. lia. }
  destruct (print_signed kdigits base ltac:(lia) (table_ok kdigits eq_refl) neg x Hb Hxr) as (out & E & Hl & Er).
  destruct (print_signed udigits base ltac:(lia) (table_ok udigits eq_refl) neg x Hb Hxr) as (out' & E' & Hl' & Er').
  exists out, out'. rewrite <- Ev. split_and!; try done.
  - rewrite <- E. unfold printint, x, neg. case_bool_decide as Hn.
    + destruct (decide (sign ≠ 0)), (decide (xx < 0)); tauto || done.
    + destruct (decide (sign ≠ 0)), (decide (xx < 0)); tauto || done.
  - rewrite <- E'. unfold User.printint, x, neg. case_bool_decide as Hn; destruct (decide (sign ≠ 0 ∧ xx < 0)); done.
Qed.

(** Bounds: for every 64-bit argument and both bases, the printint of the
    kernel and that of the user library stay within their 20-byte buffers, and
    the numeral they send reads back as the argument (as an unsigned number
    when the conversion is unsigned). *)
Theorem printint_fits (xx base sign : Z) : - 2 ^ 63 ≤ xx < 2 ^ 63 → (base = 10 ∨ base = 16) →
  ∃ out out', printint xx base sign = Some out ∧ User.printint xx base sign = Some out' ∧
    (length out ≤ 20)%nat ∧ (length out' ≤ 20)%nat ∧
    read_int kdigits base out = (if decide (sign = 0) then u64 xx else xx) ∧
    read_int udigits base out' = (if decide (sign = 0) then u64 xx else xx).
Proof. apply printint_both. Qed.

Lemma printint_fits_witness : ∃ out, printint (- 2 ^ 63) 10 1 = Some out ∧ length out = 20%nat ∧ read_int kdigits 10 out = - 2 ^ 63.
Proof.
  destruct (printint_fits (- 2 ^ 63) 10 1) as (out & out' & E & _ & Hl & _ & Er & _); [lia|lia|].
  exists out. split; [exact E|]. split; [|rewrite Er; reflexivity].
  vm_compute in E. injection E as <-. reflexivity.
Defined.

(** ** The two printf functions agree *)

(** The same byte, or the same hexadecimal digit in the two alphabets. *)
Definition same_char (a b : Z) : Prop := a = b ∨ ∃ k, a = digit kdigits k ∧ b = digit udigits k.
Definition same_text (o o' : list Z) : Prop := Forall2 same_char o o'.
Notation same_out := (option_Forall2 same_text).

(** No argument is the console's code for erasing a character. *)
Definition good_arg (a : arg) : Prop := match a with AInt v => u32 v ≠ BACKSPACE | AStr _ => True end.

Lemma same_text_refl o : same_text o o.
Proof. induction o; constructor; [by left|done]. Qed.
Lemma same_text_snoc o o' c c' : same_text o o' → same_char c c' → same_text (o ++ [c]) (o' ++ [c']).
Proof. intros Ho Hc. apply Forall2_app; [done|]. constructor; [done|constructor]. Qed.

Lemma push_same buf buf' c c' : same_text buf buf' → same_char c c' → same_out (push buf c) (push buf' c').
Proof.
  intros Hb Hc. unfold push. rewrite (Forall2_length Hb). case_decide; constructor. by apply same_text_snoc.
Qed.

Lemma digits_loop_same fuel base : ∀ x buf buf', same_text buf buf' →
  same_out (digits_loop kdigits fuel x base buf) (digits_loop udigits fuel x base buf').
Proof.
  induction fuel as [|fuel IH]; intros x buf buf' Hb; simpl; [constructor|].
  assert (same_char (digit kdigits (x mod base)) (digit udigits (x mod base))) as Hc by (right; eauto).
  destruct (push_same buf buf' _ _ Hb Hc) as [b b' Hb'|]; simpl; [|constructor]. case_decide; [by constructor|by apply IH].
Qed.

Lemma print_same fuel x base (neg : bool) :
  same_out (buf ← digits_loop kdigits fuel x base []; buf ← (if neg then push buf 45 else Some buf); Some (reverse buf))
    (buf ← digits_loop udigits fuel x base []; buf ← (if neg then push buf 45 else Some buf); Some (reverse buf)).
Proof.
  destruct (digits_loop_same fuel base x [] [] (same_text_refl [])) as [b1 b2 Hb|]; simpl; [|constructor]. destruct neg; simpl.
  - destruct (push_same b1 b2 45 45 Hb (or_introl eq_refl)) as [c1 c2 Hc|]; simpl; constructor. by apply Forall2_reverse.
  - constructor. by apply Forall2_reverse.
Qed.

Lemma printint_same xx base sign : same_out (printint xx base sign) (User.printint xx base sign).
Proof.
  unfold printint, User.printint. destruct (decide (sign ≠ 0 ∧ xx < 0)) as [[Hs Hx]|Hn].
  - destruct (decide (sign ≠ 0)); [|done]. destruct (decide (xx < 0)); [|done]. apply (print_same 64 _ _ true).
  - destruct (decide (sign ≠ 0)); [|apply (print_same 64 _ _ false)]. destruct (decide (xx < 0)); [tauto|].
    apply (print_same 64 _ _ false).
Qed.

Lemma ptr_loop_same n : ∀ x, same_text (ptr_loop kdigits n x) (ptr_loop udigits n x).
Proof. induction n as [|n IH]; intros x; simpl; constructor; [right; eauto|apply IH]. Qed.

Definition conv_rel (r r' : list Z * list arg * nat) : Prop :=
  same_text r.1.1 r'.1.1 ∧ r.1.2 = r'.1.2 ∧ r.2 = r'.2 ∧ Forall good_arg r.1.2.

Lemma kconv_same c0 c1 c2 args : Forall good_arg args →
  option_Forall2 conv_rel (kconv c0 c1 c2 args) (User.conv c0 c1 c2 args).
Proof.
  intros Ha. assert (∀ f base sign n, option_Forall2 conv_rel
    (match args with AInt v :: args => out ← printint (f v) base sign; Some (out, args, n) | _ => None end)
    (match args with AInt v :: args => out ← User.printint (f v) base sign; Some (out, args, n) | _ => None end)) as Hint.
  { intros f base sign n. destruct Ha as [|[v|s] args Hv Ha]; try constructor.
    destruct (printint_same (f v) base sign) as [o o' Ho|]; simpl; constructor. by split_and!. }
  unfold kconv, User.conv. repeat (case_decide; [apply Hint|]).
  case_decide; [destruct Ha as [|[v|s] args Hv Ha]; constructor; split_and!; try done; simpl; apply Forall2_app; [apply same_text_refl|apply ptr_loop_same]|].
  case_decide.
  { destruct Ha as [|[v|s] args Hv Ha]; constructor. split_and!; try done. simpl. unfold consputc, User.putc.
    simpl in Hv. rewrite decide_False by done. apply same_text_refl. }
  case_decide; [destruct Ha as [|[v|s] args Hv Ha]; constructor; split_and!; try done; apply same_text_refl|].
  case_decide; constructor; split_and!; try done; apply same_text_refl.
Qed.

Lemma loops_same n : ∀ fmt args out out' f1 f2, (length fmt ≤ n)%nat → (length fmt < f1)%nat → (length fmt < f2)%nat →
  Forall (λ c, 0 < c < 256) fmt → Forall good_arg args → same_text out out' →
  same_out (printf_loop f1 fmt args out) (User.vprintf_loop f2 fmt args false out').
Proof.
  induction n as [|n IH]; intros fmt args out out' f1 f2 Hn Hf1 Hf2 Hfmt Ha Ho;
    (destruct f1 as [|f1]; [lia|]); (destruct f2 as [|f2]; [lia|]); (destruct Hfmt as [|c fmt Hc Hfmt]; [by constructor|]); simpl in *; [lia|].
  destruct (decide (c = 37)) as [->|Hne].
  - rewrite decide_False by (intros ?; done). destruct f2 as [|f2]; [lia|]. destruct Hfmt as [|c0 fmt Hc0 Hfmt]; simpl in *; [by constructor|].
    destruct (kconv_same c0 (default 0 (head fmt)) (default 0 (head (tail fmt))) args Ha) as [[[o a] k] [[o' a'] k'] Hr|]; simpl; [|constructor].
    destruct Hr as (Hoo & Ea & Ek & Ha'). simpl in *. subst a' k'.
    apply IH; [rewrite length_drop; lia|rewrite length_drop; lia|rewrite length_drop; lia|by apply Forall_drop|done|by apply Forall2_app].
  - rewrite decide_True by done. apply IH; [lia|lia|lia|done|done|]. apply Forall2_app; [done|].
    unfold consputc, User.putc, BACKSPACE. rewrite decide_False by lia. apply same_text_refl.
Qed.

(** Equivalence: on every format and argument list the kernel's printf and
    the user library's vprintf send the same bytes, up to the letter case of
    hexadecimal digits, or are both undefined (an argument is missing or of the
    wrong kind); the one exception is a [%c] of the console's erase code 256. *)
Theorem printf_agree (fmt : list Z) (args : list arg) :
  Forall (λ c, 0 < c < 256) fmt → Forall good_arg args → same_out (printf fmt args) (User.vprintf fmt args).
Proof. intros Hf Ha. unfold printf, User.vprintf. eapply loops_same; [done|lia|lia|done|done|constructor]. Qed.

Lemma printf_agree_witness :
  same_out (printf [37; 108; 120; 32; 37; 115] [AInt 254; AStr None]) (User.vprintf [37; 108; 120; 32; 37; 115] [AInt 254; AStr None]) ∧
  printf [37; 108; 120; 32; 37; 115] [AInt 254; AStr None] = Some [102; 101; 32; 40; 110; 117; 108; 108; 41].
Proof.
  split; [|vm_compute; reflexivity]. apply (printf_agree [37; 108; 120; 32; 37; 115] [AInt 254; AStr None]).
  - repeat constructor; lia.
  - repeat constructor; done.
Defined.
