(* ===== verification/FsPath.v ===== *)
(** * Path names

    The loop of namex over skipelem (kernel/fs.c) visits exactly the components
    of the path. *)

From S2P Require Import Prelude Params FsDefs Fs.

(** The names that repeated calls of [skipelem] copy, as namex makes them. *)
Fixpoint elems (fuel : nat) (path : list Z) : option (list (list Z)) :=
  match fuel with
  | O => None
  | S fuel =>
      match skipelem path with
      | None => Some []
      | Some (rest, name) => names ← elems fuel rest; Some (name :: names)
      end
  end.

(** The pieces of a path between slashes. *)
Fixpoint split_slash (path : list Z) : list (list Z) :=
  match path with
  | [] => [[]]
  | c :: path => if decide (c = slash) then [] :: split_slash path
                 else match split_slash path with [] => [[c]] | h :: t => (c :: h) :: t end
  end.

Definition components (path : list Z) : list (list Z) := filter (λ e, e ≠ []) (split_slash path).

Lemma split_slash_cons path : ∃ h t, split_slash path = h :: t.
Proof. destruct path as [|c path]; simpl; [eauto|]. case_decide; [eauto|]. destruct (split_slash path); eauto. Qed.

Lemma components_skip path : components (skip_slashes path) = components path.
Proof.
  induction path as [|c path IH]; simpl; [done|]. case_decide as E; [|done]. rewrite IH. unfold components. simpl.
  by rewrite decide_True by done.
Qed.

Lemma skip_slashes_head path c p : skip_slashes path = c :: p → c ≠ slash.
Proof. induction path as [|x path IH]; simpl; [done|]. case_decide; [auto|]. by intros [= -> ->]. Qed.

Lemma skip_slashes_length path : (length (skip_slashes path) ≤ length path)%nat.
Proof. induction path as [|c path IH]; simpl; [lia|]. case_decide; simpl; lia. Qed.

Lemma skip_elem_spec path e r : skip_elem path = (e, r) →
  path = e ++ r ∧ split_slash path = e :: match r with [] => [] | _ :: r' => split_slash r' end.
Proof.
  revert e r. induction path as [|c path IH]; intros e r; simpl; [by intros [= <- <-]|].
  destruct (decide (c = slash)) as [->|Hc].
  - rewrite decide_False by (intros ?; done). by intros [= <- <-].
  - rewrite decide_True by done. destruct (skip_elem path) as [e' r'] eqn:E. intros [= <- <-].
    destruct (IH e' r' eq_refl) as [-> ->]. done.
Qed.

Lemma skip_elem_nonempty c p : c ≠ slash → ∃ e r, skip_elem (c :: p) = (c :: e, r).
Proof. intros Hc. simpl. rewrite decide_True by done. destruct (skip_elem p); eauto. Qed.

Lemma skip_elem_stops path e r : skip_elem path = (e, r) → match r with [] => True | c :: _ => c = slash end.
Proof.
  revert e r. induction path as [|c path IH]; intros e r; simpl; [by intros [= <- <-]|].
  destruct (decide (c = slash)) as [->|Hc]; [rewrite decide_False by (intros ?; done); by intros [= <- <-]|].
  rewrite decide_True by done. destruct (skip_elem path) as [e' r'] eqn:Es. intros [= <- <-]. by eapply IH.
Qed.

(** One call of [skipelem] takes the first component off. *)
Lemma skipelem_spec path :
  match skipelem path with
  | None => components path = []
  | Some (rest, name) => ∃ e, components path = e :: components rest ∧ name = take 14 e ∧ (length rest < length path)%nat ∧
      (rest = [] ↔ components rest = [])
  end.
Proof.
  unfold skipelem. pose proof (components_skip path) as Ec. pose proof (skip_slashes_length path) as Hlen.
  destruct (skip_slashes path) as [|c p] eqn:Ep; [by rewrite <- Ec|]. apply skip_slashes_head in Ep.
  destruct (skip_elem_nonempty c p Ep) as (e & r & E). rewrite E. pose proof (skip_elem_stops _ _ _ E) as Hr.
  apply skip_elem_spec in E as [E1 E2]. exists (c :: e).
  assert (components path = (c :: e) :: components (skip_slashes r)) as ->.
  { rewrite <- Ec. unfold components at 1. rewrite E2, filter_cons, decide_True by done. f_equal. destruct r as [|x r]; [done|].
    subst x. rewrite components_skip. unfold components. change (split_slash (slash :: r)) with ([] :: split_slash r).
    by rewrite filter_cons, decide_False by tauto. }
  split_and!; [done| | |].
  - change (Z.to_nat DIRSIZ) with 14%nat. case_decide as Hd; [done|]. rewrite take_ge; [done|]. unfold DIRSIZ in Hd. lia.
  - pose proof (skip_slashes_length r). rewrite E1, length_app in Hlen. simpl in Hlen. lia.
  - destruct (skip_slashes r) as [|x q] eqn:Eq; [done|]. apply skip_slashes_head in Eq. split; [done|].
    destruct (skip_elem_nonempty x q Eq) as (e' & r' & E'). apply skip_elem_spec in E' as [_ E'].
    unfold components. rewrite E', filter_cons, decide_True by done. done.
Qed.

(** C36 Equivalence: repeated skipelem, as the loop of namex calls it, ends and
    copies the non-empty components of the path between slashes, in order and
    each cut to DIRSIZ bytes; what skipelem returns is empty exactly after the
    last component, which is how namex recognises it. *)
Theorem skipelem_components (path : list Z) :
  elems (S (length path)) path = Some (take 14 <$> components path) ∧
  ∀ rest name, skipelem path = Some (rest, name) → (rest = [] ↔ length (components path) = 1%nat).
Proof.
  split.
  - enough (∀ n path, (length path < n)%nat → elems n path = Some (take 14 <$> components path)) as H by (apply H; lia).
    induction n as [|n IH]; intros p Hp; [lia|]. cbn [elems]. pose proof (skipelem_spec p) as Hs.
    destruct (skipelem p) as [[rest name]|]; [|by rewrite Hs]. destruct Hs as (e & -> & -> & Hl & _). rewrite IH by lia. done.
  - intros rest name E. pose proof (skipelem_spec path) as Hs. rewrite E in Hs. destruct Hs as (e & -> & _ & _ & ->). simpl.
    split; [by intros ->|]. intros Hl. destruct (components rest); [done|simpl in Hl; lia].
Qed.

Lemma skipelem_components_witness : elems 7 [47; 97; 47; 47; 98; 98] = Some [[97]; [98; 98]] ∧
  (skipelem [47; 97; 47; 47; 98; 98] = Some ([98; 98], [97]) ∧ [98; 98] ≠ []).
Proof.
  destruct (skipelem_components [47; 97; 47; 47; 98; 98]) as [E _]. split; [etransitivity; [exact E|reflexivity]|].
  split; [reflexivity|discriminate].
Defined.
