(* ===== verification/FsTx.v ===== *)
(** * Reading and writing blocks inside a transaction

    [tx f V bs X]: the process is inside a transaction whose log lists [bs];
    it holds the blocks [X]; the current contents of block [b] are [V b],
    whether in the cache or on disk.  The rules below are the operations of
    bio.c and log.c as fs.c uses them. *)

From S2P Require Import Prelude Params CString Spinlock ProcDefs WaitQueue Sched Memory FsDefs Seq Sleeplock Bio BioInv BioSpec Log Fs LogCrash LogSpec AddressSpace FsExample LogTheorems.

Section Tx.
Context {S : Type} `{HasFs S}.
Variables (s0 : S) (me : nat) (mep : proc) (sleeplocks : list Z) (patience : nat) (bcache start : Z).
Hypothesis Henv : fs_env s0 me mep sleeplocks bcache.

Record tx (f : fsst) (V : Z → list Z) (bs X : list Z) : Prop := mkInTx {
  t_cache : bst mep bcache f V bs X;
  t_log : logged start (log f) bs;
  t_open : 1 ≤ outstanding (log f);
}.

(** What a step leaves alone: everything but the cache and the list of logged
    blocks; the buffers of the blocks [X] stay where they are. *)
Record tstep (X : list Z) (f f' : fsst) : Prop := mkTstep {
  ts_inodes : inodes f' = inodes f;
  ts_files : files f' = files f;
  ts_sb : sb f' = sb f;
  ts_out : outstanding (log f') = outstanding (log f);
  ts_com : committing (log f') = committing (log f);
  ts_disk : disk f' = disk f;
  ts_slocks : ∀ a, (∀ i, a ≠ b_lock bcache i) → slocks f' !! a = slocks f !! a;
  ts_bufs : ∀ j c, c ∈ X → caches (metas f) j c → caches (metas f') j c;
}.

Lemma tstep_refl X f : tstep X f f.
Proof. by split. Qed.

Lemma tstep_trans X Y f1 f2 f3 : tstep X f1 f2 → tstep Y f2 f3 → (∀ c, c ∈ X → c ∈ Y) → tstep X f1 f3.
Proof. intros [] [] HXY. split; try congruence; [intros a Ha; by rewrite ts_slocks1, ts_slocks0|auto]. Qed.

Lemma tstep_weaken X Y f f' : tstep X f f' → (∀ c, c ∈ Y → c ∈ X) → tstep Y f f'.
Proof. intros [] HYX. split; auto. Qed.

Lemma bio_tstep X f f' : bio_frame bcache f f' → disk f' = disk f →
  (∀ j c, c ∈ X → caches (metas f) j c → caches (metas f') j c) → tstep X f f'.
Proof. intros (El & ? & ? & ? & ?) ? ?. split; rewrite ?El; done. Qed.

Definition room (bs X : list Z) : Prop := Z.of_nat (length bs + length X) < NBUF.

(** A held block may be given back once it is logged, or unchanged. *)
Definition clean (f : fsst) (V : Z → list Z) (bs : list Z) (b : Z) : Prop := b ∈ bs ∨ V b = image (disk f) b.

Lemma tx_bread f V bs X b (Q : nat → list lockid → fsst → Prop) :
  tx f V bs X → b ∉ X → (b ∈ bs ∨ room bs X) →
  (∀ i f', tx f' V bs (b :: X) → tstep X f f' → caches (metas f') i b → clean f' V bs b → Q i [] f') →
  fwp s0 [] (bread patience bcache 1 b) f Q.
Proof.
  intros [Hb Hl Ho] HbX Hroom HQ. destruct Henv as [Hbase Hlocks].
  eapply fwp_mono; [by apply (bread_spec _ _ _ _ _ _ Hbase Hlocks f V bs X b)|].
  intros i ? f' (-> & Hb' & Hi & Hf & Ed & Hc). apply HQ; [|by apply bio_tstep|done|].
  - split; [done|by rewrite (proj1 Hf)|by rewrite (proj1 Hf)].
  - destruct (decide (b ∈ bs)); [by left|right]. rewrite Ed. by eapply bst_idle.
Qed.

Lemma tx_brelse f V bs X1 X2 i b (Q : unit → list lockid → fsst → Prop) :
  tx f V bs (X1 ++ b :: X2) → caches (metas f) i b → clean f V bs b →
  (∀ f', tx f' V bs (X1 ++ X2) → tstep (X1 ++ X2) f f' → Q tt [] f') →
  fwp s0 [] (brelse bcache i) f Q.
Proof.
  intros [Hb Hl Ho] Hi Hcl HQ. destruct Henv as [Hbase Hlocks].
  eapply (brelse_spec _ _ _ _ _ Hbase Hlocks f V bs X1 X2 i b); [done..|].
  intros f' Hb' Hf Ed Hc. apply HQ; [|apply bio_tstep; [done|done|intros j c _; apply Hc]].
  split; [done|by rewrite (proj1 Hf)|by rewrite (proj1 Hf)].
Qed.

Lemma tx_buf_at held f V bs X i b (Q : buf → list lockid → fsst → Prop) : tx f V bs X → caches (metas f) i b →
  (∀ x, data x = V b → blockno x = b → Q x held f) → fwp s0 held (buf_at i) f Q.
Proof.
  intros [Hb _ _] Hi HQ. destruct (bst_buf _ _ f V bs X i b Hb Hi) as (x & Hx & _ & Eb & Ed & _).
  eapply fwp_buf_at; [done|]. by apply HQ.
Qed.

Lemma tx_buf {A} held f V bs X i b (K : buf → M S A) Q : tx f V bs X → caches (metas f) i b →
  (∀ x, data x = V b → blockno x = b → fwp s0 held (K x) f Q) → fwp s0 held (x <- buf_at i ;; K x) f Q.
Proof. intros Ht Hi HK. apply fwp_bind. by eapply tx_buf_at. Qed.

Lemma tx_mod_data f V bs X i b g (Q : unit → list lockid → fsst → Prop) :
  tx f V bs X → caches (metas f) i b → b ∈ X →
  (∀ f', tx f' (img1 b (g (V b)) V) bs X → tstep X f f' → caches (metas f') i b → Q tt [] f') →
  fwp s0 [] (mod_data i g) f Q.
Proof.
  intros [Hb Hl Ho] Hi HbX HQ. destruct Henv as [Hbase Hlocks]. unfold mod_data.
  eapply fwp_upd_data; [done|done|done|]. intros f' Hb' Hf Ed Hc.
  apply HQ; [|apply bio_tstep; [done|done|intros j c _; apply Hc]|by apply Hc].
  split; [done|by rewrite (proj1 Hf)|by rewrite (proj1 Hf)].
Qed.

Lemma tx_set_data f V bs X i b d (Q : unit → list lockid → fsst → Prop) :
  tx f V bs X → caches (metas f) i b → b ∈ X →
  (∀ f', tx f' (img1 b d V) bs X → tstep X f f' → caches (metas f') i b → Q tt [] f') →
  fwp s0 [] (mod_buf i (set_data d)) f Q.
Proof. intros Ht Hi HbX HQ. by apply (tx_mod_data f V bs X i b (λ _, d)). Qed.

Lemma tx_log_write f V bs X i b (Q : unit → list lockid → fsst → Prop) :
  tx f V bs X → caches (metas f) i b → 0 ≤ b < 2 ^ 31 → Z.of_nat (length bs) < LOGBLOCKS →
  (∀ f', tx f' V (log_add b bs) X → tstep X f f' → caches (metas f') i b → Q tt [] f') →
  fwp s0 [] (log_write i) f Q.
Proof.
  intros [Hb Hl Ho] Hi Hbn Hroom HQ. destruct Henv as [Hbase Hlocks].
  eapply (log_write_spec _ _ _ _ _ Hbase Hlocks start f V bs X i b); [done..|].
  intros f' Hb' Hl' Eo Ec (El & E1 & E2 & E3 & E4) Ed Hc. apply HQ; [|by split; try done; intros j c _; apply Hc|by apply Hc].
  split; [done|done|lia].
Qed.

(** Change a held block and log it. *)
Lemma tx_modlog {A} f V bs X i b g (R : M S A) (Q : A → list lockid → fsst → Prop) :
  tx f V bs X → caches (metas f) i b → b ∈ X → 0 ≤ b < 2 ^ 31 → Z.of_nat (length bs) < LOGBLOCKS →
  (∀ f', tx f' (img1 b (g (V b)) V) (log_add b bs) X → tstep X f f' → caches (metas f') i b → fwp s0 [] R f' Q) →
  fwp s0 [] (mod_data i g ;; log_write i ;; R) f Q.
Proof.
  intros Ht Hi HX Hbn Hroom HQ. apply fwp_bind. eapply tx_mod_data; [done..|]. intros f1 Ht1 Hs1 Hi1.
  apply fwp_bind. eapply tx_log_write; [done..|]. intros f2 Ht2 Hs2 Hi2.
  apply HQ; [done|by eapply tstep_trans|done].
Qed.

End Tx.

Lemma in_log_add b bs : b ∈ log_add b bs.
Proof. unfold log_add. case_decide; set_solver. Qed.
Lemma log_add_mono b c bs : c ∈ bs → c ∈ log_add b bs.
Proof. unfold log_add. case_decide; set_solver. Qed.
Lemma log_add_length b bs : (length bs ≤ length (log_add b bs) ≤ length bs + 1)%nat.
Proof. unfold log_add. case_decide; rewrite ?length_app; simpl; lia. Qed.
Lemma img1_same b d V : img1 b d V b = d.
Proof. unfold img1. by rewrite decide_True. Qed.
Lemma img1_other b d V c : c ≠ b → img1 b d V c = V c.
Proof. intros. unfold img1. by rewrite decide_False. Qed.

(** Composes the steps in the context. *)
Ltac tchain :=
  match goal with |- tstep ?b ?X _ _ =>
    solve [eapply tstep_weaken; [eassumption|set_solver]
          | eapply (tstep_trans b X X); [eapply tstep_weaken; [eassumption|set_solver]|tchain|done]]
  end.

(** The example machine inside a transaction that has changed nothing. *)
Definition ex_open (img : Z → list Z) : fsst := set_log (set_outstanding 1 (log (ex_fs img))) (ex_fs img).

Lemma ex_tx img : tx ex_vm_proc ex_bcache 2 (ex_open img) img [] [].
Proof. split; [exact (ex_fs_bst img)|by split|done]. Qed.
