(* ===== verification/FsAlloc.v ===== *)
(** * The block allocator (balloc and bfree of kernel/fs.c) *)

From S2P Require Import Prelude Params CString Spinlock ProcDefs WaitQueue Sched Memory FsDefs Seq Sleeplock Bio BioInv BioSpec Log Fs LogCrash LogSpec AddressSpace FsExample LogTheorems FsTx.

Definition zero_block : list Z := replicate (Z.to_nat BSIZE) 0.

(** The bit of block [b] in the free map. *)
Definition bit_mask (b : Z) : Z := Z.shiftl 1 (b mod BPB mod 8).
Definition map_byte (b : Z) : Z := b mod BPB / 8.
Definition in_use (s : superblock) (V : Z → list Z) (b : Z) : Prop :=
  Z.land (byte_at (map_byte b) (V (BBLOCK b s))) (bit_mask b) ≠ 0.
#[global] Instance in_use_dec s V b : Decision (in_use s V b).
Proof. unfold in_use. apply _. Defined.

Definition used (s : superblock) (V : Z → list Z) (b : Z) : Prop := 0 ≤ b < sbsize s ∧ in_use s V b.

Definition set_bit (b : Z) (d : list Z) : list Z := put_byte (map_byte b) (Z.lor (byte_at (map_byte b) d) (bit_mask b)) d.
Definition clear_bit (b : Z) (d : list Z) : list Z :=
  put_byte (map_byte b) (Z.land (byte_at (map_byte b) d) (Z.lnot (bit_mask b))) d.

(** Setting and clearing one bit changes the status of that block only. *)
Lemma land_bit a k : 0 ≤ k → Z.land a (Z.shiftl 1 k) ≠ 0 ↔ Z.testbit a k = true.
Proof.
  intros Hk. rewrite Z.shiftl_1_l. split.
  - intros Hn. destruct (Z.testbit a k) eqn:E; [done|]. exfalso. apply Hn. apply Z.bits_inj'. intros n Hn0.
    rewrite Z.land_spec, Z.bits_0, Z.pow2_bits_eqb by lia. destruct (Z.eqb_spec k n) as [->|]; [by rewrite E|apply andb_false_r].
  - intros E Hz. apply (f_equal (λ z, Z.testbit z k)) in Hz. rewrite Z.land_spec, Z.bits_0, Z.pow2_bits_true, E in Hz by lia. done.
Qed.

Section Bits.
Variables (d : list Z).
Hypothesis Hlen : Z.of_nat (length d) = BSIZE.

Definition bit_of (b : Z) (d : list Z) : bool := Z.testbit (byte_at (map_byte b) d) (b mod BPB mod 8).

Lemma map_byte_bound b : 0 ≤ map_byte b < BSIZE.
Proof.
  unfold map_byte, BPB, BSIZE. pose proof (Z.mod_pos_bound b (1024 * 8)).
  split; [apply Z.div_pos; lia|apply Z.div_lt_upper_bound; lia].
Qed.

Lemma byte_put i j v : 0 ≤ i < BSIZE → 0 ≤ j → byte_at j (put_byte i v d) = if decide (j = i) then v else byte_at j d.
Proof.
  intros Hi Hj. unfold byte_at, put_byte. destruct (decide (j = i)) as [->|Hne].
  - rewrite list_lookup_insert_eq by lia. done.
  - rewrite list_lookup_insert_ne by lia. done.
Qed.

Lemma bit_pos b c : map_byte b = map_byte c → b mod BPB mod 8 = c mod BPB mod 8 → b mod BPB = c mod BPB.
Proof. unfold map_byte. intros E1 E2. rewrite (Z.div_mod (b mod BPB) 8), (Z.div_mod (c mod BPB) 8) by lia. by rewrite E1, E2. Qed.

Lemma bit_set b c : bit_of c (set_bit b d) = if decide (c mod BPB = b mod BPB) then true else bit_of c d.
Proof.
  unfold bit_of, set_bit. pose proof (map_byte_bound b). pose proof (map_byte_bound c).
  rewrite byte_put by lia. pose proof (Z.mod_pos_bound (b mod BPB) 8). pose proof (Z.mod_pos_bound (c mod BPB) 8).
  destruct (decide (map_byte c = map_byte b)) as [E|E].
  - unfold bit_mask. rewrite Z.lor_spec, Z.shiftl_1_l, Z.pow2_bits_eqb by lia. rewrite E.
    destruct (Z.eqb_spec (b mod BPB mod 8) (c mod BPB mod 8)) as [E2|E2].
    + rewrite decide_True by (by apply bit_pos). apply orb_true_r.
    + rewrite decide_False by (intros Ec; by rewrite Ec in E2). apply orb_false_r.
  - rewrite decide_False; [done|]. intros Ec. apply E. unfold map_byte. by rewrite Ec.
Qed.

Lemma bit_clear b c : bit_of c (clear_bit b d) = if decide (c mod BPB = b mod BPB) then false else bit_of c d.
Proof.
  unfold bit_of, clear_bit. pose proof (map_byte_bound b). pose proof (map_byte_bound c).
  rewrite byte_put by lia. pose proof (Z.mod_pos_bound (b mod BPB) 8). pose proof (Z.mod_pos_bound (c mod BPB) 8).
  destruct (decide (map_byte c = map_byte b)) as [E|E].
  - unfold bit_mask. rewrite Z.land_spec, Z.lnot_spec, Z.shiftl_1_l, Z.pow2_bits_eqb by lia. rewrite E.
    destruct (Z.eqb_spec (b mod BPB mod 8) (c mod BPB mod 8)) as [E2|E2].
    + rewrite decide_True by (by apply bit_pos). apply andb_false_r.
    + rewrite decide_False by (intros Ec; by rewrite Ec in E2). apply andb_true_r.
  - rewrite decide_False; [done|]. intros Ec. apply E. unfold map_byte. by rewrite Ec.
Qed.
End Bits.

Lemma in_use_bit s V b : in_use s V b ↔ bit_of b (V (BBLOCK b s)) = true.
Proof. unfold in_use, bit_of, bit_mask. apply land_bit. apply Z.mod_pos_bound. lia. Qed.

Lemma length_set_bit b d : length (set_bit b d) = length d.
Proof. unfold set_bit, put_byte. apply length_insert. Qed.
Lemma length_clear_bit b d : length (clear_bit b d) = length d.
Proof. unfold clear_bit, put_byte. apply length_insert. Qed.

(** The free map of a file system as balloc relies on it: the map blocks exist,
    are marked in use themselves, and the caller holds no map block and no free
    block. *)
Record free_map (s : superblock) (V : Z → list Z) (X : list Z) : Prop := mkFreeMap {
  fm_size : 0 ≤ sbsize s;
  fm_start : 0 ≤ bmapstart s ∧ bmapstart s + sbsize s < 2 ^ 31;
  fm_free : ∀ c, 0 ≤ c < sbsize s → BBLOCK c s ∉ X;
  fm_len : ∀ c, 0 ≤ c < sbsize s → Z.of_nat (length (V (BBLOCK c s))) = BSIZE;
  fm_held : ∀ c, c ∈ X → used s V c;
  fm_self : ∀ c, 0 ≤ c < sbsize s → used s V (BBLOCK c s);
}.

Lemma map_block s V X c : free_map s V X → 0 ≤ c < sbsize s → BBLOCK c s = c / BPB + bmapstart s ∧ 0 ≤ BBLOCK c s < 2 ^ 31.
Proof.
  intros [Hs [H1 H2] _ _ _ _] Hc. assert (0 ≤ c / BPB ≤ c).
  { split; [apply Z.div_pos; unfold BPB, BSIZE; lia|]. apply Z.div_le_upper_bound; unfold BPB, BSIZE; lia. }
  unfold BBLOCK. rewrite u32_small by lia. lia.
Qed.

(** Bit [j] of map block [k] belongs to block [k * BPB + j]. *)
Section Position.
Variables (s : superblock) (V : Z → list Z) (k j : Z).
Hypothesis Hj : 0 ≤ j < BPB.
Notation c := (k * BPB + j).

Lemma pos_mod : c mod BPB = j.
Proof. rewrite Z.add_comm, Z.mod_add by done. by apply Z.mod_small. Qed.
Lemma pos_div : c / BPB = k.
Proof. rewrite Z.add_comm, Z.div_add by done. by rewrite Z.div_small. Qed.
Lemma pos_block : BBLOCK c s = BBLOCK (k * BPB) s.
Proof. unfold BBLOCK. rewrite pos_div. by rewrite Z.div_mul. Qed.
Lemma pos_in_use : in_use s V c ↔ Z.land (byte_at (j / 8) (V (BBLOCK (k * BPB) s))) (Z.shiftl 1 (j mod 8)) ≠ 0.
Proof. unfold in_use, map_byte, bit_mask. by rewrite pos_mod, pos_block. Qed.
Lemma pos_set_bit d : set_bit c d = put_byte (j / 8) (Z.lor (byte_at (j / 8) d) (Z.shiftl 1 (j mod 8))) d.
Proof. unfold set_bit, map_byte, bit_mask. by rewrite pos_mod. Qed.
End Position.

Section Alloc.
Context {S : Type} `{HasFs S}.
Variables (s0 : S) (me : nat) (mep : proc) (sleeplocks : list Z) (patience : nat) (bcache start : Z).
Hypothesis Henv : fs_env s0 me mep sleeplocks bcache.
Notation tx := (tx mep bcache start).
Notation tstep := (tstep bcache).
Notation bzero := (bzero patience bcache).
Notation balloc := (balloc patience bcache).
Notation bfree := (bfree patience bcache).

(** The caches and the log have room for [n] more blocks. *)
Definition space (n : Z) (bs X : list Z) : Prop := Z.of_nat (length bs + length X) + n ≤ LOGBLOCKS.

Lemma space_room n bs X : 1 ≤ n → space n bs X → room bs X.
Proof. unfold space, room. change NBUF with LOGBLOCKS. lia. Qed.
Lemma space_log n bs X : 1 ≤ n → space n bs X → Z.of_nat (length bs) < LOGBLOCKS.
Proof. unfold space. lia. Qed.
Lemma space_add n b bs X : space n bs X → space (n - 1) (log_add b bs) X.
Proof. unfold space. pose proof (log_add_length b bs). lia. Qed.

Lemma bzero_spec f V bs X b (Q : unit → list lockid → fsst → Prop) :
  tx f V bs X → b ∉ X → 0 ≤ b < 2 ^ 31 → space 1 bs X →
  (∀ f', tx f' (img1 b zero_block V) (log_add b bs) X → tstep X f f' → Q tt [] f') →
  fwp s0 [] (bzero 1 b) f Q.
Proof.
  intros Ht HX Hb Hsp HQ. unfold Fs.bzero. apply fwp_bind.
  eapply tx_bread; [done|done|done|right; by apply (space_room 1)|]. intros i f1 Ht1 Hs1 Hi1 _.
  change (mod_buf i (set_data (replicate (Z.to_nat BSIZE) 0))) with (mod_data i (λ _, zero_block)).
  eapply tx_modlog; [done|done|done|set_solver|done|by eapply space_log|]. intros f2 Ht2 Hs2 Hi2.
  eapply (tx_brelse _ _ _ _ _ _ Henv _ _ _ [] X); [done|done|left; apply in_log_add|]. intros f3 Ht3 Hs3.
  apply HQ; [done|]. tchain.
Qed.

(** What balloc leaves when it allocates block [a]. *)
Definition balloc_image (s : superblock) (a : Z) (V : Z → list Z) : Z → list Z :=
  img1 a zero_block (img1 (BBLOCK a s) (set_bit a (V (BBLOCK a s))) V).
Definition balloc_log (s : superblock) (a : Z) (bs : list Z) : list Z := log_add a (log_add (BBLOCK a s) bs).

Definition allocated (f : fsst) (V : Z → list Z) (bs X : list Z) (a : Z) (f' : fsst) : Prop :=
  0 ≤ a < sbsize (sb f) ∧ ¬ in_use (sb f) V a ∧ (∀ c, 0 ≤ c < a → in_use (sb f) V c) ∧
  tx f' (balloc_image (sb f) a V) (balloc_log (sb f) a bs) X ∧ tstep X f f'.

Section Scan.
Variables (f : fsst) (V : Z → list Z) (bs X : list Z).
Notation s := (sb f).
Hypothesis Hmap : free_map s V X.
Hypothesis Hsp : space 2 bs X.

(** The state between two iterations of the inner loop. *)
Definition scanning (k : Z) (i : nat) (j : Z) (g : fsst) : Prop :=
  tx g V bs (BBLOCK (k * BPB) s :: X) ∧ tstep X f g ∧ caches (metas g) i (BBLOCK (k * BPB) s) ∧
  clean g V bs (BBLOCK (k * BPB) s) ∧ (∀ c, 0 ≤ c < k * BPB + j → in_use s V c).

Lemma balloc_bit_spec k i j g : 0 ≤ k → 0 ≤ j < BPB → k * BPB + j < sbsize s → scanning k i j g →
  fwp s0 [] (balloc_bit patience bcache 1 i (k * BPB) j) g (λ r held' g',
    held' = [] ∧ match r with Some a => allocated f V bs X a g' | None => scanning k i (j + 1) g' end).
Proof.
  intros Hk Hj Hlt (Ht & Hs & Hi & Hcl & Hused). unfold balloc_bit. set (m := Z.shiftl 1 (j mod 8)).
  assert (0 ≤ k * BPB + j < sbsize s) as Hc by (unfold BPB, BSIZE in *; lia).
  destruct (map_block _ _ _ _ Hmap Hc) as [_ Hbb]. pose proof (fm_free _ _ _ Hmap _ Hc) as HbbX. rewrite pos_block in Hbb, HbbX by done.
  eapply tx_buf; [done|done|]. intros x Hx _. rewrite Hx.
  case_decide as Hfree.
  2: { apply fwp_ret. split; [done|]. split_and!; try done. intros c Hc'.
       destruct (decide (c = k * BPB + j)) as [->|]; [by apply pos_in_use|apply Hused; lia]. }
  assert (¬ in_use s V (k * BPB + j)) as Hnu by (rewrite pos_in_use by done; tauto).
  eapply tx_modlog; [done|done|done|set_solver|done|by eapply (space_log 2)|]. intros f1 Ht1 Hs1 Hi1.
  apply fwp_bind. eapply (tx_brelse _ _ _ _ _ _ Henv _ _ _ [] X); [done|done|left; apply in_log_add|]. intros f2 Ht2 Hs2.
  apply fwp_bind. eapply bzero_spec; [done|by intros [_ Hin]%(fm_held _ _ _ Hmap)|pose proof (fm_start _ _ _ Hmap); lia|by apply (space_add 2)|].
  intros f3 Ht3 Hs3. apply fwp_ret. split; [done|]. split_and!; try done; try lia.
  - unfold balloc_image, balloc_log. by rewrite pos_block, pos_set_bit.
  - tchain.
Qed.

(** One iteration of the outer loop. *)
Lemma balloc_map_block k g : 0 ≤ k → k * BPB < sbsize s →
  tx g V bs X → tstep X f g → (∀ c, 0 ≤ c < k * BPB → in_use s V c) →
  fwp s0 [] (bp <- bread patience bcache 1 (BBLOCK (k * BPB) s) ;;
    r <- for_loop (Z.to_nat (Z.min BPB (sbsize s - k * BPB))) 0 (balloc_bit patience bcache 1 bp (k * BPB)) ;;
    match r with Some a => ret (Some a) | None => brelse bcache bp ;; ret None end) g
  (λ r held' g', held' = [] ∧ match r with
     | Some a => allocated f V bs X a g'
     | None => tx g' V bs X ∧ tstep X f g' ∧ (∀ c, 0 ≤ c < Z.min ((k + 1) * BPB) (sbsize s) → in_use s V c)
     end).
Proof.
  intros Hk Hlt Ht Hs Hused. assert (0 ≤ k * BPB < sbsize s) as Hc by (unfold BPB, BSIZE in *; lia).
  pose proof (fm_free _ _ _ Hmap _ Hc) as HbbX.
  apply fwp_bind. eapply tx_bread; [done|done|done|right; by apply (space_room 2)|]. intros i f1 Ht1 Hs1 Hi1 Hcl1.
  apply fwp_bind. eapply (fwp_for_loop _ _ _ (scanning k i)).
  - split_and!; try done; [by eapply tstep_trans|]. intros c ?. apply Hused. lia.
  - intros j g' Hj Hsc. eapply fwp_mono; [apply balloc_bit_spec; [done|lia|lia|done]|].
    intros [a|] held' g'' [-> Hg'']; [|done]. cbv beta. apply fwp_ret. done.
  - intros g' (Ht' & Hs' & Hi' & Hcl' & Hused'). apply fwp_bind.
    eapply (tx_brelse _ _ _ _ _ _ Henv _ _ _ [] X); [done|done|done|]. intros f2 Ht2 Hs2. apply fwp_ret.
    split; [done|]. split_and!; [done|by eapply tstep_trans|]. intros c ?. apply Hused'. unfold BPB, BSIZE in *. lia.
Qed.

Lemma balloc_spec : tx f V bs X →
  fwp s0 [] (balloc 1) f (λ a held' f', held' = [] ∧
    (allocated f V bs X a f' ∨
     a = 0 ∧ (∀ c, 0 ≤ c < sbsize s → in_use s V c) ∧ tx f' V bs X ∧ tstep X f f')).
Proof.
  intros Ht. unfold Fs.balloc. apply fwp_bind. unfold get_sb. apply fwp_bind, fwp_get, fwp_ret.
  set (n := (sbsize s + BPB - 1) / BPB). pose proof (fm_size _ _ _ Hmap) as Hsz.
  assert (0 ≤ n ∧ (n - 1) * BPB < sbsize s ∧ sbsize s ≤ n * BPB) as (Hn & Hn1 & Hn2).
  { subst n. unfold BPB, BSIZE. pose proof (Z.div_mod (sbsize s + 1024 * 8 - 1) (1024 * 8)).
    pose proof (Z.mod_pos_bound (sbsize s + 1024 * 8 - 1) (1024 * 8)). lia. }
  apply fwp_bind. apply (fwp_for_loop _ _ _ (λ k g, tx g V bs X ∧ tstep X f g ∧ (∀ c, 0 ≤ c < Z.min (k * BPB) (sbsize s) → in_use s V c))).
  - split_and!; [done|apply tstep_refl|]. intros c ?. lia.
  - intros k g Hk (Ht' & Hs' & Hused). assert (k * BPB < sbsize s) by (unfold BPB, BSIZE in *; nia).
    eapply fwp_mono; [apply balloc_map_block; [lia|done|done|done|]|].
    + intros c ?. apply Hused. lia.
    + intros [a|] held' g' [-> Hg']; [|done]. apply fwp_ret. split; [done|]. by left.
  - intros g (Ht' & Hs' & Hused). apply fwp_ret. split; [done|]. right. split_and!; try done. intros c ?.
    apply Hused. rewrite Z.add_0_l, Z2Nat.id by done. lia.
Qed.
End Scan.

Definition bfree_image (s : superblock) (b : Z) (V : Z → list Z) : Z → list Z :=
  img1 (BBLOCK b s) (clear_bit b (V (BBLOCK b s))) V.

Lemma bfree_spec f V bs X b (Q : unit → list lockid → fsst → Prop) :
  tx f V bs X → in_use (sb f) V b → 0 ≤ BBLOCK b (sb f) < 2 ^ 31 → BBLOCK b (sb f) ∉ X → space 1 bs X →
  (∀ f', tx f' (bfree_image (sb f) b V) (log_add (BBLOCK b (sb f)) bs) X → tstep X f f' → Q tt [] f') →
  fwp s0 [] (bfree 1 b) f Q.
Proof.
  intros Ht Hu Hbb HX Hsp HQ. unfold Fs.bfree. apply fwp_bind. unfold get_sb. apply fwp_bind, fwp_get, fwp_ret.
  apply fwp_bind. eapply tx_bread; [done|done|done|right; by apply (space_room 1)|]. intros i f1 Ht1 Hs1 Hi1 _. cbv zeta.
  eapply tx_buf; [done|done|]. intros x Hx _. rewrite Hx, decide_False by done.
  eapply tx_modlog; [done|done|done|set_solver|done|by eapply (space_log 1)|]. intros f2 Ht2 Hs2 Hi2.
  eapply (tx_brelse _ _ _ _ _ _ Henv _ _ _ [] X); [done|done|left; apply in_log_add|]. intros f3 Ht3 Hs3.
  apply HQ; [done|]. tchain.
Qed.

Lemma bfree_free_panics f V bs X b : tx f V bs X → ¬ in_use (sb f) V b → BBLOCK b (sb f) ∉ X → space 1 bs X →
  bfree 1 b (st s0 [] f) = Panic "freeing free block".
Proof.
  intros Ht Hu HX Hsp. unfold Fs.bfree. apply (fwp_panic s0 []). unfold get_sb. apply fwp_bind, fwp_get, fwp_ret.
  apply (fwp_panic s0 []). eapply tx_bread; [done|done|done|right; by apply (space_room 1)|]. intros i f1 Ht1 Hs1 Hi1 _. cbv zeta.
  apply (fwp_panic s0 []). eapply tx_buf_at; [done|done|]. intros x Hx _. rewrite Hx.
  rewrite decide_True; [done|]. destruct (decide (Z.land (byte_at (map_byte b) (V (BBLOCK b (sb f)))) (bit_mask b) = 0)); [done|tauto].
Qed.

End Alloc.

(** ** What allocation does to the free map *)

Section Effect.
Variables (s : superblock) (V : Z → list Z) (X : list Z).
Hypothesis Hmap : free_map s V X.

Lemma map_same a c : 0 ≤ a < sbsize s → 0 ≤ c < sbsize s → BBLOCK c s = BBLOCK a s → c mod BPB = a mod BPB → c = a.
Proof.
  intros Ha Hc Eb Em. destruct (map_block _ _ _ _ Hmap Ha) as [Ea _]. destruct (map_block _ _ _ _ Hmap Hc) as [Ec _].
  rewrite (Z.div_mod c BPB), (Z.div_mod a BPB) by done. assert (c / BPB = a / BPB) as -> by lia. by rewrite Em.
Qed.

(** Replacing the map block of [a] by one that differs in the bit of [a]. *)
Lemma in_use_img a d (v : bool) c : 0 ≤ a < sbsize s → 0 ≤ c < sbsize s →
  (∀ c, bit_of c d = if decide (c mod BPB = a mod BPB) then v else bit_of c (V (BBLOCK a s))) →
  in_use s (img1 (BBLOCK a s) d V) c ↔ if decide (c = a) then v = true else in_use s V c.
Proof.
  intros Ha Hc Hd. rewrite !in_use_bit. destruct (decide (BBLOCK c s = BBLOCK a s)) as [E|E].
  - rewrite E, img1_same, Hd. destruct (decide (c = a)) as [->|Hne]; [by rewrite decide_True|].
    rewrite decide_False, in_use_bit, E; [done|]. intros Em. apply Hne. by apply map_same.
  - rewrite img1_other by done. rewrite decide_False; [by rewrite in_use_bit|]. by intros ->.
Qed.

Lemma balloc_image_use a c : 0 ≤ a < sbsize s → ¬ in_use s V a → 0 ≤ c < sbsize s →
  in_use s (balloc_image s a V) c ↔ c = a ∨ in_use s V c.
Proof.
  intros Ha Hn Hc. assert (a ≠ BBLOCK c s) as Hne by (intros ->; by apply Hn; eapply (fm_self _ _ _ Hmap)).
  unfold balloc_image. assert (∀ U, in_use s (img1 a zero_block U) c ↔ in_use s U c) as ->
    by (intros U; unfold in_use; by rewrite img1_other).
  rewrite (in_use_img a _ true); [|done|done|intros b; apply bit_set, (fm_len _ _ _ Hmap); done].
  destruct (decide (c = a)); tauto.
Qed.

Lemma bfree_image_use a c : 0 ≤ a < sbsize s → 0 ≤ c < sbsize s →
  in_use s (bfree_image s a V) c ↔ c ≠ a ∧ in_use s V c.
Proof.
  intros Ha Hc. unfold bfree_image.
  rewrite (in_use_img a _ false); [|done|done|intros b; apply bit_clear, (fm_len _ _ _ Hmap); done].
  destruct (decide (c = a)); intuition congruence.
Qed.
End Effect.

(** C30 Functional: inside a transaction [balloc] returns the first block the
    free map has free, now marked in use, zeroed and logged, with every other
    block's status and contents as before; it returns 0, changing nothing,
    exactly when no block is free. *)
Theorem balloc_first_fit {S} `{HasFs S} (s0 : S) me mep sleeplocks patience bcache start f V bs X :
  fs_env s0 me mep sleeplocks bcache → tx mep bcache start f V bs X → free_map (sb f) V X → in_use (sb f) V 0 → space 2 bs X →
  ∃ a f', balloc patience bcache 1 (st s0 [] f) = Ok a (st s0 [] f') ∧ sb f' = sb f ∧
    (a = 0 ↔ ∀ c, 0 ≤ c < sbsize (sb f) → in_use (sb f) V c) ∧
    (a = 0 → tx mep bcache start f' V bs X) ∧
    (a ≠ 0 → 0 < a < sbsize (sb f) ∧ ¬ in_use (sb f) V a ∧ (∀ c, 0 ≤ c < a → in_use (sb f) V c) ∧
       ∃ V', tx mep bcache start f' V' (log_add a (log_add (BBLOCK a (sb f)) bs)) X ∧
         V' a = zero_block ∧ (∀ c, c ≠ a → c ≠ BBLOCK a (sb f) → V' c = V c) ∧
         (∀ c, 0 ≤ c < sbsize (sb f) → in_use (sb f) V' c ↔ c = a ∨ in_use (sb f) V c)).
Proof.
  intros Henv Ht Hmap H00 Hsp.
  destruct (balloc_spec s0 me mep sleeplocks patience bcache start Henv f V bs X Hmap Hsp Ht) as (a & ? & f' & E & -> & Ha).
  exists a, f'. split; [done|]. destruct Ha as [(Ha & Hn & Hfirst & Ht' & Hs)|(-> & Hall & Ht' & Hs)].
  - assert (a ≠ 0) by (intros ->; done). split; [apply Hs|]. split; [|split; [done|]].
    + split; [done|]. intros Hall. by destruct Hn; apply Hall.
    + intros _. split_and!; [lia|lia|done|done|]. exists (balloc_image (sb f) a V). split_and!; [done|apply img1_same| |].
      * intros c Hca Hcb. unfold balloc_image. by rewrite !img1_other.
      * intros c Hc. by eapply balloc_image_use.
  - split; [apply Hs|]. split; [done|]. split; [done|]. intros; lia.
Qed.

(** Error behaviour: [bfree] of a block in use marks exactly that block free
    and logs the map block; [bfree] of a free block panics. *)
Theorem bfree_contract {S} `{HasFs S} (s0 : S) me mep sleeplocks patience bcache start f V bs X b :
  fs_env s0 me mep sleeplocks bcache → tx mep bcache start f V bs X → free_map (sb f) V X → 0 ≤ b < sbsize (sb f) → space 1 bs X →
  if decide (in_use (sb f) V b) then
    ∃ f' V', bfree patience bcache 1 b (st s0 [] f) = Ok tt (st s0 [] f') ∧
      tx mep bcache start f' V' (log_add (BBLOCK b (sb f)) bs) X ∧
      (∀ c, c ≠ BBLOCK b (sb f) → V' c = V c) ∧
      (∀ c, 0 ≤ c < sbsize (sb f) → in_use (sb f) V' c ↔ c ≠ b ∧ in_use (sb f) V c)
  else bfree patience bcache 1 b (st s0 [] f) = Panic "freeing free block".
Proof.
  intros Henv Ht Hmap Hb Hsp. pose proof (fm_free _ _ _ Hmap b Hb) as HX. case_decide as Hu; [|by eapply bfree_free_panics].
  enough (fwp s0 [] (bfree patience bcache 1 b) f (λ _ held' f', held' = [] ∧
    tx mep bcache start f' (bfree_image (sb f) b V) (log_add (BBLOCK b (sb f)) bs) X)) as ([] & ? & f' & E & -> & Ht').
  - exists f', (bfree_image (sb f) b V). split_and!; try done.
    + intros c Hc. unfold bfree_image. by rewrite img1_other.
    + intros c Hc. by eapply bfree_image_use.
  - eapply bfree_spec; [done|done|done| |done|done|]; [by eapply map_block|]. auto.
Qed.

(** An example disk: the map at block 46, blocks 0 to 47 in use; block 47 has
    the directory entry of inode 1 with name [.]. *)
Definition ex_map : list Z := replicate 6 255 ++ replicate 1018 0.
Definition ex_dirblock : list Z := [1; 0; 46] ++ replicate 1021 0.
Definition ex_mapped : Z → list Z := img1 46 ex_map (img1 47 ex_dirblock (λ _, ex_zero)).

Lemma ex_map_block c : 0 ≤ c < FSSIZE → BBLOCK c (sb (ex_open ex_mapped)) = 46.
Proof. intros Hc. unfold BBLOCK. rewrite Z.div_small; [done|]. unfold FSSIZE, BPB, BSIZE in *. lia. Qed.

Lemma ex_range c : 0 ≤ c < 2000 → 0 ≤ c < sbsize (sb (ex_open ex_mapped)).
Proof. exact id. Qed.
Lemma ex_48_free : ¬ in_use (sb (ex_open ex_mapped)) ex_mapped 48.
Proof. vm_compute. tauto. Qed.

Lemma ex_free_map : free_map (sb (ex_open ex_mapped)) ex_mapped [].
Proof.
  split.
  - vm_compute. done.
  - vm_compute. done.
  - intros. apply not_elem_of_nil.
  - intros c Hc. by rewrite ex_map_block.
  - intros c Hc. by apply elem_of_nil in Hc.
  - intros c Hc. rewrite ex_map_block by done. vm_compute. done.
Qed.

Lemma ex_used c : 0 ≤ c < 48 → in_use (sb (ex_open ex_mapped)) ex_mapped c.
Proof.
  assert (Forall (in_use (sb (ex_open ex_mapped)) ex_mapped) (Z.of_nat <$> seq 0 48)) as Hall
    by (apply (bool_decide_unpack _); vm_compute; exact I).
  intros Hc. rewrite list.Forall_forall in Hall. apply Hall, list_elem_of_fmap. exists (Z.to_nat c). split; [lia|].
  apply elem_of_seq. lia.
Qed.

Lemma balloc_first_fit_witness : ∃ f', balloc 0 ex_bcache 1 (st ex_kst [] (ex_open ex_mapped)) = Ok 48 (st ex_kst [] f') ∧ sb f' = sb (ex_open ex_mapped).
Proof.
  destruct (balloc_first_fit ex_kst 1 ex_vm_proc ex_sleeplocks 0 ex_bcache 2 (ex_open ex_mapped) ex_mapped [] [] ex_fs_env (ex_tx _) ex_free_map)
    as (a & f' & E & Esb & H0 & _ & Hpos); [vm_compute; done|vm_compute; done|].
  pose proof ex_48_free as H48.
  destruct (decide (a = 0)) as [Ea|Ea].
  - exfalso. apply H48. apply (proj1 H0 Ea), ex_range. lia.
  - destruct (Hpos Ea) as ([Ha _] & Hn & Hfirst & _). assert (a = 48) as ->; [|exists f'; split; [exact E|exact Esb]].
    destruct (decide (48 < a)) as [Hlt|Hge]; [exfalso; apply H48, Hfirst; lia|]. destruct (decide (a = 48)); [done|].
    exfalso. apply Hn, ex_used. lia.
Defined.

Lemma bfree_contract_witness :
  (∃ f', bfree 0 ex_bcache 1 46 (st ex_kst [] (ex_open ex_mapped)) = Ok tt (st ex_kst [] f')) ∧
  bfree 0 ex_bcache 1 48 (st ex_kst [] (ex_open ex_mapped)) = Panic "freeing free block".
Proof.
  pose proof (bfree_contract ex_kst 1 ex_vm_proc ex_sleeplocks 0 ex_bcache 2 (ex_open ex_mapped) ex_mapped [] [] 46 ex_fs_env (ex_tx _) ex_free_map) as H46.
  pose proof (bfree_contract ex_kst 1 ex_vm_proc ex_sleeplocks 0 ex_bcache 2 (ex_open ex_mapped) ex_mapped [] [] 48 ex_fs_env (ex_tx _) ex_free_map) as H48.
  rewrite decide_True in H46 by (apply ex_used; lia). rewrite decide_False in H48 by apply ex_48_free. split.
  - destruct H46 as (f' & _ & E & _); [apply ex_range; lia|vm_compute; done|]. exists f'. exact E.
  - apply H48; [apply ex_range; lia|vm_compute; done].
Defined.
