(* ===== verification/FsFile.v ===== *)
(** * The contents of a file

    The blocks of an inode through its direct and indirect addresses, the
    well-formedness of inode and free map, and how allocation changes them
    while the bytes of the file stay the same. *)

From S2P Require Import Prelude Params CString Spinlock ProcDefs WaitQueue Sched Memory FsDefs Seq Sleeplock Bio BioInv BioSpec Log Fs LogCrash LogSpec AddressSpace FsExample LogTheorems FsTx FsAlloc.

(** The address of block [k] of the file, 0 when there is none. *)
Definition ind (x : inode) : Z := default 0 (addrs x !! Z.to_nat NDIRECT).
Definition iaddr (V : Z → list Z) (x : inode) (k : Z) : Z :=
  if decide (k < NDIRECT) then default 0 (addrs x !! Z.to_nat k)
  else if decide (ind x = 0) then 0 else get32 (4 * (k - NDIRECT)) (V (ind x)).

(** Its contents; a block never allocated reads as zeroes. *)
Definition fblock (V : Z → list Z) (x : inode) (k : Z) : list Z :=
  if decide (iaddr V x k = 0) then zero_block else V (iaddr V x k).
Definition fbyte (V : Z → list Z) (x : inode) (o : Z) : Z := byte_at (o mod BSIZE) (fblock V x (o / BSIZE)).

Definition file_block (k : Z) : Prop := 0 ≤ k < MAXFILE.
Definition owned (V : Z → list Z) (x : inode) (b : Z) : Prop :=
  b ≠ 0 ∧ (b = ind x ∨ ∃ k, file_block k ∧ iaddr V x k = b).

Definition is_map (s : superblock) (b : Z) : Prop := ∃ c, 0 ≤ c < sbsize s ∧ b = BBLOCK c s.
Definition is_inode_block (s : superblock) (b : Z) : Prop := ∃ i, 0 ≤ i < ninodes s ∧ b = IBLOCK i s.
Definition data_block (s : superblock) (V : Z → list Z) (b : Z) : Prop :=
  used s V b ∧ ¬ is_map s b ∧ ¬ is_inode_block s b.

(** The free map and the metadata, the caller holding the blocks [X]. *)
Record fs_ok (s : superblock) (V : Z → list Z) (X : list Z) : Prop := mkFsOk {
  fo_map : free_map s V X;
  fo_len : ∀ b, length (V b) = Z.to_nat BSIZE;
  fo_boot : used s V 0;
  fo_inodes : ∀ b, is_inode_block s b → used s V b ∧ b ∉ X ∧ ¬ is_map s b;
}.

Record inode_ok (s : superblock) (V : Z → list Z) (x : inode) : Prop := mkInodeOk {
  io_len : length (addrs x) = Z.to_nat (NDIRECT + 1);
  io_dev : idev x = 1;
  io_inum : 0 ≤ inum x < ninodes s;
  io_data : ∀ b, owned V x b → data_block s V b;
  io_ind : ∀ k, file_block k → iaddr V x k ≠ 0 → iaddr V x k ≠ ind x;
  io_inj : ∀ k k', file_block k → file_block k' → iaddr V x k ≠ 0 → iaddr V x k = iaddr V x k' → k = k';
}.

(** [V'] has more blocks in use than [V], and the same contents of the others. *)
Record grows (s : superblock) (V V' : Z → list Z) : Prop := mkGrows {
  gr_used : ∀ b, used s V b → used s V' b;
  gr_same : ∀ b, used s V b → ¬ is_map s b → V' b = V b;
}.

Section Grow.
Variables (s : superblock) (V V' : Z → list Z) (x : inode).
Hypothesis Hg : grows s V V'.
Hypothesis Hx : inode_ok s V x.

Lemma grows_owned b : owned V x b → V' b = V b.
Proof. intros (Hu & Hm & _)%(io_data _ _ _ Hx). by apply (gr_same _ _ _ Hg). Qed.
Lemma grows_iaddr k : iaddr V' x k = iaddr V x k.
Proof. unfold iaddr. destruct (decide (k < NDIRECT)); [done|]. case_decide; [done|]. rewrite grows_owned; [done|]. split; auto. Qed.
Lemma grows_fblock k : file_block k → fblock V' x k = fblock V x k.
Proof. intros Hk. unfold fblock. rewrite grows_iaddr. case_decide; [done|]. apply grows_owned. split; [done|]. eauto. Qed.
Lemma owned_grows b : owned V' x b ↔ owned V x b.
Proof. unfold owned. by setoid_rewrite grows_iaddr. Qed.
Lemma grows_data b : data_block s V b → data_block s V' b.
Proof. intros (Hu & ? & ?). split; [by apply Hg|done]. Qed.

Lemma grows_inode : inode_ok s V' x.
Proof.
  pose proof grows_iaddr as Hi. destruct Hx. split; try done; repeat setoid_rewrite Hi; auto.
  intros b Hb%owned_grows. by apply grows_data, io_data0.
Qed.
End Grow.

(** ** Allocation *)

Section Balloc.
Variables (s : superblock) (V : Z → list Z) (X : list Z) (a : Z).
Hypothesis Hok : fs_ok s V X.
Hypothesis Ha : 0 ≤ a < sbsize s.
Hypothesis Hfree : ¬ in_use s V a.
Notation V' := (balloc_image s a V).

Lemma fresh_meta b : used s V b → b ≠ a.
Proof. intros [_ Hu] ->. done. Qed.
Lemma fresh_map : ¬ is_map s a.
Proof. intros (c & Hc & ->). by apply Hfree; eapply (fm_self _ _ _ (fo_map _ _ _ Hok)). Qed.
Lemma fresh_inode_block : ¬ is_inode_block s a.
Proof. intros Hi. by apply Hfree, (fo_inodes _ _ _ Hok a Hi). Qed.
Lemma fresh_nonzero : a ≠ 0.
Proof. intros E. apply Hfree. rewrite E. apply (fo_boot _ _ _ Hok). Qed.

Lemma balloc_used b : used s V' b ↔ b = a ∨ used s V b.
Proof.
  unfold used. split.
  - intros [Hb Hu]. apply (balloc_image_use _ _ _ (fo_map _ _ _ Hok)) in Hu; [|done..]. tauto.
  - intros [->|[Hb Hu]]; (split; [done|]); apply (balloc_image_use _ _ _ (fo_map _ _ _ Hok)); auto.
Qed.

Lemma balloc_grows : grows s V V'.
Proof.
  split; [intros b; rewrite balloc_used; auto|]. intros b Hb Hm. unfold balloc_image.
  rewrite !img1_other; [done| |by apply fresh_meta]. intros ->. apply Hm. by exists a.
Qed.

Lemma balloc_new : V' a = zero_block.
Proof. apply img1_same. Qed.

Lemma balloc_new_data : data_block s V' a.
Proof. split; [apply balloc_used; by left|]. split; [apply fresh_map|apply fresh_inode_block]. Qed.

Lemma balloc_length b : length (V' b) = Z.to_nat BSIZE.
Proof.
  pose proof (fo_len _ _ _ Hok) as Hl. unfold balloc_image, img1. case_decide; [apply length_replicate|].
  case_decide; [rewrite length_set_bit|]; auto.
Qed.

Lemma balloc_fs_ok : fs_ok s V' X.
Proof.
  pose proof Hok as [[] Hl Hb Hi]. pose proof (gr_used _ _ _ balloc_grows) as Hgu. split; [split|..]; auto.
  - intros c Hc. rewrite balloc_length. done.
  - apply balloc_length.
  - intros b Hib. destruct (Hi b Hib) as (? & ? & ?). auto.
Qed.
End Balloc.

(** Storing in a block that is not of the free map. *)
Section Store.
Variables (s : superblock) (V : Z → list Z) (X : list Z) (b0 : Z) (d : list Z).
Hypothesis Hm : ¬ is_map s b0.
Hypothesis Hd : length d = Z.to_nat BSIZE.

Lemma store_used b : used s (img1 b0 d V) b ↔ used s V b.
Proof.
  unfold used. split; intros [Hb Hu]; (split; [done|]); unfold in_use in *; rewrite img1_other in *; try done;
    intros <-; apply Hm; by exists b.
Qed.

Lemma store_data b : data_block s (img1 b0 d V) b ↔ data_block s V b.
Proof. unfold data_block. by rewrite store_used. Qed.

Lemma store_length : (∀ b, length (V b) = Z.to_nat BSIZE) → ∀ b, length (img1 b0 d V b) = Z.to_nat BSIZE.
Proof. intros Hl b. unfold img1. case_decide; auto. Qed.

Lemma store_fs_ok : fs_ok s V X → fs_ok s (img1 b0 d V) X.
Proof.
  intros [[Hsz Hst Hfr Hln Hhd Hsf] Hl Hb Hi]. split; [split|..]; auto.
  - intros c Hc. rewrite store_length by done. done.
  - intros c Hc. by apply store_used, Hhd.
  - intros c Hc. by apply store_used, Hsf.
  - by apply store_length.
  - by apply store_used.
  - intros b Hib. rewrite store_used. auto.
Qed.
End Store.

Lemma fs_ok_held s V X b : fs_ok s V X → data_block s V b → fs_ok s V (b :: X).
Proof.
  intros [[Hsz Hst Hfr Hln Hhd Hsf] Hl Hb Hi] (Hu & Hm & Hn). split; [split|..]; auto.
  - intros c Hc [E|?]%elem_of_cons; [apply Hm; by exists c|by eapply Hfr].
  - intros c [->|?]%elem_of_cons; auto.
  - intros c Hc. destruct (Hi c Hc) as (? & ? & ?). split_and!; [done| |done]. intros [->|?]%elem_of_cons; done.
Qed.

Lemma fs_ok_release s V X b : fs_ok s V (b :: X) → fs_ok s V X.
Proof.
  intros [[Hsz Hst Hfr Hln Hhd Hsf] Hl Hb Hi]. split; [split|..]; auto.
  - intros c Hc Hin. eapply Hfr; [done|by right].
  - intros c Hc. apply Hhd. by right.
  - intros c Hc. destruct (Hi c Hc) as (? & Hx & ?). split_and!; try done. intros ?. apply Hx. by right.
Qed.

(** ** Giving the file a block *)

Section Assign.
Variables (s : superblock) (V V' : Z → list Z) (x x' : inode) (k a : Z).
Hypothesis Hx : inode_ok s V x.
Hypothesis Ha0 : a ≠ 0.
Hypothesis Hao : ¬ owned V x a.
Hypothesis Hlen : length (addrs x') = length (addrs x).
Hypothesis Hid : idev x' = idev x ∧ inum x' = inum x.
Hypothesis Hdata : ∀ b, data_block s V b ∨ b = a → data_block s V' b.

Lemma assign_ok : file_block k → ind x' = ind x →
  (∀ j, file_block j → iaddr V' x' j = if decide (j = k) then a else iaddr V x j) → inode_ok s V' x'.
Proof.
  intros Hk Ei Hi. pose proof Hx as [Hl Hd Hn Ho Hind Hinj]. destruct Hid as [Ed En].
  assert (a ≠ ind x) as Hai by (intros E; apply Hao; split; auto).
  assert (∀ j, file_block j → iaddr V x j ≠ a) as Haj by (intros j Hj E; apply Hao; split; eauto).
  split; [congruence|congruence|by rewrite En| | |].
  - intros b [Hb [E|(j & Hj & E)]]; apply Hdata.
    + left. apply Ho. split; [done|left; congruence].
    + rewrite Hi in E by done. case_decide; [by right|left]. apply Ho. split; [done|]. eauto.
  - intros j Hj. rewrite Hi, Ei by done. case_decide; [done|]. by apply Hind.
  - intros j j' Hj Hj'. rewrite !Hi by done. do 2 case_decide; subst; try done; intros Hz E.
    + by destruct (Haj j' Hj').
    + by destruct (Haj j Hj).
    + by apply Hinj.
Qed.

Lemma assign_ind_ok : ind x = 0 → ind x' = a → (∀ j, file_block j → iaddr V' x' j = iaddr V x j) → inode_ok s V' x'.
Proof.
  intros Ei Ei' Hi. pose proof Hx as [Hl Hd Hn Ho Hind Hinj]. destruct Hid as [Ed En].
  split; [congruence|congruence|by rewrite En| | |].
  - intros b [Hb [E|(j & Hj & E)]]; apply Hdata; [right; congruence|left; apply Ho]. rewrite Hi in E by done. split; [done|]. eauto.
  - intros j Hj. rewrite Hi by done. rewrite Ei'. intros Hz E. apply Hao. split; [done|]. eauto.
  - intros j j' Hj Hj'. rewrite !Hi by done. by apply Hinj.
Qed.
End Assign.

Definition put_iaddr (k a : Z) (x : inode) : inode := set_addrs (<[Z.to_nat k := a]> (addrs x)) x.

Section PutAddr.
Variables (V : Z → list Z) (x : inode) (k a : Z).
Hypothesis Hlen : length (addrs x) = Z.to_nat (NDIRECT + 1).
Hypothesis Hk : 0 ≤ k ≤ NDIRECT.

Lemma put_ind : ind (put_iaddr k a x) = if decide (k = NDIRECT) then a else ind x.
Proof.
  unfold ind, put_iaddr. simpl. unfold NDIRECT in *. case_decide as E.
  - subst. rewrite list_lookup_insert_eq by lia. done.
  - rewrite list_lookup_insert_ne by lia. done.
Qed.

Lemma put_direct j : k < NDIRECT → 0 ≤ j → iaddr V (put_iaddr k a x) j = if decide (j = k) then a else iaddr V x j.
Proof.
  intros Hkd Hj. unfold iaddr. rewrite put_ind. rewrite (decide_False (P := k = NDIRECT)) by lia. unfold put_iaddr. simpl.
  unfold NDIRECT in *. destruct (decide (j = k)) as [->|Hne].
  - rewrite decide_True by done. rewrite list_lookup_insert_eq by lia. done.
  - destruct (decide (j < 12)); [|done]. rewrite list_lookup_insert_ne by lia. done.
Qed.
End PutAddr.

(** A fresh indirect block is full of zero addresses. *)
Lemma get32_zero j : get32 j zero_block = 0.
Proof.
  unfold get32, get_le. assert (∀ l, Forall (λ b, b = 0) l → le_val l = 0) as Hz.
  { induction 1 as [|b l -> _ IH]; simpl; [done|]. by rewrite IH. }
  apply Hz. apply Forall_take, Forall_drop, Forall_replicate. done.
Qed.

Lemma put_indirect V x a j : length (addrs x) = Z.to_nat (NDIRECT + 1) → ind x = 0 → V a = zero_block → 0 ≤ j →
  iaddr V (put_iaddr NDIRECT a x) j = iaddr V x j.
Proof.
  intros Hlen Hi Hz Hj. unfold iaddr. rewrite put_ind by (done || unfold NDIRECT; lia). rewrite Hi. unfold put_iaddr. simpl.
  unfold NDIRECT in *. destruct (decide (j < 12)).
  - rewrite list_lookup_insert_ne by lia. done.
  - case_decide; [done|]. rewrite Hz. apply get32_zero.
Qed.

(** An entry of the indirect block. *)
Lemma put_entry V x k a j : length (V (ind x)) = Z.to_nat BSIZE → ind x ≠ 0 → NDIRECT ≤ k < MAXFILE → 0 ≤ a < 2 ^ 32 → file_block j →
  iaddr (img1 (ind x) (put32 (4 * (k - NDIRECT)) a (V (ind x))) V) x j = if decide (j = k) then a else iaddr V x j.
Proof.
  intros Hl Hi Hk Ha Hj. unfold iaddr. rewrite img1_same. unfold file_block in Hj. unfold MAXFILE, NINDIRECT, BSIZE, NDIRECT in *.
  destruct (decide (j < 12)); [by rewrite decide_False by lia|]. rewrite !(decide_False (P := ind x = 0)) by done.
  destruct (decide (j = k)) as [->|Hne].
  - unfold get32, put32. rewrite get_put_le; [change (256 ^ Z.of_nat 4) with (2 ^ 32); by apply Z.mod_small|lia|]. rewrite Hl. change (1024 / 4) with 256 in *. lia.
  - unfold get32, put32. rewrite get_put_le_ne; [done|lia|lia|lia].
Qed.
