(* ===== verification/FsBmap.v ===== *)
(** * Mapping file offsets to disk blocks (bmap of kernel/fs.c) *)

From S2P Require Import Prelude Params CString Spinlock ProcDefs WaitQueue Sched Memory FsDefs Seq Sleeplock Bio BioInv BioSpec Log Fs LogCrash LogSpec AddressSpace FsExample LogTheorems FsTx FsAlloc FsFile.

Lemma tx_set_inodes mep bcache start I f V bs X : tx mep bcache start f V bs X → tx mep bcache start (set_inodes I f) V bs X.
Proof. intros [Hb Hl Ho]. split; [exact Hb|exact Hl|exact Ho]. Qed.

(** A step that may also change the in-memory inodes. *)
Definition istep (bcache : Z) (X : list Z) (f f' : fsst) : Prop := tstep bcache X (set_inodes (inodes f') f) f'.

Lemma istep_refl bcache X f : istep bcache X f f.
Proof. by split. Qed.
Lemma istep_trans bcache X Y f1 f2 f3 :
  istep bcache X f1 f2 → istep bcache Y f2 f3 → (∀ c, c ∈ X → c ∈ Y) → istep bcache X f1 f3.
Proof.
  intros H1 H2 HXY. unfold istep. apply (tstep_trans _ X Y _ (set_inodes (inodes f3) f2)); [|done|done].
  destruct H1. by split.
Qed.
Lemma tstep_istep bcache X f f' : tstep bcache X f f' → istep bcache X f f'.
Proof. intros []. by split. Qed.
Lemma istep_inodes bcache X I f : istep bcache X f (set_inodes I f).
Proof. by split. Qed.
Lemma istep_weaken bcache X Y f f' : istep bcache X f f' → (∀ c, c ∈ Y → c ∈ X) → istep bcache Y f f'.
Proof. apply tstep_weaken. Qed.

#[export] Hint Resolve istep_refl tstep_istep istep_inodes : xv6.

Lemma alter_at {A} (g : A → A) (i : nat) (l : list A) x : l !! i = Some x → alter g i l = <[i := g x]> l.
Proof.
  revert i. induction l as [|y l IH]; intros [|i] Hi; simplify_eq/=; [done|]. f_equal. by apply IH.
Qed.

Section Rules.
Context {S : Type} `{HasFs S}.
Variables (s0 : S).

Lemma fwp_inode_at held ip f x (Q : inode → list lockid → fsst → Prop) :
  inodes f !! ip = Some x → Q x held f → fwp s0 held (inode_at ip) f Q.
Proof. intros Hx HQ. unfold inode_at. apply fwp_bind, fwp_get. rewrite Hx. by apply fwp_ret. Qed.

Lemma fwp_mod_inode held ip g f x (Q : unit → list lockid → fsst → Prop) :
  inodes f !! ip = Some x → Q tt held (set_inodes (<[ip := g x]> (inodes f)) f) → fwp s0 held (mod_inode ip g) f Q.
Proof.
  intros Hx HQ. unfold mod_inode. apply fwp_mod. by rewrite (alter_at _ _ _ _ Hx).
Qed.

Lemma fwp_addr_at held ip k f x (Q : Z → list lockid → fsst → Prop) :
  inodes f !! ip = Some x → length (addrs x) = Z.to_nat (NDIRECT + 1) → 0 ≤ k ≤ NDIRECT →
  Q (default 0 (addrs x !! Z.to_nat k)) held f → fwp s0 held (addr_at ip k) f Q.
Proof.
  intros Hx Hl Hk HQ. unfold addr_at. apply fwp_bind. eapply fwp_inode_at; [done|].
  destruct (lookup_lt_is_Some_2 (addrs x) (Z.to_nat k)) as [a Ha]; [unfold NDIRECT in *; lia|].
  rewrite Ha in *. by apply fwp_ret.
Qed.
End Rules.

Section Bmap.
Context {S : Type} `{HasFs S}.
Variables (s0 : S) (me : nat) (mep : proc) (sleeplocks : list Z) (patience : nat) (bcache start : Z).
Hypothesis Henv : fs_env s0 me mep sleeplocks bcache.
Notation tx := (tx mep bcache start).
Notation tstep := (tstep bcache).
Notation istep := (istep bcache).

(** The process has inode [x] locked in slot [ip] of the table. *)
Record fopen (f : fsst) (V : Z → list Z) (bs : list Z) (ip : nat) (x : inode) : Prop := mkFopen {
  op_tx : tx f V bs [];
  op_at : inodes f !! ip = Some x;
  op_fs : fs_ok (sb f) V [];
  op_inode : inode_ok (sb f) V x;
}.

Record bmapped (f : fsst) V bs ip x bn (a : Z) (f' : fsst) V' bs' x' : Prop := mkBmapped {
  bm_open : fopen f' V' bs' ip x';
  bm_step : istep [] f f';
  bm_inodes : inodes f' = <[ip := x']> (inodes f);
  bm_x : x' = set_addrs (addrs x') x;
  bm_blocks : ∀ k, file_block k → fblock V' x' k = fblock V x k;
  bm_used : ∀ b, used (sb f) V b → used (sb f) V' b;
  bm_others : ∀ b, used (sb f) V b → ¬ is_map (sb f) b → ¬ owned V x b → V' b = V b;
  bm_new : ∀ b, owned V' x' b → owned V x b ∨ ¬ used (sb f) V b;
  bm_keep : ∀ k, file_block k → iaddr V x k ≠ 0 → iaddr V' x' k = iaddr V x k;
  bm_ind : ind x ≠ 0 → ind x' = ind x;
  bm_addr : a ≠ 0 → iaddr V' x' bn = a;
  bm_log : ∀ b, b ∈ bs' → b ∈ bs ∨ is_map (sb f) b ∨ (b ≠ 0 ∧ (b = ind x' ∨ b = a));
  bm_mono : ∀ b, b ∈ bs → b ∈ bs';
  bm_had : iaddr V x bn ≠ 0 → a = iaddr V x bn ∧ V' = V ∧ x' = x ∧ bs' = bs;
}.

Definition full (s : superblock) (V : Z → list Z) : Prop := ∀ c, 0 ≤ c < sbsize s → in_use s V c.

Lemma balloc_step f V bs X (Q : Z → list lockid → fsst → Prop) :
  tx f V bs X → fs_ok (sb f) V X → space 2 bs X →
  (∀ a f', 0 ≤ a < sbsize (sb f) → ¬ in_use (sb f) V a → tx f' (balloc_image (sb f) a V) (balloc_log (sb f) a bs) X →
     tstep X f f' → Q a [] f') →
  (∀ f', full (sb f) V → tx f' V bs X → tstep X f f' → Q 0 [] f') →
  fwp s0 [] (balloc patience bcache 1) f Q.
Proof.
  intros Ht Hok Hsp HQ HQ0. eapply fwp_mono; [by eapply balloc_spec; [..|apply (fo_map _ _ _ Hok)|exact Hsp|exact Ht]|].
  intros a ? f' [-> [(Ha & Hn & _ & Ht' & Hs)|(-> & Hfu & Ht' & Hs)]]; auto.
Qed.

Lemma balloc_log_elem s a bs b : b ∈ balloc_log s a bs → b ∈ bs ∨ b = BBLOCK a s ∨ b = a.
Proof. unfold balloc_log, log_add. repeat case_decide; set_solver. Qed.
Lemma balloc_log_mono s a bs b : b ∈ bs → b ∈ balloc_log s a bs.
Proof. intros. by do 2 apply log_add_mono. Qed.

(** Any fresh block is owned by no file. *)
Lemma fresh_owned s V x a : inode_ok s V x → ¬ in_use s V a → ¬ owned V x a.
Proof. intros Hx Hf Ho. by apply (io_data _ _ _ Hx) in Ho as [[_ ?] _]. Qed.

(** A fresh block becomes direct block [bn] of the file. *)
Lemma direct_bmapped f V bs ip x bn a f1 : fopen f V bs ip x → 0 ≤ bn < NDIRECT → iaddr V x bn = 0 →
  0 ≤ a < sbsize (sb f) → ¬ in_use (sb f) V a → tx f1 (balloc_image (sb f) a V) (balloc_log (sb f) a bs) [] → tstep [] f f1 →
  bmapped f V bs ip x bn a (set_inodes (<[ip := put_iaddr bn a x]> (inodes f1)) f1) (balloc_image (sb f) a V)
    (balloc_log (sb f) a bs) (put_iaddr bn a x).
Proof.
  intros [Ht Hip Hok Hx] Hbn Hz Ha Hfree Ht1 Hs1. set (V1 := balloc_image (sb f) a V).
  pose proof (balloc_grows _ _ _ _ Hok Ha Hfree) as Hg. pose proof (grows_inode _ _ _ _ Hg Hx) as Hx1.
  pose proof (fresh_nonzero _ _ _ _ Hok Hfree) as Ha0. pose proof (io_len _ _ _ Hx) as Hl.
  assert (∀ j, 0 ≤ j → iaddr V1 (put_iaddr bn a x) j = if decide (j = bn) then a else iaddr V1 x j) as Hj
    by (intros j Hj; apply put_direct; [done|unfold NDIRECT in *; lia|lia|done]).
  assert (¬ owned V1 x a) as Hna by (intros Ho%(owned_grows _ _ _ _ Hg Hx); by apply (fresh_owned _ _ _ _ Hx Hfree)).
  assert (ind (put_iaddr bn a x) = ind x) as Hind by (rewrite put_ind by (done || lia); rewrite decide_False by lia; done).
  assert (file_block bn) as Hfb by (unfold file_block, MAXFILE, NINDIRECT, BSIZE, NDIRECT in *; change (1024 / 4) with 256; lia).
  split.
  - split; [by apply tx_set_inodes|apply list_lookup_insert_eq; rewrite (ts_inodes _ _ _ _ Hs1); by eapply lookup_lt_Some| |];
      simpl; rewrite (ts_sb _ _ _ _ Hs1); [by apply balloc_fs_ok|].
    eapply (assign_ok _ V1 V1 x (put_iaddr bn a x) bn a); try done; [apply length_insert| |].
    + intros b [?| ->]; [done|by eapply balloc_new_data].
    + intros j ?. apply Hj. unfold file_block in *. lia.
  - eapply istep_trans; [by apply tstep_istep|apply istep_inodes|done].
  - simpl. by rewrite (ts_inodes _ _ _ _ Hs1).
  - done.
  - intros k Hk. unfold fblock at 1. rewrite Hj by (unfold file_block in *; lia). destruct (decide (k = bn)) as [->|E].
    + rewrite decide_False by done. unfold V1. rewrite balloc_new. unfold fblock. by rewrite decide_True.
    + fold (fblock V1 x k). by apply (grows_fblock (sb f)).
  - apply Hg.
  - intros b Hb Hm _. by apply Hg.
  - intros b (Hb & [E|(k & Hk & E)]); [left; split; [done|left; congruence]|]. rewrite Hj in E by (unfold file_block in *; lia).
    case_decide; [right; intros [_ ?]; subst; done|]. rewrite (grows_iaddr (sb f) V) in E by done. left. split; eauto.
  - intros k Hk Hnz. rewrite Hj by (unfold file_block in *; lia). rewrite decide_False by congruence. by apply (grows_iaddr (sb f)).
  - done.
  - intros _. rewrite Hj by lia. by rewrite decide_True.
  - intros b [?|[->| ->]]%balloc_log_elem; [by left|right; left; by exists a|right; right; auto].
  - intros b. apply balloc_log_mono.
  - done.
Qed.

(** A fresh block becomes the indirect block. *)
Lemma indirect_bmapped f V bs ip x bn a f1 : fopen f V bs ip x → NDIRECT ≤ bn → ind x = 0 →
  0 ≤ a < sbsize (sb f) → ¬ in_use (sb f) V a → tx f1 (balloc_image (sb f) a V) (balloc_log (sb f) a bs) [] → tstep [] f f1 →
  bmapped f V bs ip x bn 0 (set_inodes (<[ip := put_iaddr NDIRECT a x]> (inodes f1)) f1) (balloc_image (sb f) a V)
    (balloc_log (sb f) a bs) (put_iaddr NDIRECT a x).
Proof.
  intros [Ht Hip Hok Hx] Hbn Hz Ha Hfree Ht1 Hs1. set (V1 := balloc_image (sb f) a V). set (x1 := put_iaddr NDIRECT a x).
  pose proof (balloc_grows _ _ _ _ Hok Ha Hfree) as Hg. pose proof (grows_inode _ _ _ _ Hg Hx) as Hx1.
  pose proof (fresh_nonzero _ _ _ _ Hok Hfree) as Ha0. pose proof (io_len _ _ _ Hx) as Hl.
  assert (∀ j, 0 ≤ j → iaddr V1 x1 j = iaddr V1 x j) as Hj by (intros j Hj; apply put_indirect; [done|done|apply balloc_new|done]).
  assert (∀ j, file_block j → iaddr V1 x1 j = iaddr V x j) as Hjf
    by (intros j Hjf; rewrite Hj by (unfold file_block in *; lia); by apply (grows_iaddr (sb f))).
  assert (ind x1 = a) as Hind by (unfold x1; rewrite put_ind by (done || unfold NDIRECT; lia); by rewrite decide_True).
  split.
  - split; [by apply tx_set_inodes|apply list_lookup_insert_eq; rewrite (ts_inodes _ _ _ _ Hs1); by eapply lookup_lt_Some| |];
      simpl; rewrite (ts_sb _ _ _ _ Hs1); [by apply balloc_fs_ok|].
    eapply (assign_ind_ok _ V1 V1 x x1 a); try done; [|apply length_insert| |].
    + intros Ho%(owned_grows _ _ _ _ Hg Hx). by apply (fresh_owned _ _ _ _ Hx Hfree).
    + intros b [?| ->]; [done|by eapply balloc_new_data].
    + intros j ?. apply Hj. unfold file_block in *. lia.
  - eapply istep_trans; [by apply tstep_istep|apply istep_inodes|done].
  - simpl. by rewrite (ts_inodes _ _ _ _ Hs1).
  - done.
  - intros k Hk. rewrite <- (grows_fblock _ _ _ _ Hg Hx k Hk). unfold fblock. by rewrite Hj by (unfold file_block in *; lia).
  - apply Hg.
  - intros b Hb Hm _. by apply Hg.
  - intros b (Hb & [E|(k & Hk & E)]); [right; rewrite E, Hind; by intros [_ ?]|]. rewrite Hjf in E by done. left. split; eauto.
  - intros k Hk _. by apply Hjf.
  - done.
  - done.
  - intros b [?|[->| ->]]%balloc_log_elem; [by left|right; left; by exists a|right; right; auto].
  - intros b. apply balloc_log_mono.
  - intros Hnz. destruct Hnz. unfold iaddr. rewrite decide_False by lia. by rewrite decide_True.
Qed.

(** A fresh block becomes an entry of the indirect block. *)
Lemma entry_bmapped f V bs ip x bn a f1 : fopen f V bs ip x → NDIRECT ≤ bn < MAXFILE → ind x ≠ 0 → iaddr V x bn = 0 →
  0 ≤ a < sbsize (sb f) → ¬ in_use (sb f) V a →
  let V2 := img1 (ind x) (put32 (4 * (bn - NDIRECT)) a (V (ind x))) (balloc_image (sb f) a V) in
  tx f1 V2 (log_add (ind x) (balloc_log (sb f) a bs)) [] → tstep [] f f1 →
  bmapped f V bs ip x bn a f1 V2 (log_add (ind x) (balloc_log (sb f) a bs)) x.
Proof.
  intros [Ht Hip Hok Hx] Hbn Hz Hbz Ha Hfree V2 Ht1 Hs1. set (V1 := balloc_image (sb f) a V) in *.
  pose proof (balloc_grows _ _ _ _ Hok Ha Hfree) as Hg. pose proof (grows_inode _ _ _ _ Hg Hx) as Hx1.
  pose proof (fresh_nonzero _ _ _ _ Hok Hfree) as Ha0. pose proof (balloc_fs_ok _ _ _ _ Hok Ha Hfree) as Hok1.
  assert (owned V x (ind x)) as Hoi by (split; auto). assert (V1 (ind x) = V (ind x)) as Ei by by apply (grows_owned (sb f) V V1 x).
  assert (∀ j, file_block j → iaddr V2 x j = if decide (j = bn) then a else iaddr V x j) as Hj.
  { intros j Hj. unfold V2. rewrite <- Ei, put_entry; [by rewrite (grows_iaddr (sb f) V V1)|rewrite Ei; apply Hok|done|done| |done].
    pose proof (fm_start _ _ _ (fo_map _ _ _ Hok)). lia. }
  destruct (io_data _ _ _ Hx _ Hoi) as (Hui & Hmi & _).
  assert (length (put32 (4 * (bn - NDIRECT)) a (V (ind x))) = Z.to_nat BSIZE) as Hlp
    by (unfold put32; rewrite length_put_le; apply Hok).
  assert (file_block bn) as Hfb by (unfold file_block, NDIRECT in *; lia).
  assert (∀ b, b ≠ ind x → V2 b = V1 b) as HV2 by (intros b Hb; by apply img1_other).
  split.
  - split; [done|by rewrite (ts_inodes _ _ _ _ Hs1)| |]; rewrite (ts_sb _ _ _ _ Hs1); [by apply store_fs_ok|].
    eapply (assign_ok _ V V2 x x bn a); try done; [by apply (fresh_owned _ _ _ _ Hx Hfree)|].
    intros b Hb. apply store_data; [done|]. destruct Hb as [Hb| ->]; [by apply (grows_data _ _ _ Hg)|by eapply balloc_new_data].
  - by apply tstep_istep.
  - rewrite (ts_inodes _ _ _ _ Hs1). symmetry. by apply list_insert_id.
  - by destruct x.
  - intros k Hk. unfold fblock at 1. rewrite Hj by done. destruct (decide (k = bn)) as [->|E].
    + rewrite decide_False by done. rewrite HV2 by (intros Ea; apply (fresh_owned _ _ _ _ Hx Hfree); by rewrite Ea).
      unfold V1. rewrite balloc_new. unfold fblock. by rewrite decide_True.
    + unfold fblock. case_decide; [done|]. rewrite HV2 by (by apply (io_ind _ _ _ Hx)).
      apply (grows_owned _ _ _ _ Hg Hx). split; eauto.
  - intros b Hb. apply store_used; [done|]. by apply Hg.
  - intros b Hb Hm Hno. rewrite HV2 by (intros ->; done). by apply Hg.
  - intros b (Hb & [E|(k & Hk & E)]); [left; split; [done|by left]|]. rewrite Hj in E by done.
    case_decide; [right; intros [_ ?]; subst; done|]. left. split; eauto.
  - intros k Hk Hnz. rewrite Hj by done. by rewrite decide_False by congruence.
  - done.
  - intros _. rewrite Hj by done. by rewrite decide_True.
  - intros b Hb. unfold log_add in Hb. assert (b ∈ balloc_log (sb f) a bs ∨ b = ind x) as [Hb'| ->] by (case_decide; set_solver).
    + apply balloc_log_elem in Hb' as [?|[->| ->]]; [by left|right; left; by exists a|right; right; auto].
    + right; right; auto.
  - intros b Hb. by apply log_add_mono, balloc_log_mono.
  - done.
Qed.

Lemma bmapped_trans f V bs ip x bn a f1 V1 bs1 x1 f2 V2 bs2 x2 :
  bmapped f V bs ip x bn 0 f1 V1 bs1 x1 → bmapped f1 V1 bs1 ip x1 bn a f2 V2 bs2 x2 →
  iaddr V x bn = 0 → ind x2 = ind x1 → bmapped f V bs ip x bn a f2 V2 bs2 x2.
Proof.
  intros B1 B2 Hz Ei. pose proof (ts_sb _ _ _ _ (bm_step _ _ _ _ _ _ _ _ _ _ _ B1)) as Es. simpl in Es.
  destruct B1 as [O1 S1 I1 X1 K1 U1 T1 N1 P1 Y1 A1 L1 M1 D1], B2 as [O2 S2 I2 X2 K2 U2 T2 N2 P2 Y2 A2 L2 M2 D2].
  rewrite Es in *. split; try done.
  - by eapply istep_trans.
  - by rewrite I2, I1, list_insert_insert_eq.
  - rewrite X2, X1. done.
  - intros k Hk. by rewrite K2, K1.
  - auto.
  - intros b Hb Hm Hno. rewrite T2, T1; auto. intros [?|Hnu]%N1; [done|]. by apply Hnu.
  - intros b [?|Hnu]%N2; [auto|]. right. intros Hu. by apply Hnu, U1.
  - intros k Hk Hnz. rewrite P2; [by apply P1|done|by rewrite P1].
  - intros Hi. rewrite Ei. auto.
  - intros b Hb. apply L2 in Hb as [Hb|Hb]; [|by right]. apply L1 in Hb as [?|[?|[? [E|?]]]]; [auto|auto| |done].
    right; right. rewrite Ei. auto.
  - auto.
Qed.

Lemma bmapped_same f V bs ip x bn a f' : fopen f V bs ip x → tx f' V bs [] → tstep [] f f' →
  (a ≠ 0 → iaddr V x bn = a) → (iaddr V x bn ≠ 0 → a = iaddr V x bn) → bmapped f V bs ip x bn a f' V bs x.
Proof.
  intros [Ht Hip Hok Hx] Ht' Hs Ha Hn. split; try done; auto.
  - split; [done|by rewrite (ts_inodes _ _ _ _ Hs)|by rewrite (ts_sb _ _ _ _ Hs)..].
  - by apply tstep_istep.
  - rewrite (ts_inodes _ _ _ _ Hs). symmetry. by apply list_insert_id.
  - by destruct x.
Qed.

Lemma bmap_direct_spec f V bs ip x bn (Q : Z → list lockid → fsst → Prop) :
  fopen f V bs ip x → 0 ≤ bn < NDIRECT → (iaddr V x bn = 0 → space 2 bs []) →
  (∀ a f' V' bs' x', bmapped f V bs ip x bn a f' V' bs' x' → (a = 0 → full (sb f) V') → Q a [] f') →
  fwp s0 [] (bmap patience bcache ip bn) f Q.
Proof.
  intros Ho Hbn Hsp HQ. pose proof Ho as [Ht Hip Hok Hx]. unfold bmap. apply fwp_bind. eapply fwp_inode_at; [done|].
  rewrite (io_dev _ _ _ Hx), decide_True by lia.
  assert (default 0 (addrs x !! Z.to_nat bn) = iaddr V x bn) as Ea by (unfold iaddr; by rewrite decide_True by lia).
  apply fwp_bind. eapply fwp_addr_at; [done|apply Hx|lia|]. rewrite Ea. case_decide as Hz.
  - apply fwp_bind. eapply balloc_step; [done|done|by apply Hsp| |].
    + intros a f1 Ha Hfree Ht1 Hs1. rewrite decide_False by (by eapply fresh_nonzero). apply fwp_bind.
      eapply fwp_mod_inode; [by rewrite (ts_inodes _ _ _ _ Hs1)|]. apply fwp_ret. eapply HQ; [by apply direct_bmapped|].
      intros E. by destruct (fresh_nonzero _ _ _ _ Hok Hfree).
    + intros f1 Hfu Ht1 Hs1. rewrite decide_True by done. apply fwp_ret. eapply HQ; [by apply bmapped_same|done].
  - apply fwp_ret. eapply HQ; [by apply (bmapped_same _ _ _ _ _ _ _ f); [done|done|apply tstep_refl|..]|done].
Qed.

(** The part of bmap after the indirect block has been found. *)
Definition bmap_entry (addr bn : Z) : M S Z :=
  bp <- bread patience bcache 1 addr ;;
  b <- buf_at bp ;;
  let e := get32 (4 * (bn - NDIRECT)) (data b) in
  e <- (if decide (e = 0) then
          e <- balloc patience bcache 1 ;;
          (if decide (e ≠ 0) then mod_data bp (put32 (4 * (bn - NDIRECT)) e) ;; log_write bp else ret tt) ;;
          ret e
        else ret e) ;;
  brelse bcache bp ;;
  ret e.

Lemma bmap_entry_spec f V bs ip x bn (Q : Z → list lockid → fsst → Prop) :
  fopen f V bs ip x → NDIRECT ≤ bn < MAXFILE → ind x ≠ 0 → space 1 bs [] → (iaddr V x bn = 0 → space 3 bs []) →
  (∀ a f' V' bs', bmapped f V bs ip x bn a f' V' bs' x → (a = 0 → full (sb f) V') → Q a [] f') →
  fwp s0 [] (bmap_entry (ind x) bn) f Q.
Proof.
  intros Ho Hbn Hi Hsp1 Hsp HQ. pose proof Ho as [Ht Hip Hok Hx].
  assert (owned V x (ind x)) as Hoi by (split; auto). pose proof (io_data _ _ _ Hx _ Hoi) as Hdi. pose proof Hdi as (Hui & Hmi & _).
  assert (get32 (4 * (bn - NDIRECT)) (V (ind x)) = iaddr V x bn) as Ea.
  { unfold iaddr. rewrite decide_False by lia. by rewrite decide_False. }
  unfold bmap_entry. apply fwp_bind. eapply tx_bread; [done|done|set_solver|right; by apply (space_room 1)|]. intros i f1 Ht1 Hs1 Hi1 Hcl1.
  assert (sb f1 = sb f) as Es by apply Hs1. assert (fs_ok (sb f1) V [ind x]) as Hok1 by (rewrite Es; by apply fs_ok_held).
  eapply tx_buf; [done|done|]. intros b Hb _. rewrite Hb. cbv zeta. rewrite Ea.
  destruct (decide (iaddr V x bn = 0)) as [Hz|Hz].
  - specialize (Hsp Hz). apply fwp_bind, fwp_bind. eapply balloc_step; [done|done|unfold space in *; simpl in *; lia| |].
    + intros a f2 Ha Hfree Ht2 Hs2. rewrite Es in Ha, Hfree, Ht2. rewrite decide_True by exact (fresh_nonzero _ _ _ _ Hok Hfree).
      assert (caches (metas f2) i (ind x)) as Hi2 by (apply (ts_bufs _ _ _ _ Hs2); [set_solver|done]).
      apply fwp_bind. apply fwp_bind. eapply tx_mod_data; [done|done|done|set_solver|]. intros f3 Ht3 Hs3 Hi3.
      pose proof (log_add_length a (log_add (BBLOCK a (sb f)) bs)). pose proof (log_add_length (BBLOCK a (sb f)) bs).
      eapply tx_log_write; [done|done|done| |unfold space, balloc_log in *; simpl in *; lia|].
      { pose proof (fm_start _ _ _ (fo_map _ _ _ Hok)). unfold used in Hui. lia. }
      intros f4 Ht4 Hs4 Hi4. apply fwp_ret, fwp_bind.
      eapply (tx_brelse _ _ _ _ _ _ Henv _ _ _ [] []); [done|done|left; apply in_log_add|]. intros f5 Ht5 Hs5. apply fwp_ret.
      assert (balloc_image (sb f) a V (ind x) = V (ind x)) as Ei by (apply (balloc_grows _ _ _ _ Hok Ha Hfree); done).
      eapply HQ; [eapply entry_bmapped; [done|done|done|done|done|done|by rewrite Ei in Ht5|tchain]|].
      intros E. by destruct (fresh_nonzero _ _ _ _ Hok Hfree).
    + intros f2 Hfu Ht2 Hs2. rewrite Es in Hfu. rewrite decide_False by tauto. apply fwp_bind, fwp_ret, fwp_ret, fwp_bind.
      assert (caches (metas f2) i (ind x)) as Hi2 by (apply (ts_bufs _ _ _ _ Hs2); [set_solver|done]).
      assert (clean f2 V bs (ind x)) as Hcl2 by (destruct Hcl1 as [?|E]; [by left|right; by rewrite (ts_disk _ _ _ _ Hs2)]).
      eapply (tx_brelse _ _ _ _ _ _ Henv _ _ _ [] []); [done|done|done|]. intros f3 Ht3 Hs3. apply fwp_ret.
      eapply HQ; [eapply bmapped_same; [done|done|tchain|done|done]|done].
  - apply fwp_bind, fwp_ret, fwp_bind.
    eapply (tx_brelse _ _ _ _ _ _ Henv _ _ _ [] []); [done|done|done|]. intros f3 Ht3 Hs3. apply fwp_ret.
    eapply HQ; [eapply bmapped_same; [done|done|tchain|done|done]|done].
Qed.

Lemma balloc_log_length s a bs : (length (balloc_log s a bs) ≤ length bs + 2)%nat.
Proof. unfold balloc_log. pose proof (log_add_length a (log_add (BBLOCK a s) bs)). pose proof (log_add_length (BBLOCK a s) bs). lia. Qed.

(** The room bmap needs: it allocates up to two blocks. *)
Definition bmap_need (V : Z → list Z) (x : inode) (bn : Z) : Z :=
  if decide (iaddr V x bn = 0) then if decide (ind x = 0) then 5 else 3 else 1.

Lemma bmap_need_space V x bn bs : space (bmap_need V x bn) bs [] →
  space 1 bs [] ∧ (iaddr V x bn = 0 → space 3 bs []) ∧ (iaddr V x bn = 0 → ind x = 0 → space 5 bs []).
Proof. unfold bmap_need, space. simpl. repeat case_decide; intros; split_and!; intros; lia. Qed.

Lemma bmap_spec f V bs ip x bn (Q : Z → list lockid → fsst → Prop) :
  fopen f V bs ip x → file_block bn → space (bmap_need V x bn) bs [] →
  (∀ a f' V' bs' x', bmapped f V bs ip x bn a f' V' bs' x' → (a = 0 → full (sb f) V') → Q a [] f') →
  fwp s0 [] (bmap patience bcache ip bn) f Q.
Proof.
  intros Ho Hbn (Hsp1 & Hsp3 & Hsp5)%bmap_need_space HQ. destruct (decide (bn < NDIRECT)) as [Hd|Hd].
  { eapply bmap_direct_spec; [done|unfold file_block in *; lia|intros Hz; specialize (Hsp3 Hz); unfold space in *; lia|done]. }
  pose proof Ho as [Ht Hip Hok Hx]. unfold bmap. apply fwp_bind. eapply fwp_inode_at; [done|].
  rewrite (io_dev _ _ _ Hx), decide_False by lia. cbv zeta. unfold file_block in Hbn.
  rewrite decide_True by (unfold MAXFILE in *; lia).
  apply fwp_bind. eapply fwp_addr_at; [done|apply Hx|unfold NDIRECT; lia|]. fold (ind x). apply fwp_bind.
  destruct (decide (ind x = 0)) as [Hi|Hi].
  - assert (iaddr V x bn = 0) as Hz by (unfold iaddr; rewrite decide_False by lia; by rewrite decide_True).
    specialize (Hsp5 Hz Hi). apply fwp_bind. eapply balloc_step; [done|done|unfold space in *; lia| |].
    + intros a f1 Ha Hfree Ht1 Hs1. rewrite decide_False by exact (fresh_nonzero _ _ _ _ Hok Hfree). apply fwp_bind.
      eapply fwp_mod_inode; [by rewrite (ts_inodes _ _ _ _ Hs1)|]. apply fwp_ret.
      rewrite decide_False by exact (fresh_nonzero _ _ _ _ Hok Hfree).
      pose proof (indirect_bmapped _ _ _ _ _ bn _ _ Ho ltac:(lia) Hi Ha Hfree Ht1 Hs1) as B1.
      assert (ind (put_iaddr NDIRECT a x) = a) as Ei by (rewrite put_ind by (apply Hx || unfold NDIRECT; lia); by rewrite decide_True).
      change (fwp s0 [] (bmap_entry a bn) (set_inodes (<[ip:=put_iaddr NDIRECT a x]> (inodes f1)) f1) Q). rewrite <- Ei at 1.
      eapply bmap_entry_spec; [apply B1|lia|rewrite Ei; exact (fresh_nonzero _ _ _ _ Hok Hfree)| | |].
      1,2: pose proof (balloc_log_length (sb f) a bs); unfold space in *; lia.
      intros a' f2 V2 bs2 B2 Hfu. simpl in Hfu. rewrite (ts_sb _ _ _ _ Hs1) in Hfu. eapply HQ; [by eapply bmapped_trans|done].
    + intros f1 Hfu Ht1 Hs1. rewrite decide_True by done. apply fwp_bind, fwp_ret, fwp_ret. rewrite decide_True by done. apply fwp_ret.
      eapply HQ; [by eapply bmapped_same|done].
  - apply fwp_ret. rewrite decide_False by done. eapply bmap_entry_spec; [done|lia|done|done|done|]. intros. by eapply HQ.
Qed.
End Bmap.
