(* ===== verification/FsRw.v ===== *)
(** * Reading and writing files (readi and writei of kernel/fs.c) *)

From S2P Require Import Prelude Params CString Spinlock ProcDefs WaitQueue Sched Memory Kalloc PageTable Vm VmSpec UserMem CopyUser FsDefs Seq Sleeplock Bio BioInv BioSpec Log Fs LogCrash LogSpec AddressSpace FsExample LogTheorems FsTx FsAlloc FsFile FsBmap.

(** ** Bytes of a file *)

Definition slice (V : Z → list Z) (x : inode) (off n : Z) : list Z := fbyte V x <$> seqZ off n.

Lemma length_slice V x off n : length (slice V x off n) = Z.to_nat n.
Proof. unfold slice. by rewrite length_fmap, length_seqZ. Qed.

Lemma slice_app V x off n m : 0 ≤ n → 0 ≤ m → slice V x off (n + m) = slice V x off n ++ slice V x (off + n) m.
Proof. intros. unfold slice. by rewrite <- fmap_app, <- seqZ_app. Qed.

Section InBlock.
Variables (off m i : Z).
Hypothesis Hoff : 0 ≤ off.
Hypothesis Hm : off mod BSIZE + m ≤ BSIZE.
Hypothesis Hi : 0 ≤ i < m.

Lemma in_block_div : (off + i) / BSIZE = off / BSIZE.
Proof.
  pose proof (Z.div_mod off BSIZE). pose proof (Z.mod_pos_bound off BSIZE). unfold BSIZE in *.
  symmetry. apply (Z.div_unique _ _ _ (off mod 1024 + i)); lia.
Qed.
Lemma in_block_mod : (off + i) mod BSIZE = off mod BSIZE + i.
Proof.
  pose proof (Z.div_mod off BSIZE). pose proof (Z.mod_pos_bound off BSIZE). unfold BSIZE in *.
  symmetry. apply (Z.mod_unique _ _ (off / 1024)); lia.
Qed.
End InBlock.

(** What readi takes out of one block. *)
Lemma take_slice V x off m : 0 ≤ off → 0 ≤ m → off mod BSIZE + m ≤ BSIZE → iaddr V x (off / BSIZE) ≠ 0 →
  length (V (iaddr V x (off / BSIZE))) = Z.to_nat BSIZE →
  take (Z.to_nat m) (drop (Z.to_nat (off mod BSIZE)) (V (iaddr V x (off / BSIZE)))) = slice V x off m.
Proof.
  intros Hoff Hm0 Hm Hnz Hl. pose proof (Z.mod_pos_bound off BSIZE ltac:(done)).
  apply list_eq. intros i. destruct (decide (i < Z.to_nat m)%nat) as [Hi|Hi].
  - rewrite lookup_take_lt, lookup_drop by done. unfold slice. rewrite list_lookup_fmap, lookup_seqZ_lt by lia. simpl.
    unfold fbyte. rewrite (in_block_div off m), (in_block_mod off m) by lia. unfold fblock, byte_at. rewrite decide_False by done.
    replace (Z.to_nat (off mod BSIZE + Z.of_nat i)) with (Z.to_nat (off mod BSIZE) + i)%nat by lia.
    destruct (lookup_lt_is_Some_2 (V (iaddr V x (off / BSIZE))) (Z.to_nat (off mod BSIZE) + i)) as [v Hv]; [rewrite Hl; lia|].
    by rewrite Hv.
  - rewrite lookup_take_ge by lia. symmetry. apply lookup_ge_None_2. rewrite length_slice. lia.
Qed.

(** Every block below the size has been allocated. *)
Record dense (V : Z → list Z) (x : inode) : Prop := mkDense {
  de_size : 0 ≤ isize x ≤ MAXFILE * BSIZE;
  de_full : ∀ k, 0 ≤ k → k * BSIZE < isize x → iaddr V x k ≠ 0;
}.

Lemma dense_at V x o : dense V x → 0 ≤ o < isize x → file_block (o / BSIZE) ∧ iaddr V x (o / BSIZE) ≠ 0.
Proof.
  intros [Hs Hd] Ho. pose proof (Z.mul_div_le o BSIZE ltac:(done)).
  assert (0 ≤ o / BSIZE) by (apply Z.div_pos; unfold BSIZE; lia). split.
  - split; [done|]. apply Z.div_lt_upper_bound; [unfold BSIZE; lia|]. lia.
  - apply Hd; [done|lia].
Qed.

(** The bytes that either_copyin reads from [src] on are [bs]: those of a
    kernel buffer, or those of user memory where all of it is mapped for the
    process [mep]. *)
Definition source_has {S} `{HasFs S} (kend : Z) (s0 : S) (mep : proc) (src : source) (bs : list Z) : Prop :=
  match src with
  | S_local l => l = bs
  | S_user va => ∃ fr T top, us_ok kend s0 fr T (pagetable mep) top ∧ 0 ≤ va ∧ va + Z.of_nat (length bs) ≤ top ∧
      reads_at (bytes (pm_of s0)) T va bs
  end.

Lemma source_has_add {S} `{HasFs S} kend (s0 : S) mep src bs m : source_has kend s0 mep src bs → 0 ≤ m ≤ Z.of_nat (length bs) →
  source_has kend s0 mep (source_add src m) (drop (Z.to_nat m) bs).
Proof.
  intros Hs Hm. destruct src as [va|l]; simpl in *; [|by subst l]. destruct Hs as (fr & T & top & Hus & Hva & Htop & Hr).
  pose proof (us_top _ _ _ _ _ _ Hus) as HM. assert (MAXVA = 2 ^ 38) as EM by done. unfold u64. rewrite wrap_small by lia.
  exists fr, T, top. rewrite length_drop. split_and!; [done|lia|lia|]. intros j b Hj. rewrite lookup_drop in Hj. apply Hr in Hj.
  rewrite <- Hj. f_equal. lia.
Qed.

Section Rw.
Context {S : Type} `{HasFs S}.
Variables (s0 : S) (me : nat) (mep : proc) (sleeplocks : list Z) (kend : Z) (patience : nat) (bcache start : Z).
Hypothesis Henv : fs_env s0 me mep sleeplocks bcache.
Notation tx := (tx mep bcache start).
Notation fopen := (fopen mep bcache start).
Notation tstep := (tstep bcache).
Notation istep := (istep bcache).
Notation bmapped := (bmapped mep bcache start).

Lemma fwp_copyout_local held f src (Q : Z → list lockid → fsst → Prop) :
  Q 0 held f → fwp s0 held (either_copyout kend D_local src) f Q.
Proof. intros HQ. unfold either_copyout. apply fwp_bind. eapply fwp_curproc; [apply Henv|]. by apply fwp_ret. Qed.

(** [either_copyin] from memory that is there neither fails nor allocates. *)
Lemma fwp_copyin f src bs len (Q : Z * list Z → list lockid → fsst → Prop) :
  source_has kend s0 mep src bs → 0 ≤ len ≤ Z.of_nat (length bs) →
  Q (0, take (Z.to_nat len) bs) [] f → fwp s0 [] (either_copyin kend src len) f Q.
Proof.
  intros Hs Hl HQ. unfold either_copyin. apply fwp_bind. eapply fwp_curproc; [apply Henv|].
  destruct src as [va|l]; [|simpl in Hs; subst l; by apply fwp_ret].
  destruct Hs as (fr & T & top & Hus & Hva & Htop & Hr). apply fwp_bind. eapply fwp_me; [apply Henv|].
  exists (0, take (Z.to_nat len) bs), [], f. split; [|done]. unfold copyin.
  assert (us_ok kend (st s0 [] f) fr T (pagetable mep) top) as Hus'.
  { unfold st. cbn [hw_acqs]. rewrite with_hw_of. destruct Hus as [[[? ?] ? ? ?] ? ? ?]. split; [split; [split|..]|..]; st_simpl; done. }
  assert (len = Z.of_nat (length (take (Z.to_nat len) bs))) as El by (rewrite length_take; lia). rewrite El at 2.
  rewrite (copyin_present kend (st s0 [] f) fr T (pagetable mep) top Hus'); [done| | |rewrite length_take; lia].
  - right. rewrite length_take. lia.
  - intros j b Hj. apply lookup_take_Some in Hj as [Hj _]. apply Hr in Hj. unfold st. cbn [hw_acqs]. rewrite with_hw_of. st_simpl. done.
Qed.

Lemma bmap_had_spec f V bs ip x bn (Q : Z → list lockid → fsst → Prop) :
  fopen f V bs ip x → file_block bn → iaddr V x bn ≠ 0 → space 1 bs [] →
  (∀ f', fopen f' V bs ip x → tstep [] f f' → Q (iaddr V x bn) [] f') → fwp s0 [] (bmap patience bcache ip bn) f Q.
Proof.
  intros Ho Hbn Hnz Hsp HQ. eapply bmap_spec; [done|done|done| |].
  { unfold bmap_need. by rewrite decide_False. }
  intros a f' V' bs' x' B _. pose proof (bm_had _ _ _ _ _ _ _ _ _ _ _ _ _ _ B Hnz) as (-> & -> & -> & ->).
  apply HQ; [apply B|]. destruct B as [? Hs Hi]. unfold FsBmap.istep in Hs. rewrite Hi in Hs. rewrite list_insert_id in Hs by apply Ho.
  destruct Hs. by split.
Qed.

Lemma readi_loop_spec fuel : ∀ f V bs ip x off n tot got (Q : Z * list Z → list lockid → fsst → Prop),
  fopen f V bs ip x → dense V x → space 1 bs [] → 0 ≤ off → 0 ≤ tot ≤ n → off + (n - tot) ≤ isize x → isize x < 2 ^ 32 →
  n - tot < Z.of_nat fuel →
  (∀ f', fopen f' V bs ip x → tstep [] f f' → Q (n, got ++ slice V x off (n - tot)) [] f') →
  fwp s0 [] (readi_loop kend patience bcache fuel ip D_local off n tot got) f Q.
Proof.
  induction fuel as [|fuel IH]; intros f V bs ip x off n tot got Q Ho Hd Hsp Hoff Htot Hend Hsz Hf HQ; [lia|].
  cbn [readi_loop]. case_decide as Hlt.
  2:{ assert (n = tot) as -> by lia. apply fwp_ret. rewrite Z.sub_diag in HQ. unfold slice in HQ. simpl in HQ. rewrite app_nil_r in HQ.
      apply HQ; [done|apply tstep_refl]. }
  destruct (dense_at V x off Hd) as [Hfb Hnz]; [lia|]. set (m := Z.min (n - tot) (BSIZE - off mod BSIZE)).
  pose proof (Z.mod_pos_bound off BSIZE ltac:(done)). set (a := iaddr V x (off / BSIZE)) in *.
  apply fwp_bind. eapply bmap_had_spec; [done..|]. fold a. intros f1 Ho1 Hs1. rewrite decide_False by done.
  apply fwp_bind. eapply fwp_inode_at; [apply Ho1|]. rewrite (io_dev _ _ _ (op_inode _ _ _ _ _ _ _ _ Ho)).
  apply fwp_bind. eapply tx_bread; [done|apply Ho1|set_solver|right; by apply (space_room 1)|]. intros i f2 Ht2 Hs2 Hi2 Hcl2. cbv zeta. fold m.
  eapply tx_buf; [done|done|]. intros b Hb _. rewrite Hb.
  assert (take (Z.to_nat m) (drop (Z.to_nat (off mod BSIZE)) (V a)) = slice V x off m) as -> by (apply take_slice; [lia|lia|lia|done|apply Ho]).
  apply fwp_bind, fwp_copyout_local. rewrite decide_False by done.
  apply fwp_bind. eapply (tx_brelse _ _ _ _ _ _ Henv _ _ _ [] []); [done|done|done|]. intros f3 Ht3 Hs3.
  assert (tstep [] f f3) as Hs by tchain.
  assert (fopen f3 V bs ip x) as Ho3.
  { destruct Ho. split; [done|by rewrite (ts_inodes _ _ _ _ Hs)|by rewrite (ts_sb _ _ _ _ Hs)..]. }
  rewrite u32_small by lia. simpl. eapply IH; [done|done|done|lia|lia|lia|lia|lia|].
  intros f4 Ho4 Hs4. rewrite <- app_assoc. replace (n - (tot + m)) with (n - tot - m) by lia.
  rewrite <- slice_app by lia. replace (m + (n - tot - m)) with (n - tot) by lia. apply HQ; [done|]. tchain.
Qed.

(** readi stops at the end of the file. *)
Lemma readi_spec f V bs ip x off n (Q : Z * list Z → list lockid → fsst → Prop) :
  fopen f V bs ip x → dense V x → space 1 bs [] → 0 ≤ off < 2 ^ 32 → 0 ≤ n < 2 ^ 32 → off + n < 2 ^ 32 →
  let r := if decide (isize x < off) then 0 else Z.min n (isize x - off) in
  (∀ f', fopen f' V bs ip x → tstep [] f f' → Q (r, slice V x off r) [] f') →
  fwp s0 [] (readi kend patience bcache ip D_local off n) f Q.
Proof.
  intros Ho Hd Hsp Hoff Hn Hov r HQ. unfold readi. apply fwp_bind. eapply fwp_inode_at; [apply Ho|].
  pose proof (de_size _ _ Hd) as Hsz. unfold MAXFILE, NINDIRECT, NDIRECT, BSIZE in Hsz. change (1024 / 4) with 256 in Hsz.
  rewrite u32_small by lia. subst r. destruct (decide (isize x < off)) as [Hlt|Hge].
  { rewrite decide_True by lia. apply fwp_ret. apply HQ; [done|apply tstep_refl]. }
  rewrite decide_False by lia. cbv zeta.
  assert ((if decide (isize x < off + n) then isize x - off else n) = Z.min n (isize x - off)) as -> by (case_decide; lia).
  eapply readi_loop_spec; [done|done|done|lia|lia|lia|lia|lia|]. rewrite Z.sub_0_r. done.
Qed.
End Rw.
