(* ===== verification/FsWrite.v ===== *)
(** * Writing files (writei of kernel/fs.c) *)

From S2P Require Import Prelude Params CString Spinlock ProcDefs WaitQueue Sched Memory FsDefs Seq Sleeplock Bio BioInv BioSpec Log Fs LogCrash LogSpec AddressSpace FsExample LogTheorems FsTx FsAlloc FsFile FsBmap FsRw.

(** ** The blocks a write may log *)

Definition nmap (s : superblock) : Z := (sbsize s + BPB - 1) / BPB.
Definition map_list (s : superblock) : list Z := (λ k, k + bmapstart s) <$> seqZ 0 (nmap s).

Lemma nmap_bound s : 0 ≤ sbsize s → 0 ≤ nmap s ∧ (nmap s - 1) * BPB < sbsize s ≤ nmap s * BPB.
Proof.
  intros Hs. unfold nmap, BPB, BSIZE. pose proof (Z.div_mod (sbsize s + 1024 * 8 - 1) (1024 * 8)).
  pose proof (Z.mod_pos_bound (sbsize s + 1024 * 8 - 1) (1024 * 8)). lia.
Qed.

Lemma is_map_list s V X b : free_map s V X → is_map s b → b ∈ map_list s.
Proof.
  intros Hm (c & Hc & ->). destruct (map_block _ _ _ _ Hm Hc) as [-> _].
  apply list_elem_of_fmap. exists (c / BPB). split; [done|]. apply elem_of_seqZ.
  pose proof (nmap_bound s (fm_size _ _ _ Hm)). split; [apply Z.div_pos; unfold BPB, BSIZE; lia|].
  apply Z.div_lt_upper_bound; [unfold BPB, BSIZE; lia|]. lia.
Qed.

(** [bs] has only blocks of [bs0], of the free map, and of the file between
    blocks [k0] and [k1]. *)
Definition logset (s : superblock) (V : Z → list Z) (x : inode) (k0 k1 : Z) (bs0 bs : list Z) : Prop :=
  ∀ b, b ∈ bs → b ∈ bs0 ∨ is_map s b ∨ (b ≠ 0 ∧ (b = ind x ∨ ∃ k, k0 ≤ k < k1 ∧ b = iaddr V x k)).

Lemma logset_length s V X x k0 k1 bs0 bs : free_map s V X → NoDup bs → k0 ≤ k1 → logset s V x k0 k1 bs0 bs →
  Z.of_nat (length bs) ≤ Z.of_nat (length bs0) + nmap s + (k1 - k0) + 1.
Proof.
  intros Hm Hnd Hk Hl. pose proof (nmap_bound s (fm_size _ _ _ Hm)).
  assert (length bs ≤ length (bs0 ++ map_list s ++ [ind x] ++ (iaddr V x <$> seqZ k0 (k1 - k0))))%nat as Hle.
  { apply submseteq_length, NoDup_submseteq; [done|]. intros b Hb. rewrite !elem_of_app.
    destruct (Hl b Hb) as [?|[?|[_ [->|(k & Hk' & ->)]]]]; [by left|right; left; by eapply is_map_list|right; right; left; by left|].
    right; right; right. apply list_elem_of_fmap. exists k. split; [done|]. apply elem_of_seqZ. lia. }
  unfold map_list in Hle. rewrite !length_app, !length_fmap, !length_seqZ in Hle. simpl in Hle. lia.
Qed.

(** Storing [l] at [off] of one block. *)
Lemma byte_inserts d o l j : 0 ≤ o → 0 ≤ j → o + Z.of_nat (length l) ≤ Z.of_nat (length d) →
  byte_at j (list_inserts (Z.to_nat o) l d) = if decide (o ≤ j < o + Z.of_nat (length l)) then byte_at (j - o) l else byte_at j d.
Proof.
  intros Ho Hj Hl. unfold byte_at. case_decide as Hin.
  - rewrite list_lookup_inserts by lia. by replace (Z.to_nat j - Z.to_nat o)%nat with (Z.to_nat (j - o)) by lia.
  - destruct (decide (j < o)); [rewrite list_lookup_inserts_lt by lia|rewrite list_lookup_inserts_ge by lia]; done.
Qed.

(** The bytes of [l] that fall in the block of [off], stored there. *)
Section Patch.
Variables (fb fb' : Z → list Z) (off m : Z) (l : list Z).
Hypothesis Hm : 0 ≤ m ≤ Z.of_nat (length l).
Hypothesis Hfit : off mod BSIZE + m ≤ BSIZE.
Hypothesis Hlen : length (fb (off / BSIZE)) = Z.to_nat BSIZE.
Hypothesis Hfb : ∀ j, file_block j →
  fb' j = if decide (j = off / BSIZE) then list_inserts (Z.to_nat (off mod BSIZE)) (take (Z.to_nat m) l) (fb (off / BSIZE)) else fb j.

Lemma patch_block o : 0 ≤ o < MAXFILE * BSIZE →
  byte_at (o mod BSIZE) (fb' (o / BSIZE)) = if decide (off ≤ o < off + m) then byte_at (o - off) l else byte_at (o mod BSIZE) (fb (o / BSIZE)).
Proof.
  intros Ho. pose proof (Z.mod_pos_bound off BSIZE ltac:(done)). pose proof (Z.mod_pos_bound o BSIZE ltac:(done)).
  pose proof (Z.div_mod off BSIZE ltac:(done)). pose proof (Z.div_mod o BSIZE ltac:(done)).
  assert (file_block (o / BSIZE)) as Hf.
  { split; [apply Z.div_pos; unfold BSIZE; lia|]. apply Z.div_lt_upper_bound; [unfold BSIZE; lia|]. lia. }
  rewrite Hfb by done. destruct (decide (o / BSIZE = off / BSIZE)) as [E|E].
  - rewrite byte_inserts by (rewrite ?length_take; unfold BSIZE in *; lia). rewrite length_take, E in *.
    destruct (decide (off ≤ o < off + m)); [rewrite decide_True by lia|rewrite decide_False by lia; done].
    unfold byte_at. rewrite lookup_take_lt by lia. by replace (o mod BSIZE - off mod BSIZE) with (o - off) by lia.
  - rewrite decide_False; [done|]. intros Hin. apply E. replace o with (off + (o - off)) by lia. apply (in_block_div off m); lia.
Qed.
End Patch.

(** [w] bytes of [l] have replaced those of the file at [off]. *)
Definition blocks_end (off n : Z) : Z := (off + n + BSIZE - 1) / BSIZE.

Lemma blocks_cover off n o : 0 ≤ off → off ≤ o < off + n → off / BSIZE ≤ o / BSIZE < blocks_end off n.
Proof.
  intros Hoff Ho. split; [apply Z.div_le_mono; unfold BSIZE; lia|]. unfold blocks_end.
  pose proof (Z.div_mod o BSIZE ltac:(done)). pose proof (Z.mod_pos_bound o BSIZE ltac:(done)).
  assert (o / BSIZE + 1 ≤ (off + n + BSIZE - 1) / BSIZE); [|lia]. apply Z.div_le_lower_bound; unfold BSIZE in *; lia.
Qed.
Lemma blocks_range off n : 0 ≤ off → 0 ≤ n → off + n ≤ MAXFILE * BSIZE → 0 ≤ off / BSIZE ≤ blocks_end off n ∧ blocks_end off n ≤ MAXFILE.
Proof.
  intros Hoff Hn Hend. unfold blocks_end. split_and!.
  - apply Z.div_pos; unfold BSIZE; lia.
  - apply Z.div_le_mono; unfold BSIZE; lia.
  - assert ((off + n + BSIZE - 1) / BSIZE < MAXFILE + 1); [|lia]. apply Z.div_lt_upper_bound; unfold BSIZE in *; lia.
Qed.

Definition patched (V : Z → list Z) (x : inode) (V' : Z → list Z) (x' : inode) (off : Z) (l : list Z) (w : Z) : Prop :=
  ∀ o, 0 ≤ o < MAXFILE * BSIZE → fbyte V' x' o = if decide (off ≤ o < off + w) then byte_at (o - off) l else fbyte V x o.

Lemma patched_same V x V' x' off l : (∀ k, file_block k → fblock V' x' k = fblock V x k) → patched V x V' x' off l 0.
Proof.
  intros Hk o Ho. rewrite decide_False by lia. unfold fbyte. rewrite Hk; [done|].
  split; [apply Z.div_pos; unfold BSIZE; lia|]. apply Z.div_lt_upper_bound; [unfold BSIZE; lia|]. lia.
Qed.

Lemma patched_trans V x V1 x1 V2 x2 off l m w : 0 ≤ m → 0 ≤ w →
  patched V x V1 x1 off l m → patched V1 x1 V2 x2 (off + m) (drop (Z.to_nat m) l) w → patched V x V2 x2 off l (m + w).
Proof.
  intros Hm Hw H1 H2 o Ho. rewrite H2, H1 by done. destruct (decide (off + m ≤ o < off + m + w)).
  - rewrite decide_True by lia. unfold byte_at. rewrite lookup_drop. do 2 f_equal. lia.
  - destruct (decide (off ≤ o < off + m)); [rewrite decide_True by lia|rewrite decide_False by lia]; done.
Qed.

(** Fewer when a block of the range has not been allocated. *)
Lemma logset_length_miss s V X x k0 k1 bs0 bs k : free_map s V X → NoDup bs → k0 ≤ k < k1 → logset s V x k0 k1 bs0 bs → iaddr V x k = 0 →
  Z.of_nat (length bs) ≤ Z.of_nat (length bs0) + nmap s + (k1 - k0) - (if decide (ind x = 0) then 1 else 0).
Proof.
  intros Hm Hnd Hk Hl Hz. pose proof (nmap_bound s (fm_size _ _ _ Hm)). set (I := if decide (ind x = 0) then [] else [ind x]).
  assert (length bs ≤ length (bs0 ++ map_list s ++ I ++ (iaddr V x <$> (seqZ k0 (k - k0) ++ seqZ (k + 1) (k1 - k - 1)))))%nat as Hle.
  { apply submseteq_length, NoDup_submseteq; [done|]. intros b Hb. rewrite !elem_of_app.
    destruct (Hl b Hb) as [?|[?|[Hnz [E|(j & Hj & E)]]]]; [by left|right; left; by eapply is_map_list|right; right; left|].
    - unfold I. rewrite decide_False by congruence. subst b. by left.
    - right; right; right. apply list_elem_of_fmap. exists j. split; [done|]. rewrite elem_of_app, !elem_of_seqZ.
      assert (j ≠ k) by congruence. lia. }
  unfold map_list, I in Hle. rewrite !length_app, !length_fmap, !length_app, !length_seqZ in Hle. case_decide; simpl in Hle; lia.
Qed.

Section Write.
Context {S : Type} `{HasFs S}.
Variables (s0 : S) (me : nat) (mep : proc) (sleeplocks : list Z) (kend : Z) (patience : nat) (bcache start : Z).
Hypothesis Henv : fs_env s0 me mep sleeplocks bcache.
Notation tx := (tx mep bcache start).
Notation fopen := (fopen mep bcache start).
Notation tstep := (tstep bcache).
Notation istep := (istep bcache).
Notation bmapped := (bmapped mep bcache start).

(** A change to the file in slot [ip], and to nothing else. *)
Record fstep (f : fsst) (V : Z → list Z) (bs : list Z) (ip : nat) (x : inode) (f' : fsst) (V' : Z → list Z) (bs' : list Z) (x' : inode) : Prop := mkFstep {
  fp_open : fopen f' V' bs' ip x';
  fp_step : istep [] f f';
  fp_inodes : inodes f' = <[ip := x']> (inodes f);
  fp_x : x' = set_addrs (addrs x') (set_isize (isize x') x);
  fp_used : ∀ b, used (sb f) V b → used (sb f) V' b;
  fp_others : ∀ b, used (sb f) V b → ¬ is_map (sb f) b → ¬ owned V x b → V' b = V b;
  fp_new : ∀ b, owned V' x' b → owned V x b ∨ ¬ used (sb f) V b;
  fp_keep : ∀ k, file_block k → iaddr V x k ≠ 0 → iaddr V' x' k = iaddr V x k;
  fp_ind : ind x ≠ 0 → ind x' = ind x;
  fp_mono : ∀ b, b ∈ bs → b ∈ bs';
}.

Lemma bmapped_fstep f V bs ip x bn a f' V' bs' x' :
  bmapped f V bs ip x bn a f' V' bs' x' → fstep f V bs ip x f' V' bs' x'.
Proof. intros []. split; try done. rewrite bm_x. by destruct x. Qed.

Lemma fstep_refl f V bs ip x : fopen f V bs ip x → fstep f V bs ip x f V bs x.
Proof. intros Ho. split; try done; auto with xv6; [symmetry; by apply list_insert_id, Ho|by destruct x]. Qed.

Lemma fstep_trans f V bs ip x f1 V1 bs1 x1 f2 V2 bs2 x2 :
  fstep f V bs ip x f1 V1 bs1 x1 → fstep f1 V1 bs1 ip x1 f2 V2 bs2 x2 → fstep f V bs ip x f2 V2 bs2 x2.
Proof.
  intros B1 B2. pose proof (ts_sb _ _ _ _ (fp_step _ _ _ _ _ _ _ _ _ B1)) as Es. simpl in Es.
  destruct B1 as [O1 S1 I1 X1 U1 T1 N1 P1 Y1 M1], B2 as [O2 S2 I2 X2 U2 T2 N2 P2 Y2 M2].
  rewrite Es in *. split; try done.
  - by eapply istep_trans.
  - by rewrite I2, I1, list_insert_insert_eq.
  - rewrite X2, X1. done.
  - auto.
  - intros b Hb Hm Hno. rewrite T2, T1; auto. intros [?|Hnu]%N1; [done|]. by apply Hnu.
  - intros b [?|Hnu]%N2; [auto|]. right. intros Hu. by apply Hnu, U1.
  - intros k Hk Hnz. rewrite P2; [by apply P1|done|by rewrite P1].
  - intros Hi. rewrite Y2; auto. rewrite Y1; auto.
  - auto.
Qed.

Lemma fstep_logset f V bs ip x f' V' bs' x' k0 k1 bs0 : fstep f V bs ip x f' V' bs' x' → 0 ≤ k0 → k1 ≤ MAXFILE →
  logset (sb f) V x k0 k1 bs0 bs →
  (∀ b, b ∈ bs' → b ∈ bs ∨ is_map (sb f) b ∨ (b ≠ 0 ∧ (b = ind x' ∨ ∃ k, k0 ≤ k < k1 ∧ b = iaddr V' x' k))) →
  logset (sb f) V' x' k0 k1 bs0 bs'.
Proof.
  intros B Hk0 Hk1 Hl Hn b Hb. destruct (Hn b Hb) as [Hb'|?]; [|by right].
  destruct (Hl b Hb') as [?|[?|[Hnz [->|(k & Hk & ->)]]]]; [by left|auto|right; right..]; (split; [done|]).
  - left. symmetry. by apply (fp_ind _ _ _ _ _ _ _ _ _ B).
  - right. exists k. split; [done|]. symmetry. apply (fp_keep _ _ _ _ _ _ _ _ _ B); [unfold file_block; lia|done].
Qed.

(** Storing in a block of the file. *)
Lemma store_fstep f V bs ip x f' k d : fopen f V bs ip x → file_block k → iaddr V x k ≠ 0 → length d = Z.to_nat BSIZE →
  let V' := img1 (iaddr V x k) d V in
  tx f' V' (log_add (iaddr V x k) bs) [] → tstep [] f f' →
  fstep f V bs ip x f' V' (log_add (iaddr V x k) bs) x ∧
  (∀ j, file_block j → iaddr V' x j = iaddr V x j) ∧
  (∀ j, file_block j → fblock V' x j = if decide (j = k) then d else fblock V x j).
Proof.
  intros [Ht Hip Hok Hx] Hk Hnz Hd V' Ht' Hs. set (a := iaddr V x k) in *.
  assert (owned V x a) as Ho by (split; eauto). destruct (io_data _ _ _ Hx a Ho) as (Hu & Hm & Hni).
  assert (a ≠ ind x) as Hai by by apply (io_ind _ _ _ Hx).
  assert (∀ j, file_block j → iaddr V' x j = iaddr V x j) as Hj.
  { intros j _. unfold iaddr. destruct (decide (j < NDIRECT)); [done|]. case_decide; [done|]. unfold V'. by rewrite img1_other. }
  assert (∀ b, owned V' x b ↔ owned V x b) as Ho'.
  { intros b. unfold owned. split; (intros [Hb [?|(j & Hj' & E)]]; split; [done|auto|done|]); right; exists j; (split; [done|]);
      rewrite Hj in *; done. }
  split_and!; [|done|].
  - split; try done; auto with xv6.
    + split; [done|by rewrite (ts_inodes _ _ _ _ Hs)| |]; rewrite (ts_sb _ _ _ _ Hs); [by apply store_fs_ok|].
      destruct Hx as [? ? ? Hdat Hind Hinj]. split; try done.
      * intros b Hb%Ho'. by apply store_data, Hdat.
      * intros j Hj'. rewrite Hj by done. by apply Hind.
      * intros j j' ? ?. rewrite !Hj by done. by apply Hinj.
    + rewrite (ts_inodes _ _ _ _ Hs). symmetry. by apply list_insert_id.
    + by destruct x.
    + intros b Hb. by apply store_used.
    + intros b Hb _ Hno. apply img1_other. by intros ->.
    + intros b Hb%Ho'. by left.
    + intros b. apply log_add_mono.
  - intros j Hj'. unfold fblock. rewrite Hj by done. destruct (decide (j = k)) as [->|Hne].
    + rewrite decide_False by done. apply img1_same.
    + case_decide; [done|]. apply img1_other. intros E. apply Hne. by apply (io_inj _ _ _ Hx).
Qed.

(** A fixed bound on the blocks of one write. *)
Section Loop.
Variables (ip : nat) (s : superblock) (bs0 : list Z) (k0 k1 : Z).
Hypothesis Hk : 0 ≤ k0 ≤ k1.
Hypothesis Hk1 : k1 ≤ MAXFILE.
Hypothesis Hroom : space (nmap s + (k1 - k0) + 4) bs0 [].

Lemma loop_space f V bs x : fopen f V bs ip x → sb f = s → logset s V x k0 k1 bs0 bs →
  space 3 bs [] ∧ ∀ k, k0 ≤ k < k1 → space (bmap_need V x k) bs [].
Proof.
  intros [[Hb _ _] _ Hok _] Es Hl. rewrite Es in Hok. pose proof (fo_map _ _ _ Hok) as Hm.
  assert (NoDup bs) as Hnd by (destruct Hb as [_ Hb]; by eapply be_P).
  pose proof (logset_length s V [] x k0 k1 bs0 bs Hm Hnd ltac:(lia) Hl) as Hle. split; [unfold space in *; simpl in *; lia|].
  intros k Hkk. unfold bmap_need. destruct (decide (iaddr V x k = 0)) as [Hz|Hz]; [|unfold space in *; simpl in *; lia].
  pose proof (logset_length_miss s V [] x k0 k1 bs0 bs k Hm Hnd Hkk Hl Hz). unfold space in *. simpl in *. case_decide; lia.
Qed.

Lemma bmapped_logset f V bs x bn a f1 V1 bs1 x1 : bmapped f V bs ip x bn a f1 V1 bs1 x1 → sb f = s → k0 ≤ bn < k1 →
  logset s V x k0 k1 bs0 bs → logset s V1 x1 k0 k1 bs0 bs1.
Proof.
  intros B <- Hkk Hl. eapply fstep_logset; [by eapply bmapped_fstep|lia|done|done|]. intros b Hb.
  apply (bm_log _ _ _ _ _ _ _ _ _ _ _ _ _ _ B) in Hb. destruct Hb as [?|[?|[? [?|E]]]]; auto.
  right; right. split; [done|]. right. exists bn. split; [lia|]. symmetry. rewrite E. apply (bm_addr _ _ _ _ _ _ _ _ _ _ _ _ _ _ B). congruence.
Qed.

(** One iteration that finds or allocates its block. *)
Lemma write_block f V bs x off l a f1 V1 bs1 x1 f2 : let m := Z.min (Z.of_nat (length l)) (BSIZE - off mod BSIZE) in
  fopen f V bs ip x → sb f = s → logset s V x k0 k1 bs0 bs → 0 ≤ off → k0 ≤ off / BSIZE < k1 → a ≠ 0 →
  bmapped f V bs ip x (off / BSIZE) a f1 V1 bs1 x1 →
  let V2 := img1 a (list_inserts (Z.to_nat (off mod BSIZE)) (take (Z.to_nat m) l) (V1 a)) V1 in
  tx f2 V2 (log_add a bs1) [] → tstep [] f1 f2 →
  fstep f V bs ip x f2 V2 (log_add a bs1) x1 ∧ logset s V2 x1 k0 k1 bs0 (log_add a bs1) ∧
  patched V x V2 x1 off l m ∧ isize x1 = isize x ∧ iaddr V2 x1 (off / BSIZE) ≠ 0.
Proof.
  intros m Ho Es Hl Hoff Hkk Ha B V2 Ht2 Hs2. pose proof (bmapped_fstep _ _ _ _ _ _ _ _ _ _ _ B) as B1.
  assert (sb f1 = s) as Es1 by (rewrite <- Es; apply B). pose proof (bm_open _ _ _ _ _ _ _ _ _ _ _ _ _ _ B) as Ho1.
  assert (file_block (off / BSIZE)) as Hfb by (unfold file_block; lia).
  pose proof (bm_addr _ _ _ _ _ _ _ _ _ _ _ _ _ _ B Ha) as Ea. pose proof (Z.mod_pos_bound off BSIZE ltac:(done)) as Hmod.
  assert (length (V1 a) = Z.to_nat BSIZE) as Hla by apply Ho1.
  destruct (store_fstep f1 V1 bs1 ip x1 f2 (off / BSIZE) (list_inserts (Z.to_nat (off mod BSIZE)) (take (Z.to_nat m) l) (V1 a)))
    as (B2 & Hia & Hfbl); rewrite ?Ea; try done; [by rewrite length_inserts|]. rewrite Ea in B2, Hia, Hfbl. fold V2 in B2, Hia, Hfbl.
  pose proof (bmapped_logset _ _ _ _ _ _ _ _ _ _ B Es Hkk Hl) as Hl1.
  split_and!.
  - by eapply fstep_trans.
  - rewrite <- Es1. eapply fstep_logset; [done|lia|done|by rewrite Es1|]. intros b Hb.
    assert (b ∈ bs1 ∨ b = a) as [?| ->] by (unfold log_add in Hb; case_decide; set_solver); [by left|].
    right; right. split; [done|]. right. exists (off / BSIZE). split; [lia|]. rewrite Hia by done. done.
  - intros o Hoo. unfold fbyte. apply (patch_block (fblock V x) (fblock V2 x1)); [lia|lia| | |done].
    + rewrite <- (bm_blocks _ _ _ _ _ _ _ _ _ _ _ _ _ _ B) by done. unfold fblock. rewrite Ea. by rewrite decide_False.
    + intros j Hj. rewrite Hfbl by done. rewrite <- !(bm_blocks _ _ _ _ _ _ _ _ _ _ _ _ _ _ B) by done.
      case_decide; [|done]. unfold fblock. rewrite Ea. by rewrite decide_False.
  - by rewrite (bm_x _ _ _ _ _ _ _ _ _ _ _ _ _ _ B).
  - rewrite Hia by done. congruence.
Qed.

Record written f V bs x off l (w : Z) f' V' bs' x' : Prop := mkWritten {
  wr_count : 0 ≤ w ≤ Z.of_nat (length l);
  wr_step : fstep f V bs ip x f' V' bs' x';
  wr_log : logset s V' x' k0 k1 bs0 bs';
  wr_bytes : patched V x V' x' off l w;
  wr_size : isize x' = isize x;
  wr_alloc : ∀ o, off ≤ o < off + w → iaddr V' x' (o / BSIZE) ≠ 0;
  wr_full : w < Z.of_nat (length l) → full s V';
}.

Lemma writei_loop_spec fuel : ∀ f V bs x off src l n tot (Q : Z * Z → list lockid → fsst → Prop),
  fopen f V bs ip x → sb f = s → logset s V x k0 k1 bs0 bs → source_has kend s0 mep src l → Z.of_nat (length l) = n - tot →
  n - tot < Z.of_nat fuel → 0 ≤ off → off + (n - tot) ≤ MAXFILE * BSIZE → (∀ o, off ≤ o < off + (n - tot) → k0 ≤ o / BSIZE < k1) →
  (∀ w f' V' bs' x', written f V bs x off l w f' V' bs' x' → Q (tot + w, off + w) [] f') →
  fwp s0 [] (writei_loop kend patience bcache fuel ip src off n tot) f Q.
Proof.
  induction fuel as [|fuel IH]; intros f V bs x off src l n tot Q Ho Es Hl Hsrc Hlen Hf Hoff Hend Hblk HQ; [lia|].
  cbn [writei_loop]. case_decide as Hlt.
  2:{ apply fwp_ret. specialize (HQ 0 f V bs x). rewrite !Z.add_0_r in HQ. apply HQ.
      split; try done; [lia|by apply fstep_refl|by apply patched_same|lia|lia]. }
  pose proof (Z.mod_pos_bound off BSIZE ltac:(done)) as Hmod.
  assert (k0 ≤ off / BSIZE < k1) as Hkk by (apply Hblk; lia). assert (file_block (off / BSIZE)) as Hfb by (unfold file_block; lia).
  apply fwp_bind. eapply bmap_spec; [done|done|done|by apply (loop_space f V bs x)|]. intros a f1 V1 bs1 x1 B Hfull. rewrite Es in Hfull.
  pose proof (bmapped_fstep _ _ _ _ _ _ _ _ _ _ _ B) as B1. pose proof (bm_open _ _ _ _ _ _ _ _ _ _ _ _ _ _ B) as Ho1.
  assert (sb f1 = s) as Es1 by (rewrite <- Es; apply B).
  pose proof (bmapped_logset _ _ _ _ _ _ _ _ _ _ B Es Hkk Hl) as Hl1.
  case_decide as Ha.
  { apply fwp_ret. specialize (HQ 0 f1 V1 bs1 x1). rewrite !Z.add_0_r in HQ. apply HQ.
    split; try done; [lia| | |lia|by intros; apply Hfull].
    - apply patched_same, B.
    - by rewrite (bm_x _ _ _ _ _ _ _ _ _ _ _ _ _ _ B). }
  pose proof (proj1 (loop_space f1 V1 bs1 x1 Ho1 Es1 Hl1)) as Hsp1. set (m := Z.min (n - tot) (BSIZE - off mod BSIZE)).
  assert (data_block s V1 a) as (Hua & _).
  { rewrite <- Es1. apply (io_data _ _ _ (op_inode _ _ _ _ _ _ _ _ Ho1)). split; [done|]. right. exists (off / BSIZE). split; [done|]. by apply (bm_addr _ _ _ _ _ _ _ _ _ _ _ _ _ _ B). }
  apply fwp_bind. eapply fwp_inode_at; [apply Ho1|]. rewrite (io_dev _ _ _ (op_inode _ _ _ _ _ _ _ _ Ho1)).
  apply fwp_bind. eapply tx_bread; [done|apply Ho1|set_solver|right; by apply (space_room 3)|]. intros i f2 Ht2 Hs2 Hi2 _. cbv zeta. fold m.
  apply fwp_bind. eapply fwp_copyin; [done|exact Hsrc|lia|]. apply fwp_bind. eapply tx_mod_data; [done|done|done|set_solver|]. intros f3 Ht3 Hs3 Hi3.
  rewrite decide_False by done. apply fwp_bind.
  eapply tx_log_write; [done|done|done| |by eapply (space_log 3)|].
  { pose proof (fm_start _ _ _ (fo_map _ _ _ (op_fs _ _ _ _ _ _ _ _ Ho1))). rewrite Es1 in *. unfold used in Hua. lia. }
  intros f4 Ht4 Hs4 Hi4. apply fwp_bind. eapply (tx_brelse _ _ _ _ _ _ Henv _ _ _ [] []); [done|done|left; apply in_log_add|]. intros f5 Ht5 Hs5.
  assert (m = Z.min (Z.of_nat (length l)) (BSIZE - off mod BSIZE)) as Em by (unfold m; lia).
  destruct (write_block f V bs x off l a f1 V1 bs1 x1 f5) as (W1 & W2 & W3 & W4 & W5); try done; [by rewrite <- Em|tchain|]. rewrite <- Em in *.
  rewrite u32_small by (unfold MAXFILE, NINDIRECT, NDIRECT, BSIZE in *; change (1024 / 4) with 256 in *; lia).
  eapply IH; [apply W1| |done|apply source_has_add; [done|lia]|rewrite length_drop; lia|lia|lia|lia|intros o ?; apply Hblk; lia|].
  { rewrite <- Es1. pose proof (ts_sb _ _ _ _ (fp_step _ _ _ _ _ _ _ _ _ W1)) as E5. simpl in E5. by rewrite E5, Es, Es1. }
  intros w f6 V6 bs6 x6 [C1 C2 C3 C4 C5 C6 C7]. replace (tot + m + w) with (tot + (m + w)) by lia. replace (off + m + w) with (off + (m + w)) by lia.
  rewrite length_drop in C1, C7. eapply HQ. split; [lia|by eapply fstep_trans|done|by eapply patched_trans; [lia..| |]|congruence| |intros; apply C7; lia].
  intros o Hoo. destruct (decide (o < off + m)); [|apply C6; lia].
  assert (o / BSIZE = off / BSIZE) as Eo by (replace o with (off + (o - off)) by lia; apply (in_block_div off m); lia).
  rewrite Eo. rewrite (fp_keep _ _ _ _ _ _ _ _ _ C2); done.
Qed.
End Loop.

(** ** The inode on disk *)

Lemma length_put_addrs o k l d : length (put_addrs o k l d) = length d.
Proof. revert k d. induction l as [|a l IH]; intros k d; simpl; [done|]. rewrite IH. apply length_put_le. Qed.
Lemma length_put_dinode o x d : length (put_dinode o x d) = length d.
Proof. unfold put_dinode, put16, put32. rewrite length_put_addrs, !length_put_le. done. Qed.

Lemma set_isize_fopen f V bs ip x z : fopen f V bs ip x →
  fopen (set_inodes (<[ip := set_isize z x]> (inodes f)) f) V bs ip (set_isize z x).
Proof.
  intros [Ht Hip Hok []]. split; [by apply tx_set_inodes|apply list_lookup_insert_eq; by eapply lookup_lt_Some|done|by split].
Qed.

Lemma iupdate_spec f V bs ip x (Q : unit → list lockid → fsst → Prop) :
  fopen f V bs ip x → space 1 bs [] →
  (∀ f', let ib := IBLOCK (inum x) (sb f) in let V' := img1 ib (put_dinode (doff (inum x)) x (V ib)) V in
     fopen f' V' (log_add ib bs) ip x → tstep [] f f' → (∀ k, file_block k → iaddr V' x k = iaddr V x k ∧ fblock V' x k = fblock V x k) → Q tt [] f') →
  fwp s0 [] (iupdate patience bcache ip) f Q.
Proof.
  intros [Ht Hip Hok Hx] Hsp HQ. unfold iupdate. apply fwp_bind. eapply fwp_inode_at; [done|]. apply fwp_bind.
  unfold get_sb. apply fwp_bind, fwp_get, fwp_ret. rewrite (io_dev _ _ _ Hx). set (ib := IBLOCK (inum x) (sb f)).
  assert (is_inode_block (sb f) ib) as Hib by (exists (inum x); split; [apply Hx|done]).
  destruct (fo_inodes _ _ _ Hok ib Hib) as (Hu & _ & Hm).
  apply fwp_bind. eapply tx_bread; [done|done|set_solver|right; by apply (space_room 1)|]. intros i f1 Ht1 Hs1 Hi1 _.
  eapply tx_modlog; [done|done|done|set_solver| |by eapply (space_log 1)|].
  { pose proof (fm_start _ _ _ (fo_map _ _ _ Hok)). unfold used in Hu. lia. }
  intros f2 Ht2 Hs2 Hi2. eapply (tx_brelse _ _ _ _ _ _ Henv _ _ _ [] []); [done|done|left; apply in_log_add|]. intros f3 Ht3 Hs3.
  set (V' := img1 ib _ V) in *. assert (∀ b, owned V x b → b ≠ ib) as Hne by (intros b Ho ->; by apply (io_data _ _ _ Hx) in Ho as (_ & _ & ?)).
  assert (∀ k, iaddr V' x k = iaddr V x k) as Hia.
  { intros k. unfold iaddr. destruct (decide (k < NDIRECT)); [done|]. case_decide as E; [done|]. unfold V'. rewrite img1_other; [done|].
    apply Hne. split; auto. }
  assert (tstep [] f f3) as Hs by tchain.
  apply HQ; fold ib; fold V'; [|done|].
  - split; [done|by rewrite (ts_inodes _ _ _ _ Hs)| |]; rewrite (ts_sb _ _ _ _ Hs);
      [by apply store_fs_ok; [|rewrite length_put_dinode; apply Hok|]|].
    destruct Hx as [? ? ? Hdat Hind Hinj]. split; try done; [|intros k ?; rewrite Hia; auto|intros k k' ? ?; rewrite !Hia; auto].
    intros b Hb. apply store_data; [done|]. apply Hdat. destruct Hb as [? [?|(k & ? & E)]]; [by split; auto|].
    rewrite Hia in E. split; eauto.
  - intros k Hk. split; [done|]. unfold fblock. rewrite Hia. case_decide; [done|]. apply img1_other, Hne. split; eauto.
Qed.

(** ** writei *)

Record wrote_file (f : fsst) (V : Z → list Z) (bs : list Z) (ip : nat) (x : inode) (off : Z) (l : list Z) (w : Z)
    (f' : fsst) (V' : Z → list Z) (bs' : list Z) (x' : inode) : Prop := mkWroteFile {
  wf_count : 0 ≤ w ≤ Z.of_nat (length l);
  wf_open : fopen f' V' bs' ip x';
  wf_step : istep [] f f';
  wf_inodes : inodes f' = <[ip := x']> (inodes f);
  wf_x : x' = set_addrs (addrs x') (set_isize (Z.max (isize x) (off + w)) x);
  wf_bytes : patched V x V' x' off l w;
  wf_dense : dense V x → dense V' x';
  wf_others : ∀ b, used (sb f) V b → ¬ is_map (sb f) b → b ≠ IBLOCK (inum x) (sb f) → ¬ owned V x b → V' b = V b;
  wf_inode : V' (IBLOCK (inum x) (sb f)) = put_dinode (doff (inum x)) x' (V (IBLOCK (inum x) (sb f)));
  wf_log : Z.of_nat (length bs') ≤ Z.of_nat (length bs) + nmap (sb f) + (blocks_end off (Z.of_nat (length l)) - off / BSIZE) + 2;
  wf_full : w < Z.of_nat (length l) → full (sb f) V';
}.

Lemma dense_written V x V' x' off w : dense V x → 0 ≤ off ≤ isize x → 0 ≤ w → off + w ≤ MAXFILE * BSIZE →
  (∀ k, file_block k → iaddr V x k ≠ 0 → iaddr V' x' k = iaddr V x k) →
  (∀ o, off ≤ o < off + w → iaddr V' x' (o / BSIZE) ≠ 0) → isize x' = Z.max (isize x) (off + w) → dense V' x'.
Proof.
  intros [Hs Hd] Hoff Hw Hend Hkeep Hal Esz. split; [lia|]. intros k Hk Hlt. rewrite Esz in Hlt.
  destruct (decide (k * BSIZE < isize x)) as [Hin|Hout].
  - rewrite Hkeep; [by apply Hd| |by apply Hd]. unfold file_block, BSIZE in *. lia.
  - assert (k = k * BSIZE / BSIZE) as -> by (by rewrite Z.div_mul). apply Hal. lia.
Qed.

(** After the loop the size is set and the inode written. *)
Lemma wrote_file_intro f V bs ip x off l w f1 V1 bs1 x1 f3 : let n := Z.of_nat (length l) in
  fopen f V bs ip x → 0 ≤ off ≤ isize x → off + n ≤ MAXFILE * BSIZE →
  written ip (sb f) bs (off / BSIZE) (blocks_end off n) f V bs x off l w f1 V1 bs1 x1 →
  let x2 := set_isize (Z.max (isize x) (off + w)) x1 in
  let ib := IBLOCK (inum x) (sb f) in
  let V3 := img1 ib (put_dinode (doff (inum x)) x2 (V1 ib)) V1 in
  fopen f3 V3 (log_add ib bs1) ip x2 → tstep [] (set_inodes (<[ip := x2]> (inodes f1)) f1) f3 →
  (∀ k, file_block k → iaddr V3 x2 k = iaddr V1 x1 k ∧ fblock V3 x2 k = fblock V1 x1 k) →
  wrote_file f V bs ip x off l w f3 V3 (log_add ib bs1) x2.
Proof.
  intros n Ho Hoff Hend [W1 W2 W3 W4 W5 W6 W7] x2 ib V3 Ho3 Hs3 Hblk. pose proof Ho as [_ _ Hok Hx].
  destruct (blocks_range off n) as [Hk0 Hk1]; [lia|lia|done|].
  assert (is_inode_block (sb f) ib) as Hib by (exists (inum x); split; [apply Hx|done]).
  destruct (fo_inodes _ _ _ Hok ib Hib) as (Hu & _ & Hm).
  assert (¬ owned V x ib) as Hno by (intros Ho'; by apply (io_data _ _ _ Hx) in Ho' as (_ & _ & ?)).
  pose proof (fp_open _ _ _ _ _ _ _ _ _ W2) as [[[_ Hb1] _ _] _ Hok1 _].
  split; [lia|done| | | | | | | | |].
  - eapply istep_trans; [apply W2| |done]. eapply istep_trans; [apply istep_inodes|by apply tstep_istep|done].
  - rewrite (ts_inodes _ _ _ _ Hs3). simpl. by rewrite (fp_inodes _ _ _ _ _ _ _ _ _ W2), list_insert_insert_eq.
  - unfold x2. rewrite (fp_x _ _ _ _ _ _ _ _ _ W2). done.
  - intros o Hoo. rewrite <- W4 by done. unfold fbyte. rewrite (proj2 (Hblk (o / BSIZE) ltac:(split; [apply Z.div_pos; unfold BSIZE; lia|apply Z.div_lt_upper_bound; unfold BSIZE in *; lia]))). done.
  - intros Hd. eapply dense_written; [exact Hd|exact Hoff|exact (proj1 W1)|lia| | |done].
    + intros k Hk Hnz. rewrite (proj1 (Hblk k Hk)). by apply (fp_keep _ _ _ _ _ _ _ _ _ W2).
    + intros o Hoo. rewrite (proj1 (Hblk (o / BSIZE) ltac:(pose proof (blocks_cover off n o); unfold file_block; lia))). by apply W6.
  - intros b Hb Hbm Hbi Hbo. unfold V3. rewrite img1_other by done. by apply (fp_others _ _ _ _ _ _ _ _ _ W2).
  - unfold V3. rewrite img1_same. f_equal. by apply (fp_others _ _ _ _ _ _ _ _ _ W2).
  - assert (sb f1 = sb f) as Es by apply W2. rewrite Es in Hok1.
    pose proof (logset_length _ _ _ _ _ _ _ _ (fo_map _ _ _ Hok1) (be_P _ _ _ _ _ _ _ _ Hb1) (proj2 Hk0) W3).
    pose proof (log_add_length ib bs1). fold n. lia.
  - intros Hw c Hc. assert (used (sb f) V3 c) as [_ ?]; [|done]. apply store_used; [done|]. split; [done|]. by apply W7.
Qed.

Lemma writei_spec f V bs ip x off src l (Q : Z → list lockid → fsst → Prop) : let n := Z.of_nat (length l) in
  fopen f V bs ip x → source_has kend s0 mep src l → 0 ≤ off ≤ isize x → off + n ≤ MAXFILE * BSIZE →
  space (nmap (sb f) + (blocks_end off n - off / BSIZE) + 4) bs [] →
  (∀ w f' V' bs' x', wrote_file f V bs ip x off l w f' V' bs' x' → Q w [] f') →
  fwp s0 [] (writei kend patience bcache ip src off n) f Q.
Proof.
  intros n Ho Hsrc Hoff Hend Hsp HQ. destruct (blocks_range off n) as [Hk0 Hk1]; [lia|lia|done|]. unfold writei.
  apply fwp_bind. eapply fwp_inode_at; [apply Ho|].
  rewrite decide_False by (rewrite u32_small by (unfold MAXFILE, NINDIRECT, NDIRECT, BSIZE in *; change (1024 / 4) with 256 in *; lia); lia).
  rewrite decide_False by lia. apply fwp_bind.
  eapply (writei_loop_spec ip (sb f) bs (off / BSIZE) (blocks_end off n)); [done|done|done|done|done|intros b; by left|exact Hsrc|lia|lia|lia|lia| |].
  { intros o Hoo. apply blocks_cover; lia. }
  intros w f1 V1 bs1 x1 [W1 W2 W3 W4 W5 W6 W7]. simpl. pose proof (fp_open _ _ _ _ _ _ _ _ _ W2) as Ho1.
  assert (sb f1 = sb f) as Es by (pose proof (ts_sb _ _ _ _ (fp_step _ _ _ _ _ _ _ _ _ W2)); done).
  apply fwp_bind. eapply fwp_inode_at; [apply Ho1|]. set (x2 := set_isize (Z.max (isize x) (off + w)) x1).
  apply fwp_bind. set (f2 := set_inodes (<[ip := x2]> (inodes f1)) f1).
  assert (fwp s0 [] (if decide (isize x1 < off + w) then mod_inode ip (set_isize (off + w)) else ret tt) f1
    (λ _ held' g, held' = [] ∧ g = f2)) as Hset.
  { destruct (decide (isize x1 < off + w)).
    - eapply fwp_mod_inode; [apply Ho1|]. unfold f2, x2. by replace (Z.max (isize x) (off + w)) with (off + w) by lia.
    - apply fwp_ret. split; [done|]. unfold f2. assert (x2 = x1) as -> by (unfold x2; replace (Z.max (isize x) (off + w)) with (isize x1) by lia; by destruct x1).
      rewrite list_insert_id by apply Ho1. by destruct f1. }
  eapply fwp_mono; [exact Hset|]. intros [] ? g [-> ->].
  assert (fopen f2 V1 bs1 ip x2) as Ho2 by by apply set_isize_fopen. apply fwp_bind.
  eapply iupdate_spec; [exact Ho2| |].
  { assert (space 3 bs1 []) as H5 by (eapply (loop_space ip (sb f) bs (off / BSIZE) (blocks_end off n)); [lia|done|exact Ho1|done|done]). unfold space in *. lia. }
  assert (inum x1 = inum x) as En by by rewrite (fp_x _ _ _ _ _ _ _ _ _ W2).
  cbv zeta. unfold x2 at 1 2 3 4 5 6 7 8, f2 at 1 2 3. simpl. rewrite En, Es. intros f3 Ho3 Hs3 Hblk. apply fwp_ret.
  eapply HQ, (wrote_file_intro f V bs ip x off l w f1 V1 bs1 x1); done.
Qed.
End Write.

(** ** An example file: an empty file with number 5, open in slot 0 *)

Definition ex_inode : inode := mkInode 1 5 1 1 T_FILE 0 0 1 0 (replicate 13 0).
Definition ex_file : fsst := set_inodes (<[0%nat := ex_inode]> (inodes (ex_open ex_mapped))) (ex_open ex_mapped).

Lemma ex_iblock b : is_inode_block (sb (ex_open ex_mapped)) b → 33 ≤ b < 46.
Proof.
  intros (i & Hi & ->). simpl in Hi. unfold IBLOCK. simpl. change IPB with 16. assert (0 ≤ i / 16 < 13).
  { split; [apply Z.div_pos; lia|apply Z.div_lt_upper_bound; lia]. }
  rewrite u32_small by lia. lia.
Qed.

Lemma ex_is_map b : is_map (sb (ex_open ex_mapped)) b → b = 46.
Proof. intros (c & Hc & ->). by apply ex_map_block. Qed.

Lemma ex_fs_ok : fs_ok (sb (ex_open ex_mapped)) ex_mapped [].
Proof.
  split.
  - apply ex_free_map.
  - intros b. unfold ex_mapped, img1. repeat case_decide; reflexivity.
  - split; [apply ex_range; lia|apply ex_used; lia].
  - intros b Hb%ex_iblock. split_and!; [split; [apply ex_range; lia|apply ex_used; lia]|apply not_elem_of_nil|].
    intros Hm%ex_is_map. lia.
Qed.

Lemma ex_iaddr k : iaddr ex_mapped ex_inode k = 0.
Proof.
  unfold iaddr. case_decide.
  - destruct (addrs ex_inode !! Z.to_nat k) as [a|] eqn:E; [|done]. by apply lookup_replicate_1 in E as [-> _].
  - by rewrite decide_True.
Qed.

Lemma ex_inode_ok : inode_ok (sb (ex_open ex_mapped)) ex_mapped ex_inode.
Proof.
  assert (ind ex_inode = 0) as Ei by reflexivity. pose proof ex_iaddr as Ha. split; [done|done|simpl; lia| | |].
  - intros b [Hb [E|(k & _ & E)]]; [by rewrite Ei in E|by rewrite Ha in E].
  - intros k _. by rewrite Ha.
  - intros k k' _ _. by rewrite Ha.
Qed.

Lemma ex_fopen : fopen ex_vm_proc ex_bcache 2 ex_file ex_mapped [] 0 ex_inode.
Proof. split; [apply tx_set_inodes, ex_tx|reflexivity|exact ex_fs_ok|exact ex_inode_ok]. Qed.

Lemma ex_dense : dense ex_mapped ex_inode.
Proof. split; [vm_compute; split; discriminate|]. simpl. unfold BSIZE. intros. lia. Qed.

(** A directory with the one entry of block 47, in slot 1. *)
Definition ex_dir : inode := mkInode 1 1 1 1 T_DIR 0 0 1 16 (47 :: replicate 12 0).
Definition ex_dirfs : fsst := set_inodes (<[1%nat := ex_dir]> (inodes (ex_open ex_mapped))) (ex_open ex_mapped).

Lemma ex_dir_addr k : 0 ≤ k → iaddr ex_mapped ex_dir k = if decide (k = 0) then 47 else 0.
Proof.
  intros Hk. unfold iaddr. destruct (decide (k < NDIRECT)) as [Hd|Hd].
  - destruct (decide (k = 0)) as [->|Hne]; [done|]. destruct (Z.to_nat k) as [|n] eqn:E; [lia|].
    change (addrs ex_dir !! Datatypes.S n) with (replicate 12 0 !! n).
    destruct (replicate 12 0 !! n) as [a|] eqn:Ea; [|done]. by apply lookup_replicate_1 in Ea as [-> _].
  - rewrite decide_True by done. rewrite decide_False; [done|]. unfold NDIRECT in Hd. lia.
Qed.

Lemma ex_data_47 : data_block (sb (ex_open ex_mapped)) ex_mapped 47.
Proof.
  split; [split; [apply ex_range; lia|apply ex_used; lia]|]. split; [intros Hm%ex_is_map; lia|intros Hi%ex_iblock; lia].
Qed.

Lemma ex_dir_inode : inode_ok (sb (ex_open ex_mapped)) ex_mapped ex_dir.
Proof.
  assert (ind ex_dir = 0) as Ei by reflexivity. pose proof ex_dir_addr as Ha. split; [done|done|simpl; lia| | |].
  - intros b [Hb [E|(k & Hk & E)]]; [by rewrite Ei in E|]. unfold file_block in Hk. rewrite Ha in E by lia. case_decide; subst; [apply ex_data_47|done].
  - intros k Hk. unfold file_block in Hk. rewrite Ha, Ei by lia. case_decide; [lia|done].
  - intros k k' Hk Hk'. unfold file_block in *. rewrite !Ha by lia. repeat case_decide; subst; lia.
Qed.

Lemma ex_dir_fopen : fopen ex_vm_proc ex_bcache 2 ex_dirfs ex_mapped [] 1 ex_dir.
Proof. split; [apply tx_set_inodes, ex_tx|reflexivity|exact ex_fs_ok|exact ex_dir_inode]. Qed.

Lemma ex_dir_dense : dense ex_mapped ex_dir.
Proof.
  split; [vm_compute; split; discriminate|]. simpl. unfold BSIZE. intros k Hk Hlt. rewrite ex_dir_addr by done.
  rewrite decide_True by lia. done.
Qed.
