(* ===== verification/FsTheorems.v ===== *)
(** * Properties of files

    A file as the list of its bytes, and readi, writei, iupdate and ilock as
    operations on it. *)

From S2P Require Import Prelude Params CString Spinlock ProcDefs WaitQueue Sched Memory Kalloc PageTable Vm VmSpec UserMem CopyUser FsDefs Seq Sleeplock Bio BioInv BioSpec Log Fs File LogCrash LogSpec AddressSpace FsExample LogTheorems FsTx FsAlloc FsFile FsBmap FsRw FsWrite.

Definition contents (V : Z → list Z) (x : inode) : list Z := slice V x 0 (isize x).

Lemma slice_ext V x V' x' off n : (∀ o, off ≤ o < off + n → fbyte V' x' o = fbyte V x o) → slice V' x' off n = slice V x off n.
Proof. intros He. apply list_fmap_ext. intros i o [-> Hi]%lookup_seqZ. apply He. lia. Qed.

Lemma slice_split V x a n : 0 ≤ a ≤ n →
  take (Z.to_nat a) (slice V x 0 n) = slice V x 0 a ∧ drop (Z.to_nat a) (slice V x 0 n) = slice V x a (n - a).
Proof.
  intros Ha. replace n with (a + (n - a)) at 1 2 by lia. rewrite slice_app by lia.
  rewrite take_app_length', drop_app_length' by (by rewrite length_slice). by rewrite Z.add_0_l.
Qed.

Lemma slice_patched V x V' x' off l w : 0 ≤ off → 0 ≤ w ≤ Z.of_nat (length l) → off + w ≤ MAXFILE * BSIZE →
  patched V x V' x' off l w → slice V' x' off w = take (Z.to_nat w) l.
Proof.
  intros Hoff Hw Hend Hp. apply list_eq. intros i. destruct (decide (i < Z.to_nat w)%nat) as [Hi|Hi].
  - unfold slice. rewrite list_lookup_fmap, lookup_seqZ_lt, lookup_take_lt by lia. simpl. rewrite Hp by lia.
    rewrite decide_True by lia. unfold byte_at. replace (Z.to_nat (off + Z.of_nat i - off)) with i by lia.
    destruct (lookup_lt_is_Some_2 l i) as [v ->]; [lia|done].
  - rewrite lookup_take_ge by lia. apply lookup_ge_None_2. rewrite length_slice. lia.
Qed.

(** Replacing [w] bytes at [off], as a write to an array that may grow. *)
Definition splice (off w : Z) (l c : list Z) : list Z :=
  take (Z.to_nat off) c ++ take (Z.to_nat w) l ++ drop (Z.to_nat (off + w)) c.

Lemma contents_patched V x V' x' off l w : 0 ≤ off ≤ isize x → isize x ≤ MAXFILE * BSIZE → 0 ≤ w ≤ Z.of_nat (length l) →
  off + w ≤ MAXFILE * BSIZE → isize x' = Z.max (isize x) (off + w) → patched V x V' x' off l w →
  contents V' x' = splice off w l (contents V x).
Proof.
  intros Hoff Hsz Hw Hend Es Hp. unfold contents, splice. rewrite Es.
  replace (Z.max (isize x) (off + w)) with (off + (w + (Z.max (isize x) (off + w) - (off + w)))) by lia.
  rewrite slice_app, slice_app by lia. f_equal; [|f_equal].
  - rewrite (proj1 (slice_split V x off (isize x) Hoff)). apply slice_ext. intros o Ho. rewrite Hp by lia. by rewrite decide_False by lia.
  - apply (slice_patched V x); [lia|lia|lia|done].
  - destruct (decide (off + w ≤ isize x)) as [Hle|Hgt].
    + rewrite (proj2 (slice_split V x (off + w) (isize x) ltac:(lia))). replace (Z.max (isize x) (off + w) - (off + w)) with (isize x - (off + w)) by lia.
      apply slice_ext. intros o Ho. rewrite Hp by lia. by rewrite decide_False by lia.
    + rewrite drop_ge by (rewrite length_slice; lia). replace (Z.max (isize x) (off + w) - (off + w)) with 0 by lia. done.
Qed.

(** Where the file system has room for a write of [n] bytes at [off]. *)
Definition write_room (s : superblock) (off n : Z) (bs : list Z) : Prop :=
  space (nmap s + (blocks_end off n - off / BSIZE) + 4) bs [].

Lemma writei_wrote {S} `{HasFs S} (s0 : S) me mep sleeplocks kend patience bcache start f V bs ip x off src l :
  fs_env s0 me mep sleeplocks bcache → fopen mep bcache start f V bs ip x → source_has kend s0 mep src l → 0 ≤ off ≤ isize x → off + Z.of_nat (length l) ≤ MAXFILE * BSIZE →
  write_room (sb f) off (Z.of_nat (length l)) bs →
  fwp s0 [] (writei kend patience bcache ip src off (Z.of_nat (length l))) f (λ w held' f', held' = [] ∧ ∃ V' bs' x',
    wrote_file mep bcache start f V bs ip x off l w f' V' bs' x').
Proof.
  intros Henv Ho Hsrc Hoff Hend Hroom. eapply writei_spec; eauto.
Qed.

(** C6 Refinement: on a file seen as the list of its bytes, [writei] of the
    bytes [l] at [off] replaces or appends a prefix of [l] there, of full length
    unless the disk has no free block left; the inode is stored on disk with its
    new size and addresses, and no block of another file changes.  The bytes come
    from a kernel buffer or from user memory all of which is mapped (a copyin
    that fails ends the write early), and the open transaction has room in the
    log for the blocks of the range.  A write that starts past the end, or would
    pass the largest file size, returns -1 and changes nothing. *)
Theorem writei_splices {S} `{HasFs S} (s0 : S) me mep sleeplocks kend patience bcache start f V bs ip x off src l :
  fs_env s0 me mep sleeplocks bcache → fopen mep bcache start f V bs ip x → dense V x → source_has kend s0 mep src l →
  let n := Z.of_nat (length l) in 0 ≤ off → off + n < 2 ^ 32 → write_room (sb f) off n bs →
  if decide (isize x < off ∨ MAXFILE * BSIZE < off + n)
  then writei kend patience bcache ip src off n (st s0 [] f) = Ok (-1) (st s0 [] f)
  else ∃ w f' V' bs' x', writei kend patience bcache ip src off n (st s0 [] f) = Ok w (st s0 [] f') ∧
    fopen mep bcache start f' V' bs' ip x' ∧ dense V' x' ∧ 0 ≤ w ≤ n ∧ (w < n → full (sb f) V') ∧
    contents V' x' = splice off w l (contents V x) ∧
    V' (IBLOCK (inum x) (sb f)) = put_dinode (doff (inum x)) x' (V (IBLOCK (inum x) (sb f))) ∧
    (∀ y b, owned V y b → inode_ok (sb f) V y → ¬ owned V x b → V' b = V b) ∧
    inum x' = inum x ∧ itype x' = itype x ∧ inlink x' = inlink x.
Proof.
  intros Henv Ho Hd Hsrc n Hoff Hov Hsp. pose proof (de_size _ _ Hd) as Hsz. case_decide as Hbad.
  - enough (fwp s0 [] (writei kend patience bcache ip src off n) f (λ r h g, r = -1 ∧ h = [] ∧ g = f)) as (? & ? & ? & E & -> & -> & ->)
      by exact E. unfold writei. apply fwp_bind. eapply fwp_inode_at; [apply Ho|]. rewrite u32_small by lia.
    case_decide; [by apply fwp_ret|]. rewrite decide_True by lia. by apply fwp_ret.
  - enough (fwp s0 [] (writei kend patience bcache ip src off n) f (λ w held' f', held' = [] ∧ ∃ V' bs' x',
      wrote_file mep bcache start f V bs ip x off l w f' V' bs' x')) as (w & ? & f' & E & -> & V' & bs' & x' & W).
    2:{ eapply writei_wrote; [done|done|exact Hsrc|lia|lia|done]. }
    exists w, f', V', bs', x'. destruct W as [Wc Wo Ws Wi Wx Wb Wd Wt Wn Wl Wf]. split_and!; try done; try lia; try (by rewrite Wx).
    + by apply Wd.
    + apply contents_patched; try done; [lia|lia|lia|]. by rewrite Wx.
    + intros y b Hyo Hy Hno. destruct (io_data _ _ _ Hy b Hyo) as (Hu & Hm & Hni). apply Wt; try done.
      intros ->. apply Hni. exists (inum x). split; [apply (op_inode _ _ _ _ _ _ _ _ Ho)|done].
Qed.

(** ** A process with a page of its own writes to a file *)

Lemma ex_ufs_env : fs_env ex_ukst 1 ex_user_proc ex_sleeplocks ex_bcache.
Proof. split; [exact ex_ufs_base|exact ex_fs_buf_locks]. Qed.

(* what a file operation needs to know of the process is its pid *)
Lemma fopen_pid mep mep' bcache start f V bs ip x : pid mep = pid mep' → fopen mep bcache start f V bs ip x → fopen mep' bcache start f V bs ip x.
Proof.
  intros E [[Hb Hl Ho] Hip Hok Hx]. split; [split|..]; try done. unfold bst in *. by rewrite <- E.
Qed.

Lemma ex_ufopen : fopen ex_user_proc ex_bcache 2 ex_file ex_mapped [] 0 ex_inode.
Proof. by apply (fopen_pid ex_vm_proc), ex_fopen. Qed.

(* the first n bytes of the page *)
Definition ex_bytes (n : nat) : list Z := take n (7 :: 8 :: 9 :: replicate 4000 0).

Lemma ex_user_bytes n : source_has KERNBASE ex_ukst ex_user_proc (S_user 0) (ex_bytes n).
Proof.
  assert (length (ex_bytes n) ≤ 4003)%nat as Hn by (unfold ex_bytes; rewrite length_take; cbn [length]; rewrite length_replicate; lia).
  exists ex_free, ex_tree, TRAPFRAME. split_and!; [|lia|change TRAPFRAME with (2 ^ 38 - 2 * 4096); lia|].
  - destruct (ex_us_ok2 ex_user_table) as [[[Hc Hl] ? ? ?] ? ? ?]. split; [split; [split|..]|..]; try done.
    destruct ex_ufs_base as [[] ? ? ? ? ?]. done.
  - intros j b Hj. pose proof (lookup_lt_Some _ _ _ Hj) as Hlt. apply lookup_take_Some in Hj as [Hj _]. change (bytes (pm_of ex_ukst)) with ex_mem2.
    assert (pte_at ex_mem2 ex_tree (0 + Z.of_nat j) = leaf_pte (ex_page 14) ex_rw) as E.
    { rewrite (pte_same_page _ _ _ 0); [by vm_compute|change MAXVA with (2 ^ 38); lia|done|]. rewrite Z.div_small by lia. done. }
    unfold uload. rewrite E, decide_True, ex_pte2_pa by (by vm_compute). f_equal. unfold PGSIZE. rewrite Z.mod_small by lia.
    do 3 (destruct j as [|j]; [injection Hj as <-; by vm_compute|]). change (replicate 4000 0 !! j = Some b) in Hj. apply lookup_replicate in Hj as [-> _].
    unfold ex_mem2, ex_page, PGSIZE, KERNBASE in *. rewrite !upd_ne by lia. rewrite !store64_out by lia.
    unfold ex_links. simpl foldr. rewrite !store64_out by (unfold ex_page, PGSIZE, KERNBASE; lia). done.
Qed.

Lemma ex_room : write_room (sb ex_file) 0 3 [].
Proof. vm_compute. discriminate. Qed.

Lemma writei_splices_witness : ∃ w f' V' bs' x', writei KERNBASE 0 ex_bcache 0 (S_user 0) 0 3 (st ex_ukst [] ex_file) = Ok w (st ex_ukst [] f') ∧
  fopen ex_user_proc ex_bcache 2 f' V' bs' 0 x' ∧ contents V' x' = take (Z.to_nat w) [7; 8; 9].
Proof.
  destruct (writei_splices ex_ukst 1 ex_user_proc ex_sleeplocks KERNBASE 0 ex_bcache 2 ex_file ex_mapped [] 0 ex_inode 0 (S_user 0) (ex_bytes 3)
    ex_ufs_env ex_ufopen ex_dense (ex_user_bytes 3) ltac:(lia) ltac:(simpl; lia) ex_room) as (w & f' & V' & bs' & x' & E & Ho & _ & _ & _ & Hc & _).
  exists w, f', V', bs', x'. split; [exact E|]. split; [exact Ho|]. rewrite Hc. assert (contents ex_mapped ex_inode = []) as -> by reflexivity.
  unfold splice. rewrite take_nil, drop_nil, app_nil_r. reflexivity.
Defined.

(** C27 Round trip: what [writei], from a kernel buffer or from mapped user
    memory, reports as written is what [readi] of the same range into a kernel
    buffer then returns, whether or not the write had to allocate blocks. *)
Theorem writei_readi {S} `{HasFs S} (s0 : S) me mep sleeplocks kend patience bcache start f V bs ip x off src l :
  fs_env s0 me mep sleeplocks bcache → fopen mep bcache start f V bs ip x → dense V x → source_has kend s0 mep src l →
  let n := Z.of_nat (length l) in 0 ≤ off ≤ isize x → off + n ≤ MAXFILE * BSIZE → write_room (sb f) off n bs →
  ∃ w f' f'', writei kend patience bcache ip src off n (st s0 [] f) = Ok w (st s0 [] f') ∧
    readi kend patience bcache ip D_local off w (st s0 [] f') = Ok (w, take (Z.to_nat w) l) (st s0 [] f'').
Proof.
  intros Henv Ho Hd Hsrc n Hoff Hend Hsp.
  destruct (writei_wrote s0 me mep sleeplocks kend patience bcache start f V bs ip x off src l) as (w & ? & f' & E & -> & V' & bs' & x' & W); [done..|].
  destruct W as [Wc Wo Ws Wi Wx Wb Wd Wt Wn Wl Wf]. fold n in Wc, Wl, E. assert (isize x' = Z.max (isize x) (off + w)) as Es by by rewrite Wx.
  assert (MAXFILE * BSIZE < 2 ^ 32) as Hmax by done.
  enough (fwp s0 [] (readi kend patience bcache ip D_local off w) f' (λ r held' _, held' = [] ∧ r = (w, take (Z.to_nat w) l)))
    as (? & ? & f'' & E' & -> & ->) by (by exists w, f', f'').
  eapply readi_spec; [done|done|by apply Wd| |lia|lia|lia|].
  { unfold write_room, space in *. simpl in *. lia. }
  cbv zeta. rewrite decide_False by lia. replace (Z.min w (isize x' - off)) with w by lia.
  intros f'' _ _. split; [done|]. f_equal. apply (slice_patched V x); [lia|lia|lia|done].
Qed.

Lemma writei_readi_witness : ∃ w f' f'', writei KERNBASE 0 ex_bcache 0 (S_user 0) 0 3 (st ex_ukst [] ex_file) = Ok w (st ex_ukst [] f') ∧
  readi KERNBASE 0 ex_bcache 0 D_local 0 w (st ex_ukst [] f') = Ok (w, take (Z.to_nat w) [7; 8; 9]) (st ex_ukst [] f'').
Proof.
  apply (writei_readi ex_ukst 1 ex_user_proc ex_sleeplocks KERNBASE 0 ex_bcache 2 ex_file ex_mapped [] 0 ex_inode 0 (S_user 0) (ex_bytes 3)
    ex_ufs_env ex_ufopen ex_dense (ex_user_bytes 3)); [simpl; lia|vm_compute; discriminate|exact ex_room].
Defined.

Lemma chunk_blocks off n : 0 ≤ off → n ≤ write_max → blocks_end off n - off / BSIZE ≤ 4.
Proof.
  intros Hoff Hn. unfold blocks_end. change write_max with 3072 in Hn. pose proof (Z.div_mod off BSIZE ltac:(done)). pose proof (Z.mod_pos_bound off BSIZE ltac:(done)).
  assert ((off + n + BSIZE - 1) / BSIZE < off / BSIZE + 5); [|lia]. apply Z.div_lt_upper_bound; unfold BSIZE in *; lia.
Qed.

(** C28 Bounds: on a disk whose free map is one block, a write of the size to
    which filewrite limits each transaction, from user memory that is mapped (as
    filewrite calls it) or from a kernel buffer, adds at most MAXOPBLOCKS blocks
    to the log, which is what begin_op has reserved. *)
Theorem chunk_fits_reservation {S} `{HasFs S} (s0 : S) me mep sleeplocks kend patience bcache start f V bs ip x off src l :
  fs_env s0 me mep sleeplocks bcache → fopen mep bcache start f V bs ip x → source_has kend s0 mep src l →
  let n := Z.of_nat (length l) in 0 ≤ off ≤ isize x → off + n ≤ MAXFILE * BSIZE → n ≤ write_max → 0 ≤ sbsize (sb f) ≤ BPB →
  lh_n (log f) + MAXOPBLOCKS ≤ LOGBLOCKS →
  ∃ w f', writei kend patience bcache ip src off n (st s0 [] f) = Ok w (st s0 [] f') ∧
    lh_n (log f') ≤ lh_n (log f) + MAXOPBLOCKS.
Proof.
  intros Henv Ho Hsrc n Hoff Hend Hn Hsb Hres. pose proof (chunk_blocks off n (proj1 Hoff) Hn) as Hch.
  pose proof (t_log _ _ _ _ _ _ _ (op_tx _ _ _ _ _ _ _ _ Ho)) as Hlog.
  assert (nmap (sb f) ≤ 1) as Hnm by (pose proof (nmap_bound (sb f) (proj1 Hsb)); unfold BPB, BSIZE in *; lia).
  destruct (writei_wrote s0 me mep sleeplocks kend patience bcache start f V bs ip x off src l) as (w & ? & f' & E & -> & V' & bs' & x' & W); [done..| |].
  { unfold write_room, space. fold n. rewrite (lg_n _ _ _ Hlog) in Hres. unfold LOGBLOCKS, MAXOPBLOCKS in *. simpl in *. lia. }
  exists w, f'. split; [done|]. pose proof (t_log _ _ _ _ _ _ _ (op_tx _ _ _ _ _ _ _ _ (wf_open _ _ _ _ _ _ _ _ _ _ _ _ _ _ _ W))) as Hlog'.
  rewrite (lg_n _ _ _ Hlog'), (lg_n _ _ _ Hlog). pose proof (wf_log _ _ _ _ _ _ _ _ _ _ _ _ _ _ _ W) as Hl. fold n in Hl. unfold MAXOPBLOCKS. lia.
Qed.

Lemma chunk_fits_reservation_witness : ∃ w f', writei KERNBASE 0 ex_bcache 0 (S_user 0) 0 3072 (st ex_ukst [] ex_file) = Ok w (st ex_ukst [] f') ∧
  lh_n (log f') ≤ 10.
Proof.
  apply (chunk_fits_reservation ex_ukst 1 ex_user_proc ex_sleeplocks KERNBASE 0 ex_bcache 2 ex_file ex_mapped [] 0 ex_inode 0 (S_user 0) (ex_bytes 3072)
    ex_ufs_env ex_ufopen (ex_user_bytes 3072)); [simpl; lia|vm_compute; discriminate|vm_compute; discriminate|vm_compute; split; discriminate|vm_compute; discriminate].
Defined.
