(* ===== verification/FsInode.v ===== *)
(** * Storing and loading inodes (iupdate and ilock of kernel/fs.c) *)

From S2P Require Import Prelude Params CString Spinlock ProcDefs WaitQueue Sched Memory FsDefs Seq Sleeplock Bio BioInv BioSpec Log Fs LogCrash LogSpec AddressSpace FsExample LogTheorems FsTx FsAlloc FsFile FsBmap FsRw FsWrite.

(** ** struct dinode *)

Definition is_i16 (v : Z) : Prop := - 2 ^ 15 ≤ v < 2 ^ 15.
Definition is_u32 (v : Z) : Prop := 0 ≤ v < 2 ^ 32.

(** The fields hold values of their C types. *)
Record dinode_ok (x : inode) : Prop := mkDinodeOk {
  dk_type : is_i16 (itype x);
  dk_major : is_i16 (imajor x);
  dk_minor : is_i16 (iminor x);
  dk_nlink : is_i16 (inlink x);
  dk_size : is_u32 (isize x);
  dk_len : length (addrs x) = Z.to_nat (NDIRECT + 1);
  dk_addrs : Forall is_u32 (addrs x);
}.

Lemma i16_mod v : is_i16 v → i16 (v mod 2 ^ 16) = v.
Proof.
  unfold is_i16, i16. intros Hv. rewrite Zplus_mod_idemp_l. rewrite Z.mod_small by lia. lia.
Qed.

Lemma get16_put16 o v d : 0 ≤ o → o + 2 ≤ Z.of_nat (length d) → is_i16 v → i16 (get16 o (put16 o v d)) = v.
Proof. intros Ho Hl Hv. unfold get16, put16. rewrite get_put_le by lia. change (256 ^ Z.of_nat 2) with (2 ^ 16). by apply i16_mod. Qed.
Lemma get32_put32 o v d : 0 ≤ o → o + 4 ≤ Z.of_nat (length d) → is_u32 v → get32 o (put32 o v d) = v.
Proof. intros Ho Hl Hv. unfold get32, put32. rewrite get_put_le by lia. change (256 ^ Z.of_nat 4) with (2 ^ 32). by apply Z.mod_small. Qed.

Lemma get_put_addrs n q l : ∀ o k d, 0 ≤ o → 0 ≤ k → 0 ≤ q → (q + Z.of_nat n ≤ o + 12 + 4 * k ∨ o + 12 + 4 * (k + Z.of_nat (length l)) ≤ q) →
  get_le n q (put_addrs o k l d) = get_le n q d.
Proof.
  induction l as [|a l IH]; intros o k d Ho Hk Hq Hd; simpl in *; [done|]. rewrite IH by lia. unfold put32. apply get_put_le_ne; lia.
Qed.

Lemma di_addr_put l : ∀ o k d i a, 0 ≤ o → 0 ≤ k → o + 12 + 4 * (k + Z.of_nat (length l)) ≤ Z.of_nat (length d) → Forall is_u32 l →
  l !! i = Some a → di_addr o (k + Z.of_nat i) (put_addrs o k l d) = a.
Proof.
  induction l as [|b l IH]; intros o k d i a Ho Hk Hlen Hl Hi; [done|]. apply list.Forall_cons in Hl as [Hb Hl]. simpl in *.
  destruct i as [|i]; simplify_eq/=.
  - rewrite Z.add_0_r. unfold di_addr, get32. rewrite get_put_addrs by lia. apply get32_put32; [lia|lia|done].
  - replace (k + Z.of_nat (Datatypes.S i)) with (k + 1 + Z.of_nat i) by lia. apply IH; [done|lia| |done|done].
    unfold put32. rewrite length_put_le. lia.
Qed.

Lemma di_addrs_put o l d : 0 ≤ o → o + 64 ≤ Z.of_nat (length d) → length l = Z.to_nat (NDIRECT + 1) → Forall is_u32 l →
  di_addrs o (put_addrs o 0 l d) = l.
Proof.
  intros Ho Hlen Hl Hu. unfold di_addrs. apply list_eq. intros i. change (map ?f ?l) with (f <$> l). rewrite list_lookup_fmap.
  destruct (l !! i) as [a|] eqn:E.
  - pose proof E as Hi%lookup_lt_Some. rewrite lookup_seq_lt by lia. simpl. f_equal.
    apply (di_addr_put l o 0); try done. rewrite Hl. unfold NDIRECT. lia.
  - apply lookup_ge_None in E. rewrite lookup_seq_ge by lia. done.
Qed.

(** The loads of ilock undo the stores of iupdate. *)
Lemma dinode_roundtrip o x d : 0 ≤ o → o + 64 ≤ Z.of_nat (length d) → dinode_ok x → let d' := put_dinode o x d in
  di_type o d' = itype x ∧ di_major o d' = imajor x ∧ di_minor o d' = iminor x ∧ di_nlink o d' = inlink x ∧
  di_size o d' = isize x ∧ di_addrs o d' = addrs x.
Proof.
  intros Ho Hlen [] d'. assert (Z.of_nat (length (addrs x)) = 13) as Hla by (rewrite dk_len0; done).
  unfold di_type, di_major, di_minor, di_nlink, di_size, d', put_dinode.
  split_and!; [unfold get16|unfold get16|unfold get16|unfold get16|unfold get32|]; rewrite ?get_put_addrs by lia.
  6: apply di_addrs_put; [done|unfold put16, put32; rewrite !length_put_le; done|done|done].
  5: fold (get32 (o + 8)); apply get32_put32; [lia|unfold put16; rewrite !length_put_le; lia|done].
  all: unfold put32, put16; repeat rewrite get_put_le_ne by lia.
  all: apply get16_put16; [lia|rewrite ?length_put_le; lia|done].
Qed.

(** ** ilock *)

Lemma tx_set_slock mep bcache start a v f V bs X : (∀ i, a ≠ b_lock bcache i) → tx mep bcache start f V bs X →
  tx mep bcache start (set_slocks (<[a := v]> (slocks f)) f) V bs X.
Proof.
  intros Ha [[Hl Hb] Hlog Ho]. split; [|exact Hlog|exact Ho]. split; [exact Hl|]. destruct Hb. split; try done.
  intros i x Hx. destruct (be_lock i x Hx) as (n & p & E & Hp). exists n, p. split; [|done]. simpl.
  by rewrite lookup_insert_ne.
Qed.

(** The inode that ilock reads from block contents [d]. *)
Definition load_dinode (o : Z) (d : list Z) (x : inode) : inode :=
  set_ivalid 1 (set_addrs (di_addrs o d) (set_isize (di_size o d) (set_inlink (di_nlink o d)
    (set_iminor (di_minor o d) (set_imajor (di_major o d) (set_itype (di_type o d) x)))))).

Section Ilock.
Context {S : Type} `{HasFs S}.
Variables (s0 : S) (me : nat) (mep : proc) (sleeplocks : list Z) (patience : nat) (bcache itable start : Z).
Hypothesis Henv : fs_env s0 me mep sleeplocks bcache.
Notation tx := (tx mep bcache start).
Notation istep := (istep bcache).

(** The lock of slot [ip]: free, and not one of the buffers'. *)
Record ilock_free (f : fsst) (ip : nat) : Prop := mkIlockFree {
  il_known : i_lock itable ip ∈ sleeplocks;
  il_apart : ∀ i, i_lock itable ip ≠ b_lock bcache i;
  il_free : ∃ n p, slocks f !! i_lock itable ip = Some (mkSlock 0 n p);
}.

Lemma ilock_load_spec f V bs ip x (Q : unit → list lockid → fsst → Prop) :
  let ib := IBLOCK (inum x) (sb f) in let y := load_dinode (doff (inum x)) (V ib) x in
  tx f V bs [] → inodes f !! ip = Some x → ilock_free f ip → 1 ≤ iref x → ivalid x = 0 → idev x = 1 → itype y ≠ 0 → space 1 bs [] →
  (∀ f', tx f' V bs [] → inodes f' = <[ip := y]> (inodes f) → sb f' = sb f →
     (∃ n, slocks f' !! i_lock itable ip = Some (mkSlock 1 n (pid mep))) → Q tt [] f') →
  fwp s0 [] (ilock patience bcache itable (Some ip)) f Q.
Proof.
  intros ib y Ht Hip [Hk Hap (n & p & Hfr)] Hr Hv Hd Hty Hsp HQ. cbn [ilock]. pose proof Henv as [Hbase Hlocks].
  apply fwp_bind. eapply fwp_inode_at; [done|]. rewrite decide_False by lia.
  apply fwp_bind. eapply (fwp_acquiresleep _ _ _ _ _ Hbase); [done|set_solver|done|].
  set (f1 := set_slocks _ f). assert (tx f1 V bs []) as Ht1 by by apply tx_set_slock.
  apply fwp_bind. eapply fwp_inode_at; [exact Hip|]. rewrite Hv, decide_True by done. apply fwp_bind.
  unfold get_sb. apply fwp_bind, fwp_get, fwp_ret. rewrite Hd. change (sb f1) with (sb f). fold ib.
  apply fwp_bind. eapply tx_bread; [done|done|set_solver|right; by apply (space_room 1)|]. intros i f2 Ht2 Hs2 Hi2 Hcl2.
  assert (inodes f2 = inodes f) as Ei by apply Hs2.
  eapply tx_buf; [done|done|]. intros b Hb _. rewrite Hb. cbv zeta.
  apply fwp_bind. eapply fwp_mod_inode; [by rewrite Ei|]. rewrite Ei.
  apply fwp_bind. eapply (tx_brelse _ _ _ _ _ _ Henv _ _ _ [] []); [by apply tx_set_inodes|exact Hi2|exact Hcl2|]. intros f3 Ht3 Hs3.
  pose proof (ts_inodes _ _ _ _ Hs3) as Ei3. simpl in Ei3.
  assert (ip < length (inodes f))%nat as Hlt by by eapply lookup_lt_Some.
  apply fwp_bind. eapply fwp_mod_inode; [rewrite Ei3; by apply list_lookup_insert_eq|].
  apply fwp_bind. eapply fwp_inode_at; [simpl; rewrite Ei3; apply list_lookup_insert_eq; by rewrite length_insert|].
  rewrite decide_False by exact Hty. apply fwp_ret. apply HQ.
  - by apply tx_set_inodes.
  - simpl. by rewrite Ei3, list_insert_insert_eq.
  - simpl. rewrite (ts_sb _ _ _ _ Hs3). simpl. by rewrite (ts_sb _ _ _ _ Hs2).
  - exists n. simpl. rewrite (ts_slocks _ _ _ _ Hs3) by done. simpl. rewrite (ts_slocks _ _ _ _ Hs2) by done. apply lookup_insert_eq.
Qed.
End Ilock.

(** Round trip: an inode stored by [iupdate] is the inode [ilock] loads into
    any slot of the table recycled for its number: type, device numbers, link
    count, size and block addresses, with the slot locked and valid. *)
Theorem iupdate_ilock {S} `{HasFs S} (s0 : S) me mep sleeplocks patience bcache itable start f V bs ip x jp y :
  fs_env s0 me mep sleeplocks bcache → fopen mep bcache start f V bs ip x → dinode_ok x → itype x ≠ 0 → space 2 bs [] →
  (jp < length (inodes f))%nat → ilock_free sleeplocks bcache itable f jp →
  inum y = inum x → idev y = 1 → 1 ≤ iref y → ivalid y = 0 →
  ∃ f' f'', iupdate patience bcache ip (st s0 [] f) = Ok tt (st s0 [] f') ∧
    ilock patience bcache itable (Some jp) (st s0 [] (set_inodes (<[jp := y]> (inodes f')) f')) = Ok tt (st s0 [] f'') ∧
    inodes f'' !! jp = Some (mkInode 1 (inum x) (iref y) 1 (itype x) (imajor x) (iminor x) (inlink x) (isize x) (addrs x)) ∧
    ∃ n, slocks f'' !! i_lock itable jp = Some (mkSlock 1 n (pid mep)).
Proof.
  intros Henv Ho Hdk Hty Hsp Hjp [Hk Hap Hfr] En Ed Hr Hv. set (ib := IBLOCK (inum x) (sb f)).
  enough (fwp s0 [] (iupdate patience bcache ip) f (λ _ h f', h = [] ∧ tx mep bcache start f' (img1 ib (put_dinode (doff (inum x)) x (V ib)) V) (log_add ib bs) [] ∧ tstep bcache [] f f'))
    as ([] & ? & f' & E & -> & Ht' & Hs').
  2:{ eapply iupdate_spec; [done|done|unfold space in *; lia|]. cbv zeta. intros f' [Ht' _ _ _] Hs' _. done. }
  set (g := set_inodes (<[jp := y]> (inodes f')) f'). exists f'.
  enough (fwp s0 [] (ilock patience bcache itable (Some jp)) g (λ _ h f'', h = [] ∧
    inodes f'' !! jp = Some (mkInode 1 (inum x) (iref y) 1 (itype x) (imajor x) (iminor x) (inlink x) (isize x) (addrs x)) ∧
    ∃ n, slocks f'' !! i_lock itable jp = Some (mkSlock 1 n (pid mep)))) as ([] & ? & f'' & E' & -> & Hx & Hl) by by exists f''.
  assert (0 ≤ doff (inum x) ∧ doff (inum x) + 64 ≤ BSIZE) as [Hd0 Hd1].
  { unfold doff. change IPB with 16. pose proof (Z.mod_pos_bound (inum x) 16). unfold BSIZE. lia. }
  destruct (dinode_roundtrip (doff (inum x)) x (V ib)) as (R1 & R2 & R3 & R4 & R5 & R6); [done| |done|].
  { rewrite (fo_len _ _ _ (op_fs _ _ _ _ _ _ _ _ Ho)). unfold BSIZE in *. lia. }
  eapply (ilock_load_spec _ _ _ _ _ _ _ _ Henv g _ _ jp y); [by apply tx_set_inodes| | |done|done|done| | |].
  - apply list_lookup_insert_eq. by rewrite (ts_inodes _ _ _ _ Hs').
  - split; [done|done|]. simpl. by rewrite (ts_slocks _ _ _ _ Hs').
  - simpl. rewrite (ts_sb _ _ _ _ Hs'), En. fold ib. rewrite img1_same. simpl. by rewrite R1.
  - pose proof (space_add 2 ib bs [] Hsp). done.
  - simpl. rewrite (ts_sb _ _ _ _ Hs'), En. fold ib. rewrite img1_same. intros f'' _ Ei _ Hl. split; [done|]. split; [|done].
    rewrite Ei. rewrite list_lookup_insert_eq by (rewrite length_insert, (ts_inodes _ _ _ _ Hs'); done). unfold load_dinode.
    rewrite R1, R2, R3, R4, R5, R6. destruct y; simpl in *. by subst.
Qed.

Lemma ex_ilock_free ip : (ip < 50)%nat → ilock_free ex_sleeplocks ex_bcache ex_itable ex_file ip.
Proof.
  intros Hip. assert (i_lock ex_itable ip ∈ ex_sleeplocks) as Hin.
  { apply elem_of_app. right. apply list_elem_of_fmap. exists ip. split; [reflexivity|]. apply elem_of_seq. lia. }
  split; [done| |].
  - intros i. unfold i_lock, b_lock, ex_itable, ex_bcache. lia.
  - exists "sleep lock", 0. by apply (ex_fs_slock ex_mapped).
Qed.

Lemma ex_dinode_ok : dinode_ok ex_inode.
Proof.
  split; simpl; try (unfold is_i16, is_u32, T_FILE; lia); [done|]. apply (Forall_replicate is_u32 13%nat 0). unfold is_u32. lia.
Qed.

Lemma iupdate_ilock_witness : ∃ f' f'', iupdate 0 ex_bcache 0 (st ex_kst [] ex_file) = Ok tt (st ex_kst [] f') ∧
  ilock 0 ex_bcache ex_itable (Some 1%nat) (st ex_kst [] (set_inodes (<[1%nat := mkInode 1 5 1 0 0 0 0 0 0 []]> (inodes f')) f')) = Ok tt (st ex_kst [] f'') ∧
  inodes f'' !! 1%nat = Some ex_inode.
Proof.
  destruct (iupdate_ilock ex_kst 1 ex_vm_proc ex_sleeplocks 0 ex_bcache ex_itable 2 ex_file ex_mapped [] 0 ex_inode 1 (mkInode 1 5 1 0 0 0 0 0 0 [])
    ex_fs_env ex_fopen ex_dinode_ok) as (f' & f'' & E1 & E2 & E3 & _).
  - discriminate.
  - vm_compute. discriminate.
  - simpl. lia.
  - apply ex_ilock_free. lia.
  - reflexivity.
  - reflexivity.
  - discriminate.
  - reflexivity.
  - exists f', f''. split; [exact E1|]. split; [exact E2|exact E3].
Defined.
