(* ===== verification/FsIget.v ===== *)
(** * The table of in-memory inodes (iget, idup and iput of kernel/fs.c) *)

From S2P Require Import Prelude Params CString Spinlock ProcDefs WaitQueue Sched Memory FsDefs Seq Sleeplock Bio BioInv BioSpec Log Fs LogCrash LogSpec AddressSpace FsExample LogTheorems FsTx FsAlloc FsFile FsBmap FsRw FsWrite.

(** Slot [x] holds inode [num] of device [dev]. *)
Definition names (dev num : Z) (x : inode) : Prop := 0 < iref x ∧ idev x = dev ∧ inum x = num.
#[global] Instance names_dec dev num x : Decision (names dev num x).
Proof. unfold names. apply _. Defined.

Definition recycle (dev num : Z) (x : inode) : inode := set_ivalid 0 (set_iref 1 (set_inum num (set_idev dev x))).

(** What iget does to the table: another reference to the slot that holds the
    inode, or the first free slot taken for it. *)
Inductive iget_rel (dev num : Z) (t : list inode) (i : nat) : list inode → Prop :=
| iget_hit x : t !! i = Some x → names dev num x → (∀ j y, (j < i)%nat → t !! j = Some y → ¬ names dev num y) →
    iget_rel dev num t i (<[i := set_iref (i32 (iref x + 1)) x]> t)
| iget_miss x : t !! i = Some x → iref x = 0 → Forall (λ y, ¬ names dev num y) t → (∀ j y, (j < i)%nat → t !! j = Some y → iref y ≠ 0) →
    iget_rel dev num t i (<[i := recycle dev num x]> t).

(** The invariant of the table: no negative counts, one slot per inode. *)
Record itable_ok (t : list inode) : Prop := mkItableOk {
  it_len : length t = Z.to_nat NINODE;
  it_ref : ∀ i x, t !! i = Some x → 0 ≤ iref x < 2 ^ 31 - 1;
  it_uniq : ∀ i j x y, t !! i = Some x → t !! j = Some y → 0 < iref x → 0 < iref y → idev x = idev y → inum x = inum y → i = j;
}.

Section Iget.
Context {S : Type} `{HasFs S}.
Variables (s0 : S) (me : nat) (mep : proc) (sleeplocks : list Z).
Hypothesis Hbase : seq_base s0 me mep sleeplocks.

(** The scan: [e] is the first free slot below [i]. *)
Lemma iget_scan_spec held dev num n : ∀ i e f (Q : nat + option nat → list lockid → fsst → Prop),
  length (inodes f) = (i + n)%nat →
  (∀ j y, (j < i)%nat → inodes f !! j = Some y → ¬ names dev num y) →
  match e with
  | Some k => (k < i)%nat ∧ (∃ x, inodes f !! k = Some x ∧ iref x = 0) ∧ ∀ j y, (j < k)%nat → inodes f !! j = Some y → iref y ≠ 0
  | None => ∀ j y, (j < i)%nat → inodes f !! j = Some y → iref y ≠ 0
  end →
  (∀ k x, inodes f !! k = Some x → names dev num x → (∀ j y, (j < k)%nat → inodes f !! j = Some y → ¬ names dev num y) → Q (inl k) held f) →
  (∀ e', Forall (λ y, ¬ names dev num y) (inodes f) →
     match e' with
     | Some k => (∃ x, inodes f !! k = Some x ∧ iref x = 0) ∧ ∀ j y, (j < k)%nat → inodes f !! j = Some y → iref y ≠ 0
     | None => Forall (λ y, iref y ≠ 0) (inodes f)
     end → Q (inr e') held f) →
  fwp s0 held (iget_scan n i dev num e) f Q.
Proof.
  induction n as [|n IH]; intros i e f Q Hlen Hno He Hhit Hmiss; cbn [iget_scan].
  - rewrite Nat.add_0_r in Hlen. apply fwp_ret. apply Hmiss.
    + apply Forall_lookup_2. intros j y Hy. apply (Hno j y); [apply lookup_lt_Some in Hy; lia|done].
    + destruct e as [k|]; [naive_solver|]. apply Forall_lookup_2. intros j y Hy. apply (He j y); [apply lookup_lt_Some in Hy; lia|done].
  - destruct (lookup_lt_is_Some_2 (inodes f) i) as [x Hx]; [lia|].
    apply fwp_bind. eapply fwp_inode_at; [done|]. fold (names dev num x). case_decide as Hn; [by apply fwp_ret, (Hhit i x)|].
    apply IH; [lia| | |done|done].
    + intros j y Hj Hy. destruct (decide (j = i)) as [->|]; [by simplify_eq|apply (Hno j y); [lia|done]].
    + destruct e as [k|]; [rewrite decide_False by naive_solver; naive_solver lia|].
      destruct (decide (iref x = 0)) as [Hz|Hz].
      * rewrite decide_True by done. split_and!; [lia|eauto|done].
      * rewrite decide_False by tauto. intros j y Hj Hy. destruct (decide (j = i)) as [->|]; [by simplify_eq|apply (He j y); [lia|done]].
Qed.

Lemma iget_spec dev num f (Q : nat → list lockid → fsst → Prop) :
  length (inodes f) = Z.to_nat NINODE → (∃ i x, inodes f !! i = Some x ∧ (names dev num x ∨ iref x = 0)) →
  (∀ i t, iget_rel dev num (inodes f) i t → Q i [] (set_inodes t f)) →
  fwp s0 [] (iget dev num) f Q.
Proof.
  intros Hlen Hex HQ. unfold iget. apply fwp_bind, (fwp_acquire _ _ _ _ Hbase); [apply fs_lock_itable|set_solver|]. apply fwp_bind.
  apply iget_scan_spec; [done|intros; lia|intros; lia| |].
  - intros i x Hx Hn Hfirst. apply fwp_bind. eapply fwp_mod_inode; [done|].
    apply fwp_bind, (fwp_release _ _ _ _ Hbase); [apply fs_lock_itable|set_solver|]. apply fwp_ret. apply HQ. by constructor.
  - intros [i|] Hno He.
    + destruct He as [(x & Hx & Hz) Hfirst]. assert (i < length (inodes f))%nat as Hi by by eapply lookup_lt_Some.
      apply fwp_bind. eapply fwp_mod_inode; [done|]. simpl.
      apply fwp_bind. eapply fwp_mod_inode; [by apply list_lookup_insert_eq|]. simpl. rewrite list_insert_insert_eq.
      apply fwp_bind. eapply fwp_mod_inode; [by apply list_lookup_insert_eq|]. simpl. rewrite list_insert_insert_eq.
      apply fwp_bind. eapply fwp_mod_inode; [by apply list_lookup_insert_eq|]. simpl. rewrite list_insert_insert_eq.
      apply fwp_bind, (fwp_release _ _ _ _ Hbase); [apply fs_lock_itable|set_solver|]. apply fwp_ret. apply HQ. by constructor.
    + exfalso. destruct Hex as (i & x & Hx & [Hn|Hz]).
      * by apply (Forall_lookup_1 _ _ _ _ Hno Hx).
      * by apply (Forall_lookup_1 _ _ _ _ He Hx).
Qed.

(** Dropping a reference that is not the last to an unlinked file. *)
Lemma iput_drop patience bcache itable ip x f (Q : unit → list lockid → fsst → Prop) :
  inodes f !! ip = Some x → ¬ (iref x = 1 ∧ ivalid x ≠ 0 ∧ inlink x = 0) →
  Q tt [] (set_inodes (<[ip := set_iref (i32 (iref x - 1)) x]> (inodes f)) f) →
  fwp s0 [] (iput patience bcache itable ip) f Q.
Proof.
  intros Hx Hn HQ. unfold iput. apply fwp_bind, (fwp_acquire _ _ _ _ Hbase); [apply fs_lock_itable|set_solver|].
  apply fwp_bind. eapply fwp_inode_at; [done|]. rewrite decide_False by done. apply fwp_bind, fwp_ret.
  apply fwp_bind. eapply fwp_mod_inode; [done|]. apply (fwp_release _ _ _ _ Hbase); [apply fs_lock_itable|set_solver|done].
Qed.
End Iget.

(** ** The invariant *)

Lemma iget_ok dev num t i t' : itable_ok t → iget_rel dev num t i t' → (∀ x, t !! i = Some x → iref x + 1 < 2 ^ 31 - 1) → itable_ok t'.
Proof.
  intros [Hl Hr Hu] Hrel Hmax. destruct Hrel as [x Hx (Hp & Hd & Hn) _|x Hx Hz Hno _].
  - assert (i32 (iref x + 1) = iref x + 1) as Ei by (apply i32_small; specialize (Hr i x Hx); lia). split.
    + by rewrite length_insert.
    + intros j y [(-> & <- & _)|[_ Hy]]%list_lookup_insert_Some; simpl; [rewrite Ei; specialize (Hmax x Hx); lia|by eapply Hr].
    + intros j k y z [(-> & <- & _)|[? Hy]]%list_lookup_insert_Some [(-> & <- & _)|[? Hz]]%list_lookup_insert_Some; simpl; intros; try done;
        by eapply Hu.
  - split.
    + by rewrite length_insert.
    + intros j y [(-> & <- & _)|[_ Hy]]%list_lookup_insert_Some; simpl; [lia|by eapply Hr].
    + assert (∀ j y, t !! j = Some y → 0 < iref y → idev y = dev → inum y = num → False) as Hnn.
      { intros j y Hy Hp Hd Hn. by apply (Forall_lookup_1 _ _ _ _ Hno Hy). }
      intros j k y z [(-> & <- & _)|[? Hy]]%list_lookup_insert_Some [(-> & <- & _)|[? Hz']]%list_lookup_insert_Some; simpl; intros; try done;
        [exfalso; by eapply Hnn|exfalso; by eapply Hnn|by eapply Hu].
Qed.

(** [h] lists the inode pointers in use in the kernel, with repetitions: the
    count of a slot is the number of pointers to it. *)
Definition refs (i : nat) (h : list nat) : Z := Z.of_nat (length (filter (λ j, j = i) h)).
Definition counted (t : list inode) (h : list nat) : Prop := ∀ i x, t !! i = Some x → iref x = refs i h.

Lemma refs_cons i j h : refs i (j :: h) = refs i h + (if decide (i = j) then 1 else 0).
Proof. unfold refs. rewrite filter_cons. repeat case_decide; subst; try done; simpl; lia. Qed.
Lemma refs_pos i h : i ∈ h → 0 < refs i h.
Proof.
  induction h as [|j h IH]; [by intros ?%elem_of_nil|]. rewrite refs_cons. intros [->|Hi]%elem_of_cons.
  - rewrite decide_True by done. unfold refs. lia.
  - specialize (IH Hi). case_decide; lia.
Qed.
Lemma refs_le i h : 0 ≤ refs i h ≤ Z.of_nat (length h).
Proof. unfold refs. pose proof (length_filter (λ j, j = i) h). lia. Qed.

(** What a slot in use keeps when references to it come and go. *)
Definition same_inode (x y : inode) : Prop := y = set_iref (iref y) x.

Lemma counted_ok t h : length t = Z.to_nat NINODE → counted t h → Z.of_nat (length h) < 2 ^ 31 - 1 → ∀ i x, t !! i = Some x → 0 ≤ iref x < 2 ^ 31 - 1.
Proof. intros _ Hc Hh i x Hx. rewrite (Hc i x Hx). pose proof (refs_le i h). lia. Qed.

Lemma iget_counted dev num t i t' h : Z.of_nat (length h) < 2 ^ 31 - 2 → counted t h → iget_rel dev num t i t' →
  counted t' (i :: h) ∧ (∃ y, t' !! i = Some y ∧ names dev num y) ∧
  (∀ j x, j ∈ h → t !! j = Some x → ∃ y, t' !! j = Some y ∧ same_inode x y).
Proof.
  intros Hh Hc Hrel. pose proof (refs_le i h) as Hle.
  destruct Hrel as [x Hx (Hp & Hd & Hn) _|x Hx Hz Hno _]; pose proof (lookup_lt_Some _ _ _ Hx) as Hi.
  - assert (i32 (iref x + 1) = iref x + 1) as Ei by (apply i32_small; rewrite (Hc i x Hx); lia). split_and!.
    + intros j y [(-> & <- & _)|[Hne Hy]]%list_lookup_insert_Some; rewrite refs_cons.
      * rewrite decide_True by done. simpl. rewrite Ei, (Hc j x Hx). done.
      * rewrite decide_False, (Hc j y Hy) by done. lia.
    + eexists. split; [by apply list_lookup_insert_eq|]. split; simpl; [lia|done].
    + intros j y _ Hy. destruct (decide (j = i)) as [->|Hne].
      * simplify_eq. eexists. split; [by apply list_lookup_insert_eq|]. by destruct x.
      * exists y. rewrite list_lookup_insert_ne by done. split; [done|]. by destruct y.
  - split_and!.
    + intros j y [(-> & <- & _)|[Hne Hy]]%list_lookup_insert_Some; rewrite refs_cons.
      * rewrite decide_True by done. rewrite <- (Hc j x Hx), Hz. done.
      * rewrite decide_False, (Hc j y Hy) by done. lia.
    + eexists. split; [by apply list_lookup_insert_eq|]. split; simpl; [lia|done].
    + intros j y Hj Hy. destruct (decide (j = i)) as [->|Hne].
      * simplify_eq. pose proof (refs_pos i h Hj). rewrite <- (Hc i x Hx) in *. lia.
      * exists y. rewrite list_lookup_insert_ne by done. split; [done|]. by destruct y.
Qed.

(** C17 Invariant: the reference counts of the inode table are the numbers of
    pointers in use.  [iget] returns a slot that holds the inode asked for, the
    only one that does, and never recycles a slot to which a pointer is left:
    every slot in use keeps its inode.  [iput] of the pointer that [iget] has just
    returned gives back the counts there were; the branch of [iput] that
    truncates and frees the last reference to an unlinked file is not covered. *)
Theorem inode_refs {S} `{HasFs S} (s0 : S) me mep sleeplocks patience bcache itable f h dev num :
  seq_base s0 me mep sleeplocks → itable_ok (inodes f) → counted (inodes f) h → Z.of_nat (length h) < 2 ^ 31 - 2 →
  (∃ i x, inodes f !! i = Some x ∧ (names dev num x ∨ iref x = 0)) →
  ∃ i t x, iget dev num (st s0 [] f) = Ok i (st s0 [] (set_inodes t f)) ∧
    itable_ok t ∧ counted t (i :: h) ∧ t !! i = Some x ∧ names dev num x ∧
    (∀ j x, j ∈ h → inodes f !! j = Some x → ∃ y, t !! j = Some y ∧ same_inode x y) ∧
    (¬ (iref x = 1 ∧ ivalid x ≠ 0 ∧ inlink x = 0) →
     ∃ t', iput patience bcache itable i (st s0 [] (set_inodes t f)) = Ok tt (st s0 [] (set_inodes t' f)) ∧ itable_ok t' ∧ counted t' h).
Proof.
  intros Hbase Hok Hc Hh Hex.
  enough (fwp s0 [] (iget dev num) f (λ i held g, held = [] ∧ ∃ t, g = set_inodes t f ∧ iget_rel dev num (inodes f) i t)) as (i & ? & ? & E & -> & t & -> & Hrel).
  2:{ eapply iget_spec; [done|apply Hok|done|]. intros i t Hr. eauto. }
  destruct (iget_counted _ _ _ _ _ _ Hh Hc Hrel) as (Hc' & (x & Hx & Hn) & Hkeep).
  assert (itable_ok t) as Hok'.
  { eapply iget_ok; [done|done|]. intros y Hy. rewrite (Hc i y Hy). pose proof (refs_le i h). lia. }
  exists i, t, x. split_and!; try done. intros Hnl. pose proof (lookup_lt_Some _ _ _ Hx) as Hi.
  exists (<[i := set_iref (i32 (iref x - 1)) x]> t). pose proof (it_ref _ Hok' i x Hx).
  assert (i32 (iref x - 1) = iref x - 1) as Ei by (apply i32_small; destruct Hn; lia). split_and!.
  - enough (fwp s0 [] (iput patience bcache itable i) (set_inodes t f) (λ _ held g, held = [] ∧ g = set_inodes (<[i := set_iref (i32 (iref x - 1)) x]> t) f))
      as ([] & ? & ? & E' & -> & ->) by done.
    eapply iput_drop; [done|exact Hx|done|]. done.
  - destruct Hok' as [Hl Hr Hu]. split; [by rewrite length_insert| |].
    + intros j y [(-> & <- & _)|[_ Hy]]%list_lookup_insert_Some; simpl; [destruct Hn; lia|by eapply Hr].
    + intros j k y z [(-> & <- & _)|[? Hy]]%list_lookup_insert_Some [(-> & <- & _)|[? Hz]]%list_lookup_insert_Some; simpl; intros; try done;
        (eapply Hu; [done|done| | |done|done]; lia || apply Hn).
  - intros j y [(-> & <- & _)|[Hne Hy]]%list_lookup_insert_Some; simpl.
    + rewrite Ei, (Hc' j x Hx), refs_cons, decide_True by done. lia.
    + rewrite (Hc' j y Hy), refs_cons, decide_False by done. lia.
Qed.

Lemma ex_file_ok : itable_ok (inodes ex_file) ∧ counted (inodes ex_file) [0%nat].
Proof.
  assert (∀ i x, inodes ex_file !! i = Some x → (i = 0%nat ∧ x = ex_inode) ∨ (i ≠ 0%nat ∧ iref x = 0)) as Hx.
  { intros i x [(-> & <- & _)|[Hne Hx]]%list_lookup_insert_Some; [by left|right]. split; [done|]. by apply lookup_replicate_1 in Hx as [-> _]. }
  split; [split|].
  - reflexivity.
  - intros i x [[-> ->]|[_ ->]]%Hx; [simpl; lia|lia].
  - intros i j x y Hi Hj ? ? _ _. apply Hx in Hi as [[-> ->]|[? ?]]; apply Hx in Hj as [[-> ->]|[? ?]]; lia.
  - intros i x [[-> ->]|[Hi ->]]%Hx; [done|]. unfold refs. rewrite filter_cons, decide_False by done. done.
Qed.

Lemma inode_refs_witness : ∃ i t, iget 1 7 (st ex_kst [] ex_file) = Ok i (st ex_kst [] (set_inodes t ex_file)) ∧ counted t [i; 0%nat].
Proof.
  destruct (inode_refs ex_kst 1 ex_vm_proc ex_sleeplocks 0 ex_bcache ex_itable ex_file [0%nat] 1 7 ex_fs_base (proj1 ex_file_ok) (proj2 ex_file_ok))
    as (i & t & x & E & _ & Hc & _).
  - reflexivity.
  - exists 1%nat. eexists. split; [reflexivity|]. right. reflexivity.
  - exists i, t. split; [exact E|exact Hc].
Defined.
