(* ===== verification/FsDir.v ===== *)
(** * Directories (dirlookup and dirlink of kernel/fs.c)

    A directory is a finite map from names to inode numbers; the name of an
    entry is its bytes up to a NUL, at most DIRSIZ of them. *)

From S2P Require Import Prelude Params CString Spinlock ProcDefs WaitQueue Sched Memory FsDefs Seq Sleeplock Bio BioInv BioSpec Log Fs LogCrash LogSpec AddressSpace FsExample LogTheorems FsTx FsAlloc FsFile FsBmap FsRw FsWrite FsTheorems FsIget.

Fixpoint canon (n : nat) (p : list Z) : list Z :=
  match n, p with
  | Datatypes.S n, a :: p => if decide (a = 0) then [] else a :: canon n p
  | _, _ => []
  end.
Definition key (name : list Z) : list Z := canon (Z.to_nat DIRSIZ) name.

Lemma strncmp_canon n : ∀ p q, strncmp_list p q n = 0 ↔ canon n p = canon n q.
Proof.
  induction n as [|n IH]; intros p q; simpl; [done|]. destruct p as [|a p], q as [|b q]; simpl.
  - done.
  - repeat case_decide; (split; intros; simplify_eq; try done; lia || tauto).
  - repeat case_decide; (split; intros; simplify_eq; try done; lia || tauto).
  - destruct (decide (a ≠ 0 ∧ a = b)) as [[Ha ->]|Hd].
    + rewrite !decide_False by done. rewrite IH. split; [congruence|by intros [=]].
    + repeat case_decide; (split; intros; simplify_eq; try done; lia || tauto).
Qed.

Lemma canon_strncpy n : ∀ m p, (n ≤ m)%nat → canon n (take m (p ++ replicate m 0)) = canon n p.
Proof.
  induction n as [|n IH]; intros m p Hm; simpl; [done|]. destruct m as [|m]; [lia|]. destruct p as [|a p]; simpl; [done|].
  case_decide; [done|]. f_equal. rewrite <- (IH m p) by lia. f_equal. rewrite replicate_cons_app, app_assoc.
  rewrite take_app_le; [done|]. rewrite length_app, length_replicate. lia.
Qed.

Lemma key_strncpy name : key (strncpy_list name (Z.to_nat DIRSIZ)) = key name.
Proof. by apply canon_strncpy. Qed.

(** ** The entries *)

Definition nents (x : inode) : Z := isize x / dirent_size.
Definition dirent (V : Z → list Z) (x : inode) (i : Z) : list Z := slice V x (i * dirent_size) dirent_size.
Definition is_entry (V : Z → list Z) (x : inode) (k : list Z) (i : Z) : Prop :=
  de_inum (dirent V x i) ≠ 0 ∧ k = key (de_name (dirent V x i)).
#[global] Instance is_entry_dec V x k i : Decision (is_entry V x k i).
Proof. unfold is_entry. apply _. Defined.

(** The inode number the directory maps a name to. *)
Definition dir_find (V : Z → list Z) (x : inode) (k : list Z) : option Z :=
  (λ i, de_inum (dirent V x i.2)) <$> list_find (is_entry V x k) (seqZ 0 (nents x)).

Record dir_ok (V : Z → list Z) (x : inode) : Prop := mkDirOk {
  dr_dense : dense V x;
  dr_type : itype x = T_DIR;
  dr_whole : isize x = nents x * dirent_size;
}.

Lemma nents_pos V x : dir_ok V x → 0 ≤ nents x.
Proof. intros [[Hs _] _ Hw]. unfold dirent_size in *. lia. Qed.

Lemma nents_loop V x : dir_ok V x → (isize x + dirent_size - 1) / dirent_size = nents x.
Proof.
  intros [_ _ Hw]. rewrite Hw. unfold dirent_size. symmetry. apply (Z.div_unique _ _ _ 15); lia.
Qed.

Lemma dir_find_none V x k : dir_find V x k = None ↔ ∀ i, 0 ≤ i < nents x → ¬ is_entry V x k i.
Proof.
  unfold dir_find. rewrite fmap_None, list_find_None, list.Forall_forall. setoid_rewrite elem_of_seqZ. done.
Qed.

Lemma dir_find_first V x k i : 0 ≤ i < nents x → is_entry V x k i → (∀ j, 0 ≤ j < i → ¬ is_entry V x k j) →
  dir_find V x k = Some (de_inum (dirent V x i)).
Proof.
  intros Hi He Hf. unfold dir_find. rewrite (proj2 (list_find_Some _ _ (Z.to_nat i) i)); [done|]. split_and!; [|done|].
  - rewrite lookup_seqZ. lia.
  - intros j y Hy Hj. apply lookup_seqZ in Hy as [-> ?]. apply Hf. lia.
Qed.

Section Dir.
Context {S : Type} `{HasFs S}.
Variables (s0 : S) (me : nat) (mep : proc) (sleeplocks : list Z) (kend : Z) (patience : nat) (bcache itable start : Z).
Hypothesis Henv : fs_env s0 me mep sleeplocks bcache.
Notation fopen := (fopen mep bcache start).
Notation tstep := (tstep bcache).

(** The readi of the loops over a directory. *)
Lemma read_dirent f V bs dp x i (Q : Z * list Z → list lockid → fsst → Prop) : fopen f V bs dp x → dir_ok V x → space 1 bs [] → 0 ≤ i < nents x →
  (∀ f', fopen f' V bs dp x → tstep [] f f' → Q (dirent_size, dirent V x i) [] f') →
  fwp s0 [] (readi kend patience bcache dp D_local (i * dirent_size) dirent_size) f Q.
Proof.
  intros Ho Hdir Hsp Hi HQ. pose proof Hdir as [Hd _ Hw]. pose proof (de_size _ _ Hd) as Hsz. unfold dirent_size in *.
  assert (MAXFILE * BSIZE < 2 ^ 20) as Hmax by done.
  eapply readi_spec; [done|done|done|done|lia|lia|lia|]. cbv zeta. rewrite decide_False by lia.
  replace (Z.min 16 (isize x - i * 16)) with 16 by lia. done.
Qed.

Lemma dirlookup_spec f V bs dp x name (Q : option (nat * Z) → list lockid → fsst → Prop) :
  fopen f V bs dp x → dir_ok V x → space 1 bs [] → length (inodes f) = Z.to_nat NINODE → (∃ i y, inodes f !! i = Some y ∧ iref y = 0) →
  (∀ f', dir_find V x (key name) = None → fopen f' V bs dp x → tstep [] f f' → Q None [] f') →
  (∀ f' ip t i, 0 ≤ i < nents x → dir_find V x (key name) = Some (de_inum (dirent V x i)) → is_entry V x (key name) i →
     fopen f' V bs dp x → tstep [] f f' → iget_rel 1 (de_inum (dirent V x i)) (inodes f') ip t → Q (Some (ip, i * dirent_size)) [] (set_inodes t f')) →
  fwp s0 [] (dirlookup kend patience bcache dp name) f Q.
Proof.
  intros Ho Hdir Hsp Hlen Hex HQ0 HQ1. unfold dirlookup. pose proof (op_inode _ _ _ _ _ _ _ _ Ho) as Hx. pose proof (nents_pos _ _ Hdir).
  apply fwp_bind. eapply fwp_inode_at; [apply Ho|]. rewrite (io_dev _ _ _ Hx), decide_False by (rewrite (dr_type _ _ Hdir); intros Hne; by apply Hne).
  rewrite (nents_loop _ _ Hdir).
  apply (fwp_for_loop _ _ _ (λ k f', fopen f' V bs dp x ∧ tstep [] f f' ∧ ∀ j, 0 ≤ j < k → ¬ is_entry V x (key name) j)).
  - split_and!; [done|apply tstep_refl|intros; lia].
  - intros k f1 Hk (Ho1 & Hs1 & Hno). cbv zeta. apply fwp_bind. eapply read_dirent; [done|done|done|lia|]. intros f2 Ho2 Hs2.
    assert (tstep [] f f2) as Hs by tchain. simpl. case_decide as Hz.
    { apply fwp_ret. split_and!; try done. intros j Hj. destruct (decide (j = k)) as [->|]; [by intros [? _]|apply Hno; lia]. }
    case_decide as Hn.
    + apply strncmp_canon in Hn. apply fwp_bind. pose proof (ts_inodes _ _ _ _ Hs) as Ei.
      eapply (iget_spec _ _ _ _ (fe_base _ _ _ _ _ Henv)); [by rewrite Ei|rewrite Ei; naive_solver|]. intros ip t Hrel. apply fwp_ret.
      eapply HQ1; [|by apply dir_find_first; [lia|split|intros; apply Hno; lia]|by split|done|done|done]. lia.
    + apply fwp_ret. split_and!; try done. intros j Hj. destruct (decide (j = k)) as [->|]; [|apply Hno; lia].
      intros [_ E]. apply Hn. by apply strncmp_canon.
  - intros f' (Ho' & Hs' & Hno). apply HQ0; [|done|done]. apply dir_find_none. intros i Hi. apply Hno. lia.
Qed.

Lemma dirlink_slot_spec f V bs dp x (Q : Z → list lockid → fsst → Prop) :
  fopen f V bs dp x → dir_ok V x → space 1 bs [] →
  (∀ f' i, 0 ≤ i ≤ nents x → (i < nents x → de_inum (dirent V x i) = 0) → fopen f' V bs dp x → tstep [] f f' → Q (i * dirent_size) [] f') →
  fwp s0 [] (dirlink_slot kend patience bcache dp) f Q.
Proof.
  intros Ho Hdir Hsp HQ. unfold dirlink_slot. pose proof (nents_pos _ _ Hdir). apply fwp_bind. eapply fwp_inode_at; [apply Ho|].
  rewrite (nents_loop _ _ Hdir). apply fwp_bind.
  apply (fwp_for_loop _ _ _ (λ _ f', fopen f' V bs dp x ∧ tstep [] f f')).
  - split; [done|apply tstep_refl].
  - intros k f1 Hk (Ho1 & Hs1). cbv zeta. apply fwp_bind. eapply read_dirent; [done|done|done|lia|]. intros f2 Ho2 Hs2.
    assert (tstep [] f f2) as Hs by tchain. simpl. apply fwp_ret. case_decide; [|done].
    apply fwp_ret. simpl. by apply HQ; [lia|..].
  - intros f' (Ho' & Hs'). apply fwp_ret. simpl. rewrite Z.mul_comm. apply HQ; [lia|lia|done|done].
Qed.
End Dir.

(** ** Adding an entry *)

Lemma dir_find_at V x k v : dir_find V x k = Some v →
  ∃ i, 0 ≤ i < nents x ∧ is_entry V x k i ∧ (∀ j, 0 ≤ j < i → ¬ is_entry V x k j) ∧ v = de_inum (dirent V x i).
Proof.
  unfold dir_find. intros ([n i] & Hf & ->)%fmap_Some. apply list_find_Some in Hf as (Hi & He & Hfirst). apply lookup_seqZ in Hi as [-> Hn].
  exists (0 + Z.of_nat n). split_and!; [lia|lia|done| |done]. intros j Hj. apply (Hfirst (Z.to_nat j)); [|lia]. apply lookup_seqZ. lia.
Qed.

Section Insert.
Variables (V V' : Z → list Z) (x x' : inode) (i0 num : Z) (name de : list Z).
Hypothesis Hsize : nents x' = Z.max (nents x) (i0 + 1).
Hypothesis Hi0 : 0 ≤ i0 ≤ nents x.
Hypothesis Hfree : i0 < nents x → de_inum (dirent V x i0) = 0.
Hypothesis Hde : dirent V' x' i0 = de.
Hypothesis Hsame : ∀ i, 0 ≤ i < nents x → i ≠ i0 → dirent V' x' i = dirent V x i.
Hypothesis Hnum : de_inum de = num ∧ num ≠ 0.
Hypothesis Hname : key (de_name de) = key name.

Lemma entry_same k i : 0 ≤ i < nents x' → k ≠ key name → is_entry V' x' k i ↔ 0 ≤ i < nents x ∧ is_entry V x k i.
Proof.
  intros Hi Hk. unfold is_entry. destruct (decide (i = i0)) as [->|Hne].
  - rewrite Hde, Hname. split; [tauto|]. intros (Hlt & Hz & _). by rewrite Hfree in Hz by lia.
  - rewrite Hsame by lia. split; [|tauto]. intros ?. split; [lia|done].
Qed.

Lemma insert_find k : dir_find V x (key name) = None →
  dir_find V' x' k = if decide (k = key name) then Some num else dir_find V x k.
Proof.
  intros Hno. rewrite dir_find_none in Hno. case_decide as Hk.
  - subst k. destruct Hnum as [En Hnz]. rewrite (dir_find_first V' x' (key name) i0); [by rewrite Hde, En|lia|split; rewrite Hde; congruence|].
    intros j Hj. unfold is_entry. rewrite Hsame by lia. apply Hno. lia.
  - destruct (dir_find V x k) as [v|] eqn:E.
    + apply dir_find_at in E as (i & Hi & He & Hf & ->).
      assert (i ≠ i0) as Hne by (intros ->; destruct He as [Hz _]; apply Hz, Hfree; lia).
      rewrite <- (Hsame i Hi Hne). apply dir_find_first; [lia|apply entry_same; [lia|done|done]|].
      intros j Hj He'. apply entry_same in He' as [_ He']; [|lia|done]. by apply (Hf j).
    + rewrite dir_find_none in *. intros i Hi [Hlt He]%entry_same; [|done|done]. by apply (E i).
Qed.
End Insert.

Lemma dirent_patched V x V' x' i0 de w : 0 ≤ i0 → length de = Z.to_nat dirent_size → w = dirent_size →
  i0 * dirent_size + dirent_size ≤ MAXFILE * BSIZE → patched V x V' x' (i0 * dirent_size) de w →
  dirent V' x' i0 = de ∧ ∀ i, 0 ≤ i → (i + 1) * dirent_size ≤ MAXFILE * BSIZE → i ≠ i0 → dirent V' x' i = dirent V x i.
Proof.
  intros Hi Hl -> Hend Hp. unfold dirent_size in *. split.
  - unfold dirent, dirent_size. rewrite (slice_patched V x V' x' (i0 * 16) de 16); [|lia|lia|lia|done]. apply take_ge. lia.
  - intros i Hi' Hend' Hne. apply slice_ext. unfold dirent_size. intros o Ho. rewrite Hp by lia. by rewrite decide_False by lia.
Qed.

Lemma mk_dirent_fields num name : 0 < num < 2 ^ 16 → let de := mk_dirent (u16 num) (strncpy_list name (Z.to_nat DIRSIZ)) in
  length de = Z.to_nat dirent_size ∧ de_inum de = num ∧ key (de_name de) = key name.
Proof.
  intros Hn de. assert (u16 num = num) as Eu by (apply wrap_small; lia).
  assert (length (strncpy_list name (Z.to_nat DIRSIZ)) = Z.to_nat DIRSIZ) as Hl.
  { unfold strncpy_list. rewrite length_take, length_app, length_replicate. lia. }
  unfold de, mk_dirent. split_and!.
  - rewrite length_app, length_le_bytes, Hl. done.
  - unfold de_inum, get16, get_le. change (Z.to_nat 0) with 0%nat. rewrite drop_0. rewrite take_app_length' by (by rewrite length_le_bytes). rewrite le_val_bytes, Eu.
    change (256 ^ Z.of_nat 2) with (2 ^ 16). apply Z.mod_small. lia.
  - unfold de_name. rewrite drop_app_length' by (by rewrite length_le_bytes). rewrite take_ge by lia. apply key_strncpy.
Qed.

Lemma entry_blocks i : 0 ≤ i → blocks_end (i * dirent_size) dirent_size - i * dirent_size / BSIZE ≤ 1.
Proof.
  intros Hi. unfold blocks_end, dirent_size, BSIZE. pose proof (Z.div_mod (i * 16) 1024 ltac:(done)) as Ed.
  pose proof (Z.mod_pos_bound (i * 16) 1024 ltac:(done)).
  assert ((i * 16) mod 1024 = 16 * ((i * 16) mod 1024 / 16)) as Em.
  { replace (i * 16) with (16 * i) by lia. change 1024 with (16 * 64). rewrite Zmult_mod_distr_l. rewrite Z.mul_comm, Z.div_mul by done. lia. }
  assert ((i * 16 + 16 + 1024 - 1) / 1024 < i * 16 / 1024 + 2); [|lia]. apply Z.div_lt_upper_bound; lia.
Qed.

(** What dirlink leaves: nothing new when the name is there already, else the
    directory with one more binding, or a full disk. *)
Definition link_result (mep : proc) (bcache start : Z) (f : fsst) (V : Z → list Z) (bs : list Z) (dp : nat) (x : inode)
    (name : list Z) (num r : Z) (f' : fsst) : Prop :=
  match dir_find V x (key name) with
  | Some _ => r = -1 ∧ tx mep bcache start f' V bs []
  | None => ∃ V' bs' x', fopen mep bcache start f' V' bs' dp x' ∧
      (r = 0 ∧ dir_ok V' x' ∧ (∀ k, dir_find V' x' k = if decide (k = key name) then Some num else dir_find V x k) ∨
       r = -1 ∧ full (sb f) V')
  end.

Section Link.
Context {S : Type} `{HasFs S}.
Variables (s0 : S) (me : nat) (mep : proc) (sleeplocks : list Z) (kend : Z) (patience : nat) (bcache itable start : Z).
Hypothesis Henv : fs_env s0 me mep sleeplocks bcache.
Notation tx := (tx mep bcache start).
Notation fopen := (fopen mep bcache start).
Notation tstep := (tstep bcache).

(** The reference dirlookup took is dropped again. *)
Lemma iget_iput_spec dev num f ip t (Q : unit → list lockid → fsst → Prop) :
  itable_ok (inodes f) → iget_rel dev num (inodes f) ip t →
  (∀ t', Q tt [] (set_inodes t' f)) → fwp s0 [] (iput patience bcache itable ip) (set_inodes t f) Q.
Proof.
  intros Hit Hrel HQ. destruct Hrel as [y Hy (Hp & _) _|y Hy Hz _ _]; pose proof (lookup_lt_Some _ _ _ Hy) as Hi.
  - eapply (iput_drop _ _ _ _ (fe_base _ _ _ _ _ Henv)); [by apply list_lookup_insert_eq| |apply HQ]. simpl.
    pose proof (it_ref _ Hit ip y Hy). rewrite i32_small by lia. lia.
  - eapply (iput_drop _ _ _ _ (fe_base _ _ _ _ _ Henv)); [by apply list_lookup_insert_eq| |apply HQ]. simpl. intros (_ & ? & _). done.
Qed.

(** The write of the new entry. *)
Lemma link_write_spec f V bs dp x name num i0 (Q : Z → list lockid → fsst → Prop) :
  let de := mk_dirent (u16 num) (strncpy_list name (Z.to_nat DIRSIZ)) in
  fopen f V bs dp x → dir_ok V x → 0 < num < 2 ^ 16 → isize x + dirent_size ≤ MAXFILE * BSIZE → space (nmap (sb f) + 5) bs [] →
  dir_find V x (key name) = None → 0 ≤ i0 ≤ nents x → (i0 < nents x → de_inum (dirent V x i0) = 0) →
  (∀ w f' V' bs' x', fopen f' V' bs' dp x' → (w = dirent_size → dir_ok V' x' ∧
       ∀ k, dir_find V' x' k = if decide (k = key name) then Some num else dir_find V x k) →
     (w ≠ dirent_size → full (sb f) V') → Q w [] f') →
  fwp s0 [] (writei kend patience bcache dp (S_local de) (i0 * dirent_size) dirent_size) f Q.
Proof.
  intros de Ho Hdir Hnum Hmax Hsp Hno Hi0 Hfree HQ. destruct (mk_dirent_fields num name Hnum) as (Hl & Hin & Hkey). fold de in Hl, Hin, Hkey.
  pose proof Hdir as [Hd Hty Hw]. assert (dirent_size = Z.of_nat (length de)) as El by (rewrite Hl; done).
  pose proof (entry_blocks i0 (proj1 Hi0)) as Heb. rewrite El at 2.
  assert (i0 * dirent_size ≤ isize x) as Hle by (rewrite Hw; unfold dirent_size; lia).
  eapply writei_spec; [done|done|done|unfold dirent_size in *; lia|rewrite <- El; lia|rewrite <- El; unfold space in *; lia|].
  intros w f' V' bs' x' [Wc Wo Ws Wi Wx Wb Wd Wt Wn Wl Wf]. rewrite <- El in *. apply (HQ w f' V' bs' x'); [done| |intros; apply Wf; lia].
  intros ->. destruct (dirent_patched V x V' x' i0 de dirent_size) as [Hde Hsame]; [lia|done|done|unfold dirent_size in *; lia|done|].
  assert (isize x' = Z.max (nents x) (i0 + 1) * dirent_size) as Es by (rewrite Wx; simpl; unfold dirent_size in *; lia).
  assert (nents x' = Z.max (nents x) (i0 + 1)) as En by (unfold nents at 1; rewrite Es; by apply Z.div_mul).
  split.
  - split; [by apply Wd|rewrite Wx; done|by rewrite Es, En].
  - intros k. apply (insert_find V V' x x' i0 num name de); try done; [|split; [done|lia]].
    intros i Hi Hne. apply Hsame; [lia|unfold dirent_size in *; lia|done].
Qed.

Lemma dirlink_spec f V bs dp x name num : fopen f V bs dp x → dir_ok V x → itable_ok (inodes f) →
  (∃ i y, inodes f !! i = Some y ∧ iref y = 0) → 0 < num < 2 ^ 16 → isize x + dirent_size ≤ MAXFILE * BSIZE → space (nmap (sb f) + 5) bs [] →
  fwp s0 [] (dirlink kend patience bcache itable dp name num) f (λ r held f', held = [] ∧ link_result mep bcache start f V bs dp x name num r f').
Proof.
  intros Ho Hdir Hit Hex Hnum Hmax Hsp. pose proof (nmap_bound (sb f) (fm_size _ _ _ (fo_map _ _ _ (op_fs _ _ _ _ _ _ _ _ Ho)))) as Hnm.
  assert (space 1 bs []) as Hsp1 by (unfold space in *; lia). unfold link_result.
  unfold dirlink. apply fwp_bind. eapply dirlookup_spec; [done|done|done|done|apply Hit|done| |].
  - intros f1 Hno Ho1 Hs1. rewrite Hno. apply fwp_bind. eapply dirlink_slot_spec; [done|done|done|done|]. intros f2 i0 Hi0 Hfree Ho2 Hs2.
    assert (sb f2 = sb f) as Es by (rewrite (ts_sb _ _ _ _ Hs2); apply Hs1). cbv zeta. apply fwp_bind.
    eapply link_write_spec; [done|done|done|done|by rewrite Es|done|done|done|]. rewrite Es.
    intros w f3 V' bs' x' Ho3 Hok Hfu. apply fwp_ret. split; [done|]. exists V', bs', x'. split; [done|].
    destruct (decide (w = dirent_size)) as [Ew|Ew].
    + left. rewrite decide_False by tauto. destruct (Hok Ew). done.
    + right. rewrite decide_True by done. auto.
  - intros f1 ip t i Hi Hfind _ Ho1 Hs1 Hrel. rewrite Hfind. apply fwp_bind. pose proof (ts_inodes _ _ _ _ Hs1) as Ei.
    eapply iget_iput_spec; [by rewrite Ei|done|]. intros t'. apply fwp_ret. split_and!; [done|done|]. apply tx_set_inodes, Ho1.
Qed.
End Link.

(** C16 Refinement: a directory is a finite map from names to inode numbers.
    [dirlink] of a name already there returns -1 and leaves the directory as
    it is; of a new name it inserts exactly that binding, reusing a free entry
    or extending the directory, and returns 0, or -1 when the disk is full. *)
Theorem dirlink_inserts {S} `{HasFs S} (s0 : S) me mep sleeplocks kend patience bcache itable start f V bs dp x name num :
  fs_env s0 me mep sleeplocks bcache → fopen mep bcache start f V bs dp x → dir_ok V x → itable_ok (inodes f) →
  (∃ i y, inodes f !! i = Some y ∧ iref y = 0) → 0 < num < 2 ^ 16 → isize x + dirent_size ≤ MAXFILE * BSIZE → space (nmap (sb f) + 5) bs [] →
  ∃ r f', dirlink kend patience bcache itable dp name num (st s0 [] f) = Ok r (st s0 [] f') ∧
    link_result mep bcache start f V bs dp x name num r f'.
Proof.
  intros Henv Ho Hdir Hit Hex Hnum Hmax Hsp.
  destruct (dirlink_spec s0 me mep sleeplocks kend patience bcache itable start Henv f V bs dp x name num) as (r & ? & f' & E & -> & Hr); [done..|].
  by exists r, f'.
Qed.

(** C29 Functional: [dirlookup] answers with the binding of the name: 0 when the
    directory has none, else a pointer to a slot of the inode table that holds
    the inode the name is bound to, and the offset of its entry. *)
Theorem dirlookup_finds {S} `{HasFs S} (s0 : S) me mep sleeplocks kend patience bcache start f V bs dp x name :
  fs_env s0 me mep sleeplocks bcache → fopen mep bcache start f V bs dp x → dir_ok V x → itable_ok (inodes f) →
  (∃ i y, inodes f !! i = Some y ∧ iref y = 0) → space 1 bs [] →
  ∃ r f', dirlookup kend patience bcache dp name (st s0 [] f) = Ok r (st s0 [] f') ∧ tx mep bcache start f' V bs [] ∧
    match dir_find V x (key name) with
    | None => r = None
    | Some num => ∃ ip off y, r = Some (ip, off) ∧ inodes f' !! ip = Some y ∧ names 1 num y ∧
        de_inum (slice V x off dirent_size) = num ∧ key (de_name (slice V x off dirent_size)) = key name
    end.
Proof.
  intros Henv Ho Hdir Hit Hex Hsp.
  enough (fwp s0 [] (dirlookup kend patience bcache dp name) f (λ r held f', held = [] ∧ tx mep bcache start f' V bs [] ∧
    match dir_find V x (key name) with
    | None => r = None
    | Some num => ∃ ip off y, r = Some (ip, off) ∧ inodes f' !! ip = Some y ∧ names 1 num y ∧
        de_inum (slice V x off dirent_size) = num ∧ key (de_name (slice V x off dirent_size)) = key name
    end)) as (r & ? & f' & E & -> & HQ) by by exists r, f'.
  eapply dirlookup_spec; [done|done|done|done|apply Hit|done| |].
  - intros f' -> [Ht _ _ _] _. done.
  - intros f' ip t i Hi -> [Hz Ek] [Ht _ _ _] Hs Hrel. split; [done|]. split; [by apply tx_set_inodes|].
    exists ip, (i * dirent_size).
    assert (∃ y, t !! ip = Some y ∧ names 1 (de_inum (dirent V x i)) y) as (y & Hy & Hn).
    { destruct Hrel as [y Hy (Hp & Hd & Hn) _|y Hy _ _ _]; pose proof (lookup_lt_Some _ _ _ Hy);
        (eexists; split; [by apply list_lookup_insert_eq|]); (split; [simpl|done]); [|lia].
      rewrite (ts_inodes _ _ _ _ Hs) in Hy. pose proof (it_ref _ Hit ip y Hy). rewrite i32_small; lia. }
    exists y. done.
Qed.

Lemma ex_dir_ok : dir_ok ex_mapped ex_dir.
Proof. split; [apply ex_dir_dense|reflexivity|reflexivity]. Qed.

Lemma ex_dir_table : itable_ok (inodes ex_dirfs) ∧ ∃ i y, inodes ex_dirfs !! i = Some y ∧ iref y = 0.
Proof.
  assert (∀ i x, inodes ex_dirfs !! i = Some x → (i = 1%nat ∧ x = ex_dir) ∨ (i ≠ 1%nat ∧ iref x = 0)) as Hx.
  { intros i x [(-> & <- & _)|[Hne Hx]]%list_lookup_insert_Some; [by left|right]. split; [done|]. by apply lookup_replicate_1 in Hx as [-> _]. }
  split; [split|].
  - reflexivity.
  - intros i x [[-> ->]|[_ ->]]%Hx; [simpl; lia|lia].
  - intros i j x y Hi Hj ? ? _ _. apply Hx in Hi as [[-> ->]|[? ?]]; apply Hx in Hj as [[-> ->]|[? ?]]; lia.
  - exists 0%nat. eexists. split; reflexivity.
Qed.

Lemma dirlink_inserts_witness : ∃ r f', dirlink 0 0 ex_bcache ex_itable 1 [97] 7 (st ex_kst [] ex_dirfs) = Ok r (st ex_kst [] f') ∧
  link_result ex_vm_proc ex_bcache 2 ex_dirfs ex_mapped [] 1 ex_dir [97] 7 r f'.
Proof.
  apply (dirlink_inserts ex_kst 1 ex_vm_proc ex_sleeplocks 0 0 ex_bcache ex_itable 2 ex_dirfs ex_mapped [] 1 ex_dir [97] 7 ex_fs_env ex_dir_fopen
    ex_dir_ok (proj1 ex_dir_table) (proj2 ex_dir_table)); [lia|vm_compute; discriminate|vm_compute; discriminate].
Defined.

Lemma dirlookup_finds_witness : ∃ ip off f', dirlookup 0 0 ex_bcache 1 [46] (st ex_kst [] ex_dirfs) = Ok (Some (ip, off)) (st ex_kst [] f').
Proof.
  destruct (dirlookup_finds ex_kst 1 ex_vm_proc ex_sleeplocks 0 0 ex_bcache 2 ex_dirfs ex_mapped [] 1 ex_dir [46] ex_fs_env ex_dir_fopen
    ex_dir_ok (proj1 ex_dir_table) (proj2 ex_dir_table)) as (r & f' & E & _ & Hr); [vm_compute; discriminate|].
  replace (dir_find ex_mapped ex_dir (key [46])) with (Some 1) in Hr by (vm_compute; reflexivity).
  destruct Hr as (ip & off & y & -> & _). exists ip, off, f'. exact E.
Defined.
