(* ===== verification/Device.v ===== *)
(** * Device drivers' state and control registers

    The variables of kernel/console.c, kernel/uart.c, kernel/printf.c,
    kernel/trap.c, kernel/virtio_disk.c and kernel/main.c, [kernel_pagetable]
    of kernel/vm.c, [first] of forkret, and the control registers of the hart.  The devices themselves are outside the program: [U] is the type of
    their states, and for each of them an [mmio] says how it answers a read of
    one of its registers and reacts to a write. *)

From S2P Require Import Prelude Params CString Spinlock ProcDefs WaitQueue Sched Memory FsDefs Seq.

Definition INPUT_BUF_SIZE : Z := 128.

(* struct cons *)
Record consst : Type := mkCons { cbuf : list Z; cr : Z; cw : Z; ce : Z }.
Definition set_cbuf x c := mkCons x (cr c) (cw c) (ce c).
Definition set_cr x c := mkCons (cbuf c) x (cw c) (ce c).
Definition set_cw x c := mkCons (cbuf c) (cr c) x (ce c).
Definition set_ce x c := mkCons (cbuf c) (cr c) (cw c) x.

Record mmio (U : Type) : Type := mkMmio {
  reg_read : Z → U → Z * U;
  reg_write : Z → Z → U → U;
}.
Arguments reg_read {U} _ _ _.
Arguments reg_write {U} _ _ _ _.

(** The control and status registers of the hart that runs.  The
    interrupt-enable bit of sstatus is [sie] of [cpu]. *)
Inductive csrname : Type :=
| CSR_mhartid
| CSR_mstatus
| CSR_mepc
| CSR_sstatus
| CSR_sip
| CSR_sie_reg
| CSR_mie
| CSR_sepc
| CSR_medeleg
| CSR_mideleg
| CSR_stvec
| CSR_stimecmp
| CSR_menvcfg
| CSR_pmpcfg0
| CSR_pmpaddr0
| CSR_satp
| CSR_scause
| CSR_stval
| CSR_mcounteren
| CSR_time.
#[global] Instance csrname_eq_dec : EqDecision csrname.
Proof. solve_decision. Defined.
Definition csrs : Type := csrname → Z.

(** struct virtq_desc, struct virtio_blk_req and struct disk.  The three
    pages shared with the device are the arrays in them; a status byte or a
    request header is named by its index, a buffer by its index in
    [bcache.buf]. *)
Inductive vaddr : Type := A_null | A_req (i : Z) | A_data (b : nat) | A_status (i : Z).
Record virtq_desc : Type := mkDesc { d_addr : vaddr; d_len : Z; d_flags : Z; d_next : Z }.
Record vinfo : Type := mkInfo { i_b : option nat; i_status : Z }.
Record blk_req : Type := mkReq { q_type : Z; q_reserved : Z; q_sector : Z }.
Record vdisk : Type := mkVdisk {
  vdesc : list virtq_desc;
  avail_idx : Z;
  avail_ring : list Z;
  dev_used_idx : Z;        (* disk.used->idx, written by the device *)
  dev_used_ring : list Z;  (* the id fields of disk.used->ring *)
  vfree : list Z;
  used_idx : Z;
  info : list vinfo;
  vops : list blk_req;
}.
Definition set_vdesc x v := mkVdisk x (avail_idx v) (avail_ring v) (dev_used_idx v) (dev_used_ring v) (vfree v) (used_idx v) (info v) (vops v).
Definition set_avail_idx x v := mkVdisk (vdesc v) x (avail_ring v) (dev_used_idx v) (dev_used_ring v) (vfree v) (used_idx v) (info v) (vops v).
Definition set_avail_ring x v := mkVdisk (vdesc v) (avail_idx v) x (dev_used_idx v) (dev_used_ring v) (vfree v) (used_idx v) (info v) (vops v).
Definition set_dev_used_idx x v := mkVdisk (vdesc v) (avail_idx v) (avail_ring v) x (dev_used_ring v) (vfree v) (used_idx v) (info v) (vops v).
Definition set_dev_used_ring x v := mkVdisk (vdesc v) (avail_idx v) (avail_ring v) (dev_used_idx v) x (vfree v) (used_idx v) (info v) (vops v).
Definition set_vfree x v := mkVdisk (vdesc v) (avail_idx v) (avail_ring v) (dev_used_idx v) (dev_used_ring v) x (used_idx v) (info v) (vops v).
Definition set_used_idx x v := mkVdisk (vdesc v) (avail_idx v) (avail_ring v) (dev_used_idx v) (dev_used_ring v) (vfree v) x (info v) (vops v).
Definition set_info x v := mkVdisk (vdesc v) (avail_idx v) (avail_ring v) (dev_used_idx v) (dev_used_ring v) (vfree v) (used_idx v) x (vops v).
Definition set_vops x v := mkVdisk (vdesc v) (avail_idx v) (avail_ring v) (dev_used_idx v) (dev_used_ring v) (vfree v) (used_idx v) (info v) x.

Record devst (U : Type) : Type := mkDev {
  cons : consst;
  tx_busy : Z;
  panicking : Z;
  panicked : Z;
  ticks : Z;
  csr : csrs;
  vd : vdisk;
  kernel_pagetable : Z;
  fork_first : Z;
  started : Z;
  io : U;
}.
Arguments cons {U} _.
Arguments tx_busy {U} _.
Arguments panicking {U} _.
Arguments panicked {U} _.
Arguments ticks {U} _.
Arguments csr {U} _.
Arguments vd {U} _.
Arguments kernel_pagetable {U} _.
Arguments fork_first {U} _.
Arguments started {U} _.
Arguments io {U} _.
Arguments mkDev {U} _ _ _ _ _ _ _ _ _ _ _.
Definition set_cons {U} x (d : devst U) := mkDev x (tx_busy d) (panicking d) (panicked d) (ticks d) (csr d) (vd d) (kernel_pagetable d) (fork_first d) (started d) (io d).
Definition set_tx_busy {U} x (d : devst U) := mkDev (cons d) x (panicking d) (panicked d) (ticks d) (csr d) (vd d) (kernel_pagetable d) (fork_first d) (started d) (io d).
Definition set_panicking {U} x (d : devst U) := mkDev (cons d) (tx_busy d) x (panicked d) (ticks d) (csr d) (vd d) (kernel_pagetable d) (fork_first d) (started d) (io d).
Definition set_panicked {U} x (d : devst U) := mkDev (cons d) (tx_busy d) (panicking d) x (ticks d) (csr d) (vd d) (kernel_pagetable d) (fork_first d) (started d) (io d).
Definition set_ticks {U} x (d : devst U) := mkDev (cons d) (tx_busy d) (panicking d) (panicked d) x (csr d) (vd d) (kernel_pagetable d) (fork_first d) (started d) (io d).
Definition set_csr {U} x (d : devst U) := mkDev (cons d) (tx_busy d) (panicking d) (panicked d) (ticks d) x (vd d) (kernel_pagetable d) (fork_first d) (started d) (io d).
Definition set_vd {U} x (d : devst U) := mkDev (cons d) (tx_busy d) (panicking d) (panicked d) (ticks d) (csr d) x (kernel_pagetable d) (fork_first d) (started d) (io d).
Definition set_kernel_pagetable {U} x (d : devst U) := mkDev (cons d) (tx_busy d) (panicking d) (panicked d) (ticks d) (csr d) (vd d) x (fork_first d) (started d) (io d).
Definition set_fork_first {U} x (d : devst U) := mkDev (cons d) (tx_busy d) (panicking d) (panicked d) (ticks d) (csr d) (vd d) (kernel_pagetable d) x (started d) (io d).
Definition set_started {U} x (d : devst U) := mkDev (cons d) (tx_busy d) (panicking d) (panicked d) (ticks d) (csr d) (vd d) (kernel_pagetable d) (fork_first d) x (io d).
Definition set_io {U} (x : U) (d : devst U) := mkDev (cons d) (tx_busy d) (panicking d) (panicked d) (ticks d) (csr d) (vd d) (kernel_pagetable d) (fork_first d) (started d) x.

(** States with these variables. *)
Class HasDev (S U : Type) `{HasFs S} : Type := {
  dev_of : S → devst U;
  with_dev : devst U → S → S;
  dev_of_with_dev : ∀ d s, dev_of (with_dev d s) = d;
  with_dev_with_dev : ∀ d d' s, with_dev d (with_dev d' s) = with_dev d s;
  with_dev_of : ∀ s, with_dev (dev_of s) s = s;
  dev_of_with_hw : ∀ h s, dev_of (with_hw h s) = dev_of s;
  dev_of_with_pt : ∀ t s, dev_of (with_pt t s) = dev_of s;
  dev_of_with_pm : ∀ p s, dev_of (with_pm p s) = dev_of s;
  dev_of_with_fs : ∀ f s, dev_of (with_fs f s) = dev_of s;
  hw_of_with_dev : ∀ d s, hw_of (with_dev d s) = hw_of s;
  pt_of_with_dev : ∀ d s, pt_of (with_dev d s) = pt_of s;
  pm_of_with_dev : ∀ d s, pm_of (with_dev d s) = pm_of s;
  fs_of_with_dev : ∀ d s, fs_of (with_dev d s) = fs_of s;
  with_hw_with_dev : ∀ h d s, with_hw h (with_dev d s) = with_dev d (with_hw h s);
  with_pt_with_dev : ∀ t d s, with_pt t (with_dev d s) = with_dev d (with_pt t s);
  with_pm_with_dev : ∀ p d s, with_pm p (with_dev d s) = with_dev d (with_pm p s);
  with_fs_with_dev : ∀ f d s, with_fs f (with_dev d s) = with_dev d (with_fs f s);
}.

#[export] Hint Rewrite @dev_of_with_dev @with_dev_with_dev @with_dev_of @dev_of_with_hw @dev_of_with_pt @dev_of_with_pm @dev_of_with_fs
  @hw_of_with_dev @pt_of_with_dev @pm_of_with_dev @fs_of_with_dev @with_hw_with_dev @with_pt_with_dev @with_pm_with_dev @with_fs_with_dev : st.

(** The whole kernel state with its devices. *)
Record kern (U : Type) : Type := mkKern { kn_base : kst; kn_dev : devst U }.
Arguments kn_base {U} _.
Arguments kn_dev {U} _.
Arguments mkKern {U} _ _.
#[global] Instance HasHw_kern U : HasHw (kern U).
Proof. refine {| hw_of s := hw_of (kn_base s); with_hw h s := mkKern (with_hw h (kn_base s)) (kn_dev s) |}; by intros; try destruct s as [[]]. Defined.
#[global] Instance HasProcs_kern U : HasProcs (kern U).
Proof. refine {| pt_of s := pt_of (kn_base s); with_pt h s := mkKern (with_pt h (kn_base s)) (kn_dev s) |}; by intros; try destruct s as [[]]. Defined.
#[global] Instance HasMem_kern U : HasMem (kern U).
Proof. refine {| pm_of s := pm_of (kn_base s); with_pm h s := mkKern (with_pm h (kn_base s)) (kn_dev s) |}; by intros; try destruct s as [[]]. Defined.
#[global] Instance HasFs_kern U : HasFs (kern U).
Proof. refine {| fs_of s := fs_of (kn_base s); with_fs h s := mkKern (with_fs h (kn_base s)) (kn_dev s) |}; by intros; try destruct s as [[]]. Defined.
#[global] Instance HasDev_kern U : HasDev (kern U) U.
Proof. refine {| dev_of := kn_dev; with_dev d s := mkKern (kn_base s) d |}; by intros; try destruct s as [[]]. Defined.

Section Access.
Context {S U : Type} `{HasDev S U}.
Definition get_dev : M S (devst U) := gets dev_of.
Definition mod_dev (g : devst U → devst U) : M S unit := modify (λ s, with_dev (g (dev_of s)) s).
Definition mod_cons (g : consst → consst) : M S unit := mod_dev (λ d, set_cons (g (cons d)) d).
Definition r_csr (r : csrname) : M S Z := gets (λ s, csr (dev_of s) r).
Definition w_csr (r : csrname) (x : Z) : M S unit :=
  mod_dev (λ d, set_csr (λ r', if decide (r' = r) then u64 x else csr d r') d).
Definition mod_vd (g : vdisk → vdisk) : M S unit := mod_dev (λ d, set_vd (g (vd d)) d).

(* a 32-bit device register *)
Definition mm_load (m : mmio U) (a : Z) : M S Z :=
  d <- get_dev ;;
  let '(v, x) := reg_read m a (io d) in
  mod_dev (set_io x) ;;
  ret (u32 v).
Definition mm_store (m : mmio U) (a v : Z) : M S unit :=
  mod_dev (λ d, set_io (reg_write m a (u32 v) (io d)) d).
End Access.
