(* ===== verification/Uart.v ===== *)
(** * The UART driver and the kernel's console output

    kernel/uart.c, [consputc] of kernel/console.c, [printf] and [panic] of
    kernel/printf.c as programs, and [procdump] of kernel/proc.c.  The 16550
    itself is a [mmio]; [UartLaws] states what its data sheet promises about
    the line status register and the transmit holding register. *)

From S2P Require Import Prelude Params CString Spinlock ProcDefs WaitQueue Sched Memory FsDefs Seq Printf Device.

Definition RHR : Z := 0.
Definition THR : Z := 0.
Definition IER : Z := 1.
Definition IER_RX_ENABLE : Z := Z.shiftl 1 0.
Definition IER_TX_ENABLE : Z := Z.shiftl 1 1.
Definition FCR : Z := 2.
Definition FCR_FIFO_ENABLE : Z := Z.shiftl 1 0.
Definition FCR_FIFO_CLEAR : Z := Z.shiftl 3 1.
Definition ISR : Z := 2.
Definition LCR : Z := 3.
Definition LCR_EIGHT_BITS : Z := Z.shiftl 3 0.
Definition LCR_BAUD_LATCH : Z := Z.shiftl 1 7.
Definition LSR : Z := 5.
Definition LSR_RX_READY : Z := Z.shiftl 1 0.
Definition LSR_TX_IDLE : Z := Z.shiftl 1 5.

(* the bytes of a C string constant *)
Fixpoint str (s : string) : list Z :=
  match s with
  | EmptyString => []
  | String a s => Z.of_nat (Ascii.nat_of_ascii a) :: str s
  end.

Section Ops.
Context {S U : Type} `{HasDev S U}.
Variable u : mmio U.
(* [polls] bounds the reads of a busy-wait on the status register, [patience]
   the times a sleeper finds the transmitter busy again *)
Variables (polls patience : nat) (tx_chan : Z).

Definition ReadReg (reg : Z) : M S Z :=
  d <- get_dev ;;
  let '(v, x) := reg_read u reg (io d) in
  mod_dev (set_io x) ;;
  ret (u8 v).

Definition WriteReg (reg v : Z) : M S unit :=
  mod_dev (λ d, set_io (reg_write u reg (u8 v) (io d)) d).

Definition uartinit : M S unit :=
  WriteReg IER 0x00 ;;
  WriteReg LCR LCR_BAUD_LATCH ;;
  WriteReg 0 0x03 ;;
  WriteReg 1 0x00 ;;
  WriteReg LCR LCR_EIGHT_BITS ;;
  WriteReg FCR (Z.lor FCR_FIFO_ENABLE FCR_FIFO_CLEAR) ;;
  WriteReg IER (Z.lor IER_TX_ENABLE IER_RX_ENABLE) ;;
  initlock L_uart "uart".

(* while(tx_busy != 0) sleep(&tx_chan, &tx_lock); *)
Fixpoint tx_wait (n : nat) : M S unit :=
  match n with
  | O => λ s, Spin s
  | Datatypes.S n =>
      d <- get_dev ;;
      if decide (tx_busy d ≠ 0) then sleep tx_chan L_uart ;; tx_wait n else ret tt
  end.

(* while(i < n), over the bytes of buf *)
Fixpoint uartwrite_loop (buf : list Z) : M S unit :=
  match buf with
  | [] => ret tt
  | b :: buf =>
      tx_wait patience ;;
      WriteReg THR b ;;
      mod_dev (set_tx_busy 1) ;;
      uartwrite_loop buf
  end.

Definition uartwrite (buf : list Z) : M S unit :=
  acquire L_uart ;;
  uartwrite_loop buf ;;
  release L_uart.

(* while((ReadReg(LSR) & LSR_TX_IDLE) == 0) ; *)
Fixpoint wait_idle (n : nat) : M S unit :=
  match n with
  | O => λ s, Spin s
  | Datatypes.S n =>
      v <- ReadReg LSR ;;
      if decide (Z.land v LSR_TX_IDLE = 0) then wait_idle n else ret tt
  end.

Definition uartputc_sync (c : Z) : M S unit :=
  d <- get_dev ;;
  (if decide (panicking d = 0) then push_off else ret tt) ;;
  d <- get_dev ;;
  if decide (panicked d ≠ 0) then (λ s, Spin s) else
  wait_idle polls ;;
  WriteReg THR c ;;
  d <- get_dev ;;
  if decide (panicking d = 0) then pop_off else ret tt.

Definition uartgetc : M S Z :=
  v <- ReadReg LSR ;;
  if decide (Z.land v LSR_RX_READY ≠ 0) then ReadReg RHR else ret (-1).

(** ** printf, panic and procdump *)

Definition consputc (c : Z) : M S unit :=
  if decide (c = BACKSPACE)
  then uartputc_sync 8 ;; uartputc_sync 32 ;; uartputc_sync 8
  else uartputc_sync c.

Fixpoint put_all (bs : list Z) : M S unit :=
  match bs with [] => ret tt | b :: bs => uartputc_sync b ;; put_all bs end.

(* printf sends what [Printf.printf] computes, byte by byte *)
Definition printf (fmt : string) (args : list arg) : M S unit :=
  d <- get_dev ;;
  (if decide (panicking d = 0) then acquire L_pr else ret tt) ;;
  match Printf.printf (str fmt) args with
  | None => fault
  | Some out =>
      put_all out ;;
      d <- get_dev ;;
      if decide (panicking d = 0) then release L_pr else ret tt
  end.

Definition newline : string := String (Ascii.ascii_of_nat 10) EmptyString.

(* panic never returns: the state it spins in is the one the other harts see *)
Definition panic {A} (msg : list Z) : M S A :=
  mod_dev (set_panicking 1) ;;
  printf "panic: " [] ;;
  printf ("%s" ++ newline) [AStr (Some msg)] ;;
  mod_dev (set_panicked 1) ;;
  λ s, Spin s.

Definition printfinit : M S unit := initlock L_pr "pr".

Definition state_name (st : procstate) : string :=
  match st with
  | UNUSED => "unused"
  | USED => "used"
  | SLEEPING => "sleep "
  | RUNNABLE => "runble"
  | RUNNING => "run   "
  | ZOMBIE => "zombie"
  end.

(* p->name up to its NUL *)
Fixpoint c_str (l : list Z) : list Z :=
  match l with [] => [] | b :: l => if decide (b = 0) then [] else b :: c_str l end.

Definition procdump : M S unit :=
  printf newline [] ;;
  for_each (Z.to_nat NPROC) 0 (λ i,
    p <- proc_at (Z.to_nat i) ;;
    if decide (state p = UNUSED) then ret tt else
    printf "%d %s %s" [AInt (pid p); AStr (Some (str (state_name (state p)))); AStr (Some (c_str (name p)))] ;;
    printf newline []).

End Ops.

(** ** What the device promises

    [sent] are the bytes transmitted so far and [busy_for] the number of status
    reads before the line status register shows the transmitter idle: below
    [polls], and writing the transmit register of an idle device sends the
    byte. *)
Class Uart16550 {U : Type} (u : mmio U) (polls : nat) : Type := {
  sent : U → list Z;
  busy_for : U → nat;
  busy_lt : ∀ x, (busy_for x < polls)%nat;
  lsr_idle : ∀ x, Z.land (u8 (reg_read u LSR x).1) LSR_TX_IDLE = 0 ↔ busy_for x ≠ 0%nat;
  lsr_poll : ∀ x, busy_for (reg_read u LSR x).2 = pred (busy_for x);
  lsr_sent : ∀ x, sent (reg_read u LSR x).2 = sent x;
  thr_sent : ∀ x c, busy_for x = 0%nat → sent (reg_write u THR c x) = sent x ++ [c];
}.

Section Specs.
Context {S U : Type} `{HasDev S U}.
Context (u : mmio U) (polls : nat) `{!Uart16550 u polls}.

(** Only the device moved, and it sent [out]. *)
Definition emitted (out : list Z) (s s' : S) : Prop :=
  ∃ x, s' = with_dev (set_io x (dev_of s)) s ∧ sent x = sent (io (dev_of s)) ++ out.

(** Interrupts are off and the kernel is not panicking. *)
Record calm (s : S) : Prop := mkCalm {
  cm_cpu : cpu_ok (hw_of s);
  cm_off : 1 ≤ noff (mycpu (hw_of s));
  cm_panicking : panicking (dev_of s) = 0;
  cm_panicked : panicked (dev_of s) = 0;
}.

Lemma emitted_refl s : emitted [] s s.
Proof. exists (io (dev_of s)). split; [|by rewrite app_nil_r]. destruct (dev_of s) eqn:E. unfold set_io. simpl. by rewrite <- E, with_dev_of. Qed.

Lemma emitted_trans o1 o2 s1 s2 s3 : emitted o1 s1 s2 → emitted o2 s2 s3 → emitted (o1 ++ o2) s1 s3.
Proof.
  intros (x & -> & E1) (y & -> & E2). exists y. st_simpl. split; [done|]. simpl in E2. rewrite E2, E1. by rewrite app_assoc.
Qed.

Lemma emitted_hw o s s' : emitted o s s' → hw_of s' = hw_of s.
Proof. intros (x & -> & _). by st_simpl. Qed.

Lemma emitted_calm o s s' : emitted o s s' → calm s → calm s'.
Proof. intros (x & -> & _) []. split; st_simpl; done. Qed.

Lemma wait_idle_spec n : ∀ s, (busy_for (io (dev_of s)) < n)%nat →
  wp (wait_idle u n) s (λ _ s', emitted [] s s' ∧ busy_for (io (dev_of s')) = 0%nat).
Proof.
  induction n as [|n IH]; intros s Hn; [lia|]. cbn [wait_idle]. wp_step. unfold ReadReg, get_dev, mod_dev.
  wp_step. wp_step. destruct (reg_read u LSR (io (dev_of s))) as [v x] eqn:E.
  pose proof (lsr_idle (io (dev_of s))) as Hi. pose proof (lsr_poll (io (dev_of s))) as Hp.
  pose proof (lsr_sent (io (dev_of s))) as Hs. rewrite E in Hi, Hp, Hs. simpl in Hi, Hp, Hs. wp_go.
  assert (emitted [] s (with_dev (set_io x (dev_of s)) s)) as He by (exists x; by rewrite app_nil_r).
  case_decide as Hv.
  - eapply wp_mono; [apply IH; st_simpl; simpl; lia|]. intros [] s' [He' Hb]. split; [|done].
    by apply (emitted_trans [] []) with (2 := He').
  - apply wp_ret. split; [done|]. st_simpl. simpl. destruct (busy_for (io (dev_of s))); simpl in Hp; lia.
Qed.

Lemma putc_spec c s : calm s → wp (uartputc_sync u polls c) s (λ _ s', emitted [u8 c] s s').
Proof.
  intros Hc. unfold uartputc_sync, get_dev. wp_go. rewrite decide_True by apply Hc. eapply wp_ok; [apply push_off_eq|].
  wp_go. st_simpl. rewrite decide_False by (rewrite (cm_panicked _ Hc); lia). wp_go.
  eapply wp_mono; [apply wait_idle_spec, busy_lt|]. intros [] s' [(x & -> & Hs) Hb]. st_simpl. simpl in Hb.
  unfold WriteReg, mod_dev. wp_go. st_simpl. rewrite decide_True by apply Hc.
  set (d := set_io _ _).
  assert (hw_settle (hw_of s) = hw_of s) as Hset by (apply hw_settle_nested; [apply Hc|destruct Hc; lia]).
  eapply wp_ok; [apply pop_off_eq; st_simpl|].
  - unfold hw_push. hw_simpl. done.
  - unfold hw_push. hw_simpl. simpl. destruct Hc. lia.
  - exists (io d). st_simpl. rewrite hw_pop_push by apply Hc. rewrite Hset. st_simpl. split; [done|].
    unfold d. simpl. rewrite thr_sent by done. by rewrite Hs, app_nil_r.
Qed.

Lemma consputc_spec c s : calm s → wp (consputc u polls c) s (λ _ s', emitted (Printf.consputc c) s s').
Proof.
  intros Hc. unfold consputc, Printf.consputc. case_decide; [|by apply putc_spec].
  do 2 (wp_step; eapply wp_mono; [apply putc_spec; eauto using emitted_calm|]; intros [] ? ?).
  eapply wp_mono; [apply putc_spec; eauto using emitted_calm|]. intros [] s3 He3.
  by eapply (emitted_trans [8] [32; 8]), (emitted_trans [32] [8]).
Qed.

Lemma put_all_spec bs : ∀ s, calm s → wp (put_all u polls bs) s (λ _ s', emitted (u8 <$> bs) s s').
Proof.
  induction bs as [|b bs IH]; intros s Hc; cbn [put_all]; [apply wp_ret, emitted_refl|].
  wp_step. eapply wp_mono; [by apply putc_spec|]. intros [] s1 He1.
  eapply wp_mono; [apply IH; eauto using emitted_calm|]. intros [] s2 He2.
  rewrite fmap_cons. by apply (emitted_trans [u8 b] (u8 <$> bs) _ _ _ He1).
Qed.

(** printf takes and drops its lock around the output. *)
Lemma printf_spec fmt args out s :
  cpu_ok (hw_of s) → panicking (dev_of s) = 0 → panicked (dev_of s) = 0 → lock_free L_pr (hw_of s) →
  Printf.printf (str fmt) args = Some out →
  wp (printf u polls fmt args) s (λ _ s', emitted (u8 <$> out) (with_hw (hw_settle (hw_of s)) s) s').
Proof.
  intros Hok Hp1 Hp2 Hl Ho. unfold printf, get_dev. wp_go. rewrite decide_True by done. apply wp_acquire; [done|].
  rewrite Ho. wp_step. set (s1 := with_hw _ s).
  assert (calm s1) as Hc1.
  { split; unfold s1; st_simpl; auto with xv6. rewrite noff_acq. pose proof (noff_nonneg _ Hok). lia. }
  eapply wp_mono; [by apply put_all_spec|]. intros [] s2 (x & -> & Hx). wp_go. unfold s1 in *. st_simpl.
  rewrite decide_True by done. eapply (wp_release _ _ (hw_of s)); [by st_simpl|done|done|].
  exists x. st_simpl. done.
Qed.

Lemma printf_calm fmt args out s : calm s → lock_free L_pr (hw_of s) → Printf.printf (str fmt) args = Some out →
  wp (printf u polls fmt args) s (λ _ s', emitted (u8 <$> out) s s').
Proof.
  intros [Hok Hn Hp1 Hp2] Hl Ho. eapply wp_mono; [by eapply printf_spec|]. intros [] s'.
  rewrite hw_settle_nested by (done || lia). by rewrite with_hw_of.
Qed.

(** ** The process list *)

(* the line of a process: its pid, its state and its name *)
Definition ps_line (p : proc) : list Z :=
  if decide (state p = UNUSED) then [] else
  default [] (printint (i32 (pid p)) 10 1) ++ [32] ++ str (state_name (state p)) ++ [32] ++ c_str (name p) ++ [10].
Definition process_list (t : ptab) : list Z := 10 :: concat (ps_line <$> procs t).

Lemma printf_plain fuel cx fmt args out : cx ≠ 37 →
  printf_loop (Datatypes.S fuel) (cx :: fmt) args out = printf_loop fuel fmt args (out ++ Printf.consputc cx).
Proof. intros. cbn [printf_loop]. by rewrite decide_True. Qed.

Lemma printf_conv fuel c0 fmt args out o args' n :
  kconv c0 (default 0 (head fmt)) (default 0 (head (tail fmt))) args = Some (o, args', n) →
  printf_loop (Datatypes.S fuel) (37 :: c0 :: fmt) args out = printf_loop fuel (drop n fmt) args' (out ++ o).
Proof. intros E. cbn [printf_loop]. rewrite decide_False by tauto. by rewrite E. Qed.

Lemma ps_format v a b : Printf.printf (str "%d %s %s") [AInt v; AStr (Some a); AStr (Some b)] =
  Some (default [] (printint (i32 v) 10 1) ++ [32] ++ a ++ [32] ++ b).
Proof.
  destruct (printint_both (i32 v) 10 1) as (out & _ & E & _); [pose proof (Z.mod_pos_bound (v + 2 ^ 31) (2 ^ 32)); unfold i32; lia|lia|].
  unfold Printf.printf. change (str "%d %s %s") with [37; 100; 32; 37; 115; 32; 37; 115]. cbn [length].
  rewrite (printf_conv _ _ _ _ _ out [AStr (Some a); AStr (Some b)] 0) by (unfold kconv; rewrite decide_True, E by done; done).
  rewrite E. simpl default. cbn [drop].
  rewrite printf_plain, (printf_conv _ _ _ _ _ a [AStr (Some b)] 0) by done. cbn [drop].
  rewrite printf_plain, (printf_conv _ _ _ _ _ b [] 0) by done. cbn [drop printf_loop length]. f_equal.
  change (Printf.consputc 32) with [32]. by rewrite <- !app_assoc.
Qed.

Lemma procdump_spec s : calm s → lock_free L_pr (hw_of s) → length (procs (pt_of s)) = Z.to_nat NPROC →
  wp (procdump u polls) s (λ _ s', emitted (u8 <$> process_list (pt_of s)) s s').
Proof.
  intros Hc Hl Hlen. unfold procdump. wp_step. eapply wp_mono; [by apply (printf_calm _ _ [10])|]. intros [] s1 He1.
  eapply wp_mono; [apply (wp_for_each _ (λ j s', 0 ≤ j ∧
    emitted (u8 <$> 10 :: concat (ps_line <$> take (Z.to_nat j) (procs (pt_of s)))) s s'))|].
  - split; [done|]. exact He1.
  - intros j s2 Hj [_ He]. assert (is_Some (procs (pt_of s) !! Z.to_nat j)) as [p Hp] by (apply lookup_lt_is_Some; unfold NPROC in *; lia).
    assert (pt_of s2 = pt_of s ∧ hw_of s2 = hw_of s) as [Et Eh] by (destruct He as (x & -> & _); by st_simpl).
    wp_step. eapply wp_proc_at; [by rewrite Et|].
    replace (Z.to_nat (j + 1)) with (Datatypes.S (Z.to_nat j)) by lia. rewrite (take_S_r _ _ _ Hp), fmap_app, concat_app. simpl concat.
    rewrite app_nil_r. unfold ps_line at 2. case_decide as Hs; [apply wp_ret; split; [lia|]; by rewrite app_nil_r|].
    rewrite app_comm_cons, fmap_app.
    wp_step. eapply wp_mono; [eapply printf_calm; [by eapply emitted_calm|by rewrite Eh|apply ps_format]|]. intros [] s3 He3.
    eapply wp_mono; [apply (printf_calm _ _ [10]); [by eapply emitted_calm; [|eapply emitted_calm]| |done]|].
    { by rewrite (emitted_hw _ _ _ He3), Eh. }
    intros [] s4 He4. split; [lia|]. eapply emitted_trans; [exact He|].
    pose proof (emitted_trans _ _ _ _ _ He3 He4) as He34. rewrite <- fmap_app, <- !app_assoc in He34. exact He34.
  - intros [] s2 [_ He]. unfold process_list. rewrite take_ge in He by (unfold NPROC in *; lia). done.
Qed.

End Specs.
