(* ===== verification/Console.v ===== *)
(** * The console (kernel/console.c)

    Line-buffered input and output through the UART.  [tty] is what a terminal
    is: the bytes ready for consoleread and the line still being edited;
    [tty_key] says what a key does to it.  The theorems show that the ring
    buffer with its three wrapping indices implements it. *)

From S2P Require Import Prelude Params CString Spinlock ProcDefs WaitQueue Sched Memory Kalloc PageTable Vm VmSpec UserMem CopyUser AddressSpace Pipe FsDefs Seq Fs File Printf Device Uart.

(* C('D') and the like: x - '@' *)
Definition C (x : Z) : Z := x - 64.
Definition ctrl_D : Z := C 68.
Definition ctrl_H : Z := C 72.
Definition ctrl_P : Z := C 80.
Definition ctrl_U : Z := C 85.
Definition DEL : Z := 127.
Definition LF : Z := 10.
Definition CR : Z := 13.
Definition CONSOLE : Z := 1.

(* cons.buf[i % INPUT_BUF_SIZE] *)
Definition cons_at (i : Z) (c : consst) : Z := default 0 (cbuf c !! Z.to_nat (i mod INPUT_BUF_SIZE)).
Definition cons_put (i b : Z) (c : consst) : consst := set_cbuf (<[Z.to_nat (i mod INPUT_BUF_SIZE) := u8 b]> (cbuf c)) c.

Section Ops.
Context {S U : Type} `{HasDev S U}.
Variable u : mmio U.
Variables (kend : Z) (polls patience : nat) (tx_chan cons_r : Z).
Notation consputc := (consputc u polls).
Notation uartwrite := (uartwrite u patience tx_chan).

Definition get_cons : M S consst := d <- get_dev ;; ret (cons d).

(* while(i < n) of consolewrite; [fuel] chunks *)
Fixpoint consolewrite_loop (fuel : nat) (src : source) (n i : Z) : M S Z :=
  match fuel with
  | O => λ s, Spin s
  | Datatypes.S fuel =>
      if decide (i < n) then
        let nn := if decide (32 > n - i) then n - i else 32 in
        r <- either_copyin kend (source_add src i) nn ;;
        if decide (r.1 = -1) then ret i else
        uartwrite (r.2) ;;
        consolewrite_loop fuel src n (i + nn)
      else ret i
  end.

(* a kernel source is the bytes there *)
Definition consolewrite (user_src src n : Z) : M S Z :=
  m <- get_bytes ;;
  let from := if decide (user_src ≠ 0) then S_user src else S_local (map m (seqZ src n)) in
  consolewrite_loop (Datatypes.S (Z.to_nat n)) from n 0.

(* while(cons.r == cons.w); None after the early return of -1 *)
Fixpoint cons_wait (fuel : nat) : M S (option unit) :=
  match fuel with
  | O => λ s, Spin s
  | Datatypes.S fuel =>
      c <- get_cons ;;
      if decide (cr c = cw c) then
        i <- curproc ;;
        k <- Sched.killed i ;;
        if decide (k ≠ 0) then
          release L_cons ;;
          ret None
        else
          sleep cons_r L_cons ;;
          cons_wait fuel
      else ret (Some tt)
  end.

(* while(n > 0); the n left at the end *)
Fixpoint consoleread_loop (fuel : nat) (dst : dest) (n target : Z) : M S (option Z) :=
  match fuel with
  | O => ret (Some n)
  | Datatypes.S fuel =>
      if decide (n > 0) then
        w <- cons_wait patience ;;
        match w with
        | None => ret None
        | Some _ =>
            k <- get_cons ;;
            let c := cons_at (cr k) k in
            mod_cons (λ k, set_cr (u32 (cr k + 1)) k) ;;
            if decide (c = ctrl_D) then
              (if decide (n < target) then mod_cons (λ k, set_cr (u32 (cr k - 1)) k) else ret tt) ;;
              ret (Some n)
            else
            r <- either_copyout kend dst [c] ;;
            if decide (r = -1) then ret (Some n) else
            if decide (c = LF) then ret (Some (n - 1)) else
            consoleread_loop fuel (dest_add dst 1) (n - 1) target
        end
      else ret (Some n)
  end.

Definition consoleread (user_dst dst n : Z) : M S Z :=
  let to := if decide (user_dst ≠ 0) then D_user dst else D_kmem dst in
  let target := u32 n in
  acquire L_cons ;;
  r <- consoleread_loop (Z.to_nat n) to n target ;;
  match r with
  | None => ret (-1)
  | Some n =>
      release L_cons ;;
      ret (i32 (target - n))
  end.

(* while(cons.e != cons.w && cons.buf[(cons.e-1) % INPUT_BUF_SIZE] != '\n') *)
Fixpoint kill_line (fuel : nat) : M S unit :=
  match fuel with
  | O => λ s, Spin s
  | Datatypes.S fuel =>
      c <- get_cons ;;
      if decide (ce c ≠ cw c ∧ cons_at (u32 (ce c - 1)) c ≠ LF) then
        mod_cons (λ c, set_ce (u32 (ce c - 1)) c) ;;
        consputc BACKSPACE ;;
        kill_line fuel
      else ret tt
  end.

Definition consoleintr (c : Z) : M S unit :=
  acquire L_cons ;;
  (if decide (c = ctrl_P) then procdump u polls
   else if decide (c = ctrl_U) then
     k <- get_cons ;;
     kill_line (Datatypes.S (Z.to_nat (u32 (ce k - cw k))))
   else if decide (c = ctrl_H ∨ c = DEL) then
     k <- get_cons ;;
     if decide (ce k ≠ cw k) then
       mod_cons (λ k, set_ce (u32 (ce k - 1)) k) ;;
       consputc BACKSPACE
     else ret tt
   else
     k <- get_cons ;;
     if decide (c ≠ 0 ∧ u32 (ce k - cr k) < INPUT_BUF_SIZE) then
       let c := if decide (c = CR) then LF else c in
       consputc c ;;
       mod_cons (λ k, set_ce (u32 (ce k + 1)) (cons_put (ce k) c k)) ;;
       k <- get_cons ;;
       if decide (c = LF ∨ c = ctrl_D ∨ u32 (ce k - cr k) = INPUT_BUF_SIZE) then
         mod_cons (λ k, set_cw (ce k) k) ;;
         wakeup cons_r
       else ret tt
     else ret tt) ;;
  release L_cons.

(* the loop of uartintr over the waiting characters *)
Fixpoint uartintr_loop (fuel : nat) : M S unit :=
  match fuel with
  | O => λ s, Spin s
  | Datatypes.S fuel =>
      c <- uartgetc u ;;
      if decide (c = -1) then ret tt else
      consoleintr c ;;
      uartintr_loop fuel
  end.

Definition uartintr (fuel : nat) : M S unit :=
  ReadReg u ISR ;;
  acquire L_uart ;;
  v <- ReadReg u LSR ;;
  (if decide (Z.land v LSR_TX_IDLE ≠ 0) then
     mod_dev (set_tx_busy 0) ;;
     wakeup tx_chan
   else ret tt) ;;
  release L_uart ;;
  uartintr_loop fuel.

(* the table of device functions after consoleinit *)
Definition consoleinit (devsw : Z → devops S) : M S (Z → devops S) :=
  initlock L_cons "cons" ;;
  uartinit u ;;
  ret (λ major, if decide (major = CONSOLE) then mkDevops _ (Some consoleread) (Some consolewrite) else devsw major).

End Ops.

(** ** The terminal *)

Record tty : Type := mkTty { ready : list Z; line : list Z }.

(* backspace, space, backspace *)
Definition rubout : list Z := [8; 32; 8].

(** What key [c] does: the terminal after it, what is echoed and whether
    readers are woken.  ^P prints the list of processes, [ps]. *)
Definition tty_key (ps : list Z) (c : Z) (t : tty) : tty * list Z * bool :=
  if decide (c = ctrl_P) then (t, ps, false)
  else if decide (c = ctrl_U) then (mkTty (ready t) [], concat ((λ _, rubout) <$> line t), false)
  else if decide (c = ctrl_H ∨ c = DEL) then
    (mkTty (ready t) (removelast (line t)), if decide (line t = []) then [] else rubout, false)
  else if decide (c = 0 ∨ INPUT_BUF_SIZE ≤ Z.of_nat (length (ready t ++ line t))) then (t, [], false)
  else
    let c := if decide (c = CR) then LF else c in
    let l := line t ++ [c] in
    if decide (c = LF ∨ c = ctrl_D ∨ Z.of_nat (length (ready t ++ l)) = INPUT_BUF_SIZE)
    then (mkTty (ready t ++ l) [], [c], true)
    else (mkTty (ready t) l, [c], false).

(** The ring stands for [t]: [r] is the read index, [w] is [r] plus the bytes
    ready, [e] is [w] plus the bytes of the line, all modulo 2^32. *)
Record cons_rep (k : consst) (t : tty) : Prop := mkRep {
  cr_len : length (cbuf k) = 128%nat;
  cr_r : 0 ≤ cr k < 2 ^ 32;
  cr_w : cw k = u32 (cr k + Z.of_nat (length (ready t)));
  cr_e : ce k = u32 (cr k + Z.of_nat (length (ready t ++ line t)));
  cr_fits : Z.of_nat (length (ready t ++ line t)) ≤ INPUT_BUF_SIZE;
  cr_data : ∀ j b, (ready t ++ line t) !! j = Some b → cons_at (cr k + Z.of_nat j) k = b;
}.
Definition cons_ok (k : consst) (t : tty) : Prop := cons_rep k t ∧ LF ∉ line t.

Lemma u32_ring x : u32 x mod INPUT_BUF_SIZE = x mod INPUT_BUF_SIZE.
Proof. unfold u32, wrap, INPUT_BUF_SIZE. change (2 ^ 32) with (128 * 33554432). rewrite Z.rem_mul_r by lia.
  rewrite Z.mul_comm, Z.mod_add by lia. apply Z.mod_mod. lia. Qed.

Lemma ring_ne a i j : 0 ≤ i → i < j → j < 128 → (a + i) mod INPUT_BUF_SIZE ≠ (a + j) mod INPUT_BUF_SIZE.
Proof. unfold INPUT_BUF_SIZE. intros. Z.to_euclidean_division_equations. lia. Qed.

Lemma u32_sub a n m : u32 (u32 (a + n) - u32 (a + m)) = u32 (n - m).
Proof. unfold u32, wrap. rewrite Zminus_mod_idemp_l, Zminus_mod_idemp_r. f_equal. lia. Qed.

Lemma u32_add a n m : u32 (u32 (a + n) + m) = u32 (a + (n + m)).
Proof. unfold u32, wrap. rewrite Zplus_mod_idemp_l. f_equal. lia. Qed.

Lemma cons_at_u32 x k : cons_at (u32 x) k = cons_at x k.
Proof. unfold cons_at. by rewrite u32_ring. Qed.

Lemma u32_same a n m : 0 ≤ n < 2 ^ 32 → 0 ≤ m < 2 ^ 32 → u32 (a + n) = u32 (a + m) ↔ n = m.
Proof.
  intros Hn Hm. split; [|by intros ->]. intros E. pose proof (u32_sub a n m) as E'. rewrite E, Z.sub_diag in E'.
  unfold u32, wrap in *. change (2 ^ 32) with 4294967296 in *. Z.to_euclidean_division_equations. lia.
Qed.

Section Ring.
Variables (k : consst) (r l : list Z).
Hypothesis Hk : cons_rep k (mkTty r l).

Lemma rep_small : Z.of_nat (length r) + Z.of_nat (length l) ≤ 128.
Proof. pose proof (cr_fits _ _ Hk) as Hf. simpl in Hf. rewrite length_app in Hf. unfold INPUT_BUF_SIZE in Hf. lia. Qed.

Lemma rep_edited : ce k = cw k ↔ l = [].
Proof.
  pose proof rep_small. rewrite (cr_w _ _ Hk), (cr_e _ _ Hk). simpl. rewrite length_app, u32_same by lia.
  rewrite <- length_zero_iff_nil. lia.
Qed.

Lemma rep_count : u32 (ce k - cr k) = Z.of_nat (length (r ++ l)).
Proof.
  pose proof rep_small. pose proof (cr_r _ _ Hk). rewrite (cr_e _ _ Hk). simpl. rewrite length_app in *.
  replace (cr k) with (u32 (cr k + 0)) at 2 by (rewrite Z.add_0_r; by apply wrap_small).
  rewrite u32_sub, Z.sub_0_r. apply wrap_small. lia.
Qed.

Lemma rep_line : u32 (ce k - cw k) = Z.of_nat (length l).
Proof.
  pose proof rep_small. rewrite (cr_w _ _ Hk), (cr_e _ _ Hk), u32_sub. simpl. rewrite length_app.
  unfold u32. rewrite wrap_small; lia.
Qed.

(** Reading the oldest byte, erasing the newest, appending one, committing the line. *)
Lemma rep_erase l' b : l = l' ++ [b] →
  cons_at (u32 (ce k - 1)) k = b ∧ cons_rep (set_ce (u32 (ce k - 1)) k) (mkTty r l').
Proof.
  intros ->. rewrite (cr_e _ _ Hk). simpl.
  assert (u32 (u32 (cr k + Z.of_nat (length (r ++ l' ++ [b]))) - 1) = u32 (cr k + Z.of_nat (length (r ++ l')))) as E.
  { rewrite <- Z.add_opp_r, u32_add. f_equal. rewrite !length_app. simpl. lia. }
  rewrite E. split.
  - rewrite cons_at_u32. apply (cr_data _ _ Hk). simpl. rewrite app_assoc. by apply list_lookup_middle.
  - destruct Hk as [H1 H2 H3 H4 H5 H6]. split; simpl in *; try done.
    + rewrite !length_app in *. lia.
    + intros j x Hj. apply (H6 j). rewrite app_assoc. by apply lookup_app_l_Some.
Qed.

Lemma rep_append b : Z.of_nat (length (r ++ l)) < INPUT_BUF_SIZE → 0 ≤ b < 256 →
  cons_rep (set_ce (u32 (ce k + 1)) (cons_put (ce k) b k)) (mkTty r (l ++ [b])).
Proof.
  intros Hroom Hb. destruct Hk as [H1 H2 H3 H4 H5 H6]. simpl in *.
  split; simpl; rewrite ?app_assoc, ?(length_app (r ++ l)); simpl; try done.
  - by rewrite length_insert.
  - rewrite H4, u32_add. f_equal. lia.
  - lia.
  - intros j x Hj. unfold cons_at, cons_put. simpl. rewrite H4, u32_ring. set (n := length (r ++ l)) in *.
    assert (j < S n)%nat as Hjn by (apply lookup_lt_Some in Hj; rewrite length_app in Hj; simpl in Hj; unfold n; lia).
    unfold INPUT_BUF_SIZE in *. destruct (decide (j = n)) as [->|Hne].
    + rewrite list_lookup_insert_eq by (rewrite H1; apply Nat2Z.inj_lt; rewrite Z2Nat.id; apply Z.mod_pos_bound; lia).
      simpl. unfold u8. rewrite wrap_small by lia. rewrite lookup_app_r in Hj by (unfold n; lia).
      unfold n in Hj. rewrite Nat.sub_diag in Hj. by injection Hj.
    + rewrite lookup_app_l in Hj by (fold n; lia).
      rewrite list_lookup_insert_ne; [by apply H6|]. intros E. apply Z2Nat.inj in E; [|apply Z.mod_pos_bound; lia..].
      symmetry in E. by apply (ring_ne (cr k) (Z.of_nat j) (Z.of_nat n)) in E; lia.
Qed.

Lemma rep_pop b q : r = b :: q →
  cons_at (cr k) k = b ∧ cons_rep (set_cr (u32 (cr k + 1)) k) (mkTty q l) ∧ u32 (u32 (cr k + 1) - 1) = cr k.
Proof.
  intros ->. destruct Hk as [H1 H2 H3 H4 H5 H6]. simpl in *. split; [|split].
  - rewrite <- (H6 0%nat b eq_refl). by rewrite Z.add_0_r.
  - split; simpl; try done.
    + apply wrap_bound. lia.
    + rewrite H3, u32_add. f_equal. lia.
    + rewrite H4, u32_add. f_equal. lia.
    + lia.
    + intros j x Hj. rewrite <- (H6 (S j) x Hj). unfold cons_at. simpl. do 3 f_equal.
      rewrite <- Zplus_mod_idemp_l, u32_ring, Zplus_mod_idemp_l. f_equal. lia.
  - rewrite <- Z.add_opp_r, u32_add, Z.add_0_r. by apply wrap_small.
Qed.

Lemma rep_commit : cons_rep (set_cw (ce k) k) (mkTty (r ++ l) []).
Proof. destruct Hk as [H1 H2 H3 H4 H5 H6]. split; simpl in *; rewrite ?app_nil_r; done. Qed.
End Ring.

(** ** The interrupt handler implements the terminal *)

Lemma rubout_snoc (l : list Z) b :
  concat ((λ _, rubout) <$> l ++ [b]) = rubout ++ concat ((λ _, rubout) <$> l).
Proof. induction l as [|a l IH]; [done|]. cbn [fmap list_fmap app concat]. rewrite IH. by rewrite app_assoc. Qed.

Section Intr.
Context {S U : Type} `{HasDev S U}.
Context (u : mmio U) (polls : nat) `{!Uart16550 u polls} (cons_r : Z).

(** The console became [k], the device sent [out], nothing else moved. *)
Definition kmoved (k : consst) (out : list Z) (s s' : S) : Prop :=
  ∃ x, s' = with_dev (set_io x (set_cons k (dev_of s))) s ∧ sent x = sent (io (dev_of s)) ++ out.

Lemma kmoved_refl s : kmoved (cons (dev_of s)) [] s s.
Proof.
  exists (io (dev_of s)). rewrite app_nil_r. split; [|done]. rewrite <- (with_dev_of s) at 1. f_equal. by destruct (dev_of s).
Qed.

Lemma kmoved_trans k1 k2 o1 o2 s1 s2 s3 : kmoved k1 o1 s1 s2 → kmoved k2 o2 s2 s3 → kmoved k2 (o1 ++ o2) s1 s3.
Proof. intros (x & -> & E1) (y & -> & E2). exists y. st_simpl. split; [done|]. simpl in E2. by rewrite E2, E1, app_assoc. Qed.

Lemma kmoved_calm k o s s' : kmoved k o s s' → calm s → calm s'.
Proof. intros (x & -> & _) []. split; st_simpl; done. Qed.

Lemma kmoved_cons k o s s' : kmoved k o s s' → cons (dev_of s') = k.
Proof. intros (x & -> & _). by st_simpl. Qed.

Lemma set_cons_spec g s : wp (mod_cons g) s (λ _ s', kmoved (g (cons (dev_of s))) [] s s').
Proof. unfold mod_cons, mod_dev. wp_go. exists (io (dev_of s)). rewrite app_nil_r. split; [|done]. by destruct (dev_of s). Qed.

Lemma echo_spec c s : calm s → wp (consputc u polls c) s (λ _ s', kmoved (cons (dev_of s)) (Printf.consputc c) s s').
Proof.
  intros Hc. eapply wp_mono; [by apply consputc_spec|]. intros [] s' (x & -> & Hx). by exists x.
Qed.

Lemma kill_line_spec r l : ∀ n s, (length l < n)%nat → calm s → cons_ok (cons (dev_of s)) (mkTty r l) →
  wp (kill_line u polls n) s (λ _ s', ∃ k, kmoved k (concat ((λ _, rubout) <$> l)) s s' ∧ cons_ok k (mkTty r [])).
Proof.
  induction l as [|b l IH] using rev_ind; intros n s Hn Hc [Hk Hl]; (destruct n as [|n]; [lia|]);
    cbn [kill_line]; unfold get_cons, get_dev; wp_go.
  - rewrite decide_False by (intros [He _]; by apply He, (rep_edited _ r [])). wp_go.
    exists (cons (dev_of s)). split; [apply kmoved_refl|done].
  - destruct (rep_erase _ _ _ Hk l b eq_refl) as [Hlast Hk']. simpl in Hl. apply not_elem_of_app in Hl as [Hl Hb].
    rewrite decide_True; cycle 1.
    { split; [|rewrite Hlast; set_solver]. intros E%(rep_edited _ _ _ Hk). by destruct l. }
    wp_go. eapply wp_mono; [apply set_cons_spec|]. intros [] s1 M1. wp_go.
    eapply wp_mono; [apply echo_spec; by eapply kmoved_calm|]. intros [] s2 M2. rewrite length_app in Hn. simpl in Hn.
    pose proof (kmoved_trans _ _ _ _ _ _ _ M1 M2) as M12. rewrite (kmoved_cons _ _ _ _ M1) in M12.
    eapply wp_mono; [apply IH; [lia|by eapply kmoved_calm|]|].
    + rewrite (kmoved_cons _ _ _ _ M12). by split.
    + intros [] s3 (k & M3 & Hk3). exists k. split; [|done]. rewrite rubout_snoc. by apply (kmoved_trans _ _ _ _ _ _ _ M12 M3).
Qed.
(** The handler after it has taken cons.lock. *)
Definition handled (t : tty) (out : list Z) (woke : bool) (s s' : S) : Prop :=
  ∃ k s1 pt, kmoved k out s s1 ∧ cons_ok k t ∧ s' = with_pt pt s1 ∧
    if woke then wq_inv pt ∧ keeps (λ _ p, wake1 cons_r p) (pt_of s) pt else pt = pt_of s.

Lemma handled_quiet k t out s s' : kmoved k out s s' → cons_ok k t → handled t out false s s'.
Proof.
  intros M Hk. exists k, s', (pt_of s). split_and!; [done|done| |done].
  destruct M as (x & -> & _). by st_simpl.
Qed.

Lemma wake_handled k t out s s' : kmoved k out s s' → cons_ok k t → quiet s → calm s →
  wp (wakeup cons_r) s' (λ _ s'', handled t out true s s'').
Proof.
  intros M Hk Hq Hc. assert (quiet s') as Hq'.
  { destruct M as (x & -> & _). destruct Hq. split; st_simpl; done. }
  destruct (wakeup_spec cons_r s' Hq') as (pt & E & Hinv & Hkeep). eapply wp_ok; [done|].
  exists k, s', pt. split; [done|]. split; [done|]. split; [|split; [done|]].
  - rewrite hw_settle_nested; [by st_simpl|apply Hq'|]. destruct (kmoved_calm _ _ _ _ M Hc). lia.
  - destruct M as (x & -> & _). by st_simpl.
Qed.

Lemma key_spec ps c t s : calm s → quiet s → cons_ok (cons (dev_of s)) t → 0 ≤ c < 256 → c ≠ ctrl_P → c ≠ ctrl_U → ¬ (c = ctrl_H ∨ c = DEL) →
  let '(t', out, woke) := tty_key ps c t in
  wp (k <- get_cons ;;
      if decide (c ≠ 0 ∧ u32 (ce k - cr k) < INPUT_BUF_SIZE) then
        let c := if decide (c = CR) then LF else c in
        consputc u polls c ;;
        mod_cons (λ k, set_ce (u32 (ce k + 1)) (cons_put (ce k) c k)) ;;
        k <- get_cons ;;
        if decide (c = LF ∨ c = ctrl_D ∨ u32 (ce k - cr k) = INPUT_BUF_SIZE) then
          mod_cons (λ k, set_cw (ce k) k) ;;
          wakeup cons_r
        else ret tt
      else ret tt) s (λ _ s', handled t' out woke s s').
Proof.
  intros Hc Hq [Hk Hl] Hb HP HU HH. destruct t as [r l]. unfold tty_key. rewrite (decide_False (P := c = ctrl_P)) by done. rewrite (decide_False (P := c = ctrl_U)), (decide_False (P := _ ∨ _)) by done.
  cbn [ready line] in *. case_decide as Hroom.
  { unfold get_cons, get_dev. wp_go. rewrite (rep_count _ _ _ Hk), decide_False by lia. apply wp_ret. apply (handled_quiet (cons (dev_of s))); [apply kmoved_refl|done]. }
  cbv zeta. set (c' := if decide (c = CR) then LF else c).
  assert (0 ≤ c' < 256) as Hb' by (unfold c', LF; case_decide; lia).
  assert (Printf.consputc c' = [c']) as Ec.
  { unfold Printf.consputc, BACKSPACE. rewrite decide_False by lia. f_equal. by apply wrap_small. }
  pose proof (rep_append _ _ _ Hk c' ltac:(lia) Hb') as Hk2.
  case_decide as Hend; unfold get_cons, get_dev; wp_go; rewrite (rep_count _ _ _ Hk), decide_True by lia; wp_go;
    (eapply wp_mono; [by apply echo_spec|]); intros [] s1 M1; wp_go; rewrite Ec in M1;
    (eapply wp_mono; [apply set_cons_spec|]); intros [] s2 M2; rewrite (kmoved_cons _ _ _ _ M1) in M2;
    pose proof (kmoved_trans _ _ _ _ _ _ _ M1 M2) as M12; rewrite app_nil_r in M12; wp_go;
    rewrite (kmoved_cons _ _ _ _ M12), (rep_count _ _ _ Hk2); [rewrite decide_True by done|rewrite decide_False by done]; wp_go.
  - eapply wp_mono; [apply set_cons_spec|]. intros [] s3 M3. rewrite (kmoved_cons _ _ _ _ M12) in M3.
    pose proof (kmoved_trans _ _ _ _ _ _ _ M12 M3) as M13. eapply wake_handled; [done| |done|done].
    split; [by apply rep_commit|set_solver].
  - eapply handled_quiet; [done|]. split; [done|]. set_solver.
Qed.

(** Nobody holds the console and the kernel is not panicking. *)
Record tty_idle (s : S) : Prop := mkIdle {
  ti_quiet : quiet s;
  ti_cons : lock_free L_cons (hw_of s);
  ti_pr : lock_free L_pr (hw_of s);
  ti_panicking : panicking (dev_of s) = 0;
  ti_panicked : panicked (dev_of s) = 0;
}.

Lemma tty_enter s : tty_idle s → let s1 := with_hw (hw_acq L_cons (hw_of s)) s in calm s1 ∧ quiet s1.
Proof.
  intros [Hq Hl _ ? ?]. split; [|by apply quiet_acq]. destruct Hq. split; st_simpl; auto with xv6.
  rewrite noff_acq. pose proof (noff_nonneg (hw_of s) ltac:(done)). lia.
Qed.

(** The state after key [c] was handled. *)
Definition typed (t : tty) (out : list Z) (woke : bool) (s s' : S) : Prop :=
  ∃ k x pt, s' = with_pt pt (with_dev (set_io x (set_cons k (dev_of s))) (with_hw (hw_settle (hw_of s)) s)) ∧
    cons_ok k t ∧ sent x = sent (io (dev_of s)) ++ out ∧
    if woke then wq_inv pt ∧ keeps (λ _ p, wake1 cons_r p) (pt_of s) pt else pt = pt_of s.

Lemma tty_leave t out woke s s1 : tty_idle s → handled t out woke (with_hw (hw_acq L_cons (hw_of s)) s) s1 →
  wp (release L_cons) s1 (λ _ s', typed t out woke s s').
Proof.
  intros Hi (k & s2 & pt & (x & -> & Hx) & Hk & -> & Hw). st_simpl.
  eapply (wp_release _ _ (hw_of s)); [by st_simpl|apply Hi|apply Hi|]. exists k, x, pt. st_simpl. done.
Qed.

Lemma consoleintr_key c t s : tty_idle s → cons_ok (cons (dev_of s)) t → 0 ≤ c < 256 →
  (c = ctrl_P → length (procs (pt_of s)) = Z.to_nat NPROC) →
  let '(t', out, woke) := tty_key (u8 <$> process_list (pt_of s)) c t in
  wp (consoleintr u polls cons_r c) s (λ _ s', typed t' out woke s s').
Proof.
  intros Hi Hk Hb HP. destruct (tty_key _ c t) as [[t' out] woke] eqn:Et. destruct (tty_enter s Hi) as [Hc Hq].
  unfold consoleintr. wp_go. apply wp_acquire; [apply Hi|]. wp_go. set (s1 := with_hw _ s) in *.
  assert (cons_ok (cons (dev_of s1)) t ∧ pt_of s1 = pt_of s) as [Hk1 Ept] by (unfold s1; by st_simpl).
  match goal with |- wp ?m _ _ => enough (wp m s1 (λ _ s', handled t' out woke s1 s')) as Hm end.
  { eapply wp_mono; [exact Hm|]. intros [] s2. by apply tty_leave. }
  destruct (decide (c = ctrl_P)) as [->|HnP];
    [|destruct t as [r l]; destruct (decide (c = ctrl_U)) as [HU|HU]; [|destruct (decide (c = ctrl_H ∨ c = DEL)) as [HH|HH]]].
  - unfold tty_key in Et. rewrite decide_True in Et by done. injection Et as <- <- <-. rewrite <- Ept.
    eapply wp_mono; [apply procdump_spec; [done| |by rewrite Ept; apply HP]|].
    { unfold s1. st_simpl. apply lock_free_acq; [done|apply Hi]. }
    intros [] s2 (x & -> & Hx). apply (handled_quiet (cons (dev_of s1))); [by exists x|done].
  - unfold get_cons, get_dev. wp_go. unfold tty_key in Et. rewrite decide_False, (decide_True (P := c = ctrl_U)) in Et by done.
    injection Et as <- <- <-. rewrite (rep_line _ _ _ (proj1 Hk1)), Nat2Z.id.
    eapply wp_mono; [apply (kill_line_spec r l); [cbn [line]; lia|done|done]|]. intros [] s2 (k & M & Hk2). by eapply handled_quiet.
  - unfold get_cons, get_dev. wp_go. unfold tty_key in Et. rewrite decide_False, decide_False, (decide_True (P := _ ∨ _)) in Et by done.
    injection Et as <- <- <-. cbn [ready line].
    pose proof (rep_edited _ _ _ (proj1 Hk1)) as He. destruct l as [|b l _] using rev_ind.
    + rewrite decide_False, decide_True by naive_solver. apply wp_ret. eapply handled_quiet; [apply kmoved_refl|done].
    + rewrite decide_True, decide_False by (rewrite ?He; by destruct l). wp_go.
      eapply wp_mono; [apply set_cons_spec|]. intros [] s2 M2.
      eapply wp_mono; [apply echo_spec; by eapply kmoved_calm|]. intros [] s3 M3. rewrite (kmoved_cons _ _ _ _ M2) in M3.
      rewrite removelast_last. eapply handled_quiet; [by eapply (kmoved_trans _ _ [])|]. destruct Hk1 as [Hr Hl].
      split; [by eapply rep_erase|]. set_solver.
  - pose proof (key_spec (u8 <$> process_list (pt_of s)) c (mkTty r l) s1 Hc Hq Hk1 Hb HnP HU HH) as Hs. by rewrite Et in Hs.
Qed.

End Intr.

(** ** Reading from the terminal *)

(** What a read of [n] bytes delivers and leaves: up to and including a
    newline; ^D ends it, and is consumed only by a read that delivers nothing. *)
Fixpoint tty_read (n : nat) (first : bool) (q : list Z) : list Z * list Z :=
  match n, q with
  | O, _ | _, [] => ([], q)
  | Datatypes.S n, b :: q' =>
      if decide (b = ctrl_D) then ([], if first then q' else q)
      else if decide (b = LF) then ([b], q')
      else let '(d, rest) := tty_read n false q' in (b :: d, rest)
  end.

Lemma tty_read_le n : ∀ first q, (length (tty_read n first q).1 ≤ n)%nat.
Proof.
  induction n as [|n IH]; intros first [|b q]; simpl; try lia. case_decide; [simpl; lia|]. case_decide; [simpl; lia|].
  specialize (IH false q). destruct (tty_read n false q). simpl in *. lia.
Qed.

(** A read of [n] bytes does not have to wait. *)
Fixpoint available (n : nat) (q : list Z) : bool :=
  match n, q with
  | O, _ => true
  | _, [] => false
  | Datatypes.S n, b :: q' => bool_decide (b = ctrl_D) || bool_decide (b = LF) || available n q'
  end.

Section Read.
Context {S U : Type} `{HasDev S U}.
Variables (kend : Z) (patience : nat) (cons_r root top size : Z).
Notation ul s T va := (uload (bytes (pm_of s)) T va).

Lemma copy_pre_dev (s : S) l T d : copy_pre kend s l T root top size → copy_pre kend (with_dev d s) l T root top size.
Proof.
  intros [[[Hca Hkm Hwf Hf] Htop Hd Hi] Hgu [Hcpu (i & p & Hc & Hp & Hr & Hz) Hs Ht]]. destruct Hca.
  split; [split; [split; [split|..]|..]| |split]; st_simpl; try done.
  - intros va. st_simpl. apply Hgu.
  - exists i, p. done.
Qed.

Lemma either_copyout_one dst b (s : S) l T :
  copy_pre kend s l T root top size → 1 ≤ noff (mycpu (hw_of s)) → 0 ≤ dst < top →
  wp (either_copyout kend (D_user dst) [b]) s (λ r s', ∃ l' T' pm, s' = with_pm pm s ∧ copied kend s l T root top dst 1 s' l' T' ∧
    (r = -1 ∧ ¬ uwritable (bytes (pm_of s)) T dst ∨ r = 0 ∧ ul s' T' dst = Some (u8 b))).
Proof.
  intros Hpre Hn Hd. destruct (pre_cur _ _ _ _ _ _ _ Hpre) as [Hcpu (i & p & Hc & Hp & Hr & _) _ _].
  pose proof (us_top _ _ _ _ _ _ (pre_ok _ _ _ _ _ _ _ Hpre)). assert (MAXVA = 2 ^ 38) by done.
  unfold either_copyout. wp_go. eapply wp_curproc; [done..|]. wp_go.
  rewrite hw_settle_nested by (done || lia). st_simpl. eapply wp_proc_at; [done|]. rewrite Hr. unfold copyout.
  eapply wp_mono; [apply (copyout_loop_spec kend 2 dst [b] s l T root top size Hpre); simpl; lia|].
  intros r s1 (l1 & T1 & Hcp & Ho). change (Z.of_nat (length [b])) with 1 in *. simpl length in Ho.
  destruct (vstate_nested s s1) as [pm ->]; [apply Hcp|done|done|]. exists l1, T1, pm. split_and!; [done..|].
  destruct Ho as [[-> Hnw]|[-> Hw]]; [left|right]; (split; [done|]).
  - destruct (Hnw ltac:(lia)) as (j & Hj & Hu). replace j with 0 in Hu by lia. by rewrite Z.add_0_r in Hu.
  - specialize (Hw 0%nat ltac:(lia)). by rewrite Z.add_0_r in Hw.
Qed.

(** [d] has been stored at [dst], the console became [k]; what user code read
    outside the [n] bytes at [dst] is still there. *)
Record delivered (dst n : Z) (s : S) (T : ptree) (d : list Z) (k : consst) (s' : S) (T' : ptree) : Prop := mkDelivered {
  dl_state : ∃ pm, s' = with_pm pm (with_dev (set_cons k (dev_of s)) s);
  dl_bytes : ∀ j b, d !! j = Some b → ul s' T' (dst + Z.of_nat j) = Some (u8 b);
  dl_keep : ∀ va b, 0 ≤ va < top → (va < dst ∨ dst + n ≤ va) → ul s T va = Some b → ul s' T' va = Some b;
  dl_pte : ∀ va, 0 ≤ va < top → valid (pte_at (bytes (pm_of s)) T va) → pte_at (bytes (pm_of s')) T' va = pte_at (bytes (pm_of s)) T va;
}.

Lemma with_cons_self (s : S) : with_dev (set_cons (cons (dev_of s)) (dev_of s)) s = s.
Proof.
  assert (∀ d : devst U, set_cons (cons d) d = d) as E by (by intros []). rewrite E. apply with_dev_of.
Qed.

Lemma delivered_skip dst n s T k : delivered dst n s T [] k (with_dev (set_cons k (dev_of s)) s) T.
Proof. split; st_simpl; try done. exists (pm_of s). by st_simpl. Qed.

Lemma delivered_none dst n s l T k pm l' T' : 0 < n →
  let s0 := with_dev (set_cons k (dev_of s)) s in
  copied kend s0 l T root top dst 1 (with_pm pm s0) l' T' → delivered dst n s T [] k (with_pm pm s0) T'.
Proof.
  intros Hn s0 Hc. assert (pm_of s0 = pm_of s) as E by (unfold s0; by st_simpl). split; [by exists pm|done| |].
  - intros va b Hva Hout. rewrite <- E. apply (cp_keep _ _ _ _ _ _ _ _ _ _ _ Hc); [done|lia].
  - intros va. rewrite <- E. apply (cp_pte _ _ _ _ _ _ _ _ _ _ _ Hc).
Qed.

Lemma delivered_cons dst n s l T b d k1 k pm1 s2 l1 T1 T2 : 0 < n → 0 ≤ dst → dst + n ≤ top →
  let s0 := with_dev (set_cons k1 (dev_of s)) s in
  let s1 := with_pm pm1 s0 in
  copied kend s0 l T root top dst 1 s1 l1 T1 → ul s1 T1 dst = Some (u8 b) →
  delivered (dst + 1) (n - 1) s1 T1 d k s2 T2 → delivered dst n s T (b :: d) k s2 T2.
Proof.
  intros Hn Hd Ht s0 s1 Hc Hb [[pm ->] Hbs Hk Hp].
  assert (pm_of s0 = pm_of s) as E0 by (unfold s0; by st_simpl). split.
  - exists pm. unfold s1, s0. by st_simpl.
  - intros [|j] x Hj; simpl in Hj.
    + injection Hj as <-. rewrite Z.add_0_r. apply Hk; [lia|lia|done].
    + rewrite <- (Hbs j x Hj). f_equal. lia.
  - intros va x Hva Hout Hx. apply Hk; [done|lia|]. apply (cp_keep _ _ _ _ _ _ _ _ _ _ _ Hc); [done|lia|by rewrite E0].
  - intros va Hva Hv. rewrite <- E0 in *. rewrite Hp; [by apply (cp_pte _ _ _ _ _ _ _ _ _ _ _ Hc)|done|].
    by rewrite (cp_pte _ _ _ _ _ _ _ _ _ _ _ Hc).
Qed.

(** What a read of [n] bytes into user memory at [dst] did: it delivered all
    that [tty_read] says, or stopped at a byte it could not store, which is
    lost. *)
Definition read_done (n : nat) (first : bool) (q ln : list Z) (dst : Z) (s : S) (T : ptree) (d : list Z) (s' : S) (T' : ptree) : Prop :=
  ∃ k rest, delivered dst (Z.of_nat n) s T d k s' T' ∧ cons_ok k (mkTty rest ln) ∧
    ((d, rest) = tty_read n first q ∨
     (length d < length (tty_read n first q).1)%nat ∧ d = take (length d) q ∧ rest = drop (Datatypes.S (length d)) q ∧
       ¬ uwritable (bytes (pm_of s)) T (dst + Z.of_nat (length d))).

Lemma consoleread_loop_spec target ln n : ∀ s l T q dst,
  copy_pre kend s l T root top size → 1 ≤ noff (mycpu (hw_of s)) → cons_ok (cons (dev_of s)) (mkTty q ln) →
  available n q → Z.of_nat n ≤ target → 0 ≤ dst → dst + Z.of_nat n ≤ top →
  wp (consoleread_loop kend (Datatypes.S patience) cons_r n (D_user dst) (Z.of_nat n) target) s (λ r s', ∃ T' d,
    r = Some (Z.of_nat n - Z.of_nat (length d)) ∧ read_done n (bool_decide (Z.of_nat n = target)) q ln dst s T d s' T').
Proof.
  induction n as [|n IH]; intros s l T q dst Hpre Hn Hk Hav Ht Hd Htop.
  { apply wp_ret. exists T, []. split; [done|]. exists (cons (dev_of s)), q. split; [|split; [done|by left]].
    pose proof (delivered_skip dst 0 s T (cons (dev_of s))) as Hs. by rewrite with_cons_self in Hs. }
  destruct q as [|b q]; [done|]. destruct Hk as [Hk Hl]. destruct (rep_pop _ _ _ Hk b q eq_refl) as (Eb & Hk1 & Eback).
  cbn [consoleread_loop]. rewrite decide_True by lia. cbn [cons_wait]. unfold get_cons, get_dev, mod_cons, mod_dev. wp_go.
  rewrite decide_False; cycle 1.
  { rewrite (cr_w _ _ Hk). rewrite <- (wrap_small 32 (cr (cons (dev_of s)))) at 1 by apply Hk. fold u32.
    rewrite <- (Z.add_0_r (cr _)) at 1. pose proof (rep_small _ _ _ Hk). cbn [ready] in *. rewrite u32_same by lia. simpl. lia. }
  wp_go. rewrite Eb. unfold read_done. set (R := tty_read _ _ (b :: q)). set (k1 := set_cr _ _) in Hk1. cbn [available] in Hav.
  destruct (decide (b = ctrl_D)) as [HD|HD].
  { assert (R = ([], if bool_decide (Z.of_nat (Datatypes.S n) = target) then q else b :: q)) as ->.
    { unfold R. cbn [tty_read]. by rewrite decide_True. }
    wp_go. destruct (decide (Z.of_nat (Datatypes.S n) < target)) as [Hlt|Hlt]; wp_go; st_simpl; exists T, []; (split; [f_equal; simpl; lia|]).
    - rewrite bool_decide_eq_false_2 by lia. exists (cons (dev_of s)), (b :: q). split; [|split; [done|by left]].
      pose proof (delivered_skip dst (Z.of_nat (Datatypes.S n)) s T (cons (dev_of s))) as Hs.
      replace (set_cons _ _) with (set_cons (cons (dev_of s)) (dev_of s)); [done|].
      unfold set_cons, set_cr. simpl. rewrite Eback. by destruct (cons (dev_of s)).
    - rewrite bool_decide_eq_true_2 by lia. exists k1, q. split; [apply delivered_skip|]. split; [done|by left]. }
  wp_go. set (s0 := with_dev _ s). eapply wp_mono.
  { apply (either_copyout_one dst b s0 l T); [by apply copy_pre_dev|unfold s0; by st_simpl|lia]. }
  intros r s1 (l1 & T1 & pm1 & -> & Hcp & Hr).
  assert (pm_of s0 = pm_of s) as E0 by (unfold s0; by st_simpl).
  assert (∃ d rest, R = (b :: d, rest) ∧ (d, rest) = if decide (b = LF) then ([], q) else tty_read n false q) as (d & rest & -> & ER).
  { unfold R. cbn [tty_read]. rewrite decide_False by done. 
    destruct (decide (b = LF)) as [HL|HL]; [by exists [], q|]. destruct (tty_read n false q) as [d rest]. by exists d, rest. }
  destruct Hr as [[-> Hnw]|[-> Hw]].
  { rewrite decide_True by done. apply wp_ret. exists T1, []. split; [f_equal; simpl; lia|]. exists k1, q.
    split; [eapply delivered_none; [lia|exact Hcp]|]. split; [done|]. right. rewrite E0 in Hnw. rewrite Z.add_0_r.
    split_and!; try done. simpl. lia. }
  rewrite (decide_False (P := 0 = -1)) by done. destruct (decide (b = LF)) as [HL|HL].
  { apply wp_ret. exists T1, [b]. split; [f_equal; simpl; lia|]. exists k1, q. injection ER as -> ->. split; [|split; [done|by left]].
    eapply delivered_cons; [lia|lia|lia|exact Hcp|exact Hw|].
    pose proof (delivered_skip (dst + 1) (Z.of_nat (Datatypes.S n) - 1) (with_pm pm1 s0) T1 (cons (dev_of (with_pm pm1 s0)))) as Hs.
    rewrite with_cons_self in Hs. unfold s0 in *. st_simpl. exact Hs. }
  rewrite !bool_decide_eq_false_2 in Hav by done. cbn [orb] in Hav. cbn [dest_add].
  pose proof (us_top _ _ _ _ _ _ (pre_ok _ _ _ _ _ _ _ Hpre)). assert (MAXVA = 2 ^ 38) by done.
  unfold u64. rewrite wrap_small by lia. replace (Z.of_nat (Datatypes.S n) - 1) with (Z.of_nat n) by lia.
  assert (copy_pre kend s0 l T root top size) as Hpre0 by (by apply copy_pre_dev).
  eapply wp_mono; [apply (IH (with_pm pm1 s0) l1 T1 q (dst + 1))|].
  - by eapply copy_pre_copied.
  - unfold s0. by st_simpl.
  - unfold s0. by st_simpl.
  - done.
  - lia.
  - lia.
  - lia.
  - intros r s2 (T2 & d2 & -> & k2 & rest2 & Hdl & Hk2 & Hr). exists T2, (b :: d2). split; [f_equal; simpl; lia|].
    pose proof (tty_read_le n false q) as Hle. rewrite bool_decide_eq_false_2 in Hr by lia. rewrite <- ER in Hr, Hle. exists k2, rest2. split; [|split; [done|]].
    { eapply delivered_cons; [lia|lia|lia|exact Hcp|exact Hw|]. by replace (Z.of_nat (Datatypes.S n) - 1) with (Z.of_nat n) by lia. }
    destruct Hr as [[= -> ->]|(Hlen & Hd2 & -> & Hnw)]; [by left|right]. simpl in *. split_and!; [lia|by f_equal|done|].
    replace (dst + Z.of_nat (Datatypes.S (length d2))) with (dst + 1 + Z.of_nat (length d2)) by lia. rewrite <- E0.
    eapply (uwritable_mono top); [|lia|exact Hnw]. apply (cp_pte _ _ _ _ _ _ _ _ _ _ _ Hcp).
Qed.

End Read.
