(* ===== verification/ConsoleTheorems.v ===== *)
(** * Properties of the console

    The interrupt handler and consoleread against the terminal of Console.v,
    and the concrete machine they are evaluated on: the one of
    AddressSpace.v with a UART that is always idle and keeps what it sent. *)

From S2P Require Import Prelude Params CString Spinlock ProcDefs WaitQueue Sched Memory Kalloc PageTable Vm VmSpec UserMem CopyUser AddressSpace Pipe FsDefs Seq Fs File FsExample Printf Device Uart Console.

(** ** From one system call or interrupt to the next *)

Section Calls.
Context {S U : Type} `{HasDev S U}.
Context (u : mmio U) (polls : nat) `{!Uart16550 u polls} (cons_r : Z).

Lemma typed_idle t out woke (s s' : S) : tty_idle s → typed u polls cons_r t out woke s s' → tty_idle s'.
Proof.
  intros [[Hcpu Hw Hp Hi] Hc Hr Ha Hb] (k & x & pt & -> & Hk & Hx & Hwoke).
  assert (wq_inv pt ∧ ∃ f, keeps f (pt_of s) pt) as [Hi' [f Hf]].
  { destruct woke; [destruct Hwoke; eauto|]. subst pt. split; [done|]. eexists. apply keeps_refl. }
  split; st_simpl; try done. split; st_simpl; try done; [auto with xv6|].
  intros j p Hj. apply lock_free_settle. eapply plocks_free_keeps; [exact Hf|exact Hp|exact Hj].
Qed.

(** The user process that reads from the console. *)
Record reader (kend : Z) (s : S) (l : list Z) (T : ptree) (root top size : Z) : Prop := mkReader {
  rd_copy : copy_pre kend s l T root top size;
  rd_lock : lock_free L_cons (hw_of s);
}.

Lemma consoleread_spec kend patience root top size dst n (s : S) l T q ln :
  reader kend s l T root top size → cons_ok (cons (dev_of s)) (mkTty q ln) → available n q →
  Z.of_nat n < 2 ^ 31 → 0 ≤ dst → dst + Z.of_nat n ≤ top →
  wp (consoleread kend (Datatypes.S patience) cons_r 1 dst (Z.of_nat n)) s (λ r s', ∃ T' d s1,
    r = Z.of_nat (length d) ∧ read_done top n true q ln dst s T d s1 T' ∧ s' = with_hw (hw_settle (hw_of s)) s1).
Proof.
  intros [Hpre Hl] Hk Hav Hn Hd Htop. pose proof (uc_cpu _ _ _ _ (pre_cur _ _ _ _ _ _ _ Hpre)) as Hcpu.
  unfold consoleread. rewrite decide_True by done. cbv zeta. wp_go. apply wp_acquire; [done|]. wp_go.
  unfold u32. rewrite Nat2Z.id, wrap_small by lia. set (s1 := with_hw _ s).
  eapply wp_mono; [apply (consoleread_loop_spec kend patience cons_r root top size _ ln n s1 l T q dst)|].
  - apply copy_pre_hw; [done|auto with xv6| |by rewrite cproc_acq]. apply lock_free_acq; [done|].
    apply (ca_lock _ (vo_alloc _ _ _ _ _ (us_vm _ _ _ _ _ _ (pre_ok _ _ _ _ _ _ _ Hpre)))).
  - unfold s1. st_simpl. rewrite noff_acq. pose proof (noff_nonneg _ Hcpu). lia.
  - unfold s1. by st_simpl.
  - done.
  - lia.
  - done.
  - done.
  - rewrite bool_decide_eq_true_2 by done. intros r s2 (T' & d & -> & k & rest & [[pm ->] Hb Hkp Hpt] & Hk2 & Hr).
    wp_go. unfold s1 in *. st_simpl. eapply (wp_release _ _ (hw_of s)); [by st_simpl|done|done|]. apply wp_ret.
    exists T', d, (with_pm pm (with_dev (set_cons k (dev_of s)) s)). split; [|split; [|by st_simpl]].
    + rewrite i32_small; [lia|]. destruct Hr as [Hr|(Hr & _)]; pose proof (tty_read_le n true q) as Hle; [rewrite <- Hr in Hle|]; simpl in *; lia.
    + exists k, rest. split; [|done]. split; st_simpl; try done. exists pm. by st_simpl.
Qed.
End Calls.

(** ** A concrete machine with a console *)

(* a UART that is always ready to send and has no input *)
Definition ex_uart : mmio (list Z) := mkMmio _
  (λ reg x, (if decide (reg = LSR) then LSR_TX_IDLE else 0, x))
  (λ reg v x, if decide (reg = THR) then x ++ [v] else x).
#[global] Instance ex_uart_laws : Uart16550 ex_uart 1.
Proof. refine {| sent x := x; busy_for _ := 0%nat |}; [lia|by intros; vm_compute|done|done|done]. Defined.

Definition ex_tty_hw : hw := add_locks [L_cons; L_pr; L_uart] ex_vm_hw.
(* "hi", a newline and "yo" typed, with the indices about to wrap *)
Definition ex_cons : consst :=
  mkCons (<[3%nat := 111]> (<[2%nat := 121]> (<[1%nat := 10]> (<[0%nat := 105]> (<[127%nat := 104]> (replicate 128 0))))))
    4294967295 2 4.
Definition ex_kern : kern (list Z) :=
  mkKern (mkKst ex_tty_hw ex_vm_table (mkPmem ex_links (ex_page 1)) (ex_fs (λ _, []))) (mkDev ex_cons 0 0 0 0 (λ _, 0) (mkVdisk [] 0 [] 0 [] [] 0 [] []) 0 0 1 []).

Lemma ex_tty_free lk : lk ∈ [L_cons; L_pr; L_uart] ∨ lock_free lk ex_vm_hw → lock_free lk ex_tty_hw.
Proof. apply free_add_locks. Qed.

Lemma ex_tty_idle : tty_idle ex_kern.
Proof.
  destruct (ex_vm_quiet (mkPmem ex_links (ex_page 1))) as [Hc Hw Hp Hi].
  split; [|apply ex_tty_free; left; set_solver..|done|done]. split.
  - destruct Hc as (c & Hc & Hn). by exists c.
  - intros b Hb. by apply ex_tty_free; right; apply Hw.
  - intros j q Hj. apply ex_tty_free. right. by eapply (Hp j q).
  - exact Hi.
Qed.

Lemma ex_cons_ok : cons_ok ex_cons (mkTty [104; 105; 10] [121; 111]).
Proof.
  split; [split; try done|].
  - intros j b Hj. do 5 (destruct j as [|j]; [injection Hj as <-; by vm_compute|]). done.
  - apply (bool_decide_unpack _). vm_compute. exact I.
Qed.

(* the same machine with a process table of full size *)
Definition ex_ps_table : ptab := mkPtab (procs ex_vm_table ++ replicate 60 (ex_proc 0 UNUSED)) (replicate 16 None) 5 (Some 0%nat).
Definition ex_ps_kern : kern (list Z) :=
  mkKern (mkKst (add_locks (lkp <$> seq 4 60) ex_tty_hw) ex_ps_table (mkPmem ex_links (ex_page 1)) (ex_fs (λ _, []))) (dev_of ex_kern).

Lemma ex_ps_idle : tty_idle ex_ps_kern.
Proof.
  destruct ex_tty_idle as [[Hc Hw Hp Hi] H1 H2 H3 H4].
  split; [split|apply free_add_locks; by right..|done|done].
  - destruct Hc as (c & Hc & Hn). by exists c.
  - intros b Hb. apply free_add_locks. right. by apply Hw.
  - intros j q Hj. apply free_add_locks. destruct (decide (j < 4)%nat) as [Hlt|].
    + right. destruct (lookup_lt_is_Some_2 (procs ex_vm_table) j Hlt) as [q' Hq]. by eapply (Hp j q').
    + left. apply list_elem_of_fmap. exists j. split; [done|]. apply elem_of_seq. apply lookup_lt_Some in Hj.
      change (j < 64)%nat in Hj. lia.
  - eexists. apply wq_ok_empty; [done| |].
    + intros b Hb. do 16 (destruct b as [|b]; [done|]). lia.
    + intros i p [Hp'|[_ [-> _]%lookup_replicate]]%lookup_app_Some; [|done].
      do 4 (destruct i as [|i]; [by injection Hp' as <-|]). done.
Qed.

Lemma ex_reader : reader KERNBASE ex_kern ex_free {[[] := ex_root]} ex_root TRAPFRAME 8192.
Proof.
  destruct ex_copy_pre as [[[Hca Hkm Hwf Hf] Htop Hd Hi] Hgu [Hcpu (i & p & Hc & Hp & Hr & Hz) Hs Ht]]. destruct Hca as [Ha1 Ha2].
  split; [split; [split; [split; [split|..]|..]| |split]|]; try done.
  - exists i, p. done.
  - apply ex_tty_free. left. set_solver.
Qed.

(** ** The theorems *)

(** C9 Refinement of the terminal by the ring buffer.  With any UART that
    keeps its data sheet's promises, a key typed at the console has exactly
    the effect [tty_key] gives it: ordinary keys extend the line and are
    echoed, carriage return and newline, ^D or a full buffer hand the line to
    the readers and wake them, backspace and delete drop the last character
    and rub it out, ^U drops the whole line but never what was already handed
    over, ^P prints the process list and leaves the terminal alone, and a key
    that finds the buffer full is dropped.  The read, write
    and edit indices may wrap around.  The handler returns, with its locks
    released and the wait queues consistent, so keys can follow each other. *)
Theorem consoleintr_refines_tty (U : Type) (u : mmio U) (polls : nat) (L : Uart16550 u polls) (cons_r c : Z) (t : tty) (s : kern U) :
  tty_idle s → cons_ok (cons (dev_of s)) t → 0 ≤ c < 256 →
  (c = ctrl_P → length (procs (pt_of s)) = Z.to_nat NPROC) →
  let '(t', out, woke) := tty_key (u8 <$> process_list (pt_of s)) c t in
  ∃ s', consoleintr u polls cons_r c s = Ok tt s' ∧ tty_idle s' ∧ typed u polls cons_r t' out woke s s'.
Proof.
  intros Hi Hk Hc HP. pose proof (consoleintr_key u polls cons_r c t s Hi Hk Hc HP) as Hw.
  destruct (tty_key _ c t) as [[t' out] woke]. apply wp_elim in Hw as ([] & s' & E & Ht).
  exists s'. split_and!; [done|by eapply typed_idle|done].
Qed.

Lemma consoleintr_refines_tty_witness :
  (∃ s', consoleintr ex_uart 1 536 CR ex_kern = Ok tt s' ∧
     typed ex_uart 1 536 (mkTty [104; 105; 10; 121; 111; 10] []) [10] true ex_kern s') ∧
  (∃ s', consoleintr ex_uart 1 536 ctrl_P ex_ps_kern = Ok tt s' ∧
     typed ex_uart 1 536 (mkTty [104; 105; 10] [121; 111])
       (10 :: str "1 runble " ++ 10 :: str "2 run    " ++ 10 :: str "3 runble " ++ 10 :: str "4 runble " ++ [10]) false ex_ps_kern s').
Proof.
  split.
  - destruct (consoleintr_refines_tty (list Z) ex_uart 1 ex_uart_laws 536 CR (mkTty [104; 105; 10] [121; 111]) ex_kern ex_tty_idle ex_cons_ok)
      as (s' & E & _ & Ht); [unfold CR; lia|discriminate|].
    exact (ex_intro _ s' (conj E Ht)).
  - pose proof (consoleintr_refines_tty (list Z) ex_uart 1 ex_uart_laws 536 ctrl_P (mkTty [104; 105; 10] [121; 111]) ex_ps_kern ex_ps_idle ex_cons_ok) as Hp.
    replace (u8 <$> process_list (pt_of ex_ps_kern)) with
      (10 :: str "1 runble " ++ 10 :: str "2 run    " ++ 10 :: str "3 runble " ++ 10 :: str "4 runble " ++ [10]) in Hp by (vm_compute; reflexivity).
    destruct Hp as (s' & E & _ & Ht); [unfold ctrl_P, C; lia|reflexivity|].
    exact (ex_intro _ s' (conj E Ht)).
Defined.

(** C39 A read from the console that need not wait returns one line at most:
    when the bytes ready satisfy a read of [n] bytes, consoleread returns without sleeping,
    stores at [dst] exactly what [tty_read] says (up to [n] bytes, ending
    after a newline or before ^D, which a read that delivers nothing
    consumes), removes exactly that from the buffer and leaves the line being
    edited and all other user memory alone.  If user memory is not writable at
    some byte it stops there, having consumed that byte. *)
Theorem consoleread_takes_line (U : Type) (kend cons_r root top size dst : Z) (patience n : nat) (s : kern U) (l : list Z) (T : ptree)
    (q ln : list Z) :
  reader kend s l T root top size → cons_ok (cons (dev_of s)) (mkTty q ln) → available n q →
  Z.of_nat n < 2 ^ 31 → 0 ≤ dst → dst + Z.of_nat n ≤ top →
  ∃ T' d s1, consoleread kend (S patience) cons_r 1 dst (Z.of_nat n) s = Ok (Z.of_nat (length d)) (with_hw (hw_settle (hw_of s)) s1) ∧
    read_done top n true q ln dst s T d s1 T'.
Proof.
  intros A1 A2 A3 A4 A5 A6.
  pose proof (consoleread_spec cons_r kend patience root top size dst n s l T q ln A1 A2 A3 A4 A5 A6)
    as (r & s' & E & T' & d & s1 & -> & Hr & ->)%wp_elim. eauto.
Qed.

Lemma consoleread_takes_line_witness : ∃ T' d s1,
  consoleread KERNBASE 1 536 1 4094 100 ex_kern = Ok (Z.of_nat (length d)) (with_hw (hw_settle (hw_of ex_kern)) s1) ∧
  read_done TRAPFRAME 100 true [104; 105; 10] [121; 111] 4094 ex_kern {[[] := ex_root]} d s1 T'.
Proof.
  apply (consoleread_takes_line (list Z) KERNBASE 536 ex_root TRAPFRAME 8192 4094 0 100 ex_kern ex_free {[[] := ex_root]} [104; 105; 10] [121; 111] ex_reader).
  - exact ex_cons_ok.
  - exact I.
  - lia.
  - lia.
  - vm_compute. discriminate.
Defined.
