(* ===== verification/Virtio.v ===== *)
(** * The disk driver (kernel/virtio_disk.c)

    Requests travel to the device as chains of three descriptors through the
    available ring and come back through the used ring.  [vaddr] names what a
    descriptor points to; [buf_addr b] is the address of buffer [b] and
    [free_chan] that of [disk.free], the channels the driver sleeps on. *)

From S2P Require Import Prelude Params CString Spinlock ProcDefs WaitQueue Sched Memory Kalloc FsDefs Seq Sleeplock Bio Device.

(* virtio.h *)
Definition VIRTIO_MMIO_MAGIC_VALUE : Z := 0x000.
Definition VIRTIO_MMIO_VERSION : Z := 0x004.
Definition VIRTIO_MMIO_DEVICE_ID : Z := 0x008.
Definition VIRTIO_MMIO_VENDOR_ID : Z := 0x00c.
Definition VIRTIO_MMIO_DEVICE_FEATURES : Z := 0x010.
Definition VIRTIO_MMIO_DRIVER_FEATURES : Z := 0x020.
Definition VIRTIO_MMIO_QUEUE_SEL : Z := 0x030.
Definition VIRTIO_MMIO_QUEUE_NUM_MAX : Z := 0x034.
Definition VIRTIO_MMIO_QUEUE_NUM : Z := 0x038.
Definition VIRTIO_MMIO_QUEUE_READY : Z := 0x044.
Definition VIRTIO_MMIO_QUEUE_NOTIFY : Z := 0x050.
Definition VIRTIO_MMIO_INTERRUPT_STATUS : Z := 0x060.
Definition VIRTIO_MMIO_INTERRUPT_ACK : Z := 0x064.
Definition VIRTIO_MMIO_STATUS : Z := 0x070.
Definition VIRTIO_MMIO_QUEUE_DESC_LOW : Z := 0x080.
Definition VIRTIO_MMIO_QUEUE_DESC_HIGH : Z := 0x084.
Definition VIRTIO_MMIO_DRIVER_DESC_LOW : Z := 0x090.
Definition VIRTIO_MMIO_DRIVER_DESC_HIGH : Z := 0x094.
Definition VIRTIO_MMIO_DEVICE_DESC_LOW : Z := 0x0a0.
Definition VIRTIO_MMIO_DEVICE_DESC_HIGH : Z := 0x0a4.
Definition VIRTIO_CONFIG_S_ACKNOWLEDGE : Z := 1.
Definition VIRTIO_CONFIG_S_DRIVER : Z := 2.
Definition VIRTIO_CONFIG_S_DRIVER_OK : Z := 4.
Definition VIRTIO_CONFIG_S_FEATURES_OK : Z := 8.
Definition VIRTIO_BLK_F_RO : Z := 5.
Definition VIRTIO_BLK_F_SCSI : Z := 7.
Definition VIRTIO_BLK_F_CONFIG_WCE : Z := 11.
Definition VIRTIO_BLK_F_MQ : Z := 12.
Definition VIRTIO_F_ANY_LAYOUT : Z := 27.
Definition VIRTIO_RING_F_INDIRECT_DESC : Z := 28.
Definition VIRTIO_RING_F_EVENT_IDX : Z := 29.
Definition NUM : Z := 8.
Definition VRING_DESC_F_NEXT : Z := 1.
Definition VRING_DESC_F_WRITE : Z := 2.
Definition VIRTIO_BLK_T_IN : Z := 0.
Definition VIRTIO_BLK_T_OUT : Z := 1.

Definition set_bdisk x b := mkBuf (bvalid b) x (bdev b) (blockno b) (refcnt b) (bprev b) (bnext b) (data b).

(* disk.desc[i], disk.info[i] and the like *)
Definition desc0 : virtq_desc := mkDesc A_null 0 0 0.
Definition desc_at (i : Z) (v : vdisk) : virtq_desc := default desc0 (vdesc v !! Z.to_nat i).
Definition put_desc (i : Z) (d : virtq_desc) (v : vdisk) : vdisk := set_vdesc (<[Z.to_nat i := d]> (vdesc v)) v.
Definition free_at (i : Z) (v : vdisk) : Z := default 0 (vfree v !! Z.to_nat i).
Definition put_free (i x : Z) (v : vdisk) : vdisk := set_vfree (<[Z.to_nat i := x]> (vfree v)) v.
Definition info_at (i : Z) (v : vdisk) : vinfo := default (mkInfo None 0) (info v !! Z.to_nat i).
Definition put_info (i : Z) (x : vinfo) (v : vdisk) : vdisk := set_info (<[Z.to_nat i := x]> (info v)) v.
Definition put_op (i : Z) (x : blk_req) (v : vdisk) : vdisk := set_vops (<[Z.to_nat i := x]> (vops v)) v.
Definition set_info_b b x := mkInfo b (i_status x).
Definition set_info_status st x := mkInfo (i_b x) st.

(* features &= ~(1 << n) *)
Definition clear_feature (n features : Z) : Z := Z.land features (Z.lnot (Z.shiftl 1 n)).

Section Ops.
Context {S U : Type} `{HasDev S U}.
Variable dev : mmio U.
Variables (patience : nat) (buf_addr : nat → Z) (free_chan : Z).
Notation R_load := (mm_load dev).
Notation R_store := (mm_store dev).

Definition get_vd : M S vdisk := d <- get_dev ;; ret (vd d).

Definition virtio_disk_init : M S unit :=
  initlock L_disk "virtio_disk" ;;
  magic <- R_load VIRTIO_MMIO_MAGIC_VALUE ;;
  version <- (if decide (magic ≠ 0x74726976) then ret 0 else R_load VIRTIO_MMIO_VERSION) ;;
  id <- (if decide (version ≠ 2) then ret 0 else R_load VIRTIO_MMIO_DEVICE_ID) ;;
  vendor <- (if decide (id ≠ 2) then ret 0 else R_load VIRTIO_MMIO_VENDOR_ID) ;;
  if decide (vendor ≠ 0x554d4551) then panic "could not find virtio disk" else
  let status := 0 in
  R_store VIRTIO_MMIO_STATUS status ;;
  let status := Z.lor status VIRTIO_CONFIG_S_ACKNOWLEDGE in
  R_store VIRTIO_MMIO_STATUS status ;;
  let status := Z.lor status VIRTIO_CONFIG_S_DRIVER in
  R_store VIRTIO_MMIO_STATUS status ;;
  features <- R_load VIRTIO_MMIO_DEVICE_FEATURES ;;
  let features := clear_feature VIRTIO_BLK_F_RO features in
  let features := clear_feature VIRTIO_BLK_F_SCSI features in
  let features := clear_feature VIRTIO_BLK_F_CONFIG_WCE features in
  let features := clear_feature VIRTIO_BLK_F_MQ features in
  let features := clear_feature VIRTIO_F_ANY_LAYOUT features in
  let features := clear_feature VIRTIO_RING_F_EVENT_IDX features in
  let features := clear_feature VIRTIO_RING_F_INDIRECT_DESC features in
  R_store VIRTIO_MMIO_DRIVER_FEATURES features ;;
  let status := Z.lor status VIRTIO_CONFIG_S_FEATURES_OK in
  R_store VIRTIO_MMIO_STATUS status ;;
  status <- R_load VIRTIO_MMIO_STATUS ;;
  if decide (Z.land status VIRTIO_CONFIG_S_FEATURES_OK = 0) then panic "virtio disk FEATURES_OK unset" else
  R_store VIRTIO_MMIO_QUEUE_SEL 0 ;;
  ready <- R_load VIRTIO_MMIO_QUEUE_READY ;;
  if decide (ready ≠ 0) then panic "virtio disk should not be ready" else
  max <- R_load VIRTIO_MMIO_QUEUE_NUM_MAX ;;
  if decide (max = 0) then panic "virtio disk has no queue 0" else
  if decide (max < NUM) then panic "virtio disk max queue too short" else
  desc <- kalloc ;;
  avail <- kalloc ;;
  used <- kalloc ;;
  if decide (desc = 0 ∨ avail = 0 ∨ used = 0) then panic "virtio disk kalloc" else
  mod_vd (set_vdesc (replicate 8 desc0)) ;;
  mod_vd (λ v, set_avail_idx 0 (set_avail_ring (replicate 8 0) v)) ;;
  mod_vd (λ v, set_dev_used_idx 0 (set_dev_used_ring (replicate 8 0) v)) ;;
  R_store VIRTIO_MMIO_QUEUE_NUM NUM ;;
  R_store VIRTIO_MMIO_QUEUE_DESC_LOW desc ;;
  R_store VIRTIO_MMIO_QUEUE_DESC_HIGH (Z.shiftr desc 32) ;;
  R_store VIRTIO_MMIO_DRIVER_DESC_LOW avail ;;
  R_store VIRTIO_MMIO_DRIVER_DESC_HIGH (Z.shiftr avail 32) ;;
  R_store VIRTIO_MMIO_DEVICE_DESC_LOW used ;;
  R_store VIRTIO_MMIO_DEVICE_DESC_HIGH (Z.shiftr used 32) ;;
  R_store VIRTIO_MMIO_QUEUE_READY 0x1 ;;
  for_each (Z.to_nat NUM) 0 (λ i, mod_vd (put_free i 1)) ;;
  R_store VIRTIO_MMIO_STATUS (Z.lor status VIRTIO_CONFIG_S_DRIVER_OK).

Definition alloc_desc : M S Z :=
  r <- for_loop (Z.to_nat NUM) 0 (λ i,
    v <- get_vd ;;
    if decide (free_at i v ≠ 0) then
      mod_vd (put_free i 0) ;;
      ret (Some i)
    else ret None) ;;
  ret (default (-1) r).

Definition free_desc (i : Z) : M S unit :=
  if decide (i >= NUM) then panic "free_desc 1" else
  v <- get_vd ;;
  if decide (free_at i v ≠ 0) then panic "free_desc 2" else
  mod_vd (put_desc i desc0) ;;
  mod_vd (put_free i 1) ;;
  wakeup free_chan.

Fixpoint free_chain (fuel : nat) (i : Z) : M S unit :=
  match fuel with
  | O => λ s, Spin s
  | Datatypes.S fuel =>
      v <- get_vd ;;
      let flag := d_flags (desc_at i v) in
      let nxt := d_next (desc_at i v) in
      free_desc i ;;
      if decide (Z.land flag VRING_DESC_F_NEXT ≠ 0) then free_chain fuel nxt else ret tt
  end.

(* for(int j = 0; j < i; j++) free_desc(idx[j]); *)
Fixpoint free_all (idx : list Z) : M S unit :=
  match idx with [] => ret tt | i :: idx => free_desc i ;; free_all idx end.

(* the descriptors; None for -1 *)
Fixpoint alloc3_loop (n : nat) (idx : list Z) : M S (option (list Z)) :=
  match n with
  | O => ret (Some idx)
  | Datatypes.S n =>
      i <- alloc_desc ;;
      if decide (i < 0) then
        free_all idx ;;
        ret None
      else alloc3_loop n (idx ++ [i])
  end.
Definition alloc3_desc : M S (option (list Z)) := alloc3_loop 3 [].

(* while(1) until there are three descriptors *)
Fixpoint alloc_wait (fuel : nat) : M S (list Z) :=
  match fuel with
  | O => λ s, Spin s
  | Datatypes.S fuel =>
      r <- alloc3_desc ;;
      match r with
      | Some idx => ret idx
      | None => sleep free_chan L_disk ;; alloc_wait fuel
      end
  end.

(* formatting the request and handing it to the device *)
Definition submit (b : nat) (write : bool) (sector i0 i1 i2 : Z) : M S unit :=
  mod_vd (put_op i0 (mkReq (if write then VIRTIO_BLK_T_OUT else VIRTIO_BLK_T_IN) 0 sector)) ;;
  mod_vd (put_desc i0 (mkDesc (A_req i0) 16 VRING_DESC_F_NEXT i1)) ;;
  mod_vd (put_desc i1 (mkDesc (A_data b) BSIZE (Z.lor (if write then 0 else VRING_DESC_F_WRITE) VRING_DESC_F_NEXT) i2)) ;;
  mod_vd (λ v, put_info i0 (set_info_status 0xff (info_at i0 v)) v) ;;
  mod_vd (put_desc i2 (mkDesc (A_status i0) 1 VRING_DESC_F_WRITE 0)) ;;
  mod_buf b (set_bdisk 1) ;;
  mod_vd (λ v, put_info i0 (set_info_b (Some b) (info_at i0 v)) v) ;;
  mod_vd (λ v, set_avail_ring (<[Z.to_nat (avail_idx v mod NUM) := i0]> (avail_ring v)) v) ;;
  mod_vd (λ v, set_avail_idx (u16 (avail_idx v + 1)) v) ;;
  R_store VIRTIO_MMIO_QUEUE_NOTIFY 0.

(* while(b->disk == 1) sleep(b, &disk.vdisk_lock); *)
Fixpoint done_wait (fuel : nat) (b : nat) : M S unit :=
  match fuel with
  | O => λ s, Spin s
  | Datatypes.S fuel =>
      x <- buf_at b ;;
      if decide (bdisk x = 1) then sleep (buf_addr b) L_disk ;; done_wait fuel b else ret tt
  end.

Definition virtio_disk_rw (b : nat) (write : bool) : M S unit :=
  x <- buf_at b ;;
  let sector := u32 (blockno x * (BSIZE / 512)) in
  acquire L_disk ;;
  idx <- alloc_wait patience ;;
  match idx with
  | [i0; i1; i2] =>
      submit b write sector i0 i1 i2 ;;
      done_wait patience b ;;
      mod_vd (λ v, put_info i0 (set_info_b None (info_at i0 v)) v) ;;
      free_chain (Z.to_nat NUM + 1) i0 ;;
      release L_disk
  | _ => fault
  end.

(* while(disk.used_idx != disk.used->idx) *)
Fixpoint intr_loop (fuel : nat) : M S unit :=
  match fuel with
  | O => λ s, Spin s
  | Datatypes.S fuel =>
      v <- get_vd ;;
      if decide (used_idx v ≠ dev_used_idx v) then
        let id := default 0 (dev_used_ring v !! Z.to_nat (used_idx v mod NUM)) in
        if decide (i_status (info_at id v) ≠ 0) then panic "virtio_disk_intr status" else
        match i_b (info_at id v) with
        | None => fault
        | Some b =>
            mod_buf b (set_bdisk 0) ;;
            wakeup (buf_addr b) ;;
            mod_vd (λ v, set_used_idx (u16 (used_idx v + 1)) v) ;;
            intr_loop fuel
        end
      else ret tt
  end.

Definition virtio_disk_intr (fuel : nat) : M S unit :=
  acquire L_disk ;;
  v <- R_load VIRTIO_MMIO_INTERRUPT_STATUS ;;
  R_store VIRTIO_MMIO_INTERRUPT_ACK (Z.land v 0x3) ;;
  intr_loop fuel ;;
  release L_disk.

End Ops.
