(* ===== verification/VirtioSpec.v ===== *)
(** * Correctness of the disk driver

    The descriptor allocator, and the refinement the buffer cache relies on: a
    call of [virtio_disk_rw], with the device and the completion interrupt
    running while it sleeps, has the effect [Bio.virtio_disk_rw] on the file
    system. *)

From S2P Require Import Prelude Params CString Spinlock ProcDefs WaitQueue Sched Memory Kalloc Pipe FsDefs Seq Sleeplock Bio Device Virtio.

Section Alloc.
Context {S U : Type} `{HasDev S U}.
Variables (free_chan : Z).
Implicit Types s : S.

Definition vd_of s : vdisk := vd (dev_of s).
Definition with_vd (v : vdisk) s : S := with_dev (set_vd v (dev_of s)) s.

Lemma vd_of_with_vd v s : vd_of (with_vd v s) = v.
Proof. unfold vd_of, with_vd. by st_simpl. Qed.
Lemma with_vd_with_vd v v' s : with_vd v (with_vd v' s) = with_vd v s.
Proof. unfold with_vd. by st_simpl. Qed.
Lemma with_vd_of s : with_vd (vd_of s) s = s.
Proof.
  unfold with_vd, vd_of. assert (∀ d : devst U, set_vd (vd d) d = d) as E by (by intros []). rewrite E. apply with_dev_of.
Qed.

Lemma wp_mod_vd g s Q : Q tt (with_vd (g (vd_of s)) s) → wp (mod_vd g) s Q.
Proof. done. Qed.
Lemma wp_get_vd s Q : Q (vd_of s) s → wp get_vd s Q.
Proof. done. Qed.

Lemma free_at_put i j x v : 0 ≤ i < 8 → 0 ≤ j → length (vfree v) = 8%nat →
  free_at j (put_free i x v) = if decide (j = i) then x else free_at j v.
Proof.
  intros Hi Hj Hl. unfold free_at, put_free. simpl. case_decide as E.
  - subst. rewrite list_lookup_insert_eq by lia. done.
  - rewrite list_lookup_insert_ne by lia. done.
Qed.

(** [alloc_desc] takes the first free descriptor. *)
Lemma alloc_desc_spec s : length (vfree (vd_of s)) = 8%nat →
  wp alloc_desc s (λ r s', (r = -1 ∧ s' = s ∧ ∀ i, 0 ≤ i < 8 → free_at i (vd_of s) = 0) ∨
    (0 ≤ r < 8 ∧ free_at r (vd_of s) ≠ 0 ∧ s' = with_vd (put_free r 0 (vd_of s)) s)).
Proof.
  intros Hl. unfold alloc_desc. wp_step.
  apply (wp_for_loop _ (λ i s', s' = s ∧ ∀ j, 0 ≤ j < i → free_at j (vd_of s) = 0)).
  - split; [done|lia].
  - intros i s' Hi [-> Hj]. change (Z.of_nat (Z.to_nat NUM)) with 8 in Hi. wp_step. apply wp_get_vd. case_decide as Hf.
    + wp_step. apply wp_mod_vd. wp_go. right. cbn [default from_option id]. split_and!; [lia|lia|done|done].
    + wp_go. split; [done|]. intros j Hjj. destruct (decide (j = i)) as [->|]; [done|]. apply Hj. lia.
  - intros s' [-> Hj]. wp_go. left. split_and!; [done|done|]. intros i Hi. apply Hj. change (Z.of_nat (Z.to_nat NUM)) with 8. lia.
Qed.

(** Freeing descriptor [i] wakes those that wait for descriptors. *)
Definition freed (i : Z) (v : vdisk) : vdisk := put_free i 1 (put_desc i desc0 v).

Lemma free_desc_spec i s : quiet s → 1 ≤ noff (mycpu (hw_of s)) → 0 ≤ i < 8 → free_at i (vd_of s) = 0 →
  wp (free_desc free_chan i) s (λ _ s', ∃ t, s' = with_pt t (with_vd (freed i (vd_of s)) s) ∧ wq_inv t ∧
    keeps (λ _ p, wake1 free_chan p) (pt_of s) t).
Proof.
  intros Hq Hn Hi Hf. unfold free_desc, NUM. rewrite decide_False by lia. wp_step. apply wp_get_vd. rewrite decide_False by lia.
  wp_step. apply wp_mod_vd. wp_step. apply wp_mod_vd. rewrite vd_of_with_vd, with_vd_with_vd. fold (freed i (vd_of s)).
  assert (quiet (with_vd (freed i (vd_of s)) s)) as Hq' by (unfold with_vd; destruct Hq; split; st_simpl; done).
  destruct (wakeup_spec free_chan _ Hq') as (t & E & Hinv & Hk). eapply wp_ok; [exact E|]. exists t.
  unfold with_vd in *. st_simpl. split_and!; [|done|done]. rewrite hw_settle_nested by (apply Hq || lia). by st_simpl.
Qed.

(** The state after the descriptors [idx] were taken. *)
Definition taken (idx : list Z) (v : vdisk) : vdisk := foldl (λ v i, put_free i 0 v) v idx.

Lemma length_taken idx : ∀ v, length (vfree (taken idx v)) = length (vfree v).
Proof. induction idx as [|i idx IH]; intros v; [done|]. cbn [taken foldl]. fold (taken idx (put_free i 0 v)). rewrite IH. apply length_insert. Qed.

Lemma taken_snoc idx i v : taken (idx ++ [i]) v = put_free i 0 (taken idx v).
Proof. unfold taken. by rewrite foldl_app. Qed.

Definition ids_ok (idx : list Z) : Prop := NoDup idx ∧ Forall (λ i, 0 ≤ i < 8) idx.

Lemma free_at_taken idx v j : length (vfree v) = 8%nat → Forall (λ i, 0 ≤ i < 8) idx → 0 ≤ j →
  free_at j (taken idx v) = if decide (j ∈ idx) then 0 else free_at j v.
Proof.
  intros Hl Hr Hj. induction idx as [|i idx IH] using rev_ind; [done|]. rewrite taken_snoc.
  apply Forall_app in Hr as [Hr [Hi _]%list.Forall_cons]. rewrite free_at_put by (rewrite ?length_taken; done). rewrite IH by done.
  repeat case_decide; set_solver.
Qed.

(** Descriptors that are all taken can all be given back. *)
Lemma keeps_wake_trans (f : Z) t1 t2 t3 : keeps (λ _ p, wake1 f p) t1 t2 → keeps (λ _ p, wake1 f p) t2 t3 → keeps (λ _ p, wake1 f p) t1 t3.
Proof.
  intros K1 K2. eapply keeps_ext; [|eapply keeps_trans; [|exact K1|exact K2]; intros; apply wake1_set_wqe].
  intros i p _. unfold wake1. destruct (decide (state p = SLEEPING ∧ chan p = f)) as [E|E]; [|by rewrite decide_False].
  rewrite decide_False; [done|]. by intros [? _].
Qed.

Lemma quiet_keeps f s t v : quiet s → keeps f (pt_of s) t → wq_inv t → quiet (with_pt t (with_vd v s)).
Proof.
  intros [Hc Hw Hp Hi] Hk Hinv. unfold with_vd. split; st_simpl; try done. eapply plocks_free_keeps; [exact Hk|done].
Qed.

Definition gave_back (idx : list Z) (v : vdisk) : vdisk := foldl (λ v i, freed i v) v idx.

Lemma free_all_spec idx : ∀ s, quiet s → 1 ≤ noff (mycpu (hw_of s)) → length (vfree (vd_of s)) = 8%nat → ids_ok idx →
  (∀ i, i ∈ idx → free_at i (vd_of s) = 0) →
  wp (free_all free_chan idx) s (λ _ s', ∃ t, s' = with_pt t (with_vd (gave_back idx (vd_of s)) s) ∧ wq_inv t ∧
    (t = pt_of s ∨ keeps (λ _ p, wake1 free_chan p) (pt_of s) t)).
Proof.
  induction idx as [|i idx IH]; intros s Hq Hn Hl [Hnd Hr] Hf; cbn [free_all].
  { wp_go. exists (pt_of s). cbn [gave_back foldl]. rewrite with_vd_of, with_pt_of. split_and!; [done|apply Hq|by left]. }
  apply list.NoDup_cons in Hnd as [Hni Hnd]. apply list.Forall_cons in Hr as [Hi Hr]. wp_step.
  eapply wp_mono; [apply free_desc_spec; [done|done|done|apply Hf; by left]|].
  intros [] s1 (t1 & -> & Hi1 & Hk1). set (s1 := with_pt t1 _).
  assert (vd_of s1 = freed i (vd_of s)) as Ev by (unfold s1, vd_of, with_vd; by st_simpl).
  eapply wp_mono; [apply (IH s1)|].
  - by eapply quiet_keeps.
  - unfold s1, with_vd. by st_simpl.
  - rewrite Ev. unfold freed. simpl. by rewrite length_insert.
  - done.
  - intros j Hj. rewrite Ev. unfold freed. rewrite free_at_put; [|done| |done].
    + rewrite decide_False by (intros ->; done). apply (Hf j). by right.
    + rewrite list.Forall_forall in Hr. specialize (Hr j Hj). lia.
  - intros [] s2 (t2 & -> & Hi2 & Hk2). exists t2. split_and!; [|done|].
    + rewrite Ev. unfold s1, with_vd. st_simpl. done.
    + right. unfold s1, with_vd in Hk2. st_simpl. destruct Hk2 as [->|Hk2]; [done|]. by eapply keeps_wake_trans.
Qed.

(** Three descriptors that were free are taken, or there are fewer and none is. *)
Definition got_all (idx : list Z) (v0 : vdisk) s0 s' : Prop :=
  ids_ok idx ∧ (∀ i, i ∈ idx → free_at i v0 ≠ 0) ∧ s' = with_vd (taken idx v0) s0.
Definition got_none (n : nat) (v0 : vdisk) s0 s' : Prop :=
  ∃ got t, (length got < n)%nat ∧ ids_ok got ∧ (∀ i, 0 ≤ i < 8 → free_at i v0 ≠ 0 ↔ i ∈ got) ∧
    s' = with_pt t (with_vd (gave_back got (taken got v0)) s0) ∧ wq_inv t ∧
    (t = pt_of s0 ∨ keeps (λ _ p, wake1 free_chan p) (pt_of s0) t).

Lemma alloc3_loop_spec n v0 s0 : length (vfree v0) = 8%nat → quiet s0 → 1 ≤ noff (mycpu (hw_of s0)) →
  ∀ idx, ids_ok idx → (∀ i, i ∈ idx → free_at i v0 ≠ 0) →
  wp (alloc3_loop free_chan n idx) (with_vd (taken idx v0) s0) (λ r s',
    (∃ more, r = Some (idx ++ more) ∧ length more = n ∧ got_all (idx ++ more) v0 s0 s') ∨
    (r = None ∧ got_none (length idx + n) v0 s0 s')).
Proof.
  intros Hl Hq Hn. induction n as [|n IH]; intros idx Hok Hfr; cbn [alloc3_loop].
  { wp_go. left. exists []. rewrite app_nil_r. done. }
  destruct Hok as [Hnd Hr]. assert (∀ j, 0 ≤ j → free_at j (taken idx v0) = if decide (j ∈ idx) then 0 else free_at j v0) as Hft
    by (intros; by apply free_at_taken).
  wp_step. eapply wp_mono; [apply alloc_desc_spec; by rewrite vd_of_with_vd, length_taken|]. rewrite vd_of_with_vd.
  intros i s' [(-> & -> & Hnone)|(Hi & Hf & ->)].
  - rewrite decide_True by lia. wp_step. assert (∀ i, i ∈ idx → 0 ≤ i < 8) as Hri by (by rewrite list.Forall_forall in Hr).
    eapply wp_mono; [apply (free_all_spec idx)|].
    + unfold with_vd. destruct Hq. split; st_simpl; done.
    + unfold with_vd. by st_simpl.
    + by rewrite vd_of_with_vd, length_taken.
    + done.
    + intros j Hj. rewrite vd_of_with_vd, Hft by (apply Hri in Hj; lia). by rewrite decide_True.
    + rewrite vd_of_with_vd. intros [] s1 (t & -> & Hi & Hk). wp_go. right. split; [done|]. exists idx, t.
      split; [lia|]. split; [done|]. split; [|rewrite with_vd_with_vd; unfold with_vd in Hk; st_simpl; done].
      intros j Hj. split; [|by apply Hfr]. intros Hfj. specialize (Hnone j Hj). rewrite Hft in Hnone by lia.
      by case_decide.
  - rewrite decide_False by lia. rewrite with_vd_with_vd, <- taken_snoc. rewrite Hft in Hf by lia.
    destruct (decide (i ∈ idx)) as [|Hni]; [done|].
    eapply wp_mono; [apply (IH (idx ++ [i]))|].
    + split; [apply list.NoDup_app; split_and!; [done|set_solver|apply NoDup_singleton]|]. apply Forall_app. auto.
    + intros j [Hj| ->%list_elem_of_singleton]%elem_of_app; [by apply Hfr|done].
    + intros r s1 [(more & -> & Hm & Hg)|[-> Hg]]; [left|right].
      * exists (i :: more). rewrite <- app_assoc in *. split_and!; [done|simpl; lia|done].
      * split; [done|]. rewrite length_app in Hg. simpl in Hg. by replace (length idx + Datatypes.S n)%nat with (length idx + 1 + n)%nat by lia.
Qed.

Lemma alloc3_desc_spec s : length (vfree (vd_of s)) = 8%nat → quiet s → 1 ≤ noff (mycpu (hw_of s)) →
  wp (alloc3_desc free_chan) s (λ r s',
    (∃ i0 i1 i2, r = Some [i0; i1; i2] ∧ got_all [i0; i1; i2] (vd_of s) s s') ∨ (r = None ∧ got_none 3 (vd_of s) s s')).
Proof.
  intros Hl Hq Hn. pose proof (alloc3_loop_spec 3 (vd_of s) s Hl Hq Hn [] ltac:(by split; constructor) ltac:(set_solver)) as Hs.
  cbn [taken foldl] in Hs. rewrite with_vd_of in Hs. eapply wp_mono; [exact Hs|].
  intros r s' [(more & -> & Hm & Hg)|?]; [left|by right].
  destruct more as [|i0 [|i1 [|i2 [|]]]]; try done. by exists i0, i1, i2.
Qed.

End Alloc.

(** ** One request *)

Section Request.
Context {S U : Type} `{HasDev S U}.
Variables (dev : mmio U) (buf_addr : nat → Z) (free_chan : Z).
Implicit Types s : S.

(** The driver's structures after [submit]. *)
Definition submitted (b : nat) (write : bool) (sector i0 i1 i2 : Z) (v : vdisk) : vdisk :=
  let v := put_op i0 (mkReq (if write then VIRTIO_BLK_T_OUT else VIRTIO_BLK_T_IN) 0 sector) v in
  let v := put_desc i0 (mkDesc (A_req i0) 16 VRING_DESC_F_NEXT i1) v in
  let v := put_desc i1 (mkDesc (A_data b) BSIZE (Z.lor (if write then 0 else VRING_DESC_F_WRITE) VRING_DESC_F_NEXT) i2) v in
  let v := put_info i0 (set_info_status 0xff (info_at i0 v)) v in
  let v := put_desc i2 (mkDesc (A_status i0) 1 VRING_DESC_F_WRITE 0) v in
  let v := put_info i0 (set_info_b (Some b) (info_at i0 v)) v in
  let v := set_avail_ring (<[Z.to_nat (avail_idx v mod NUM) := i0]> (avail_ring v)) v in
  set_avail_idx (u16 (avail_idx v + 1)) v.

Lemma submit_spec b write sector i0 i1 i2 s :
  wp (submit dev b write sector i0 i1 i2) s (λ _ s', ∃ x,
    s' = with_dev (set_io x (set_vd (submitted b write sector i0 i1 i2 (vd_of s)) (dev_of s)))
      (with_fs (set_bufs (alter (set_bdisk 1) b (bufs (fs_of s))) (fs_of s)) s)).
Proof.
  unfold submit. repeat (wp_step; apply wp_mod_vd; rewrite ?vd_of_with_vd, ?with_vd_with_vd).
  wp_step. unfold mod_buf, mod_fs. wp_step. unfold with_vd. st_simpl.
  repeat (wp_step; apply wp_mod_vd; unfold with_vd, vd_of; st_simpl; cbn [vd set_vd]).
  unfold mm_store, mod_dev. wp_step. st_simpl. eexists. reflexivity.
Qed.

Record vq_sized (v : vdisk) : Prop := mkSized {
  vs_desc : length (vdesc v) = 8%nat;
  vs_avail : length (avail_ring v) = 8%nat;
  vs_used : length (dev_used_ring v) = 8%nat;
  vs_free : length (vfree v) = 8%nat;
  vs_info : length (info v) = 8%nat;
  vs_ops : length (vops v) = 8%nat;
}.

(** What the device finds in memory. *)
Record request (head i1 i2 : Z) (b : nat) (write : bool) (sector : Z) (v : vdisk) : Prop := mkRequest {
  rq_op : vops v !! Z.to_nat head = Some (mkReq (if write then VIRTIO_BLK_T_OUT else VIRTIO_BLK_T_IN) 0 sector);
  rq_head : desc_at head v = mkDesc (A_req head) 16 VRING_DESC_F_NEXT i1;
  rq_data : desc_at i1 v = mkDesc (A_data b) BSIZE (Z.lor (if write then 0 else VRING_DESC_F_WRITE) VRING_DESC_F_NEXT) i2;
  rq_status : desc_at i2 v = mkDesc (A_status head) 1 VRING_DESC_F_WRITE 0;
}.

Lemma desc_at_put i j d v : 0 ≤ i < 8 → 0 ≤ j → length (vdesc v) = 8%nat →
  desc_at j (put_desc i d v) = if decide (j = i) then d else desc_at j v.
Proof.
  intros Hi Hj Hl. unfold desc_at, put_desc. simpl. case_decide as E.
  - subst. by rewrite list_lookup_insert_eq by lia.
  - by rewrite list_lookup_insert_ne by lia.
Qed.

Lemma info_at_put i x v : 0 ≤ i < 8 → length (info v) = 8%nat → info_at i (put_info i x v) = x.
Proof. intros Hi Hl. unfold info_at, put_info. simpl. by rewrite list_lookup_insert_eq by lia. Qed.

Lemma submitted_request b write sector i0 i1 i2 v : ids_ok [i0; i1; i2] → vq_sized v →
  let v' := submitted b write sector i0 i1 i2 v in
  request i0 i1 i2 b write sector v' ∧ vq_sized v' ∧ vfree v' = vfree v ∧ used_idx v' = used_idx v ∧
  dev_used_idx v' = dev_used_idx v ∧ info_at i0 v' = mkInfo (Some b) 0xff ∧
  avail_ring v' !! Z.to_nat (avail_idx v mod NUM) = Some i0 ∧ avail_idx v' = u16 (avail_idx v + 1).
Proof.
  intros [Hnd Hr] [L1 L2 L3 L4 L5 L6]. rewrite !list.Forall_cons in Hr. destruct Hr as (R0 & R1 & R2 & _).
  rewrite !list.NoDup_cons, !not_elem_of_cons in Hnd. destruct Hnd as ((N01 & N02 & _) & (N12 & _) & _).
  assert (∀ k d, desc_at k (submitted b write sector i0 i1 i2 v) = d ↔
    desc_at k (put_desc i2 (mkDesc (A_status i0) 1 VRING_DESC_F_WRITE 0) (put_desc i1 (mkDesc (A_data b) BSIZE
      (Z.lor (if write then 0 else VRING_DESC_F_WRITE) VRING_DESC_F_NEXT) i2) (put_desc i0 (mkDesc (A_req i0) 16 VRING_DESC_F_NEXT i1) v))) = d) as Hd by done.
  assert (0 ≤ avail_idx v mod NUM < 8) as Ha by (apply Z.mod_pos_bound; done).
  split; [split|split; [split|]]; rewrite ?Hd; simpl; rewrite ?length_insert; try done.
  - by rewrite list_lookup_insert_eq by lia.
  - repeat (rewrite desc_at_put by (simpl; rewrite ?length_insert; lia)). by rewrite decide_False, decide_False, decide_True.
  - repeat (rewrite desc_at_put by (simpl; rewrite ?length_insert; lia)). by rewrite decide_False, decide_True.
  - repeat (rewrite desc_at_put by (simpl; rewrite ?length_insert; lia)). by rewrite decide_True.
  - split_and!; try done.
    + unfold submitted. cbv zeta. rewrite <- (info_at_put i0 (mkInfo (Some b) 0xff) v) by done. unfold info_at. simpl.
      rewrite !list_lookup_insert_eq by (rewrite ?length_insert; lia). done.
    + by rewrite list_lookup_insert_eq by lia.
Qed.

(** The running process [i] asks for buffer [b]; nothing completed is waiting
    in the used ring and three descriptors are free. *)
Record disk_idle s (i : nat) (p : proc) (b : nat) (x : buf) : Prop := mkDiskIdle {
  di_quiet : quiet s;
  di_noff : noff (mycpu (hw_of s)) = 0;
  di_cur : cproc (mycpu (hw_of s)) = Some i;
  di_proc : procs (pt_of s) !! i = Some p;
  di_run : state p = RUNNING;
  di_lock : lock_free L_disk (hw_of s);
  di_buf : bufs (fs_of s) !! b = Some x;
  di_done : bdisk x = 0;
  di_block : 0 ≤ blockno x < 2 ^ 31;
  di_sized : vq_sized (vd_of s);
  di_free : ∃ js, length js = 3%nat ∧ ids_ok js ∧ ∀ j, j ∈ js → free_at j (vd_of s) ≠ 0;
  di_used : used_idx (vd_of s) = dev_used_idx (vd_of s) ∧ 0 ≤ used_idx (vd_of s) < 2 ^ 16;
}.

Definition sector_of (x : buf) : Z := u32 (blockno x * (BSIZE / 512)).

(* what virtio_disk_rw still does when the request is complete *)
Definition rw_rest (i0 : Z) : M S unit :=
  mod_vd (λ v, put_info i0 (set_info_b None (info_at i0 v)) v) ;;
  free_chain free_chan (Z.to_nat NUM + 1) i0 ;;
  release L_disk.

Lemma enough_free v js got : length js = 3%nat → ids_ok js → (∀ j, j ∈ js → free_at j v ≠ 0) →
  (∀ i, 0 ≤ i < 8 → free_at i v ≠ 0 ↔ i ∈ got) → (3 ≤ length got)%nat.
Proof.
  intros Hl [Hnd Hr] Hf Hg. rewrite <- Hl. apply submseteq_length, NoDup_submseteq; [done|].
  intros j Hj. rewrite list.Forall_forall in Hr. apply Hg; auto.
Qed.

(** The request handed to the device when the caller goes to sleep. *)
Record posted (write : bool) s (i : nat) (b : nat) (x : buf) (i0 i1 i2 : Z) s1 : Prop := mkPosted {
  po_ids : ids_ok [i0; i1; i2];
  po_free : ∀ j, j ∈ [i0; i1; i2] → free_at j (vd_of s) ≠ 0;
  po_state : ∃ h1 io1, s1 = with_pt (go_to_sleep (buf_addr b) i (pt_of s)) (with_hw h1
    (with_dev (set_io io1 (set_vd (submitted b write (sector_of x) i0 i1 i2 (taken [i0; i1; i2] (vd_of s))) (dev_of s)))
      (with_fs (set_bufs (alter (set_bdisk 1) b (bufs (fs_of s))) (fs_of s)) s))) ∧
    locks h1 = locks (hw_of s) ∧ tp h1 = tp (hw_of s) ∧ noff (mycpu h1) = 0 ∧ cproc (mycpu h1) = None ∧ cpu_ok h1;
  po_wq : wq_inv (pt_of s1);
}.

Lemma rw_sleeps n b write s i p x : disk_idle s i p b x →
  ∃ s1 k i0 i1 i2, virtio_disk_rw dev (Datatypes.S n) buf_addr free_chan b write s = Switch s1 k ∧
    posted write s i b x i0 i1 i2 s1 ∧
    ∀ s', ∃ ie, k s' = ((sleep_rest i L_disk ie ;; done_wait buf_addr n b) ;; rw_rest i0) s'.
Proof.
  intros Hd. pose proof (di_quiet _ _ _ _ _ Hd) as [Hcpu Hwq Hpl Hinv].
  enough (wps (virtio_disk_rw dev (Datatypes.S n) buf_addr free_chan b write) s (λ s1 k, ∃ i0 i1 i2,
    posted write s i b x i0 i1 i2 s1 ∧ ∀ s', ∃ ie, k s' = ((sleep_rest i L_disk ie ;; done_wait buf_addr n b) ;; rw_rest i0) s')) as Hw.
  { apply wps_elim in Hw as (s1 & k & E & i0 & i1 & i2 & Hp & Hk). by exists s1, k, i0, i1, i2. }
  unfold virtio_disk_rw. wp_step. unfold buf_at, get_fs. wp_go. rewrite (di_buf _ _ _ _ _ Hd). wp_go.
  apply wp_acquire; [apply Hd|]. set (s0 := with_hw _ s). wp_step. cbn [alloc_wait]. wp_step.
  assert (vd_of s0 = vd_of s) as Ev by (unfold s0, vd_of; by st_simpl).
  eapply wp_mono; [apply alloc3_desc_spec|].
  { rewrite Ev. apply Hd. }
  { unfold s0. by apply quiet_acq. }
  { unfold s0. st_simpl. rewrite noff_acq, (di_noff _ _ _ _ _ Hd). done. }
  intros r s1 [(i0 & i1 & i2 & -> & Hids & Hfr & ->)|(-> & got & t & Hlen & _ & Hg & _)]; rewrite Ev in *; cycle 1.
  { destruct (di_free _ _ _ _ _ Hd) as (js & Hl & Hjs & Hfj). pose proof (enough_free _ js got Hl Hjs Hfj Hg). lia. }
  wp_step. wp_step. eapply wp_mono; [apply submit_spec|]. intros [] s2 (x2 & ->). rewrite vd_of_with_vd.
  set (s2 := with_dev _ _). assert (fs_of s2 = set_bufs (alter (set_bdisk 1) b (bufs (fs_of s))) (fs_of s)) as Ef.
  { unfold s2, with_vd, s0. by st_simpl. }
  assert (hw_of s2 = hw_acq L_disk (hw_of s)) as Eh by (unfold s2, with_vd, s0; by st_simpl).
  assert (pt_of s2 = pt_of s) as Ep by (unfold s2, with_vd, s0; by st_simpl).
  apply wps_bind. cbn [done_wait]. wp_step. unfold buf_at, get_fs. wp_go. rewrite Ef. simpl.
  rewrite list_lookup_alter_eq, (di_buf _ _ _ _ _ Hd). simpl. wp_go. rewrite decide_True by done. apply wps_bind.
  destruct (sleep_spec (buf_addr b) L_disk s2 i p (hw_of s) Eh Hcpu) as (h' & k & Esl & Hk & Hi & Hl & Ht & Hn & Hc & Hok);
    [apply Hd|apply Hd|apply Hd|done|done|apply Hwq, bucket_lt|eapply Hpl, Hd|by rewrite Ep|rewrite Ep; apply Hd|by rewrite (di_run _ _ _ _ _ Hd)|].
  rewrite Ep in *. unfold wps. rewrite Esl. exists i0, i1, i2. split.
  - split; [done|done| |by st_simpl]. exists h', x2. split_and!; try done. unfold s2, with_vd, s0. st_simpl. done.
  - intros s'. destruct (Hk s') as [ie E]. exists ie. unfold bind. by rewrite E.
Qed.

(** ** The device

    What the virtio specification says the device does with the newest entry
    of the available ring: follow the chain, move the block between the disk
    and the buffer in the direction the request header says, store 0 in the
    status byte and put the head of the chain in the used ring.  Sectors are
    half a block. *)
Definition transfer (b : nat) (write : bool) (sector : Z) (f : fsst) : fsst :=
  if write
  then set_disk (disk_write (sector / 2) (default [] (data <$> bufs f !! b)) (disk f)) f
  else set_bufs (alter (set_data (image (disk f) (sector / 2))) b (bufs f)) f.

Definition completed (head : Z) (v : vdisk) : vdisk :=
  let v := put_info head (set_info_status 0 (info_at head v)) v in
  let v := set_dev_used_ring (<[Z.to_nat (dev_used_idx v mod NUM) := head]> (dev_used_ring v)) v in
  set_dev_used_idx (u16 (dev_used_idx v + 1)) v.

Definition serves s s' : Prop :=
  ∃ head i1 i2 b write sector x,
    avail_ring (vd_of s) !! Z.to_nat ((avail_idx (vd_of s) - 1) mod NUM) = Some head ∧
    request head i1 i2 b write sector (vd_of s) ∧
    s' = with_dev (set_io x (set_vd (completed head (vd_of s)) (dev_of s))) (with_fs (transfer b write sector (fs_of s)) s).

Lemma request_inj head i1 i2 b write sector i1' i2' b' write' sector' v :
  request head i1 i2 b write sector v → request head i1' i2' b' write' sector' v →
  b' = b ∧ write' = write ∧ sector' = sector.
Proof.
  intros [O Hd A St] [O' Hd' A' St']. rewrite Hd in Hd'. injection Hd' as <-. rewrite A in A'. injection A' as <- _ _.
  rewrite O in O'. injection O' as E <-. by destruct write, write'.
Qed.

(** ** The completion interrupt *)

Lemma intr_spec m head b s :
  quiet s → lock_free L_disk (hw_of s) → vq_sized (vd_of s) → 0 ≤ head < 8 →
  dev_used_idx (vd_of s) = u16 (used_idx (vd_of s) + 1) → 0 ≤ used_idx (vd_of s) < 2 ^ 16 →
  dev_used_ring (vd_of s) !! Z.to_nat (used_idx (vd_of s) mod NUM) = Some head → info_at head (vd_of s) = mkInfo (Some b) 0 →
  wp (virtio_disk_intr dev buf_addr (Datatypes.S (Datatypes.S m))) s (λ _ s', ∃ t x,
    s' = with_pt t (with_hw (hw_settle (hw_of s)) (with_dev (set_io x (set_vd (set_used_idx (dev_used_idx (vd_of s)) (vd_of s)) (dev_of s)))
      (with_fs (set_bufs (alter (set_bdisk 0) b (bufs (fs_of s))) (fs_of s)) s))) ∧
    wq_inv t ∧ keeps (λ _ p, wake1 (buf_addr b) p) (pt_of s) t).
Proof.
  intros Hq Hl Hsz Hh Hd Hu Hr Hi. pose proof (q_cpu _ Hq) as Hcpu. unfold virtio_disk_intr. wp_go. apply wp_acquire; [done|]. wp_go.
  set (s0 := with_hw _ s). unfold mm_load, get_dev, mod_dev. wp_go. destruct (reg_read dev _ _) as [a y] eqn:E. wp_go.
  unfold mm_store, mod_dev. wp_go. st_simpl. set (y' := reg_write _ _ _ _). cbn [intr_loop]. wp_step. apply wp_get_vd.
  set (s1 := with_dev _ _). assert (vd_of s1 = vd_of s) as Ev by (unfold s1, s0, vd_of; by st_simpl). rewrite Ev.
  assert (used_idx (vd_of s) ≠ dev_used_idx (vd_of s)) as Hne.
  { rewrite Hd. unfold u16, wrap. change (2 ^ 16) with 65536 in *. intros E'. Z.to_euclidean_division_equations. lia. }
  rewrite decide_True by done. rewrite Hr. cbn [default from_option id]. rewrite Hi. simpl i_status. rewrite decide_False by lia. simpl i_b.
  unfold mod_buf, mod_fs. wp_go. set (s2 := with_fs _ s1).
  assert (quiet s2) as Hq2.
  { pose proof (quiet_acq s L_disk Hq ltac:(done) ltac:(done)) as []. unfold s2, s1, s0. split; st_simpl; done. }
  destruct (wakeup_spec (buf_addr b) s2 Hq2) as (t & Ew & Hinv & Hk). eapply wp_ok; [exact Ew|].
  rewrite hw_settle_nested; [|apply Hq2|unfold s2, s1, s0; st_simpl; rewrite noff_acq; pose proof (noff_nonneg _ Hcpu); lia].
  wp_go. apply wp_mod_vd. wp_step. apply wp_get_vd. rewrite vd_of_with_vd.
  assert (vd_of (with_pt t (with_hw (hw_of s2) s2)) = vd_of s) as Ev2 by (unfold s2, s1, s0, vd_of; by st_simpl).
  rewrite Ev2. simpl used_idx. simpl dev_used_idx. rewrite <- Hd, decide_False by (intros C; by apply C). apply wp_ret.
  eapply (wp_release _ _ (hw_of s)); [unfold with_vd, s2, s1, s0; by st_simpl|done|done|].
  exists t, y'. split_and!; [|done|]; unfold with_vd, s2, s1, s0 in *; st_simpl; done.
Qed.

(** ** Giving the descriptors back *)

Lemma desc_at_freed i j v : 0 ≤ i < 8 → 0 ≤ j → j ≠ i → length (vdesc v) = 8%nat → desc_at j (freed i v) = desc_at j v.
Proof. intros. unfold freed. change (desc_at j (put_free i 1 ?w)) with (desc_at j w). by rewrite desc_at_put, decide_False. Qed.

Lemma free_at_freed i j v : 0 ≤ i < 8 → 0 ≤ j → length (vfree v) = 8%nat →
  free_at j (freed i v) = if decide (j = i) then 1 else free_at j v.
Proof. intros. unfold freed. by rewrite free_at_put. Qed.

Lemma sized_freed i v : vq_sized v → vq_sized (freed i v).
Proof. intros []. split; simpl; rewrite ?length_insert; done. Qed.

(** One link of the chain. *)
Lemma free_link n i d s Q : quiet s → 1 ≤ noff (mycpu (hw_of s)) → 0 ≤ i < 8 → free_at i (vd_of s) = 0 → desc_at i (vd_of s) = d →
  (∀ t, wq_inv t → keeps (λ _ p, wake1 free_chan p) (pt_of s) t →
    let s' := with_pt t (with_vd (freed i (vd_of s)) s) in
    wp (if decide (Z.land (d_flags d) VRING_DESC_F_NEXT ≠ 0) then free_chain free_chan n (d_next d) else ret tt) s' Q) →
  wp (free_chain free_chan (Datatypes.S n) i) s Q.
Proof.
  intros Hq Hn Hi Hf <- Hs. cbn [free_chain]. wp_step. apply wp_get_vd. wp_step.
  eapply wp_mono; [by apply free_desc_spec|]. intros [] s' (t & -> & Hinv & Hk). by apply Hs.
Qed.

Lemma free_chain_spec i0 i1 i2 b write sector s : quiet s → 1 ≤ noff (mycpu (hw_of s)) → vq_sized (vd_of s) → ids_ok [i0; i1; i2] →
  request i0 i1 i2 b write sector (vd_of s) → (∀ j, j ∈ [i0; i1; i2] → free_at j (vd_of s) = 0) →
  wp (free_chain free_chan (Z.to_nat NUM + 1) i0) s (λ _ s', ∃ t, s' = with_pt t (with_vd (gave_back [i0; i1; i2] (vd_of s)) s) ∧
    wq_inv t ∧ keeps (λ _ p, wake1 free_chan p) (pt_of s) t).
Proof.
  intros Hq Hn Hsz [Hnd Hr] [_ D0 D1 D2] Hf. rewrite !list.Forall_cons in Hr. destruct Hr as (R0 & R1 & R2 & _).
  rewrite !list.NoDup_cons, !not_elem_of_cons in Hnd. destruct Hnd as ((N01 & N02 & _) & (N12 & _) & _).
  assert (F0 : free_at i0 (vd_of s) = 0) by (apply Hf; set_solver). assert (F1 : free_at i1 (vd_of s) = 0) by (apply Hf; set_solver).
  assert (F2 : free_at i2 (vd_of s) = 0) by (apply Hf; set_solver). change (Z.to_nat NUM + 1)%nat with 9%nat.
  eapply free_link; [done..|exact D0|]. intros t1 I1 K1 s1. rewrite decide_True by done. cbn [d_next].
  assert (vd_of s1 = freed i0 (vd_of s)) as E1 by (unfold s1, vd_of, with_vd; by st_simpl).
  assert (hw_of s1 = hw_of s) as W1 by (unfold s1, with_vd; by st_simpl). assert (pt_of s1 = t1) as P1 by (unfold s1; by st_simpl).
  pose proof (sized_freed i0 _ Hsz) as Hsz1.
  eapply free_link; [by eapply quiet_keeps|by rewrite W1|done|rewrite E1, free_at_freed by (done || lia || apply Hsz); by rewrite decide_False|
    rewrite E1, desc_at_freed by (done || lia || apply Hsz); exact D1|].
  intros t2 I2 K2 s2. rewrite P1 in K2. rewrite decide_True by (by destruct write). cbn [d_next].
  assert (vd_of s2 = freed i1 (freed i0 (vd_of s))) as E2 by (unfold s2; rewrite E1; unfold vd_of, with_vd; by st_simpl).
  assert (hw_of s2 = hw_of s) as W2 by (unfold s2, with_vd; by st_simpl). assert (pt_of s2 = t2) as P2 by (unfold s2; by st_simpl).
  eapply free_link; [eapply quiet_keeps; [by eapply quiet_keeps|by rewrite P1|done]|by rewrite W2|done| | |].
  - rewrite E2, !free_at_freed by (done || lia || apply Hsz || apply Hsz1). by rewrite !decide_False.
  - rewrite E2, !desc_at_freed by (done || lia || apply Hsz || apply Hsz1). exact D2.
  - intros t3 I3 K3 s3. rewrite P2 in K3. rewrite decide_False by (cbn; intros C; by apply C). apply wp_ret. exists t3.
    split; [|split; [done|by eapply keeps_wake_trans, keeps_wake_trans]]. unfold s3. rewrite E2. unfold s2, s1, with_vd. by st_simpl.
Qed.

Lemma rest_spec i0 i1 i2 b write sector s g : hw_of s = hw_acq L_disk g → cpu_ok g → lock_free L_disk g → quiet s →
  vq_sized (vd_of s) → ids_ok [i0; i1; i2] → request i0 i1 i2 b write sector (vd_of s) →
  (∀ j, j ∈ [i0; i1; i2] → free_at j (vd_of s) = 0) →
  wp (rw_rest i0) s (λ _ s', ∃ t v, s' = with_pt t (with_hw (hw_settle g) (with_vd (gave_back [i0; i1; i2] v) s)) ∧
    wq_inv t ∧ keeps (λ _ p, wake1 free_chan p) (pt_of s) t ∧
    v = put_info i0 (set_info_b None (info_at i0 (vd_of s))) (vd_of s)).
Proof.
  intros Hs Hok Hl Hq Hsz Hids Hrq Hf. unfold rw_rest. wp_go. apply wp_mod_vd. set (v := put_info _ _ _).
  wp_go. eapply wp_mono; [apply (free_chain_spec i0 i1 i2 b write sector); rewrite ?vd_of_with_vd|].
  - unfold with_vd. destruct Hq. split; st_simpl; done.
  - unfold with_vd. st_simpl. rewrite Hs, noff_acq. pose proof (noff_nonneg _ Hok). lia.
  - destruct Hsz. split; simpl; rewrite ?length_insert; done.
  - done.
  - by destruct Hrq.
  - intros j Hj. by apply (Hf j).
  - intros [] s' (t & -> & Hi & Hk). rewrite vd_of_with_vd, with_vd_with_vd. unfold with_vd in *. st_simpl.
    eapply (wp_release _ _ g); [by st_simpl|done|done|]. exists t, v. st_simpl. split_and!; done.
Qed.

(** ** The whole request *)

(** While process [i] waits for its request: the three descriptors hold it,
    and all but the driver's structures, the process table and the file
    system is as in [s]. *)
Record waiting s (i b : nat) (write : bool) (sector i0 i1 i2 : Z) (P : proc → Prop) s' : Prop := mkWaiting {
  wt_ids : ids_ok [i0; i1; i2];
  wt_taken : ∀ j, 0 ≤ j < 8 → free_at j (vd_of s') = if decide (j ∈ [i0; i1; i2]) then 0 else free_at j (vd_of s);
  wt_sized : vq_sized (vd_of s');
  wt_req : request i0 i1 i2 b write sector (vd_of s');
  wt_quiet : quiet s';
  wt_locks : locks (hw_of s') = locks (hw_of s);
  wt_tp : tp (hw_of s') = tp (hw_of s);
  wt_noff : noff (mycpu (hw_of s')) = 0;
  wt_proc : ∃ q, procs (pt_of s') !! i = Some q ∧ P q;
  wt_pm : pm_of s' = pm_of s;
}.

Definition asleep_on (c : Z) (q : proc) : Prop := state q = SLEEPING ∧ chan q = c.

Lemma sized_taken idx : ∀ v, vq_sized v → vq_sized (taken idx v).
Proof.
  induction idx as [|j idx IH]; intros v Hv; [done|]. apply IH. destruct Hv. split; simpl; rewrite ?length_insert; done.
Qed.

Lemma posted_waiting write s i p b x i0 i1 i2 s1 : disk_idle s i p b x → posted write s i b x i0 i1 i2 s1 →
  waiting s i b write (sector_of x) i0 i1 i2 (asleep_on (buf_addr b)) s1 ∧
  vd_of s1 = submitted b write (sector_of x) i0 i1 i2 (taken [i0; i1; i2] (vd_of s)) ∧
  fs_of s1 = set_bufs (alter (set_bdisk 1) b (bufs (fs_of s))) (fs_of s).
Proof.
  intros Hd [Hids Hfr (h1 & io1 & -> & Hl & Ht & Hn & Hc & Hok) Hinv]. destruct (di_quiet _ _ _ _ _ Hd) as [_ Hw Hp _].
  pose proof (sized_taken [i0; i1; i2] _ (di_sized _ _ _ _ _ Hd)) as Hsz.
  destruct (submitted_request b write (sector_of x) i0 i1 i2 _ Hids Hsz) as (Hrq & Hsz' & Hvf & _).
  unfold vd_of in *. st_simpl. cbn [vd set_vd set_io]. split_and!; [|done|done].
  split; unfold vd_of; st_simpl; cbn [vd set_vd set_io]; try done.
  - intros j Hj. apply (free_at_taken [i0; i1; i2] (vd (dev_of s)) j); [apply Hd|apply Hids|lia].
  - assert (∀ l, lock_free l (hw_of s) → lock_free l h1) as Hfree by (unfold lock_free; by rewrite Hl).
    split; st_simpl; [done|auto| |done]. intros j r Hj%lookup_lt_Some. rewrite go_to_sleep_eq in Hj. simpl in Hj.
    rewrite length_alter in Hj. apply lookup_lt_is_Some in Hj as [? ?]. apply Hfree. by eapply Hp.
  - rewrite go_to_sleep_eq. simpl. rewrite list_lookup_alter_eq, (di_proc _ _ _ _ _ Hd). by eexists.
Qed.

End Request.
