(* ===== verification/VirtioTheorems.v ===== *)
(** * The disk driver implements the disk of the buffer cache

    A request from the call of [virtio_disk_rw] to its return, through the
    device, the completion interrupt and the scheduler. *)

From S2P Require Import Prelude Params CString Spinlock ProcDefs WaitQueue Sched Memory Kalloc Pipe FsDefs Seq Sleeplock Bio AddressSpace FsExample Device Virtio VirtioSpec.

Section Whole.
Context {S U : Type} `{HasDev S U}.
Variables (dev : mmio U) (buf_addr : nat → Z) (free_chan : Z).
Implicit Types s : S.
Notation waiting := (waiting (S := S)).
Notation asleep b := (asleep_on (buf_addr b)).

Lemma avail_newest a : (u16 (a + 1) - 1) mod NUM = a mod NUM.
Proof.
  unfold u16, wrap, NUM. change (2 ^ 16) with (8 * 8192). rewrite Z.rem_mul_r by lia.
  rewrite <- (Z.mod_add a 1 8) at 1 by lia. Z.to_euclidean_division_equations. lia.
Qed.

(** The device serves the request that was posted. *)
Lemma served_waiting write s i p b x i0 i1 i2 s1 s2 :
  disk_idle s i p b x → posted buf_addr write s i b x i0 i1 i2 s1 → serves s1 s2 →
  waiting s i b write (sector_of x) i0 i1 i2 (asleep b) s2 ∧
  fs_of s2 = transfer b write (sector_of x) (set_bufs (alter (set_bdisk 1) b (bufs (fs_of s))) (fs_of s)) ∧
  info_at i0 (vd_of s2) = mkInfo (Some b) 0 ∧ used_idx (vd_of s2) = used_idx (vd_of s) ∧
  dev_used_idx (vd_of s2) = u16 (used_idx (vd_of s) + 1) ∧
  dev_used_ring (vd_of s2) !! Z.to_nat (used_idx (vd_of s) mod NUM) = Some i0.
Proof.
  intros Hd Hp (head & j1 & j2 & b' & w' & sec' & x' & Ha & Hrq & ->).
  destruct (posted_waiting buf_addr write s i p b x i0 i1 i2 s1 Hd Hp) as (Hw & Ev & Ef).
  pose proof (sized_taken [i0; i1; i2] _ (di_sized _ _ _ _ _ Hd)) as Hsz.
  destruct (submitted_request b write (sector_of x) i0 i1 i2 _ (po_ids _ _ _ _ _ _ _ _ _ _ Hp) Hsz) as (_ & Hsz' & _ & Hu & Hdu & Hin & Hav & Hai).
  rewrite <- Ev in *. rewrite Hai, avail_newest in Ha. change (avail_idx (taken ?a ?v)) with (avail_idx v) in *.
  rewrite Hav in Ha. injection Ha as <-.
  destruct (request_inj _ _ _ _ _ _ _ _ _ _ _ _ (wt_req _ _ _ _ _ _ _ _ _ _ Hw) Hrq) as (-> & -> & ->).
  pose proof (wt_ids _ _ _ _ _ _ _ _ _ _ Hw) as [_ Hr]. apply list.Forall_cons in Hr as [R0 _].
  change (used_idx (taken ?a ?v)) with (used_idx v) in *. change (dev_used_idx (taken ?a ?v)) with (dev_used_idx v) in *.
  destruct (di_used _ _ _ _ _ Hd) as [Eu Hrange]. set (s2 := with_dev _ _).
  assert (vd_of s2 = completed i0 (vd_of s1)) as Ev2 by (unfold s2, vd_of; by st_simpl).
  assert (0 ≤ used_idx (vd_of s) mod NUM < 8) as Hm by (apply Z.mod_pos_bound; done).
  split; [|split; [unfold s2; st_simpl; by rewrite Ef|]].
  - destruct Hw as [W1 W2 [] [] [] W6 W7 W8 W9 W10].
    split; rewrite ?Ev2; unfold s2; st_simpl; try done; (split; st_simpl; simpl; rewrite ?length_insert; done).
  - rewrite Ev2. unfold completed. cbv zeta. cbn [used_idx dev_used_idx dev_used_ring set_dev_used_idx set_dev_used_ring put_info set_info].
    rewrite Hdu, <- Eu. split_and!; [|done|done|].
    + change (info_at i0 (set_dev_used_idx ?a (set_dev_used_ring ?c ?v))) with (info_at i0 v).
      rewrite info_at_put; [|done|apply Hsz']. by rewrite Hin.
    + rewrite list_lookup_insert_eq; [done|]. rewrite (vs_used _ Hsz'). lia.
Qed.

(** The interrupt makes the process runnable. *)
Lemma intr_wakes m write s i p b x i0 i1 i2 s2 :
  disk_idle s i p b x → waiting s i b write (sector_of x) i0 i1 i2 (asleep b) s2 →
  info_at i0 (vd_of s2) = mkInfo (Some b) 0 → used_idx (vd_of s2) = used_idx (vd_of s) →
  dev_used_idx (vd_of s2) = u16 (used_idx (vd_of s) + 1) →
  dev_used_ring (vd_of s2) !! Z.to_nat (used_idx (vd_of s) mod NUM) = Some i0 →
  wp (virtio_disk_intr dev buf_addr (Datatypes.S (Datatypes.S m))) s2 (λ _ s3,
    waiting s i b write (sector_of x) i0 i1 i2 (λ q, state q = RUNNABLE) s3 ∧
    fs_of s3 = set_bufs (alter (set_bdisk 0) b (bufs (fs_of s2))) (fs_of s2) ∧
    used_idx (vd_of s3) = dev_used_idx (vd_of s3) ∧ 0 ≤ used_idx (vd_of s3) < 2 ^ 16).
Proof.
  intros Hd Hw Hi Hu Hdu Hr. destruct (di_used _ _ _ _ _ Hd) as [_ Hrange].
  pose proof Hw as [W1 W2 W3 W4 W5 W6 W7 W8 (q & Hq & Hqs & Hqc) W10].
  pose proof W1 as [_ R]. apply list.Forall_cons in R as [R0 _].
  eapply wp_mono; [apply (intr_spec dev buf_addr m i0 b s2); rewrite ?Hu; try done|].
  { unfold lock_free. rewrite W6. apply Hd. }
  intros [] s3 (t & x3 & -> & Hinv & Hk). unfold vd_of in *. st_simpl. simpl. split_and!; [|done|done| |].
  - split; unfold vd_of; st_simpl; simpl; try done.
    + destruct W3. by split.
    + destruct W4. by split.
    + destruct W5 as [Q1 Q2 Q3 Q4]. split; st_simpl; [auto with xv6| | |done].
      * intros c Hc. apply lock_free_settle. by apply Q2.
      * intros j r Hj. apply lock_free_settle. eapply plocks_free_keeps; [exact Hk|exact Q3|exact Hj].
    + by rewrite noff_settle.
    + destruct Hk as (_ & _ & _ & Hk). destruct (Hk i q Hq) as (e & He). unfold wake1 in He. rewrite decide_True in He by done.
      rewrite He. by eexists.
  - rewrite Hdu. apply wrap_bound. lia.
  - rewrite Hdu. apply wrap_bound. lia.
Qed.
(** A sleeper that was made runnable is picked by the scheduler and comes out
    of [sleep] with its lock. *)
Lemma wakes_up i q lk s : quiet s → noff (mycpu (hw_of s)) = 0 → procs (pt_of s) !! i = Some q → state q = RUNNABLE →
  lock_free lk (hw_of s) → lk ≠ lkp i →
  ∃ s4 t, scheduler_try i s = Ok true s4 ∧ wq_inv t ∧ length (procs t) = length (procs (pt_of s)) ∧
    (∃ q', procs t !! i = Some q' ∧ state q' = RUNNING) ∧
    ∀ ie, ∃ g, sleep_rest i lk ie s4 = Ok tt (with_pt t (with_hw (hw_acq lk g) s)) ∧ cpu_ok g ∧ noff (mycpu g) = 0 ∧
      cproc (mycpu g) = Some i ∧ locks g = locks (hw_of s).
Proof.
  intros [Hcpu Hw Hp Hi] Hn Hq Hr Hl Hne. pose proof (Hp i q Hq) as Hli.
  destruct (scheduler_try_spec i q s Hcpu Hli Hq Hr) as (h4 & E & Hh & Ht & Hc & Hok & Hn4 & Hl4).
  set (t1 := upd_proc i (set_state RUNNING) (pt_of s)) in E. set (s4 := with_pt _ _) in E.
  assert (procs t1 !! i = Some (set_state RUNNING q)) as Hq1 by (unfold t1; simpl; by rewrite list_lookup_alter_eq, Hq).
  exists s4, (upd_proc i (set_chan 0) t1). split; [exact E|]. split; [|split; [|split]].
  - eapply wq_inv_upd; [by eapply wq_inv_upd; [exact Hi|exact Hq|rewrite Hr|]|exact Hq1|done|done].
  - unfold t1. simpl. by rewrite !length_alter.
  - exists (set_chan 0 (set_state RUNNING q)). split; [|done]. by rewrite procs_upd_proc, list_lookup_alter_eq, Hq1.
  - intros ie. assert (hw_of s4 = h4) as Eh by (unfold s4; by st_simpl). assert (pt_of s4 = t1) as Ep by (unfold s4; by st_simpl).
    destruct (sleep_rest_spec i lk ie s4) as (h5 & (g & -> & Hg & Hgn & Hgf & Hgl) & Er & _ & _ & Hc5 & _);
      rewrite ?Eh; [done|lia|done| |].
    { unfold lock_free in *. by rewrite Hl4, locks_acq, lookup_insert_ne by done. }
    rewrite Eh, Ep in *. exists g. split; [rewrite Er; unfold s4; by st_simpl|]. split_and!; [done|done| |].
    + rewrite <- Hc, <- Hc5. by rewrite cproc_acq.
    + rewrite Hgl. by apply locks_rel_undo.
Qed.

Lemma gave_back_at got : ∀ v j, Forall (λ i, 0 ≤ i < 8) got → 0 ≤ j → length (vfree v) = 8%nat →
  free_at j (gave_back got v) = if decide (j ∈ got) then 1 else free_at j v.
Proof.
  induction got as [|i got IH]; intros v j Hr Hj Hl; [done|]. apply list.Forall_cons in Hr as [Hi Hr]. cbn [gave_back foldl].
  fold (gave_back got (freed i v)). rewrite IH by (done || (unfold freed; simpl; by rewrite length_insert)).
  rewrite free_at_freed by done. repeat case_decide; set_solver.
Qed.

Lemma sized_gave_back idx : ∀ v, vq_sized v → vq_sized (gave_back idx v).
Proof. induction idx as [|i idx IH]; intros v Hv; [done|]. by apply IH, sized_freed. Qed.

Lemma quiet_held lk g s t : quiet s → cpu_ok g → locks g = locks (hw_of s) → (∀ b, lk ≠ lkb b) → (∀ i, lk ≠ lkp i) →
  wq_inv t → length (procs t) = length (procs (pt_of s)) → quiet (with_pt t (with_hw (hw_acq lk g) s)).
Proof.
  intros [_ Hw Hp _] Hg Hl Nb Np Hi Hlen. assert (∀ l, lock_free l (hw_of s) → lock_free l g) as Hf by (unfold lock_free; by rewrite Hl).
  split; st_simpl; [auto with xv6| | |done].
  - intros b Hb. apply lock_free_acq; [done|auto].
  - intros j r Hj%lookup_lt_Some. rewrite Hlen in Hj. apply lookup_lt_is_Some in Hj as [? ?]. apply lock_free_acq; [done|].
    apply Hf. by eapply Hp.
Qed.

(** The caller comes out of [virtio_disk_rw] as it went in. *)
Record returned s i b (x y : buf) s3 s5 : Prop := mkReturned {
  rt_fs : fs_of s5 = fs_of s3;
  rt_pm : pm_of s5 = pm_of s;
  rt_locks : locks (hw_of s5) = locks (hw_of s);
  rt_free : ∀ j, 0 ≤ j < 8 → free_at j (vd_of s5) ≠ 0 ↔ free_at j (vd_of s) ≠ 0;
  rt_idle : ∃ p, disk_idle s5 i p b y;
}.

Lemma returned_intro s i p b x y i0 i1 i2 s3 t t5 g s5 v write P :
  disk_idle s i p b x → waiting s i b write (sector_of x) i0 i1 i2 P s3 →
  used_idx (vd_of s3) = dev_used_idx (vd_of s3) ∧ 0 ≤ used_idx (vd_of s3) < 2 ^ 16 →
  bufs (fs_of s3) !! b = Some y → bdisk y = 0 → 0 ≤ blockno y < 2 ^ 31 → (∀ j, j ∈ [i0; i1; i2] → free_at j (vd_of s) ≠ 0) →
  length (procs t) = length (procs (pt_of s3)) → (∃ q, procs t !! i = Some q ∧ state q = RUNNING) →
  cpu_ok g → noff (mycpu g) = 0 → cproc (mycpu g) = Some i → locks g = locks (hw_of s3) →
  wq_inv t5 → keeps (λ _ p, wake1 free_chan p) t t5 →
  v = gave_back [i0; i1; i2] (put_info i0 (set_info_b None (info_at i0 (vd_of s3))) (vd_of s3)) →
  s5 = with_pt t5 (with_hw (hw_settle g) (with_vd v s3)) → returned s i b x y s3 s5.
Proof.
  intros Hd [W1 W2 W3 W4 W5 W6 W7 W8 _ W10] [Hu Hur] Hb Hbd Hbn Hfr Hlen (q & Hq & Hrun) Hg Hgn Hgc Hgl Hi5 Hk5 Ev ->.
  assert (vq_sized v) as Hsz.
  { rewrite Ev. apply sized_gave_back. destruct W3. split; simpl; rewrite ?length_insert; done. }
  assert (∀ j, 0 ≤ j < 8 → free_at j v ≠ 0 ↔ free_at j (vd_of s) ≠ 0) as Hfree.
  { intros j Hj. rewrite Ev, gave_back_at; [|apply W1|lia|apply W3]. change (free_at j (put_info ?a ?c ?w)) with (free_at j w).
    rewrite W2 by done. case_decide as Hin; [|done]. split; [intros _; by apply Hfr|done]. }
  destruct Hk5 as (Hl5 & _ & _ & Hk5). destruct (Hk5 i q Hq) as (e & He). unfold wake1 in He.
  rewrite decide_False in He by (rewrite Hrun; by intros [? _]).
  assert (∀ l, lock_free l (hw_of s3) → lock_free l (hw_settle g)) as Hlf.
  { intros l. rewrite lock_free_settle. unfold lock_free. by rewrite Hgl. }
  split; unfold with_vd, vd_of in *; st_simpl; cbn [vd set_vd]; try done; [by rewrite locks_settle, Hgl|].
  exists (set_wqe e q). split; unfold vd_of; st_simpl; cbn [vd set_vd]; try done.
  - destruct W5 as [Q1 Q2 Q3 Q4]. split; st_simpl; [auto with xv6|auto| |done].
    intros j r Hj%lookup_lt_Some. rewrite Hl5, Hlen in Hj. apply lookup_lt_is_Some in Hj as [? ?]. apply Hlf. by eapply Q3.
  - by rewrite noff_settle.
  - by rewrite (settled_cproc g) by apply settled_settle.
  - apply Hlf. unfold lock_free. rewrite W6. apply Hd.
  - exists [i0; i1; i2]. split_and!; [done|done|]. intros j Hj. apply Hfree; [|by apply Hfr].
    destruct W1 as [_ R]. rewrite list.Forall_forall in R. auto.
  - subst v. done.
Qed.

Lemma rw_returns n write s i p b x y i0 i1 i2 s3 k :
  disk_idle s i p b x → waiting s i b write (sector_of x) i0 i1 i2 (λ q, state q = RUNNABLE) s3 →
  used_idx (vd_of s3) = dev_used_idx (vd_of s3) ∧ 0 ≤ used_idx (vd_of s3) < 2 ^ 16 →
  bufs (fs_of s3) !! b = Some y → bdisk y = 0 → 0 ≤ blockno y < 2 ^ 31 →
  (∀ j, j ∈ [i0; i1; i2] → free_at j (vd_of s) ≠ 0) →
  (∀ s', ∃ ie, k s' = ((sleep_rest i L_disk ie ;; done_wait buf_addr (Datatypes.S n) b) ;; rw_rest free_chan i0) s') →
  ∃ s4 s5, scheduler_try i s3 = Ok true s4 ∧ k s4 = Ok tt s5 ∧ returned s i b x y s3 s5.
Proof.
  intros Hd Hw Hu Hb Hbd Hbn Hfr Hk. pose proof Hw as [W1 W2 W3 W4 W5 W6 W7 W8 (q & Hq & Hqs) W10].
  destruct (wakes_up i q L_disk s3) as (s4 & t & E4 & Hi & Hlen & (q' & Hq' & Hrun) & Hres);
    [done|done|done|done|unfold lock_free; rewrite W6; apply Hd|done|].
  destruct (Hk s4) as [ie Ek]. destruct (Hres ie) as (g & Er & Hg & Hgn & Hgc & Hgl). exists s4.
  set (s4' := with_pt t (with_hw (hw_acq L_disk g) s3)) in *.
  assert (fs_of s4' = fs_of s3) as Ef by (unfold s4'; by st_simpl).
  assert (vd_of s4' = vd_of s3) as Ev by (unfold s4', vd_of; by st_simpl).
  assert (lock_free L_disk g) as Hgf by (unfold lock_free; rewrite Hgl, W6; apply Hd).
  enough (wp (done_wait buf_addr (Datatypes.S n) b ;; rw_rest free_chan i0) s4' (λ _ s5, returned s i b x y s3 s5)) as ([] & s5 & E5 & Hret)%wp_elim.
  { exists s5. split; [done|]. split; [|done]. rewrite Ek. unfold bind. rewrite Er. exact E5. }
  cbn [done_wait]. wp_step. unfold buf_at, get_fs. wp_go. rewrite Ef, Hb. wp_go. rewrite decide_False by lia. wp_go.
  eapply wp_mono; [apply (rest_spec buf_addr free_chan i0 i1 i2 b write (sector_of x) s4' g); rewrite ?Ev; try done|].
  { unfold s4'. by st_simpl. }
  { apply quiet_held; try done. }
  { intros j Hj. destruct W1 as [_ R]. rewrite list.Forall_forall in R. rewrite W2 by auto. by rewrite decide_True. }
  intros [] s5 (t5 & v & -> & Hi5 & Hk5 & ->). rewrite Ev. set (v := gave_back _ _). set (s5 := with_pt t5 _).
  assert (pt_of s4' = t) as Ep by (unfold s4'; by st_simpl). rewrite Ep in Hk5.
  apply (returned_intro s i p b x y i0 i1 i2 s3 t t5 g s5 v write _ Hd Hw); try done; [by exists q'|].
  unfold s5, s4', with_vd. by st_simpl.
Qed.

(** ** The effect on the file system *)

Lemma alter_alter {A} (g h : A → A) (l : list A) k : alter g k (alter h k l) = alter (g ∘ h) k l.
Proof.
  apply list_eq. intros j. destruct (decide (j = k)) as [->|].
  - rewrite !list_lookup_alter_eq. by destruct (l !! k).
  - by rewrite !list_lookup_alter_ne.
Qed.

Lemma alter_agree {A} (g h : A → A) (l : list A) k x : l !! k = Some x → g x = h x → alter g k l = alter h k l.
Proof.
  intros Hx Hg. apply list_eq. intros j. destruct (decide (j = k)) as [->|].
  - rewrite !list_lookup_alter_eq, Hx. simpl. by rewrite Hg.
  - by rewrite !list_lookup_alter_ne.
Qed.

Lemma alter_same {A} (g : A → A) (l : list A) k x : l !! k = Some x → g x = x → alter g k l = l.
Proof.
  intros Hx Hg. apply list_eq. intros j. destruct (decide (j = k)) as [->|].
  - rewrite list_lookup_alter_eq, Hx. simpl. by rewrite Hg.
  - by rewrite list_lookup_alter_ne.
Qed.

Definition rw_effect (b : nat) (x : buf) (write : bool) (f : fsst) : fsst :=
  if write then set_disk (disk_write (blockno x) (data x) (disk f)) f
  else set_bufs (alter (set_data (image (disk f) (blockno x))) b (bufs f)) f.

Lemma bio_effect b x write s : bufs (fs_of s) !! b = Some x →
  Bio.virtio_disk_rw b write s = Ok tt (with_fs (rw_effect b x write (fs_of s)) s).
Proof. intros Hb. unfold Bio.virtio_disk_rw, buf_at, bind, get_fs, gets. simpl. rewrite Hb. by destruct write. Qed.

Lemma driver_effect b x write f : bufs f !! b = Some x → bdisk x = 0 → 0 ≤ blockno x < 2 ^ 31 →
  let f2 := transfer b write (sector_of x) (set_bufs (alter (set_bdisk 1) b (bufs f)) f) in
  set_bufs (alter (set_bdisk 0) b (bufs f2)) f2 = rw_effect b x write f.
Proof.
  intros Hb Hd Hr. assert (sector_of x / 2 = blockno x) as Hs.
  { unfold sector_of, u32. change (BSIZE / 512) with 2. rewrite wrap_small by lia. by rewrite Z.div_mul. }
  cbv zeta. unfold transfer, rw_effect. rewrite Hs. destruct write; cbn [bufs set_bufs set_disk disk].
  - rewrite list_lookup_alter_eq, Hb. simpl. rewrite alter_alter, (alter_same _ _ _ x Hb); [done|]. destruct x. simpl in *. by subst.
  - rewrite !alter_alter, (alter_agree _ (set_data (image (disk f) (blockno x))) _ _ x Hb); [done|]. destruct x. simpl in *. by subst.
Qed.

Lemma effect_buf b x write f : bufs f !! b = Some x → bdisk x = 0 → 0 ≤ blockno x < 2 ^ 31 →
  ∃ y, bufs (rw_effect b x write f) !! b = Some y ∧ bdisk y = 0 ∧ 0 ≤ blockno y < 2 ^ 31.
Proof.
  intros Hb Hd Hr. destruct write; simpl; [by exists x|]. rewrite list_lookup_alter_eq, Hb. by exists (set_data (image (disk f) (blockno x)) x).
Qed.

Lemma rw_whole n m write s i p b x : disk_idle s i p b x →
  ∃ s1 k, virtio_disk_rw dev (Datatypes.S (Datatypes.S n)) buf_addr free_chan b write s = Switch s1 k ∧
    (∃ q, procs (pt_of s1) !! i = Some q ∧ asleep b q) ∧ lock_free L_disk (hw_of s1) ∧ (∃ s2, serves s1 s2) ∧
    ∀ s2, serves s1 s2 → ∃ s3 s4 s5, virtio_disk_intr dev buf_addr (Datatypes.S (Datatypes.S m)) s2 = Ok tt s3 ∧
      scheduler_try i s3 = Ok true s4 ∧ k s4 = Ok tt s5 ∧ fs_of s5 = rw_effect b x write (fs_of s) ∧
      pm_of s5 = pm_of s ∧ locks (hw_of s5) = locks (hw_of s) ∧ ∃ p' y, disk_idle s5 i p' b y.
Proof.
  intros Hd. destruct (rw_sleeps dev buf_addr free_chan (Datatypes.S n) b write s i p x Hd) as (s1 & k & i0 & i1 & i2 & E1 & Hp & Hk).
  destruct (posted_waiting buf_addr write s i p b x i0 i1 i2 s1 Hd Hp) as (Hw1 & Ev1 & Ef1).
  exists s1, k. split; [done|]. split; [apply Hw1|].
  split; [unfold lock_free; rewrite (wt_locks _ _ _ _ _ _ _ _ _ _ Hw1); apply Hd|]. split.
  { pose proof (sized_taken [i0; i1; i2] _ (di_sized _ _ _ _ _ Hd)) as Hsz.
    destruct (submitted_request b write (sector_of x) i0 i1 i2 _ (po_ids _ _ _ _ _ _ _ _ _ _ Hp) Hsz) as (Hrq & _ & _ & _ & _ & _ & Hav & Hai).
    eexists. exists i0, i1, i2, b, write, (sector_of x), (io (dev_of s1)). rewrite Ev1. split_and!; [|done|reflexivity].
    by rewrite Hai, avail_newest. }
  intros s2 Hs. destruct (served_waiting write s i p b x i0 i1 i2 s1 s2 Hd Hp Hs) as (Hw2 & Ef2 & Hi & Hu & Hdu & Hr).
  destruct (wp_elim _ _ _ (intr_wakes m write s i p b x i0 i1 i2 s2 Hd Hw2 Hi Hu Hdu Hr)) as ([] & s3 & E3 & Hw3 & Ef3 & Hu3).
  rewrite Ef2, driver_effect in Ef3 by apply Hd.
  destruct (effect_buf b x write (fs_of s)) as (y & Hy & Hyd & Hyb); [apply Hd..|]. rewrite <- Ef3 in Hy.
  destruct (rw_returns n write s i p b x y i0 i1 i2 s3 k Hd Hw3 Hu3 Hy Hyd Hyb (po_free _ _ _ _ _ _ _ _ _ _ Hp) Hk) as (s4 & s5 & E4 & E5 & []).
  exists s3, s4, s5. split_and!; try done; [congruence|]. destruct rt_idle0 as [p' ?]. by exists p', y.
Qed.

End Whole.

(** ** A concrete machine with an idle disk *)

Definition ex_vdisk : vdisk :=
  mkVdisk (replicate 8 desc0) 65535 (replicate 8 0) 65535 (replicate 8 0) (replicate 8 1) 65535 (replicate 8 (mkInfo None 0))
    (replicate 8 (mkReq 0 0 0)).
Definition ex_disk_hw : hw := add_locks [L_disk] ex_vm_hw.
Definition ex_disk_st : kern unit :=
  mkKern (mkKst ex_disk_hw ex_vm_table (mkPmem ex_links (ex_page 1)) (ex_fs (λ _, [])))
    (mkDev (mkCons [] 0 0 0) 0 0 0 0 (λ _, 0) ex_vdisk 0 0 1 tt).
Definition ex_mmio : mmio unit := mkMmio _ (λ _ _, (1, tt)) (λ _ _ _, tt).

Lemma ex_disk_quiet : quiet ex_disk_st ∧ lock_free L_disk ex_disk_hw.
Proof.
  assert (∀ lk, lk ∈ [L_disk] ∨ lock_free lk ex_vm_hw → lock_free lk ex_disk_hw) as Hf by (intros; by apply free_add_locks).
  destruct (ex_vm_quiet (mkPmem ex_links (ex_page 1))) as [Hc Hw Hp Hi]. split; [split|apply Hf; left; by left].
  - destruct Hc as (c & Hc & Hn). by exists c.
  - intros b Hb. apply Hf. right. by apply Hw.
  - intros j q Hj. apply Hf. right. by eapply (Hp j q).
  - exact Hi.
Qed.

Lemma ex_disk_idle : disk_idle ex_disk_st 1 ex_vm_proc 0 (ex_buf 0).
Proof.
  destruct ex_disk_quiet as [Hq Hl]. split; try done.
  exists [0; 1; 2]. split_and!; [done| |].
  - split; [apply (bool_decide_unpack _); vm_compute; exact I|]. repeat constructor; lia.
  - intros j Hj. repeat (apply elem_of_cons in Hj as [->|Hj]; [done|]). by apply elem_of_nil in Hj.
Qed.

(** ** The theorems *)

(** The descriptor allocator is all or nothing: with the driver's lock
    held, [alloc3_desc] either returns three different descriptors that were
    free and are now taken, or, when fewer than three are free, returns -1
    with every descriptor free or taken as before, and wakes those that wait
    for descriptors if it had to give some back. *)
Theorem alloc3_desc_all_or_nothing (U : Type) (free_chan : Z) (s : kern U) :
  quiet s → 1 ≤ noff (mycpu (hw_of s)) → length (vfree (vd_of s)) = 8%nat → Forall (λ x, x = 0 ∨ x = 1) (vfree (vd_of s)) →
  ∃ r s', alloc3_desc free_chan s = Ok r s' ∧
    match r with
    | Some idx => length idx = 3%nat ∧ NoDup idx ∧
        (∀ j, 0 ≤ j < 8 → free_at j (vd_of s') = if decide (j ∈ idx) then 0 else free_at j (vd_of s)) ∧
        (∀ j, j ∈ idx → 0 ≤ j < 8 ∧ free_at j (vd_of s) = 1) ∧ pt_of s' = pt_of s
    | None => (∃ got, (length got < 3)%nat ∧ ∀ j, 0 ≤ j < 8 → free_at j (vd_of s) = 1 → j ∈ got) ∧
        (∀ j, 0 ≤ j < 8 → free_at j (vd_of s') = free_at j (vd_of s)) ∧ wq_inv (pt_of s')
    end.
Proof.
  intros Hq Hn Hl Hb. pose proof (alloc3_desc_spec free_chan s Hl Hq Hn) as (r & s' & E & Hr)%wp_elim. exists r, s'. split; [done|].
  assert (∀ j, 0 ≤ j < 8 → free_at j (vd_of s) = 0 ∨ free_at j (vd_of s) = 1) as H01.
  { intros j Hj. unfold free_at. destruct (vfree (vd_of s) !! Z.to_nat j) as [x|] eqn:Ex; [|by left].
    rewrite list.Forall_forall in Hb. apply Hb. by eapply list_elem_of_lookup_2. }
  destruct Hr as [(i0 & i1 & i2 & -> & [Hnd Hr] & Hf & ->)|(-> & got & t & Hlen & [Hnd Hr] & Hg & -> & Hi & _)].
  - rewrite vd_of_with_vd. assert (∀ j, j ∈ [i0; i1; i2] → 0 ≤ j < 8) as Hin by (by rewrite list.Forall_forall in Hr).
    split; [done|]. split; [done|]. split; [|split; [|unfold with_vd; by st_simpl]].
    + intros j Hj. apply free_at_taken; [done|done|lia].
    + intros j Hj. split; [auto|]. destruct (H01 j (Hin j Hj)) as [E0|]; [|done]. by apply Hf in Hj.
  - split; [|split; [|by st_simpl]].
    + exists got. split; [done|]. intros j Hj E1. apply Hg; [done|lia].
    + intros j Hj. assert (vd_of (with_pt t (with_vd (gave_back got (taken got (vd_of s))) s)) = gave_back got (taken got (vd_of s))) as ->.
      { unfold vd_of, with_vd. by st_simpl. }
      rewrite gave_back_at; [|done|lia|by rewrite length_taken]. rewrite free_at_taken by (done || lia). case_decide as Hin; [|done].
      apply Hg in Hin; [|done]. destruct (H01 j Hj); done.
Qed.

Lemma alloc3_desc_all_or_nothing_witness : ∃ r s',
  alloc3_desc 7 (with_hw (hw_acq L_disk ex_disk_hw) ex_disk_st) = Ok r s'.
Proof.
  destruct (alloc3_desc_all_or_nothing unit 7 (with_hw (hw_acq L_disk ex_disk_hw) ex_disk_st)) as (r & s' & E & _).
  - exact (quiet_acq ex_disk_st L_disk (proj1 ex_disk_quiet) ltac:(done) ltac:(done)).
  - discriminate.
  - reflexivity.
  - repeat constructor; by right.
  - exact (ex_intro _ r (ex_intro _ s' E)).
Defined.

(** C4 Refinement: the disk driver implements the disk the buffer cache
    assumes.  [virtio_disk_rw] posts its request and sleeps with its lock
    released; whatever the state in which a device that follows the virtio
    specification has served the request, the completion interrupt wakes the
    caller, the scheduler picks it, and the call returns with exactly the
    effect of [Bio.virtio_disk_rw]: the block has been written to, or read
    from, the disk block of the buffer, nothing else of the file system, of
    memory or of the locks has changed, and the descriptors are free for the
    next request.  The ring indices may wrap around. *)
Theorem virtio_rw_refines_disk (U : Type) (dev : mmio U) (buf_addr : nat → Z) (free_chan : Z) (n m b i : nat) (write : bool)
    (s : kern U) (p : proc) (x : buf) : disk_idle s i p b x →
  ∃ s1 k f, virtio_disk_rw dev (S (S n)) buf_addr free_chan b write s = Switch s1 k ∧
    Bio.virtio_disk_rw b write s = Ok tt (with_fs f s) ∧
    (∃ q, procs (pt_of s1) !! i = Some q ∧ asleep_on (buf_addr b) q) ∧ lock_free L_disk (hw_of s1) ∧ (∃ s2, serves s1 s2) ∧
    ∀ s2, serves s1 s2 → ∃ s3 s4 s5, virtio_disk_intr dev buf_addr (S (S m)) s2 = Ok tt s3 ∧
      scheduler_try i s3 = Ok true s4 ∧ k s4 = Ok tt s5 ∧ fs_of s5 = f ∧
      pm_of s5 = pm_of s ∧ locks (hw_of s5) = locks (hw_of s) ∧ ∃ p' y, disk_idle s5 i p' b y.
Proof.
  intros Hd. destruct (rw_whole dev buf_addr free_chan n m write s i p b x Hd) as (s1 & k & E & Hq & Hl & Hs & Hrest).
  exists s1, k, (rw_effect b x write (fs_of s)). split_and!; try done. by apply bio_effect, Hd.
Qed.

Lemma virtio_rw_refines_disk_witness : ∃ s1 k s2 s3, virtio_disk_rw ex_mmio 2 (λ b, Z.of_nat b) 7 0 true ex_disk_st = Switch s1 k ∧
  serves s1 s2 ∧ virtio_disk_intr ex_mmio (λ b, Z.of_nat b) 2 s2 = Ok tt s3.
Proof.
  destruct (virtio_rw_refines_disk unit ex_mmio (λ b, Z.of_nat b) 7 0 0 0 1 true ex_disk_st ex_vm_proc (ex_buf 0) ex_disk_idle)
    as (s1 & k & f & E & _ & _ & _ & (s2 & Hs) & Hrest).
  destruct (Hrest s2 Hs) as (s3 & _ & _ & E3 & _).
  exact (ex_intro _ s1 (ex_intro _ k (ex_intro _ s2 (ex_intro _ s3 (conj E (conj Hs E3)))))).
Defined.
