(* ===== verification/Csr.v ===== *)
(** * Control registers, the interrupt controller and boot in machine mode

    The accessors of kernel/riscv.h, kernel/plic.c and kernel/start.c.  A
    register is read and written whole; the interrupt-enable bit of sstatus is
    kept in [hw], where the spinlocks use it, and put in place by [r_sstatus]. *)

From S2P Require Import Prelude Params CString Spinlock ProcDefs Memory FsDefs Device.

Definition MSTATUS_MPP_MASK : Z := Z.shiftl 3 11.
Definition MSTATUS_MPP_S : Z := Z.shiftl 1 11.
Definition SSTATUS_SPP : Z := Z.shiftl 1 8.
Definition SSTATUS_SPIE : Z := Z.shiftl 1 5.
Definition SSTATUS_SIE : Z := Z.shiftl 1 1.
Definition SIE_SEIE : Z := Z.shiftl 1 9.
Definition SIE_STIE : Z := Z.shiftl 1 5.
Definition MIE_STIE : Z := Z.shiftl 1 5.
Definition SATP_SV39 : Z := Z.shiftl 8 60.
Definition MAKE_SATP (pagetable : Z) : Z := Z.lor SATP_SV39 (Z.shiftr pagetable 12).

Definition UART0_IRQ : Z := 10.
Definition VIRTIO0_IRQ : Z := 1.
Definition PLIC_SENABLE (hart : Z) : Z := PLIC + 0x2080 + hart * 0x100.
Definition PLIC_SPRIORITY (hart : Z) : Z := PLIC + 0x201000 + hart * 0x2000.
Definition PLIC_SCLAIM (hart : Z) : Z := PLIC + 0x201004 + hart * 0x2000.

Section Ops.
Context {S U : Type} `{HasDev S U}.

Definition r_mhartid : M S Z := r_csr CSR_mhartid.
Definition r_mstatus : M S Z := r_csr CSR_mstatus.
Definition w_mstatus (x : Z) : M S unit := w_csr CSR_mstatus x.
Definition w_mepc (x : Z) : M S unit := w_csr CSR_mepc x.
Definition r_sstatus : M S Z :=
  x <- r_csr CSR_sstatus ;;
  h <- get_hw ;;
  ret (if sie (mycpu h) then Z.lor x SSTATUS_SIE else x).
Definition w_sstatus (x : Z) : M S unit :=
  w_csr CSR_sstatus (Z.land x (Z.lnot SSTATUS_SIE)) ;;
  mod_hw (λ h, set_cpu (set_sie (negb (bool_decide (Z.land x SSTATUS_SIE = 0))) (mycpu h)) h).
Definition r_sie : M S Z := r_csr CSR_sie_reg.
Definition w_sie (x : Z) : M S unit := w_csr CSR_sie_reg x.
Definition r_mie : M S Z := r_csr CSR_mie.
Definition w_mie (x : Z) : M S unit := w_csr CSR_mie x.
Definition w_sepc (x : Z) : M S unit := w_csr CSR_sepc x.
Definition r_sepc : M S Z := r_csr CSR_sepc.
Definition w_medeleg (x : Z) : M S unit := w_csr CSR_medeleg x.
Definition w_mideleg (x : Z) : M S unit := w_csr CSR_mideleg x.
Definition w_stvec (x : Z) : M S unit := w_csr CSR_stvec x.
Definition w_stimecmp (x : Z) : M S unit := w_csr CSR_stimecmp x.
Definition r_menvcfg : M S Z := r_csr CSR_menvcfg.
Definition w_menvcfg (x : Z) : M S unit := w_csr CSR_menvcfg x.
Definition w_pmpcfg0 (x : Z) : M S unit := w_csr CSR_pmpcfg0 x.
Definition w_pmpaddr0 (x : Z) : M S unit := w_csr CSR_pmpaddr0 x.
Definition w_satp (x : Z) : M S unit := w_csr CSR_satp x.
Definition r_satp : M S Z := r_csr CSR_satp.
Definition r_scause : M S Z := r_csr CSR_scause.
Definition r_stval : M S Z := r_csr CSR_stval.
Definition w_mcounteren (x : Z) : M S unit := w_csr CSR_mcounteren x.
Definition r_mcounteren : M S Z := r_csr CSR_mcounteren.
Definition r_time : M S Z := r_csr CSR_time.
Definition r_tp : M S Z := gets (λ s, tp (hw_of s)).
Definition w_tp (x : Z) : M S unit := mod_hw (λ h, mkHw x (cpus h) (locks h)).

(** ** plic.c *)

Variable plic : mmio U.

Definition plicinit : M S unit :=
  mm_store plic (PLIC + UART0_IRQ * 4) 1 ;;
  mm_store plic (PLIC + VIRTIO0_IRQ * 4) 1.

Definition plicinithart : M S unit :=
  hart <- r_tp ;;
  mm_store plic (PLIC_SENABLE hart) (Z.lor (Z.shiftl 1 UART0_IRQ) (Z.shiftl 1 VIRTIO0_IRQ)) ;;
  mm_store plic (PLIC_SPRIORITY hart) 0.

Definition plic_claim : M S Z :=
  hart <- r_tp ;;
  irq <- mm_load plic (PLIC_SCLAIM hart) ;;
  ret (i32 irq).

Definition plic_complete (irq : Z) : M S unit :=
  hart <- r_tp ;;
  mm_store plic (PLIC_SCLAIM hart) irq.

(** ** start.c *)

(* the address of main() *)
Variable main : Z.

Definition timerinit : M S unit :=
  x <- r_mie ;;
  w_mie (Z.lor x MIE_STIE) ;;
  x <- r_menvcfg ;;
  w_menvcfg (Z.lor x (Z.shiftl 1 63)) ;;
  x <- r_mcounteren ;;
  w_mcounteren (Z.lor x 2) ;;
  t <- r_time ;;
  w_stimecmp (t + 1000000).

(* start() up to its mret *)
Definition start : M S unit :=
  x <- r_mstatus ;;
  let x := Z.land x (Z.lnot MSTATUS_MPP_MASK) in
  let x := Z.lor x MSTATUS_MPP_S in
  w_mstatus x ;;
  w_mepc main ;;
  w_satp 0 ;;
  w_medeleg 0xffff ;;
  w_mideleg 0xffff ;;
  x <- r_sie ;;
  w_sie (Z.lor (Z.lor x SIE_SEIE) SIE_STIE) ;;
  w_pmpaddr0 0x3fffffffffffff ;;
  w_pmpcfg0 0xf ;;
  timerinit ;;
  id <- r_mhartid ;;
  w_tp (i32 id).

End Ops.
