(* ===== verification/Syscall.v ===== *)
(** * System calls (kernel/sysproc.c and the table of kernel/syscall.c) *)

From S2P Require Import Prelude Params CString Spinlock ProcDefs WaitQueue Sched Memory Kalloc Vm FsDefs Seq Sleeplock Bio Log Pipe Fs File ProcLife Exec Sysfile Printf Device Uart.

(* vm.h *)
Definition SBRK_EAGER : Z := 1.
Definition SBRK_LAZY : Z := 2.

(* syscall.h *)
Definition SYS_fork : Z := 1.
Definition SYS_exit : Z := 2.
Definition SYS_wait : Z := 3.
Definition SYS_pipe : Z := 4.
Definition SYS_read : Z := 5.
Definition SYS_kill : Z := 6.
Definition SYS_exec : Z := 7.
Definition SYS_fstat : Z := 8.
Definition SYS_chdir : Z := 9.
Definition SYS_dup : Z := 10.
Definition SYS_getpid : Z := 11.
Definition SYS_sbrk : Z := 12.
Definition SYS_pause : Z := 13.
Definition SYS_uptime : Z := 14.
Definition SYS_open : Z := 15.
Definition SYS_write : Z := 16.
Definition SYS_mknod : Z := 17.
Definition SYS_unlink : Z := 18.
Definition SYS_link : Z := 19.
Definition SYS_mkdir : Z := 20.
Definition SYS_close : Z := 21.

(** What the system calls need from outside: link-time addresses, the device
    table, the bounds on waiting loops, and the UART for messages. *)
Record sysenv (S U : Type) : Type := mkSysenv {
  e_kend : Z; e_patience : nat; e_bcache : Z; e_itable : Z; e_logaddr : Z; e_trampoline : Z; e_forkret : Z; e_ticks : Z;
  e_procaddr : nat → Z; e_devsw : Z → devops S; e_pad : list Z; e_uart : mmio U; e_polls : nat;
}.
Arguments e_kend {S U} _. Arguments e_patience {S U} _. Arguments e_bcache {S U} _. Arguments e_itable {S U} _.
Arguments e_logaddr {S U} _. Arguments e_trampoline {S U} _. Arguments e_forkret {S U} _. Arguments e_ticks {S U} _.
Arguments e_procaddr {S U} _. Arguments e_devsw {S U} _. Arguments e_pad {S U} _. Arguments e_uart {S U} _. Arguments e_polls {S U} _.

Section Ops.
Context {S U : Type} `{HasDev S U}.
Variable E : sysenv S U.
Notation kend := (e_kend E).
Notation patience := (e_patience E).
Notation bcache := (e_bcache E).
Notation itable := (e_itable E).
Notation logaddr := (e_logaddr E).
Notation trampoline := (e_trampoline E).
Notation devsw := (e_devsw E).

(** ** sysproc.c *)

Definition sys_exit : M S Z :=
  n <- argint 0 ;;
  kexit kend patience bcache itable logaddr (e_procaddr E) n ;;
  ret 0.

Definition sys_getpid : M S Z :=
  i <- curproc ;;
  p <- proc_at i ;;
  ret (pid p).

Definition sys_fork : M S Z := kfork kend trampoline (e_forkret E).

Definition sys_wait : M S Z :=
  p <- argaddr 0 ;;
  kwait kend patience (e_procaddr E) p.

Definition sys_sbrk : M S Z :=
  n <- argint 0 ;;
  t <- argint 1 ;;
  i <- curproc ;;
  p <- proc_at i ;;
  let addr := sz p in
  if decide (t = SBRK_EAGER ∨ n < 0) then
    r <- growproc kend n ;;
    if decide (r < 0) then ret (-1) else ret addr
  else if decide (u64 (addr + n) < addr) then ret (-1)
  else if decide (u64 (addr + n) > TRAPFRAME) then ret (-1)
  else
    i <- curproc ;;
    mod_proc i (λ p, set_sz (u64 (sz p + n)) p) ;;
    ret addr.

(* while(ticks - ticks0 < n), at most [fuel] times; None for the early return *)
Fixpoint pause_wait (fuel : nat) (ticks0 n : Z) : M S (option unit) :=
  match fuel with
  | O => λ s, Spin s
  | Datatypes.S fuel =>
      d <- get_dev ;;
      if decide (u32 (ticks d - ticks0) < n) then
        i <- curproc ;;
        k <- Sched.killed i ;;
        if decide (k ≠ 0) then
          release L_tick ;;
          ret None
        else
          sleep (e_ticks E) L_tick ;;
          pause_wait fuel ticks0 n
      else ret (Some tt)
  end.

Definition sys_pause : M S Z :=
  n <- argint 0 ;;
  let n := if decide (n < 0) then 0 else n in
  acquire L_tick ;;
  d <- get_dev ;;
  let ticks0 := ticks d in
  r <- pause_wait patience ticks0 n ;;
  match r with
  | None => ret (-1)
  | Some _ => release L_tick ;; ret 0
  end.

Definition sys_kill : M S Z :=
  pid <- argint 0 ;;
  kkill pid.

Definition sys_uptime : M S Z :=
  acquire L_tick ;;
  d <- get_dev ;;
  let xticks := ticks d in
  release L_tick ;;
  ret xticks.

(** ** syscall.c *)

(* syscalls[num]; None where the array has no function *)
Definition syscalls (num : Z) : option (M S Z) :=
  if decide (num = SYS_fork) then Some sys_fork
  else if decide (num = SYS_exit) then Some sys_exit
  else if decide (num = SYS_wait) then Some sys_wait
  else if decide (num = SYS_pipe) then Some (sys_pipe kend patience bcache itable logaddr)
  else if decide (num = SYS_read) then Some (sys_read kend patience bcache itable devsw)
  else if decide (num = SYS_kill) then Some sys_kill
  else if decide (num = SYS_exec) then Some (sys_exec kend patience bcache itable logaddr trampoline)
  else if decide (num = SYS_fstat) then Some (sys_fstat kend patience bcache itable (e_pad E))
  else if decide (num = SYS_chdir) then Some (sys_chdir kend patience bcache itable logaddr)
  else if decide (num = SYS_dup) then Some sys_dup
  else if decide (num = SYS_getpid) then Some sys_getpid
  else if decide (num = SYS_sbrk) then Some sys_sbrk
  else if decide (num = SYS_pause) then Some sys_pause
  else if decide (num = SYS_uptime) then Some sys_uptime
  else if decide (num = SYS_open) then Some (sys_open kend patience bcache itable logaddr)
  else if decide (num = SYS_write) then Some (sys_write kend patience bcache itable logaddr devsw)
  else if decide (num = SYS_mknod) then Some (sys_mknod kend patience bcache itable logaddr)
  else if decide (num = SYS_unlink) then Some (sys_unlink kend patience bcache itable logaddr)
  else if decide (num = SYS_link) then Some (sys_link kend patience bcache itable logaddr)
  else if decide (num = SYS_mkdir) then Some (sys_mkdir kend patience bcache itable logaddr)
  else if decide (num = SYS_close) then Some (sys_close kend patience bcache itable logaddr)
  else None.

Definition unknown_fmt : string := "%d %s: unknown sys call %d" ++ newline.

Definition syscall : M S unit :=
  i <- curproc ;;
  p <- proc_at i ;;
  a7 <- ld64 (trapframe p + tf_a 7) ;;
  let num := i32 a7 in
  match (if decide (0 < num < 22) then syscalls num else None) with
  | Some f =>
      r <- f ;;
      p <- proc_at i ;;
      st64 (trapframe p + tf_a 0) (u64 r)
  | None =>
      printf (e_uart E) (e_polls E) unknown_fmt [AInt (pid p); AStr (Some (c_str (name p))); AInt num] ;;
      st64 (trapframe p + tf_a 0) (u64 (-1))
  end.

End Ops.
