(* ===== verification/Trap.v ===== *)
(** * Traps and boot (kernel/trap.c, forkret of proc.c, the kernel page table
    of vm.c and kernel/main.c)

    [usertrap] and [forkret] return the satp value the trampoline installs.
    The assembly around them (kernelvec.S, trampoline.S) is in Asm.v; the
    addresses it is linked at are variables. *)

From S2P Require Import Prelude Params CString Spinlock ProcDefs WaitQueue Sched Memory Kalloc Vm FsDefs Seq Sleeplock Bio Log Pipe Fs File ProcLife Exec Sysfile Printf Device Uart Console Virtio Csr Syscall.

Definition TIMER_INTR : Z := 0x8000000000000005.
Definition EXTERNAL_INTR : Z := 0x8000000000000009.

(** Link-time addresses and devices, besides those of [sysenv]. *)
Record trapenv (S U : Type) : Type := mkTrapenv {
  t_sys : sysenv S U;
  t_kernelvec : Z; t_uservec : Z; t_usertrap : Z; t_etext : Z;
  t_plic : mmio U; t_disk : mmio U;
  t_tx_chan : Z; t_cons_r : Z; t_free_chan : Z; t_buf_addr : nat → Z;
  t_intrs : nat;  (* bound on the characters or completions one interrupt handles *)
}.
Arguments t_sys {S U} _. Arguments t_kernelvec {S U} _. Arguments t_uservec {S U} _. Arguments t_usertrap {S U} _.
Arguments t_etext {S U} _. Arguments t_plic {S U} _. Arguments t_disk {S U} _. Arguments t_tx_chan {S U} _.
Arguments t_cons_r {S U} _. Arguments t_free_chan {S U} _. Arguments t_buf_addr {S U} _. Arguments t_intrs {S U} _.

Section Ops.
Context {S U : Type} `{HasDev S U}.
Variable T : trapenv S U.
Notation E := (t_sys T).
Notation kend := (e_kend E).
Notation uart := (e_uart E).
Notation polls := (e_polls E).
Notation kernelvec := (t_kernelvec T).

Definition trapinit : M S unit := initlock L_tick "time".

Definition trapinithart : M S unit := w_stvec kernelvec.

Definition clockintr : M S unit :=
  hart <- r_tp ;;
  (if decide (hart = 0) then
     acquire L_tick ;;
     mod_dev (λ d, set_ticks (u32 (ticks d + 1)) d) ;;
     wakeup (e_ticks E) ;;
     release L_tick
   else ret tt) ;;
  t <- r_time ;;
  w_stimecmp (t + 1000000).

Definition devintr : M S Z :=
  scause <- r_scause ;;
  if decide (scause = EXTERNAL_INTR) then
    irq <- plic_claim (t_plic T) ;;
    (if decide (irq = UART0_IRQ) then uartintr uart polls (t_tx_chan T) (t_cons_r T) (t_intrs T)
     else if decide (irq = VIRTIO0_IRQ) then virtio_disk_intr (t_disk T) (t_buf_addr T) (t_intrs T)
     else if decide (irq ≠ 0) then printf uart polls ("unexpected interrupt irq=%d" ++ newline) [AInt irq]
     else ret tt) ;;
    (if decide (irq ≠ 0) then plic_complete (t_plic T) irq else ret tt) ;;
    ret 1
  else if decide (scause = TIMER_INTR) then
    clockintr ;;
    ret 2
  else ret 0.

Definition prepare_return : M S unit :=
  i <- curproc ;;
  p <- proc_at i ;;
  intr_off ;;
  let trampoline_uservec := u64 (TRAMPOLINE + (t_uservec T - e_trampoline E)) in
  w_stvec trampoline_uservec ;;
  satp <- r_satp ;;
  st64 (trapframe p + tf_kernel_satp) satp ;;
  st64 (trapframe p + tf_kernel_sp) (u64 (kstack p + PGSIZE)) ;;
  st64 (trapframe p + tf_kernel_trap) (t_usertrap T) ;;
  hart <- r_tp ;;
  st64 (trapframe p + tf_kernel_hartid) hart ;;
  x <- r_sstatus ;;
  let x := Z.land x (Z.lnot SSTATUS_SPP) in
  let x := Z.lor x SSTATUS_SPIE in
  w_sstatus x ;;
  epc <- ld64 (trapframe p + tf_epc) ;;
  w_sepc epc.

Definition usertrap : M S Z :=
  x <- r_sstatus ;;
  if decide (Z.land x SSTATUS_SPP ≠ 0) then Prelude.panic "usertrap: not from user mode" else
  w_stvec kernelvec ;;
  i <- curproc ;;
  p <- proc_at i ;;
  sepc <- r_sepc ;;
  st64 (trapframe p + tf_epc) sepc ;;
  scause <- r_scause ;;
  which_dev <-
    (if decide (scause = 8) then
       k <- Sched.killed i ;;
       (if decide (k ≠ 0) then kexit kend (e_patience E) (e_bcache E) (e_itable E) (e_logaddr E) (e_procaddr E) (-1) else ret tt) ;;
       epc <- ld64 (trapframe p + tf_epc) ;;
       st64 (trapframe p + tf_epc) (u64 (epc + 4)) ;;
       intr_on ;;
       syscall E ;;
       ret 0
     else
       which_dev <- devintr ;;
       if decide (which_dev ≠ 0) then ret which_dev else
       scause <- r_scause ;;
       stval <- r_stval ;;
       p <- proc_at i ;;
       v <- (if decide (scause = 15 ∨ scause = 13) then vmfault kend (pagetable p) stval (if decide (scause = 13) then 1 else 0) else ret 0) ;;
       if decide (v ≠ 0) then ret 0 else
       sepc <- r_sepc ;;
       printf uart polls ("usertrap(): unexpected scause 0x%lx pid=%d" ++ newline) [AInt scause; AInt (pid p)] ;;
       printf uart polls ("            sepc=0x%lx stval=0x%lx" ++ newline) [AInt sepc; AInt stval] ;;
       setkilled i ;;
       ret 0) ;;
  k <- Sched.killed i ;;
  (if decide (k ≠ 0) then kexit kend (e_patience E) (e_bcache E) (e_itable E) (e_logaddr E) (e_procaddr E) (-1) else ret tt) ;;
  (if decide (which_dev = 2) then yield else ret tt) ;;
  prepare_return ;;
  p <- proc_at i ;;
  ret (MAKE_SATP (pagetable p)).

Definition kerneltrap : M S unit :=
  sepc <- r_sepc ;;
  sstatus <- r_sstatus ;;
  scause <- r_scause ;;
  if decide (Z.land sstatus SSTATUS_SPP = 0) then Prelude.panic "kerneltrap: not from supervisor mode" else
  on <- intr_get ;;
  if on : bool then Prelude.panic "kerneltrap: interrupts enabled" else
  which_dev <- devintr ;;
  if decide (which_dev = 0) then
    sepc <- r_sepc ;;
    stval <- r_stval ;;
    printf uart polls ("scause=0x%lx sepc=0x%lx stval=0x%lx" ++ newline) [AInt scause; AInt sepc; AInt stval] ;;
    Prelude.panic "kerneltrap"
  else
  me <- (if decide (which_dev = 2) then myproc else ret None) ;;
  (match me with Some _ => yield | None => ret tt end) ;;
  w_sepc sepc ;;
  w_sstatus sstatus.

(** ** proc.c *)

Definition slash_init : list Z := str "/init".

Definition forkret : M S Z :=
  i <- curproc ;;
  release (lkp i) ;;
  d <- get_dev ;;
  (if decide (fork_first d ≠ 0) then
     fsinit (e_patience E) (e_bcache E) (e_itable E) (e_logaddr E) ROOTDEV ;;
     mod_dev (set_fork_first 0) ;;
     r <- kexec kend (e_patience E) (e_bcache E) (e_itable E) (e_logaddr E) (e_trampoline E) slash_init [slash_init] ;;
     p <- proc_at i ;;
     st64 (trapframe p + tf_a 0) (u64 r) ;;
     a0 <- ld64 (trapframe p + tf_a 0) ;;
     if decide (a0 = u64 (-1)) then Prelude.panic "exec" else ret tt
   else ret tt) ;;
  prepare_return ;;
  p <- proc_at i ;;
  ret (MAKE_SATP (pagetable p)).

(** ** vm.c: the kernel's page table *)

Definition kvmmake : M S Z :=
  kpgtbl <- kalloc ;;
  if decide (kpgtbl = 0) then fault else
  mod_bytes (λ m, memset m kpgtbl 0 PGSIZE) ;;
  kvmmap kpgtbl UART0 UART0 PGSIZE (Z.lor PTE_R PTE_W) ;;
  kvmmap kpgtbl VIRTIO0 VIRTIO0 PGSIZE (Z.lor PTE_R PTE_W) ;;
  kvmmap kpgtbl PLIC PLIC 0x4000000 (Z.lor PTE_R PTE_W) ;;
  kvmmap kpgtbl KERNBASE KERNBASE (t_etext T - KERNBASE) (Z.lor PTE_R PTE_X) ;;
  kvmmap kpgtbl (t_etext T) (t_etext T) (PHYSTOP - t_etext T) (Z.lor PTE_R PTE_W) ;;
  kvmmap kpgtbl TRAMPOLINE (e_trampoline E) PGSIZE (Z.lor PTE_R PTE_X) ;;
  proc_mapstacks kpgtbl ;;
  ret kpgtbl.

Definition kvminit : M S unit :=
  pt <- kvmmake ;;
  mod_dev (set_kernel_pagetable pt).

Definition kvminithart : M S unit :=
  d <- get_dev ;;
  w_satp (MAKE_SATP (kernel_pagetable d)).

(** ** main.c, up to its call of scheduler() *)

(* while(started == 0) ; *)
Fixpoint started_wait (fuel : nat) : M S unit :=
  match fuel with
  | O => λ s, Spin s
  | Datatypes.S fuel =>
      d <- get_dev ;;
      if decide (started d = 0) then started_wait fuel else ret tt
  end.

(* with the device table that consoleinit sets up *)
Definition main (devsw : Z → devops S) : M S (Z → devops S) :=
  hart <- r_tp ;;
  if decide (hart = 0) then
    devsw <- consoleinit uart kend (e_patience E) (t_tx_chan T) (t_cons_r T) devsw ;;
    printfinit ;;
    printf uart polls newline [] ;;
    printf uart polls ("xv6 kernel is booting" ++ newline) [] ;;
    printf uart polls newline [] ;;
    kinit kend ;;
    kvminit ;;
    kvminithart ;;
    procinit ;;
    trapinit ;;
    trapinithart ;;
    plicinit (t_plic T) ;;
    plicinithart (t_plic T) ;;
    binit (e_bcache E) ;;
    iinit (e_itable E) ;;
    fileinit ;;
    virtio_disk_init (t_disk T) ;;
    userinit kend (e_patience E) (e_bcache E) (e_itable E) (e_trampoline E) (e_forkret E) ;;
    mod_dev (set_started 1) ;;
    ret devsw
  else
    started_wait (e_patience E) ;;
    printf uart polls ("hart %d starting" ++ newline) [AInt hart] ;;
    kvminithart ;;
    trapinithart ;;
    plicinithart (t_plic T) ;;
    ret devsw.

End Ops.
