(* ===== verification/TrapTheorems.v ===== *)
(** * Properties of traps, system calls and the clock *)

From S2P Require Import Prelude Params CString Spinlock ProcDefs WaitQueue Sched Memory Kalloc Vm FsDefs Seq Pipe AddressSpace Fs File FsExample ProcLife Exec Printf Device Uart Csr Syscall Trap.

Section Yield.
Context {S : Type} `{HasProcs S}.
Implicit Types s : S.

(* what is left of [yield] when it is resumed *)
Definition yield_rest (i : nat) (ie : bool) : M S unit := set_intena ie ;; release (lkp i).

Lemma yield_spec i p s : quiet s → noff (mycpu (hw_of s)) = 0 → cproc (mycpu (hw_of s)) = Some i →
  procs (pt_of s) !! i = Some p →
  ∃ h1 k, yield s = Switch (with_pt (upd_proc i (set_state RUNNABLE) (pt_of s)) (with_hw h1 s)) k ∧
    (∀ s', ∃ ie, k s' = yield_rest i ie s') ∧
    locks h1 = locks (hw_of s) ∧ tp h1 = tp (hw_of s) ∧ noff (mycpu h1) = 0 ∧ cproc (mycpu h1) = None ∧ cpu_ok h1.
Proof.
  intros [Hcpu _ Hpl _] Hn Hc Hp. set (h0 := hw_settle (hw_of s)).
  assert (cpu_ok h0) as Hok0 by (unfold h0; auto with xv6).
  assert (cproc (mycpu h0) = Some i) as Hc0 by (unfold h0; by rewrite (settled_cproc (hw_of s)) by apply settled_settle).
  assert (lock_free (lkp i) h0) as Hl0 by (apply lock_free_settle; by eapply Hpl).
  enough (wps yield s (λ s' k, (∀ s', ∃ ie, k s' = yield_rest i ie s') ∧ ∃ h1,
    s' = with_pt (upd_proc i (set_state RUNNABLE) (pt_of s)) (with_hw h1 s) ∧ locks h1 = locks (hw_of s) ∧
    tp h1 = tp (hw_of s) ∧ noff (mycpu h1) = 0 ∧ cproc (mycpu h1) = None ∧ cpu_ok h1)) as (s' & k & E & Hk & h1 & -> & Hrest)%wps_elim.
  { by exists h1, k. }
  unfold yield. wp_go. eapply wp_curproc; [done|done|]. fold h0. wp_go. apply wp_acquire; st_simpl; [done|]. wp_go.
  apply wp_mod_proc. st_simpl. apply wps_bind. eapply (wps_sched i (set_state RUNNABLE p)); st_simpl.
  - auto with xv6.
  - rewrite noff_acq. unfold h0. rewrite noff_settle, Hn. done.
  - by rewrite cproc_acq.
  - apply lock_held_acq.
  - simpl. by rewrite list_lookup_alter_eq, Hp.
  - done.
  - intros h1 Hl Ht Hn1 Hc1 Hok. split; [intros s'; exists (intena (mycpu (hw_acq (lkp i) h0))); reflexivity|]. exists h1. st_simpl. split_and!; try done.
    rewrite Hl. by rewrite (locks_rel_undo (lkp i) h0).
Qed.

Lemma yield_rest_spec i ie s : cpu_ok (hw_of s) → noff (mycpu (hw_of s)) = 1 → lock_held (lkp i) (hw_of s) →
  ∃ h', yield_rest i ie s = Ok tt (with_hw h' s) ∧ cpu_ok h' ∧ locks h' = locks (hw_rel (lkp i) (hw_of s)) ∧ tp h' = tp (hw_of s) ∧
    noff (mycpu h') = 0 ∧ cproc (mycpu h') = cproc (mycpu (hw_of s)).
Proof.
  intros Hok Hn Hl. set (h0 := set_cpu (mkCpu (cproc (mycpu (hw_of s))) 1 ie false) (hw_of s)).
  assert (mycpu h0 = mkCpu (cproc (mycpu (hw_of s))) 1 ie false) as E0 by (unfold h0; by hw_simpl).
  exists (hw_rel (lkp i) h0).
  assert (noff (mycpu (hw_rel (lkp i) h0)) = 0) as Hn0 by (by rewrite noff_rel, E0).
  split; [|split_and!; [apply cpu_ok_intro; [apply cpu_some_rel|lia|lia]|by rewrite !locks_rel|done|done|by rewrite cproc_rel, E0]].
  enough (wp (yield_rest i ie) s (λ _ s', s' = with_hw (hw_rel (lkp i) h0) s)) as ([] & ? & -> & ->)%wp_elim by done.
  unfold yield_rest, set_intena, mod_hw. wp_go. rewrite Hn, (sie_off _ Hok) by lia. fold h0.
  apply wp_release_gen; st_simpl; rewrite ?E0; simpl; [done|done|lia|]. by st_simpl.
Qed.
End Yield.

Section Traps.
Context {S U : Type} `{HasDev S U}.
Variable T : trapenv S U.
Implicit Types s : S.
Notation ticks_chan := (e_ticks (t_sys T)).

Lemma wp_r_csr r s (Q : Z → S → Prop) : Q (csr (dev_of s) r) s → wp (r_csr r) s Q.
Proof. done. Qed.

Definition put_csr (r : csrname) (x : Z) (d : devst U) : devst U :=
  set_csr (λ r', if decide (r' = r) then u64 x else csr d r') d.
Lemma wp_w_csr r x s (Q : unit → S → Prop) : Q tt (with_dev (put_csr r x (dev_of s)) s) → wp (w_csr r x) s Q.
Proof. done. Qed.

(** ** The clock *)

(* ticks after a clock interrupt on hart [hart] *)
Definition next_ticks (hart : Z) (d : devst U) : Z := if decide (hart = 0) then u32 (ticks d + 1) else ticks d.
Definition after_tick (hart : Z) (d : devst U) : devst U :=
  put_csr CSR_stimecmp (csr d CSR_time + 1000000) (set_ticks (next_ticks hart d) d).

Lemma clockintr_spec s : quiet s → lock_free L_tick (hw_of s) →
  wp (clockintr T) s (λ _ s', ∃ h t, s' = with_pt t (with_hw h (with_dev (after_tick (tp (hw_of s)) (dev_of s)) s)) ∧
    settled (hw_of s) h ∧ wq_inv t ∧
    if decide (tp (hw_of s) = 0) then keeps (λ _ p, wake1 ticks_chan p) (pt_of s) t else t = pt_of s).
Proof.
  intros Hq Hl. pose proof (q_cpu _ Hq) as Hcpu. unfold clockintr, r_tp, after_tick, next_ticks. wp_go. case_decide as Hz.
  - wp_go. apply wp_acquire; [done|]. wp_go. unfold mod_dev. wp_go. st_simpl. set (s1 := with_dev _ _).
    assert (quiet s1) as Hq1.
    { pose proof (quiet_acq s L_tick Hq ltac:(done) ltac:(done)) as []. unfold s1. split; st_simpl; done. }
    destruct (wakeup_spec ticks_chan s1 Hq1) as (t & E & Hi & Hk). eapply wp_ok; [exact E|].
    rewrite hw_settle_nested; [|apply Hq1|unfold s1; st_simpl; rewrite noff_acq; pose proof (noff_nonneg _ Hcpu); lia].
    unfold s1 in *. st_simpl. eapply (wp_release _ _ (hw_of s)); [by st_simpl|done|done|]. wp_go. apply wp_r_csr. wp_go. apply wp_w_csr.
    st_simpl. exists (hw_settle (hw_of s)), t. split_and!; [|auto with xv6|done|done]. by st_simpl.
  - wp_go. apply wp_r_csr. wp_go. apply wp_w_csr. exists (hw_of s), (pt_of s). split_and!; [|apply settled_refl|apply Hq|done].
    st_simpl. f_equal.
Qed.

Lemma devintr_timer s : csr (dev_of s) CSR_scause = TIMER_INTR → quiet s → lock_free L_tick (hw_of s) →
  wp (devintr T) s (λ r s', r = 2 ∧ ∃ h t, s' = with_pt t (with_hw h (with_dev (after_tick (tp (hw_of s)) (dev_of s)) s)) ∧
    settled (hw_of s) h ∧ wq_inv t ∧
    if decide (tp (hw_of s) = 0) then keeps (λ _ p, wake1 ticks_chan p) (pt_of s) t else t = pt_of s).
Proof.
  intros Hc Hq Hl. unfold devintr. wp_go. apply wp_r_csr. rewrite Hc. rewrite decide_False, decide_True by done. wp_go.
  eapply wp_mono; [by apply clockintr_spec|]. intros [] s' Hs. wp_go. done.
Qed.

(** ** Preemption of kernel code *)

Lemma wp_myproc s (Q : option nat → S → Prop) : cpu_ok (hw_of s) →
  Q (cproc (mycpu (hw_of s))) (with_hw (hw_settle (hw_of s)) s) → wp myproc s Q.
Proof.
  intros Hok HQ. unfold myproc. wp_go. eapply wp_ok; [apply push_off_eq|]. wp_go. pose proof (noff_nonneg _ Hok).
  eapply wp_ok; [apply pop_off_eq; rewrite hw_of_with_hw; unfold hw_push; hw_simpl; simpl; done || lia|].
  wp_go. rewrite !hw_of_with_hw, with_hw_with_hw, hw_pop_push by done. unfold hw_push. hw_simpl. done.
Qed.

(** Kernel code of process [i] has been interrupted: the hardware has cleared
    the interrupt enable bit and set the previous mode. *)
Record interrupted s (i : nat) (p : proc) : Prop := mkInterrupted {
  it_quiet : quiet s;
  it_noff : noff (mycpu (hw_of s)) = 0;
  it_sie : sie (mycpu (hw_of s)) = false;
  it_cur : cproc (mycpu (hw_of s)) = Some i;
  it_proc : procs (pt_of s) !! i = Some p;
  it_run : state p = RUNNING;
  it_tick : lock_free L_tick (hw_of s);
  it_spp : Z.land (csr (dev_of s) CSR_sstatus) SSTATUS_SPP ≠ 0;
  it_sstatus : Z.land (csr (dev_of s) CSR_sstatus) SSTATUS_SIE = 0;
  it_range : ∀ r, 0 ≤ csr (dev_of s) r < 2 ^ 64;
}.

(** What [kerneltrap] leaves when it returns to the interrupted code. *)
Record resumed_code (i : nat) (sepc sstatus : Z) s s' : Prop := mkResumed {
  rc_sepc : csr (dev_of s') CSR_sepc = sepc;
  rc_sstatus : csr (dev_of s') CSR_sstatus = sstatus;
  rc_other : ∀ r, r ≠ CSR_sepc → r ≠ CSR_sstatus → csr (dev_of s') r = csr (dev_of s) r;
  rc_sie : sie (mycpu (hw_of s')) = false;
  rc_noff : noff (mycpu (hw_of s')) = 0;
  rc_pt : pt_of s' = pt_of s;
  rc_pm : pm_of s' = pm_of s;
  rc_fs : fs_of s' = fs_of s;
  rc_cur : cproc (mycpu (hw_of s')) = cproc (mycpu (hw_of s));
  rc_locks : locks (hw_of s') = locks (hw_rel (lkp i) (hw_of s));
}.

Lemma restore_spec sepc sstatus s : 0 ≤ sepc < 2 ^ 64 → 0 ≤ sstatus < 2 ^ 64 → Z.land sstatus SSTATUS_SIE = 0 →
  wp (w_sepc sepc ;; w_sstatus sstatus) s (λ _ s', ∃ h, s' = with_dev (put_csr CSR_sstatus sstatus (put_csr CSR_sepc sepc (dev_of s))) (with_hw h s) ∧
    sie (mycpu h) = false ∧ noff (mycpu h) = noff (mycpu (hw_of s)) ∧ cproc (mycpu h) = cproc (mycpu (hw_of s)) ∧ locks h = locks (hw_of s)).
Proof.
  intros R1 R2 Hz. assert (Z.land sstatus (Z.lnot SSTATUS_SIE) = sstatus) as E.
  { apply Z.bits_inj'. intros n Hn. rewrite Z.land_spec, Z.lnot_spec by done. apply (f_equal (λ z, Z.testbit z n)) in Hz.
    rewrite Z.land_spec, Z.bits_0 in Hz. destruct (Z.testbit sstatus n), (Z.testbit SSTATUS_SIE n); done. }
  wp_step. apply wp_w_csr. unfold w_sstatus, mod_hw. wp_step. apply wp_w_csr. wp_go. st_simpl. rewrite E, bool_decide_eq_true_2 by done.
  eexists. split; [reflexivity|]. hw_simpl. done.
Qed.

Lemma kerneltrap_timer s i p : interrupted s i p → csr (dev_of s) CSR_scause = TIMER_INTR →
  ∃ s1 k, kerneltrap T s = Switch s1 k ∧ ticks (dev_of s1) = next_ticks (tp (hw_of s)) (dev_of s) ∧
    (∃ q, procs (pt_of s1) !! i = Some q ∧ state q = RUNNABLE) ∧ locks (hw_of s1) = locks (hw_of s) ∧
    noff (mycpu (hw_of s1)) = 0 ∧ cpu_ok (hw_of s1) ∧ pm_of s1 = pm_of s ∧ fs_of s1 = fs_of s ∧
    ∀ s2, cpu_ok (hw_of s2) → noff (mycpu (hw_of s2)) = 1 → lock_held (lkp i) (hw_of s2) →
      ∃ s3, k s2 = Ok tt s3 ∧ resumed_code i (csr (dev_of s) CSR_sepc) (csr (dev_of s) CSR_sstatus) s2 s3.
Proof.
  intros [Hq Hn Hsie Hc Hp Hrun Hl Hspp Hss Hr] Hcause. pose proof (q_cpu _ Hq) as Hcpu.
  set (sepc := csr (dev_of s) CSR_sepc). set (sst := csr (dev_of s) CSR_sstatus).
  enough (wps (kerneltrap T) s (λ s1 k, ticks (dev_of s1) = next_ticks (tp (hw_of s)) (dev_of s) ∧
    (∃ q, procs (pt_of s1) !! i = Some q ∧ state q = RUNNABLE) ∧ locks (hw_of s1) = locks (hw_of s) ∧
    noff (mycpu (hw_of s1)) = 0 ∧ cpu_ok (hw_of s1) ∧ pm_of s1 = pm_of s ∧ fs_of s1 = fs_of s ∧
    ∀ s2, cpu_ok (hw_of s2) → noff (mycpu (hw_of s2)) = 1 → lock_held (lkp i) (hw_of s2) →
      ∃ s3, k s2 = Ok tt s3 ∧ resumed_code i sepc sst s2 s3)) as (s1 & k & E & HP)%wps_elim by (by exists s1, k).
  unfold kerneltrap, r_sstatus, r_sepc, r_scause, intr_get, get_hw. wp_step. apply wp_r_csr. wp_step. wp_step. apply wp_r_csr. wp_go. rewrite Hsie. wp_go. apply wp_r_csr.
  rewrite decide_False by done. wp_go. rewrite Hsie. wp_step. eapply wp_mono; [by apply devintr_timer|].
  intros r s' (-> & h & t & -> & Hset & Hi & Hk). rewrite decide_False, decide_True by done. set (s' := with_pt t _).
  assert (hw_of s' = h) as Eh by (unfold s'; by st_simpl). assert (pt_of s' = t) as Ep by (unfold s'; by st_simpl).
  assert (cpu_ok h) as Hokh by (by eapply settled_cpu_ok). wp_step. apply wp_myproc; [by rewrite Eh|]. rewrite Eh.
  rewrite (settled_cproc _ _ Hset), Hc. apply wps_bind. set (s0 := with_hw (hw_settle h) s').
  assert (pt_of s0 = t) as Ep0 by (unfold s0; by st_simpl). assert (hw_of s0 = hw_settle h) as Eh0 by (unfold s0; by st_simpl).
  assert (∃ q, procs t !! i = Some q) as [q Hq'].
  { case_decide; [|subst t; eauto]. destruct Hk as (_ & _ & _ & Hk). destruct (Hk i p Hp) as (e & He). eauto. }
  destruct (yield_spec i q s0) as (h1 & k & Ey & Hky & Hl1 & Ht1 & Hn1 & _ & Hok1); rewrite ?Eh0, ?Ep0.
  { destruct Hq as [_ Q2 Q3 _]. assert (∀ l, lock_free l (hw_of s) → lock_free l (hw_settle h)) as Hf.
    { intros l Hf. apply lock_free_settle. by eapply settled_free. }
    split; rewrite ?Eh0, ?Ep0; [auto with xv6|auto| |done]. case_decide; [|subst t; intros j r Hj; apply Hf; by eapply Q3].
    intros j r Hj. apply Hf. by eapply (plocks_free_keeps _ _ _ _ Hk Q3). }
  { rewrite noff_settle. destruct Hset as [->| ->]; by rewrite ?noff_settle. }
  { rewrite (settled_cproc h) by apply settled_settle. by rewrite (settled_cproc _ _ Hset). }
  { done. }
  unfold wps. rewrite Ey, Ep0 in *. unfold s0, s'. st_simpl. rewrite Eh0 in Hl1. split_and!; try done.
  - simpl. rewrite list_lookup_alter_eq, Hq'. by eexists.
  - rewrite Hl1, locks_settle. by rewrite (settled_locks _ _ Hset).
  - intros s2 Hok2 Hn2 Hh2. destruct (Hky s2) as [ie Ek]. destruct (yield_rest_spec i ie s2 Hok2 Hn2 Hh2) as (h' & Er & Hok' & Hl' & _ & Hn' & Hc').
    destruct (wp_elim _ _ _ (restore_spec sepc sst (with_hw h' s2) (Hr _) (Hr _) Hss)) as ([] & s3 & E3 & h3 & -> & G1 & G2 & G3 & G4).
    eexists. split; [unfold bind at 1; rewrite Ek, Er; exact E3|]. st_simpl.
    split; st_simpl; unfold put_csr; simpl; try done; try congruence.
    + unfold u64. apply wrap_small, Hr.
    + unfold u64. apply wrap_small, Hr.
    + intros r ? ?. by rewrite !decide_False.
    + rewrite G4. st_simpl. by rewrite Hl', locks_rel.
Qed.

(** ** Returning to user space *)

Notation bytes_of s := (bytes (pm_of s)).
Definition uservec_va : Z := u64 (TRAMPOLINE + (t_uservec T - e_trampoline (t_sys T))).

(* the fields of the trap frame that uservec will need *)
Definition kernel_fields (tf satp ksp hart : Z) (m : mem) : mem :=
  store64 (store64 (store64 (store64 m (tf + tf_kernel_satp) satp) (tf + tf_kernel_sp) ksp)
    (tf + tf_kernel_trap) (t_usertrap T)) (tf + tf_kernel_hartid) hart.

(** The hart is ready for sret to user mode at [epc]. *)
Record user_ready (epc : Z) s s' : Prop := mkUserReady {
  ur_sepc : csr (dev_of s') CSR_sepc = epc;
  ur_stvec : csr (dev_of s') CSR_stvec = uservec_va;
  ur_spp : Z.land (csr (dev_of s') CSR_sstatus) SSTATUS_SPP = 0;
  ur_spie : Z.land (csr (dev_of s') CSR_sstatus) SSTATUS_SPIE ≠ 0;
  ur_sie : sie (mycpu (hw_of s')) = false;
  ur_fs : fs_of s' = fs_of s;
  ur_pt : pt_of s' = pt_of s;
}.

Lemma ready_bits x :
  let y := Z.lor (Z.land x (Z.lnot SSTATUS_SPP)) SSTATUS_SPIE in
  let w := u64 (Z.land y (Z.lnot SSTATUS_SIE)) in
  Z.land w SSTATUS_SPP = 0 ∧ Z.land w SSTATUS_SPIE ≠ 0.
Proof.
  intros y w. assert (∀ n, 0 ≤ n < 64 → Z.testbit w n = (Z.testbit x n && negb (Z.testbit SSTATUS_SPP n) || Z.testbit SSTATUS_SPIE n) && negb (Z.testbit SSTATUS_SIE n)) as Hw.
  { intros n Hn. unfold w, u64, wrap. rewrite Z.mod_pow2_bits_low by lia. unfold y. rewrite Z.land_spec, Z.lor_spec, Z.land_spec, !Z.lnot_spec by lia. done. }
  split.
  - apply Z.bits_inj'. intros n Hn. rewrite Z.land_spec, Z.bits_0. destruct (decide (n = 8)) as [->|].
    + rewrite Hw by lia. change (Z.testbit SSTATUS_SPP 8) with true. change (Z.testbit SSTATUS_SPIE 8) with false. by rewrite andb_false_r.
    + unfold SSTATUS_SPP. rewrite Z.shiftl_1_l, Z.pow2_bits_false by lia. apply andb_false_r.
  - intros E. apply (f_equal (λ z, Z.testbit z 5)) in E. rewrite Z.land_spec, Z.bits_0, Hw in E by lia.
    change (Z.testbit SSTATUS_SPIE 5) with true in E. rewrite orb_true_r in E. done.
Qed.

Lemma prepare_return_spec i p s : cpu_ok (hw_of s) → cproc (mycpu (hw_of s)) = Some i → procs (pt_of s) !! i = Some p →
  Z.land (csr (dev_of s) CSR_sstatus) SSTATUS_SIE = 0 →
  wp (prepare_return T) s (λ _ s', user_ready (load64 (bytes_of s) (trapframe p + tf_epc)) s s' ∧
    locks (hw_of s') = locks (hw_of s) ∧ cproc (mycpu (hw_of s')) = Some i ∧
    pm_of s' = mkPmem (kernel_fields (trapframe p) (csr (dev_of s) CSR_satp) (u64 (kstack p + PGSIZE)) (tp (hw_of s)) (bytes_of s)) (freelist (pm_of s))).
Proof.
  intros Hok Hc Hp Hz. unfold prepare_return. wp_step. eapply wp_curproc; [done|done|]. wp_step. eapply wp_proc_at; [by st_simpl|].
  unfold intr_off, mod_hw, st64, ld64, r_tp, w_stvec, r_satp, w_sepc, r_sstatus, get_hw. wp_go. apply wp_w_csr. st_simpl. wp_go. apply wp_r_csr. wp_go.
  apply wp_mod_bytes. st_simpl. wp_go. apply wp_mod_bytes. st_simpl. wp_go. apply wp_mod_bytes. st_simpl. wp_go. st_simpl. apply wp_mod_bytes. st_simpl. wp_go. apply wp_r_csr. wp_go. st_simpl.
  hw_simpl. simpl. unfold w_sstatus, mod_hw. wp_step. apply wp_w_csr. wp_go. st_simpl. apply wp_w_csr.
  st_simpl. rewrite (bool_decide_eq_true_2 (_ = 0)).
  2:{ apply Z.bits_inj'. intros n Hn. apply (f_equal (λ z, Z.testbit z n)) in Hz. revert Hz. rewrite !Z.land_spec, Z.lor_spec, Z.land_spec, Z.bits_0.
      unfold SSTATUS_SIE, SSTATUS_SPIE. rewrite !Z.shiftl_1_l, !Z.pow2_bits_eqb by lia.
      destruct (Z.testbit (csr _ _) n), (Z.eqb_spec 5 n), (Z.eqb_spec 1 n); simpl; intros; try done; try lia. }
  split_and!; [|hw_simpl; by rewrite ?locks_settle|hw_simpl; simpl; by rewrite (settled_cproc (hw_of s)) by apply settled_settle|done].
  pose proof (ready_bits (csr (dev_of s) CSR_sstatus)) as [B1 B2].
  split; st_simpl; simpl; unfold put_csr; simpl; try done.
  - rewrite !load_store64_ne by (unfold tf_epc, tf_kernel_hartid, tf_kernel_satp, tf_kernel_sp, tf_kernel_trap; lia). apply wrap_small, load64_range.
  - unfold uservec_va, u64. apply wrap_small, wrap_bound. lia.
  - by hw_simpl.
Qed.

(** ** System calls *)

Lemma killed_settle i p s Q : cpu_ok (hw_of s) → lock_free (lkp i) (hw_of s) → procs (pt_of s) !! i = Some p →
  Q (ProcDefs.killed p) (with_hw (hw_settle (hw_of s)) s) → wp (Sched.killed i) s Q.
Proof.
  intros Hok Hl Hp HQ. unfold Sched.killed. wp_go. apply wp_acquire; [done|]. wp_go.
  eapply wp_proc_at; [by st_simpl|]. wp_go. eapply (wp_release _ _ (hw_of s)); [by st_simpl|done|done|]. st_simpl. wp_go. done.
Qed.

Lemma syscall_dispatch i p s f Q : cpu_ok (hw_of s) → cproc (mycpu (hw_of s)) = Some i → procs (pt_of s) !! i = Some p →
  0 < i32 (load64 (bytes_of s) (trapframe p + tf_a 7)) < 22 →
  syscalls (t_sys T) (i32 (load64 (bytes_of s) (trapframe p + tf_a 7))) = Some f →
  wp f (with_hw (hw_settle (hw_of s)) s) (λ r s2, ∃ p2, procs (pt_of s2) !! i = Some p2 ∧
    Q tt (with_pm (mkPmem (store64 (bytes_of s2) (trapframe p2 + tf_a 0) (u64 r)) (freelist (pm_of s2))) s2)) →
  wp (syscall (t_sys T)) s Q.
Proof.
  intros Hok Hc Hp Hr Hf Hw. unfold syscall. wp_step. eapply wp_curproc; [done|done|]. wp_step. eapply wp_proc_at; [by st_simpl|].
  unfold ld64, st64. wp_go. st_simpl. rewrite decide_True by done. rewrite Hf. wp_step. eapply wp_mono; [exact Hw|].
  intros r s2 (p2 & Hp2 & HQ). wp_step. eapply wp_proc_at; [done|]. by apply wp_mod_bytes.
Qed.

(** A user process [i] has trapped: the hart runs usertrap with interrupts off
    and the user program counter in sepc. *)
Record trapped s (i : nat) (p : proc) : Prop := mkTrapped {
  tr_cpu : cpu_ok (hw_of s);
  tr_noff : noff (mycpu (hw_of s)) = 0;
  tr_sie : sie (mycpu (hw_of s)) = false;
  tr_cur : cproc (mycpu (hw_of s)) = Some i;
  tr_proc : procs (pt_of s) !! i = Some p;
  tr_lock : lock_free (lkp i) (hw_of s);
  tr_alive : ProcDefs.killed p = 0;
  tr_spp : Z.land (csr (dev_of s) CSR_sstatus) SSTATUS_SPP = 0;
  tr_range : 0 ≤ csr (dev_of s) CSR_sepc < 2 ^ 64;
}.

(** The state in which the handler of a system call starts: interrupts on, the
    saved program counter past the ecall, nothing else of the process changed. *)
Record handling s (p : proc) s1 : Prop := mkHandling {
  hd_epc : load64 (bytes_of s1) (trapframe p + tf_epc) = u64 (csr (dev_of s) CSR_sepc + 4);
  hd_mem : ∀ x, x < trapframe p + tf_epc ∨ trapframe p + tf_epc + 8 ≤ x → bytes_of s1 x = bytes_of s x;
  hd_free : freelist (pm_of s1) = freelist (pm_of s);
  hd_cpu : cpu_ok (hw_of s1);
  hd_sie : sie (mycpu (hw_of s1)) = true;
  hd_noff : noff (mycpu (hw_of s1)) = 0;
  hd_cur : cproc (mycpu (hw_of s1)) = cproc (mycpu (hw_of s));
  hd_locks : locks (hw_of s1) = locks (hw_of s);
  hd_pt : pt_of s1 = pt_of s;
  hd_fs : fs_of s1 = fs_of s;
  hd_dev : dev_of s1 = put_csr CSR_stvec (t_kernelvec T) (dev_of s);
}.

(** What a handler that returns leaves: the same process runs, no lock held. *)
Record handled (i : nat) (tf : Z) s2 (p2 : proc) : Prop := mkHandled {
  hl_cpu : cpu_ok (hw_of s2);
  hl_cur : cproc (mycpu (hw_of s2)) = Some i;
  hl_proc : procs (pt_of s2) !! i = Some p2;
  hl_tf : trapframe p2 = tf;
  hl_alive : ProcDefs.killed p2 = 0;
  hl_lock : lock_free (lkp i) (hw_of s2);
  hl_sstatus : Z.land (csr (dev_of s2) CSR_sstatus) SSTATUS_SIE = 0;
}.

(* interrupts on, as after intr_on and the myproc of syscall *)
Definition enabled (h : hw) : hw := hw_settle (set_cpu (set_sie true (mycpu (hw_settle h))) (hw_settle h)).

Lemma enabled_spec h : cpu_ok h → noff (mycpu h) = 0 →
  cpu_ok (enabled h) ∧ sie (mycpu (enabled h)) = true ∧ noff (mycpu (enabled h)) = 0 ∧ cproc (mycpu (enabled h)) = cproc (mycpu h) ∧
  locks (enabled h) = locks h.
Proof.
  intros Hok Hn. assert (noff (mycpu (hw_settle h)) = 0) as Hn' by (by rewrite noff_settle). unfold enabled. split_and!.
  - apply cpu_ok_settle, cpu_ok_set_cpu; simpl; lia.
  - unfold hw_settle at 1. hw_simpl. by case_decide.
  - rewrite noff_settle. by hw_simpl.
  - rewrite (settled_cproc _ _ (settled_settle _)). hw_simpl. simpl. by rewrite (settled_cproc _ _ (settled_settle _)).
  - rewrite locks_settle. hw_simpl. by rewrite ?locks_settle.
Qed.

Definition handler_state s (tf : Z) : S :=
  with_dev (put_csr CSR_stvec (t_kernelvec T) (dev_of s))
    (with_pm (mkPmem (store64 (store64 (bytes_of s) (tf + tf_epc) (csr (dev_of s) CSR_sepc)) (tf + tf_epc) (u64 (csr (dev_of s) CSR_sepc + 4)))
       (freelist (pm_of s))) (with_hw (enabled (hw_of s)) s)).

Lemma handler_state_ok s i p : trapped s i p → handling s p (handler_state s (trapframe p)).
Proof.
  intros [Hok Hn Hsie Hc Hp Hl Hk Hspp Hrg]. destruct (enabled_spec _ Hok Hn) as (G1 & G2 & G3 & G4 & G5).
  unfold handler_state. split; st_simpl; simpl; try done.
  - rewrite load_store64; [done|]. apply wrap_bound. lia.
  - intros x Hx. by rewrite !store64_out by done.
Qed.

Lemma usertrap_syscall_spec s i p f : trapped s i p → csr (dev_of s) CSR_scause = 8 →
  0 < i32 (load64 (bytes_of s) (trapframe p + tf_a 7)) < 22 →
  syscalls (t_sys T) (i32 (load64 (bytes_of s) (trapframe p + tf_a 7))) = Some f →
  ∃ s1, handling s p s1 ∧ ∀ r s2 p2, f s1 = Ok r s2 → handled i (trapframe p) s2 p2 →
    ∃ s', usertrap T s = Ok (MAKE_SATP (pagetable p2)) s' ∧
      user_ready (load64 (bytes_of s2) (trapframe p + tf_epc)) s2 s' ∧
      load64 (bytes_of s') (trapframe p + tf_a 0) = u64 r ∧
      ∀ x, x < trapframe p ∨ trapframe p + tf_epc ≤ x < trapframe p + tf_epc + 8 ∨ trapframe p + tf_kernel_hartid + 8 ≤ x < trapframe p + tf_a 0 ∨
        trapframe p + tf_a 1 ≤ x → bytes_of s' x = bytes_of s2 x.
Proof.
  intros Htr Hcause Hnum Hf. exists (handler_state s (trapframe p)). split; [by eapply handler_state_ok|].
  intros r s2 p2 Ef [Kok Kc Kp Ktf Kk Kl Kz]. destruct Htr as [Hok Hn Hsie Hc Hp Hl Hk Hspp Hrg]. set (tf := trapframe p) in *.
  match goal with |- ∃ s', _ ∧ ?P => enough (wp (usertrap T) s (λ v s', v = MAKE_SATP (pagetable p2) ∧ P)) as (? & s' & E & -> & HP)%wp_elim by (by exists s') end.
  unfold usertrap, r_sstatus, r_sepc, r_scause, get_hw, w_stvec. wp_go. apply wp_r_csr. wp_go. rewrite Hsie, decide_False by tauto. wp_go. apply wp_w_csr.
  wp_step. eapply wp_curproc; [by st_simpl..|]. wp_step. eapply wp_proc_at; [by st_simpl|]. fold tf. st_simpl. wp_go. apply wp_r_csr. st_simpl. unfold st64, ld64.
  wp_step. apply wp_mod_bytes. st_simpl. wp_go. apply wp_r_csr. st_simpl. unfold put_csr at 1. simpl csr. rewrite Hcause, decide_True by done.
  wp_go. eapply killed_settle; [by st_simpl; auto with xv6|by st_simpl; apply lock_free_settle|by st_simpl|]. rewrite Hk, decide_False by tauto. wp_go. st_simpl.
  apply wp_mod_bytes. unfold intr_on, mod_hw. cbn [bytes freelist]. st_simpl. rewrite load_store64, hw_settle_settle by done. wp_go. st_simpl. cbn [bytes freelist].
  eapply (syscall_dispatch i p); st_simpl; cbn [bytes]; fold tf.
  { apply cpu_ok_set_cpu; simpl; rewrite ?noff_settle; lia. }
  { hw_simpl. simpl. by rewrite (settled_cproc _ _ (settled_settle _)). }
  { done. }
  { by rewrite !load_store64_ne by (unfold tf_epc, tf_a; lia). }
  { by rewrite !load_store64_ne by (unfold tf_epc, tf_a; lia). }
  eapply wp_ok; [exact Ef|]. exists p2. split; [done|]. rewrite Ktf. wp_go. eapply killed_settle; [by st_simpl..|]. rewrite Kk, decide_False by tauto. wp_go.
  rewrite decide_False by done. wp_go. st_simpl. eapply wp_mono; [eapply (prepare_return_spec i p2); st_simpl; auto with xv6; by rewrite (settled_cproc _ _ (settled_settle _))|].
  intros [] s' ([] & _ & _ & Hm). wp_step. eapply wp_proc_at; [rewrite ur_pt0; by st_simpl|]. wp_go.
  revert Hm ur_sepc0 ur_fs0 ur_pt0. st_simpl. cbn [bytes freelist]. rewrite Ktf. intros Hm Epc Efs Ept.
  rewrite load_store64_ne in Epc by (unfold tf_epc, tf_a; lia). split; [done|]. rewrite Hm. simpl. unfold kernel_fields. split_and!.
  - by split.
  - rewrite !load_store64_ne by (unfold tf_kernel_hartid, tf_kernel_satp, tf_kernel_sp, tf_kernel_trap, tf_a; lia). rewrite load_store64; [done|]. apply wrap_bound. lia.
  - intros x Hx. rewrite !store64_out by (unfold tf_epc, tf_kernel_hartid, tf_kernel_satp, tf_kernel_sp, tf_kernel_trap, tf_a in *; lia). done.
Qed.

(** ** Unknown system calls *)

Lemma unknown_message pid nm num : ∃ o1 o2, printint (i32 pid) 10 1 = Some o1 ∧ printint (i32 num) 10 1 = Some o2 ∧
  Printf.printf (str unknown_fmt) [AInt pid; AStr (Some nm); AInt num] = Some (o1 ++ [32] ++ nm ++ str ": unknown sys call " ++ o2 ++ [10]).
Proof.
  assert (∀ z, - 2 ^ 63 ≤ i32 z < 2 ^ 63) as Hi.
  { intros z. unfold i32. pose proof (Z.mod_pos_bound (z + 2 ^ 31) (2 ^ 32)). lia. }
  destruct (printint_both (i32 pid) 10 1) as (o1 & _ & E1 & _); [apply Hi|lia|].
  destruct (printint_both (i32 num) 10 1) as (o2 & _ & E2 & _); [apply Hi|lia|].
  exists o1, o2. split_and!; [done|done|].
  assert (∀ fuel fmt args out o v, printint (i32 v) 10 1 = Some o →
    printf_loop (Datatypes.S fuel) (37 :: 100 :: fmt) (AInt v :: args) out = printf_loop fuel fmt args (out ++ o)) as Hd.
  { intros fuel fmt args out o v E. cbn [printf_loop]. unfold kconv. rewrite decide_False by tauto. rewrite decide_True by done. by rewrite E. }
  assert (∀ fuel c fmt args out, c ≠ 37 → c ≠ 256 → u8 c = c →
    printf_loop (Datatypes.S fuel) (c :: fmt) args out = printf_loop fuel fmt args (out ++ [c])) as Hc.
  { intros fuel c fmt args out Hc Hb Hu. cbn [printf_loop]. rewrite decide_True by done. unfold Printf.consputc. by rewrite decide_False, Hu. }
  assert (∀ fuel fmt args out l,
    printf_loop (Datatypes.S fuel) (37 :: 115 :: fmt) (AStr (Some l) :: args) out = printf_loop fuel fmt args (out ++ l)) as Hs by done.
  change (str unknown_fmt) with ([37; 100; 32; 37; 115] ++ str ": unknown sys call " ++ [37; 100; 10]).
  unfold Printf.printf. change (str ": unknown sys call ") with [58; 32; 117; 110; 107; 110; 111; 119; 110; 32; 115; 121; 115; 32; 99; 97; 108; 108; 32].
  cbn [app length]. rewrite (Hd _ _ _ _ o1) by done. rewrite Hc by done. rewrite Hs.
  do 19 rewrite Hc by done. rewrite (Hd _ _ _ _ o2) by done. rewrite Hc by done. cbn [printf_loop]. f_equal. by rewrite <- !app_assoc.
Qed.

End Traps.
