(* ===== verification/SyscallTheorems.v ===== *)
(** * Traps and system calls, on the whole machine

    The theorems on [usertrap], [kerneltrap], [syscall] and [sys_sbrk], and a
    machine in which a process has just trapped. *)

From S2P Require Import Prelude Params CString Spinlock ProcDefs WaitQueue Sched Memory Kalloc Vm FsDefs Seq Pipe AddressSpace Fs File FsExample ProcLife Exec Printf Device Uart ConsoleTheorems Csr Syscall Trap TrapTheorems.

Section Calls.
Context {S U : Type} `{HasDev S U}.
Variable E : sysenv S U.
Context {L : Uart16550 (e_uart E) (e_polls E)}.
Implicit Types s : S.

Lemma wp_argint n i p s (Q : Z → S → Prop) : cpu_ok (hw_of s) → cproc (mycpu (hw_of s)) = Some i → procs (pt_of s) !! i = Some p →
  0 ≤ n ≤ 5 → Q (i32 (load64 (bytes (pm_of s)) (trapframe p + tf_a n))) (with_hw (hw_settle (hw_of s)) s) → wp (argint n) s Q.
Proof.
  intros Hok Hc Hp Hn HQ. unfold argint, argraw, ld64. wp_step. wp_step. eapply wp_curproc; [done|done|]. wp_step.
  eapply wp_proc_at; [by st_simpl|]. rewrite decide_True by done. wp_go. st_simpl. done.
Qed.

Lemma sbrk_lazy_spec i p s : cpu_ok (hw_of s) → cproc (mycpu (hw_of s)) = Some i → procs (pt_of s) !! i = Some p →
  let n := i32 (load64 (bytes (pm_of s)) (trapframe p + tf_a 0)) in
  i32 (load64 (bytes (pm_of s)) (trapframe p + tf_a 1)) ≠ SBRK_EAGER → 0 ≤ n → 0 ≤ sz p < 2 ^ 64 →
  sys_sbrk E s = if decide (sz p + n ≤ TRAPFRAME)
                 then Ok (sz p) (with_pt (upd_proc i (λ p, set_sz (u64 (sz p + n)) p) (pt_of s)) (with_hw (hw_settle (hw_of s)) s))
                 else Ok (-1) (with_hw (hw_settle (hw_of s)) s).
Proof.
  intros Hok Hc Hp n Ht Hn Hz.
  assert (n < 2 ^ 31) as Hn31.
  { unfold n, i32. pose proof (Z.mod_pos_bound (load64 (bytes (pm_of s)) (trapframe p + tf_a 0) + 2 ^ 31) (2 ^ 32)). lia. }
  assert (cproc (mycpu (hw_settle (hw_of s))) = Some i) as Hc' by (by rewrite (settled_cproc (hw_of s)) by apply settled_settle).
  enough (wp (sys_sbrk E) s (λ r s', Ok r s' = if decide (sz p + n ≤ TRAPFRAME)
    then Ok (sz p) (with_pt (upd_proc i (λ p, set_sz (u64 (sz p + n)) p) (pt_of s)) (with_hw (hw_settle (hw_of s)) s))
    else Ok (-1) (with_hw (hw_settle (hw_of s)) s))) as (r & s' & -> & ->)%wp_elim by done.
  unfold sys_sbrk. wp_step. eapply (wp_argint 0); [done|done|done|lia|]. fold n. wp_step.
  eapply (wp_argint 1); st_simpl; [auto with xv6|done|done|lia|]. st_simpl. rewrite hw_settle_settle. wp_step. eapply wp_curproc; [st_simpl; auto with xv6|by st_simpl|].
  wp_step. eapply wp_proc_at; [by st_simpl|]. st_simpl. rewrite hw_settle_settle. rewrite decide_False by (intros [?|?]; [done|lia]).
  assert (TRAPFRAME < 2 ^ 63) as Htf by (by vm_compute).
  destruct (decide (sz p + n < 2 ^ 64)) as [Hs|Hs].
  - assert (u64 (sz p + n) = sz p + n) as Eu by (apply wrap_small; lia). rewrite !Eu, (decide_False (P := sz p + n < sz p)) by lia. destruct (decide (sz p + n ≤ TRAPFRAME)).
    + rewrite decide_False by lia. wp_step. eapply wp_curproc; [st_simpl; auto with xv6|by st_simpl|]. wp_step. apply wp_mod_proc. st_simpl. by rewrite hw_settle_settle.
    + rewrite decide_True by lia. done.
  - rewrite (decide_True (P := u64 _ < _)); [by rewrite decide_False by lia|]. unfold u64, wrap. rewrite <- (Z.mod_add _ (-1)) by lia. rewrite Z.mod_small by lia. lia.
Qed.

Lemma syscall_unknown_spec i p s : cpu_ok (hw_of s) → cproc (mycpu (hw_of s)) = Some i → procs (pt_of s) !! i = Some p →
  panicking (dev_of s) = 0 → panicked (dev_of s) = 0 → lock_free L_pr (hw_of s) →
  let num := i32 (load64 (bytes (pm_of s)) (trapframe p + tf_a 7)) in
  ¬ 0 < num < 22 →
  wp (syscall E) s (λ _ s', ∃ o1 o2 s1, printint (i32 (pid p)) 10 1 = Some o1 ∧ printint (i32 num) 10 1 = Some o2 ∧
    emitted (e_uart E) (e_polls E) (u8 <$> (o1 ++ [32] ++ c_str (name p) ++ str ": unknown sys call " ++ o2 ++ [10])) (with_hw (hw_settle (hw_of s)) s) s1 ∧
    s' = with_pm (mkPmem (store64 (bytes (pm_of s)) (trapframe p + tf_a 0) (2 ^ 64 - 1)) (freelist (pm_of s))) s1).
Proof.
  intros Hok Hc Hp Hp1 Hp2 Hl num Hnum. unfold syscall. wp_step. eapply wp_curproc; [done|done|]. wp_step. eapply wp_proc_at; [by st_simpl|].
  unfold ld64. wp_go. st_simpl. fold num. rewrite decide_False by done. destruct (unknown_message (pid p) (c_str (name p)) num) as (o1 & o2 & E1 & E2 & Eo).
  wp_step. eapply wp_mono; [eapply printf_spec; [st_simpl; auto with xv6|by st_simpl|by st_simpl|by (st_simpl; apply lock_free_settle)|exact Eo]|].
  intros [] s1 He. apply wp_mod_bytes. exists o1, o2, s1. split_and!; [done|done| |].
  - revert He. st_simpl. by rewrite hw_settle_settle.
  - destruct He as (x & -> & _). by st_simpl.
Qed.
End Calls.

Lemma getpid_spec {S U} `{HasDev S U} (i : nat) (p : proc) (s : S) : cpu_ok (hw_of s) → cproc (mycpu (hw_of s)) = Some i →
  procs (pt_of s) !! i = Some p → sys_getpid s = Ok (pid p) (with_hw (hw_settle (hw_of s)) s).
Proof.
  intros Hok Hc Hp. enough (wp sys_getpid s (λ r s', r = pid p ∧ s' = with_hw (hw_settle (hw_of s)) s)) as (? & ? & -> & -> & ->)%wp_elim by done.
  unfold sys_getpid. wp_step. eapply wp_curproc; [done|done|]. wp_step. eapply wp_proc_at; [by st_simpl|]. done.
Qed.

(** ** A process that has just trapped *)

Definition ex_tf : Z := ex_page 12.
Definition ex_trap_table : ptab := upd_proc 1 (set_trapframe ex_tf) ex_vm_table.
Definition ex_trap_hw : hw := add_locks [L_pr; L_uart] (mkHw 0 {[0 := mkCpu (Some 1%nat) 0 false false]} (locks ex_vm_hw)).
Definition ex_csr (cause sst : Z) (r : csrname) : Z :=
  match r with CSR_scause => cause | CSR_sstatus => sst | CSR_sepc => 4096 | _ => 0 end.
(* a7, a0 and a1 of the user *)
Definition ex_regs (a7 a0 a1 : Z) : mem :=
  store64 (store64 (store64 ex_links (ex_tf + tf_a 7) a7) (ex_tf + tf_a 0) a0) (ex_tf + tf_a 1) a1.
Definition ex_trap (cause sst a7 a0 a1 : Z) : kern (list Z) :=
  mkKern (mkKst ex_trap_hw ex_trap_table (mkPmem (ex_regs a7 a0 a1) (ex_page 1)) (ex_fs (λ _, [])))
    (mkDev ex_cons 0 0 0 41 (ex_csr cause sst) (mkVdisk [] 0 [] 0 [] [] 0 [] []) 0 0 1 []).

Definition ex_sysenv : sysenv (kern (list Z)) (list Z) :=
  mkSysenv _ _ KERNBASE 1 0 0 0 KERNBASE 0 536 (λ i, Z.of_nat i) (λ _, mkDevops _ None None) [] ex_uart 1.
Definition ex_env : trapenv (kern (list Z)) (list Z) :=
  mkTrapenv _ _ ex_sysenv 2147500000 2147490000 2147491000 2147487744 ex_uart ex_uart 0 0 0 (λ _, 0) 1.

Lemma ex_trap_free lk : lk ∈ [L_pr; L_uart] ∨ lock_free lk ex_vm_hw → lock_free lk ex_trap_hw.
Proof. intros Hl. apply free_add_locks. destruct Hl as [|[n Hn]]; [by left|right]. by exists n. Qed.

Lemma ex_trap_ok : cpu_ok ex_trap_hw.
Proof. eexists. split; [reflexivity|]. simpl. lia. Qed.

Lemma ex_trap_plock i : (i < 4)%nat → lock_free (lkp i) ex_trap_hw.
Proof. intros Hi. apply ex_trap_free. right. by apply ex_vm_free, ex_proc_free. Qed.

Lemma ex_trap_quiet cause sst a7 a0 a1 : quiet (ex_trap cause sst a7 a0 a1).
Proof.
  split; cbn [hw_of pt_of].
  - exact ex_trap_ok.
  - intros b Hb. apply ex_trap_free. right. by apply ex_vm_free, ex_wq_free.
  - intros j q Hj%lookup_lt_Some. by apply ex_trap_plock.
  - eexists. apply wq_ok_empty; [done| |].
    + intros b Hb. do 16 (destruct b as [|b]; [done|]). lia.
    + intros i p. do 4 (destruct i as [|i]; [by intros [= <-]|]). done.
Qed.

(** ** The theorems *)

(** C7 A system call returns to the instruction after the ecall with the
    handler's result in a0.  When a live user process traps with scause 8 and
    a known number in a7, usertrap runs exactly that handler, with interrupts
    on, traps directed to kernelvec and the saved program counter past the
    ecall.  If the handler returns [r] without giving up the CPU on the way,
    usertrap returns the satp value of the process's page table; a0 of the trap frame holds [r], the other saved user
    registers and the program counter are as the handler left them (exec
    changes them), and the hart is ready for sret: user mode, interrupts
    enabled there but off until then, traps directed to uservec. *)
Theorem usertrap_syscall (U : Type) (T : trapenv (kern U) U) (s : kern U) (i : nat) (p : proc) (f : M (kern U) Z) :
  trapped s i p → csr (dev_of s) CSR_scause = 8 →
  0 < i32 (load64 (bytes (pm_of s)) (trapframe p + tf_a 7)) < 22 →
  syscalls (t_sys T) (i32 (load64 (bytes (pm_of s)) (trapframe p + tf_a 7))) = Some f →
  ∃ s1, handling T s p s1 ∧ ∀ r s2 p2, f s1 = Ok r s2 → handled i (trapframe p) s2 p2 →
    ∃ s', usertrap T s = Ok (MAKE_SATP (pagetable p2)) s' ∧
      user_ready T (load64 (bytes (pm_of s2)) (trapframe p + tf_epc)) s2 s' ∧
      load64 (bytes (pm_of s')) (trapframe p + tf_a 0) = u64 r ∧
      ∀ x, x < trapframe p ∨ trapframe p + tf_epc ≤ x < trapframe p + tf_epc + 8 ∨ trapframe p + tf_kernel_hartid + 8 ≤ x < trapframe p + tf_a 0 ∨
        trapframe p + tf_a 1 ≤ x → bytes (pm_of s') x = bytes (pm_of s2) x.
Proof. apply usertrap_syscall_spec. Qed.

Lemma usertrap_syscall_witness : ∃ s', usertrap ex_env (ex_trap 8 0 SYS_getpid 0 0) = Ok (MAKE_SATP ex_root) s' ∧
  load64 (bytes (pm_of s')) (ex_tf + tf_a 0) = 2.
Proof.
  assert (trapped (ex_trap 8 0 SYS_getpid 0 0) 1 (set_trapframe ex_tf ex_vm_proc)) as Htr.
  { split; try done; [exact ex_trap_ok|by apply ex_trap_plock; lia]. }
  assert (i32 (load64 (ex_regs SYS_getpid 0 0) (ex_tf + tf_a 7)) = SYS_getpid) as En by (vm_compute; reflexivity).
  destruct (usertrap_syscall (list Z) ex_env (ex_trap 8 0 SYS_getpid 0 0) 1 (set_trapframe ex_tf ex_vm_proc) sys_getpid Htr) as (s1 & Hh & Hgo);
    [reflexivity|change (0 < i32 (load64 (ex_regs SYS_getpid 0 0) (ex_tf + tf_a 7)) < 22); rewrite En; split; reflexivity
    |change (syscalls ex_sysenv (i32 (load64 (ex_regs SYS_getpid 0 0) (ex_tf + tf_a 7))) = Some sys_getpid); rewrite En; reflexivity|].
  destruct (Hgo 2 (with_hw (hw_settle (hw_of s1)) s1) (set_trapframe ex_tf ex_vm_proc)) as (s' & Eu & _ & Ea & _).
  - apply (getpid_spec 1 (set_trapframe ex_tf ex_vm_proc)); destruct Hh as [_ _ _ K1 _ _ K2 _ K3 _ _]; [exact K1|by rewrite K2|by rewrite K3].
  - destruct Hh as [_ _ _ K1 _ _ K2 K4 K3 _ K5]. split; st_simpl; [auto with xv6|by rewrite (settled_cproc _ _ (settled_settle _)), K2|by rewrite K3|done|done| |by rewrite K5].
    apply lock_free_settle. destruct (ex_trap_plock 1 ltac:(lia)) as [n Hn]. exists n. by rewrite K4.
  - exists s'. split; [exact Eu|exact Ea].
Defined.

(** An unknown system call is reported and fails, and nothing else
    happens: for a number outside the table, [syscall] sends the line
    "pid name: unknown sys call number" to the UART and stores -1 in the
    caller's a0.  The process table, the file system, the free list and every
    lock are as before. *)
Theorem syscall_unknown (U : Type) (E : sysenv (kern U) U) (L : Uart16550 (e_uart E) (e_polls E)) (s : kern U) (i : nat) (p : proc) :
  let num := i32 (load64 (bytes (pm_of s)) (trapframe p + tf_a 7)) in
  cpu_ok (hw_of s) → cproc (mycpu (hw_of s)) = Some i → procs (pt_of s) !! i = Some p →
  panicking (dev_of s) = 0 → panicked (dev_of s) = 0 → lock_free L_pr (hw_of s) →
  ¬ 0 < num < 22 →
  ∃ o1 o2 x, printint (i32 (pid p)) 10 1 = Some o1 ∧ printint (i32 num) 10 1 = Some o2 ∧
    sent x = sent (io (dev_of s)) ++ (u8 <$> (o1 ++ [32] ++ c_str (name p) ++ str ": unknown sys call " ++ o2 ++ [10])) ∧
    syscall E s = Ok tt (with_dev (set_io x (dev_of s))
      (with_pm (mkPmem (store64 (bytes (pm_of s)) (trapframe p + tf_a 0) (2 ^ 64 - 1)) (freelist (pm_of s)))
        (with_hw (hw_settle (hw_of s)) s))).
Proof.
  intros num Hok Hc Hp Hp1 Hp2 Hl Hnum.
  destruct (wp_elim _ _ _ (syscall_unknown_spec E i p s Hok Hc Hp Hp1 Hp2 Hl Hnum)) as ([] & s' & Es & o1 & o2 & s1 & E1 & E2 & (x & -> & Hx) & ->).
  exists o1, o2, x. split_and!; [done|done|by revert Hx; st_simpl|]. rewrite Es. by st_simpl.
Qed.

Lemma syscall_unknown_witness : ∃ s', syscall ex_sysenv (ex_trap 8 0 99 0 0) = Ok tt s' ∧
  load64 (bytes (pm_of s')) (ex_tf + tf_a 0) = 2 ^ 64 - 1 ∧ io (dev_of s') = u8 <$> str ("2 : unknown sys call 99" ++ newline).
Proof.
  destruct (syscall_unknown (list Z) ex_sysenv ex_uart_laws (ex_trap 8 0 99 0 0) 1 (set_trapframe ex_tf ex_vm_proc)) as (o1 & o2 & x & E1 & E2 & Hx & Es);
    [exact ex_trap_ok|reflexivity|reflexivity|reflexivity|reflexivity|apply ex_trap_free; left; set_solver|vm_compute; intros [? ?]; discriminate|].
  eexists. split; [exact Es|]. split; [vm_compute; reflexivity|].
  change (sent x) with x in Hx. st_simpl. cbn [io set_io]. rewrite Hx. vm_compute in E1, E2. injection E1 as <-. injection E2 as <-. reflexivity.
Defined.

(** C40 Growing memory lazily only moves the size.  sys_sbrk in lazy mode with
    a non-negative increment returns the old size and adds the increment when
    the new size stays below the trap frame; otherwise, an increment that
    wraps around included, it returns -1.  In neither case does it touch
    memory, the free list or a page table. *)
Theorem sbrk_lazy (U : Type) (E : sysenv (kern U) U) (s : kern U) (i : nat) (p : proc) :
  let n := i32 (load64 (bytes (pm_of s)) (trapframe p + tf_a 0)) in
  cpu_ok (hw_of s) → cproc (mycpu (hw_of s)) = Some i → procs (pt_of s) !! i = Some p →
  i32 (load64 (bytes (pm_of s)) (trapframe p + tf_a 1)) ≠ SBRK_EAGER → 0 ≤ n → 0 ≤ sz p < 2 ^ 64 →
  sys_sbrk E s = if decide (sz p + n ≤ TRAPFRAME)
                 then Ok (sz p) (with_pt (upd_proc i (λ p, set_sz (u64 (sz p + n)) p) (pt_of s)) (with_hw (hw_settle (hw_of s)) s))
                 else Ok (-1) (with_hw (hw_settle (hw_of s)) s).
Proof. intros n Hok Hc Hp Ht Hn Hz. by apply (sbrk_lazy_spec E i p). Qed.

Lemma sbrk_lazy_witness : ∃ s', sys_sbrk ex_sysenv (ex_trap 8 0 SYS_sbrk 10000 2) = Ok 8192 s' ∧ sz <$> procs (pt_of s') !! 1%nat = Some 18192.
Proof.
  eexists. split; [|].
  - rewrite (sbrk_lazy (list Z) ex_sysenv (ex_trap 8 0 SYS_sbrk 10000 2) 1 (set_trapframe ex_tf ex_vm_proc));
      [|exact ex_trap_ok|reflexivity|reflexivity|vm_compute; discriminate|vm_compute; discriminate|split; [vm_compute; discriminate|reflexivity]].
    rewrite decide_True by (vm_compute; discriminate). reflexivity.
  - vm_compute. reflexivity.
Defined.

(** C13 A timer interrupt in the kernel preempts it and resumes it untouched.
    When a process running in the kernel, holding no lock, takes a timer
    interrupt, kerneltrap advances the clock on hart 0, marks the process
    RUNNABLE and switches to the scheduler with the locks as they were, and
    memory and the file system unchanged.  When the scheduler, holding the
    process's lock as swtch requires, later resumes it in any state, kerneltrap
    returns with that lock released, interrupts off and sepc and sstatus as
    the interrupt left them, although other traps may have overwritten both
    registers meanwhile. *)
Theorem kerneltrap_preempts (U : Type) (T : trapenv (kern U) U) (s : kern U) (i : nat) (p : proc) :
  interrupted s i p → csr (dev_of s) CSR_scause = TIMER_INTR →
  ∃ s1 k, kerneltrap T s = Switch s1 k ∧ ticks (dev_of s1) = next_ticks (tp (hw_of s)) (dev_of s) ∧
    (∃ q, procs (pt_of s1) !! i = Some q ∧ state q = RUNNABLE) ∧ locks (hw_of s1) = locks (hw_of s) ∧
    noff (mycpu (hw_of s1)) = 0 ∧ cpu_ok (hw_of s1) ∧ pm_of s1 = pm_of s ∧ fs_of s1 = fs_of s ∧
    ∀ s2, cpu_ok (hw_of s2) → noff (mycpu (hw_of s2)) = 1 → lock_held (lkp i) (hw_of s2) →
      ∃ s3, k s2 = Ok tt s3 ∧ resumed_code i (csr (dev_of s) CSR_sepc) (csr (dev_of s) CSR_sstatus) s2 s3.
Proof. apply kerneltrap_timer. Qed.

Lemma kerneltrap_preempts_witness : ∃ s1 k s3, kerneltrap ex_env (ex_trap TIMER_INTR SSTATUS_SPP 0 0 0) = Switch s1 k ∧ ticks (dev_of s1) = 42 ∧
  k (with_hw (hw_acq (lkp 1) (hw_of s1)) s1) = Ok tt s3 ∧ csr (dev_of s3) CSR_sepc = 4096.
Proof.
  destruct (kerneltrap_preempts (list Z) ex_env (ex_trap TIMER_INTR SSTATUS_SPP 0 0 0) 1 (set_trapframe ex_tf ex_vm_proc))
    as (s1 & k & Es & Et & _ & Hl & Hn & Hok & _ & _ & Hk).
  - split; try reflexivity; [apply ex_trap_quiet| |vm_compute; discriminate|].
    + apply ex_trap_free. right. apply ex_vm_free; [discriminate|discriminate|]. by eexists.
    + intros []; vm_compute; done.
  - reflexivity.
  - destruct (Hk (with_hw (hw_acq (lkp 1) (hw_of s1)) s1)) as (s3 & E3 & H3); st_simpl; [auto with xv6|rewrite noff_acq, Hn; reflexivity|apply lock_held_acq|].
    exists s1, k, s3. split; [exact Es|]. split; [rewrite Et; reflexivity|]. split; [exact E3|]. destruct H3 as [Hs _ _ _ _ _ _ _ _ _]. exact Hs.
Defined.
