(* ===== verification/Asm.v ===== *)
(** * The assembly of the kernel (swtch.S, trampoline.S, kernelvec.S, entry.S)
    and the system-call stubs that usys.pl generates

    The instructions these files use, on the registers of a hart and the bytes
    of physical memory.  A piece of code is a list of instructions and runs up
    to the instruction that leaves it.  [tr] is the MMU: what it makes of a
    virtual address under a value of satp; none of this code changes a page
    table, so [tr] is fixed. *)

From S2P Require Import Prelude Params CString Spinlock ProcDefs WaitQueue Sched Memory Kalloc Vm FsDefs Seq Sleeplock Bio Log Pipe Fs File ProcLife Device Syscall.

Inductive reg : Set :=
| RA | SP | GP | TP | T0 | T1 | T2 | S0 | S1 | A0 | A1 | A2 | A3 | A4 | A5 | A6 | A7
| S2 | S3 | S4 | S5 | S6 | S7 | S8 | S9 | S10 | S11 | T3 | T4 | T5 | T6.
#[global] Instance reg_eq_dec : EqDecision reg.
Proof. solve_decision. Defined.

Inductive creg : Set := sscratch | satp | mhartid.
#[global] Instance creg_eq_dec : EqDecision creg.
Proof. solve_decision. Defined.

Inductive instr : Set :=
| sd (r : reg) (off : Z) (b : reg)
| ld (r : reg) (off : Z) (b : reg)
| li (r : reg) (v : Z)
| addi (r a : reg) (v : Z)
| add (r a b : reg)
| mul (r a b : reg)
| csrw (c : creg) (r : reg)
| csrr (r : reg) (c : creg)
| sfence_vma
| jalr (r : reg) (next : Z)   (* [next] is the address of the instruction after it *)
| call (f next : Z)
| iret
| ecall
| sret.

Record mach : Type := mkMach { regs : reg → Z; csrs : creg → Z; mm : mem }.
Definition put_reg (r : reg) (v : Z) (R : reg → Z) : reg → Z := λ x, if decide (x = r) then v else R x.
Definition set_regs (R : reg → Z) (m : mach) : mach := mkMach R (csrs m) (mm m).
Definition set_reg (r : reg) (v : Z) (m : mach) : mach := set_regs (put_reg r v (regs m)) m.
Definition set_creg (c : creg) (v : Z) (m : mach) : mach := mkMach (regs m) (λ x, if decide (x = c) then v else csrs m x) (mm m).
Definition set_mm (b : mem) (m : mach) : mach := mkMach (regs m) (csrs m) b.

(** How a piece of code is left: to an address, by a trap, or to user mode or
    the interrupted kernel code. *)
Inductive leave : Set := Jump (pc : Z) | Ecall | Sret.

Section Run.
Variable tr : Z → Z → option Z.

Definition addr (m : mach) (b : reg) (off : Z) : option Z := tr (csrs m satp) (u64 (regs m b + off)).

(* None is a page fault or running off the end *)
Fixpoint run (code : list instr) (m : mach) : option (mach * leave) :=
  match code with
  | [] => None
  | i :: code =>
      match i with
      | sd r o b => match addr m b o with Some pa => run code (set_mm (store64 (mm m) pa (regs m r)) m) | None => None end
      | ld r o b => match addr m b o with Some pa => run code (set_reg r (load64 (mm m) pa) m) | None => None end
      | li r v => run code (set_reg r (u64 v) m)
      | addi r a v => run code (set_reg r (u64 (regs m a + v)) m)
      | add r a b => run code (set_reg r (u64 (regs m a + regs m b)) m)
      | mul r a b => run code (set_reg r (u64 (regs m a * regs m b)) m)
      | csrw c r => run code (set_creg c (regs m r) m)
      | csrr r c => run code (set_reg r (csrs m c) m)
      | sfence_vma => run code m
      | jalr r next => Some (set_reg RA next m, Jump (regs m r))
      | call f next => Some (set_reg RA next m, Jump f)
      | iret => Some (m, Jump (regs m RA))
      | ecall => Some (m, Ecall)
      | sret => Some (m, Sret)
      end
  end.
End Run.

(** ** swtch.S *)

Definition swtch : list instr :=
  [ sd RA 0 A0; sd SP 8 A0; sd S0 16 A0; sd S1 24 A0; sd S2 32 A0; sd S3 40 A0; sd S4 48 A0;
    sd S5 56 A0; sd S6 64 A0; sd S7 72 A0; sd S8 80 A0; sd S9 88 A0; sd S10 96 A0; sd S11 104 A0;
    ld RA 0 A1; ld SP 8 A1; ld S0 16 A1; ld S1 24 A1; ld S2 32 A1; ld S3 40 A1; ld S4 48 A1;
    ld S5 56 A1; ld S6 64 A1; ld S7 72 A1; ld S8 80 A1; ld S9 88 A1; ld S10 96 A1; ld S11 104 A1;
    iret ].

(** ** trampoline.S *)

Definition uservec (userret : Z) : list instr :=
  [ csrw sscratch A0; li A0 TRAPFRAME;
    sd RA 40 A0; sd SP 48 A0; sd GP 56 A0; sd TP 64 A0; sd T0 72 A0; sd T1 80 A0; sd T2 88 A0;
    sd S0 96 A0; sd S1 104 A0; sd A1 120 A0; sd A2 128 A0; sd A3 136 A0; sd A4 144 A0; sd A5 152 A0;
    sd A6 160 A0; sd A7 168 A0; sd S2 176 A0; sd S3 184 A0; sd S4 192 A0; sd S5 200 A0; sd S6 208 A0;
    sd S7 216 A0; sd S8 224 A0; sd S9 232 A0; sd S10 240 A0; sd S11 248 A0; sd T3 256 A0; sd T4 264 A0;
    sd T5 272 A0; sd T6 280 A0;
    csrr T0 sscratch; sd T0 112 A0;
    ld SP 8 A0; ld TP 32 A0; ld T0 16 A0; ld T1 0 A0;
    sfence_vma; csrw satp T1; sfence_vma;
    jalr T0 userret ].

Definition userret : list instr :=
  [ sfence_vma; csrw satp A0; sfence_vma; li A0 TRAPFRAME;
    ld RA 40 A0; ld SP 48 A0; ld GP 56 A0; ld TP 64 A0; ld T0 72 A0; ld T1 80 A0; ld T2 88 A0;
    ld S0 96 A0; ld S1 104 A0; ld A1 120 A0; ld A2 128 A0; ld A3 136 A0; ld A4 144 A0; ld A5 152 A0;
    ld A6 160 A0; ld A7 168 A0; ld S2 176 A0; ld S3 184 A0; ld S4 192 A0; ld S5 200 A0; ld S6 208 A0;
    ld S7 216 A0; ld S8 224 A0; ld S9 232 A0; ld S10 240 A0; ld S11 248 A0; ld T3 256 A0; ld T4 264 A0;
    ld T5 272 A0; ld T6 280 A0;
    ld A0 112 A0;
    sret ].

(** ** kernelvec.S, in two parts: up to the call of kerneltrap and from its
    return, [next], on *)

Definition kernelvec_save (kerneltrap next : Z) : list instr :=
  [ addi SP SP (-256);
    sd RA 0 SP; sd GP 16 SP; sd TP 24 SP; sd T0 32 SP; sd T1 40 SP; sd T2 48 SP;
    sd A0 72 SP; sd A1 80 SP; sd A2 88 SP; sd A3 96 SP; sd A4 104 SP; sd A5 112 SP; sd A6 120 SP; sd A7 128 SP;
    sd T3 216 SP; sd T4 224 SP; sd T5 232 SP; sd T6 240 SP;
    call kerneltrap next ].
Definition kernelvec_restore : list instr :=
  [ ld RA 0 SP; ld GP 16 SP; ld T0 32 SP; ld T1 40 SP; ld T2 48 SP;
    ld A0 72 SP; ld A1 80 SP; ld A2 88 SP; ld A3 96 SP; ld A4 104 SP; ld A5 112 SP; ld A6 120 SP; ld A7 128 SP;
    ld T3 216 SP; ld T4 224 SP; ld T5 232 SP; ld T6 240 SP;
    addi SP SP 256;
    sret ].

(** ** entry.S, up to the call of start *)

Definition entry (stack0 start spin : Z) : list instr :=
  [ li SP stack0; li A0 (1024 * 4); csrr A1 mhartid; addi A1 A1 1; mul A0 A0 A1; add SP SP A0; call start spin ].

(** ** usys.pl *)

Definition usys : list (string * Z) :=
  [ ("fork", SYS_fork); ("exit", SYS_exit); ("wait", SYS_wait); ("pipe", SYS_pipe); ("read", SYS_read); ("write", SYS_write);
    ("close", SYS_close); ("kill", SYS_kill); ("exec", SYS_exec); ("open", SYS_open); ("mknod", SYS_mknod); ("unlink", SYS_unlink);
    ("fstat", SYS_fstat); ("link", SYS_link); ("mkdir", SYS_mkdir); ("chdir", SYS_chdir); ("dup", SYS_dup); ("getpid", SYS_getpid);
    ("sys_sbrk", SYS_sbrk); ("pause", SYS_pause); ("uptime", SYS_uptime) ].
Definition stub (num : Z) : list instr := [ li A7 num; ecall; iret ].

(** ** Saving and restoring a list of registers *)

Definition saves (b : reg) (l : list (reg * Z)) : list instr := (λ x, sd x.1 x.2 b) <$> l.
Definition restores (b : reg) (l : list (reg * Z)) : list instr := (λ x, ld x.1 x.2 b) <$> l.

Fixpoint stored (pa : Z) (R : reg → Z) (l : list (reg * Z)) (m : mem) : mem :=
  match l with [] => m | x :: l => stored pa R l (store64 m (pa + x.2) (R x.1)) end.
Fixpoint loaded (pa : Z) (m : mem) (l : list (reg * Z)) (R : reg → Z) : reg → Z :=
  match l with [] => R | x :: l => loaded pa m l (put_reg x.1 (load64 m (pa + x.2)) R) end.

(** The offsets of [l] are those of fields of eight bytes in a struct of [n]. *)
Definition fields (n : Z) (l : list (reg * Z)) : Prop :=
  NoDup l.*1 ∧ NoDup l.*2 ∧ Forall (λ o, o mod 8 = 0 ∧ 0 ≤ o ∧ o + 8 ≤ n) l.*2.
(** The [n] bytes at [va] are those at [pa]. *)
Definition window (tr : Z → Z → option Z) (sa va pa n : Z) : Prop :=
  ∀ o, 0 ≤ o → o + 8 ≤ n → tr sa (u64 (va + o)) = Some (pa + o).
Definition words (R : reg → Z) : Prop := ∀ r, 0 ≤ R r < 2 ^ 64.
Definition same_bytes (pa n : Z) (m m' : mem) : Prop := ∀ x, pa ≤ x < pa + n → m' x = m x.
Definition same_outside (pa n : Z) (m m' : mem) : Prop := ∀ x, x < pa ∨ pa + n ≤ x → m' x = m x.

Lemma fields_cons n r o l : fields n ((r, o) :: l) → fields n l ∧ r ∉ l.*1 ∧ o ∉ l.*2 ∧ o mod 8 = 0 ∧ 0 ≤ o ∧ o + 8 ≤ n.
Proof.
  intros (H1 & H2 & H3). cbn [fmap list_fmap fst snd] in *. apply list.NoDup_cons in H1 as [? ?]. apply list.NoDup_cons in H2 as [? ?]. apply list.Forall_cons in H3 as [? ?].
  by split_and!; try tauto.
Qed.
Lemma fields_at n l r o : fields n l → (r, o) ∈ l → o mod 8 = 0 ∧ 0 ≤ o ∧ o + 8 ≤ n.
Proof. intros (_ & _ & H) Hin. rewrite list.Forall_forall in H. apply H. apply list_elem_of_fmap. by exists (r, o). Qed.
Lemma mod8_apart o o' : o mod 8 = 0 → o' mod 8 = 0 → o ≠ o' → o + 8 ≤ o' ∨ o' + 8 ≤ o.
Proof. intros H1%Z.mod_divide H2%Z.mod_divide; [|done|done]. destruct H1 as [a ->], H2 as [b ->]. lia. Qed.

Lemma put_reg_eq r v R : put_reg r v R r = v.
Proof. unfold put_reg. by rewrite decide_True. Qed.
Lemma put_reg_ne r r' v R : r' ≠ r → put_reg r v R r' = R r'.
Proof. intros. unfold put_reg. by rewrite decide_False. Qed.

Lemma stored_out pa R l n : fields n l → ∀ m, same_outside pa n m (stored pa R l m).
Proof.
  induction l as [|[r o] l IH]; intros Hf m x Hx; [done|]. apply fields_cons in Hf as (Hf & _ & _ & _ & H1 & H2). cbn [stored fst snd].
  rewrite IH by done. apply store64_out. lia.
Qed.
Lemma stored_skip pa R l n o : fields n l → o mod 8 = 0 → o ∉ l.*2 → ∀ m, load64 (stored pa R l m) (pa + o) = load64 m (pa + o).
Proof.
  induction l as [|[r o'] l IH]; intros Hf Ho Hn m; [done|]. apply fields_cons in Hf as (Hf & _ & _ & Ho' & _). cbn [stored fst snd fmap list_fmap] in *.
  apply not_elem_of_cons in Hn as [Hne Hn]. rewrite IH by done. apply load_store64_ne. destruct (mod8_apart o o' Ho Ho' Hne); lia.
Qed.
Lemma stored_at pa R l n r o : fields n l → words R → (r, o) ∈ l → ∀ m, load64 (stored pa R l m) (pa + o) = R r.
Proof.
  intros Hf Hw. induction l as [|[r' o'] l IH]; intros Hin m; [by apply elem_of_nil in Hin|]. apply fields_cons in Hf as (Hf & _ & Hn & Ho & _). cbn [stored fst snd].
  apply elem_of_cons in Hin as [[= -> ->]|Hin]; [|by apply IH]. rewrite (stored_skip _ _ _ n) by done. by apply load_store64.
Qed.

Lemma loaded_skip pa m l r : r ∉ l.*1 → ∀ R, loaded pa m l R r = R r.
Proof.
  induction l as [|[r' o] l IH]; intros Hn R; [done|]. cbn [loaded fst snd fmap list_fmap] in *. apply not_elem_of_cons in Hn as [? Hn]. rewrite IH by done. by apply put_reg_ne.
Qed.
Lemma loaded_at pa m l n r o : fields n l → (r, o) ∈ l → ∀ R, loaded pa m l R r = load64 m (pa + o).
Proof.
  induction l as [|[r' o'] l IH]; intros Hf Hin R; [by apply elem_of_nil in Hin|]. apply fields_cons in Hf as (Hf & Hn & _). cbn [loaded fst snd].
  apply elem_of_cons in Hin as [[= -> ->]|Hin]; [|by apply IH]. rewrite loaded_skip by done. apply put_reg_eq.
Qed.

Section Lists.
Context {tr : Z → Z → option Z}.

Lemma run_saves b l n pa code : ∀ m, fields n l → window tr (csrs m satp) (regs m b) pa n →
  run tr (saves b l ++ code) m = run tr code (set_mm (stored pa (regs m) l (mm m)) m).
Proof.
  induction l as [|[r o] l IH]; intros m Hf Hw; [by destruct m|]. apply fields_cons in Hf as (Hf & _ & _ & _ & H1 & H2).
  cbn [saves fmap list_fmap app fst snd run]. unfold addr. rewrite Hw by done. exact (IH (set_mm _ m) Hf Hw).
Qed.
Lemma run_restores b l n pa code : ∀ m, fields n l → b ∉ l.*1 → window tr (csrs m satp) (regs m b) pa n →
  run tr (restores b l ++ code) m = run tr code (set_regs (loaded pa (mm m) l (regs m)) m).
Proof.
  induction l as [|[r o] l IH]; intros m Hf Hb Hw; [by destruct m|]. apply fields_cons in Hf as (Hf & _ & _ & _ & H1 & H2).
  cbn [fmap list_fmap fst] in Hb. apply not_elem_of_cons in Hb as [Hne Hb].
  cbn [restores fmap list_fmap app fst snd run]. unfold addr. rewrite Hw by done. rewrite <- (put_reg_ne r b (load64 (mm m) (pa + o)) (regs m)) in Hw by done. exact (IH (set_reg r _ m) Hf Hb Hw).
Qed.
End Lists.

(** ** swtch *)

Definition sregs_list : list reg := [S0; S1; S2; S3; S4; S5; S6; S7; S8; S9; S10; S11].
Definition ctx_regs : list (reg * Z) := zip (RA :: SP :: sregs_list) ((λ i, 8 * i) <$> seqZ 0 14).
Definition context_at (m : mem) (p : Z) : context := mkContext (load64 m (p + 0)) (load64 m (p + 8)) ((λ i, load64 m (p + 8 * i)) <$> seqZ 2 12).
Definition context_in (R : reg → Z) : context := mkContext (R RA) (R SP) (R <$> sregs_list).

Lemma swtch_eq : swtch = saves A0 ctx_regs ++ restores A1 ctx_regs ++ [iret].
Proof. done. Qed.
Ltac by_fields := split_and!; by apply (bool_decide_unpack _).
Lemma ctx_fields : fields 112 ctx_regs.
Proof. by_fields. Qed.

Lemma context_match R m p : (∀ r o, (r, o) ∈ ctx_regs → load64 m (p + o) = R r) → context_at m p = context_in R.
Proof.
  intros H. assert (∀ r o, bool_decide ((r, o) ∈ ctx_regs) = true → load64 m (p + o) = R r) as Hb by (intros r o ?%bool_decide_eq_true; by apply H).
  unfold context_at, context_in. f_equal; [by apply Hb|by apply Hb|].
  change (seqZ 2 12) with [2; 3; 4; 5; 6; 7; 8; 9; 10; 11; 12; 13]. cbn [fmap list_fmap sregs_list]. repeat (apply f_equal2; [by apply Hb|]). done.
Qed.

Lemma swtch_spec tr m po pn : words (regs m) → window tr (csrs m satp) (regs m A0) po 112 → window tr (csrs m satp) (regs m A1) pn 112 →
  po + 112 ≤ pn ∨ pn + 112 ≤ po →
  ∃ m', run tr swtch m = Some (m', Jump (ra (context_at (mm m) pn))) ∧ context_at (mm m') po = context_in (regs m) ∧
    context_in (regs m') = context_at (mm m) pn ∧ same_outside po 112 (mm m) (mm m') ∧ csrs m' = csrs m ∧ (∀ r, r ∉ ctx_regs.*1 → regs m' r = regs m r).
Proof.
  intros Hw Wo Wn Hd. set (m1 := set_mm (stored po (regs m) ctx_regs (mm m)) m). set (m2 := set_regs (loaded pn (mm m1) ctx_regs (regs m)) m1).
  pose proof (stored_out po (regs m) _ _ ctx_fields (mm m)) as Hout. assert (context_in (regs m2) = context_at (mm m) pn) as E2.
  { symmetry. apply context_match. intros r o Hin. change (regs m2) with (loaded pn (mm m1) ctx_regs (regs m)). rewrite (loaded_at _ _ _ _ _ _ ctx_fields Hin).
    destruct (fields_at _ _ _ _ ctx_fields Hin) as (_ & ? & ?). symmetry. apply load64_ext. intros x Hx. apply Hout. lia. }
  exists m2. split_and!; [|by apply context_match; intros r o Hin; apply (stored_at _ _ _ _ _ _ ctx_fields)|done|exact Hout|done|by intros r Hr; apply loaded_skip].
  rewrite swtch_eq, (run_saves _ _ _ _ _ m ctx_fields Wo). fold m1. rewrite (run_restores A1 ctx_regs 112 pn _ m1 ctx_fields); [|by apply (bool_decide_unpack _)|exact Wn].
  fold m2. cbn [run]. do 3 f_equal. exact (f_equal ra E2).
Qed.

(** C11 A call of swtch is, for the thread that makes it, an ordinary call.
    It stores the caller's ra, sp and s0-s11 in the struct context a0 points
    to and continues the thread whose context a1 points to with that thread's
    registers.  When any later call of swtch is given the saved context back,
    it returns to where the first was called from with those fourteen
    registers as they were. *)
Theorem swtch_roundtrip tr m po pn :
  words (regs m) → window tr (csrs m satp) (regs m A0) po 112 → window tr (csrs m satp) (regs m A1) pn 112 → po + 112 ≤ pn ∨ pn + 112 ≤ po →
  ∃ m1, run tr swtch m = Some (m1, Jump (ra (context_at (mm m) pn))) ∧ context_in (regs m1) = context_at (mm m) pn ∧ same_outside po 112 (mm m) (mm m1) ∧
    ∀ m2 pq, same_bytes po 112 (mm m1) (mm m2) → words (regs m2) →
      window tr (csrs m2 satp) (regs m2 A0) pq 112 → window tr (csrs m2 satp) (regs m2 A1) po 112 → pq + 112 ≤ po ∨ po + 112 ≤ pq →
      ∃ m3, run tr swtch m2 = Some (m3, Jump (regs m RA)) ∧ context_in (regs m3) = context_in (regs m) ∧ context_at (mm m3) pq = context_in (regs m2).
Proof.
  intros Hw Wo Wn Hd. destruct (swtch_spec tr m po pn Hw Wo Wn Hd) as (m1 & E & Es & El & Ho & _). exists m1. split_and!; [done..|].
  intros m2 pq Hsame Hw2 Wq Wo2 Hd2. destruct (swtch_spec tr m2 pq po Hw2 Wq Wo2 Hd2) as (m3 & E3 & Es3 & El3 & _).
  assert (context_at (mm m2) po = context_in (regs m)) as Ec.
  { rewrite <- Es. unfold context_at. f_equal; [apply load64_ext; intros; apply Hsame; lia..|]. apply list_fmap_ext. intros i o Hi. apply lookup_seqZ in Hi. apply load64_ext. intros. apply Hsame. lia. }
  exists m3. rewrite Ec in *. split_and!; [exact E3|done|done].
Qed.

(* contexts at 4096 and 8192, and back *)
Definition ex_mach (a0 a1 : Z) : mach := mkMach (λ r, if decide (r = A0) then a0 else if decide (r = A1) then a1 else 7) (λ _, 0) (λ _, 0).
Lemma ex_window va n : 0 ≤ va → va + n ≤ 2 ^ 64 → window (λ _ a, Some a) 0 va va n.
Proof. intros H1 H2 o Ho Hn. f_equal. apply wrap_small. lia. Qed.
Lemma ex_words a0 a1 : 0 ≤ a0 < 2 ^ 64 → 0 ≤ a1 < 2 ^ 64 → words (regs (ex_mach a0 a1)).
Proof. intros H0 H1 r. simpl. repeat case_decide; lia. Qed.
Lemma swtch_roundtrip_witness : ∃ m1, run (λ _ a, Some a) swtch (ex_mach 4096 8192) = Some (m1, Jump 0) ∧
  context_in (regs m1) = context_at (λ _, 0) 8192 ∧ same_outside 4096 112 (λ _, 0) (mm m1) ∧
  ∀ m2 pq, same_bytes 4096 112 (mm m1) (mm m2) → words (regs m2) →
      window (λ _ a, Some a) (csrs m2 satp) (regs m2 A0) pq 112 → window (λ _ a, Some a) (csrs m2 satp) (regs m2 A1) 4096 112 → pq + 112 ≤ 4096 ∨ 4096 + 112 ≤ pq →
      ∃ m3, run (λ _ a, Some a) swtch m2 = Some (m3, Jump 7) ∧ context_in (regs m3) = context_in (regs (ex_mach 4096 8192)) ∧ context_at (mm m3) pq = context_in (regs m2).
Proof.
  apply (swtch_roundtrip (λ _ a, Some a) (ex_mach 4096 8192) 4096 8192); [apply ex_words; lia|apply ex_window; simpl; lia|apply ex_window; simpl; lia|lia].
Defined.

(** ** The trampoline *)

(* struct trapframe of proc.h: where a user register is saved *)
Definition tf_of (r : reg) : Z :=
  match r with
  | RA => 40 | SP => tf_sp | GP => 56 | TP => 64 | T0 => 72 | T1 => 80 | T2 => 88 | S0 => 96 | S1 => 104
  | A0 => tf_a 0 | A1 => tf_a 1 | A2 => tf_a 2 | A3 => tf_a 3 | A4 => tf_a 4 | A5 => tf_a 5 | A6 => tf_a 6 | A7 => tf_a 7
  | S2 => 176 | S3 => 184 | S4 => 192 | S5 => 200 | S6 => 208 | S7 => 216 | S8 => 224 | S9 => 232 | S10 => 240 | S11 => 248
  | T3 => 256 | T4 => 264 | T5 => 272 | T6 => 280
  end.
Definition others : list reg :=
  [RA; SP; GP; TP; T0; T1; T2; S0; S1; A1; A2; A3; A4; A5; A6; A7; S2; S3; S4; S5; S6; S7; S8; S9; S10; S11; T3; T4; T5; T6].
Definition tf_regs : list (reg * Z) := (λ r, (r, tf_of r)) <$> others.
Definition kernel_regs : list (reg * Z) := [(SP, tf_kernel_sp); (TP, tf_kernel_hartid); (T0, tf_kernel_trap); (T1, tf_kernel_satp)].

Lemma uservec_eq next : uservec next = csrw sscratch A0 :: li A0 TRAPFRAME :: saves A0 tf_regs ++ csrr T0 sscratch :: sd T0 (tf_of A0) A0 ::
  restores A0 kernel_regs ++ [sfence_vma; csrw satp T1; sfence_vma; jalr T0 next].
Proof. done. Qed.
Lemma userret_eq : userret = sfence_vma :: csrw satp A0 :: sfence_vma :: li A0 TRAPFRAME :: restores A0 tf_regs ++ [ld A0 (tf_of A0) A0; sret].
Proof. done. Qed.
Lemma tf_fields : fields tf_size tf_regs.
Proof. by_fields. Qed.
Lemma kernel_fields : fields tf_size kernel_regs.
Proof. by_fields. Qed.
Lemma kernel_low : Forall (λ x, x.2 + 8 ≤ 40) kernel_regs.
Proof. by apply (bool_decide_unpack _). Qed.
Lemma tf_regs_in r : r ≠ A0 → (r, tf_of r) ∈ tf_regs.
Proof. by destruct r; intros ?; try done; apply (bool_decide_unpack _). Qed.
Lemma tf_of_range r : tf_of r mod 8 = 0 ∧ 40 ≤ tf_of r ≤ 280.
Proof. by destruct r. Qed.
Lemma a0_apart : tf_of A0 ∉ tf_regs.*2 ∧ A0 ∉ tf_regs.*1 ∧ A0 ∉ kernel_regs.*1.
Proof. split_and!; by apply (bool_decide_unpack _). Qed.
Lemma stored_below pa R n l lo : fields n l → Forall (λ o, lo ≤ o) l.*2 → ∀ m, same_outside (pa + lo) (n - lo) m (stored pa R l m).
Proof.
  induction l as [|[r o] l IH]; intros Hf Hlo m x Hx; [done|]. apply fields_cons in Hf as (Hf & _ & _ & _ & H1 & H2). cbn [stored fst snd fmap list_fmap] in *.
  apply list.Forall_cons in Hlo as [? ?]. rewrite IH by done. apply store64_out. lia.
Qed.

(* what uservec leaves: [m] is the user's state, [pa] the trap frame *)
Definition trapped (m m1 : mach) (pa next : Z) : Prop :=
  regs m1 RA = next ∧ regs m1 SP = load64 (mm m) (pa + tf_kernel_sp) ∧ regs m1 TP = load64 (mm m) (pa + tf_kernel_hartid) ∧
  csrs m1 satp = load64 (mm m) (pa + tf_kernel_satp) ∧ (∀ r, load64 (mm m1) (pa + tf_of r) = regs m r) ∧
  same_outside (pa + 40) (tf_size - 40) (mm m) (mm m1).

(* the registers while the frame is written, the frame, and the registers at the end *)
Definition uv_user (m : mach) : reg → Z := put_reg A0 TRAPFRAME (regs m).
Definition uv_mem (m : mach) (pa : Z) : mem := store64 (stored pa (uv_user m) tf_regs (mm m)) (pa + tf_of A0) (regs m A0).
Definition uv_regs (m : mach) (pa : Z) : reg → Z := loaded pa (uv_mem m pa) kernel_regs (put_reg T0 (regs m A0) (uv_user m)).

Lemma run_sd tr r o b code m pa : addr tr m b o = Some pa → run tr (sd r o b :: code) m = run tr code (set_mm (store64 (mm m) pa (regs m r)) m).
Proof. intros E. cbn [run]. by rewrite E. Qed.
Lemma run_ld tr r o b code m pa : addr tr m b o = Some pa → run tr (ld r o b :: code) m = run tr code (set_reg r (load64 (mm m) pa) m).
Proof. intros E. cbn [run]. by rewrite E. Qed.

Lemma u64_trapframe : u64 TRAPFRAME = TRAPFRAME.
Proof. vm_compute. reflexivity. Qed.
Lemma run_csrw tr c r code m : run tr (csrw c r :: code) m = run tr code (set_creg c (regs m r) m).
Proof. done. Qed.
Lemma run_li tr r v code m : run tr (li r v :: code) m = run tr code (set_reg r (u64 v) m).
Proof. done. Qed.
Lemma run_addi tr r a v code m : run tr (addi r a v :: code) m = run tr code (set_reg r (u64 (regs m a + v)) m).
Proof. done. Qed.
Lemma run_fence tr code m : run tr (sfence_vma :: code) m = run tr code m.
Proof. done. Qed.
Lemma run_csrr tr r c code m : run tr (csrr r c :: code) m = run tr code (set_reg r (csrs m c) m).
Proof. done. Qed.

Lemma uv_mem_out m pa : same_outside (pa + 40) (tf_size - 40) (mm m) (uv_mem m pa).
Proof.
  intros x Hx. unfold uv_mem. rewrite store64_out by (pose proof (tf_of_range A0); unfold tf_size in Hx; lia).
  by apply (stored_below pa (uv_user m) tf_size tf_regs 40 tf_fields ltac:(by apply (bool_decide_unpack _)) (mm m) x).
Qed.
Lemma uv_mem_at m pa r : words (regs m) → load64 (uv_mem m pa) (pa + tf_of r) = regs m r.
Proof.
  intros Hw. unfold uv_mem. destruct (decide (r = A0)) as [->|Hr]; [by apply load_store64|].
  pose proof (tf_of_range r) as [Hm _]. pose proof (tf_of_range A0) as [Hm0 _]. rewrite load_store64_ne by (destruct (mod8_apart (tf_of r) (tf_of A0) Hm Hm0) as [?|?]; [by destruct r|lia|lia]).
  rewrite (stored_at pa (uv_user m) tf_regs tf_size r (tf_of r) tf_fields); [by apply put_reg_ne| |by apply tf_regs_in].
  intros x. unfold uv_user, put_reg. case_decide; [rewrite <- u64_trapframe; apply wrap_bound; lia|apply Hw].
Qed.
Lemma uv_regs_at m pa r o : (r, o) ∈ kernel_regs → uv_regs m pa r = load64 (mm m) (pa + o).
Proof.
  intros Hin. unfold uv_regs. rewrite (loaded_at _ _ _ _ _ _ kernel_fields Hin). apply load64_ext. intros x Hx. apply uv_mem_out.
  pose proof (proj1 (list.Forall_forall _ _) kernel_low _ Hin) as Hl. cbn [snd] in Hl. lia.
Qed.

Section Uservec.
Variables (tr : Z → Z → option Z) (pa next : Z).

Lemma uservec_saves m code : window tr (csrs m satp) TRAPFRAME pa tf_size →
  run tr (csrw sscratch A0 :: li A0 TRAPFRAME :: saves A0 tf_regs ++ code) m =
  run tr code (mkMach (uv_user m) (csrs (set_creg sscratch (regs m A0) m)) (stored pa (uv_user m) tf_regs (mm m))).
Proof.
  intros W. rewrite run_csrw, run_li, u64_trapframe. change (set_reg A0 TRAPFRAME (set_creg sscratch (regs m A0) m)) with (mkMach (uv_user m) (csrs (set_creg sscratch (regs m A0) m)) (mm m)).
  rewrite (run_saves A0 tf_regs tf_size pa); [done|exact tf_fields|exact W].
Qed.
Lemma uservec_a0 R C b code : R A0 = TRAPFRAME → window tr (C satp) TRAPFRAME pa tf_size →
  run tr (csrr T0 sscratch :: sd T0 (tf_of A0) A0 :: code) (mkMach R C b) = run tr code (mkMach (put_reg T0 (C sscratch) R) C (store64 b (pa + tf_of A0) (C sscratch))).
Proof.
  intros HR W. rewrite run_csrr. rewrite (run_sd _ _ _ _ _ _ (pa + tf_of A0)); [done|]. unfold addr. cbn [regs csrs set_reg set_regs]. rewrite put_reg_ne, HR by done. by apply W.
Qed.
Lemma uservec_enters R C b : R A0 = TRAPFRAME → window tr (C satp) TRAPFRAME pa tf_size → let R' := loaded pa b kernel_regs R in
  run tr (restores A0 kernel_regs ++ [sfence_vma; csrw satp T1; sfence_vma; jalr T0 next]) (mkMach R C b) =
  Some (set_reg RA next (set_creg satp (R' T1) (mkMach R' C b)), Jump (R' T0)).
Proof.
  intros HR W R'. rewrite (run_restores A0 kernel_regs tf_size pa _ (mkMach R C b) kernel_fields); [done|apply a0_apart|]. cbn [regs csrs]. by rewrite HR.
Qed.
Lemma uservec_run m : window tr (csrs m satp) TRAPFRAME pa tf_size →
  run tr (uservec next) m = Some (set_reg RA next (set_creg satp (uv_regs m pa T1) (mkMach (uv_regs m pa) (csrs (set_creg sscratch (regs m A0) m)) (uv_mem m pa))), Jump (uv_regs m pa T0)).
Proof.
  intros W. rewrite uservec_eq, uservec_saves by done. rewrite uservec_a0; [|apply put_reg_eq|exact W].
  apply uservec_enters; [|exact W]. rewrite put_reg_ne by done. apply put_reg_eq.
Qed.
End Uservec.

Lemma uservec_spec tr m pa next : words (regs m) → window tr (csrs m satp) TRAPFRAME pa tf_size →
  ∃ m1, run tr (uservec next) m = Some (m1, Jump (load64 (mm m) (pa + tf_kernel_trap))) ∧ trapped m m1 pa next.
Proof.
  intros Hw W. rewrite (uservec_run tr pa next m W). rewrite (uv_regs_at m pa T0 tf_kernel_trap), (uv_regs_at m pa T1 tf_kernel_satp) by (by apply (bool_decide_unpack _)).
  eexists. split; [reflexivity|]. unfold trapped. cbn [regs csrs mm set_reg set_regs set_creg]. rewrite put_reg_eq, !put_reg_ne, decide_True by done.
  rewrite (uv_regs_at m pa SP tf_kernel_sp), (uv_regs_at m pa TP tf_kernel_hartid) by (by apply (bool_decide_unpack _)).
  split_and!; [reflexivity..| |apply uv_mem_out]. intros r. by apply uv_mem_at.
Qed.

Lemma userret_spec tr m pa : window tr (regs m A0) TRAPFRAME pa tf_size →
  ∃ m1, run tr userret m = Some (m1, Sret) ∧ csrs m1 satp = regs m A0 ∧ mm m1 = mm m ∧ ∀ r, regs m1 r = load64 (mm m) (pa + tf_of r).
Proof.
  intros W. rewrite userret_eq, run_fence, run_csrw, run_fence, run_li, u64_trapframe. set (ma := set_reg A0 _ _). rewrite (run_restores A0 tf_regs tf_size pa _ ma tf_fields); [|apply a0_apart|exact W].
  cbn [run]. unfold addr. set (mb := set_regs _ ma). assert (regs mb A0 = TRAPFRAME) as E by (apply (loaded_skip pa (mm ma)); apply a0_apart).
  rewrite E. change (csrs mb satp) with (regs m A0). rewrite W by done. eexists. split_and!; [done|done|done|]. intros r. cbn [regs set_reg set_regs].
  unfold put_reg. destruct (decide (r = A0)) as [->|Hr]; [done|]. apply (loaded_at _ _ _ _ _ _ tf_fields). by apply tf_regs_in.
Qed.

(** C10 A trap from user space and the return to it leave the user's registers
    alone.  uservec saves every register in the field of the trap frame that
    the kernel's C code uses for it, changes nothing else, and enters usertrap
    on the kernel stack and page table with ra at userret.  When usertrap
    returns with a satp that maps the same trap frame, userret installs it and
    loads every register from the frame, so that each register whose field the
    kernel has not written has the value it had at the trap. *)
Theorem trampoline_roundtrip tr m pa ret : words (regs m) → window tr (csrs m satp) TRAPFRAME pa tf_size →
  ∃ m1, run tr (uservec ret) m = Some (m1, Jump (load64 (mm m) (pa + tf_kernel_trap))) ∧ trapped m m1 pa ret ∧
    ∀ m2, window tr (regs m2 A0) TRAPFRAME pa tf_size →
      ∃ m3, run tr userret m2 = Some (m3, Sret) ∧ csrs m3 satp = regs m2 A0 ∧ mm m3 = mm m2 ∧ (∀ r, regs m3 r = load64 (mm m2) (pa + tf_of r)) ∧
        ∀ r, same_bytes (pa + tf_of r) 8 (mm m1) (mm m2) → regs m3 r = regs m r.
Proof.
  intros Hw W. destruct (uservec_spec tr m pa ret Hw W) as (m1 & E1 & Ht). exists m1. split_and!; [done|done|]. intros m2 W2.
  destruct (userret_spec tr m2 pa W2) as (m3 & E3 & Hs & Hm & Hr). exists m3. split_and!; [done..|]. intros r Hsame. destruct Ht as (_ & _ & _ & _ & Hsaved & _).
  rewrite Hr, <- Hsaved. apply load64_ext. intros x Hx. apply Hsame. lia.
Qed.

(* the trap frame at 4096, under every satp *)
Definition ex_mmu (sa va : Z) : option Z := if decide (TRAPFRAME ≤ va < TRAPFRAME + PGSIZE) then Some (va - TRAPFRAME + 4096) else None.
Lemma ex_mmu_window sa : window ex_mmu sa TRAPFRAME 4096 tf_size.
Proof.
  intros o Ho Hn. unfold tf_size in Hn. assert (u64 (TRAPFRAME + o) = TRAPFRAME + o) as -> by (apply wrap_small; change TRAPFRAME with 274877898752; lia).
  unfold ex_mmu. rewrite decide_True by (unfold PGSIZE; lia). f_equal. lia.
Qed.
Lemma trampoline_roundtrip_witness : ∃ m1, run ex_mmu (uservec 96) (ex_mach 5 6) = Some (m1, Jump 0) ∧ trapped (ex_mach 5 6) m1 4096 96 ∧
  ∀ m2, window ex_mmu (regs m2 A0) TRAPFRAME 4096 tf_size →
      ∃ m3, run ex_mmu userret m2 = Some (m3, Sret) ∧ csrs m3 satp = regs m2 A0 ∧ mm m3 = mm m2 ∧ (∀ r, regs m3 r = load64 (mm m2) (4096 + tf_of r)) ∧
        ∀ r, same_bytes (4096 + tf_of r) 8 (mm m1) (mm m2) → regs m3 r = regs (ex_mach 5 6) r.
Proof. apply (trampoline_roundtrip ex_mmu (ex_mach 5 6) 4096 96); [apply ex_words; lia|apply ex_mmu_window]. Defined.

(** ** kernelvec *)

Definition kv_saved : list (reg * Z) :=
  [(RA, 0); (GP, 16); (TP, 24); (T0, 32); (T1, 40); (T2, 48); (A0, 72); (A1, 80); (A2, 88); (A3, 96); (A4, 104); (A5, 112); (A6, 120); (A7, 128); (T3, 216); (T4, 224); (T5, 232); (T6, 240)].
Definition kv_restored : list (reg * Z) := filter (λ x, x.1 ≠ TP) kv_saved.

Lemma kv_fields : fields 256 kv_saved ∧ fields 256 kv_restored.
Proof. split; by_fields. Qed.
Lemma kv_cases r : r = SP ∨ r = TP ∨ r ∈ sregs_list ∨ ∃ o, (r, o) ∈ kv_restored ∧ (r, o) ∈ kv_saved.
Proof.
  destruct (decide (r = SP)); [by left|]. destruct (decide (r = TP)); [by do 1 right; left|]. destruct (decide (r ∈ sregs_list)) as [|Hn]; [by do 2 right; left|]. do 3 right.
  assert (r ∈ kv_restored.*1) as Hin by (destruct r; try done; solve [by apply (bool_decide_unpack _)|exfalso; apply Hn; by apply (bool_decide_unpack _)]).
  apply list_elem_of_fmap in Hin as ([r' o] & -> & Hin). exists o. split; [done|]. by apply list_elem_of_filter in Hin as [_ ?].
Qed.

Lemma sregs_apart r : r ∈ sregs_list → r ∉ kv_restored.*1 ∧ r ≠ RA ∧ r ≠ SP.
Proof.
  assert (Forall (λ r, r ∉ kv_restored.*1 ∧ r ≠ RA ∧ r ≠ SP) sregs_list) as H by (by apply (bool_decide_unpack _)). by apply (proj1 (list.Forall_forall _ _) H).
Qed.
Lemma kv_no_sp o : (SP, o) ∉ kv_saved.
Proof. assert (SP ∉ kv_saved.*1) as H by (by apply (bool_decide_unpack _)). intros Hin. apply H. apply list_elem_of_fmap. by exists (SP, o). Qed.
Lemma sp_back v : 0 ≤ v < 2 ^ 64 → u64 (u64 (v + -256) + 256) = v.
Proof. intros Hv. unfold u64, wrap. rewrite Zplus_mod_idemp_l. replace (v + -256 + 256) with v by lia. by apply Z.mod_small. Qed.

(** A trap taken in the kernel leaves the registers of the interrupted code
    alone, but for tp, which names the hart it continues on.  [m2] is the state
    kerneltrap returns in: by the calling convention it has kept sp, s0-s11 and
    the caller's stack. *)
Lemma kernelvec_transparent tr m pa kerneltrap next : words (regs m) → window tr (csrs m satp) (u64 (regs m SP - 256)) pa 256 →
  ∃ m1, run tr (kernelvec_save kerneltrap next) m = Some (m1, Jump kerneltrap) ∧ regs m1 RA = next ∧ same_outside pa 256 (mm m) (mm m1) ∧
    ∀ m2, same_bytes pa 256 (mm m1) (mm m2) → (∀ r, r = SP ∨ r ∈ sregs_list → regs m2 r = regs m1 r) → window tr (csrs m2 satp) (regs m2 SP) pa 256 →
      ∃ m3, run tr kernelvec_restore m2 = Some (m3, Sret) ∧ mm m3 = mm m2 ∧ csrs m3 = csrs m2 ∧ regs m3 TP = regs m2 TP ∧ ∀ r, r ≠ TP → regs m3 r = regs m r.
Proof.
  intros Hw W. set (ma := set_reg SP (u64 (regs m SP + -256)) m). destruct kv_fields as [F1 F2].
  exists (set_reg RA next (set_mm (stored pa (regs ma) kv_saved (mm ma)) ma)). split_and!.
  - change (kernelvec_save kerneltrap next) with (addi SP SP (-256) :: saves SP kv_saved ++ [call kerneltrap next]). rewrite run_addi. fold ma. by rewrite (run_saves SP kv_saved 256 pa _ ma F1 W).
  - done.
  - exact (stored_out pa (regs ma) _ _ F1 (mm m)).
  - intros m2 Hsame Hkeep W2. change kernelvec_restore with (restores SP kv_restored ++ [addi SP SP 256; sret]).
    rewrite (run_restores SP kv_restored 256 pa _ m2 F2); [|by apply (bool_decide_unpack _)|done]. cbn [run]. eexists. split_and!; [done|done|done| |].
    + apply (loaded_skip pa (mm m2)). by apply (bool_decide_unpack _).
    + cbn [mm set_mm set_reg set_regs regs] in *. intros r Hr. destruct (kv_cases r) as [->|[->|[Hin|(o & H1 & H2)]]]; [|done| |].
      * unfold put_reg at 1. rewrite decide_True by done. rewrite loaded_skip by (by apply (bool_decide_unpack _)). rewrite Hkeep by by left. apply sp_back, Hw.
      * destruct (sregs_apart r Hin) as (Ha & Hb & Hc). rewrite put_reg_ne, loaded_skip by done. rewrite Hkeep by by right. rewrite put_reg_ne by done. by apply put_reg_ne.
      * destruct (fields_at _ _ _ _ F2 H1) as (_ & ? & ?). assert (r ≠ SP) as Hsp by (intros ->; by apply kv_no_sp in H2).
        rewrite put_reg_ne by done. rewrite (loaded_at _ _ _ _ _ _ F2 H1). rewrite (load64_ext (stored pa (regs ma) kv_saved (mm ma))) by (intros; apply Hsame; lia).
        rewrite (stored_at pa (regs ma) kv_saved 256 r o F1); [by apply put_reg_ne| |done]. intros x. simpl. unfold put_reg. case_decide; [apply wrap_bound; lia|apply Hw].
Qed.

(** ** entry and the stubs *)

(** Each hart enters start on its own page of stack0. *)
Lemma entry_stack tr m stack0 start spin : 0 ≤ stack0 → stack0 + NCPU * 4096 < 2 ^ 64 → 0 ≤ csrs m mhartid < NCPU →
  ∃ m', run tr (entry stack0 start spin) m = Some (m', Jump start) ∧ regs m' SP = stack0 + (csrs m mhartid + 1) * 4096 ∧ mm m' = mm m.
Proof.
  unfold NCPU. intros H0 H1 Hh. eexists. split_and!; [reflexivity| |reflexivity].
  change (u64 (u64 stack0 + u64 (u64 (1024 * 4) * u64 (csrs m mhartid + 1))) = stack0 + (csrs m mhartid + 1) * 4096).
  assert (∀ v, 0 ≤ v < 2 ^ 64 → u64 v = v) as Hu by (intros; apply wrap_small; lia).
  rewrite (Hu stack0), (Hu (1024 * 4)), (Hu (csrs m mhartid + 1)) by lia. rewrite (Hu (1024 * 4 * _)), Hu by lia. lia.
Qed.

Lemma usys_range : Forall (λ x, 0 < x.2 < 22) usys.
Proof. by apply (bool_decide_unpack _). Qed.

(** A stub traps with the number of its call in a7 and the arguments where
    the caller put them; then it returns. *)
Lemma stub_traps tr m name num : (name, num) ∈ usys →
  ∃ m', run tr (stub num) m = Some (m', Ecall) ∧ regs m' A7 = num ∧ (∀ r, r ≠ A7 → regs m' r = regs m r) ∧ csrs m' = csrs m ∧ mm m' = mm m.
Proof.
  intros Hin. eexists. split_and!; [done| |by intros r Hr; apply put_reg_ne|done|done]. cbn [regs set_reg set_regs]. rewrite put_reg_eq. apply wrap_small.
  pose proof (proj1 (list.Forall_forall _ _) usys_range _ Hin) as Hr. simpl in Hr. lia.
Qed.

(** The stubs reach every entry of the kernel's table, each a different one. *)
Lemma usys_table {S U} `{HasDev S U} (E : sysenv S U) : NoDup usys.*1 ∧ NoDup usys.*2 ∧ ∀ num, num ∈ usys.*2 ↔ is_Some (syscalls E num).
Proof.
  split; [by apply (bool_decide_unpack _)|]. split; [by apply (bool_decide_unpack _)|]. intros num. split.
  - change (usys.*2) with (snd <$> usys). cbn [usys fmap list_fmap snd]. intros Hin. repeat (apply elem_of_cons in Hin as [->|Hin]; [eexists; reflexivity|]). by apply elem_of_nil in Hin.
  - unfold syscalls. repeat (destruct (decide _) as [->|]; [intros _; refine (bool_decide_unpack _ _); exact I|]). by intros [? ?].
Qed.
