(* ===== verification/UserSys.v ===== *)
(** * User programs and their system calls

    A user program is a tree of system calls: a node names the call and its
    arguments, and continues with whatever the kernel answers.  What the kernel
    answers is not fixed here; the theorems on user programs say which answers
    they assume.  Strings are the lists of their bytes before the NUL, and a
    buffer the kernel fills is part of the answer.  The calls and their results
    are those declared in user/user.h. *)

From S2P Require Import Prelude Printf.

Inductive sys : Type → Type :=
| Sfork : sys Z
| Sexit (status : Z) : sys Empty_set
| Swait : sys (Z * Z)
| Spipe : sys (Z * Z * Z)
| Swrite (fd : Z) (bs : list Z) : sys Z
| Sread (fd n : Z) : sys (Z * list Z)
| Sclose (fd : Z) : sys Z
| Skill (pid : Z) : sys Z
| Sexec (path : list Z) (argv : list (list Z)) : sys Z
| Sopen (path : list Z) (mode : Z) : sys Z
| Smknod (path : list Z) (major minor : Z) : sys Z
| Sunlink (path : list Z) : sys Z
| Sfstat (fd : Z) : sys (Z * list Z)
| Slink (old new : list Z) : sys Z
| Smkdir (path : list Z) : sys Z
| Schdir (path : list Z) : sys Z
| Sdup (fd : Z) : sys Z
| Sgetpid : sys Z
| Ssbrk (n how : Z) : sys Z
| Spause (n : Z) : sys Z
| Suptime : sys Z.

(** [Crash] is undefined behaviour, [Fuel] a loop cut off by its bound. *)
Inductive prog (A : Type) : Type :=
| Ret (a : A)
| Call (R : Type) (c : sys R) (k : R → prog A)
| Crash
| Fuel.
Arguments Ret {A} _.
Arguments Call {A R} _ _.
Arguments Crash {A}.
Arguments Fuel {A}.

Fixpoint pbind {A B} (m : prog A) (f : A → prog B) : prog B :=
  match m with
  | Ret a => f a
  | Call c k => Call c (λ r, pbind (k r) f)
  | Crash => Crash
  | Fuel => Fuel
  end.

Declare Scope prog_scope.
Delimit Scope prog_scope with prog.
Notation "x <~ m ; k" := (pbind m (λ x, k)) (at level 100, m at next level, right associativity) : prog_scope.
Notation "m ;~ k" := (pbind m (λ _, k)) (at level 100, right associativity) : prog_scope.
Open Scope prog_scope.

Definition call {R} (c : sys R) : prog R := Call c Ret.
(* exit does not return *)
Definition exit {A} (status : Z) : prog A := Call (Sexit status) (λ r, match r with end).

(* write one byte at a time, as putc does *)
Fixpoint put_bytes (fd : Z) (bs : list Z) : prog unit :=
  match bs with
  | [] => Ret tt
  | b :: bs => call (Swrite fd [b]) ;~ put_bytes fd bs
  end.

Definition ustr (s : string) : list Z := (λ a, Z.of_N (Ascii.N_of_ascii a)) <$> String.list_ascii_of_string s.

Definition fprintf (fd : Z) (fmt : list Z) (args : list arg) : prog unit :=
  match User.vprintf fmt args with Some out => put_bytes fd out | None => Crash end.
Arguments fprintf : simpl never.
Definition uprintf (fmt : list Z) (args : list arg) : prog unit := fprintf 1 fmt args.

(** ** Programs as trees *)

(** Whatever the kernel answers, the program neither crashes nor runs out of
    fuel, and what it returns satisfies [P]. *)
Fixpoint gives {A} (P : A → Prop) (m : prog A) : Prop :=
  match m with
  | Ret a => P a
  | Call c k => ∀ r, gives P (k r)
  | Crash => False
  | Fuel => False
  end.

Lemma gives_bind {A B} (P : A → Prop) (Q : B → Prop) (m : prog A) (f : A → prog B) :
  gives P m → (∀ a, P a → gives Q (f a)) → gives Q (pbind m f).
Proof. intros Hm Hf. induction m; simpl in *; try done; auto. Qed.

Lemma gives_mono {A} (P Q : A → Prop) (m : prog A) : gives P m → (∀ a, P a → Q a) → gives Q m.
Proof. intros Hm Hf. induction m; simpl in *; auto. Qed.

Lemma gives_put_bytes fd bs : gives (λ _, True) (put_bytes fd bs).
Proof. induction bs as [|b bs IH]; simpl; auto. Qed.

Lemma gives_fprintf fd fmt args out : User.vprintf fmt args = Some out → gives (λ _, True) (fprintf fd fmt args).
Proof. intros E. unfold fprintf. rewrite E. apply gives_put_bytes. Qed.

Lemma gives_exit {A} (P : A → Prop) status : gives P (exit status).
Proof. intros []. Qed.

Create HintDb user.
#[export] Hint Resolve gives_put_bytes gives_exit : user.
