(* ===== verification/Ulib.v ===== *)
(** * The user library (user/ulib.c)

    The string and memory functions work on a byte memory, as the kernel's do
    in CString.v; a scan for a NUL is bounded by [fuel] and [None] when it does
    not find one.  [gets] and [stat] make system calls. *)

From S2P Require Import Prelude CString FsDefs Fs File Sysfile Printf UserSys.

(** ** Strings *)

Fixpoint strcpy (fuel : nat) (m : mem) (s t : Z) : option mem :=
  match fuel with
  | O => None
  | S fuel =>
      let c := m t in
      let m := upd m s c in
      if decide (c ≠ 0) then strcpy fuel m (s + 1) (t + 1) else Some m
  end.

Fixpoint strcmp (fuel : nat) (m : mem) (p q : Z) : option Z :=
  match fuel with
  | O => None
  | S fuel =>
      if decide (m p ≠ 0 ∧ m p = m q) then strcmp fuel m (p + 1) (q + 1)
      else Some (m p - m q)
  end.

Fixpoint strlen_loop (fuel : nat) (m : mem) (s n : Z) : option Z :=
  match fuel with
  | O => None
  | S fuel => if decide (m (s + n) ≠ 0) then strlen_loop fuel m s (n + 1) else Some (u32 n)
  end.
Definition strlen (fuel : nat) (m : mem) (s : Z) : option Z := strlen_loop fuel m s 0.

Fixpoint memset_loop (m : mem) (cdst c i : Z) (k : nat) : mem :=
  match k with O => m | S k => memset_loop (upd m (cdst + i) (u8 c)) cdst c (i + 1) k end.
Definition memset (m : mem) (dst c n : Z) : mem := memset_loop m dst c 0 (Z.to_nat (u32 n)).

(* the address of the first c, or 0 *)
Fixpoint strchr (fuel : nat) (m : mem) (s c : Z) : option Z :=
  match fuel with
  | O => None
  | S fuel =>
      if decide (m s ≠ 0) then if decide (m s = c) then Some s else strchr fuel m (s + 1) c
      else Some 0
  end.

(* n*10 + *s++ - '0' in an int *)
Fixpoint atoi_loop (fuel : nat) (m : mem) (s n : Z) : option Z :=
  match fuel with
  | O => None
  | S fuel =>
      if decide (48 ≤ m s ≤ 57) then atoi_loop fuel m (s + 1) (i32 (n * 10 + m s - 48))
      else Some n
  end.
Definition atoi (fuel : nat) (m : mem) (s : Z) : option Z := atoi_loop fuel m s 0.

(** ** Memory *)

Fixpoint move_up (m : mem) (dst src : Z) (n : nat) : mem :=
  match n with O => m | S n => move_up (upd m dst (m src)) (dst + 1) (src + 1) n end.
Fixpoint move_down (m : mem) (dst src : Z) (n : nat) : mem :=
  match n with O => m | S n => move_down (upd m (dst - 1) (m (src - 1))) (dst - 1) (src - 1) n end.
Definition memmove (m : mem) (vdst vsrc n : Z) : mem :=
  let n := i32 n in
  if decide (vsrc > vdst) then move_up m vdst vsrc (Z.to_nat n)
  else move_down m (vdst + n) (vsrc + n) (Z.to_nat n).

Fixpoint memcmp_loop (m : mem) (p1 p2 : Z) (n : nat) : Z :=
  match n with
  | O => 0
  | S n => if decide (m p1 ≠ m p2) then m p1 - m p2 else memcmp_loop m (p1 + 1) (p2 + 1) n
  end.
Definition memcmp (m : mem) (s1 s2 n : Z) : Z := memcmp_loop m s1 s2 (Z.to_nat (u32 n)).

Definition memcpy (m : mem) (dst src n : Z) : mem := memmove m dst src n.

(** ** System calls *)

(* for(i=0; i+1 < max; ), with k iterations left; what buf holds is before i *)
Fixpoint gets_loop (k : nat) (line : list Z) : prog (list Z) :=
  match k with
  | O => Ret line
  | S k =>
      r <~ call (Sread 0 1) ;
      let '(cc, bs) := r in
      if decide (cc < 1) then Ret line else
      let c := default 0 (head bs) in
      let line := line ++ [c] in
      if decide (c = 10 ∨ c = 13) then Ret line else gets_loop k line
  end.
(* the bytes stored before the final NUL *)
Definition gets (max : Z) : prog (list Z) := gets_loop (Z.to_nat (max - 1)) [].

Definition stat (n : list Z) : prog (Z * list Z) :=
  fd <~ call (Sopen n O_RDONLY) ;
  if decide (fd < 0) then Ret (-1, []) else
  r <~ call (Sfstat fd) ;
  call (Sclose fd) ;~
  Ret r.

Definition sbrk (n : Z) : prog Z := call (Ssbrk n 1).
Definition sbrklazy (n : Z) : prog Z := call (Ssbrk n 2).

(* main's result becomes the exit status *)
Definition start (main : prog Z) : prog unit := r <~ main ; exit r.

(** ** Properties *)

Lemma move_up_spec m d s n a : s > d →
  move_up m d s n a = if decide (d ≤ a < d + Z.of_nat n) then m (a - d + s) else m a.
Proof.
  revert m d s. induction n as [|n IH]; intros m d s Hs; simpl; [by rewrite decide_False by lia|].
  rewrite IH by lia. rewrite !upd_spec. repeat case_decide; try lia; f_equal; lia.
Qed.

Lemma move_down_spec m d s n a : s ≤ d →
  move_down m d s n a = if decide (d - Z.of_nat n ≤ a < d) then m (a - d + s) else m a.
Proof.
  revert m d s. induction n as [|n IH]; intros m d s Hs; simpl; [by rewrite decide_False by lia|].
  rewrite IH by lia. rewrite !upd_spec. repeat case_decide; try lia; f_equal; lia.
Qed.

(** The user library's memmove and the kernel's have the same effect. *)
Lemma memmove_agrees m dst src n a : 0 ≤ n < 2 ^ 31 → memmove m dst src n a = CString.memmove m dst src n a.
Proof.
  intros Hn. rewrite memmove_spec by lia. unfold memmove. assert (i32 n = n) as -> by (unfold i32; rewrite Z.mod_small; lia).
  case_decide.
  - rewrite move_up_spec by lia. rewrite Z2Nat.id by lia. case_decide; [f_equal; lia|done].
  - rewrite move_down_spec by lia. rewrite Z2Nat.id by lia.
    destruct (decide (dst ≤ a < dst + n)); [rewrite decide_True by lia; f_equal; lia|by rewrite decide_False by lia].
Qed.
