(* ===== verification/Sh.v ===== *)
(** * The shell (user/sh.c)

    A command line is a byte array [buf]; a [char *] into it is an index.
    Commands are the structures that execcmd, redircmd and so on allocate; a
    [struct cmd *] is an index into the list of structures allocated so far.
    parseexec keeps a pointer to the execcmd it fills while redirections are
    wrapped around it, so the structures are updated in place.  malloc, which
    the code does not check, always returns a new structure. *)

From S2P Require Import Prelude FsDefs Fs File Sysfile Printf UserSys Ulib.

Definition MAXARGS : nat := 10.

Inductive node : Type :=
| Nexec (argv eargv : list (option nat))
| Nredir (cmd file efile : nat) (mode fd : Z)
| Npipe (left right : nat)
| Nlist (left right : nat)
| Nback (cmd : nat).

Record shst : Type := mkSh { buf : list Z; heap : list node }.

(** ** Parsing may print a message and exit *)

Definition P (A : Type) : Type := shst → prog (A * shst).
Definition pure {A} (a : A) : P A := λ st, Ret (a, st).
Definition andthen {A B} (m : P A) (f : A → P B) : P B := λ st, pbind (m st) (λ r, f r.1 r.2).
Declare Scope sh_scope.
Notation "'let!' x := m 'in' k" := (andthen m (λ x, k)) (at level 200, x pattern, right associativity) : sh_scope.
Open Scope sh_scope.
Definition lift {A} (m : prog A) : P A := λ st, pbind m (λ a, Ret (a, st)).
Definition out_of_fuel {A} : P A := λ _, Fuel.

Definition s_nl : list Z := [37; 115; 10].  (* "%s\n" *)
Definition panic {A} (s : list Z) : P A := let! _ := lift (fprintf 2 s_nl [AStr (Some s)]) in lift (exit 1).

(** ** Constructors *)

Definition alloc (n : node) : P nat := λ st, Ret (length (heap st), mkSh (buf st) (heap st ++ [n])).
Definition execcmd : P nat := alloc (Nexec (replicate MAXARGS None) (replicate MAXARGS None)).
Definition redircmd (subcmd file efile : nat) (mode fd : Z) : P nat := alloc (Nredir subcmd file efile mode fd).
Definition pipecmd (left right : nat) : P nat := alloc (Npipe left right).
Definition listcmd (left right : nat) : P nat := alloc (Nlist left right).
Definition backcmd (subcmd : nat) : P nat := alloc (Nback subcmd).

(* cmd->argv[argc] = q; cmd->eargv[argc] = eq *)
Definition set_arg (cmd argc : nat) (q eq : option nat) : P unit := λ st,
  match heap st !! cmd with
  | Some (Nexec argv eargv) =>
      if decide (argc < MAXARGS)%nat
      then Ret (tt, mkSh (buf st) (<[cmd := Nexec (<[argc := q]> argv) (<[argc := eq]> eargv)]> (heap st)))
      else Crash
  | _ => Crash
  end.

(** ** Tokens *)

Definition whitespace : list Z := [32; 9; 13; 10; 11].
Definition symbols : list Z := ustr "<|>&;()".
(* strchr(s, c) != 0 *)
Definition strchr (s : list Z) (c : Z) : bool := existsb (Z.eqb c) s.

(* while(s < es && ok( *s)) s++, k = es - s times at most; a read outside the
   line has no value *)
Fixpoint advance (ok : Z → bool) (b : list Z) (k s : nat) : option nat :=
  match k with
  | O => Some s
  | S k => c ← b !! s; if ok c : bool then advance ok b k (S s) else Some s
  end.
Definition skip_ws (b : list Z) (s es : nat) : option nat := advance (strchr whitespace) b (es - s) s.
Definition plain (c : Z) : bool := negb (strchr whitespace c) && negb (strchr symbols c).

(* the switch of gettoken on the character c at s: the token and where it ends *)
Definition token (b : list Z) (s es : nat) (c : Z) : option (Z * nat) :=
  if decide (c = 0) then Some (c, s)
  else if strchr (ustr "|();&<") c then Some (c, S s)
  else if decide (c = 62) then
    let s := S s in
    c' ← b !! s;
    Some (if decide (c' = 62) then (43, S s) else (c, s))
  else
    s ← advance plain b (es - s) s;
    Some (97, s).

(* the token, where it begins and ends, and the new position *)
Definition gettoken (b : list Z) (s es : nat) : option (Z * nat * nat * nat) :=
  s ← skip_ws b s es;
  let q := s in
  c ← b !! s;
  '(ret, s) ← token b s es c;
  let eq := s in
  s ← skip_ws b s es;
  Some (ret, q, eq, s).

Definition peek (b : list Z) (s es : nat) (toks : list Z) : option (bool * nat) :=
  s ← skip_ws b s es;
  c ← b !! s;
  Some (negb (bool_decide (c = 0)) && strchr toks c, s).

Definition get_buf : P (list Z) := λ st, Ret (buf st, st).
(* a read outside the line is undefined behaviour *)
Definition must {A} (o : option A) : prog A := match o with Some a => Ret a | None => Crash end.
Definition gettokenP (s es : nat) : P (Z * nat * nat * nat) := let! b := get_buf in lift (must (gettoken b s es)).
Definition peekP (s es : nat) (toks : list Z) : P (bool * nat) := let! b := get_buf in lift (must (peek b s es toks)).

(** ** The parser *)

Fixpoint parseredirs (fuel cmd s es : nat) : P (nat * nat) :=
  match fuel with
  | O => out_of_fuel
  | S fuel =>
      let! (more, s) := peekP s es (ustr "<>") in
      if more : bool then
        let! (tok, _, _, s) := gettokenP s es in
        let! (t, q, eq, s) := gettokenP s es in
        if decide (t ≠ 97) then panic (ustr "missing file for redirection") else
        let! cmd :=
          (if decide (tok = 60) then redircmd cmd q eq O_RDONLY 0
           else if decide (tok = 62) then redircmd cmd q eq (Z.lor (Z.lor O_WRONLY O_CREATE) O_TRUNC) 1
           else if decide (tok = 43) then redircmd cmd q eq (Z.lor O_WRONLY O_CREATE) 1
           else pure cmd) in
        parseredirs fuel cmd s es
      else pure (cmd, s)
  end.

(* the loop of parseexec *)
Fixpoint args_loop (fuel cmd ret argc s es : nat) : P (nat * nat * nat) :=
  match fuel with
  | O => out_of_fuel
  | S fuel =>
      let! (stop, s) := peekP s es (ustr "|)&;") in
      if stop : bool then pure (ret, argc, s) else
      let! (tok, q, eq, s) := gettokenP s es in
      if decide (tok = 0) then pure (ret, argc, s) else
      if decide (tok ≠ 97) then panic (ustr "syntax") else
      let! _ := set_arg cmd argc (Some q) (Some eq) in
      let argc := S argc in
      if decide (MAXARGS ≤ argc)%nat then panic (ustr "too many args") else
      let! (ret, s) := parseredirs (S (es - s)) ret s es in
      args_loop fuel cmd ret argc s es
  end.

(* the loop of parseline *)
Fixpoint back_loop (fuel cmd s es : nat) : P (nat * nat) :=
  match fuel with
  | O => out_of_fuel
  | S fuel =>
      let! (more, s) := peekP s es (ustr "&") in
      if more : bool then
        let! (_, _, _, s) := gettokenP s es in
        let! cmd := backcmd cmd in
        back_loop fuel cmd s es
      else pure (cmd, s)
  end.

Fixpoint parseline (fuel s es : nat) : P (nat * nat) :=
  match fuel with
  | O => out_of_fuel
  | S fuel =>
      let! (cmd, s) := parsepipe fuel s es in
      let! (cmd, s) := back_loop (S (es - s)) cmd s es in
      let! (more, s) := peekP s es (ustr ";") in
      if more : bool then
        let! (_, _, _, s) := gettokenP s es in
        let! (rcmd, s) := parseline fuel s es in
        let! cmd := listcmd cmd rcmd in
        pure (cmd, s)
      else pure (cmd, s)
  end
with parsepipe (fuel s es : nat) : P (nat * nat) :=
  match fuel with
  | O => out_of_fuel
  | S fuel =>
      let! (cmd, s) := parseexec fuel s es in
      let! (more, s) := peekP s es (ustr "|") in
      if more : bool then
        let! (_, _, _, s) := gettokenP s es in
        let! (rcmd, s) := parsepipe fuel s es in
        let! cmd := pipecmd cmd rcmd in
        pure (cmd, s)
      else pure (cmd, s)
  end
with parseblock (fuel s es : nat) : P (nat * nat) :=
  match fuel with
  | O => out_of_fuel
  | S fuel =>
      let! (open, s) := peekP s es (ustr "(") in
      if negb open then panic (ustr "parseblock") else
      let! (_, _, _, s) := gettokenP s es in
      let! (cmd, s) := parseline fuel s es in
      let! (close, s) := peekP s es (ustr ")") in
      if negb close then panic (ustr "syntax - missing )") else
      let! (_, _, _, s) := gettokenP s es in
      parseredirs (S (es - s)) cmd s es
  end
with parseexec (fuel s es : nat) : P (nat * nat) :=
  match fuel with
  | O => out_of_fuel
  | S fuel =>
      let! (block, s) := peekP s es (ustr "(") in
      if block : bool then parseblock fuel s es else
      let! cmd := execcmd in
      let! (ret, s) := parseredirs (S (es - s)) cmd s es in
      let! (ret, argc, s) := args_loop (S (es - s)) cmd ret 0 s es in
      let! _ := set_arg cmd argc None None in
      pure (ret, s)
  end.

(* *p = 0 *)
Definition set_nul (p : nat) : P unit := λ st,
  if decide (p < length (buf st))%nat then Ret (tt, mkSh (<[p := 0]> (buf st)) (heap st)) else Crash.

(* for(i=0; ecmd->argv[i]; i++) *ecmd->eargv[i] = 0 *)
Fixpoint nul_args (argv eargv : list (option nat)) : P unit :=
  match argv, eargv with
  | None :: _, _ => pure tt
  | Some _ :: argv, Some e :: eargv => let! _ := set_nul e in nul_args argv eargv
  | _, _ => λ _, Crash
  end.

Fixpoint nulterminate (fuel cmd : nat) : P unit :=
  match fuel with
  | O => out_of_fuel
  | S fuel => λ st,
      match heap st !! cmd with
      | Some (Nexec argv eargv) => nul_args argv eargv st
      | Some (Nredir c _ efile _ _) => (let! _ := nulterminate fuel c in set_nul efile) st
      | Some (Npipe l r) | Some (Nlist l r) => (let! _ := nulterminate fuel l in nulterminate fuel r) st
      | Some (Nback c) => nulterminate fuel c st
      | None => Crash
      end
  end.

(* the C string at p, when the line has a NUL after it *)
Fixpoint upto_nul (l : list Z) : option (list Z) :=
  match l with
  | [] => None
  | b :: l => if decide (b = 0) then Some [] else w ← upto_nul l; Some (b :: w)
  end.
Definition cstr_at (b : list Z) (p : nat) : option (list Z) := upto_nul (drop p b).
Definition stringP (p : nat) : P (list Z) := let! b := get_buf in lift (must (cstr_at b p)).

Definition leftovers : list Z := ustr "leftovers: %s" ++ [10].
Definition parsecmd (s : nat) : P nat :=
  let! str := stringP s in
  let es := (s + length str)%nat in
  let! (cmd, s) := parseline (4 * (es - s) + 4) s es in
  let! (_, s) := peekP s es [] in
  if decide (s ≠ es) then
    let! str := stringP s in
    let! _ := lift (fprintf 2 leftovers [AStr (Some str)]) in
    panic (ustr "syntax")
  else
  let! h := (λ st, Ret (heap st, st)) in
  let! _ := nulterminate (S (length h)) cmd in
  pure cmd.

(* for tests: the structure with its strings *)
Inductive cmd : Type :=
| CExec (argv : list (list Z))
| CRedir (c : cmd) (file : list Z) (mode fd : Z)
| CPipe (l r : cmd)
| CList (l r : cmd)
| CBack (c : cmd).

Fixpoint args_of (b : list Z) (argv : list (option nat)) : option (list (list Z)) :=
  match argv with
  | None :: _ => Some []
  | Some q :: argv => w ← cstr_at b q; ws ← args_of b argv; Some (w :: ws)
  | [] => None
  end.
Fixpoint cmd_of (fuel : nat) (st : shst) (p : nat) : option cmd :=
  match fuel with
  | O => None
  | S fuel =>
      match heap st !! p with
      | Some (Nexec argv _) => CExec <$> args_of (buf st) argv
      | Some (Nredir c file _ mode fd) => c ← cmd_of fuel st c; f ← cstr_at (buf st) file; Some (CRedir c f mode fd)
      | Some (Npipe l r) => l ← cmd_of fuel st l; r ← cmd_of fuel st r; Some (CPipe l r)
      | Some (Nlist l r) => l ← cmd_of fuel st l; r ← cmd_of fuel st r; Some (CList l r)
      | Some (Nback c) => CBack <$> cmd_of fuel st c
      | None => None
      end
  end.
