(* ===== verification/ShLex.v ===== *)
(** * Reading tokens (gettoken and peek of user/sh.c)

    [up s] is the input from position [s] on, without leading white space; the
    lemmas say what peek and gettoken do in terms of it. *)

From S2P Require Import Prelude Printf UserSys Ulib Sh.

Arguments strchr : simpl never.
Arguments plain : simpl never.

Fixpoint dropws (l : list Z) : list Z :=
  match l with [] => [] | c :: l' => if strchr whitespace c then dropws l' else l end.

Lemma dropws_idem l : dropws (dropws l) = dropws l.
Proof. induction l as [|c l IH]; simpl; [done|]. destruct (strchr whitespace c) eqn:E; [done|]. simpl. by rewrite E. Qed.

(** The characters that start a word. *)
Lemma plain_other c : strchr whitespace c = false → strchr (ustr "|();&<") c = false → c ≠ 62 → plain c = true.
Proof.
  unfold plain. intros -> Hs Hc. simpl. apply negb_true_iff. change (ustr "|();&<") with [124; 40; 41; 59; 38; 60] in Hs.
  change symbols with [60; 124; 62; 38; 59; 40; 41]. unfold strchr in *. cbn [existsb] in *.
  repeat match goal with |- context [(c =? ?k)] => destruct (Z.eqb_spec c k); [subst; simpl in Hs; congruence|] end. done.
Qed.

(** The byte at [s], 0 outside the line. *)
Definition at_ (b : list Z) (s : nat) : Z := default 0 (b !! s).

Lemma at_load b s : (s < length b)%nat → b !! s = Some (at_ b s).
Proof. intros [x Hx]%lookup_lt_is_Some_2. unfold at_. by rewrite Hx. Qed.

Section Lex.
Variables (b : list Z) (es : nat).
Hypothesis Hlen : (es < length b)%nat.
Hypothesis Hes : at_ b es = 0.

Definition raw (s : nat) : list Z := take (es - s) (drop s b).
Definition up (s : nat) : list Z := dropws (raw s).

Lemma raw_cons s : (s < es)%nat → raw s = at_ b s :: raw (S s).
Proof.
  intros Hs. unfold raw, at_. destruct (lookup_lt_is_Some_2 b s) as [x Hx]; [lia|].
  rewrite (drop_S _ _ _ Hx), Hx. by replace (es - s)%nat with (S (es - S s)) by lia.
Qed.
Lemma raw_end s : (es ≤ s)%nat → raw s = [].
Proof. intros Hs. unfold raw. by replace (es - s)%nat with 0%nat by lia. Qed.

Lemma raw_app x : ∀ s y, (s ≤ es)%nat → raw s = x ++ y → raw (s + length x) = y ∧ (s + length x ≤ es)%nat.
Proof.
  induction x as [|c x IH]; intros s y Hs Hr; simpl.
  - rewrite Nat.add_0_r. done.
  - destruct (decide (s < es)%nat) as [Hlt|]; [|by rewrite raw_end in Hr by lia]. rewrite raw_cons in Hr by done. injection Hr as _ Hr.
    destruct (IH (S s) y) as [E ?]; [lia|done|]. replace (s + S (length x))%nat with (S s + length x)%nat by lia. done.
Qed.

Lemma advance_raw ok x y : ∀ s, (s ≤ es)%nat → raw s = x ++ y → forallb ok x = true → ok (default 0 (head y)) = false →
  advance ok b (es - s) s = Some (s + length x)%nat.
Proof.
  induction x as [|c x IH]; intros s Hs Hr Hx Hy; simpl in *.
  - rewrite Nat.add_0_r. destruct (decide (s < es)%nat).
    + rewrite raw_cons in Hr by done. subst y. simpl in Hy. replace (es - s)%nat with (S (es - S s)) by lia. simpl.
      rewrite at_load by lia. simpl. by rewrite Hy.
    + by replace (es - s)%nat with 0%nat by lia.
  - destruct (decide (s < es)%nat) as [Hlt|]; [|by rewrite raw_end in Hr by lia]. rewrite raw_cons in Hr by done. injection Hr as Hc Hr.
    apply andb_prop in Hx as [Hc' Hx]. replace (es - s)%nat with (S (es - S s)) by lia. simpl.
    rewrite at_load by lia. simpl. rewrite Hc, Hc'. rewrite IH by (done || lia). f_equal. lia.
Qed.

Lemma ws_split l : ∃ x, l = x ++ dropws l ∧ forallb (strchr whitespace) x = true ∧ strchr whitespace (default 0 (head (dropws l))) = false.
Proof.
  induction l as [|c l (x & E & Hx & Hh)]; simpl; [by exists []|].
  destruct (strchr whitespace c) eqn:Ec.
  - exists (c :: x). simpl. rewrite Ec, <- E. done.
  - by exists [].
Qed.

(** Up to the end of the line no read is outside it. *)
Lemma advance_bounds ok k : ∀ s, (s + k ≤ es)%nat → ∃ e, advance ok b k s = Some e ∧ (s ≤ e ≤ s + k)%nat.
Proof.
  induction k as [|k IH]; intros s Hk; simpl; [exists s; split; [done|lia]|]. rewrite at_load by lia. simpl.
  destruct (ok (at_ b s)); [|exists s; split; [done|lia]]. destruct (IH (S s)) as (e & -> & ?); [lia|]. exists e. split; [done|lia].
Qed.

Lemma skip_spec s : (s ≤ es)%nat → ∃ q, skip_ws b s es = Some q ∧ (s ≤ q ≤ es)%nat ∧ raw q = up s ∧ up q = up s ∧
  b !! q = Some (default 0 (head (up s))) ∧ strchr whitespace (default 0 (head (up s))) = false.
Proof.
  intros Hs. destruct (ws_split (raw s)) as (x & E & Hx & Hh). fold (up s) in E, Hh. unfold skip_ws.
  rewrite (advance_raw (strchr whitespace) x (up s)) by done. destruct (raw_app x s (up s) Hs E) as [Er ?].
  exists (s + length x)%nat. rewrite at_load by lia. split_and!; [done|lia|lia|done| |f_equal|done].
  - unfold up at 1. rewrite Er. apply dropws_idem.
  - destruct (decide (s + length x < es)%nat) as [Hlt|].
    + rewrite raw_cons in Er by done. by rewrite <- Er.
    + rewrite raw_end in Er by lia. rewrite <- Er. simpl. by replace (s + length x)%nat with es by lia.
Qed.

(** peek looks at the first character. *)
Lemma peek_spec s toks : (s ≤ es)%nat → ∃ s', peek b s es toks = Some (negb (bool_decide (default 0 (head (up s)) = 0)) && strchr toks (default 0 (head (up s))), s') ∧
  (s ≤ s' ≤ es)%nat ∧ up s' = up s ∧ raw s' = up s.
Proof.
  intros Hs. destruct (skip_spec s Hs) as (q & E & H1 & H2 & H3 & H4 & _). exists q. unfold peek. rewrite E. simpl. rewrite H4. done.
Qed.

(** [w] is the text between [q] and [e]. *)
Definition span (q e : nat) (w : list Z) : Prop := e = (q + length w)%nat ∧ (e ≤ es)%nat ∧ take (length w) (drop q b) = w ∧ plain (at_ b e) = false.

(** gettoken from the switch on its first character. *)
Lemma gettoken_switch s : (s ≤ es)%nat → ∃ q, (s ≤ q ≤ es)%nat ∧ raw q = up s ∧
  strchr whitespace (default 0 (head (up s))) = false ∧ at_ b q = default 0 (head (up s)) ∧
  ∀ ret e, token b q es (default 0 (head (up s))) = Some (ret, e) → (e ≤ es)%nat →
    ∃ s', gettoken b s es = Some (ret, q, e, s') ∧ (e ≤ s' ≤ es)%nat ∧ up s' = up e.
Proof.
  intros Hs. destruct (skip_spec s Hs) as (q & E & H1 & H2 & H3 & H4 & H5). exists q. split_and!; [lia|lia|done|done| |].
  { unfold at_. by rewrite H4. }
  intros ret e Et He. destruct (skip_spec e He) as (s' & G0 & G1 & _ & G3 & _). exists s'. split_and!; [|lia|lia|done].
  unfold gettoken. rewrite E. cbn [mbind option_bind]. rewrite H4. cbn [mbind option_bind]. rewrite Et. cbn [mbind option_bind]. by rewrite G0.
Qed.

Lemma gettoken_word s w c t : (s ≤ es)%nat → up s = w ++ c :: t → w ≠ [] → forallb plain w = true → forallb (λ x, negb (Z.eqb x 0)) w = true → plain c = false →
  ∃ q e s', gettoken b s es = Some (97, q, e, s') ∧ span q e w ∧ (s < s' ≤ es)%nat ∧ up s' = dropws (c :: t).
Proof.
  intros Hs Hu Hw Hp Hz Hc. destruct (gettoken_switch s Hs) as (q & H1 & H2 & _ & _ & Hsw). rewrite Hu in H2, Hsw.
  destruct w as [|x w]; [done|]. simpl in Hp, Hz. apply andb_prop in Hp as [Hx Hp]. apply andb_prop in Hz as [Hz1 Hz]. simpl default in Hsw.
  destruct (raw_app (x :: w) q (c :: t)) as [Er He]; [lia|done|]. set (e := (q + length (x :: w))%nat) in *.
  destruct (Hsw 97 e) as (s' & E & Hs' & Hu'); [|done|].
  { unfold token. rewrite decide_False by lia. assert (strchr (ustr "|();&<") x = false ∧ x ≠ 62) as [-> Hgt].
    { revert Hx. unfold plain, strchr. change (ustr "|();&<") with [124; 40; 41; 59; 38; 60]. change symbols with [60; 124; 62; 38; 59; 40; 41].
      cbn [existsb]. repeat match goal with |- context [(x =? ?k)] => destruct (Z.eqb_spec x k); [subst; by rewrite ?andb_false_r|] end. done. }
    rewrite decide_False by done. rewrite (advance_raw plain (x :: w) (c :: t)); [done|lia|done|simpl; by rewrite Hx|done]. }
  exists q, e, s'. split_and!; [done| |unfold e in *; simpl in *; lia|lia|].
  - split_and!; [done|done| |].
    + unfold raw in H2. apply (f_equal (take (length (x :: w)))) in H2. rewrite take_app_length in H2. rewrite take_take in H2.
      replace (length (x :: w) `min` (es - q))%nat with (length (x :: w)) in H2 by (unfold e in He; lia). done.
    + destruct (decide (e < es)%nat) as [|]; [|by rewrite raw_end in Er by lia]. rewrite raw_cons in Er by done. by injection Er as ->.
  - rewrite Hu'. unfold up. by rewrite Er.
Qed.

Lemma gettoken_sym s c t : (s ≤ es)%nat → up s = c :: t → c ≠ 0 → strchr (ustr "|();&<") c = true →
  ∃ q e s', gettoken b s es = Some (c, q, e, s') ∧ (s < s' ≤ es)%nat ∧ up s' = dropws t.
Proof.
  intros Hs Hu Hc Hsym. destruct (gettoken_switch s Hs) as (q & H1 & H2 & _ & _ & Hsw). rewrite Hu in H2, Hsw. simpl default in Hsw.
  destruct (raw_app [c] q t) as [Er He]; [lia|done|]. replace (q + length [c])%nat with (S q) in * by (simpl; lia).
  destruct (Hsw c (S q)) as (s' & E & Hs' & Hu'); [|done|].
  { unfold token. by rewrite decide_False, Hsym by done. }
  exists q, (S q), s'. split_and!; [done|lia|lia|]. rewrite Hu'. unfold up. by rewrite Er.
Qed.

Lemma gettoken_gt s t : (s ≤ es)%nat → up s = 62 :: t → head t ≠ Some 62 →
  ∃ q e s', gettoken b s es = Some (62, q, e, s') ∧ (s < s' ≤ es)%nat ∧ up s' = dropws t.
Proof.
  intros Hs Hu Ht. destruct (gettoken_switch s Hs) as (q & H1 & H2 & _ & _ & Hsw). rewrite Hu in H2, Hsw. simpl default in Hsw.
  destruct (raw_app [62] q t) as [Er He]; [lia|done|]. replace (q + length [62%Z])%nat with (S q) in * by (simpl; lia).
  assert (at_ b (S q) ≠ 62) as Hne.
  { destruct (decide (S q < es)%nat) as [Hlt|]; [rewrite raw_cons in Er by done; subst t; simpl in Ht; congruence|]. replace (S q) with es by lia. by rewrite Hes. }
  destruct (Hsw 62 (S q)) as (s' & E & Hs' & Hu'); [|done|].
  { unfold token. change (strchr (ustr "|();&<") 62) with false. rewrite decide_False, decide_True by done. cbv zeta iota.
    rewrite at_load by lia. cbn [mbind option_bind]. by rewrite decide_False. }
  exists q, (S q), s'. split_and!; [done|lia|lia|]. rewrite Hu'. unfold up. by rewrite Er.
Qed.

Lemma gettoken_gtgt s t : (s ≤ es)%nat → up s = 62 :: 62 :: t →
  ∃ q e s', gettoken b s es = Some (43, q, e, s') ∧ (s < s' ≤ es)%nat ∧ up s' = dropws t.
Proof.
  intros Hs Hu. destruct (gettoken_switch s Hs) as (q & H1 & H2 & _ & _ & Hsw). rewrite Hu in H2, Hsw. simpl default in Hsw.
  destruct (raw_app [62] q (62 :: t)) as [Er1 He1]; [lia|done|]. destruct (raw_app [62; 62] q t) as [Er He]; [lia|done|].
  replace (q + length [62%Z])%nat with (S q) in * by (simpl; lia). replace (q + length [62%Z; 62%Z])%nat with (S (S q)) in * by (simpl; lia).
  destruct (Hsw 43 (S (S q))) as (s' & E & Hs' & Hu'); [|done|].
  { unfold token. change (strchr (ustr "|();&<") 62) with false. rewrite decide_False, decide_True by done. cbv zeta iota.
    assert (at_ b (S q) = 62) as Ea by (rewrite raw_cons in Er1 by lia; by injection Er1).
    rewrite at_load by lia. cbn [mbind option_bind]. by rewrite decide_True. }
  exists q, (S (S q)), s'. split_and!; [done|lia|lia|]. rewrite Hu'. unfold up. by rewrite Er.
Qed.

Lemma gettoken_end s : (s ≤ es)%nat → up s = [] → ∃ q e s', gettoken b s es = Some (0, q, e, s') ∧ (s ≤ s' ≤ es)%nat ∧ up s' = [].
Proof.
  intros Hs Hu. destruct (gettoken_switch s Hs) as (q & H1 & H2 & _ & _ & Hsw). rewrite Hu in H2, Hsw. cbn [head default] in Hsw.
  destruct (Hsw 0 q eq_refl) as (s' & E & Hs' & Hu'); [lia|]. exists q, q, s'. split_and!; [done|lia|lia|]. rewrite Hu'. unfold up. by rewrite H2.
Qed.

(** gettoken reads inside the line, and moves forward once a character has been
    seen. *)
Lemma gettoken_moves s : (s ≤ es)%nat → ∃ tok q e s', gettoken b s es = Some (tok, q, e, s') ∧
  (s ≤ s' ≤ es)%nat ∧ (e ≤ es)%nat ∧ (tok ≠ 0 → (s < s')%nat) ∧ (default 0 (head (up s)) ≠ 0 → (s < s')%nat).
Proof.
  intros Hs. destruct (gettoken_switch s Hs) as (q & H1 & H2 & H3 & H4 & Hsw). set (c := default 0 (head (up s))) in *.
  assert (∃ tok e, token b q es c = Some (tok, e) ∧ (q ≤ e ≤ es)%nat ∧ (tok ≠ 0 ∨ c ≠ 0 → (q < e)%nat)) as (tok & e & Et & He & Hlt).
  { unfold token. destruct (decide (c = 0)) as [Hc|Hc]; [exists c, q; split_and!; [done|lia|lia|naive_solver]|].
    assert (q < es)%nat as Hq by (destruct (decide (q = es)) as [Eq|]; [by rewrite Eq, Hes in H4|lia]).
    destruct (strchr (ustr "|();&<") c) eqn:Esym; [exists c, (S q); split_and!; [done|lia..]|].
    destruct (decide (c = 62)) as [H62|H62].
    - rewrite at_load by lia. cbn [mbind option_bind]. case_decide as E2; eexists _, _; (split_and!; [done|lia| |lia]); [|lia].
      assert (S q ≠ es) by (intros Eq; by rewrite Eq, Hes in E2). lia.
    - replace (es - q)%nat with (S (es - S q)) by lia. cbn [advance]. rewrite at_load by lia. cbn [mbind option_bind].
      rewrite H4, plain_other by done. destruct (advance_bounds plain (es - S q) (S q)) as (e & -> & He); [lia|].
      cbn [mbind option_bind]. exists 97, e. split_and!; [done|lia..]. }
  destruct (Hsw tok e Et) as (s' & E & Hs' & _); [lia|]. exists tok, q, e, s'.
  split_and!; [done|lia|lia|lia|intros Ht; specialize (Hlt (or_introl Ht)); lia|intros Ht; specialize (Hlt (or_intror Ht)); lia].
Qed.
End Lex.
