(* ===== verification/ShParse.v ===== *)
(** * The parser terminates

    Every function of the parser ends, whatever the input; the fuel is four
    units for every character left, one for each of parseline, parsepipe,
    parseexec and parseblock on the way down to the next character. *)

From S2P Require Import Prelude Printf UserSys Ulib Sh ShLex.

Lemma gives_andthen {A B} (Q : A → shst → Prop) (R : B * shst → Prop) (m : P A) (f : A → P B) st :
  gives (λ r, Q r.1 r.2) (m st) → (∀ a st', Q a st' → gives R (f a st')) → gives R (andthen m f st).
Proof. intros Hm Hf. unfold andthen. eapply gives_bind; [exact Hm|]. intros [a st'] Ha. by apply Hf. Qed.

Lemma gives_lift {A} (R : A → Prop) (m : prog A) st : gives R m → gives (λ r, R r.1 ∧ r.2 = st) (lift m st).
Proof. intros Hm. unfold lift. eapply gives_bind; [exact Hm|]. done. Qed.

Lemma gives_panic {A} (R : A * shst → Prop) msg st : gives R (panic msg st).
Proof.
  unfold panic. eapply (gives_andthen (λ _ _, True)).
  - eapply gives_mono; [apply (gives_lift (λ _, True)); by eapply gives_fprintf|done].
  - intros _ st' _. eapply gives_mono; [apply (gives_lift (λ _, False)); auto with user|]. by intros a [].
Qed.
#[export] Hint Resolve gives_panic : user.

Lemma andthen_peek {B} s es toks (f : bool * nat → P B) st :
  andthen (peekP s es toks) f st = match peek (buf st) s es toks with Some r => f r st | None => Crash end.
Proof. unfold andthen, peekP, andthen, lift. simpl. by destruct (peek _ _ _ _). Qed.
Lemma andthen_gettoken {B} s es (f : Z * nat * nat * nat → P B) st :
  andthen (gettokenP s es) f st = match gettoken (buf st) s es with Some r => f r st | None => Crash end.
Proof. unfold andthen, gettokenP, andthen, lift. simpl. by destruct (gettoken _ _ _). Qed.
Lemma andthen_string {B} s w (f : list Z → P B) st : cstr_at (buf st) s = Some w → andthen (stringP s) f st = f w st.
Proof. intros E. unfold andthen, stringP, andthen, lift. simpl. by rewrite E. Qed.
Lemma andthen_alloc {B} n (f : nat → P B) st : andthen (alloc n) f st = f (length (heap st)) (mkSh (buf st) (heap st ++ [n])).
Proof. done. Qed.
Lemma andthen_pure {A B} (a : A) (f : A → P B) st : andthen (pure a) f st = f a st.
Proof. done. Qed.

Section Terminates.
Variables (b : list Z) (es : nat).
Hypothesis Hlen : (es < length b)%nat.
Hypothesis Hes : at_ b es = 0.

(** A structure at index [p] is well-formed: it points to older structures,
    its strings end inside the line, and an argument vector is a list of
    strings followed by nulls. *)
Definition filled (a e : list (option nat)) (n : nat) : Prop :=
  ∃ qs xs, a = (Some <$> qs) ++ replicate (MAXARGS - n) None ∧ e = (Some <$> xs) ++ replicate (MAXARGS - n) None ∧
    length qs = n ∧ length xs = n ∧ (n ≤ MAXARGS)%nat ∧ Forall (λ x, x ≤ es)%nat xs.
Definition node_ok (p : nat) (n : node) : Prop :=
  match n with
  | Nexec a e => ∃ k, (k < MAXARGS)%nat ∧ filled a e k
  | Nredir c _ e _ _ => (c < p)%nat ∧ (e ≤ es)%nat
  | Npipe l r | Nlist l r => (l < p)%nat ∧ (r < p)%nat
  | Nback c => (c < p)%nat
  end.
Definition heap_ok (h : list node) : Prop := ∀ p n, h !! p = Some n → node_ok p n.

Lemma heap_ok_snoc h n : heap_ok h → node_ok (length h) n → heap_ok (h ++ [n]).
Proof. intros Hh Hn p x [Hp|[Ep Hp]]%lookup_app_Some; [auto|]. apply list_lookup_singleton_Some in Hp as [? <-]. by replace p with (length h) by lia. Qed.

(** From [st], the position is between [s] and the end, the buffer is
    untouched, older structures too, and the result is a structure. *)
Record moves (s : nat) (st : shst) (cmd s' : nat) (st' : shst) : Prop := mkMoves {
  mv_buf : buf st' = b;
  mv_pos : (s ≤ s' ≤ es)%nat;
  mv_heap : heap_ok (heap st');
  mv_old : heap st `prefix_of` heap st';
  mv_cmd : (cmd < length (heap st'))%nat;
}.

Lemma moves_trans s1 s2 s3 st1 st2 st3 c2 c3 : moves s1 st1 c2 s2 st2 → moves s2 st2 c3 s3 st3 → moves s1 st1 c3 s3 st3.
Proof. intros [] []. split; try done; [lia|by etrans]. Qed.

(* a structure is added on top *)
Lemma moves_alloc s st c s' st' n : moves s st c s' st' → node_ok (length (heap st')) n →
  moves s st (length (heap st')) s' (mkSh (buf st') (heap st' ++ [n])).
Proof.
  intros [] Hn. split; simpl; [done|lia|by apply heap_ok_snoc| |rewrite length_app; simpl; lia]. by apply prefix_app_r.
Qed.

Lemma moves_refl s st c : buf st = b → (s ≤ es)%nat → heap_ok (heap st) → (c < length (heap st))%nat → moves s st c s st.
Proof. intros. split; try done; lia. Qed.

Lemma moves_pos s st c s1 s2 st' : moves s st c s1 st' → (s1 ≤ s2 ≤ es)%nat → moves s st c s2 st'.
Proof. intros [] ?. split; try done; lia. Qed.

Lemma peek_more s toks : (s ≤ es)%nat → ∃ more s', peek b s es toks = Some (more, s') ∧ (s ≤ s' ≤ es)%nat ∧
  (more = true → default 0 (head (up b es s')) ≠ 0).
Proof.
  intros Hs. destruct (peek_spec b es Hlen Hes s toks Hs) as (s1 & E & Hs1 & Hu & _). eexists _, s1. split_and!; [exact E|lia|lia|].
  rewrite Hu. intros [Ez _]%andb_prop. by case_bool_decide.
Qed.

Lemma parseredirs_ends fuel : ∀ cmd s st, (es - s < fuel)%nat → moves s st cmd s st →
  gives (λ r, moves s st r.1.1 r.1.2 r.2) (parseredirs fuel cmd s es st).
Proof.
  induction fuel as [|fuel IH]; intros cmd s st Hf Hm; [lia|]. pose proof Hm as [Hb Hs Hh _ Hc]. cbn [parseredirs]. rewrite andthen_peek, Hb.
  destruct (peek_more s (ustr "<>") ltac:(lia)) as (more & s1 & -> & Hs1 & Hmo). destruct more; [|by eapply moves_pos].
  rewrite andthen_gettoken, Hb. destruct (gettoken_moves b es Hlen Hes s1 ltac:(lia)) as (tok & q0 & e0 & s2 & -> & M1 & _ & _ & M1').
  specialize (M1' (Hmo eq_refl)).
  rewrite andthen_gettoken, Hb. destruct (gettoken_moves b es Hlen Hes s2 ltac:(lia)) as (t & q & e & s3 & -> & M3 & Me & _ & _).
  destruct (decide (t ≠ 97)); [auto with user|]. eapply (gives_andthen (λ c st', moves s st c s3 st')).
  - assert (∀ mode fd, gives (λ r, moves s st r.1 s3 r.2) (redircmd cmd q e mode fd st)) as Hr.
    { intros mode fd. eapply moves_alloc; [eapply moves_pos; [exact Hm|lia]|]. by split. }
    repeat case_match; try apply Hr. eapply moves_pos; [exact Hm|lia].
  - intros c st' Hm'. eapply gives_mono; [apply IH; [lia|]|].
    + destruct Hm'. by apply moves_refl; try lia.
    + intros r Hr. by eapply moves_trans.
Qed.

Lemma back_loop_ends fuel : ∀ cmd s st, (es - s < fuel)%nat → moves s st cmd s st →
  gives (λ r, moves s st r.1.1 r.1.2 r.2) (back_loop fuel cmd s es st).
Proof.
  induction fuel as [|fuel IH]; intros cmd s st Hf Hm; [lia|]. pose proof Hm as [Hb Hs Hh _ Hc]. cbn [back_loop]. rewrite andthen_peek, Hb.
  destruct (peek_more s (ustr "&") ltac:(lia)) as (more & s1 & -> & Hs1 & Hmo). destruct more; [|by eapply moves_pos].
  rewrite andthen_gettoken, Hb. destruct (gettoken_moves b es Hlen Hes s1 ltac:(lia)) as (tok & q0 & e0 & s2 & -> & M1 & _ & _ & M1').
  specialize (M1' (Hmo eq_refl)).
  unfold backcmd. rewrite andthen_alloc. assert (moves s st (length (heap st)) s2 (mkSh (buf st) (heap st ++ [Nback cmd]))) as Hm'.
  { eapply moves_alloc; [eapply moves_pos; [exact Hm|lia]|done]. }
  eapply gives_mono; [apply IH; [lia|]|].
  - destruct Hm'. by apply moves_refl; try lia.
  - intros r Hr. by eapply moves_trans.
Qed.

(** The argument vector under construction has [argc] entries. *)
Definition building (cmd argc : nat) (h : list node) : Prop := ∃ a e, h !! cmd = Some (Nexec a e) ∧ filled a e argc.

Lemma filled_none : filled (replicate MAXARGS None) (replicate MAXARGS None) 0.
Proof. exists [], []. split_and!; try done; try (unfold MAXARGS; lia); constructor. Qed.

Lemma filled_set a e n q x : filled a e n → (n < MAXARGS)%nat → (x ≤ es)%nat → filled (<[n := Some q]> a) (<[n := Some x]> e) (S n).
Proof.
  intros (qs & xs & -> & -> & Hq & Hx & Hn & Hf) Hlt Hle. exists (qs ++ [q]), (xs ++ [x]).
  assert (∀ (l : list nat) y, length l = n → <[n := Some y]> ((Some <$> l) ++ replicate (MAXARGS - n) None) = (Some <$> l ++ [y]) ++ replicate (MAXARGS - S n) None) as Hins.
  { intros l y Hl. replace n with (length (Some <$> l) + 0)%nat at 1 by (rewrite length_fmap; lia). rewrite insert_app_r.
    replace (MAXARGS - n)%nat with (S (MAXARGS - S n)) by lia. simpl. by rewrite fmap_app, <- app_assoc. }
  rewrite !Hins, !length_app, Hq, Hx by done. simpl. split_and!; try done; try lia. apply list.Forall_app. split; [done|]. by constructor.
Qed.

Record args_inv (h0 : list node) (cmd argc ret s : nat) (st : shst) : Prop := mkArgsInv {
  ai_buf : buf st = b;
  ai_pos : (s ≤ es)%nat;
  ai_heap : heap_ok (heap st);
  ai_old : h0 `prefix_of` heap st;
  ai_cmd : cmd = length h0;
  ai_build : building cmd argc (heap st);
  ai_ret : (ret < length (heap st))%nat;
  ai_argc : (argc < MAXARGS)%nat;
}.

Lemma building_prefix cmd argc h h' : building cmd argc h → h `prefix_of` h' → building cmd argc h'.
Proof. intros (a & e & Hl & Hf) Hp. exists a, e. split; [by eapply prefix_lookup_Some|done]. Qed.

Lemma prefix_insert_end {A} (h0 h : list A) x : h0 `prefix_of` h → h0 `prefix_of` <[length h0 := x]> h.
Proof. intros [k ->]. exists (<[0%nat := x]> k). by rewrite <- (Nat.add_0_r (length h0)), insert_app_r. Qed.

(* one more argument *)
Lemma args_inv_set h0 cmd argc ret s st q x s' : args_inv h0 cmd argc ret s st → (S argc < MAXARGS)%nat → (x ≤ es)%nat → (s' ≤ es)%nat →
  ∃ st', set_arg cmd argc (Some q) (Some x) st = Ret (tt, st') ∧ args_inv h0 cmd (S argc) ret s' st'.
Proof.
  intros [Hb Hs Hh Ho Hc (a & e & Hl & Hf) Hr Ha] Hlt Hx Hs'. unfold set_arg. rewrite Hl, decide_True by done. eexists. split; [done|].
  assert (filled (<[argc := Some q]> a) (<[argc := Some x]> e) (S argc)) as Hf' by by apply filled_set.
  split; simpl; try done.
  - intros p n [(Ep & <- & _)|[Hne Hp]]%list_lookup_insert_Some; [|auto]. by exists (S argc).
  - subst cmd. by apply prefix_insert_end.
  - eexists _, _. rewrite list_lookup_insert_eq by (by eapply lookup_lt_Some). done.
  - by rewrite length_insert.
Qed.

Lemma args_loop_ends fuel : ∀ h0 cmd argc ret s st, (es - s < fuel)%nat → args_inv h0 cmd argc ret s st →
  gives (λ r, args_inv h0 cmd r.1.1.2 r.1.1.1 r.1.2 r.2 ∧ (s ≤ r.1.2)%nat) (args_loop fuel cmd ret argc s es st).
Proof.
  induction fuel as [|fuel IH]; intros h0 cmd argc ret s st Hf Hi; [lia|]. pose proof Hi as [Hb Hs Hh Ho Hc Hbu Hr Ha]. cbn [args_loop]. rewrite andthen_peek, Hb.
  destruct (peek_more s (ustr "|)&;") ltac:(lia)) as (stop & s1 & -> & Hs1 & Hmo).
  assert (args_inv h0 cmd argc ret s1 st) as Hi1 by (split; try done; lia).
  destruct stop; [split; [done|simpl; lia]|]. rewrite andthen_gettoken, Hb. destruct (gettoken_moves b es Hlen Hes s1 ltac:(lia)) as (tok & q & e & s2 & -> & M1 & Me & Mlt & _).
  destruct (decide (tok = 0)). { split; [split; try done; simpl; lia|simpl; lia]. }
  destruct (decide (tok ≠ 97)); [auto with user|]. specialize (Mlt ltac:(done)).
  destruct (decide (S argc < MAXARGS)%nat) as [Hlt|Hge].
  - destruct (args_inv_set h0 cmd argc ret s1 st q e s2 Hi1 Hlt Me ltac:(lia)) as (st' & Es & Hi2). unfold andthen at 1. rewrite Es. cbn [pbind fst snd].
    rewrite decide_False by lia. pose proof Hi2 as [Hb2 Hs2 Hh2 Ho2 _ Hbu2 Hr2 _].
    eapply (gives_andthen (λ r st'', moves s2 st' r.1 r.2 st'')).
    + apply parseredirs_ends; [lia|]. by apply moves_refl.
    + intros [ret' s3] st3 [? ? ? Hpre ?]. simpl in *. eapply gives_mono; [apply (IH h0); [lia|]|].
      * split; try done; [lia|by etrans|by eapply building_prefix].
      * intros r [? ?]. split; [done|lia].
  - destruct Hbu as (a & e' & Hl & Hfi). unfold set_arg, andthen at 1. rewrite Hl, decide_True by done. simpl. rewrite decide_True by lia. auto with user.
Qed.

(* what every call of the parser starts from *)
Record ready (s : nat) (st : shst) : Prop := mkReady { rd_buf : buf st = b; rd_pos : (s ≤ es)%nat; rd_heap : heap_ok (heap st) }.

Lemma moves_ready s st c s' st' : moves s st c s' st' → ready s' st'.
Proof. intros []. split; try done. lia. Qed.
Lemma moves_self s st c s' st' : moves s st c s' st' → moves s' st' c s' st'.
Proof. intros []. apply moves_refl; try done. lia. Qed.

(* the last part of parseline and parsepipe: an operator and what follows it *)
Lemma then_right toks (again : nat → P (nat * nat)) (join : nat → nat → node) s st cmd :
  (∀ l r, node_ok (S (l `max` r)) (join l r) ∧ ∀ p, (l < p)%nat → (r < p)%nat → node_ok p (join l r)) →
  (∀ s', (s < s')%nat → ready s' st → gives (λ r, moves s' st r.1.1 r.1.2 r.2) (again s' st)) →
  moves s st cmd s st →
  gives (λ r, moves s st r.1.1 r.1.2 r.2)
    ((let! (more, s) := peekP s es toks in
      if more : bool then
        let! (_, _, _, s) := gettokenP s es in
        let! (rcmd, s) := again s in
        let! cmd := alloc (join cmd rcmd) in
        pure (cmd, s)
      else pure (cmd, s)) st).
Proof.
  intros Hj Ha Hm. pose proof Hm as [Hb Hs Hh _ Hc]. rewrite andthen_peek, Hb.
  destruct (peek_more s toks ltac:(lia)) as (more & s1 & -> & Hs1 & Hmo). destruct more; [|by eapply moves_pos].
  rewrite andthen_gettoken, Hb. destruct (gettoken_moves b es Hlen Hes s1 ltac:(lia)) as (tok & q0 & e0 & s2 & -> & M1 & _ & _ & M1').
  specialize (M1' (Hmo eq_refl)).
  eapply (gives_andthen (λ r st', moves s2 st r.1 r.2 st')); [apply Ha; [lia|by split; try lia]|].
  intros [rcmd s3] st' Hm'. simpl in Hm'. rewrite andthen_alloc. pose proof Hm' as [? ? ? Hpre ?]. apply prefix_length in Hpre.
  eapply (moves_trans s s2); [eapply moves_pos; [exact Hm|lia]|]. eapply moves_alloc; [exact Hm'|]. apply Hj; lia.
Qed.

(* parseexec on anything but a block *)
Lemma exec_ends s1 st : ready s1 st →
  gives (λ r, moves s1 st r.1.1 r.1.2 r.2)
    ((let! cmd := execcmd in
      let! (ret, s) := parseredirs (S (es - s1)) cmd s1 es in
      let! (ret, argc, s) := args_loop (S (es - s)) cmd ret 0 s es in
      let! _ := set_arg cmd argc None None in
      pure (ret, s)) st).
Proof.
  intros [Hb Hs Hh].
  unfold execcmd. rewrite andthen_alloc. set (st0 := mkSh _ _). set (cmd := length (heap st)).
  assert (node_ok cmd (Nexec (replicate MAXARGS None) (replicate MAXARGS None))) as Hn0.
  { exists 0%nat. split; [unfold MAXARGS; lia|apply filled_none]. }
  assert (ready s1 st0) as Hrd0 by (split; [done|lia|by apply heap_ok_snoc]).
  assert (cmd < length (heap st0))%nat as Hcl by (unfold cmd, st0; simpl; rewrite length_app; simpl; lia).
  eapply (gives_andthen (λ r st', moves s1 st0 r.1 r.2 st')).
  { apply parseredirs_ends; [lia|]. destruct Hrd0. by apply moves_refl. }
  intros [ret s2] st2 Hm2. simpl in Hm2. pose proof Hm2 as [Hb2 Hs2 Hh2 Ho2 Hc2].
  eapply (gives_andthen (λ r st', args_inv (heap st) cmd r.1.2 r.1.1 r.2 st' ∧ (s2 ≤ r.2)%nat)).
  { apply args_loop_ends; [lia|]. split; try done; [lia|etrans; [|exact Ho2]; by exists [Nexec (replicate MAXARGS None) (replicate MAXARGS None)]| |unfold MAXARGS; lia].
    eapply building_prefix; [|exact Ho2]. eexists _, _. split; [by apply list_lookup_middle|]. apply filled_none. }
  intros [[ret3 argc] s3] st3 [Hi Hle]. simpl in Hi, Hle. pose proof Hi as [Hb3 Hs3 Hh3 Ho3 _ (a & e & Hl & Hfi) Hr3 Ha3].
  unfold andthen, set_arg. rewrite Hl, decide_True by done. cbn [pbind fst snd].
  assert (<[argc := None]> a = a ∧ <[argc := None]> e = e) as [-> ->].
  { destruct Hfi as (qs & xs & -> & -> & Hq & Hx & _ & _). split; apply list_insert_id; (rewrite lookup_app_r; [|rewrite length_fmap; lia]);
      apply lookup_replicate_2; rewrite length_fmap; lia. }
  rewrite list_insert_id by done. split; simpl; try done; lia.
Qed.

Lemma parse_ends fuel : ∀ s st, ready s st →
  (4 * (es - s) + 4 ≤ fuel → gives (λ r, moves s st r.1.1 r.1.2 r.2) (parseline fuel s es st))%nat ∧
  (4 * (es - s) + 3 ≤ fuel → gives (λ r, moves s st r.1.1 r.1.2 r.2) (parsepipe fuel s es st))%nat ∧
  (4 * (es - s) + 2 ≤ fuel → gives (λ r, moves s st r.1.1 r.1.2 r.2) (parseexec fuel s es st))%nat ∧
  (4 * (es - s) + 1 ≤ fuel → gives (λ r, moves s st r.1.1 r.1.2 r.2) (parseblock fuel s es st))%nat.
Proof.
  induction fuel as [|fuel IH]; intros s st Hrd; [split_and!; lia|]. split_and!; intros Hf.
  - cbn [parseline]. eapply (gives_andthen (λ r st', moves s st r.1 r.2 st')); [apply IH; [done|lia]|].
    intros [c s1] st1 Hm1. simpl in Hm1. eapply (gives_andthen (λ r st', moves s st r.1 r.2 st')).
    { eapply gives_mono; [apply back_loop_ends; [lia|by eapply moves_self]|]. intros r Hr. by eapply moves_trans. }
    intros [c2 s2] st2 Hm2. simpl in Hm2. eapply gives_mono; [apply (then_right (ustr ";") (λ s, parseline fuel s es) Nlist)|].
    + intros l r. split; simpl; lia.
    + intros s' Hs' Hr'. apply IH; [done|]. destruct Hm2, Hr'. lia.
    + by eapply moves_self.
    + intros r Hr. by eapply moves_trans.
  - cbn [parsepipe]. eapply (gives_andthen (λ r st', moves s st r.1 r.2 st')); [apply IH; [done|lia]|].
    intros [c2 s2] st2 Hm2. simpl in Hm2. eapply gives_mono; [apply (then_right (ustr "|") (λ s, parsepipe fuel s es) Npipe)|].
    + intros l r. split; simpl; lia.
    + intros s' Hs' Hr'. apply IH; [done|]. destruct Hm2, Hr'. lia.
    + by eapply moves_self.
    + intros r Hr. by eapply moves_trans.
  - cbn [parseexec]. pose proof Hrd as [Hb Hs Hh]. rewrite andthen_peek, Hb.
    destruct (peek_more s (ustr "(") ltac:(lia)) as (more & s1 & -> & Hs1 & Hmo). destruct more.
    + eapply gives_mono; [apply IH; [split; [done|lia|done]|lia]|]. intros r [? ? ? ? ?]. split; try done. lia.
    + eapply gives_mono; [apply exec_ends; split; [done|lia|done]|]. intros r [? ? ? ? ?]. split; try done. lia.
  - cbn [parseblock]. pose proof Hrd as [Hb Hs Hh]. rewrite andthen_peek, Hb.
    destruct (peek_more s (ustr "(") ltac:(lia)) as (more & s1 & -> & Hs1 & Hmo). destruct more; [|cbn [negb]; apply gives_panic]. cbn [negb].
    rewrite andthen_gettoken, Hb. destruct (gettoken_moves b es Hlen Hes s1 ltac:(lia)) as (tok & q0 & e0 & s2 & -> & M1 & _ & _ & M1').
    specialize (M1' (Hmo eq_refl)).
    eapply (gives_andthen (λ r st', moves s2 st r.1 r.2 st')); [apply IH; [split; [done|lia|done]|lia]|].
    intros [c s3] st3 Hm3. simpl in Hm3. pose proof Hm3 as [Hb3 Hs3 _ _ _]. rewrite andthen_peek, Hb3.
    destruct (peek_more s3 (ustr ")") ltac:(lia)) as (close & s4 & -> & Hs4 & Hmo4). destruct close; [|cbn [negb]; apply gives_panic]. cbn [negb].
    rewrite andthen_gettoken, Hb3. destruct (gettoken_moves b es Hlen Hes s4 ltac:(lia)) as (tok' & q1 & e1 & s5 & -> & M5 & _ & _ & M5').
    specialize (M5' (Hmo4 eq_refl)).
    assert (moves s2 st c s5 st3) as Hm5 by (eapply moves_pos; [exact Hm3|lia]).
    eapply gives_mono; [apply parseredirs_ends; [lia|by eapply moves_self]|]. intros r Hr.
    destruct (moves_trans _ _ _ _ _ _ _ _ Hm5 Hr). split; try done. lia.
Qed.

(** ** Terminating the strings *)

Lemma nul_args_ends qs : ∀ xs k st, length qs = length xs → Forall (λ x, x ≤ es)%nat xs → (es < length (buf st))%nat → (0 < k)%nat →
  gives (λ r, length (buf r.2) = length (buf st) ∧ heap r.2 = heap st)
    (nul_args ((Some <$> qs) ++ replicate k None) ((Some <$> xs) ++ replicate k None) st).
Proof.
  induction qs as [|q qs IH]; intros [|x xs] k st Hl Hf Hb Hk; try done.
  - destruct k; [lia|]. done.
  - apply list.Forall_cons in Hf as [Hx Hf]. injection Hl as Hl. simpl. unfold andthen, set_nul. rewrite decide_True by lia. simpl.
    eapply gives_mono; [apply IH; [done|done|simpl; by rewrite length_insert|done]|]. simpl. intros r [E1 E2]. by rewrite E1, length_insert.
Qed.

Lemma nulterminate_ends fuel : ∀ p st, (p < fuel)%nat → (p < length (heap st))%nat → heap_ok (heap st) → (es < length (buf st))%nat →
  gives (λ r, length (buf r.2) = length (buf st) ∧ heap r.2 = heap st) (nulterminate fuel p st).
Proof.
  induction fuel as [|fuel IH]; intros p st Hf Hp Hh Hb; [lia|]. cbn [nulterminate].
  assert (∀ l r, (l < p)%nat → (r < p)%nat → gives (λ r, length (buf r.2) = length (buf st) ∧ heap r.2 = heap st)
    (andthen (nulterminate fuel l) (λ _, nulterminate fuel r) st)) as Htwo.
  { intros l r Hl Hr. eapply (gives_andthen (λ _ st', length (buf st') = length (buf st) ∧ heap st' = heap st)); [apply IH; try done; lia|].
    intros _ st' [E1 E2]. eapply gives_mono; [apply IH; rewrite ?E1, ?E2; try done; lia|]. intros r' [? ?]. split; congruence. }
  destruct (lookup_lt_is_Some_2 _ _ Hp) as [n Hn]. rewrite Hn. specialize (Hh p n Hn) as Hok. destruct n as [a e|c q e mode fd|l r|l r|c]; simpl in Hok.
  - destruct Hok as (k & Hk & qs & xs & -> & -> & Hq & Hx & _ & Hle). apply nul_args_ends; [congruence|done|done|lia].
  - destruct Hok as [Hc He]. eapply (gives_andthen (λ _ st', length (buf st') = length (buf st) ∧ heap st' = heap st)); [apply IH; try done; lia|].
    intros _ st' [E1 E2]. unfold set_nul. rewrite decide_True by lia. simpl. by rewrite length_insert.
  - destruct Hok. by apply Htwo.
  - destruct Hok. by apply Htwo.
  - apply IH; try done; lia.
Qed.
End Terminates.

Lemma upto_nul_end l w : upto_nul l = Some w → l !! length w = Some 0.
Proof.
  revert w. induction l as [|c l IH]; intros w; [done|]. simpl. destruct (decide (c = 0)) as [->|Hc]; [by intros [= <-]|].
  intros (v & Hv & [= <-])%bind_Some. simpl. auto.
Qed.

(* the string at a later position of the line *)
Lemma cstr_suffix b p w q : cstr_at b p = Some w → (p ≤ q ≤ p + length w)%nat → ∃ v, cstr_at b q = Some v.
Proof.
  intros E [[k ->]%Nat.le_sum Hq]. revert E. unfold cstr_at. rewrite <- drop_drop. generalize (drop p b). clear b. intros l.
  assert (k ≤ length w)%nat as Hk by lia. clear Hq. revert l w Hk. induction k as [|k IH]; intros l w Hk E; [by rewrite drop_0; eauto|].
  destruct l as [|c l]; [done|]. simpl in *. destruct (decide (c = 0)); [injection E as <-; simpl in Hk; lia|].
  apply bind_Some in E as (v & Hv & [= <-]). simpl in Hk. eapply IH; [|done]. lia.
Qed.

Lemma parsecmd_ends s st w : cstr_at (buf st) s = Some w → heap_ok (s + length w) (heap st) →
  gives (λ r, heap_ok (s + length w) (heap r.2) ∧ (r.1 < length (heap r.2))%nat ∧ length (buf r.2) = length (buf st)) (parsecmd s st).
Proof.
  intros Hw Hh. pose proof (upto_nul_end _ _ Hw) as He. rewrite lookup_drop in He. unfold parsecmd. rewrite (andthen_string s w) by done.
  pose proof (cstr_suffix (buf st) s w) as Hsuf. set (es := (s + length w)%nat) in *.
  assert (es < length (buf st))%nat as Hlen by (by eapply lookup_lt_Some).
  assert (at_ (buf st) es = 0) as Hes by (unfold at_; by rewrite He).
  eapply (gives_andthen (λ r st', moves (buf st) es s st r.1 r.2 st')).
  { apply (parse_ends (buf st) es Hlen Hes); [split; [done|unfold es; lia|done]|done]. }
  intros [cmd s1] st1 [Hb1 Hs1 Hh1 _ Hc1]. simpl in *. rewrite andthen_peek, Hb1.
  destruct (peek_more (buf st) es Hlen Hes s1 [] ltac:(lia)) as (more & s2 & -> & Hs2 & _).
  destruct (decide (s2 ≠ es)).
  - destruct (Hsuf s2 Hw) as (v & Hv); [lia|]. rewrite (andthen_string s2 v) by (by rewrite Hb1).
    eapply (gives_andthen (λ _ _, True)); [|intros; apply gives_panic].
    eapply gives_mono; [apply (gives_lift (λ _, True)); by eapply gives_fprintf|done].
  - unfold andthen at 1. cbn [pbind fst snd]. eapply (gives_andthen (λ _ st', length (buf st') = length (buf st1) ∧ heap st' = heap st1)).
    { apply (nulterminate_ends (buf st) es Hlen (S (length (heap st1))) cmd st1); [lia|done|done|by rewrite Hb1]. }
    intros _ st' [E1 E2]. unfold pure. simpl. by rewrite E1, E2, Hb1.
Qed.

(** C24 The shell's parser is total.  On every input line parsecmd ends: it
    returns a command, or prints a message and exits.  It never reads or writes
    outside the line and its structures, whose argument vectors it never
    overfills, and the command it returns is a finite tree: each structure
    points only to structures allocated before it. *)
Theorem parsecmd_total (line rest : list Z) : 0 ∉ line →
  gives (λ r, heap_ok (length line) (heap r.2) ∧ (r.1 < length (heap r.2))%nat ∧ length (buf r.2) = length (line ++ 0 :: rest))
    (parsecmd 0 (mkSh (line ++ 0 :: rest) [])).
Proof.
  intros Hz. apply (parsecmd_ends 0 (mkSh (line ++ 0 :: rest) []) line); [|done].
  unfold cstr_at. cbn [buf]. rewrite drop_0. induction line as [|c l IH]; simpl; [done|]. apply not_elem_of_cons in Hz as [Hc Hl].
  rewrite decide_False by done. by rewrite IH.
Qed.

Lemma parsecmd_total_witness : gives (λ r, (r.1 < length (heap r.2))%nat) (parsecmd 0 (mkSh (ustr "ls | wc >x; (a & b" ++ [0]) [])).
Proof.
  eapply gives_mono; [apply (parsecmd_total (ustr "ls | wc >x; (a & b") []); apply (bool_decide_unpack _); vm_compute; exact I|].
  intros r (_ & Hr & _). exact Hr.
Defined.
