(* ===== verification/ShRound.v ===== *)
(** * Printing a command and parsing it back

    [pr] writes a command as a line; [den] says that a structure built by the
    parser stands for a command, its strings being stretches of the line. *)

From S2P Require Import Prelude Fs File Sysfile Printf UserSys Ulib Sh ShLex ShParse.

(** ** Text of a command *)

Definition op_text (mode : Z) : list Z := if decide (mode = O_RDONLY) then [60] else if decide (mode = Z.lor (Z.lor O_WRONLY O_CREATE) O_TRUNC) then [62] else [62; 62].
Definition redir_text (f : list Z) (mode : Z) : list Z := op_text mode ++ [32] ++ f ++ [32].
Definition words_text (ws : list (list Z)) : list Z := concat ((λ w, w ++ [32]) <$> ws).
Definition paren (p : bool) (t : list Z) : list Z := if p then [40; 32] ++ t ++ [41; 32] else t.

(* 0: a line, 1: before & or ;, 2: a pipeline, 3: an element of one *)
Fixpoint pr (lvl : nat) (c : cmd) : list Z :=
  match c with
  | CExec ws => words_text ws
  | CRedir c f mode _ => pr 3 c ++ redir_text f mode
  | CPipe l r => paren (2 <? lvl)%nat (pr 3 l ++ [124; 32] ++ pr 2 r)
  | CBack c => paren (1 <? lvl)%nat (pr 1 c ++ [38; 32])
  | CList l r => paren (0 <? lvl)%nat (pr 1 l ++ [59; 32] ++ pr 0 r)
  end.

Definition word_ok (w : list Z) : Prop := w ≠ [] ∧ forallb plain w = true ∧ forallb (λ x, negb (Z.eqb x 0)) w = true.
Definition redir_ok (mode fd : Z) : Prop :=
  mode = O_RDONLY ∧ fd = 0 ∨ mode = Z.lor (Z.lor O_WRONLY O_CREATE) O_TRUNC ∧ fd = 1 ∨ mode = Z.lor O_WRONLY O_CREATE ∧ fd = 1.
(** The commands that have a text: words are not empty and have no white space
    or operator in them, and no program has more arguments than fit. *)
Fixpoint wf_cmd (c : cmd) : Prop :=
  match c with
  | CExec ws => Forall word_ok ws ∧ (length ws < MAXARGS)%nat
  | CRedir c f mode fd => wf_cmd c ∧ word_ok f ∧ redir_ok mode fd
  | CPipe l r | CList l r => wf_cmd l ∧ wf_cmd r
  | CBack c => wf_cmd c
  end.

(** ** Input that begins with given text *)

Definition fresh (t : list Z) : Prop := dropws t = t.
Definition stops (toks : list Z) (t : list Z) : Prop := fresh t ∧ (t = [] ∨ ∃ c t', t = c :: t' ∧ c ≠ 0 ∧ strchr toks c = true).

Lemma fresh_cons c t : strchr whitespace c = false → fresh (c :: t).
Proof. intros E. unfold fresh. simpl. by rewrite E. Qed.
Lemma word_fresh w t : word_ok w → fresh (w ++ t).
Proof.
  intros (Hne & Hp & _). destruct w as [|c w]; [done|]. simpl. apply fresh_cons. simpl in Hp. apply andb_prop in Hp as [Hc _].
  unfold plain in Hc. apply andb_prop in Hc as [Hc _]. by apply negb_true_iff.
Qed.
Lemma words_fresh ws t : Forall word_ok ws → fresh t → fresh (words_text ws ++ t).
Proof.
  intros Hw Ht. destruct Hw as [|w ws Hw _]; [done|]. unfold words_text. rewrite fmap_cons. simpl. rewrite <- !app_assoc. by apply word_fresh.
Qed.
Lemma redir_fresh f mode t : fresh (redir_text f mode ++ t).
Proof. unfold redir_text, op_text. repeat case_decide; by apply fresh_cons. Qed.
Lemma paren_fresh p t t' : fresh (t ++ t') → fresh (paren p t ++ t').
Proof. destruct p; [by intros _; apply fresh_cons|done]. Qed.

Lemma pr_fresh c : ∀ lvl t, wf_cmd c → fresh t → fresh (pr lvl c ++ t).
Proof.
  induction c as [ws|c IH f mode fd|l IHl r IHr|l IHl r IHr|c IH]; intros lvl t Hwf Ht; simpl in *.
  - destruct Hwf. by apply words_fresh.
  - rewrite <- app_assoc. apply IH; [tauto|]. apply redir_fresh.
  - destruct Hwf. apply paren_fresh. rewrite <- app_assoc. apply IHl; [done|]. by apply fresh_cons.
  - destruct Hwf. apply paren_fresh. rewrite <- app_assoc. apply IHl; [done|]. by apply fresh_cons.
  - apply paren_fresh. rewrite <- app_assoc. apply IH; [done|]. by apply fresh_cons.
Qed.

(** A redirected command is a base command and its redirections in order. *)
Definition wrap (c : cmd) (rs : list (list Z * Z * Z)) : cmd := foldl (λ c r, CRedir c r.1.1 r.1.2 r.2) c rs.
Definition redirs_text (rs : list (list Z * Z * Z)) : list Z := concat ((λ r, redir_text r.1.1 r.1.2) <$> rs).
Definition rs_ok (rs : list (list Z * Z * Z)) : Prop := Forall (λ r, word_ok r.1.1 ∧ redir_ok r.1.2 r.2) rs.

Lemma wrap_snoc c rs r : wrap c (rs ++ [r]) = CRedir (wrap c rs) r.1.1 r.1.2 r.2.
Proof. unfold wrap. by rewrite foldl_app. Qed.
Lemma pr_wrap c rs : pr 3 (wrap c rs) = pr 3 c ++ redirs_text rs.
Proof.
  induction rs as [|r rs IH] using rev_ind; [by rewrite app_nil_r|]. rewrite wrap_snoc. simpl. rewrite IH. unfold redirs_text.
  by rewrite fmap_app, concat_app, <- app_assoc; simpl; rewrite app_nil_r.
Qed.
Lemma redirs_fresh rs t : fresh t → fresh (redirs_text rs ++ t).
Proof. intros Ht. destruct rs as [|r rs]; [done|]. unfold redirs_text. rewrite fmap_cons. simpl. rewrite <- app_assoc. apply redir_fresh. Qed.

Section Den.
Variables (b : list Z) (es : nat).

Definition args_den (qx : list (nat * nat)) (ws : list (list Z)) (n : node) : Prop :=
  n = Nexec ((Some ∘ fst <$> qx) ++ replicate (MAXARGS - length ws) None) ((Some ∘ snd <$> qx) ++ replicate (MAXARGS - length ws) None) ∧
  Forall2 (λ q w, span b es q.1 q.2 w) qx ws.

Fixpoint den (h : list node) (p : nat) (c : cmd) : Prop :=
  match c with
  | CExec ws => ∃ n qx, h !! p = Some n ∧ args_den qx ws n
  | CRedir c f mode fd => ∃ c' q e, h !! p = Some (Nredir c' q e mode fd) ∧ span b es q e f ∧ den h c' c
  | CPipe l r => ∃ l' r', h !! p = Some (Npipe l' r') ∧ den h l' l ∧ den h r' r
  | CList l r => ∃ l' r', h !! p = Some (Nlist l' r') ∧ den h l' l ∧ den h r' r
  | CBack c => ∃ c', h !! p = Some (Nback c') ∧ den h c' c
  end.

Lemma den_prefix c : ∀ h h' p, h `prefix_of` h' → den h p c → den h' p c.
Proof.
  induction c as [ws|c IH f mode fd|l IHl r IHr|l IHl r IHr|c IH]; intros h h' p Hp; simpl.
  - intros (n & qx & Hl & Ha). exists n, qx. split; [by eapply prefix_lookup_Some|done].
  - intros (c' & q & e & Hl & Hs & Hd). exists c', q, e. split_and!; [by eapply prefix_lookup_Some|done|eauto].
  - intros (l' & r' & Hl & H1 & H2). exists l', r'. split_and!; [by eapply prefix_lookup_Some|eauto|eauto].
  - intros (l' & r' & Hl & H1 & H2). exists l', r'. split_and!; [by eapply prefix_lookup_Some|eauto|eauto].
  - intros (c' & Hl & Hd). exists c'. split; [by eapply prefix_lookup_Some|eauto].
Qed.
End Den.

Section Round.
Variables (b : list Z) (es : nat).
Hypothesis Hlen : (es < length b)%nat.
Hypothesis Hes : at_ b es = 0.
Notation up := (up b es).
Notation den := (den b es).

Definition starts (toks t : list Z) : bool :=
  match t with [] => false | c :: _ => negb (bool_decide (c = 0)) && strchr toks c end.

Lemma peek_at s toks t : (s ≤ es)%nat → up s = t → ∃ s', peek b s es toks = Some (starts toks t, s') ∧ (s ≤ s' ≤ es)%nat ∧ up s' = t.
Proof.
  intros Hs <-. destruct (peek_spec b es Hlen Hes s toks Hs) as (s' & -> & ? & Hu & _). exists s'. split_and!; try lia; [|done].
  f_equal. by destruct (up s).
Qed.

Lemma op_token s mode fd t : (s ≤ es)%nat → redir_ok mode fd → up s = op_text mode ++ 32 :: t →
  ∃ tok q e s', gettoken b s es = Some (tok, q, e, s') ∧ (s < s' ≤ es)%nat ∧ up s' = dropws t ∧
    ∀ cmd q' e', (if decide (tok = 60) then redircmd cmd q' e' O_RDONLY 0
       else if decide (tok = 62) then redircmd cmd q' e' (Z.lor (Z.lor O_WRONLY O_CREATE) O_TRUNC) 1
       else if decide (tok = 43) then redircmd cmd q' e' (Z.lor O_WRONLY O_CREATE) 1 else pure cmd) = redircmd cmd q' e' mode fd.
Proof.
  intros Hs [[-> ->]|[[-> ->]|[-> ->]]] Hu.
  - destruct (gettoken_sym b es Hlen Hes s 60 (32 :: t) Hs Hu) as (q & e & s' & E & ? & Hu'); [done|done|]. by exists 60, q, e, s'.
  - destruct (gettoken_gt b es Hlen Hes s (32 :: t) Hs Hu) as (q & e & s' & E & ? & Hu'); [done|]. by exists 62, q, e, s'.
  - destruct (gettoken_gtgt b es Hlen Hes s (32 :: t) Hs Hu) as (q & e & s' & E & ? & Hu'). by exists 43, q, e, s'.
Qed.

Lemma redirs_parse rs : ∀ fuel cmd s st rest, rs_ok rs → buf st = b → (s ≤ es)%nat → (es - s < fuel)%nat →
  up s = redirs_text rs ++ rest → fresh rest → starts (ustr "<>") rest = false →
  ∃ p s' new, parseredirs fuel cmd s es st = Ret ((p, s'), mkSh b (heap st ++ new)) ∧ (s ≤ s' ≤ es)%nat ∧ up s' = rest ∧
    ∀ h c0, (∀ i n, new !! i = Some n → h !! (length (heap st) + i)%nat = Some n) → den h cmd c0 → den h p (wrap c0 rs).
Proof.
  induction rs as [|[[f mode] fd] rs IH]; intros fuel cmd s st rest Hok Hb Hs Hf Hu Hfr Hst; (destruct fuel as [|fuel]; [lia|]);
    cbn [parseredirs]; rewrite andthen_peek, Hb.
  - destruct (peek_at s (ustr "<>") rest Hs Hu) as (s1 & -> & Hs1 & Hu1). rewrite Hst. exists cmd, s1, []. rewrite app_nil_r. destruct st. simpl in *. subst. split_and!; [done|lia|lia|done|done].
  - apply list.Forall_cons in Hok as [[Hw Hr] Hok]. simpl in Hw, Hr.
    assert (redirs_text ((f, mode, fd) :: rs) ++ rest = op_text mode ++ 32 :: f ++ 32 :: redirs_text rs ++ rest) as Et.
    { unfold redirs_text, redir_text. simpl. by rewrite <- !app_assoc; simpl; rewrite <- !app_assoc. }
    rewrite Et in Hu. destruct (peek_at s (ustr "<>") _ Hs Hu) as (s1 & -> & Hs1 & Hu1).
    assert (starts (ustr "<>") (op_text mode ++ 32 :: f ++ 32 :: redirs_text rs ++ rest) = true) as -> by (unfold op_text; repeat case_decide; done).
    rewrite andthen_gettoken, Hb. destruct (op_token s1 mode fd _ ltac:(lia) Hr Hu1) as (tok & q0 & e0 & s2 & -> & Hs2 & Hu2 & Hop).
    rewrite (word_fresh f) in Hu2 by done. rewrite andthen_gettoken, Hb. destruct Hw as (Hne & Hp & Hz).
    destruct (gettoken_word b es Hlen Hes s2 f 32 (redirs_text rs ++ rest) ltac:(lia) Hu2 Hne Hp Hz ltac:(done)) as (q & e & s3 & -> & Hsp & Hs3 & Hu3).
    rewrite decide_False by tauto. rewrite Hop. unfold redircmd. rewrite andthen_alloc.
    change (up s3 = dropws (redirs_text rs ++ rest)) in Hu3. rewrite (redirs_fresh rs rest Hfr) in Hu3.
    destruct (IH fuel (length (heap st)) s3 (mkSh (buf st) (heap st ++ [Nredir cmd q e mode fd])) rest Hok Hb ltac:(lia) ltac:(lia) Hu3 Hfr Hst)
      as (p & s' & new & E & Hs' & Hu' & Hden).
    exists p, s', (Nredir cmd q e mode fd :: new). split_and!; [|lia|lia|done|].
    + rewrite E. simpl. by rewrite <- app_assoc.
    + intros h c0 Hh Hd. cbn [wrap foldl]. change (den h p (wrap (CRedir c0 f mode fd) rs)). apply Hden.
      * intros i n Hi. cbn [heap]. rewrite length_app. simpl. rewrite <- (Hh (S i) n Hi). f_equal. lia.
      * exists cmd, q, e. split_and!; [|done|done]. rewrite <- (Hh 0%nat _ eq_refl). f_equal. lia.
Qed.

Lemma stops_starts toks t : stops toks t → starts toks t = negb (bool_decide (t = [])).
Proof. intros [_ [->|(c & t' & -> & Hc & Hs)]]; [done|]. simpl. by rewrite bool_decide_eq_false_2, Hs by done. Qed.

Lemma starts_word toks w t : word_ok w → (∀ c, plain c = true → strchr toks c = false) → starts toks (w ++ t) = false.
Proof.
  intros (Hne & Hp & _) Ht. destruct w as [|c w]; [done|]. simpl in *. apply andb_prop in Hp as [Hc _]. rewrite (Ht c Hc). apply andb_false_r.
Qed.

Lemma plain_not toks c : forallb (λ x, negb (plain x)) toks = true → plain c = true → strchr toks c = false.
Proof.
  intros Ht Hc. unfold strchr. apply not_true_iff_false. intros (x & Hx & Ex)%existsb_exists. apply Z.eqb_eq in Ex as ->.
  rewrite forallb_forall in Ht. specialize (Ht x Hx). by rewrite Hc in Ht.
Qed.

Lemma args_den_set cmd qx ws n st q e w : heap st !! cmd = Some n → args_den b es qx ws n → (length ws < MAXARGS)%nat → span b es q e w →
  ∃ n', set_arg cmd (length ws) (Some q) (Some e) st = Ret (tt, mkSh (buf st) (<[cmd := n']> (heap st))) ∧ args_den b es (qx ++ [(q, e)]) (ws ++ [w]) n'.
Proof.
  intros Hl [-> Hf] Hn Hsp. unfold set_arg. rewrite Hl, decide_True by done. eexists. split; [done|]. split.
  - assert (∀ (g : nat * nat → nat) y, <[length ws := Some y]> ((Some ∘ g <$> qx) ++ replicate (MAXARGS - length ws) None) =
      (Some ∘ g <$> qx) ++ Some y :: replicate (MAXARGS - S (length ws)) None) as Hins.
    { intros g y. replace (length ws) with (length (Some ∘ g <$> qx) + 0)%nat at 1 by (rewrite length_fmap, (Forall2_length Hf); lia).
      rewrite insert_app_r. by replace (MAXARGS - length ws)%nat with (S (MAXARGS - S (length ws))) by lia. }
    rewrite !Hins, !fmap_app, length_app, <- !app_assoc, Nat.add_1_r. done.
  - apply Forall2_app; [done|]. by constructor.
Qed.

(* the redirections that follow at this point *)
Lemma split_redirs (ws : list (list Z)) rs rest : ∃ r1 r2, words_text ws ++ redirs_text rs ++ rest = redirs_text r1 ++ words_text ws ++ redirs_text r2 ++ rest ∧
  (ws = [] → r2 = []) ∧ (r1 ++ r2 = rs) ∧ (ws ≠ [] → r1 = []).
Proof. destruct ws as [|w ws]; [exists rs, []|exists [], rs]; split_and!; try done. by rewrite app_nil_r. Qed.

Lemma no_redir ws rs rest : Forall word_ok ws → stops (ustr "|)&;") rest → (ws = [] → rs = []) → starts (ustr "<>") (words_text ws ++ redirs_text rs ++ rest) = false.
Proof.
  intros Hw [_ Hst] Hrs. destruct Hw as [|w ws Hw _].
  - rewrite Hrs by done. simpl. destruct Hst as [->|(c & t & -> & Hc & Hs)]; [done|]. simpl. rewrite bool_decide_eq_false_2 by done. simpl.
    revert Hs. unfold strchr. change (ustr "|)&;") with [124; 41; 38; 59]. change (ustr "<>") with [60; 62]. cbn [existsb].
    repeat match goal with |- context [(c =? ?k)] => destruct (Z.eqb_spec c k); [subst|] end; done.
  - unfold words_text. simpl. rewrite <- !app_assoc. apply starts_word; [done|]. intros c. by apply plain_not.
Qed.

Lemma args_parse ws : ∀ fuel cmd ret s st rs rest qx0 ws0 n0,
  Forall word_ok ws → rs_ok rs → (ws = [] → rs = []) → buf st = b → (s ≤ es)%nat → (es - s < fuel)%nat → (length ws0 + length ws < MAXARGS)%nat →
  up s = words_text ws ++ redirs_text rs ++ rest → stops (ustr "|)&;") rest → heap st !! cmd = Some n0 → args_den b es qx0 ws0 n0 →
  ∃ p s' n new qx, args_loop fuel cmd ret (length ws0) s es st = Ret ((p, length (ws0 ++ ws), s'), mkSh b (<[cmd := n]> (heap st) ++ new)) ∧
    (s ≤ s' ≤ es)%nat ∧ up s' = rest ∧ args_den b es qx (ws0 ++ ws) n ∧
    ∀ h c0, (∀ i n, new !! i = Some n → h !! (length (heap st) + i)%nat = Some n) → den h ret c0 → den h p (wrap c0 rs).
Proof.
  induction ws as [|w ws IH]; intros fuel cmd ret s st rs rest qx0 ws0 n0 Hw Hrs Hnil Hb Hs Hf Hmax Hu Hst Hl Ha; (destruct fuel as [|fuel]; [lia|]);
    cbn [args_loop]; rewrite andthen_peek, Hb.
  - rewrite Hnil in Hu |- * by done. change (up s = rest) in Hu. destruct (peek_at s (ustr "|)&;") rest Hs Hu) as (s1 & -> & Hs1 & Hu1).
    rewrite (stops_starts _ _ Hst), app_nil_r. case_bool_decide as Hr; cbn [negb].
    + rewrite Hr in Hu1. rewrite andthen_gettoken, Hb. destruct (gettoken_end b es Hlen Hes s1 ltac:(lia) Hu1) as (q & e & s2 & -> & Hs2 & Hu2).
      rewrite decide_True by done. exists ret, s2, n0, [], qx0. rewrite list_insert_id, app_nil_r by done. destruct st. simpl in *. subst b. split_and!; (done || lia || congruence).
    + exists ret, s1, n0, [], qx0. rewrite list_insert_id, app_nil_r by done. destruct st. simpl in *. subst b. split_and!; (done || lia).
  - apply list.Forall_cons in Hw as [Hw Hws]. destruct (peek_at s (ustr "|)&;") _ Hs Hu) as (s1 & -> & Hs1 & Hu1).
    assert (words_text (w :: ws) ++ redirs_text rs ++ rest = w ++ 32 :: words_text ws ++ redirs_text rs ++ rest) as Et.
    { unfold words_text. simpl. by rewrite <- !app_assoc. }
    rewrite Et, (starts_word _ w) by (done || intros c; by apply plain_not). rewrite Et in Hu1.
    rewrite andthen_gettoken, Hb. pose proof Hw as (Hne & Hp & Hz).
    destruct (gettoken_word b es Hlen Hes s1 w 32 _ ltac:(lia) Hu1 Hne Hp Hz ltac:(done)) as (q & e & s2 & -> & Hsp & Hs2 & Hu2).
    rewrite decide_False by done. rewrite decide_False by tauto.
    destruct (args_den_set cmd qx0 ws0 n0 st q e w Hl Ha ltac:(lia) Hsp) as (n1 & Es & Ha1). unfold andthen at 1. rewrite Es. cbn [pbind fst snd].
    simpl in Hmax. rewrite decide_False by lia.
    destruct (split_redirs ws rs rest) as (r1 & r2 & E12 & Hr2 & <- & Hr1). apply list.Forall_app in Hrs as [Hok1 Hok2].
    assert (up s2 = redirs_text r1 ++ words_text ws ++ redirs_text r2 ++ rest) as Hu2'.
    { rewrite Hu2. change (dropws (words_text ws ++ redirs_text (r1 ++ r2) ++ rest) = redirs_text r1 ++ words_text ws ++ redirs_text r2 ++ rest). rewrite <- E12.
      apply words_fresh; [done|]. apply redirs_fresh. apply Hst. }
    set (st1 := mkSh (buf st) (<[cmd := n1]> (heap st))).
    destruct (redirs_parse r1 (S (es - s2)) ret s2 st1 _ Hok1 Hb ltac:(lia) ltac:(lia) Hu2') as (p1 & s3 & new1 & E1 & Hs3 & Hu3 & Hd1).
    { apply words_fresh; [done|]. apply redirs_fresh. apply Hst. }
    { by apply no_redir. }
    unfold andthen at 1. rewrite E1. cbn [pbind fst snd]. set (st2 := mkSh b (heap st1 ++ new1)).
    assert (heap st2 !! cmd = Some n1) as Hl2.
    { apply lookup_app_l_Some. apply list_lookup_insert_eq. by eapply lookup_lt_Some. }
    replace (S (length ws0)) with (length (ws0 ++ [w])) by (rewrite length_app; simpl; lia).
    destruct (IH fuel cmd p1 s3 st2 r2 rest (qx0 ++ [(q, e)]) (ws0 ++ [w]) n1 Hws Hok2 Hr2 eq_refl ltac:(lia) ltac:(lia)) as (p & s' & n & new & qx & E2 & Hs' & Hu' & Ha' & Hd2);
      [rewrite length_app; simpl; lia|done|done|done|done|].
    exists p, s', n, (new1 ++ new), qx. rewrite <- app_assoc in E2, Ha'. simpl in E2, Ha'. split_and!; [|lia|lia|done|done|].
    + rewrite E2. unfold st2, st1. cbn [heap buf]. rewrite insert_app_l by (rewrite length_insert; by eapply lookup_lt_Some). by rewrite list_insert_insert_eq, <- app_assoc.
    + intros h c0 Hh Hd. unfold wrap. rewrite foldl_app. apply Hd2.
      * intros i x Hi. unfold st2, st1. cbn [heap]. rewrite length_app, length_insert. rewrite <- Nat.add_assoc. apply Hh. by rewrite lookup_app_r, Nat.add_sub' by lia.
      * apply Hd1; [|done]. intros i x Hi. unfold st1. cbn [heap]. rewrite length_insert. apply Hh. by apply lookup_app_l_Some.
Qed.

(** [m] parses [c] from position [s] of state [st] and stops before [rest]. *)
Definition parsed (c : cmd) (s : nat) (st : shst) (rest : list Z) (m : prog (nat * nat * shst)) : Prop :=
  ∃ p s' new, m = Ret ((p, s'), mkSh b (heap st ++ new)) ∧ (s ≤ s' ≤ es)%nat ∧ up s' = rest ∧ den (heap st ++ new) p c.

Definition P_exec (c : cmd) : Prop := ∀ fuel s st rest, buf st = b → (s ≤ es)%nat → (4 * (es - s) + 2 ≤ fuel)%nat →
  up s = pr 3 c ++ rest → stops (ustr "|)&;") rest → parsed c s st rest (parseexec fuel s es st).
Definition P_pipe (c : cmd) : Prop := ∀ fuel s st rest, buf st = b → (s ≤ es)%nat → (4 * (es - s) + 3 ≤ fuel)%nat →
  up s = pr 2 c ++ rest → stops (ustr ")&;") rest → parsed c s st rest (parsepipe fuel s es st).
(* up to the point where parseline looks for the next & *)
Definition P_back (c : cmd) : Prop := ∀ fuel s st rest, buf st = b → (s ≤ es)%nat → (4 * (es - s) + 3 ≤ fuel)%nat →
  up s = pr 1 c ++ rest → stops (ustr ")&;") rest →
  ∃ p s' new k, (let! (cmd, s) := parsepipe fuel s es in back_loop (S (es - s)) cmd s es) st = back_loop k p s' es (mkSh b (heap st ++ new)) ∧
    (es - s' < k)%nat ∧ (s ≤ s' ≤ es)%nat ∧ up s' = rest ∧ den (heap st ++ new) p c.
Definition P_line (c : cmd) : Prop := ∀ fuel s st rest, buf st = b → (s ≤ es)%nat → (4 * (es - s) + 4 ≤ fuel)%nat →
  up s = pr 0 c ++ rest → stops (ustr ")") rest → parsed c s st rest (parseline fuel s es st).

Lemma stops_weaken toks toks' t : forallb (strchr toks') toks = true → stops toks t → stops toks' t.
Proof.
  intros Ht [Hf Hs]. split; [done|]. destruct Hs as [->|(c & t' & -> & Hc & Hs)]; [by left|right]. exists c, t'. split_and!; [done|done|].
  unfold strchr in Hs. apply existsb_exists in Hs as (x & Hx & ->%Z.eqb_eq). rewrite forallb_forall in Ht. auto.
Qed.
Lemma stops_cons toks c t : strchr whitespace c = false → c ≠ 0 → strchr toks c = true → stops toks (c :: t).
Proof. intros. split; [by apply fresh_cons|right; eauto]. Qed.
(* no token of [toks] comes next *)
Lemma starts_not toks toks' t : stops toks' t → forallb (λ c, negb (strchr toks c)) toks' = true → starts toks t = false.
Proof.
  intros [_ [->|(c & t' & -> & Hc & Hs)]] Ht; [done|]. simpl. unfold strchr in Hs. apply existsb_exists in Hs as (x & Hx & ->%Z.eqb_eq).
  rewrite forallb_forall in Ht. specialize (Ht x Hx). apply negb_true_iff in Ht. rewrite Ht. apply andb_false_r.
Qed.

Lemma exec_simple ws rs : wf_cmd (CExec ws) → rs_ok rs → P_exec (wrap (CExec ws) rs).
Proof.
  intros [Hws Hmax] Hrs fuel s st rest Hb Hs Hf Hu Hst. destruct fuel as [|fuel]; [lia|]. rewrite pr_wrap, <- app_assoc in Hu. change (pr 3 (CExec ws)) with (words_text ws) in Hu.
  cbn [parseexec]. rewrite andthen_peek, Hb. destruct (peek_at s (ustr "(") _ Hs Hu) as (s1 & -> & Hs1 & Hu1).
  destruct (split_redirs ws rs rest) as (r1 & r2 & E12 & Hr2 & <- & Hr1). apply list.Forall_app in Hrs as [Hok1 Hok2]. rewrite E12 in Hu1 |- *.
  assert (starts (ustr "(") (redirs_text r1 ++ words_text ws ++ redirs_text r2 ++ rest) = false) as ->.
  { destruct r1 as [|[[f mode] fd] r1].
    - destruct Hws as [|w ws Hw _]; [rewrite Hr2 by done; simpl; by eapply starts_not|]. unfold words_text. simpl. rewrite <- !app_assoc.
      apply starts_word; [done|]. intros c. by apply plain_not.
    - unfold redirs_text, redir_text, op_text. simpl. repeat case_decide; done. }
  unfold execcmd. rewrite andthen_alloc. set (cmd := length (heap st)). set (n0 := Nexec _ _). set (st1 := mkSh _ _).
  assert (fresh (words_text ws ++ redirs_text r2 ++ rest)) as Hfr by (apply words_fresh; [done|]; apply redirs_fresh, Hst).
  destruct (redirs_parse r1 (S (es - s1)) cmd s1 st1 _ Hok1 Hb ltac:(lia) ltac:(lia) Hu1 Hfr ltac:(by apply no_redir)) as (p1 & s2 & new1 & E1 & Hs2 & Hu2 & Hd1).
  unfold andthen at 1. rewrite E1. cbn [pbind fst snd]. set (st2 := mkSh b (heap st1 ++ new1)).
  assert (heap st2 !! cmd = Some n0) as Hl2 by (apply lookup_app_l_Some; by apply list_lookup_middle).
  destruct (args_parse ws (S (es - s2)) cmd p1 s2 st2 r2 rest [] [] n0 Hws Hok2 Hr2 eq_refl ltac:(lia) ltac:(lia) ltac:(simpl; lia) Hu2 Hst Hl2) as (p & s' & n & new & qx & E2 & Hs' & Hu' & Ha & Hd2).
  { split; [by rewrite Nat.sub_0_r|constructor]. }
  cbn [length app] in E2, Ha. unfold andthen at 1. rewrite E2. cbn [pbind fst snd].
  assert (<[cmd := n]> (heap st2) ++ new = heap st ++ n :: new1 ++ new) as Eh.
  { unfold st2, st1. cbn [heap]. rewrite <- app_assoc. simpl. unfold cmd. rewrite <- (Nat.add_0_r (length (heap st))), insert_app_r. simpl. by rewrite <- app_assoc. }
  pose proof Ha as [En Hspan]. unfold andthen, set_arg. cbn [heap buf]. rewrite Eh. unfold cmd at 1. rewrite list_lookup_middle by done. rewrite En at 1.
  rewrite decide_True by done. cbn [pbind fst snd]. unfold pure. exists p, s', (n :: new1 ++ new). simpl app.
  assert (∀ g : nat * nat → nat, <[length ws := None]> ((Some ∘ g <$> qx) ++ replicate (MAXARGS - length ws) None) = (Some ∘ g <$> qx) ++ replicate (MAXARGS - length ws) None) as Hins.
  { intros g. apply list_insert_id. rewrite lookup_app_r by (rewrite length_fmap, (Forall2_length Hspan); done). apply lookup_replicate_2. rewrite length_fmap, (Forall2_length Hspan). lia. }
  rewrite !Hins, <- En. split_and!; [|lia|lia|done|].
  - f_equal. f_equal. f_equal. unfold cmd. apply list_insert_id. by apply list_lookup_middle.
  - unfold wrap. rewrite foldl_app. apply Hd2.
    + intros i x Hi. unfold st2, st1. cbn [heap]. rewrite !length_app. simpl. rewrite lookup_app_r by lia.
      replace (length (heap st) + 1 + length new1 + i - length (heap st))%nat with (S (length new1 + i)) by lia. simpl. by rewrite lookup_app_r, Nat.add_sub' by lia.
    + apply Hd1.
      * intros i x Hi. unfold st1. cbn [heap]. rewrite length_app. simpl. rewrite lookup_app_r by lia.
        replace (length (heap st) + 1 + i - length (heap st))%nat with (S i) by lia. simpl. by apply lookup_app_l_Some.
      * exists n, qx. split; [by apply list_lookup_middle|done].
Qed.

Lemma sym_token s c t : (s ≤ es)%nat → up s = c :: 32 :: t → fresh t → c ≠ 0 → strchr (ustr "|();&<") c = true →
  ∃ q e s', gettoken b s es = Some (c, q, e, s') ∧ (s < s' ≤ es)%nat ∧ up s' = t.
Proof.
  intros Hs Hu Hf Hc Hsym. destruct (gettoken_sym b es Hlen Hes s c (32 :: t) Hs Hu Hc Hsym) as (q & e & s' & E & ? & Hu').
  exists q, e, s'. split_and!; [done|lia|lia|]. rewrite Hu'. exact Hf.
Qed.

Lemma exec_block c rs : P_line c → wf_cmd c → pr 3 c = paren true (pr 0 c) → rs_ok rs → P_exec (wrap c rs).
Proof.
  intros Hline Hwf Hpr Hrs fuel s st rest Hb Hs Hf Hu Hst. destruct fuel as [|[|fuel]]; [lia|lia|]. rewrite pr_wrap, Hpr in Hu.
  assert ((paren true (pr 0 c) ++ redirs_text rs) ++ rest = 40 :: 32 :: pr 0 c ++ 41 :: 32 :: redirs_text rs ++ rest) as Et by (simpl; by rewrite <- !app_assoc).
  rewrite Et in Hu. assert (fresh (redirs_text rs ++ rest)) as Hfr by apply redirs_fresh, Hst.
  cbn [parseexec]. rewrite andthen_peek, Hb. destruct (peek_at s (ustr "(") _ Hs Hu) as (s1 & -> & Hs1 & Hu1). change (starts (ustr "(") (40 :: _)) with true. cbv iota.
  cbn [parseblock]. rewrite andthen_peek, Hb. destruct (peek_at s1 (ustr "(") _ ltac:(lia) Hu1) as (s2 & -> & Hs2 & Hu2). change (starts (ustr "(") (40 :: _)) with true. cbn [negb].
  rewrite andthen_gettoken, Hb. destruct (sym_token s2 40 _ ltac:(lia) Hu2) as (q & e & s3 & -> & Hs3 & Hu3); [by apply pr_fresh; [|apply fresh_cons]|done|done|].
  destruct (Hline fuel s3 st _ Hb ltac:(lia) ltac:(lia) Hu3 ltac:(by apply stops_cons)) as (p & s4 & new & E1 & Hs4 & Hu4 & Hd).
  unfold andthen at 1. rewrite E1. cbn [pbind fst snd]. rewrite andthen_peek. cbn [buf].
  destruct (peek_at s4 (ustr ")") _ ltac:(lia) Hu4) as (s5 & -> & Hs5 & Hu5). change (starts (ustr ")") (41 :: _)) with true. cbn [negb].
  rewrite andthen_gettoken. cbn [buf]. destruct (sym_token s5 41 _ ltac:(lia) Hu5) as (q' & e' & s6 & -> & Hs6 & Hu6); [done|done|done|].
  set (st1 := mkSh b _).
  destruct (redirs_parse rs (S (es - s6)) p s6 st1 rest Hrs eq_refl ltac:(lia) ltac:(lia) Hu6 ltac:(apply Hst)) as (p' & s' & new' & E2 & Hs' & Hu' & Hd').
  { apply (no_redir [] []); [constructor|done|done]. }
  exists p', s', (new ++ new'). rewrite E2. unfold st1. cbn [heap]. rewrite app_assoc. split_and!; [done|lia|lia|done|].
  apply Hd'; [|eapply den_prefix; [|exact Hd]; by apply prefix_app_r]. intros i x Hi. unfold st1. cbn [heap]. by rewrite lookup_app_r, Nat.add_sub' by lia.
Qed.

Lemma pipe_of_exec c : P_exec c → pr 2 c = pr 3 c → P_pipe c.
Proof.
  intros He Hpr fuel s st rest Hb Hs Hf Hu Hst. destruct fuel as [|fuel]; [lia|]. rewrite Hpr in Hu. cbn [parsepipe].
  destruct (He fuel s st rest Hb Hs ltac:(lia) Hu (stops_weaken (ustr ")&;") (ustr "|)&;") rest eq_refl Hst)) as (p & s1 & new & E & Hs1 & Hu1 & Hd).
  unfold andthen at 1. rewrite E. cbn [pbind fst snd]. rewrite andthen_peek. cbn [buf].
  destruct (peek_at s1 (ustr "|") rest ltac:(lia) Hu1) as (s2 & -> & Hs2 & Hu2). rewrite (starts_not _ (ustr ")&;")) by done.
  exists p, s2, new. split_and!; (done || lia).
Qed.

Lemma pipe_pipe l r : P_exec l → P_pipe r → wf_cmd r → P_pipe (CPipe l r).
Proof.
  intros Hl Hr Hwf fuel s st rest Hb Hs Hf Hu Hst. destruct fuel as [|fuel]; [lia|]. cbn [parsepipe].
  assert (pr 2 (CPipe l r) ++ rest = pr 3 l ++ 124 :: 32 :: pr 2 r ++ rest) as Et by (simpl; by rewrite <- !app_assoc). rewrite Et in Hu.
  destruct (Hl fuel s st _ Hb Hs ltac:(lia) Hu ltac:(by apply stops_cons)) as (p & s1 & new & E & Hs1 & Hu1 & Hd).
  unfold andthen at 1. rewrite E. cbn [pbind fst snd]. rewrite andthen_peek. cbn [buf].
  destruct (peek_at s1 (ustr "|") _ ltac:(lia) Hu1) as (s2 & -> & Hs2 & Hu2). change (starts (ustr "|") (124 :: _)) with true. cbv iota.
  rewrite andthen_gettoken. cbn [buf]. destruct (sym_token s2 124 _ ltac:(lia) Hu2) as (q & e & s3 & -> & Hs3 & Hu3); [by apply pr_fresh; [|apply Hst]|done|done|].
  destruct (Hr fuel s3 (mkSh b (heap st ++ new)) rest eq_refl ltac:(lia) ltac:(lia) Hu3 Hst) as (p' & s4 & new' & E' & Hs4 & Hu4 & Hd').
  unfold andthen at 1. rewrite E'. cbn [pbind fst snd]. unfold pipecmd. rewrite andthen_alloc. cbn [heap buf].
  exists (length ((heap st ++ new) ++ new')), s4, (new ++ new' ++ [Npipe p p']). rewrite !app_assoc. split_and!; [done|lia|lia|done|].
  exists p, p'. split_and!; [by apply list_lookup_middle|eapply den_prefix; [|exact Hd]; rewrite <- app_assoc; by apply prefix_app_r|eapply den_prefix; [|exact Hd']; by apply prefix_app_r].
Qed.

Lemma back_of_pipe c : P_pipe c → pr 1 c = pr 2 c → P_back c.
Proof.
  intros Hp Hpr fuel s st rest Hb Hs Hf Hu Hst. rewrite Hpr in Hu.
  destruct (Hp fuel s st rest Hb Hs ltac:(lia) Hu Hst) as (p & s1 & new & E & Hs1 & Hu1 & Hd).
  exists p, s1, new, (S (es - s1)). unfold andthen at 1. rewrite E. split_and!; (done || lia).
Qed.

Lemma back_back c : P_back c → P_back (CBack c).
Proof.
  intros Hp fuel s st rest Hb Hs Hf Hu Hst.
  assert (pr 1 (CBack c) ++ rest = pr 1 c ++ 38 :: 32 :: rest) as Et by (simpl; by rewrite <- !app_assoc). rewrite Et in Hu.
  destruct (Hp fuel s st _ Hb Hs Hf Hu ltac:(by apply stops_cons)) as (p & s1 & new & k & E & Hk & Hs1 & Hu1 & Hd).
  rewrite E. destruct k as [|k]; [lia|]. cbn [back_loop]. rewrite andthen_peek. cbn [buf].
  destruct (peek_at s1 (ustr "&") _ ltac:(lia) Hu1) as (s2 & -> & Hs2 & Hu2). change (starts (ustr "&") (38 :: _)) with true. cbv iota.
  rewrite andthen_gettoken. cbn [buf]. destruct (sym_token s2 38 _ ltac:(lia) Hu2) as (q & e & s3 & -> & Hs3 & Hu3); [by apply Hst|done|done|].
  unfold backcmd. rewrite andthen_alloc. cbn [heap buf]. exists (length (heap st ++ new)), s3, (new ++ [Nback p]), k. rewrite app_assoc.
  split_and!; [done|lia|lia|lia|done|]. exists p. split; [by apply list_lookup_middle|]. eapply den_prefix; [|exact Hd]. by apply prefix_app_r.
Qed.

(* parseline after the pipeline and its &s *)
Lemma line_front fuel c s st rest : P_back c → buf st = b → (s ≤ es)%nat → (4 * (es - s) + 3 ≤ fuel)%nat → up s = pr 1 c ++ rest →
  stops (ustr ");") rest → parsed c s st rest ((let! (cmd, s) := parsepipe fuel s es in back_loop (S (es - s)) cmd s es) st).
Proof.
  intros Hp Hb Hs Hf Hu Hst. destruct (Hp fuel s st rest Hb Hs Hf Hu (stops_weaken (ustr ");") (ustr ")&;") rest eq_refl Hst)) as (p & s1 & new & k & E & Hk & Hs1 & Hu1 & Hd).
  destruct k as [|k]; [lia|]. unfold parsed. rewrite E. cbn [back_loop]. rewrite andthen_peek. cbn [buf].
  destruct (peek_at s1 (ustr "&") rest ltac:(lia) Hu1) as (s2 & -> & Hs2 & Hu2). rewrite (starts_not _ (ustr ");")) by done.
  exists p, s2, new. split_and!; (done || lia).
Qed.

Lemma pbind_Ret {A B} (m : prog A) (f : A → prog B) r : pbind m f = Ret r → ∃ a, m = Ret a ∧ f a = Ret r.
Proof. destruct m; simpl; try done. eauto. Qed.

Lemma line_of_front fuel c s st rest more : parsed c s st rest ((let! (cmd, s) := parsepipe fuel s es in back_loop (S (es - s)) cmd s es) st) →
  starts (ustr ";") rest = more →
  ∃ p s' new, parseline (S fuel) s es st = (if more then
        let! (_, _, _, s) := gettokenP s' es in
        let! (rcmd, s) := parseline fuel s es in
        let! cmd := listcmd p rcmd in
        pure (cmd, s)
      else pure (p, s')) (mkSh b (heap st ++ new)) ∧ (s ≤ s' ≤ es)%nat ∧ up s' = rest ∧ den (heap st ++ new) p c.
Proof.
  intros (p & s1 & new & E & Hs1 & Hu1 & Hd) <-. apply pbind_Ret in E as ([[c0 s0] st0] & E0 & E1). cbn [fst snd] in E1.
  destruct (peek_at s1 (ustr ";") rest ltac:(lia) Hu1) as (s2 & Ep & Hs2 & Hu2). exists p, s2, new. split_and!; [|lia|lia|done|done].
  cbn [parseline]. unfold andthen at 1. rewrite E0. cbn [pbind fst snd]. unfold andthen at 1. rewrite E1. cbn [pbind fst snd]. rewrite andthen_peek. cbn [buf]. by rewrite Ep.
Qed.

Lemma line_of_back c : P_back c → pr 0 c = pr 1 c → P_line c.
Proof.
  intros Hp Hpr fuel s st rest Hb Hs Hf Hu Hst. destruct fuel as [|fuel]; [lia|]. rewrite Hpr in Hu.
  destruct (line_of_front fuel c s st rest false) as (p & s1 & new & E & Hs1 & Hu1 & Hd).
  - apply line_front; try done; [lia|]. by apply (stops_weaken (ustr ")")).
  - by apply (starts_not _ (ustr ")")).
  - exists p, s1, new. rewrite E. done.
Qed.

Lemma line_list l r : P_back l → P_line r → wf_cmd r → P_line (CList l r).
Proof.
  intros Hl Hr Hwf fuel s st rest Hb Hs Hf Hu Hst. destruct fuel as [|fuel]; [lia|].
  assert (pr 0 (CList l r) ++ rest = pr 1 l ++ 59 :: 32 :: pr 0 r ++ rest) as Et by (simpl; by rewrite <- !app_assoc). rewrite Et in Hu.
  destruct (line_of_front fuel l s st (59 :: 32 :: pr 0 r ++ rest) true) as (p & s1 & new & E & Hs1 & Hu1 & Hd).
  - apply line_front; try done; [lia|]. by apply stops_cons.
  - done.
  - unfold parsed. rewrite E, andthen_gettoken. cbn [buf].
    destruct (sym_token s1 59 _ ltac:(lia) Hu1) as (q & e & s3 & -> & Hs3 & Hu3); [by apply pr_fresh; [|apply Hst]|done|done|].
    destruct (Hr fuel s3 (mkSh b (heap st ++ new)) rest eq_refl ltac:(lia) ltac:(lia) Hu3 Hst) as (p' & s4 & new' & E' & Hs4 & Hu4 & Hd').
    unfold andthen at 1. rewrite E'. cbn [pbind fst snd]. unfold listcmd. rewrite andthen_alloc. cbn [heap buf].
    exists (length ((heap st ++ new) ++ new')), s4, (new ++ new' ++ [Nlist p p']). rewrite !app_assoc. split_and!; [done|lia|lia|done|].
    exists p, p'. split_and!; [by apply list_lookup_middle|eapply den_prefix; [|exact Hd]; rewrite <- app_assoc; by apply prefix_app_r|eapply den_prefix; [|exact Hd']; by apply prefix_app_r].
Qed.

Lemma parse_print_levels c : wf_cmd c → (∀ rs, rs_ok rs → P_exec (wrap c rs)) ∧ P_pipe c ∧ P_back c ∧ P_line c.
Proof.
  assert (∀ c, P_line c → wf_cmd c → pr 3 c = paren true (pr 0 c) → ∀ rs, rs_ok rs → P_exec (wrap c rs)) as Hblock by (intros; by apply exec_block).
  induction c as [ws|c IH f mode fd|l IHl r IHr|l IHl r IHr|c IH]; intros Hwf; simpl in Hwf.
  - assert (∀ rs, rs_ok rs → P_exec (wrap (CExec ws) rs)) as He by (intros; by apply exec_simple).
    assert (P_pipe (CExec ws)) as Hp by (apply pipe_of_exec; [apply (He []); constructor|done]).
    assert (P_back (CExec ws)) as Hb by by apply back_of_pipe. split_and!; try done. by apply line_of_back.
  - assert (∀ rs, rs_ok rs → P_exec (wrap (CRedir c f mode fd) rs)) as He.
    { intros rs Hrs. destruct Hwf as (Hwf & Hw & Hr). apply (proj1 (IH Hwf) ((f, mode, fd) :: rs)). by constructor. }
    assert (P_pipe (CRedir c f mode fd)) as Hp by (apply pipe_of_exec; [apply (He []); constructor|done]).
    assert (P_back (CRedir c f mode fd)) as Hb by by apply back_of_pipe. split_and!; try done. by apply line_of_back.
  - destruct Hwf as [Hl Hr]. assert (P_pipe (CPipe l r)) as Hp by (apply pipe_pipe; [apply (proj1 (IHl Hl) []); constructor|by apply IHr|done]).
    assert (P_back (CPipe l r)) as Hb by by apply back_of_pipe. assert (P_line (CPipe l r)) as Hli by by apply line_of_back. split_and!; try done. by apply Hblock.
  - destruct Hwf as [Hl Hr]. assert (P_line (CList l r)) as Hli by (apply line_list; [by apply IHl|by apply IHr|done]).
    assert (∀ rs, rs_ok rs → P_exec (wrap (CList l r) rs)) as He by (by apply Hblock).
    assert (P_pipe (CList l r)) as Hp by (apply pipe_of_exec; [apply (He []); constructor|done]). split_and!; try done. by apply back_of_pipe.
  - assert (P_back (CBack c)) as Hb by (apply back_back; by apply IH). assert (P_line (CBack c)) as Hli by by apply line_of_back.
    assert (∀ rs, rs_ok rs → P_exec (wrap (CBack c) rs)) as He by (by apply Hblock). split_and!; try done. apply pipe_of_exec; [apply (He []); constructor|done].
Qed.
End Round.
