(* ===== verification/ShTheorems.v ===== *)
(** * What the shell's parser returns *)

From S2P Require Import Prelude Printf Fs File Sysfile UserSys Ulib Sh ShLex ShParse ShRound.

Section Strings.
Variables (b : list Z) (es : nat).
Hypothesis Hlen : (es < length b)%nat.

(** [b'] is the line with NULs written over some white space and operators. *)
Definition cut (b' : list Z) : Prop := length b' = length b ∧ ∀ i, b' !! i = b !! i ∨ b' !! i = Some 0 ∧ plain (at_ b i) = false.
Definition cut_more (b1 b2 : list Z) : Prop := ∀ i, b1 !! i = Some 0 → b2 !! i = Some 0.

Lemma upto_nul_app w l : forallb (λ x, negb (Z.eqb x 0)) w = true → upto_nul (w ++ 0 :: l) = Some w.
Proof.
  induction w as [|c w IH]; simpl; [done|]. intros [Hc Hw]%andb_prop. apply negb_true_iff, Z.eqb_neq in Hc. rewrite decide_False by done. by rewrite IH.
Qed.

Lemma cut_string b' q e w : cut b' → span b es q e w → word_ok w → b' !! e = Some 0 → cstr_at b' q = Some w.
Proof.
  intros [Hl Hc] (He & Hle & Ht & _) (_ & Hp & Hz) H0. unfold cstr_at.
  assert (drop q b' = w ++ 0 :: drop (S e) b') as ->; [|by apply upto_nul_app].
  assert (∀ i x, w !! i = Some x → b' !! (q + i)%nat = Some x) as Hw.
  { intros i x Hi. assert (b !! (q + i)%nat = Some x) as Hb.
    { rewrite <- Ht in Hi. rewrite lookup_take_lt in Hi by (apply lookup_lt_Some in Hi; rewrite length_take in Hi; lia). by rewrite lookup_drop in Hi. }
    destruct (Hc (q + i)%nat) as [->|[_ Hn]]; [done|]. exfalso. unfold at_ in Hn. rewrite Hb in Hn. simpl in Hn.
    rewrite forallb_forall in Hp. rewrite (Hp x) in Hn; [done|]. apply list_elem_of_In. by eapply list_elem_of_lookup_2. }
  apply list_eq. intros i. rewrite lookup_drop. destruct (decide (i < length w)%nat) as [Hi|Hi].
  - destruct (lookup_lt_is_Some_2 w i Hi) as [x Hx]. rewrite (Hw i x Hx). symmetry. by apply lookup_app_l_Some.
  - rewrite lookup_app_r by lia. destruct (i - length w)%nat as [|k] eqn:Ek; simpl; [rewrite <- H0; f_equal; lia|]. rewrite lookup_drop. f_equal. lia.
Qed.

Lemma cut_insert b' e : cut b' → (e ≤ es)%nat → plain (at_ b e) = false → cut (<[e := 0]> b') ∧ cut_more b' (<[e := 0]> b') ∧ <[e := 0]> b' !! e = Some 0.
Proof.
  intros [Hl Hc] He Hp. split_and!.
  - split; [by rewrite length_insert|]. intros i. destruct (decide (i = e)) as [->|]; [|rewrite list_lookup_insert_ne by done; auto].
    right. split; [|done]. apply list_lookup_insert_eq. lia.
  - intros i Hi. destruct (decide (i = e)) as [->|]; [apply list_lookup_insert_eq; lia|by rewrite list_lookup_insert_ne by done].
  - apply list_lookup_insert_eq. lia.
Qed.

Lemma cut_more_trans b1 b2 b3 : cut_more b1 b2 → cut_more b2 b3 → cut_more b1 b3.
Proof. intros H1 H2 i Hi. auto. Qed.

Lemma nul_args_strings qx ws : ∀ k st, Forall2 (λ q w, span b es q.1 q.2 w) qx ws → Forall word_ok ws → cut (buf st) → (0 < k)%nat →
  ∃ b', nul_args ((Some ∘ fst <$> qx) ++ replicate k None) ((Some ∘ snd <$> qx) ++ replicate k None) st = Ret (tt, mkSh b' (heap st)) ∧ cut b' ∧ cut_more (buf st) b' ∧
    ∀ b2, cut b2 → cut_more b' b2 → args_of b2 ((Some ∘ fst <$> qx) ++ replicate k None) = Some ws.
Proof.
  intros k st Hf. revert st. induction Hf as [|[q e] w qx ws Hsp Hf IH]; intros st Hw Hc Hk.
  - destruct k as [|k]; [lia|]. exists (buf st). split_and!; [by destruct st|done|by intros i|done].
  - apply list.Forall_cons in Hw as [Hw Hws]. simpl in Hsp. pose proof Hsp as (_ & He & _ & Hp). destruct (cut_insert _ e Hc He Hp) as (C1 & C2 & C3).
    destruct (IH (mkSh (<[e := 0]> (buf st)) (heap st)) Hws C1 Hk) as (b' & E & Hc' & Hm & Hargs). exists b'. cbn [heap buf] in *. split_and!.
    + simpl. unfold andthen at 1, set_nul. rewrite decide_True by (destruct Hc; lia). cbn [pbind fst snd]. exact E.
    + done.
    + by eapply cut_more_trans.
    + intros b2 Hc2 Hm2. rewrite fmap_cons. cbn [app args_of compose fst]. rewrite (Hargs b2 Hc2 Hm2), (cut_string b2 q e w) by auto. done.
Qed.

(* nulterminate on the structures of [c] leaves its strings readable *)
Definition reads (c : cmd) : Prop := ∀ fuel p st, wf_cmd c → den b es (heap st) p c → heap_ok es (heap st) → (p < fuel)%nat → cut (buf st) →
  ∃ b', nulterminate fuel p st = Ret (tt, mkSh b' (heap st)) ∧ cut b' ∧ cut_more (buf st) b' ∧
    ∀ b2, cut b2 → cut_more b' b2 → cmd_of fuel (mkSh b2 (heap st)) p = Some c.

Lemma nul_both l r fuel p st l' r' : reads l → reads r → wf_cmd l ∧ wf_cmd r → heap_ok es (heap st) → (l' < p)%nat → (r' < p)%nat → (p < S fuel)%nat →
  cut (buf st) → den b es (heap st) l' l → den b es (heap st) r' r →
  ∃ b', (let! _ := nulterminate fuel l' in nulterminate fuel r') st = Ret (tt, mkSh b' (heap st)) ∧ cut b' ∧ cut_more (buf st) b' ∧
    ∀ b2, cut b2 → cut_more b' b2 → cmd_of fuel (mkSh b2 (heap st)) l' = Some l ∧ cmd_of fuel (mkSh b2 (heap st)) r' = Some r.
Proof.
  intros IHl IHr [Wl Wr] Hh Hl Hr Hp Hc Dl Dr.
  destruct (IHl fuel l' st Wl Dl Hh ltac:(lia) Hc) as (b1 & E1 & C1 & M1 & K1).
  destruct (IHr fuel r' (mkSh b1 (heap st)) Wr Dr Hh ltac:(lia) C1) as (b2 & E2 & C2 & M2 & K2).
  exists b2. unfold andthen. rewrite E1. cbn [pbind fst snd]. split_and!; [exact E2|done|by eapply cut_more_trans|].
  intros b3 C3 M3. split; [apply K1; [done|by eapply cut_more_trans]|by apply K2].
Qed.

Lemma nulterminate_strings c : reads c.
Proof.
  induction c as [ws|c IH f mode fd|l IHl r IHr|l IHl r IHr|c IH]; intros fuel p st Hwf Hd Hh Hp Hc; (destruct fuel as [|fuel]; [lia|]); cbn [nulterminate].
  - destruct Hd as (n & qx & Hn & -> & Hsp), Hwf as [Hw Hmax]. rewrite Hn.
    destruct (nul_args_strings qx ws (MAXARGS - length ws) st Hsp Hw Hc ltac:(lia)) as (b' & E & C & M & K). exists b'. split_and!; [done|done|done|].
    intros b2 C2 M2. cbn [cmd_of heap buf]. rewrite Hn. by rewrite (K b2 C2 M2).
  - destruct Hd as (c' & q & e & Hn & Hsp & Hd), Hwf as (Hwf & Hw & _). rewrite Hn. pose proof (Hh p _ Hn) as [Hlt He]. pose proof Hsp as (_ & _ & _ & Hpl).
    destruct (IH fuel c' st Hwf Hd Hh ltac:(lia) Hc) as (b1 & E1 & C1 & M1 & K1). destruct (cut_insert b1 e C1 He Hpl) as (D1 & D2 & D3).
    exists (<[e := 0]> b1). unfold andthen. rewrite E1. cbn [pbind fst snd]. unfold set_nul. cbn [buf heap]. rewrite decide_True by (destruct C1; lia).
    split_and!; [done|done|by eapply cut_more_trans|]. intros b2 C2 M2. cbn [cmd_of heap buf]. rewrite Hn, (K1 b2 C2) by (by eapply cut_more_trans). simpl.
    by rewrite (cut_string b2 q e f) by auto.
  - destruct Hd as (l' & r' & Hn & Dl & Dr). rewrite Hn. destruct (Hh p _ Hn) as [Hl Hr].
    destruct (nul_both l r fuel p st l' r' IHl IHr Hwf Hh Hl Hr Hp Hc Dl Dr) as (b' & E & C & M & K). exists b'. split_and!; [done|done|done|].
    intros b2 C2 M2. cbn [cmd_of heap]. rewrite Hn. destruct (K b2 C2 M2) as [-> ->]. done.
  - destruct Hd as (l' & r' & Hn & Dl & Dr). rewrite Hn. destruct (Hh p _ Hn) as [Hl Hr].
    destruct (nul_both l r fuel p st l' r' IHl IHr Hwf Hh Hl Hr Hp Hc Dl Dr) as (b' & E & C & M & K). exists b'. split_and!; [done|done|done|].
    intros b2 C2 M2. cbn [cmd_of heap]. rewrite Hn. destruct (K b2 C2 M2) as [-> ->]. done.
  - destruct Hd as (c' & Hn & Hd). rewrite Hn. pose proof (Hh p _ Hn) as Hlt. simpl in Hlt.
    destruct (IH fuel c' st Hwf Hd Hh ltac:(lia) Hc) as (b1 & E1 & C1 & M1 & K1). exists b1. split_and!; [done|done|done|].
    intros b2 C2 M2. cbn [cmd_of heap]. by rewrite Hn, (K1 b2 C2 M2).
Qed.
End Strings.

Lemma pr_no_nul c : ∀ lvl, wf_cmd c → 0 ∉ pr lvl c.
Proof.
  assert (∀ w, word_ok w → 0 ∉ w) as Hword.
  { intros w (_ & _ & Hz) H0. rewrite forallb_forall in Hz. specialize (Hz 0). by rewrite list_elem_of_In in H0; apply Hz in H0. }
  assert (∀ (p : bool) t, 0 ∉ t → 0 ∉ paren p t) as Hparen by (intros [] t Ht; simpl; [set_solver|done]).
  induction c as [ws|c IH f mode fd|l IHl r IHr|l IHl r IHr|c IH]; intros lvl Hwf; simpl in *.
  - destruct Hwf as [Hw _]. induction Hw as [|w ws Hw _ IH]; simpl; [set_solver|]. unfold words_text in *. simpl. pose proof (Hword w Hw). set_solver.
  - destruct Hwf as (Hc & Hf & _). pose proof (Hword f Hf). pose proof (IH 3%nat Hc). unfold redir_text, op_text. repeat case_decide; set_solver.
  - destruct Hwf. apply Hparen. pose proof (IHl 3%nat). pose proof (IHr 2%nat). set_solver.
  - destruct Hwf. apply Hparen. pose proof (IHl 1%nat). pose proof (IHr 0%nat). set_solver.
  - apply Hparen. pose proof (IH 1%nat). set_solver.
Qed.

(** C19 Parsing inverts printing.  Every command whose words contain no white
    space or operator character and whose programs have at most nine arguments
    can be written as a line, with parentheses where the grammar needs them,
    and parsecmd turns that line back into the command: the tree of structures
    it returns, read through the pointers into the line, whose tokens it has
    NUL-terminated in place, is the command, redirections in order. *)
Theorem parse_print (c : cmd) (rest : list Z) : wf_cmd c →
  ∃ p st', parsecmd 0 (mkSh (pr 0 c ++ 0 :: rest) []) = Ret (p, st') ∧ cmd_of (S (length (heap st'))) st' p = Some c.
Proof.
  intros Hwf. set (b := pr 0 c ++ 0 :: rest). set (es := length (pr 0 c)). set (st := mkSh b []).
  assert (cstr_at b 0 = Some (pr 0 c)) as Ec.
  { unfold cstr_at, b. rewrite drop_0. apply upto_nul_app. apply forallb_forall. intros x Hx. apply negb_true_iff, Z.eqb_neq. intros ->.
    apply (pr_no_nul c 0 Hwf). by apply list_elem_of_In. }
  assert (es < length b)%nat as Hlen by (unfold b, es; rewrite length_app; simpl; lia).
  assert (at_ b es = 0) as Hes by (unfold at_, b, es; by rewrite list_lookup_middle).
  assert (up b es 0 = pr 0 c ++ []) as Hu.
  { unfold up, raw. rewrite drop_0, Nat.sub_0_r. unfold b, es. rewrite take_app_length. rewrite <- (app_nil_r (pr 0 c)) at 1. by apply pr_fresh. }
  destruct (proj2 (proj2 (proj2 (parse_print_levels b es Hlen Hes c Hwf))) (4 * es + 4)%nat 0%nat st [] eq_refl) as (p & s' & new & E & Hs' & Hu' & Hd); [lia|lia|done|by split; [|left]|].
  assert (heap_ok es new ∧ (p < length new)%nat) as [Hh Hp].
  { pose proof (proj1 (parse_ends b es Hlen Hes (4 * es + 4) 0 st ltac:(split; [done|lia|done])) ltac:(lia)) as Hg. rewrite E in Hg. by destruct Hg. }
  destruct (peek_spec b es Hlen Hes s' [] ltac:(lia)) as (s2 & Ep & Hs2 & _ & Hr2).
  assert (s2 = es) as ->.
  { destruct (decide (s2 < es)%nat); [|lia]. rewrite (raw_cons b es Hlen s2) in Hr2 by done. by rewrite Hu' in Hr2. }
  destruct (nulterminate_strings b es Hlen c (S (length new)) p (mkSh b new) Hwf Hd Hh ltac:(lia)) as (b' & En & Cb & _ & K).
  { split; [done|]. intros i. by left. }
  exists p, (mkSh b' new). split; [|apply (K b' Cb); by intros i].
  unfold parsecmd. rewrite (andthen_string 0 (pr 0 c)) by done. rewrite Nat.sub_0_r. cbn [Nat.add].
  fold es. unfold andthen at 1. rewrite E. cbn [pbind fst snd]. rewrite andthen_peek. cbn [buf]. rewrite Ep. cbn [snd].
  rewrite decide_False by tauto. unfold andthen at 1. cbn [pbind fst snd heap app st]. unfold andthen at 1. rewrite En. done.
Qed.

Lemma parse_print_witness :
  let c := CList (CBack (CRedir (CPipe (CExec [ustr "cat"; ustr "x"]) (CExec [ustr "wc"])) (ustr "out") (Z.lor O_WRONLY O_CREATE) 1)) (CExec [ustr "ls"]) in
  ∃ p st', parsecmd 0 (mkSh (ustr "( cat x | wc ) >> out & ; ls " ++ [0]) []) = Ret (p, st') ∧ cmd_of (S (length (heap st'))) st' p = Some c.
Proof.
  intros c. apply (parse_print c []). unfold c. cbn [wf_cmd]. repeat split; try (apply (bool_decide_unpack _); vm_compute; exact I); try reflexivity; try discriminate.
Defined.
