(* ===== verification/ShRun.v ===== *)
(** * Running commands (runcmd and main of user/sh.c)

    runcmd is a tree of system calls over the structures that the parser
    built.  [interp] runs such a tree on descriptor tables: fork runs the child
    and then the parent, both from the table at the fork; open, dup and pipe
    take the lowest free descriptors; a successful exec ends the process and
    records the program, its arguments and its descriptors. *)

From S2P Require Import Prelude Params Printf Fs File Sysfile UserSys Ulib Sh.

(** ** runcmd *)

Definition upanic {A} (s : list Z) : prog A := fprintf 2 s_nl [AStr (Some s)] ;~ exit 1.

Definition fork1 : prog Z :=
  pid <~ call Sfork ;
  if decide (pid = -1) then upanic (ustr "fork") else Ret pid.

Definition exec_failed : list Z := ustr "exec %s failed" ++ [10].
Definition open_failed : list Z := ustr "open %s failed" ++ [10].

(* never returns; a null command cannot occur *)
Fixpoint runcmd (fuel : nat) (st : shst) (p : nat) : prog Empty_set :=
  match fuel with
  | O => Fuel
  | S fuel =>
      match heap st !! p with
      | Some (Nexec argv _) =>
          match args_of (buf st) argv with
          | None => Crash
          | Some [] => exit 1
          | Some (a0 :: args) =>
              call (Sexec a0 (a0 :: args)) ;~
              fprintf 2 exec_failed [AStr (Some a0)] ;~
              exit 0
          end
      | Some (Nredir c file _ mode fd) =>
          call (Sclose fd) ;~
          path <~ must (cstr_at (buf st) file) ;
          r <~ call (Sopen path mode) ;
          if decide (r < 0) then
            fprintf 2 open_failed [AStr (Some path)] ;~
            exit 1
          else runcmd fuel st c
      | Some (Nlist l r) =>
          pid <~ fork1 ;
          if decide (pid = 0) then runcmd fuel st l else
          call Swait ;~
          runcmd fuel st r
      | Some (Npipe l r) =>
          pp <~ call Spipe ;
          let '(e, p0, p1) := pp in
          if decide (e < 0) then upanic (ustr "pipe") else
          pid <~ fork1 ;
          if decide (pid = 0) then
            call (Sclose 1) ;~
            call (Sdup p1) ;~
            call (Sclose p0) ;~
            call (Sclose p1) ;~
            runcmd fuel st l
          else
          pid <~ fork1 ;
          if decide (pid = 0) then
            call (Sclose 0) ;~
            call (Sdup p0) ;~
            call (Sclose p0) ;~
            call (Sclose p1) ;~
            runcmd fuel st r
          else
          call (Sclose p0) ;~
          call (Sclose p1) ;~
          call Swait ;~
          call Swait ;~
          exit 0
      | Some (Nback c) =>
          pid <~ fork1 ;
          if decide (pid = 0) then runcmd fuel st c else
          exit 0
      | None => Crash
      end
  end.

(** ** main *)

Definition nbuf : Z := 100.

(* the buffer after gets, or None at end of file *)
Definition getcmd : prog (option (list Z)) :=
  call (Swrite 2 (ustr "$ ")) ;~
  line <~ gets nbuf ;
  let b := line ++ replicate (Z.to_nat nbuf - length line) 0 in
  c <~ must (b !! 0%nat) ;
  if decide (c = 0) then Ret None else Ret (Some b).

Definition console : list Z := ustr "console".
(* while((fd = open("console", O_RDWR)) >= 0) *)
Fixpoint open_console (fuel : nat) : prog unit :=
  match fuel with
  | O => Fuel
  | S fuel =>
      fd <~ call (Sopen console O_RDWR) ;
      if decide (0 ≤ fd) then
        if decide (3 ≤ fd) then call (Sclose fd) ;~ Ret tt else open_console fuel
      else Ret tt
  end.

Definition cannot_cd : list Z := ustr "cannot cd %s" ++ [10].

(* cmd[0] == 'c' && cmd[1] == 'd' && cmd[2] == ' ' *)
Definition is_cd (b : list Z) (cmd : nat) : option bool :=
  c ← b !! cmd;
  if decide (c ≠ 99) then Some false else
  c ← b !! (cmd + 1)%nat;
  if decide (c ≠ 100) then Some false else
  c ← b !! (cmd + 2)%nat;
  Some (bool_decide (c = 32)).

(* one command line *)
Definition do_line (b : list Z) : prog unit :=
  cmd <~ must (advance (λ c, bool_decide (c = 32 ∨ c = 9)) b (length b) 0) ;
  c <~ must (b !! cmd) ;
  if decide (c = 10) then Ret tt else
  cd <~ must (is_cd b cmd) ;
  if cd : bool then
    str <~ must (cstr_at b cmd) ;
    let b := <[(cmd + length str - 1)%nat := 0]> b in
    path <~ must (cstr_at b (cmd + 3)) ;
    r <~ call (Schdir path) ;
    if decide (r < 0) then fprintf 2 cannot_cd [AStr (Some path)] else Ret tt
  else
    pid <~ fork1 ;
    (if decide (pid = 0) then
       r <~ parsecmd cmd (mkSh b []) ;
       pbind (runcmd (S (length (heap r.2))) r.2 r.1) (λ x, match x with end)
     else Ret tt) ;~
    call Swait ;~
    Ret tt.

Fixpoint main_loop (fuel : nat) : prog unit :=
  match fuel with
  | O => Fuel
  | S fuel =>
      l <~ getcmd ;
      match l with
      | None => exit 0
      | Some b => do_line b ;~ main_loop fuel
      end
  end.
Definition main (fuel : nat) : prog unit := open_console fuel ;~ main_loop fuel.

(** ** Descriptor tables *)

Inductive obj : Type :=
| Oinherited (k : nat)
| Ofile (path : list Z) (mode : Z)
| OpipeR (n : nat)
| OpipeW (n : nat).
Notation fdt := (list (option obj)).

Fixpoint lowest (t : fdt) : option nat :=
  match t with [] => None | None :: _ => Some 0%nat | Some _ :: t => S <$> lowest t end.
Definition fd_at (t : fdt) (fd : Z) : option obj := if decide (0 ≤ fd) then mjoin (t !! Z.to_nat fd) else None.

Section Interp.
Variable opens : list Z → Z → bool.
Variable execs : list Z → bool.

(* a process starts a program *)
Record launch_ev : Type := mkLaunch { l_argv : list (list Z); l_fds : fdt }.

Fixpoint interp {A} (m : prog A) (t : fdt) (n : nat) : list launch_ev * nat :=
  match m with
  | Ret _ => ([], n)
  | Crash => ([], n)
  | Fuel => ([], n)
  | @Call _ R c k =>
      match c in sys R return (R → prog A) → list launch_ev * nat with
      | Sfork => λ k, let '(e1, n1) := interp (k 0) t n in let '(e2, n2) := interp (k 1) t n1 in (e1 ++ e2, n2)
      | Sexit _ => λ _, ([], n)
      | Swait => λ k, interp (k (1, 0)) t n
      | Spipe => λ k,
          match lowest t with
          | None => interp (k (-1, 0, 0)) t n
          | Some i =>
              let t1 := <[i := Some (OpipeR n)]> t in
              match lowest t1 with
              | None => interp (k (-1, 0, 0)) t n
              | Some j => interp (k (0, Z.of_nat i, Z.of_nat j)) (<[j := Some (OpipeW n)]> t1) (S n)
              end
          end
      | Swrite _ bs => λ k, interp (k (Z.of_nat (length bs))) t n
      | Sread _ _ => λ k, interp (k (0, [])) t n
      | Sclose fd => λ k,
          match fd_at t fd with
          | Some _ => interp (k 0) (<[Z.to_nat fd := None]> t) n
          | None => interp (k (-1)) t n
          end
      | Skill _ => λ k, interp (k (-1)) t n
      | Sexec path argv => λ k, if execs path then ([mkLaunch argv t], n) else interp (k (-1)) t n
      | Sopen path mode => λ k,
          if opens path mode then
            match lowest t with
            | Some i => interp (k (Z.of_nat i)) (<[i := Some (Ofile path mode)]> t) n
            | None => interp (k (-1)) t n
            end
          else interp (k (-1)) t n
      | Smknod _ _ _ => λ k, interp (k (-1)) t n
      | Sunlink _ => λ k, interp (k (-1)) t n
      | Sfstat _ => λ k, interp (k (-1, [])) t n
      | Slink _ _ => λ k, interp (k (-1)) t n
      | Smkdir _ => λ k, interp (k (-1)) t n
      | Schdir _ => λ k, interp (k (-1)) t n
      | Sdup fd => λ k,
          match fd_at t fd, lowest t with
          | Some o, Some i => interp (k (Z.of_nat i)) (<[i := Some o]> t) n
          | _, _ => interp (k (-1)) t n
          end
      | Sgetpid => λ k, interp (k 1) t n
      | Ssbrk _ _ => λ k, interp (k (-1)) t n
      | Spause _ => λ k, interp (k 0) t n
      | Suptime => λ k, interp (k 0) t n
      end k
  end.

(** What a command means: the programs it starts, each with its arguments and
    its descriptors.  [n] numbers the pipes. *)
Fixpoint launches (c : cmd) (t : fdt) (n : nat) : list launch_ev * nat :=
  match c with
  | CExec [] => ([], n)
  | CExec ws => (if execs (default [] (head ws)) then [mkLaunch ws t] else [], n)
  | CRedir c f mode fd => if opens f mode then launches c (<[Z.to_nat fd := Some (Ofile f mode)]> t) n else ([], n)
  | CPipe l r =>
      let '(e1, n1) := launches l (<[1%nat := Some (OpipeW n)]> t) (S n) in
      let '(e2, n2) := launches r (<[0%nat := Some (OpipeR n)]> t) n1 in
      (e1 ++ e2, n2)
  | CList l r =>
      let '(e1, n1) := launches l t n in
      let '(e2, n2) := launches r t n1 in
      (e1 ++ e2, n2)
  | CBack c => launches c t n
  end.
End Interp.
