(* ===== verification/ShRunTheorems.v ===== *)
(** * The shell connects programs as the command says *)

From S2P Require Import Prelude Params Printf Fs File Sysfile UserSys Ulib Sh ShLex ShParse ShRound ShRun.

Lemma lowest_Some r i : lowest r = Some i → r !! i = Some None.
Proof.
  revert i. induction r as [|[o|] r IH]; intros i; simpl; [done| |by intros [= <-]].
  destruct (lowest r) as [k|]; [|done]. intros [= <-]. simpl. auto.
Qed.
Lemma lowest_ext r i x y : lowest (<[i := Some x]> r) = lowest (<[i := Some y]> r).
Proof. revert i. induction r as [|[o|] r IH]; intros [|i]; try done. change (S <$> lowest (<[i := Some x]> r) = S <$> lowest (<[i := Some y]> r)). by rewrite (IH i). Qed.

(** Standard input and output are open and two descriptors are free. *)
Definition std (t : fdt) : Prop :=
  ∃ o0 o1 r i j, t = Some o0 :: Some o1 :: r ∧ lowest r = Some i ∧ lowest (<[i := Some (OpipeR 0)]> r) = Some j.

Lemma std_set t fd o : std t → fd = 0%nat ∨ fd = 1%nat → std (<[fd := Some o]> t).
Proof. intros (o0 & o1 & r & i & j & -> & Hi & Hj) [-> | ->]; simpl; [exists o, o1|exists o0, o]; by exists r, i, j. Qed.

Lemma std_swap a b c d r : std (Some a :: Some b :: r) → std (Some c :: Some d :: r).
Proof. intros (o0 & o1 & r' & i & j & [= _ _ ->] & Hi & Hj). by exists c, d, r', i, j. Qed.

Section Run.
Variable opens : list Z → Z → bool.
Variable execs : list Z → bool.
Notation interp := (interp opens execs).
Notation launches := (launches opens execs).

Lemma interp_put_bytes {A} fd bs (f : unit → prog A) t n : interp (pbind (put_bytes fd bs) f) t n = interp (f tt) t n.
Proof. induction bs as [|b bs IH]; simpl; auto. Qed.

Lemma interp_message {A} fd fmt args code t n : interp (pbind (fprintf fd fmt args) (λ _, @exit A code)) t n = ([], n).
Proof. unfold fprintf. destruct (User.vprintf fmt args); [by rewrite interp_put_bytes|done]. Qed.

Lemma interp_fork {A} (f : Z → prog A) t n :
  interp (pbind fork1 f) t n = (let '(e1, n1) := interp (f 0) t n in let '(e2, n2) := interp (f 1) t n1 in (e1 ++ e2, n2)).
Proof. done. Qed.

Lemma interp_close {A} fd o (f : Z → prog A) t n : fd_at t fd = Some o → interp (pbind (call (Sclose fd)) f) t n = interp (f 0) (<[Z.to_nat fd := None]> t) n.
Proof. intros E. simpl. by rewrite E. Qed.

Lemma interp_dup {A} fd o i (f : Z → prog A) t n : fd_at t fd = Some o → lowest t = Some i →
  interp (pbind (call (Sdup fd)) f) t n = interp (f (Z.of_nat i)) (<[i := Some o]> t) n.
Proof. intros E1 E2. simpl. by rewrite E1, E2. Qed.

Lemma interp_exec {A} path argv (f : Z → prog A) t n :
  interp (pbind (call (Sexec path argv)) f) t n = if execs path then ([mkLaunch argv t], n) else interp (f (-1)) t n.
Proof. done. Qed.

Lemma interp_open {A} path mode i (f : Z → prog A) t n : lowest t = Some i →
  interp (pbind (call (Sopen path mode)) f) t n =
  if opens path mode then interp (f (Z.of_nat i)) (<[i := Some (Ofile path mode)]> t) n else interp (f (-1)) t n.
Proof. intros E. simpl. by rewrite E. Qed.

Lemma interp_wait {A} (f : Z * Z → prog A) t n : interp (pbind (call Swait) f) t n = interp (f (1, 0)) t n.
Proof. done. Qed.

(* the descriptors of a pipe, and how a child gets rid of them *)
Lemma pipe_fds o0 o1 r i j n : lowest r = Some i → lowest (<[i := Some (OpipeR 0)]> r) = Some j →
  let t2 := <[S (S j) := Some (OpipeW n)]> (<[S (S i) := Some (OpipeR n)]> (Some o0 :: Some o1 :: r)) in
  (∀ A (f : Z * Z * Z → prog A), interp (pbind (call Spipe) f) (Some o0 :: Some o1 :: r) n = interp (f (0, Z.of_nat (S (S i)), Z.of_nat (S (S j)))) t2 (S n)) ∧
  (∀ A (f : Z → prog A) x0 x1 r', r' = drop 2 t2 → ∀ m,
    interp (call (Sclose (Z.of_nat (S (S i)))) ;~ pbind (call (Sclose (Z.of_nat (S (S j))))) f) (x0 :: x1 :: r') m = interp (f 0) (x0 :: x1 :: r) m) ∧
  fd_at t2 (Z.of_nat (S (S i))) = Some (OpipeR n) ∧ fd_at t2 (Z.of_nat (S (S j))) = Some (OpipeW n).
Proof.
  intros Hi Hj t2. pose proof (lowest_Some _ _ Hi) as Li. pose proof (lowest_Some _ _ Hj) as Lj.
  assert (i < length r)%nat as Hil by (by eapply lookup_lt_Some). assert (j < length r)%nat as Hjl by (apply lookup_lt_Some in Lj; by rewrite length_insert in Lj).
  assert (i ≠ j) as Hij by (intros ->; by rewrite list_lookup_insert_eq in Lj). rewrite list_lookup_insert_ne in Lj by done.
  assert (t2 = Some o0 :: Some o1 :: <[j := Some (OpipeW n)]> (<[i := Some (OpipeR n)]> r)) as Et by done.
  assert (∀ x0 x1 r' k, fd_at (x0 :: x1 :: r') (Z.of_nat (S (S k))) = mjoin (r' !! k)) as Hat.
  { intros. unfold fd_at. rewrite decide_True by lia. by rewrite Nat2Z.id. }
  assert (∀ x0 x1 (r' : list (option obj)) k v, <[S (S k) := v]> (x0 :: x1 :: r') = x0 :: x1 :: <[k := v]> r') as Hins by done.
  split_and!.
  - intros A f. simpl. rewrite Hi. simpl. rewrite (lowest_ext r i (OpipeR n) (OpipeR 0)), Hj. done.
  - intros A f x0 x1 r' -> m. rewrite Et. cbn [drop]. rewrite drop_0.
    erewrite interp_close by (rewrite Hat, list_lookup_insert_ne, list_lookup_insert_eq by done; done).
    rewrite Nat2Z.id, Hins.
    erewrite interp_close by (rewrite Hat, list_lookup_insert_ne, list_lookup_insert_eq by (done || rewrite ?length_insert; done); done).
    rewrite Nat2Z.id, Hins. f_equal. f_equal. f_equal.
    rewrite (list_insert_insert_ne _ i j) by done. rewrite !list_insert_insert_eq.
    rewrite (list_insert_id r i) by done. by apply list_insert_id.
  - rewrite Et, Hat, list_lookup_insert_ne, list_lookup_insert_eq by done. done.
  - rewrite Et, Hat, list_lookup_insert_eq by (by rewrite length_insert). done.
Qed.

(* the three processes of a pipeline, after the pipe *)
Lemma pipe_processes {A} o0 o1 r i j n m (k : prog A) : lowest r = Some i → lowest (<[i := Some (OpipeR 0)]> r) = Some j →
  let t2 := <[S (S j) := Some (OpipeW n)]> (<[S (S i) := Some (OpipeR n)]> (Some o0 :: Some o1 :: r)) in
  let p0 := Z.of_nat (S (S i)) in let p1 := Z.of_nat (S (S j)) in
  interp (call (Sclose 1) ;~ call (Sdup p1) ;~ call (Sclose p0) ;~ call (Sclose p1) ;~ k) t2 m = interp k (Some o0 :: Some (OpipeW n) :: r) m ∧
  interp (call (Sclose 0) ;~ call (Sdup p0) ;~ call (Sclose p0) ;~ call (Sclose p1) ;~ k) t2 m = interp k (Some (OpipeR n) :: Some o1 :: r) m ∧
  interp (call (Sclose p0) ;~ call (Sclose p1) ;~ k) t2 m = interp k (Some o0 :: Some o1 :: r) m.
Proof.
  intros Hi Hj t2 p0 p1. destruct (pipe_fds o0 o1 r i j n Hi Hj) as (_ & Eclose & Er & Ew). fold t2 in Eclose, Er, Ew.
  assert (t2 = Some o0 :: Some o1 :: drop 2 t2) as Et by done.
  assert (∀ x0 x1 k, fd_at (x0 :: x1 :: drop 2 t2) (Z.of_nat (S (S k))) = fd_at t2 (Z.of_nat (S (S k)))) as Hat.
  { intros. rewrite Et at 2. unfold fd_at. rewrite !decide_True by lia. by rewrite !Nat2Z.id. }
  split_and!; rewrite Et at 1.
  - erewrite interp_close by done. change (<[Z.to_nat 1 := None]> _) with (Some o0 :: None :: drop 2 t2).
    rewrite (interp_dup _ (OpipeW n) 1) by (unfold p1; rewrite ?Hat; done).
    change (<[1%nat := Some (OpipeW n)]> (Some o0 :: None :: drop 2 t2)) with (Some o0 :: Some (OpipeW n) :: drop 2 t2). by apply Eclose.
  - erewrite interp_close by done. change (<[Z.to_nat 0 := None]> _) with (None :: Some o1 :: drop 2 t2).
    rewrite (interp_dup _ (OpipeR n) 0) by (unfold p0; rewrite ?Hat; done).
    change (<[0%nat := Some (OpipeR n)]> (None :: Some o1 :: drop 2 t2)) with (Some (OpipeR n) :: Some o1 :: drop 2 t2). by apply Eclose.
  - by apply Eclose.
Qed.

(** The redirections of a command are of standard input or output. *)
Fixpoint redirs_std (c : cmd) : Prop :=
  match c with
  | CExec _ => True
  | CRedir c _ _ fd => (fd = 0 ∨ fd = 1) ∧ redirs_std c
  | CPipe l r | CList l r => redirs_std l ∧ redirs_std r
  | CBack c => redirs_std c
  end.

Lemma cmd_of_inv fuel st p c : cmd_of (S fuel) st p = Some c →
  match c with
  | CExec ws => ∃ argv eargv, heap st !! p = Some (Nexec argv eargv) ∧ args_of (buf st) argv = Some ws
  | CRedir c f mode fd => ∃ c' q e, heap st !! p = Some (Nredir c' q e mode fd) ∧ cstr_at (buf st) q = Some f ∧ cmd_of fuel st c' = Some c
  | CPipe l r => ∃ l' r', heap st !! p = Some (Npipe l' r') ∧ cmd_of fuel st l' = Some l ∧ cmd_of fuel st r' = Some r
  | CList l r => ∃ l' r', heap st !! p = Some (Nlist l' r') ∧ cmd_of fuel st l' = Some l ∧ cmd_of fuel st r' = Some r
  | CBack c => ∃ c', heap st !! p = Some (Nback c') ∧ cmd_of fuel st c' = Some c
  end.
Proof.
  cbn [cmd_of]. destruct (heap st !! p) as [[argv eargv|c' q e mode fd|l r|l r|c']|]; [| | | | |done].
  - intros (ws & E & ->)%fmap_Some. eauto.
  - intros (c0 & E & (f & Ef & [= <-])%bind_Some)%bind_Some. eauto 6.
  - intros (l0 & El & (r0 & Er & [= <-])%bind_Some)%bind_Some. eauto.
  - intros (l0 & El & (r0 & Er & [= <-])%bind_Some)%bind_Some. eauto.
  - intros (c0 & E & ->)%fmap_Some. eauto.
Qed.

Lemma runcmd_launches c : ∀ fuel st p t n, cmd_of fuel st p = Some c → redirs_std c → std t →
  interp (runcmd fuel st p) t n = launches c t n.
Proof.
  induction c as [ws|c IH f mode fd|l IHl r IHr|l IHl r IHr|c IH]; intros fuel st p t n Hc Hr Ht; (destruct fuel as [|fuel]; [done|]);
    apply cmd_of_inv in Hc.
  - destruct Hc as (argv & eargv & En & Ea). cbn [runcmd]. rewrite En, Ea. destruct ws as [|a0 args]; [done|]. rewrite interp_exec. change (launches _ t n) with (if execs a0 then [mkLaunch (a0 :: args) t] else [], n). destruct (execs a0); [done|]. apply interp_message.
  - destruct Hc as (c' & file & e & En & Ef & Hc). cbn [runcmd]. rewrite En, Ef. cbn [must]. destruct Hr as [Hfd Hr].
    destruct Ht as (o0 & o1 & r & i & j & -> & Hi & Hj).
    assert (interp (call (Sclose fd) ;~ path <~ Ret f ; r0 <~ call (Sopen path mode) ; if decide (r0 < 0) then
      fprintf 2 open_failed [AStr (Some path)] ;~ exit 1 else runcmd fuel st c') (Some o0 :: Some o1 :: r) n =
      if opens f mode then interp (runcmd fuel st c') (<[Z.to_nat fd := Some (Ofile f mode)]> (Some o0 :: Some o1 :: r)) n else ([], n)) as ->.
    { destruct Hfd as [-> | ->]; erewrite interp_close by done; cbn [pbind]; (erewrite interp_open by done); (destruct (opens _ _); [done|apply interp_message]). }
    cbn [ShRun.launches]. destruct (opens _ _); [|done]. apply IH; [done|done|]. apply std_set; [by exists o0, o1, r, i, j|]. destruct Hfd as [-> | ->]; [by left|by right].
  - destruct Hc as (l' & r' & En & Cl & Cr). cbn [runcmd]. rewrite En. destruct Hr as [Hl Hr]. pose proof Ht as (o0 & o1 & r0 & i & j & -> & Hi & Hj).
    destruct (pipe_fds o0 o1 r0 i j n Hi Hj) as (Epipe & _). rewrite Epipe. rewrite decide_False by lia. rewrite interp_fork. rewrite decide_True by done.
    rewrite (proj1 (pipe_processes o0 o1 r0 i j n (S n) (runcmd fuel st l') Hi Hj)), IHl by (done || by eapply std_swap).
    cbn [ShRun.launches]. change (<[1%nat := Some (OpipeW n)]> (Some o0 :: Some o1 :: r0)) with (Some o0 :: Some (OpipeW n) :: r0).
    destruct (launches l _ (S n)) as [e1 n1]. rewrite decide_False by done. rewrite interp_fork. rewrite decide_True by done.
    rewrite (proj1 (proj2 (pipe_processes o0 o1 r0 i j n n1 (runcmd fuel st r') Hi Hj))), IHr by (done || by eapply std_swap).
    change (<[0%nat := Some (OpipeR n)]> (Some o0 :: Some o1 :: r0)) with (Some (OpipeR n) :: Some o1 :: r0).
    destruct (launches r _ n1) as [e2 n2]. rewrite decide_False by done. rewrite (proj2 (proj2 (pipe_processes o0 o1 r0 i j n n2 _ Hi Hj))).
    rewrite !interp_wait. cbn. by rewrite app_nil_r.
  - destruct Hc as (l' & r' & En & Cl & Cr). cbn [runcmd]. rewrite En. destruct Hr as [Hl Hr]. rewrite interp_fork. rewrite decide_True by done. rewrite (IHl fuel st l') by done. simpl. destruct (launches l t n) as [e1 n1]. by rewrite (IHr fuel st r') by done.
  - destruct Hc as (c' & En & Hc). cbn [runcmd]. rewrite En. rewrite interp_fork. rewrite decide_True by done. rewrite (IH fuel st c') by done. simpl. destruct (launches c t n) as [e1 n1]. by rewrite app_nil_r.
Qed.
End Run.

(** ** The theorem *)

(** C21 The shell connects programs as the command line says.  From a process
    whose descriptors 0 and 1 are open and with room for a pipe, runcmd starts
    exactly the programs of the command, each with its own arguments and with
    exactly the descriptors it should have: a redirected program has the file
    as 0 or 1, the programs of a pipeline have its two ends as 1 and 0, and no
    program holds another end of any pipe, so that readers see end of file.
    A failed open ends that command only. *)
Theorem runcmd_plumbing (opens : list Z → Z → bool) (execs : list Z → bool) (c : cmd) (fuel : nat) (st : shst) (p : nat) (t : fdt) (n : nat) :
  cmd_of fuel st p = Some c → redirs_std c → std t → interp opens execs (runcmd fuel st p) t n = launches opens execs c t n.
Proof. apply runcmd_launches. Qed.

Definition ex_fds : fdt := [Some (Oinherited 0); Some (Oinherited 1); Some (Oinherited 2)] ++ replicate 13 None.
Definition ex_line : list Z := ustr "cat <in | wc >out".

Lemma runcmd_plumbing_witness : ∃ p st, parsecmd 0 (mkSh (ex_line ++ [0]) []) = Ret (p, st) ∧
  interp (λ _ _, true) (λ _, true) (runcmd 10 st p) ex_fds 0 =
  ([mkLaunch [ustr "cat"] (<[0%nat := Some (Ofile (ustr "in") O_RDONLY)]> (<[1%nat := Some (OpipeW 0)]> ex_fds));
    mkLaunch [ustr "wc"] (<[1%nat := Some (Ofile (ustr "out") (Z.lor (Z.lor O_WRONLY O_CREATE) O_TRUNC))]> (<[0%nat := Some (OpipeR 0)]> ex_fds))], 1%nat).
Proof.
  eexists _, _. split; [vm_compute; reflexivity|]. rewrite (runcmd_plumbing (λ _ _, true) (λ _, true) (CPipe (CRedir (CExec [ustr "cat"]) (ustr "in") O_RDONLY 0)
    (CRedir (CExec [ustr "wc"]) (ustr "out") (Z.lor (Z.lor O_WRONLY O_CREATE) O_TRUNC) 1)));
    [vm_compute; reflexivity|vm_compute; reflexivity|repeat split; [left|right]; reflexivity|].
  exists (Oinherited 0), (Oinherited 1), (Some (Oinherited 2) :: replicate 13 None), 1%nat, 2%nat. split; [reflexivity|]. split; reflexivity.
Defined.
