(* ===== verification/Umalloc.v ===== *)
(** * The user memory allocator (user/umalloc.c)

    Headers are 16 bytes of the process's memory: the address of the next free
    block and, at offset 8, the number of units of 16 bytes.  [base] is the
    address of the static header that starts the list; freep = 0 before the
    first call. *)

From S2P Require Import Prelude CString Spinlock ProcDefs Memory Printf UserSys Ulib.

Definition HDR : Z := 16.
Definition hptr (m : mem) (p : Z) : Z := load64 m p.
Definition hsize (m : mem) (p : Z) : Z := load32 m (p + 8).
Definition set_hptr (p x : Z) (m : mem) : mem := store64 m p x.
Definition set_hsize (p x : Z) (m : mem) : mem := store32 m (p + 8) (u32 x).

Record ust : Type := mkUst { umem : mem; freep : Z }.

Section Malloc.
Variable base : Z.

(* the search of free: the block after which bp goes *)
Fixpoint free_find (fuel : nat) (m : mem) (bp p : Z) : option Z :=
  match fuel with
  | O => None
  | S fuel =>
      if decide (p < bp ∧ bp < hptr m p) then Some p
      else if decide (hptr m p ≤ p ∧ (p < bp ∨ bp < hptr m p)) then Some p
      else free_find fuel m bp (hptr m p)
  end.

Definition free_link (bp p : Z) (m : mem) : mem :=
  let m :=
    if decide (bp + HDR * hsize m bp = hptr m p)
    then let nxt := hptr m p in
         let m := set_hsize bp (hsize m bp + hsize m nxt) m in
         set_hptr bp (hptr m nxt) m
    else set_hptr bp (hptr m p) m in
  if decide (p + HDR * hsize m p = bp)
  then let m := set_hsize p (hsize m p + hsize m bp) m in
       set_hptr p (hptr m bp) m
  else set_hptr p bp m.

Definition free (fuel : nat) (ap : Z) (st : ust) : prog ust :=
  let bp := ap - HDR in
  match free_find fuel (umem st) bp (freep st) with
  | None => Fuel
  | Some p => Ret (mkUst (free_link bp p (umem st)) p)
  end.

(* 0, or freep *)
Definition morecore (fuel : nat) (nu : Z) (st : ust) : prog (Z * ust) :=
  let nu := if decide (nu < 4096) then 4096 else nu in
  p <~ sbrk (i32 (nu * HDR)) ;
  if decide (u64 p = 2 ^ 64 - 1) then Ret (0, st) else
  let st := mkUst (set_hsize p nu (umem st)) (freep st) in
  st <~ free fuel (p + HDR) st ;
  Ret (freep st, st).

(* takes the block p, or its end *)
Definition carve (nunits prevp p : Z) (st : ust) : Z * ust :=
  let m := umem st in
  if decide (hsize m p = nunits) then
    (p + HDR, mkUst (set_hptr prevp (hptr m p) m) prevp)
  else
    let m := set_hsize p (hsize m p - nunits) m in
    let p := p + HDR * hsize m p in
    let m := set_hsize p nunits m in
    (p + HDR, mkUst m prevp).

Fixpoint malloc_loop (fuel : nat) (nunits prevp p : Z) (st : ust) : prog (Z * ust) :=
  match fuel with
  | O => Fuel
  | S fuel =>
      let m := umem st in
      if decide (nunits ≤ hsize m p) then Ret (carve nunits prevp p st)
      else if decide (p = freep st) then
        r <~ morecore fuel nunits st ;
        let '(p, st) := r in
        if decide (p = 0) then Ret (0, st) else
        malloc_loop fuel nunits p (hptr (umem st) p) st
      else malloc_loop fuel nunits p (hptr m p) st
  end.

Definition nunits_of (nbytes : Z) : Z := u32 ((nbytes + HDR - 1) / HDR + 1).

Definition malloc (fuel : nat) (nbytes : Z) (st : ust) : prog (Z * ust) :=
  let nunits := nunits_of nbytes in
  let st := if decide (freep st = 0) then mkUst (set_hsize base 0 (set_hptr base base (umem st))) base else st in
  let prevp := freep st in
  malloc_loop fuel nunits prevp (hptr (umem st) prevp) st.

End Malloc.
