(* ===== verification/UmallocSpec.v ===== *)
(** * The free list of the user allocator

    A free list is the static header [base] and the free blocks in address
    order, closed into a circle; blocks never touch each other.  The lemmas
    relate the loops of umalloc.c to operations on that list. *)

From S2P Require Import Prelude CString Spinlock ProcDefs Memory Printf UserSys Ulib Umalloc.

(** ** Headers *)

Definition apart (p q : Z) : Prop := p + 16 ≤ q ∨ q + 16 ≤ p.
Lemma apart_sym p q : apart p q → apart q p.
Proof. unfold apart. lia. Qed.

Lemma hptr_set_eq p x m : 0 ≤ x < 2 ^ 64 → hptr (set_hptr p x m) p = x.
Proof. intros. by apply load_store64. Qed.
Lemma hptr_set_ne p q x m : apart p q → hptr (set_hptr p x m) q = hptr m q.
Proof. intros H. apply load_store64_ne. unfold apart in H. lia. Qed.
Lemma hsize_set_eq p x m : 0 ≤ x < 2 ^ 32 → hsize (set_hsize p x m) p = x.
Proof. intros. unfold hsize, set_hsize, u32. rewrite wrap_small by done. by apply load_store32. Qed.
Lemma hsize_set_ne p q x m : apart p q → hsize (set_hsize p x m) q = hsize m q.
Proof. intros H. apply load_store32_ne. unfold apart in H. lia. Qed.
Lemma hptr_size p q x m : p = q ∨ apart p q → hptr (set_hsize p x m) q = hptr m q.
Proof. intros H. apply load64_ext. intros y Hy. apply store32_out. unfold apart in H. lia. Qed.
Lemma hsize_ptr p q x m : p = q ∨ apart p q → hsize (set_hptr p x m) q = hsize m q.
Proof. intros H. apply load32_ext. intros y Hy. apply store64_out. unfold apart in H. lia. Qed.

(** ** Chains of blocks *)

Notation block := (Z * Z)%type (only parsing).
Definition first (l : list block) (z : Z) : Z := match l with [] => z | b :: _ => b.1 end.

Fixpoint chain (m : mem) (l : list block) (z : Z) : Prop :=
  match l with [] => True | b :: l => hptr m b.1 = first l z ∧ hsize m b.1 = b.2 ∧ chain m l z end.

Lemma ublocks_app m l1 l2 z : chain m (l1 ++ l2) z ↔ chain m l1 (first l2 z) ∧ chain m l2 z.
Proof.
  induction l1 as [|b l1 IH]; simpl; [tauto|]. rewrite IH. assert (first (l1 ++ l2) z = first l1 (first l2 z)) as -> by by destruct l1. tauto.
Qed.

Lemma chain_frame m m' l z : (∀ b, b ∈ l → hptr m' b.1 = hptr m b.1 ∧ hsize m' b.1 = hsize m b.1) → chain m l z → chain m' l z.
Proof.
  induction l as [|b l IH]; simpl; [done|]. intros Hf (Hp & Hs & Hc). destruct (Hf b) as [-> ->]; [by left|]. split_and!; try done. apply IH; [|done].
  intros b' Hb'. apply Hf. by right.
Qed.

(** In address order, with room for a header and no two adjacent. *)
Fixpoint spaced (l : list block) : Prop :=
  match l with
  | b :: (b' :: _) as l' => b.1 + HDR * b.2 < b'.1 ∧ b.1 + HDR ≤ b'.1 ∧ 0 ≤ b.2 ∧ spaced l'
  | [b] => 0 ≤ b.2
  | [] => True
  end.

Lemma spaced_tail b l : spaced (b :: l) → spaced l.
Proof. destruct l; simpl; tauto. Qed.
Lemma spaced_nonneg b l : spaced (b :: l) → 0 ≤ b.2.
Proof. destruct l; simpl; tauto. Qed.
Lemma spaced_lt b l b' : spaced (b :: l) → b' ∈ l → b.1 + HDR * b.2 < b'.1 ∧ b.1 + HDR ≤ b'.1.
Proof.
  revert b. induction l as [|c l IH]; intros b Hs Hb; [by apply elem_of_nil in Hb|]. destruct Hs as (H1 & H2 & H3 & Hs).
  apply elem_of_cons in Hb as [->|Hb]; [done|]. pose proof (spaced_nonneg _ _ Hs). unfold HDR in *. destruct (IH c Hs Hb). lia.
Qed.
Lemma spaced_app l1 l2 : spaced (l1 ++ l2) → spaced l1 ∧ spaced l2 ∧ ∀ b b', b ∈ l1 → b' ∈ l2 → b.1 + HDR * b.2 < b'.1 ∧ b.1 + HDR ≤ b'.1.
Proof.
  induction l1 as [|b l1 IH]; intros Hs.
  - split_and!; [done|done|]. intros ? ? ?%elem_of_nil. done.
  - destruct (IH (spaced_tail _ _ Hs)) as (H1 & H2 & H3). split_and!; [|done|].
    + destruct l1 as [|c l1]; [by eapply spaced_nonneg|]. destruct Hs as (? & ? & ? & _). done.
    + intros x y [->|Hx]%elem_of_cons Hy; [|auto]. eapply spaced_lt; [exact Hs|]. set_solver.
Qed.

(** ** The search in free *)

Lemma find_in m base bp p s post : ∀ l fuel, chain m (l ++ (p, s) :: post) base → spaced (l ++ (p, s) :: post) → base ≤ first (l ++ (p, s) :: post) 0 →
  (length l < fuel)%nat → p < bp → (∀ b, b ∈ post → bp < b.1) → base < bp →
  free_find fuel m bp (first (l ++ (p, s) :: post) 0) = Some p.
Proof.
  induction l as [|a l IH]; intros fuel Hc Hs Hb Hf Hp Hpost Hbase; (destruct fuel as [|fuel]; [simpl in Hf; lia|]); simpl.
  - destruct Hc as (E & _ & _). simpl in E, Hb. rewrite E. destruct post as [|[a' s'] post]; simpl.
    + rewrite decide_False by lia. by rewrite decide_True by lia.
    + rewrite decide_True; [done|]. split; [done|]. apply (Hpost (a', s')). by left.
  - destruct Hc as (E & _ & Hc). assert (a.1 < first (l ++ (p, s) :: post) base ∧ first (l ++ (p, s) :: post) base ≤ p) as [H1 H2].
    { destruct (spaced_app (a :: l) ((p, s) :: post) Hs) as (_ & _ & Hlt). destruct l as [|c l]; simpl.
      - destruct (Hlt a (p, s)); [by left|by left|]. unfold HDR in *. simpl in *. lia.
      - destruct (spaced_lt a _ c Hs) as [_ ?]; [by left|]. destruct (Hlt c (p, s)); [right; by left|by left|]. unfold HDR in *. simpl in *. lia. }
    rewrite E, decide_False by lia. rewrite decide_False by lia.
    assert (first (l ++ (p, s) :: post) base = first (l ++ (p, s) :: post) 0) as -> by by destruct l.
    apply IH; try done; [by eapply spaced_tail| |simpl in Hf; lia]. assert (first (l ++ (p, s) :: post) 0 = first (l ++ (p, s) :: post) base) as -> by by destruct l. simpl in Hb. lia.
Qed.

Lemma find_past m base bp : ∀ l fuel, chain m l base → spaced l → (∀ b, b ∈ l → bp < b.1) → base < bp → l ≠ [] → (length l ≤ fuel)%nat →
  free_find fuel m bp (first l 0) = free_find (fuel - length l) m bp base.
Proof.
  induction l as [|a l IH]; intros fuel Hc Hs Hgt Hbase Hne Hf; [done|]. destruct fuel as [|fuel]; [simpl in Hf; lia|]. destruct Hc as (E & _ & Hc).
  pose proof (Hgt a ltac:(by left)). simpl. rewrite E, decide_False by lia. destruct l as [|c l]; simpl.
  - rewrite decide_False by lia. by rewrite Nat.sub_0_r.
  - destruct (spaced_lt a _ c Hs) as [_ ?]; [by left|]. unfold HDR in *. rewrite decide_False by lia.
    apply (IH fuel); [done|by eapply spaced_tail|intros; apply Hgt; by right|done|done|simpl in *; lia].
Qed.

Lemma locate bp : ∀ l b0, spaced (b0 :: l) → b0.1 < bp → (∀ b, b ∈ l → b.1 ≠ bp) →
  ∃ pre p s post, b0 :: l = pre ++ (p, s) :: post ∧ p < bp ∧ ∀ b, b ∈ post → bp < b.1.
Proof.
  induction l as [|c l IH]; intros [a s] Hs Hb Hne.
  - exists [], a, s, []. split_and!; [done|done|]. by intros b ?%elem_of_nil.
  - destruct (decide (c.1 < bp)) as [Hc|Hc].
    + destruct (IH c (spaced_tail _ _ Hs) Hc) as (pre & p & s' & post & E & Hp & Hpost); [intros; apply Hne; by right|].
      exists ((a, s) :: pre), p, s', post. simpl. by rewrite E.
    + exists [], a, s, (c :: l). split_and!; [done|done|]. pose proof (Hne c ltac:(by left)).
      intros b [->|Hb']%elem_of_cons; [lia|]. destruct (spaced_lt c l b (spaced_tail _ _ Hs) Hb') as [_ ?]. unfold HDR in *. lia.
Qed.

Lemma free_find_spec m base bl f bp pre p s post fuel : chain m ((base, 0) :: bl) base → spaced ((base, 0) :: bl) → f ∈ ((base, 0) :: bl).*1 →
  (base, 0) :: bl = pre ++ (p, s) :: post → p < bp → (∀ b, b ∈ post → bp < b.1) → base < bp → (2 * length bl + 2 ≤ fuel)%nat →
  free_find fuel m bp f = Some p.
Proof.
  intros Hc Hs Hf E Hp Hpost Hbase Hfuel. apply list_elem_of_fmap in Hf as ([f' sf] & -> & (l1 & l2 & E')%list_elem_of_split).
  assert (length l1 + length l2 = length bl)%nat as Hl12 by (apply (f_equal length) in E'; rewrite length_app in E'; simpl in E'; lia).
  assert (∀ fu, (length bl + 1 ≤ fu)%nat → free_find fu m bp base = Some p) as Hfrom.
  { intros fu Hfu. change base with (first ((base, 0) :: bl) 0) at 1. rewrite E in Hc, Hs |- *. apply find_in with (base := base) (s := s) (post := post); try done.
    - rewrite <- E. done.
    - apply (f_equal length) in E. rewrite length_app in E. simpl in E. lia. }
  destruct (decide ((f', sf) ∈ post)) as [Hin|Hin].
  - rewrite E' in Hc, Hs. apply ublocks_app in Hc as [_ Hc]. destruct (spaced_app _ _ Hs) as (_ & Hs2 & _).
    change (free_find fuel m bp (first ((f', sf) :: l2) 0) = Some p). rewrite (find_past m base bp); try done; [apply Hfrom; simpl; lia| |simpl; lia].
    intros b [->|Hb]%elem_of_cons; [by apply Hpost|]. destruct (spaced_lt _ _ b Hs2 Hb) as [_ ?]. specialize (Hpost _ Hin). unfold HDR in *. simpl in *. lia.
  - assert (∃ l, (f', sf) :: l2 = l ++ (p, s) :: post) as [l El].
    { rewrite E in E'. clear -E' Hin. revert l1 E'. induction pre as [|b pre IH]; intros l1 E'; simpl in E'.
      - destruct l1 as [|c l1]; [exists []; by rewrite E'|]. injection E' as <- E'. exfalso. apply Hin. rewrite E'. set_solver.
      - destruct l1 as [|c l1]; [by exists (b :: pre)|]. injection E' as _ E'. eauto. }
    rewrite E' in Hc, Hs. apply ublocks_app in Hc as [_ Hc]. destruct (spaced_app _ _ Hs) as (_ & Hs2 & Hlt).
    change (free_find fuel m bp (first ((f', sf) :: l2) 0) = Some p). assert (length l < fuel)%nat by (apply (f_equal length) in El; rewrite length_app in El; simpl in El; lia).
    assert (base ≤ f') as Hbf.
    { destruct l1 as [|c l1]; simpl in E'; [by injection E' as <- _|]. injection E' as <- _. destruct (Hlt (base, 0) (f', sf)) as [_ ?]; [by left|by left|]. unfold HDR in *. simpl in *. lia. }
    rewrite El in Hc, Hs2 |- *. apply find_in with (base := base) (s := s) (post := post); try done. rewrite <- El. exact Hbf.
Qed.

(** ** Linking a block in *)

(* with the next block, if they touch *)
Definition join_right (bp : block) (post : list block) : block * list block :=
  match post with
  | nx :: tl => if decide (bp.1 + HDR * bp.2 = nx.1) then ((bp.1, bp.2 + nx.2), tl) else (bp, post)
  | [] => (bp, [])
  end.
Definition ins (b bp : block) (post : list block) : list block :=
  let '(b', post') := join_right bp post in
  if decide (b.1 + HDR * b.2 = bp.1) then (b.1, b.2 + b'.2) :: post' else b :: b' :: post'.

Definition in_memory (l : list block) : Prop := ∀ b, b ∈ l → 0 ≤ b.1 < 2 ^ 64 ∧ 0 ≤ b.2 < 2 ^ 32.

Section Link.
Variables (m : mem) (base : Z) (pre post : list block) (p s bp bs : Z).
Hypothesis Hc : chain m (pre ++ (p, s) :: post) base.
Hypothesis Hs : spaced (pre ++ (p, s) :: post).
Hypothesis Hfirst : first (pre ++ (p, s) :: post) 0 = base.
Hypothesis Hsize : hsize m bp = bs.
Hypothesis Hbs : 0 < bs.
Hypothesis Hleft : p + HDR * s ≤ bp ∧ p + HDR ≤ bp.
Hypothesis Hright : ∀ b, b ∈ post → bp + HDR * bs ≤ b.1.
Hypothesis Hmem : in_memory (pre ++ (p, s) :: post).
Hypothesis Hbp : 0 ≤ bp < 2 ^ 64.
Hypothesis Hsum : s + bs + (match post with [] => 0 | nx :: _ => nx.2 end) < 2 ^ 32.

Lemma link_facts : base ≤ p ∧ 0 ≤ base ∧ hptr m p = first post base ∧ hsize m p = s ∧ 0 ≤ s ∧
  (∀ b, b ∈ pre → b.1 + HDR ≤ p ∧ b.1 + HDR * b.2 < p) ∧ (∀ b, b ∈ post → p + HDR ≤ b.1 ∧ apart bp b.1).
Proof.
  apply ublocks_app in Hc as (_ & Ep & Es & _). destruct (spaced_app _ _ Hs) as (_ & Hs2 & Hlt). simpl in Ep, Es.
  assert (base ≤ p) as Hbase.
  { destruct pre as [|b pre']; simpl in Hfirst; [lia|]. destruct (Hlt b (p, s)) as [_ ?]; [by left|by left|]. unfold HDR in *. simpl in *. lia. }
  split_and!; try done.
  - rewrite <- Hfirst. destruct pre as [|b pre']; simpl; [apply (Hmem (p, s)); by left|]. apply (Hmem b). by left.
  - by apply (spaced_nonneg _ _ Hs2).
  - intros b Hb. destruct (Hlt b (p, s) Hb) as [? ?]; [by left|]. done.
  - intros b Hb. destruct (spaced_lt _ _ b Hs2 Hb) as [_ ?]. specialize (Hright b Hb). unfold HDR, apart in *. simpl in *. lia.
Qed.

(* the memory after the first half *)
Lemma link_right : ∃ m1 b' post', join_right (bp, bs) post = (b', post') ∧ b'.1 = bp ∧ bs ≤ b'.2 ∧ s + b'.2 < 2 ^ 32 ∧
  (if decide (bp + HDR * hsize m bp = hptr m p)
   then set_hptr bp (hptr (set_hsize bp (hsize m bp + hsize m (hptr m p)) m) (hptr m p)) (set_hsize bp (hsize m bp + hsize m (hptr m p)) m)
   else set_hptr bp (hptr m p) m) = m1 ∧
  hptr m1 bp = first post' base ∧ hsize m1 bp = b'.2 ∧ (∀ q, apart bp q → hptr m1 q = hptr m q ∧ hsize m1 q = hsize m q) ∧ chain m1 post' base ∧
  spaced (b' :: post') ∧ (∀ b, b ∈ post' → b ∈ post).
Proof.
  destruct link_facts as (Hbase & Hb0 & Ep & Es & H0 & _ & Hpost). apply ublocks_app in Hc as (_ & _ & _ & Hc2). destruct (spaced_app _ _ Hs) as (_ & Hs2 & _).
  apply spaced_tail in Hs2. rewrite Ep, Hsize.
  assert (∀ x, ∀ q, apart bp q → hptr (set_hptr bp x m) q = hptr m q ∧ hsize (set_hptr bp x m) q = hsize m q) as Hone.
  { intros x q Hq. split; [by apply hptr_set_ne|apply hsize_ptr; by right]. }
  destruct post as [|nx tl]; simpl.
  - rewrite decide_False by (unfold HDR in *; lia). eexists _, (bp, bs), []. split_and!; try done; simpl; try lia; [apply hptr_set_eq; unfold HDR in *; lia|rewrite hsize_ptr by (by left); done|apply Hone].
  - simpl in Hsum. destruct Hc2 as (En & Sn & Hc3). destruct (Hpost nx) as [_ Hanx]; [by left|]. pose proof (spaced_nonneg _ _ Hs2) as Hnn. specialize (Hright nx ltac:(by left)) as Hr.
    assert (0 ≤ nx.1 < 2 ^ 64 ∧ 0 ≤ first tl base < 2 ^ 64) as [Hn1 Hn2].
    { split; [apply (Hmem nx); set_solver|]. destruct tl as [|c tl]; simpl; [unfold HDR in *; lia|]. apply (Hmem c). set_solver. }
    destruct (decide (bp + HDR * bs = nx.1)) as [Ej|Ej].
    + set (m0 := set_hsize bp (bs + hsize m nx.1) m). assert (∀ q, bp = q ∨ apart bp q → hptr m0 q = hptr m q) as Hp0 by (intros; by apply hptr_size).
      rewrite Hp0, En by (by right). eexists _, (bp, bs + nx.2), tl. split_and!; try done; simpl; try lia.
      * apply hptr_set_eq. lia.
      * rewrite hsize_ptr by (by left). unfold m0. rewrite Sn. apply hsize_set_eq. lia.
      * intros q Hq. split; [rewrite hptr_set_ne by done; apply Hp0; by right|]. rewrite hsize_ptr by (by right). by apply hsize_set_ne.
      * eapply chain_frame; [|exact Hc3]. intros b Hb. destruct (Hpost b) as [_ ?]; [by right|]. split; [rewrite hptr_set_ne by done; apply Hp0; by right|].
        rewrite hsize_ptr by (by right). by apply hsize_set_ne.
      * destruct tl as [|c tl]; simpl; [lia|]. destruct Hs2 as (? & ? & ? & ?). unfold HDR in *. split_and!; try done; lia.
      * intros b Hb. by right.
    + eexists _, (bp, bs), (nx :: tl). split_and!; try done; simpl; try lia.
      * apply hptr_set_eq. lia.
      * rewrite hsize_ptr by (by left). done.
      * apply Hone.
      * split_and!; [by rewrite (proj1 (Hone _ _ Hanx))|by rewrite (proj2 (Hone _ _ Hanx))|]. eapply chain_frame; [|exact Hc3].
        intros b Hb. apply Hone. destruct (Hpost b) as [_ ?]; [by right|done].
      * unfold HDR in *. lia.
Qed.

Lemma free_link_chain : chain (free_link bp p m) (pre ++ ins (p, s) (bp, bs) post) base ∧ spaced (pre ++ ins (p, s) (bp, bs) post) ∧
  ∀ q, apart bp q → apart p q → hptr (free_link bp p m) q = hptr m q ∧ hsize (free_link bp p m) q = hsize m q.
Proof.
  destruct link_facts as (Hbase & Hb0 & Ep & Es & H0 & Hpre & Hpost).
  destruct link_right as (m1 & [b' s'] & post' & Ej & Eb & Hle & Hlt & Em & Pb & Sb & Hfr & Hc1 & Hsp & Hin). simpl in Eb, Hle, Hlt, Sb. subst b'.
  apply ublocks_app in Hc as (Hcpre & _). destruct (spaced_app _ _ Hs) as (Hspre & _ & Hlt2).
  assert (apart bp p) as Hap by (unfold apart, HDR in *; lia). destruct (Hfr p Hap) as [F1 F2].
  unfold free_link, ins. rewrite Ej. cbv zeta. rewrite Em. cbn [fst snd]. rewrite F2, Es.
  assert (∀ b, b ∈ pre → apart p b.1 ∧ apart bp b.1) as Hapre by (intros b Hb; destruct (Hpre b Hb); unfold apart, HDR in *; lia).
  assert (∀ b, b ∈ post' → apart p b.1) as Hapost by (intros b Hb; destruct (Hpost b (Hin b Hb)); unfold apart, HDR in *; lia).
  assert (∀ l, spaced l → (∀ b, b ∈ l → p ≤ b.1) → first l 0 = p → l ≠ [] → spaced (pre ++ l)) as Hglue.
  { clear -Hspre Hpre. intros l Hl Hge Hf Hne. induction pre as [|a pre' IH]; [done|]. simpl.
    assert (spaced (pre' ++ l)) as IH' by (apply IH; [intros; apply Hpre; by right|by eapply spaced_tail]).
    pose proof (spaced_nonneg _ _ Hspre). destruct (Hpre a) as [? ?]; [by left|]. destruct pre' as [|c pre']; simpl in *.
    - destruct l as [|c l]; [done|]. simpl in Hf. subst. unfold HDR in *. split_and!; try done; lia.
    - destruct Hspre as (? & ? & ? & ?). done. }
  assert (0 ≤ first post' base < 2 ^ 64) as Hfb.
  { destruct post' as [|c post']; simpl; [unfold HDR in *; lia|]. apply (Hmem c). specialize (Hin c ltac:(by left)). set_solver. }
  destruct (decide (p + HDR * s = bp)) as [El|El].
  - rewrite Sb. set (m2 := set_hsize p (s + s') m1). assert (hptr m2 bp = first post' base) as -> by (unfold m2; rewrite hptr_size by (right; by apply apart_sym); done).
    assert (∀ q, apart p q → hptr (set_hptr p (first post' base) m2) q = hptr m1 q ∧ hsize (set_hptr p (first post' base) m2) q = hsize m1 q) as Hfr2.
    { intros q Hq. unfold m2. rewrite hptr_set_ne, hptr_size by (done || by right). rewrite hsize_ptr, hsize_set_ne by (done || by right). done. }
    split_and!.
    + apply ublocks_app. split.
      * eapply chain_frame; [|exact Hcpre]. intros b Hb. destruct (Hapre b Hb). destruct (Hfr2 b.1) as [-> ->]; [done|]. by apply Hfr.
      * split_and!; simpl; [by rewrite hptr_set_eq|rewrite hsize_ptr by (by left); unfold m2; apply hsize_set_eq; lia|].
        eapply chain_frame; [|exact Hc1]. intros b Hb. apply Hfr2. by apply Hapost.
    + apply Hglue; simpl; try done.
      * destruct post' as [|c post']; simpl in *; [lia|]. destruct Hsp as (? & ? & ? & ?). unfold HDR in *. split_and!; try done; lia.
      * intros b [->|Hb]%elem_of_cons; simpl; [lia|]. destruct (Hpost b (Hin b Hb)). unfold HDR in *. lia.
    + intros q Hq1 Hq2. destruct (Hfr2 q) as [-> ->]; [done|]. by apply Hfr.
  - assert (∀ q, apart p q → hptr (set_hptr p bp m1) q = hptr m1 q ∧ hsize (set_hptr p bp m1) q = hsize m1 q) as Hfr2.
    { intros q Hq. rewrite hptr_set_ne by done. rewrite hsize_ptr by (by right). done. }
    split_and!.
    + apply ublocks_app. split.
      * eapply chain_frame; [|exact Hcpre]. intros b Hb. destruct (Hapre b Hb). destruct (Hfr2 b.1) as [-> ->]; [done|]. by apply Hfr.
      * destruct (Hfr2 bp) as [G1 G2]; [by apply apart_sym|]. simpl. split_and!; [by rewrite hptr_set_eq|rewrite hsize_ptr by (by left); by rewrite F2|by rewrite G1|by rewrite G2|].
        eapply chain_frame; [|exact Hc1]. intros b Hb. apply Hfr2. by apply Hapost.
    + apply Hglue; try done.
      * change (p + HDR * s < bp ∧ p + HDR ≤ bp ∧ 0 ≤ s ∧ spaced ((bp, s') :: post')). split_and!; [lia|lia|done|done].
      * intros b [->|[->|Hb]%elem_of_cons]%elem_of_cons; simpl; [lia|unfold HDR in *; lia|]. destruct (Hpost b (Hin b Hb)). unfold HDR in *. lia.
    + intros q Hq1 Hq2. destruct (Hfr2 q) as [-> ->]; [done|]. by apply Hfr.
Qed.
End Link.

Definition inside (b : Z * Z) (x : Z) : Prop := b.1 ≤ x < b.1 + HDR * b.2.
(** The addresses in free blocks. *)
Definition covers (l : list (Z * Z)) (x : Z) : Prop := ∃ b, b ∈ l ∧ inside b x.

Lemma covers_app l1 l2 x : covers (l1 ++ l2) x ↔ covers l1 x ∨ covers l2 x.
Proof. unfold covers. set_solver. Qed.
Lemma covers_cons b l x : covers (b :: l) x ↔ inside b x ∨ covers l x.
Proof. unfold covers. set_solver. Qed.
Lemma covers_nil x : ¬ covers [] x.
Proof. unfold covers. set_solver. Qed.

Lemma covers_ins b bp post x : 0 ≤ b.2 → 0 < bp.2 → b.1 + HDR * b.2 ≤ bp.1 → (∀ c, c ∈ post → 0 ≤ c.2) →
  covers (ins b bp post) x ↔ covers (b :: post) x ∨ inside bp x.
Proof.
  intros H1 H2 H3 H4. assert (x < bp.1 ∨ bp.1 ≤ x) as Ha by lia. assert (x < bp.1 + HDR * bp.2 ∨ bp.1 + HDR * bp.2 ≤ x) as Hb by lia.
  unfold ins, join_right. destruct post as [|nx tl]; [|pose proof (H4 nx ltac:(by left)) as Hnx; destruct (decide (bp.1 + HDR * bp.2 = nx.1)) as [Ej|Ej]];
    cbn [fst snd]; (destruct (decide (b.1 + HDR * b.2 = bp.1)) as [E|E]); rewrite !covers_cons; unfold inside, HDR in *; cbn [fst snd];
    generalize (covers_nil x); generalize (covers [] x); intros C0 HC0; try generalize (covers tl x); intros; intuition lia.
Qed.

Section Alloc.
Variables (base lim : Z).
Hypothesis Hbase : 0 < base.
Hypothesis Hlim : lim < 2 ^ 64.
Hypothesis Hspan : lim - base < 2 ^ 36.
Hypothesis Hroom : base + HDR ≤ lim.

(** The free list in memory is [bl]; everything is below [lim]. *)
Record uheap (st : ust) (bl : list (Z * Z)) : Prop := mkUheap {
  uh_chain : chain (umem st) ((base, 0) :: bl) base;
  uh_spaced : spaced ((base, 0) :: bl);
  uh_sizes : ∀ b, b ∈ bl → 0 < b.2 ∧ b.1 + HDR * b.2 ≤ lim;
  uh_freep : freep st ∈ ((base, 0) :: bl).*1;
}.

(** Memory that is neither free nor the static header. *)
Definition kept (bl : list (Z * Z)) (x : Z) : Prop := ¬ covers bl x ∧ ¬ base ≤ x < base + HDR.

Lemma uheap_mem st bl : uheap st bl → in_memory ((base, 0) :: bl).
Proof.
  intros [_ Hs Hz _] b [->|Hb]%elem_of_cons; simpl; [unfold HDR in *; lia|].
  destruct (spaced_lt _ _ b Hs Hb), (Hz b Hb). unfold HDR in *. simpl in *. lia.
Qed.

Lemma ins_bounds b bp post c : 0 ≤ b.2 → (∀ d, d ∈ bp :: post → 0 < d.2 ∧ d.1 + HDR * d.2 ≤ lim) → c ∈ ins b bp post →
  c = b ∨ (0 < c.2 ∧ c.1 + HDR * c.2 ≤ lim).
Proof.
  intros Hb Hall. destruct (Hall bp ltac:(by left)) as [Hp1 Hp2]. unfold ins, join_right.
  destruct post as [|nx tl]; [|destruct (Hall nx) as [Hn1 Hn2]; [right; by left|]; destruct (decide (bp.1 + HDR * bp.2 = nx.1)) as [E1|E1]];
    cbn [fst snd]; destruct (decide (b.1 + HDR * b.2 = bp.1)) as [E2|E2]; intros Hc; repeat (apply elem_of_cons in Hc as [->|Hc]);
    try (by left); right; unfold HDR in *; cbn [fst snd] in *; try lia; try (by apply elem_of_nil in Hc); apply Hall; set_solver.
Qed.

Lemma ins_length b bp post : (length (ins b bp post) ≤ 2 + length post)%nat.
Proof. unfold ins, join_right. destruct post; [|case_decide]; cbn [fst snd]; case_decide; simpl; lia. Qed.

Lemma ins_holds b bp post : 0 ≤ b.2 → (∀ c, c ∈ post → 0 ≤ c.2) → ∃ c, c ∈ ins b bp post ∧ bp.2 ≤ c.2.
Proof.
  intros Hb Hp. unfold ins, join_right. destruct post as [|nx tl]; [|pose proof (Hp nx ltac:(by left)); case_decide]; cbn [fst snd]; case_decide.
  all: try (eexists; split; [by left|simpl; lia]). all: eexists; split; [right; by left|simpl; lia].
Qed.

(* the static header stays at the front *)
Lemma ins_front pre p s bp post bl : (base, 0) :: bl = pre ++ (p, s) :: post → p + HDR ≤ bp.1 →
  ∃ bl', pre ++ ins (p, s) bp post = (base, 0) :: bl' ∧ (length bl' ≤ S (length bl))%nat.
Proof.
  intros E Hp. destruct pre as [|c pre]; simpl in E.
  - injection E as <- <- ->. unfold ins, join_right. destruct post as [|nx tl]; [|destruct (decide (bp.1 + HDR * bp.2 = nx.1))];
      cbn [fst snd app]; rewrite decide_False by (unfold HDR in *; lia); (eexists; split; [reflexivity|simpl; lia]).
  - injection E as <- ->. eexists. split; [reflexivity|]. rewrite !length_app. simpl. pose proof (ins_length (p, s) bp post). lia.
Qed.

Lemma set_hptr_out p v m x : ¬ p ≤ x < p + HDR → set_hptr p v m x = m x.
Proof. intros. apply store64_out. unfold HDR in *. lia. Qed.
Lemma set_hsize_out p v m x : ¬ p ≤ x < p + HDR → set_hsize p v m x = m x.
Proof. intros. apply store32_out. unfold HDR in *. lia. Qed.
Lemma free_link_out bp p m x : ¬ bp ≤ x < bp + HDR → ¬ p ≤ x < p + HDR → free_link bp p m x = m x.
Proof. intros Hb Hp. unfold free_link. cbv zeta. repeat case_match; by rewrite ?set_hptr_out, ?set_hsize_out, ?set_hptr_out, ?set_hsize_out. Qed.

Lemma free_spec st bl bp fuel : uheap st bl → 0 < hsize (umem st) bp → base + HDR ≤ bp → bp + HDR * hsize (umem st) bp ≤ lim →
  (∀ b, b ∈ bl → b.1 + HDR * b.2 ≤ bp ∨ bp + HDR * hsize (umem st) bp ≤ b.1) → (2 * length bl + 2 ≤ fuel)%nat →
  ∃ st' bl', free fuel (bp + HDR) st = Ret st' ∧ uheap st' bl' ∧ (length bl' ≤ S (length bl))%nat ∧
    (∀ x, covers bl' x ↔ covers bl x ∨ inside (bp, hsize (umem st) bp) x) ∧ (∃ b, b ∈ bl' ∧ hsize (umem st) bp ≤ b.2) ∧
    (∀ x, kept bl x → ¬ inside (bp, hsize (umem st) bp) x → umem st' x = umem st x).
Proof.
  intros Hu Hbs Hlo Hhi Hdis Hfuel. pose proof Hu as [Hc Hs Hz Hf]. set (bs := hsize (umem st) bp) in *. set (m := umem st) in *.
  destruct (locate bp bl (base, 0) Hs) as (pre & p & s & post & E & Hp & Hpost); [simpl; unfold HDR in *; lia| |].
  { intros b Hb Eb. destruct (Hz b Hb), (Hdis b Hb); unfold HDR in *; lia. }
  assert (free_find fuel m bp (freep st) = Some p) as Efind by (eapply free_find_spec; try done; unfold HDR in *; lia).
  assert (p = base ∧ s = 0 ∨ (p, s) ∈ bl) as Hps.
  { assert ((p, s) ∈ (base, 0) :: bl) as Hin by (rewrite E; set_solver). apply elem_of_cons in Hin as [[= -> ->]|]; auto. }
  assert (p + HDR * s ≤ bp ∧ p + HDR ≤ bp) as Hleft.
  { destruct Hps as [[-> ->]|Hin]; [unfold HDR in *; lia|]. destruct (Hz _ Hin), (Hdis _ Hin); unfold HDR in *; simpl in *; lia. }
  assert (0 ≤ s) as Hs0 by (destruct Hps as [[-> ->]|Hin]; [done|]; destruct (Hz _ Hin); simpl in *; lia).
  assert (∀ b, b ∈ post → b ∈ bl) as Hpb.
  { intros b Hb. destruct pre as [|c pre]; simpl in E; [by injection E as _ _ ->|]. injection E as <- ->. set_solver. }
  assert (∀ b, b ∈ post → bp + HDR * bs ≤ b.1) as Hright.
  { intros b Hb. specialize (Hpost b Hb). destruct (Hdis b (Hpb b Hb)), (Hz b (Hpb b Hb)); unfold HDR in *; lia. }
  assert (∀ b, b ∈ post → 0 ≤ b.2) as Hnn by (intros b Hb; destruct (Hz b (Hpb b Hb)); lia).
  pose proof (uheap_mem _ _ Hu) as Hmem. rewrite E in Hc, Hs, Hmem.
  assert (s + bs + (match post with [] => 0 | nx :: _ => nx.2 end) < 2 ^ 32) as Hsum.
  { assert (base ≤ p) by (destruct Hps as [[-> _]|Hin]; [lia|]; rewrite <- E in Hs; destruct (spaced_lt _ _ _ Hs Hin); unfold HDR in *; simpl in *; lia).
    destruct post as [|nx post]; [unfold HDR in *; lia|]. specialize (Hright nx ltac:(by left)). destruct (Hz nx (Hpb nx ltac:(by left))). unfold HDR in *. lia. }
  destruct (free_link_chain m base pre post p s bp bs Hc Hs) as (Hc' & Hs' & _); try done; [by rewrite <- E|unfold HDR in *; lia|].
  destruct (ins_front pre p s (bp, bs) post bl E) as (bl' & E' & Hl'); [simpl; lia|].
  rewrite E' in Hc', Hs'. exists (mkUst (free_link bp p m) p), bl'. split_and!.
  - unfold free. replace (bp + HDR - HDR) with bp by lia. change (umem st) with m. rewrite Efind. done.
  - split; simpl; try done.
    + intros b Hb. assert (b ∈ pre ++ ins (p, s) (bp, bs) post) as Hin by (rewrite E'; by right). destruct (spaced_lt _ _ b Hs' Hb) as [_ Hgt].
      assert (b ∈ (base, 0) :: bl ∨ 0 < b.2 ∧ b.1 + HDR * b.2 ≤ lim) as [[->|Hb']%elem_of_cons|]; [|unfold HDR in *; simpl in *; lia|by apply Hz|done].
      rewrite E. apply elem_of_app in Hin as [?|Hin]; [left; set_solver|].
      apply ins_bounds in Hin as [->|?]; [left; set_solver|by right|done|]. intros d [->|Hd]%elem_of_cons; [done|]. by apply Hz, Hpb.
    + change (p ∈ ((base, 0) :: bl').*1). rewrite <- E', fmap_app. apply elem_of_app. right. unfold ins. destruct (join_right _ _) as [? ?]. simpl. case_decide; simpl; by left.
  - done.
  - intros x. transitivity (covers ((base, 0) :: bl') x); [rewrite covers_cons; unfold inside, HDR; simpl; intuition lia|].
    transitivity (covers ((base, 0) :: bl) x ∨ inside (bp, bs) x); [|rewrite covers_cons; unfold inside at 1, HDR; simpl; intuition lia].
    rewrite <- E', E, !covers_app, covers_ins by (simpl; lia || done). tauto.
  - destruct (ins_holds (p, s) (bp, bs) post) as (b & Hb & Hge); [done|done|]. exists b. split; [|done].
    assert (b ∈ (base, 0) :: bl') as [->|?]%elem_of_cons by (rewrite <- E'; set_solver); [simpl in Hge; lia|done].
  - intros x [Hk1 Hk2] Hk3. apply free_link_out.
    + intros Hx. apply Hk3. unfold inside, HDR in *. simpl. lia.
    + intros Hx. destruct Hps as [[-> ->]|Hin]; [done|]. apply Hk1. exists (p, s). split; [done|]. destruct (Hz _ Hin). unfold inside, HDR in *. simpl in *. lia.
Qed.

(** ** Taking a block *)

Lemma chain_at m l z b : chain m l z → b ∈ l → hsize m b.1 = b.2 ∧ (hptr m b.1 = z ∨ ∃ c, c ∈ l ∧ hptr m b.1 = c.1).
Proof.
  intros Hc (l1 & l2 & ->)%list_elem_of_split. apply ublocks_app in Hc as (_ & E & Es & _). split; [done|]. rewrite E.
  destruct l2 as [|c l2]; [by left|]. right. exists c. set_solver.
Qed.

(* the block before b is the one that points to it *)
Lemma chain_before m l q b : chain m ((base, 0) :: l) base → q ∈ (base, 0) :: l → b ∈ (base, 0) :: l → hptr m q.1 = b.1 → b.1 ≠ base →
  ∃ pre l1 post, (base, 0) :: l1 = pre ++ [q] ∧ l = l1 ++ b :: post.
Proof.
  intros Hc (pre & post & E)%list_elem_of_split Hb Hq Hne. pose proof (chain_at _ _ _ _ Hc Hb) as [Hsz _]. rewrite E in Hc.
  apply ublocks_app in Hc as (_ & E1 & _ & Hc). destruct post as [|b' post]; [simpl in E1; congruence|].
  destruct Hc as (_ & Es & _). simpl in E1. assert (b' = b) as -> by (destruct b, b'; simpl in *; congruence).
  destruct pre as [|c pre]; simpl in E; injection E as <- ->; [by exists [], [], post|].
  exists ((base, 0) :: pre), (pre ++ [q]), post. by rewrite <- app_assoc.
Qed.

Lemma spaced_glue l1 l2 : spaced l1 → spaced l2 → (∀ b c, b ∈ l1 → c ∈ l2 → b.1 + HDR * b.2 < c.1 ∧ b.1 + HDR ≤ c.1) → spaced (l1 ++ l2).
Proof.
  induction l1 as [|b l1 IH]; intros H1 H2 Hx; [done|]. assert (spaced (l1 ++ l2)) as Ht by (apply IH; [by eapply spaced_tail|done|set_solver]).
  pose proof (spaced_nonneg _ _ H1). simpl. destruct l1 as [|c l1]; simpl in *.
  - destruct l2 as [|c l2]; [done|]. destruct (Hx b c); [by left|by left|]. done.
  - destruct H1 as (? & ? & ? & ?). done.
Qed.

(* without the block, or with only its beginning *)
Lemma spaced_shrink l1 b l2 s : spaced (l1 ++ b :: l2) → 0 ≤ s ≤ b.2 → spaced (l1 ++ l2) ∧ spaced (l1 ++ (b.1, s) :: l2).
Proof.
  intros Hs Hle. destruct (spaced_app _ _ Hs) as (H1 & H2 & Hx). split; apply spaced_glue; try done.
  - by eapply spaced_tail.
  - intros c d Hc Hd. apply Hx; [done|by right].
  - destruct l2 as [|c l2]; simpl; [lia|]. destruct (spaced_lt _ _ c H2); [by left|]. apply spaced_tail in H2. unfold HDR in *. split_and!; try done; lia.
  - intros c d Hc [->|Hd]%elem_of_cons; simpl; [apply (Hx c b); [done|by left]|]. apply Hx; [done|by right].
Qed.

Lemma spaced_apart l b c : spaced l → b ∈ l → c ∈ l → b = c ∨ apart b.1 c.1.
Proof.
  intros Hs (l1 & l2 & ->)%list_elem_of_split Hc. destruct (spaced_app _ _ Hs) as (_ & H2 & Hx). unfold apart, HDR in *.
  apply elem_of_app in Hc as [Hc|[->|Hc]%elem_of_cons]; [|by left|].
  - destruct (Hx c b Hc); [by left|]. lia.
  - destruct (spaced_lt _ _ c H2 Hc). unfold HDR in *. lia.
Qed.

Lemma covers_middle l1 b l2 x : covers (l1 ++ b :: l2) x ↔ covers (l1 ++ l2) x ∨ inside b x.
Proof. rewrite !covers_app, covers_cons. tauto. Qed.

Section Carve.
Variables (st : ust) (pre l1 post : list (Z * Z)) (q b : Z * Z).
Hypothesis Hu : uheap st (l1 ++ b :: post).
Hypothesis Hpre : (base, 0) :: l1 = pre ++ [q].

Lemma carve_nodes c : c ∈ ((base, 0) :: l1) ++ post → c ∈ (base, 0) :: l1 ++ b :: post ∧ apart b.1 c.1.
Proof.
  intros Hc. assert (c ∈ (base, 0) :: l1 ++ b :: post) as Hin by set_solver. split; [done|].
  destruct (spaced_app ((base, 0) :: l1) (b :: post) (uh_spaced _ _ Hu)) as (_ & H2 & Hx). unfold apart, HDR in *.
  apply elem_of_app in Hc as [Hc|Hc].
  - destruct (Hx c b Hc); [by left|]. lia.
  - destruct (spaced_lt _ _ c H2 Hc). unfold HDR in *. lia.
Qed.

Lemma carve_whole : uheap (mkUst (set_hptr q.1 (hptr (umem st) b.1) (umem st)) q.1) (l1 ++ post).
Proof.
  pose proof Hu as [Hc Hs Hz _]. pose proof (uheap_mem _ _ Hu) as Hmem. set (m := umem st) in *.
  assert ((base, 0) :: l1 ++ b :: post = pre ++ q :: b :: post) as E by (rewrite app_comm_cons, Hpre, <- app_assoc; done).
  assert ((base, 0) :: l1 ++ post = pre ++ q :: post) as E' by (rewrite app_comm_cons, Hpre, <- app_assoc; done).
  assert (hptr m b.1 = first post base) as Eb by (rewrite E in Hc; apply ublocks_app in Hc as (_ & _ & _ & Hb & _); done).
  assert (∀ c, c ∈ pre ++ post → apart q.1 c.1) as Hap.
  { intros c Hin. destruct (spaced_app pre (q :: b :: post)) as (_ & H2 & Hx); [by rewrite <- E|]. apply elem_of_app in Hin as [Hin|Hin]; unfold apart, HDR in *.
    - destruct (Hx c q Hin); [by left|]. lia.
    - destruct (spaced_lt _ _ c H2); [by right|]. unfold HDR in *. lia. }
  assert (0 ≤ first post base < 2 ^ 64) as Hfb.
  { destruct post as [|c post']; simpl; [unfold HDR in *; lia|]. apply (Hmem c). set_solver. }
  split; simpl.
  - rewrite Eb. change (chain (set_hptr q.1 (first post base) m) ((base, 0) :: l1 ++ post) base). rewrite E' , E in *.
    apply ublocks_app in Hc as (H1 & _ & H2 & _ & _ & H3). apply ublocks_app. split; [|split_and!].
    + eapply chain_frame; [|exact H1]. intros c Hin. rewrite hptr_set_ne, hsize_ptr; [done|right|]; apply Hap; set_solver.
    + by apply hptr_set_eq.
    + by rewrite hsize_ptr by (by left).
    + eapply chain_frame; [|exact H3]. intros c Hin. rewrite hptr_set_ne, hsize_ptr; [done|right|]; apply Hap; set_solver.
  - apply (spaced_shrink ((base, 0) :: l1) b post 0 Hs). destruct (Hz b); [set_solver|lia].
  - intros c Hin. apply Hz. set_solver.
  - change (q.1 ∈ ((base, 0) :: l1 ++ post).*1). rewrite E', fmap_app. set_solver.
Qed.

Lemma carve_part s : 0 < s < b.2 →
  uheap (mkUst (set_hsize (b.1 + HDR * s) (b.2 - s) (set_hsize b.1 s (umem st))) q.1) (l1 ++ (b.1, s) :: post).
Proof.
  intros Hlt. pose proof Hu as [Hc Hs Hz _]. pose proof (uheap_mem _ _ Hu) as Hmem. set (m := umem st) in *. set (blk := b.1 + HDR * s).
  assert (∀ c, c ∈ (base, 0) :: l1 ++ b :: post → apart blk c.1) as Hap.
  { intros c Hin. destruct (spaced_app ((base, 0) :: l1) (b :: post) Hs) as (_ & H2 & Hx). unfold apart, HDR in *.
    assert (c ∈ (base, 0) :: l1 ∨ c = b ∨ c ∈ post) as [Hin'|[->|Hin']] by set_solver.
    - destruct (Hx c b Hin'); [by left|]. lia.
    - lia.
    - destruct (spaced_lt _ _ c H2 Hin'). unfold HDR in *. lia. }
  destruct (Hmem b) as [Hb1 Hb2]; [set_solver|]. set (m' := set_hsize blk (b.2 - s) (set_hsize b.1 s m)).
  assert (∀ c, c ∈ ((base, 0) :: l1) ++ post → hptr m' c.1 = hptr m c.1 ∧ hsize m' c.1 = hsize m c.1) as Hfr.
  { intros c Hin. destruct (carve_nodes c Hin). pose proof (Hap c ltac:(done)). unfold m'. by rewrite !hptr_size, !hsize_set_ne by auto. }
  destruct (spaced_shrink ((base, 0) :: l1) b post s Hs) as [_ Hs']; [lia|].
  split; simpl; [|exact Hs'| |].
  - change (chain m' (((base, 0) :: l1) ++ (b.1, s) :: post) base). apply (ublocks_app m ((base, 0) :: l1)) in Hc as (H1 & H2 & H3 & H4). apply ublocks_app. split; [|split_and!].
    + eapply chain_frame; [|exact H1]. intros c Hin. apply Hfr. set_solver.
    + simpl. unfold m'. rewrite !hptr_size; [done|by left|right; apply Hap; set_solver].
    + simpl. unfold m'. rewrite hsize_set_ne, hsize_set_eq; [done|lia|apply Hap; set_solver].
    + eapply chain_frame; [|exact H4]. intros c Hin. apply Hfr. set_solver.
  - destruct (Hz b); [set_solver|]. intros c Hin. assert (c = (b.1, s) ∨ c ∈ l1 ++ b :: post) as [->|] by set_solver; [unfold HDR in *; simpl; lia|by apply Hz].
  - change (q.1 ∈ ((base, 0) :: l1 ++ (b.1, s) :: post).*1). rewrite app_comm_cons, Hpre, !fmap_app. set_solver.
Qed.
End Carve.

(** A block of [n] units at [blk] has been taken from the free list. *)
Record taken (st : ust) (bl : list (Z * Z)) (blk n : Z) (st' : ust) (bl' : list (Z * Z)) : Prop := mkTaken {
  tk_heap : uheap st' bl';
  tk_length : (length bl' ≤ length bl)%nat;
  tk_size : hsize (umem st') blk = n;
  tk_place : base + HDR ≤ blk ∧ blk + HDR * n ≤ lim;
  tk_covers : ∀ x, covers bl x ↔ covers bl' x ∨ inside (blk, n) x;
  tk_apart : ∀ x, ¬ (covers bl' x ∧ inside (blk, n) x);
  tk_frame : ∀ x, kept bl x → umem st' x = umem st x;
}.

Lemma carve_spec st bl q b n : uheap st bl → q ∈ (base, 0) :: bl → b ∈ (base, 0) :: bl → hptr (umem st) q.1 = b.1 → 0 < n ≤ b.2 →
  ∃ st' bl' blk, carve n q.1 b.1 st = (blk + HDR, st') ∧ taken st bl blk n st' bl'.
Proof.
  intros Hu Hq Hb Eq Hn. assert (b ∈ bl) as Hb' by (apply elem_of_cons in Hb as [->|]; [simpl in Hn; lia|done]). pose proof Hu as [Hc Hs Hz _].
  destruct (spaced_lt _ _ b Hs Hb') as [_ Hgt]. simpl in Hgt. destruct (chain_at _ _ _ _ Hc Hb) as [Sb _].
  destruct (chain_before (umem st) bl q b) as (pre & l1 & post & Hpre & ->); try done; [unfold HDR in *; lia|]. destruct (Hz b Hb') as [_ Hend].
  assert (∀ x, covers (l1 ++ post) x → ¬ inside b x) as Hdis.
  { intros x (c & Hc' & Hx) Hx'. destruct (spaced_app ((base, 0) :: l1) (b :: post) Hs) as (_ & H2 & Hlt). unfold inside in *.
    apply elem_of_app in Hc' as [Hc'|Hc']; [destruct (Hlt c b); [by right|by left|]|destruct (spaced_lt _ _ c H2 Hc')]; unfold HDR in *; lia. }
  assert (∀ x, kept (l1 ++ b :: post) x → ¬ inside b x ∧ ¬ q.1 ≤ x < q.1 + HDR) as Hkept.
  { intros x [H1 H2]. split; [intros Hx; apply H1; exists b; split; [done|done]|]. apply elem_of_cons in Hq as [->|Hq]; [done|].
    destruct (Hz q Hq). intros Hx. apply H1. exists q. split; [done|]. unfold inside, HDR in *. lia. }
  unfold carve. rewrite Sb. destruct (decide (b.2 = n)) as [E|E].
  - eexists _, (l1 ++ post), b.1. split; [reflexivity|]. split; simpl; [by eapply carve_whole|rewrite !length_app; simpl; lia| |unfold HDR in *; lia| | |].
    + rewrite hsize_ptr, Sb; [done|]. destruct (spaced_apart _ q b Hs Hq Hb) as [->|]; auto.
    + intros x. rewrite covers_middle. destruct b. simpl in *. by subst.
    + intros x [H1 H2]. apply (Hdis x H1). destruct b. simpl in *. by subst.
    + intros x Hx. apply set_hptr_out. by apply Hkept.
  - rewrite hsize_set_eq by (destruct (uheap_mem _ _ Hu b Hb); lia).
    pose proof (carve_part st pre l1 post q b Hu Hpre (b.2 - n) ltac:(lia)) as Hpart. replace (b.2 - (b.2 - n)) with n in Hpart by lia.
    eexists _, (l1 ++ (b.1, b.2 - n) :: post), (b.1 + HDR * (b.2 - n)). split; [reflexivity|].
    split; [exact Hpart|rewrite !length_app; simpl; lia| |unfold HDR in *; lia| | |]; simpl.
    + apply hsize_set_eq. destruct (uheap_mem _ _ Hu b Hb); lia.
    + intros x. rewrite !covers_middle. generalize (covers (l1 ++ post) x). unfold inside, HDR. simpl. intros. intuition lia.
    + intros x. rewrite covers_middle. specialize (Hdis x). revert Hdis. generalize (covers (l1 ++ post) x). unfold inside, HDR in *. simpl. intros. intuition lia.
    + intros x Hx. destruct (Hkept x Hx) as [H1 _]. unfold inside, HDR in *. rewrite !set_hsize_out by (unfold HDR; lia). done.
Qed.

(** ** The walk round the ring *)

(* q, then the blocks of ns *)
Fixpoint path (m : mem) (q : Z) (ns : list (Z * Z)) : Prop :=
  match ns with
  | [] => True
  | b :: ns => hptr m q = b.1 ∧ hsize m b.1 = b.2 ∧ path m b.1 ns
  end.

Lemma chain_path m b l c ns : chain m (b :: l) c.1 → hsize m c.1 = c.2 → path m c.1 ns → path m b.1 (l ++ c :: ns).
Proof. revert b. induction l as [|d l IH]; intros b; simpl; [tauto|]. intros (? & ? & ? & ? & ?) ? ?. split_and!; [done|done|]. by apply IH. Qed.

(* from freep all the way round *)
Lemma ring st bl : uheap st bl → ∃ ns sf, path (umem st) (freep st) (ns ++ [(freep st, sf)]) ∧ (∀ b, b ∈ ns → b.1 ≠ freep st) ∧
  (∀ b, b ∈ (base, 0) :: bl ↔ b ∈ ns ++ [(freep st, sf)]) ∧ length ns = length bl.
Proof.
  intros [Hc Hs Hz Hf]. apply list_elem_of_fmap in Hf as ([f sf] & Ef & (l1 & l2 & E)%list_elem_of_split). simpl in Ef. rewrite Ef. exists (l2 ++ l1), sf.
  pose proof Hc as Hc'. pose proof Hs as Hs'. rewrite E in Hc', Hs'. apply ublocks_app in Hc' as [H1 H2].
  destruct (spaced_app _ _ Hs') as (_ & Hs2 & Hx). split_and!.
  - rewrite <- app_assoc. destruct l1 as [|b l1]; simpl in E |- *.
    + injection E as <- <- <-. apply (chain_path _ (base, 0) bl (base, 0)); [done|by destruct Hc as (_ & ? & _)|done].
    + injection E as <- ->. simpl in H1. apply (chain_path _ (f, sf) l2 (base, 0)); [done|by destruct Hc as (_ & ? & _)|].
      apply (chain_path _ (base, 0) l1 (f, sf)); [done|by destruct H2 as (_ & ? & _)|done].
  - intros b [Hb|Hb]%elem_of_app.
    + destruct (spaced_lt _ _ b Hs2 Hb). unfold HDR in *. simpl in *. lia.
    + destruct (Hx b (f, sf) Hb); [by left|]. unfold HDR in *. simpl in *. lia.
  - intros b. rewrite E. set_solver.
  - apply (f_equal length) in E. rewrite !length_app in *. simpl in *. lia.
Qed.

Lemma malloc_scan st n sf (nodes : list (Z * Z)) k : ∀ ns q, path (umem st) q (ns ++ [(freep st, sf)]) → (∀ b, b ∈ ns → b.1 ≠ freep st) →
  (∀ b, b ∈ ns ++ [(freep st, sf)] → b ∈ nodes) → (∃ b, b ∈ nodes ∧ b.1 = q) →
  (∃ b b', b ∈ nodes ∧ b' ∈ nodes ∧ hptr (umem st) b.1 = b'.1 ∧ n ≤ b'.2 ∧
     malloc_loop (S (length ns) + k) n q (hptr (umem st) q) st = Ret (carve n b.1 b'.1 st)) ∨
  ((∀ b, b ∈ ns ++ [(freep st, sf)] → b.2 < n) ∧
   malloc_loop (S (length ns) + k) n q (hptr (umem st) q) st =
     (r <~ morecore k n st ; let '(p, st) := r in if decide (p = 0) then Ret (0, st) else malloc_loop k n p (hptr (umem st) p) st)).
Proof.
  induction ns as [|c ns IH]; intros q Hp Hne Hin (b & Hb & <-).
  - destruct Hp as (E & Es & _). simpl in *. rewrite E, Es. destruct (decide (n ≤ sf)).
    + left. exists b, (freep st, sf). split_and!; try done. apply Hin. by left.
    + right. rewrite decide_True by done. split; [|done]. intros b' ->%list_elem_of_singleton. simpl. lia.
  - destruct Hp as (E & Es & Hp). specialize (Hne c ltac:(by left)) as Hc. change (S (length (c :: ns)) + k)%nat with (S (S (length ns) + k)). 
    cbn [malloc_loop]. rewrite E, Es. destruct (decide (n ≤ c.2)).
    + left. exists b, c. split_and!; try done. apply Hin. by left.
    + rewrite (decide_False (P := c.1 = freep st)) by done. destruct (IH c.1) as [?|[Hall ?]]; [done|set_solver|set_solver|exists c; split; [apply Hin; by left|done]|by left|right].
      split; [|done]. intros b' [->|]%elem_of_cons; [lia|auto].
Qed.

End Alloc.
