(* ===== verification/UmallocRun.v ===== *)
(** * Clients of malloc and free

    A client allocates, writes to its blocks and frees them.  The kernel
    answers sbrk by moving the break up to at most [lim], or refuses.  Whatever
    the sequence, every call terminates, the blocks in use lie apart inside
    the heap, and each holds exactly what the client wrote to it. *)

From S2P Require Import Prelude CString Spinlock ProcDefs Memory Printf UserSys Ulib Umalloc UmallocSpec.

Section Client.
Variables (base lim : Z) (grant : Z → Z → bool).

(** Runs a program whose only calls are sbrk of a non-negative size. *)
Fixpoint run_sbrk {A} (m : prog A) (brk : Z) : option (A * Z) :=
  match m with
  | Ret a => Some (a, brk)
  | @Call _ R c k =>
      match c in sys R return (R → prog A) → option (A * Z) with
      | Ssbrk n _ => λ k,
          if decide (n < 0) then None
          else if decide (brk + n ≤ lim ∧ grant brk n = true) then run_sbrk (k brk) (brk + n)
          else run_sbrk (k (-1)) brk
      | _ => λ _, None
      end k
  | _ => None
  end.

Lemma run_sbrk_bind {A B} (m : prog A) (f : A → prog B) brk :
  run_sbrk (pbind m f) brk = '(a, brk') ← run_sbrk m brk; run_sbrk (f a) brk'.
Proof.
  revert brk. induction m as [a|R c k IH| |]; intros brk; simpl; try done. destruct c; try done. repeat case_decide; try done; apply IH.
Qed.

Hypothesis Hbase : 0 < base.
Hypothesis Hlim : lim < 2 ^ 64.
Hypothesis Hspan : lim - base < 2 ^ 36.
Hypothesis Hroom : base + HDR ≤ lim.

Definition below (bl : list (Z * Z)) (brk : Z) : Prop := ∀ x, covers bl x → x < brk.

(** What an allocation did: a block was taken from the free list or from
    what the break moved over. *)
Record allocated (st : ust) (bl : list (Z * Z)) (brk blk n : Z) (st' : ust) (bl' : list (Z * Z)) (brk' : Z) : Prop := mkAllocated {
  al_heap : uheap base lim st' bl';
  al_length : (length bl' ≤ S (length bl))%nat;
  al_size : hsize (umem st') blk = n;
  al_place : base + HDR ≤ blk ∧ blk + HDR * n ≤ lim;
  al_brk : brk ≤ brk' ≤ lim;
  al_covers : ∀ x, (covers bl x ∨ brk ≤ x < brk') ↔ covers bl' x ∨ inside (blk, n) x;
  al_apart : ∀ x, ¬ (covers bl' x ∧ inside (blk, n) x);
  al_frame : ∀ x, kept base bl x → x < brk → umem st' x = umem st x;
}.

Lemma uheap_frame st st' bl : (∀ x, covers bl x ∨ base ≤ x < base + HDR → umem st' x = umem st x) → freep st' = freep st →
  uheap base lim st bl → uheap base lim st' bl.
Proof.
  intros Hm Hf [Hc Hs Hz Hp]. split; try done; [|by rewrite Hf]. eapply chain_frame; [|exact Hc].
  intros b Hb. assert (∀ x, b.1 ≤ x < b.1 + 16 → umem st' x = umem st x) as Hin.
  { intros x Hx. apply Hm. apply elem_of_cons in Hb as [->|Hb]; [by right|]. left. exists b. split; [done|]. destruct (Hz b Hb). unfold inside, HDR. lia. }
  split; [apply load64_ext|apply load32_ext]; intros x Hx; apply Hin; lia.
Qed.

Lemma init_heap m : uheap base lim (mkUst (set_hsize base 0 (set_hptr base base m)) base) [].
Proof.
  split; simpl; [|done| |by left].
  - rewrite hptr_size, hptr_set_eq by (by left || unfold HDR in *; lia). by rewrite hsize_set_eq.
  - by intros b ?%elem_of_nil.
Qed.

Lemma malloc_fits st bl n k : uheap base lim st bl → (∃ b, b ∈ bl ∧ n ≤ b.2) → 0 < n →
  ∃ st' bl' blk, malloc_loop (S (length bl) + k) n (freep st) (hptr (umem st) (freep st)) st = Ret (blk + HDR, st') ∧ taken base lim st bl blk n st' bl'.
Proof.
  intros Hu (b & Hb & Hn) H0. destruct (ring base lim Hbase Hlim Hspan Hroom st bl Hu) as (ns & sf & Hp & Hne & Hin & El). rewrite <- El.
  destruct (malloc_scan base lim Hbase Hlim Hspan Hroom st n sf ((base, 0) :: bl) k ns (freep st)) as [(q & b' & Hq & Hb' & Eq & Hle & ->)|[Hall _]]; try done.
  - intros c. apply Hin.
  - exists (freep st, sf). split; [|done]. apply Hin. set_solver.
  - destruct (carve_spec base lim Hbase Hlim Hspan Hroom st bl q b' n) as (st' & bl' & blk & -> & Ht); try done. eauto.
  - exfalso. specialize (Hall b). rewrite <- Hin in Hall. specialize (Hall ltac:(by right)). lia.
Qed.

(* the kernel refuses the memory morecore asks for *)
Definition refused (brk n : Z) : Prop := ¬ (brk + HDR * Z.max 4096 n ≤ lim ∧ grant brk (HDR * Z.max 4096 n) = true).

Lemma taken_allocated st bl brk blk n st' bl' : brk ≤ lim → below bl brk → taken base lim st bl blk n st' bl' → allocated st bl brk blk n st' bl' brk.
Proof.
  intros Hb Hbl [H1 H2 H3 H4 H5 H6 H7]. split; try done; [lia| |auto]. intros x. rewrite <- H5. intuition lia.
Qed.

(* the break moved, and the new memory became a free block *)
Lemma grown_heap st bl brk nu fuel : uheap base lim st bl → below bl brk → base + HDR ≤ brk → 0 < nu < 2 ^ 32 → brk + HDR * nu ≤ lim →
  (2 * length bl + 2 ≤ fuel)%nat →
  ∃ st' bl', free fuel (brk + HDR) (mkUst (set_hsize brk nu (umem st)) (freep st)) = Ret st' ∧ uheap base lim st' bl' ∧ (length bl' ≤ S (length bl))%nat ∧
    (∀ x, covers bl' x ↔ covers bl x ∨ brk ≤ x < brk + HDR * nu) ∧ (∃ b, b ∈ bl' ∧ nu ≤ b.2) ∧ (∀ x, kept base bl x → x < brk → umem st' x = umem st x).
Proof.
  intros Hu Hbl Hlo Hnu Hhi Hf. set (st0 := mkUst _ _).
  assert (uheap base lim st0 bl) as Hu0.
  { apply (uheap_frame st); [|done|done]. intros x [Hx|Hx]; apply set_hsize_out; [specialize (Hbl x Hx)|]; unfold HDR in *; lia. }
  assert (hsize (umem st0) brk = nu) as E by (apply hsize_set_eq; lia).
  destruct (free_spec base lim Hbase Hlim Hspan Hroom st0 bl brk fuel Hu0) as (st' & bl' & H1 & H2 & H3 & H4 & H5 & H6); rewrite ?E in *; try done; [lia| |].
  { intros b Hb. left. destruct (uh_sizes _ _ _ _ Hu b Hb). specialize (Hbl (b.1 + HDR * b.2 - 1)). enough (b.1 + HDR * b.2 - 1 < brk) by lia.
    apply Hbl. exists b. split; [done|]. unfold inside, HDR in *. lia. }
  exists st', bl'. split_and!; try done. intros x Hk Hx. rewrite H6; [|done|unfold inside; simpl; lia]. apply set_hsize_out. lia.
Qed.

Lemma nunits_range nb : 0 ≤ nb < 2 ^ 31 - 31 → 0 < nunits_of nb ∧ nb ≤ HDR * (nunits_of nb - 1) ∧ HDR * nunits_of nb < 2 ^ 31.
Proof.
  intros H. unfold nunits_of, HDR, u32. pose proof (Z.div_mod (nb + 16 - 1) 16 ltac:(lia)). pose proof (Z.mod_pos_bound (nb + 16 - 1) 16 ltac:(lia)).
  rewrite wrap_small by lia. lia.
Qed.

Lemma malloc_loop_run st bl brk n fuel : uheap base lim st bl → below bl brk → base + HDR ≤ brk ≤ lim → 0 < n → HDR * n < 2 ^ 31 →
  (3 * length bl + 5 ≤ fuel)%nat →
  ∃ p st' brk', run_sbrk (malloc_loop fuel n (freep st) (hptr (umem st) (freep st)) st) brk = Some ((p, st'), brk') ∧
    ((p = 0 ∧ st' = st ∧ brk' = brk ∧ refused brk n) ∨ ∃ blk bl', p = blk + HDR ∧ allocated st bl brk blk n st' bl' brk').
Proof.
  intros Hu Hbl Hb Hn Hn2 Hf. destruct (ring base lim Hbase Hlim Hspan Hroom st bl Hu) as (ns & sf & Hp & Hne & Hin & El).
  replace fuel with (S (length ns) + (fuel - S (length ns)))%nat by lia. set (k := (fuel - S (length ns))%nat).
  destruct (malloc_scan base lim Hbase Hlim Hspan Hroom st n sf ((base, 0) :: bl) k ns (freep st)) as [(q & b' & Hq & Hb' & Eq & Hle & ->)|[Hall ->]]; try done.
  - intros c. apply Hin.
  - exists (freep st, sf). split; [|done]. apply Hin. set_solver.
  - destruct (carve_spec base lim Hbase Hlim Hspan Hroom st bl q b' n) as (st' & bl' & blk & -> & Ht); try done.
    exists (blk + HDR), st', brk. split; [done|]. right. exists blk, bl'. split; [done|]. apply taken_allocated; [lia|done|done].
  - unfold morecore. set (nu := if decide (n < 4096) then 4096 else n). assert (nu = Z.max 4096 n) as Enu by (unfold nu; case_decide; lia). assert (n ≤ nu ∧ 0 < nu ∧ HDR * nu < 2 ^ 31) as (Hnu & Hnu0 & Hnu1) by (unfold nu, HDR in *; case_decide; lia).
    rewrite !run_sbrk_bind. unfold sbrk, call. cbn [run_sbrk pbind mbind option_bind].
    assert (i32 (nu * HDR) = HDR * nu) as -> by (unfold HDR in *; rewrite i32_small; lia).
    rewrite decide_False by (unfold HDR; lia). destruct (decide (brk + HDR * nu ≤ lim ∧ grant brk (HDR * nu) = true)) as [[Hfit _]|Hno]; cbn [run_sbrk mbind option_bind].
    + rewrite decide_False by (unfold u64; rewrite wrap_small; unfold HDR in *; lia).
      destruct (grown_heap st bl brk nu k) as (st1 & bl1 & -> & Hu1 & Hl1 & Hc1 & (b & Hb1 & Hge) & Hfr1); try done; [lia|unfold HDR in *; lia|lia|].
      cbn [run_sbrk pbind mbind option_bind]. rewrite decide_False.
      2: { pose proof (uh_freep _ _ _ _ Hu1) as ([f s] & -> & Hfin)%list_elem_of_fmap. apply elem_of_cons in Hfin as [[= -> ->]|Hfin]; simpl; [lia|].
           destruct (spaced_lt _ _ _ (uh_spaced _ _ _ _ Hu1) Hfin). unfold HDR in *. simpl in *. lia. }
      destruct (malloc_fits st1 bl1 n (k - S (length bl1))) as (st2 & bl2 & blk & Er & [T1 T2 T3 T4 T5 T6 T7]); [done|exists b; split; [done|lia]|done|].
      replace (S (length bl1) + (k - S (length bl1)))%nat with k in Er by lia. rewrite Er.
      exists (blk + HDR), st2, (brk + HDR * nu). split; [done|]. right. exists blk, bl2. split; [done|]. split; try done; [lia|unfold HDR in *; lia| |].
      * intros x. rewrite <- T5, Hc1. done.
      * intros x Hk Hx. rewrite T7; [by apply Hfr1|]. destruct Hk as [Hk1 Hk2]. split; [|done]. rewrite Hc1. intuition lia.
    + exists 0, st, brk. split; [done|]. left. unfold refused. rewrite <- Enu. done.
Qed.

(** ** Clients *)

(** A block in use: its address, the size asked for, and what the client
    believes it holds. *)
Record ublock : Type := mkUblock { uaddr : Z; ureq : Z; ucontents : list Z }.
Record client : Type := mkClient { cst : ust; cbrk : Z; live : list ublock }.

Inductive uop : Type :=
| Omalloc (nb : Z)
| Ofree (i : nat)
| Owrite (i : nat) (off : nat) (v : Z).

Definition ubytes (m : mem) (p : Z) (n : nat) : list Z := (λ i, m (p + Z.of_nat i)) <$> seq 0 n.

Definition exec_op (fuel : nat) (o : uop) (c : client) : option client :=
  match o with
  | Omalloc nb =>
      '((p, st), brk) ← run_sbrk (malloc base fuel nb (cst c)) (cbrk c);
      Some (mkClient st brk (if decide (p = 0) then live c else live c ++ [mkUblock p nb (ubytes (umem st) p (Z.to_nat nb))]))
  | Ofree i =>
      match live c !! i with
      | None => Some c
      | Some b =>
          '(st, brk) ← run_sbrk (free fuel (uaddr b) (cst c)) (cbrk c);
          Some (mkClient st brk (delete i (live c)))
      end
  | Owrite i off v =>
      match live c !! i with
      | Some b =>
          if decide (Z.of_nat off < ureq b) then
            Some (mkClient (mkUst (upd (umem (cst c)) (uaddr b + Z.of_nat off) v) (freep (cst c))) (cbrk c)
                    (<[i := mkUblock (uaddr b) (ureq b) (<[off := v]> (ucontents b))]> (live c)))
          else Some c
      | None => Some c
      end
  end.

Fixpoint exec_ops (fuel : nat) (os : list uop) (c : client) : option client :=
  match os with
  | [] => Some c
  | o :: os => c ← exec_op fuel o c; exec_ops fuel os c
  end.

(* the block with its header *)
Definition span (b : ublock) (x : Z) : Prop := inside (uaddr b - HDR, nunits_of (ureq b)) x.

Record held (m : mem) (brk : Z) (bl : list (Z * Z)) (b : ublock) : Prop := mkHeld {
  hd_req : 0 ≤ ureq b < 2 ^ 31 - 31;
  hd_place : base + HDR ≤ uaddr b - HDR ∧ uaddr b - HDR + HDR * nunits_of (ureq b) ≤ brk;
  hd_size : hsize m (uaddr b - HDR) = nunits_of (ureq b);
  hd_contents : ucontents b = ubytes m (uaddr b) (Z.to_nat (ureq b));
  hd_taken : ∀ x, span b x → ¬ covers bl x;
}.

Definition separate (l : list ublock) : Prop := ∀ i j b b', i ≠ j → l !! i = Some b → l !! j = Some b' → ∀ x, span b x → ¬ span b' x.

Record client_ok (bl : list (Z * Z)) (c : client) : Prop := mkClientOk {
  co_heap : uheap base lim (cst c) bl ∨ (freep (cst c) = 0 ∧ bl = [] ∧ live c = []);
  co_below : below bl (cbrk c);
  co_brk : base + HDR ≤ cbrk c ≤ lim;
  co_held : ∀ b, b ∈ live c → held (umem (cst c)) (cbrk c) bl b;
  co_separate : separate (live c);
}.

Lemma span_range b : 0 ≤ ureq b < 2 ^ 31 - 31 → ∀ x, uaddr b - HDR ≤ x < uaddr b + ureq b → span b x.
Proof. intros Hr x Hx. destruct (nunits_range (ureq b) Hr) as (H1 & H2 & H3). unfold span, inside, HDR in *. simpl. lia. Qed.

Lemma ubytes_ext m m' p n : (∀ x, p ≤ x < p + Z.of_nat n → m' x = m x) → ubytes m' p n = ubytes m p n.
Proof. intros H. apply list_fmap_ext. intros i j Hj. apply lookup_seq in Hj. apply H. lia. Qed.

Lemma held_frame m m' brk brk' bl bl' b : held m brk bl b → (∀ x, span b x → m' x = m x) → brk ≤ brk' → (∀ x, span b x → ¬ covers bl' x) →
  held m' brk' bl' b.
Proof.
  intros [H1 H2 H3 H4 H5] Hm Hb Hc. pose proof (span_range b H1) as Hsp. split; try done; [lia| |].
  - rewrite <- H3. apply load32_ext. intros x Hx. apply Hm, Hsp. unfold HDR in *. lia.
  - rewrite H4. symmetry. apply ubytes_ext. intros x Hx. apply Hm, Hsp. unfold HDR in *. lia.
Qed.

(* blocks in use are out of malloc's and free's way *)
Lemma held_kept m brk bl b x : held m brk bl b → span b x → kept base bl x ∧ x < brk.
Proof. intros [H1 H2 H3 H4 H5] Hx. specialize (H5 x Hx). unfold span, inside, kept in *. simpl in *. split; [split; [done|lia]|lia]. Qed.

Lemma malloc_run c bl nb fuel : client_ok bl c → 0 ≤ nb < 2 ^ 31 - 31 → (3 * length bl + 5 ≤ fuel)%nat →
  ∃ st p st' brk', run_sbrk (malloc base fuel nb (cst c)) (cbrk c) = Some ((p, st'), brk') ∧ uheap base lim st bl ∧
    (live c ≠ [] → st = cst c) ∧
    ((p = 0 ∧ st' = st ∧ brk' = cbrk c ∧ refused (cbrk c) (nunits_of nb)) ∨ ∃ blk bl', p = blk + HDR ∧ allocated st bl (cbrk c) blk (nunits_of nb) st' bl' brk').
Proof.
  intros Hok Hnb Hf. pose proof Hok as [Hh Hbl Hb _ _]. destruct (nunits_range nb Hnb) as (N1 & N2 & N3).
  assert (∃ st, (if decide (freep (cst c) = 0) then mkUst (set_hsize base 0 (set_hptr base base (umem (cst c)))) base else cst c) = st ∧
    uheap base lim st bl ∧ (live c ≠ [] → st = cst c)) as (st & E & Hu & Hst).
  { destruct Hh as [Hu|(-> & -> & ->)]; [|eexists; split_and!; [rewrite decide_True by done; reflexivity|apply init_heap|done]].
    eexists. split_and!; [|exact Hu|done]. apply decide_False. pose proof (uh_freep _ _ _ _ Hu) as ([f s] & -> & Hfin)%list_elem_of_fmap.
    apply elem_of_cons in Hfin as [[= -> ->]|Hfin]; simpl; [lia|]. destruct (spaced_lt _ _ _ (uh_spaced _ _ _ _ Hu) Hfin). unfold HDR in *. simpl in *. lia. }
  destruct (malloc_loop_run st bl (cbrk c) (nunits_of nb) fuel Hu Hbl Hb N1 N3 Hf) as (p & st' & brk' & Er & Hr).
  exists st, p, st', brk'. unfold malloc. rewrite E. done.
Qed.

Lemma allocated_below st bl brk blk n st' bl' brk' : below bl brk → allocated st bl brk blk n st' bl' brk' → 0 < n →
  below bl' brk' ∧ blk + HDR * n ≤ brk'.
Proof.
  intros Hbl Ha Hn. pose proof (al_brk _ _ _ _ _ _ _ _ Ha). split.
  - intros x Hx. assert (covers bl x ∨ brk ≤ x < brk') as [Hc|?] by (apply (al_covers _ _ _ _ _ _ _ _ Ha); by left); [apply Hbl in Hc|]; lia.
  - pose proof (al_covers _ _ _ _ _ _ _ _ Ha (blk + HDR * n - 1)) as Hx.
    destruct Hx as [_ [Hc|?]]; [right; unfold inside, HDR; simpl; lia|apply Hbl in Hc|]; lia.
Qed.

Lemma separate_snoc l b : separate l → (∀ b', b' ∈ l → ∀ x, span b' x → ¬ span b x) → separate (l ++ [b]).
Proof.
  intros Hl Hb i j b1 b2 Hij H1 H2 x Hx Hx'. apply lookup_app_Some in H1 as [H1|[E1 H1]]; apply lookup_app_Some in H2 as [H2|[E2 H2]].
  - by eapply (Hl i j b1 b2).
  - apply list_lookup_singleton_Some in H2 as [_ <-]. eapply (Hb b1); [by eapply list_elem_of_lookup_2|done|done].
  - apply list_lookup_singleton_Some in H1 as [_ <-]. eapply (Hb b2); [by eapply list_elem_of_lookup_2|done|done].
  - apply list_lookup_singleton_Some in H1 as [? _], H2 as [? _]. lia.
Qed.

Lemma separate_delete l i : separate l → separate (delete i l) ∧ ∀ b b', l !! i = Some b → b' ∈ delete i l → b' ∈ l ∧ ∀ x, span b x → ¬ span b' x.
Proof.
  intros Hl. set (f := λ j, if decide (j < i)%nat then j else S j).
  assert (∀ j, delete i l !! j = l !! f j ∧ f j ≠ i) as Hd.
  { intros j. unfold f. destruct (decide (j < i)%nat); [rewrite list_lookup_delete_lt by lia|rewrite list_lookup_delete_ge by lia]; (split; [done|lia]). }
  split.
  - intros j j' b1 b2 Hij H1 H2. destruct (Hd j) as [E1 _], (Hd j') as [E2 _]. apply (Hl (f j) (f j')); [|congruence|congruence]. unfold f. repeat case_decide; lia.
  - intros b b' Hb (j & Hj)%list_elem_of_lookup. destruct (Hd j) as [E Hne]. rewrite E in Hj. split; [by eapply list_elem_of_lookup_2|]. by apply (Hl i (f j)).
Qed.

Lemma exec_malloc c bl nb fuel : client_ok bl c → 0 ≤ nb < 2 ^ 31 - 31 → (3 * length bl + 5 ≤ fuel)%nat →
  ∃ c' bl', exec_op fuel (Omalloc nb) c = Some c' ∧ client_ok bl' c' ∧ (length bl' ≤ S (length bl))%nat ∧
    (refused (cbrk c) (nunits_of nb) ∨ ∃ b, live c' = live c ++ [b] ∧ ureq b = nb).
Proof.
  intros Hok Hnb Hf. destruct (malloc_run c bl nb fuel Hok Hnb Hf) as (st & p & st' & brk' & Er & Hu & Hst & Hr). pose proof Hok as [_ Hbl Hb Hh Hs].
  unfold exec_op. rewrite Er. cbn [mbind option_bind]. destruct Hr as [(-> & -> & -> & Hno)|(blk & bl' & -> & Ha)].
  - eexists _, bl. split_and!; [reflexivity| |lia|by left]. rewrite decide_True by done. split; simpl; auto.
    intros b Hb'. rewrite Hst by (intros E; rewrite E in Hb'; by apply elem_of_nil in Hb'). auto.
  - eexists _, bl'. split; [reflexivity|]. destruct (nunits_range nb Hnb) as (N1 & N2 & N3). destruct (allocated_below _ _ _ _ _ _ _ _ Hbl Ha N1) as [B1 B2].
    destruct Ha as [A1 A2 A3 A4 A5 A6 A7 A8]. rewrite decide_False by (unfold HDR in *; lia). split_and!; [|done|right; eexists; split; [reflexivity|done]].
    assert (∀ b, b ∈ live c → ∀ x, span b x → ¬ inside (blk, nunits_of nb) x) as Hnew.
    { intros b Hb' x Hx Hx'. destruct (held_kept _ _ _ _ x (Hh b Hb') Hx) as [[Hk _] Hlt]. destruct (A6 x) as [_ [?|?]]; [by right|done|lia]. }
    split; cbn [cst cbrk live umem freep]; [by left|done|lia| |].
    + intros b [Hb'|Hb'%list_elem_of_singleton]%elem_of_app; [|subst b].
      * pose proof (Hh b Hb') as Hhb. eapply held_frame; [exact Hhb| |lia|].
        -- intros x Hx. destruct (held_kept _ _ _ _ x Hhb Hx). rewrite A8 by done. rewrite Hst; [done|]. intros E. rewrite E in Hb'. by apply elem_of_nil in Hb'.
        -- intros x Hx Hc. destruct (held_kept _ _ _ _ x Hhb Hx) as [[Hk _] Hlt]. destruct (A6 x) as [_ [?|?]]; [by left|done|lia].
      * split; cbn [uaddr ureq ucontents]; replace (blk + HDR - HDR) with blk by lia; [done|split; [lia|done]|done|done|]. unfold span. simpl. replace (blk + HDR - HDR) with blk by lia.
        intros x Hx Hc. by apply (A7 x).
    + apply separate_snoc; [done|]. intros b Hb' x Hx. unfold span at 1. simpl. replace (blk + HDR - HDR) with blk by lia. by eapply Hnew.
Qed.

Lemma exec_free c bl i fuel : client_ok bl c → (3 * length bl + 5 ≤ fuel)%nat →
  ∃ c' bl', exec_op fuel (Ofree i) c = Some c' ∧ client_ok bl' c' ∧ (length bl' ≤ S (length bl))%nat.
Proof.
  intros Hok Hf. pose proof Hok as [Hu Hbl Hb Hh Hs]. unfold exec_op. destruct (live c !! i) as [b|] eqn:Ei; [|exists c, bl; auto].
  assert (b ∈ live c) as Hin by (by eapply list_elem_of_lookup_2). destruct Hu as [Hu|(_ & _ & E)]; [|by rewrite E in Ei].
  pose proof (Hh b Hin) as [B1 B2 B3 B4 B5]. destruct (nunits_range _ B1) as (N1 & N2 & N3). set (blk := uaddr b - HDR) in *.
  destruct (free_spec base lim Hbase Hlim Hspan Hroom (cst c) bl blk fuel Hu) as (st' & bl' & H1 & H2 & H3 & H4 & _ & H6); rewrite ?B3 in *; [lia|lia|lia| |lia|].
  { intros d Hd. destruct (uh_sizes _ _ _ _ Hu d Hd) as [D1 _]. destruct (decide (d.1 + HDR * d.2 ≤ blk)) as [|Hgt]; [by left|right].
    destruct (decide (blk + HDR * nunits_of (ureq b) ≤ d.1)) as [|Hle]; [done|exfalso]. apply (B5 (Z.max d.1 blk)); [unfold span, inside; fold blk; simpl; unfold HDR in *; lia|].
    exists d. split; [done|]. unfold inside, HDR in *. lia. }
  replace (uaddr b) with (blk + HDR) by (unfold blk; lia). rewrite H1. cbn [run_sbrk mbind option_bind]. eexists _, bl'. split_and!; [reflexivity| |done].
  destruct (separate_delete _ i Hs) as [S1 S2]. split; cbn [cst cbrk live]; [by left| |done| |done].
  - intros x [Hx|Hx]%H4; [by apply Hbl|]. unfold inside in Hx. simpl in Hx. lia.
  - intros b' Hb'. destruct (S2 b b' Ei Hb') as [Hb2 Hdis]. pose proof (Hh b' Hb2) as Hhb. assert (∀ x, span b' x → ¬ inside (blk, nunits_of (ureq b)) x) as Hn by (intros x Hx Hx'; by apply (Hdis x)).
    eapply held_frame; [exact Hhb| |done|].
    + intros x Hx. apply H6; [by destruct (held_kept _ _ _ _ x Hhb Hx)|by apply Hn].
    + intros x Hx. rewrite H4. destruct (held_kept _ _ _ _ x Hhb Hx) as [[? _] _]. specialize (Hn x Hx). tauto.
Qed.

Lemma separate_insert l i b b' : separate l → l !! i = Some b → (∀ x, span b' x ↔ span b x) → separate (<[i := b']> l).
Proof.
  intros Hl Hi Hsp. assert (∀ j c, <[i := b']> l !! j = Some c → ∃ d, l !! j = Some d ∧ ∀ x, span c x ↔ span d x) as Hsame.
  { intros j c. rewrite list_lookup_insert. destruct (decide _) as [[<- _]|]; [intros [= <-]|]; eauto. }
  intros j j' c c' Hj (d & H1 & E1)%Hsame (d' & H2 & E2)%Hsame x. rewrite E1, E2. by apply (Hl j j').
Qed.

Lemma ubytes_upd m p n off v : (off < n)%nat → ubytes (upd m (p + Z.of_nat off) v) p n = <[off := v]> (ubytes m p n).
Proof.
  intros Ho. apply list_eq. intros i. unfold ubytes. rewrite list_lookup_insert, length_fmap, length_seq, !list_lookup_fmap.
  destruct (decide (i < n)%nat) as [Hi|Hi]; [|rewrite !lookup_seq_ge by lia; rewrite decide_False by lia; done].
  rewrite lookup_seq_lt by done. simpl. destruct (decide (off = i)) as [->|].
  - rewrite upd_eq. by rewrite decide_True by lia.
  - rewrite upd_ne by lia. by rewrite decide_False by lia.
Qed.

Lemma exec_write c bl i off v fuel : client_ok bl c → ∃ c', exec_op fuel (Owrite i off v) c = Some c' ∧ client_ok bl c'.
Proof.
  intros Hok. pose proof Hok as [Hu Hbl Hb Hh Hs]. unfold exec_op. destruct (live c !! i) as [b|] eqn:Ei; [|eauto].
  destruct (decide (Z.of_nat off < ureq b)) as [Ho|]; [|eauto]. eexists. split; [reflexivity|].
  assert (b ∈ live c) as Hin by (by eapply list_elem_of_lookup_2). pose proof (Hh b Hin) as Hhb. pose proof Hhb as [B1 B2 B3 B4 B5].
  set (a := uaddr b + Z.of_nat off). assert (span b a) as Ha by (apply span_range; [done|unfold a, HDR in *; lia]).
  assert (∀ b', span b' a → b' ∈ live c → b' = b) as Hone.
  { intros b' Hb' (j & Hj)%list_elem_of_lookup. destruct (decide (i = j)) as [->|Hij]; [congruence|]. by destruct (Hs i j b b' Hij Ei Hj a). }
  split; cbn [cst cbrk live umem freep]; [|done|done| |].
  - destruct Hu as [Hu|(_ & _ & E)]; [left|by rewrite E in Ei]. apply (uheap_frame (cst c)); [|done|done]. simpl. intros x Hx. apply upd_ne. intros ->.
    destruct (held_kept _ _ _ _ a Hhb Ha) as [[K1 K2] _]. tauto.
  - intros b' Hb'. apply list_elem_of_lookup in Hb' as (j & Hj). apply list_lookup_insert_Some in Hj as [(-> & <- & _)|(Hne & Hj)].
    + split; cbn [uaddr ureq ucontents]; [exact B1|exact B2| | |exact B5].
      * rewrite <- B3. apply load32_ext. intros x Hx. apply upd_ne. unfold a, HDR in *. lia.
      * rewrite B4. symmetry. apply ubytes_upd. lia.
    + assert (b' ∈ live c) as Hb' by (by eapply list_elem_of_lookup_2). eapply held_frame; [by apply Hh| |done|].
      * intros x Hx. apply upd_ne. intros ->. by apply (Hs i j b b' Hne Ei Hj a).
      * apply (hd_taken _ _ _ _ (Hh b' Hb')).
  - eapply separate_insert; [done|exact Ei|done].
Qed.

Definition fair_op (o : uop) : Prop := match o with Omalloc nb => 0 ≤ nb < 2 ^ 31 - 31 | _ => True end.

Lemma exec_ops_ok os : ∀ c bl fuel, client_ok bl c → Forall fair_op os → (3 * (length bl + length os) + 5 ≤ fuel)%nat →
  ∃ c' bl', exec_ops fuel os c = Some c' ∧ client_ok bl' c' ∧ (length bl' ≤ length bl + length os)%nat.
Proof.
  induction os as [|o os IH]; intros c bl fuel Hok Ho Hf; [exists c, bl; simpl; split_and!; [done|done|lia]|]. apply list.Forall_cons in Ho as [Ho Hos]. simpl in Hf.
  assert (∃ c' bl', exec_op fuel o c = Some c' ∧ client_ok bl' c' ∧ (length bl' ≤ S (length bl))%nat) as (c1 & bl1 & E & Hok1 & Hl).
  { destruct o as [nb|i|i off v].
    - destruct (exec_malloc c bl nb fuel Hok Ho) as (c' & bl' & ? & ? & ? & _); [lia|]. eauto.
    - apply exec_free; [done|lia].
    - destruct (exec_write c bl i off v fuel Hok) as (c' & ? & ?). exists c', bl. eauto. }
  simpl. rewrite E. simpl. destruct (IH c1 bl1 fuel Hok1 Hos) as (c' & bl' & ? & ? & ?); [lia|]. exists c', bl'. split_and!; [done|done|lia].
Qed.

End Client.

(** C20 A client that asks malloc only for sizes below 2^31 - 31, on a heap
    that spans less than 2^36 bytes (larger sizes are cut to an int on the way
    to sbrk), performs any sequence of malloc, free of a block in use and writes
    into blocks in use; the kernel moves the break or refuses to.  Every call
    terminates; the blocks in use lie inside the heap and do not overlap; each
    holds exactly the bytes the client last wrote to it (malloc and free never
    touch a block in use); and when the kernel does grant memory the next
    malloc returns a block of the size asked for. *)
Theorem malloc_free_sound base lim grant m brk os : 0 < base → lim < 2 ^ 64 → lim - base < 2 ^ 36 → base + HDR ≤ brk ≤ lim → Forall fair_op os →
  ∃ c, exec_ops base lim grant (3 * length os + 5) os (mkClient (mkUst m 0) brk []) = Some c ∧
    (∀ b, b ∈ live c → base + 2 * HDR ≤ uaddr b ∧ uaddr b + ureq b ≤ cbrk c ∧ ucontents b = ubytes (umem (cst c)) (uaddr b) (Z.to_nat (ureq b))) ∧
    (∀ i j b b' x, i ≠ j → live c !! i = Some b → live c !! j = Some b' → uaddr b ≤ x < uaddr b + ureq b → ¬ uaddr b' ≤ x < uaddr b' + ureq b') ∧
    (∀ nb, 0 ≤ nb < 2 ^ 31 - 31 → cbrk c + HDR * Z.max 4096 (nunits_of nb) ≤ lim → grant (cbrk c) (HDR * Z.max 4096 (nunits_of nb)) = true →
       ∃ c' b, exec_op base lim grant (3 * length os + 5) (Omalloc nb) c = Some c' ∧ live c' = live c ++ [b] ∧ ureq b = nb).
Proof.
  intros H1 H2 H3 H4 Ho. assert (base + HDR ≤ lim) as H5 by lia.
  destruct (exec_ops_ok base lim grant H1 H2 H3 H5 os (mkClient (mkUst m 0) brk []) [] (3 * length os + 5)) as (c & bl & E & Hok & Hl); [|done|simpl; lia|].
  { split; simpl; [by right|by intros x ?%covers_nil|done|by intros ? ?%elem_of_nil|done]. }
  pose proof Hok as [_ _ Hb Hh Hs]. exists c. split_and!; [done| | |].
  - intros b Hin. destruct (Hh b Hin) as [B1 B2 B3 B4 _]. destruct (nunits_range _ B1) as (N1 & N2 & N3). split_and!; [lia|lia|done].
  - intros i j b b' x Hij Hi Hj Hx Hx'. apply (Hs i j b b' Hij Hi Hj x); apply span_range; try (unfold HDR in *; lia).
    all: eapply hd_req, Hh, list_elem_of_lookup_2; eassumption.
  - intros nb Hnb Hfit Hg. simpl in Hl. destruct (exec_malloc base lim grant H1 H2 H3 H5 c bl nb (3 * length os + 5) Hok Hnb) as (c' & bl' & E' & _ & _ & [Hno|(b & ? & ?)]); [lia| |eauto].
    exfalso. by apply Hno.
Qed.

Definition ex_ops : list uop := [Omalloc 10; Omalloc 100; Owrite 0 3 65; Ofree 0; Omalloc 20; Omalloc 100000; Ofree 1; Ofree 0].
Definition ex_grant (brk n : Z) : bool := bool_decide (brk < 1000000).

Lemma malloc_free_sound_witness : ∃ c,
  exec_ops 4096 (2 ^ 30) ex_grant (3 * length ex_ops + 5) ex_ops (mkClient (mkUst (λ _, 0) 0) 8192 []) = Some c.
Proof.
  destruct (malloc_free_sound 4096 (2 ^ 30) ex_grant (λ _, 0) 8192 ex_ops) as (c & E & _); [lia|lia|lia|unfold HDR; lia| |eauto].
  unfold ex_ops, fair_op. repeat constructor; lia.
Defined.

(** The number of bytes malloc asks sbrk for is cut to an int: for a size of
    2^32 - 1 the break moves by 16, and the block handed out ends nowhere near
    the memory behind it. *)
Lemma malloc_truncated : ∃ st,
  run_sbrk (2 ^ 40) (λ _ _, true) (malloc 4096 20 (2 ^ 32 - 1) (mkUst (λ _, 0) 0)) 8192 = Some ((8192 + HDR, st), 8192 + 16).
Proof. eexists. vm_compute. reflexivity. Qed.
