(* ===== verification/UserProgs.v ===== *)
(** * The small user programs (user/cat.c, echo.c, grep.c, init.c, kill.c,
      ln.c, ls.c, mkdir.c, rm.c, wc.c, zombie.c)

    Each program is a tree of system calls over its argument strings, argv[0]
    included.  [fuel] bounds the number of reads from a descriptor, and the
    rounds of init's two endless loops. *)

From S2P Require Import Prelude CString FsDefs Printf Fs File Sysfile Grep Wc UserSys Ulib.

Definition line (s : string) : list Z := ustr s ++ [10].
(* the string as a char array *)
Definition arr (s : list Z) : mem := λ a, if decide (0 ≤ a) then default 0 (s !! Z.to_nat a) else 0.

Module Cat.
Fixpoint cat (fuel : nat) (fd : Z) : prog unit :=
  match fuel with
  | O => Fuel
  | S fuel =>
      r <~ call (Sread fd 512) ;
      let '(n, buf) := r in
      if decide (0 < n) then
        w <~ call (Swrite 1 (take (Z.to_nat n) buf)) ;
        if decide (w ≠ n) then fprintf 2 (line "cat: write error") [] ;~ exit 1
        else cat fuel fd
      else if decide (n < 0) then fprintf 2 (line "cat: read error") [] ;~ exit 1
      else Ret tt
  end.

Fixpoint files (fuel : nat) (args : list (list Z)) : prog unit :=
  match args with
  | [] => Ret tt
  | a :: args =>
      fd <~ call (Sopen a O_RDONLY) ;
      if decide (fd < 0) then fprintf 2 (line "cat: cannot open %s") [AStr (Some a)] ;~ exit 1
      else cat fuel fd ;~ call (Sclose fd) ;~ files fuel args
  end.

Definition main (fuel : nat) (argv : list (list Z)) : prog unit :=
  if decide (length argv ≤ 1)%nat then cat fuel 0 ;~ exit 0
  else files fuel (tail argv) ;~ exit 0.
End Cat.

Module Echo.
Fixpoint words (args : list (list Z)) : prog unit :=
  match args with
  | [] => Ret tt
  | a :: args =>
      call (Swrite 1 a) ;~
      (if decide (args ≠ []) then call (Swrite 1 [32]) else call (Swrite 1 [10])) ;~
      words args
  end.
Definition main (argv : list (list Z)) : prog unit := words (tail argv) ;~ exit 0.
End Echo.

Module Kill.
Fixpoint each (args : list (list Z)) : prog unit :=
  match args with
  | [] => Ret tt
  | a :: args =>
      match atoi (S (length a)) (arr a) 0 with
      | Some pid => call (Skill pid) ;~ each args
      | None => Fuel
      end
  end.
Definition main (argv : list (list Z)) : prog unit :=
  if decide (length argv < 2)%nat then fprintf 2 (line "usage: kill pid...") [] ;~ exit 1
  else each (tail argv) ;~ exit 0.
End Kill.

Module Ln.
Definition main (argv : list (list Z)) : prog unit :=
  match argv with
  | [_; old; new] =>
      r <~ call (Slink old new) ;
      (if decide (r < 0) then fprintf 2 (line "link %s %s: failed") [AStr (Some old); AStr (Some new)] else Ret tt) ;~
      exit 0
  | _ => fprintf 2 (line "Usage: ln old new") [] ;~ exit 1
  end.
End Ln.

Module Mkdir.
Fixpoint each (args : list (list Z)) : prog unit :=
  match args with
  | [] => Ret tt
  | a :: args =>
      r <~ call (Smkdir a) ;
      if decide (r < 0) then fprintf 2 (line "mkdir: %s failed to create") [AStr (Some a)]
      else each args
  end.
Definition main (argv : list (list Z)) : prog unit :=
  if decide (length argv < 2)%nat then fprintf 2 (line "Usage: mkdir files...") [] ;~ exit 1
  else each (tail argv) ;~ exit 0.
End Mkdir.

Module Rm.
Fixpoint each (args : list (list Z)) : prog unit :=
  match args with
  | [] => Ret tt
  | a :: args =>
      r <~ call (Sunlink a) ;
      if decide (r < 0) then fprintf 2 (line "rm: %s failed to delete") [AStr (Some a)]
      else each args
  end.
Definition main (argv : list (list Z)) : prog unit :=
  if decide (length argv < 2)%nat then fprintf 2 (line "Usage: rm files...") [] ;~ exit 1
  else each (tail argv) ;~ exit 0.
End Rm.

Module Zombie.
Definition main : prog unit :=
  pid <~ call Sfork ;
  (if decide (0 < pid) then call (Spause 5) ;~ Ret tt else Ret tt) ;~
  exit 0.
End Zombie.

Module Init.
Definition argv : list (list Z) := [ustr "sh"].
Definition console : list Z := ustr "console".
Definition CONSOLE : Z := 1.

(* the inner for(;;): until the shell exits *)
Fixpoint await (fuel : nat) (pid : Z) : prog unit :=
  match fuel with
  | O => Fuel
  | S fuel =>
      r <~ call Swait ;
      let wpid := r.1 in
      if decide (wpid = pid) then Ret tt
      else if decide (wpid < 0) then uprintf (line "init: wait returned an error") [] ;~ exit 1
      else await fuel pid
  end.

(* the outer for(;;) *)
Fixpoint shells (fuel : nat) : prog unit :=
  match fuel with
  | O => Fuel
  | S fuel =>
      uprintf (line "init: starting sh") [] ;~
      pid <~ call Sfork ;
      if decide (pid < 0) then uprintf (line "init: fork failed") [] ;~ exit 1
      else if decide (pid = 0) then
        call (Sexec (ustr "sh") argv) ;~ uprintf (line "init: exec sh failed") [] ;~ exit 1
      else await fuel pid ;~ shells fuel
  end.

Definition main (fuel : nat) : prog unit :=
  fd <~ call (Sopen console O_RDWR) ;
  (if decide (fd < 0) then
     call (Smknod console CONSOLE 0) ;~ call (Sopen console O_RDWR) ;~ Ret tt
   else Ret tt) ;~
  call (Sdup 0) ;~ call (Sdup 0) ;~
  shells fuel.
End Init.

Module Ls.
Definition slash : Z := 47.
(* the loop of fmtname, from the index k down; the name starts after it *)
Fixpoint after_slash (path : list Z) (k : nat) : nat :=
  if decide (path !! k = Some slash) then S k else match k with O => O | S k => after_slash path k end.
Definition base_name (path : list Z) : list Z := drop (after_slash path (length path)) path.

Definition fmtname (path : list Z) : list Z :=
  let p := base_name path in
  if decide (DIRSIZ ≤ Z.of_nat (length p)) then p
  else p ++ replicate (Z.to_nat DIRSIZ - length p) 32.

(* struct stat in memory *)
Definition s_ino (st : list Z) : Z := get32 4 st.
Definition s_type (st : list Z) : Z := i16 (get16 8 st).
Definition s_size (st : list Z) : Z := get_le 8 16 st.

Definition show (path st : list Z) : prog unit :=
  uprintf (line "%s %d %d %d") [AStr (Some (fmtname path)); AInt (s_type st); AInt (s_ino st); AInt (i32 (s_size st))].

(* a name in a directory entry, up to the NUL if there is one *)
Fixpoint upto_nul (l : list Z) : list Z := match l with [] => [] | b :: l => if decide (b = 0) then [] else b :: upto_nul l end.

(* while(read(fd, &de, sizeof(de)) == sizeof(de)) *)
Fixpoint entries (fuel : nat) (fd : Z) (path : list Z) : prog unit :=
  match fuel with
  | O => Fuel
  | S fuel =>
      r <~ call (Sread fd 16) ;
      let '(n, de) := r in
      if decide (n ≠ 16) then Ret tt
      else if decide (get16 0 de = 0) then entries fuel fd path
      else
        let buf := path ++ [slash] ++ upto_nul (take (Z.to_nat DIRSIZ) (drop 2 de)) in
        r <~ stat buf ;
        let '(ok, st) := r in
        (if decide (ok < 0) then uprintf (line "ls: cannot stat %s") [AStr (Some buf)] else show buf st) ;~
        entries fuel fd path
  end.

Definition ls (fuel : nat) (path : list Z) : prog unit :=
  fd <~ call (Sopen path O_RDONLY) ;
  if decide (fd < 0) then fprintf 2 (line "ls: cannot open %s") [AStr (Some path)]
  else
    r <~ call (Sfstat fd) ;
    let '(ok, st) := r in
    if decide (ok < 0) then fprintf 2 (line "ls: cannot stat %s") [AStr (Some path)] ;~ call (Sclose fd) ;~ Ret tt
    else
      (if decide (s_type st = T_DEVICE ∨ s_type st = T_FILE) then show path st
       else if decide (s_type st = T_DIR) then
         if decide (512 < Z.of_nat (length path) + 1 + DIRSIZ + 1) then uprintf (line "ls: path too long") []
         else entries fuel fd path
       else Ret tt) ;~
      call (Sclose fd) ;~ Ret tt.

Fixpoint each (fuel : nat) (args : list (list Z)) : prog unit :=
  match args with [] => Ret tt | a :: args => ls fuel a ;~ each fuel args end.
Definition main (fuel : nat) (argv : list (list Z)) : prog unit :=
  if decide (length argv < 2)%nat then ls fuel (ustr ".") ;~ exit 0
  else each fuel (tail argv) ;~ exit 0.
End Ls.

Module WcMain.
(* the while loop; the counters and the last answer of read *)
Fixpoint count (fuel : nat) (fd : Z) (s : counts) : prog (counts * Z) :=
  match fuel with
  | O => Fuel
  | S fuel =>
      r <~ call (Sread fd 512) ;
      let '(n, buf) := r in
      if decide (0 < n) then count fuel fd (wc_buf s (take (Z.to_nat n) buf)) else Ret (s, n)
  end.
Definition wc (fuel : nat) (fd : Z) (name : list Z) : prog unit :=
  r <~ count fuel fd (mkCounts 0 0 0 false) ;
  let '(s, n) := r in
  if decide (n < 0) then uprintf (line "wc: read error") [] ;~ exit 1
  else uprintf (line "%d %d %d %s") [AInt (lines s); AInt (words s); AInt (chars s); AStr (Some name)].

Fixpoint files (fuel : nat) (args : list (list Z)) : prog unit :=
  match args with
  | [] => Ret tt
  | a :: args =>
      fd <~ call (Sopen a O_RDONLY) ;
      if decide (fd < 0) then uprintf (line "wc: cannot open %s") [AStr (Some a)] ;~ exit 1
      else wc fuel fd a ;~ call (Sclose fd) ;~ files fuel args
  end.
Definition main (fuel : nat) (argv : list (list Z)) : prog unit :=
  if decide (length argv ≤ 1)%nat then wc fuel 0 [] ;~ exit 0
  else files fuel (tail argv) ;~ exit 0.
End WcMain.

Module GrepMain.
(* the inner while: writes the matching lines, returns what is left *)
Fixpoint lines (fuel : nat) (pattern p : list Z) : prog (list Z) :=
  match fuel with
  | O => Ret p
  | S fuel =>
      match strchr_nl p with
      | None => Ret p
      | Some (l, rest) =>
          (if grep_match pattern l then call (Swrite 1 (l ++ [newline])) ;~ Ret tt else Ret tt) ;~
          lines fuel pattern rest
      end
  end.

(* m is the unfinished line at the start of the buffer *)
Fixpoint grep (fuel : nat) (pattern : list Z) (fd : Z) (m : list Z) : prog unit :=
  match fuel with
  | O => Fuel
  | S fuel =>
      r <~ call (Sread fd (bufsize - Z.of_nat (length m) - 1)) ;
      let '(n, bs) := r in
      if decide (0 < n) then
        let b := m ++ take (Z.to_nat n) bs in
        p <~ lines (length b) pattern b ;
        grep fuel pattern fd p
      else Ret tt
  end.

Fixpoint files (fuel : nat) (pattern : list Z) (args : list (list Z)) : prog unit :=
  match args with
  | [] => Ret tt
  | a :: args =>
      fd <~ call (Sopen a O_RDONLY) ;
      if decide (fd < 0) then uprintf (line "grep: cannot open %s") [AStr (Some a)] ;~ exit 1
      else grep fuel pattern fd [] ;~ call (Sclose fd) ;~ files fuel pattern args
  end.
Definition main (fuel : nat) (argv : list (list Z)) : prog unit :=
  match argv with
  | _ :: pattern :: args =>
      if decide (args = []) then grep fuel pattern 0 [] ;~ exit 0
      else files fuel pattern args ;~ exit 0
  | _ => fprintf 2 (line "usage: grep pattern [file ...]") [] ;~ exit 1
  end.
End GrepMain.
