(* ===== verification/UserStreams.v ===== *)
(** * The text filters on files

    [serve] runs a program on open files and two output streams.  A read hands
    out some of what is left of the file, as many bytes as [piece] says, at
    least one and at most what was asked for, so the theorems hold however the
    reads divide the input. *)

From S2P Require Import Prelude Grep Wc Printf Sysfile UserSys Ulib UserProgs.

Inductive stream : Type := In (b : list Z) | Out | Err.
Record io : Type := mkIo { ifds : list (option stream); out1 : list Z; out2 : list Z }.

Fixpoint free_slot (t : list (option stream)) : option nat :=
  match t with [] => None | None :: _ => Some O | Some _ :: t => S <$> free_slot t end.
Definition slot (t : list (option stream)) (fd : Z) : option stream := if decide (0 ≤ fd) then mjoin (t !! Z.to_nat fd) else None.

Section Serve.
Variables (fs : list Z → option (list Z)) (piece : list Z → nat).

(** [inl] is the status of exit, [inr] the value returned. *)
Fixpoint serve {A} (m : prog A) (s : io) : option (io * (Z + A)) :=
  match m with
  | Ret a => Some (s, inr a)
  | @Call _ R c k =>
      match c in sys R return (R → prog A) → option (io * (Z + A)) with
      | Sexit status => λ _, Some (s, inl status)
      | Sread fd n => λ k,
          match slot (ifds s) fd with
          | Some (In b) =>
              let len := Nat.min (Nat.max 1 (piece b)) (Z.to_nat n) in
              serve (k (Z.of_nat (length (take len b)), take len b)) (mkIo (<[Z.to_nat fd := Some (In (drop len b))]> (ifds s)) (out1 s) (out2 s))
          | _ => serve (k (-1, [])) s
          end
      | Swrite fd bs => λ k,
          match slot (ifds s) fd with
          | Some Out => serve (k (Z.of_nat (length bs))) (mkIo (ifds s) (out1 s ++ bs) (out2 s))
          | Some Err => serve (k (Z.of_nat (length bs))) (mkIo (ifds s) (out1 s) (out2 s ++ bs))
          | _ => serve (k (-1)) s
          end
      | Sopen path _ => λ k,
          match fs path, free_slot (ifds s) with
          | Some b, Some i => serve (k (Z.of_nat i)) (mkIo (<[i := Some (In b)]> (ifds s)) (out1 s) (out2 s))
          | _, _ => serve (k (-1)) s
          end
      | Sclose fd => λ k,
          match slot (ifds s) fd with
          | Some _ => serve (k 0) (mkIo (<[Z.to_nat fd := None]> (ifds s)) (out1 s) (out2 s))
          | None => serve (k (-1)) s
          end
      | _ => λ _, None
      end k
  | _ => None
  end.

Definition and_then {A B} (r : option (io * (Z + A))) (f : A → io → option (io * (Z + B))) : option (io * (Z + B)) :=
  match r with
  | Some (s, inr a) => f a s
  | Some (s, inl st) => Some (s, inl st)
  | None => None
  end.

Lemma serve_bind {A B} (m : prog A) (f : A → prog B) s : serve (pbind m f) s = and_then (serve m s) (λ a, serve (f a)).
Proof.
  revert s. induction m as [a|R c k IH| |]; intros s; try done. destruct c; simpl; try done.
  all: repeat case_match; try apply IH.
Qed.

(** Standard output and standard error are open. *)
Definition std (t : list (option stream)) : Prop := t !! 1%nat = Some (Some Out) ∧ t !! 2%nat = Some (Some Err).
Definition say (bs : list Z) (s : io) : io := mkIo (ifds s) (out1 s ++ bs) (out2 s).

Lemma say_nil s : say [] s = s.
Proof. destruct s. unfold say. simpl. by rewrite app_nil_r. Qed.
Lemma say_say b1 b2 s : say b2 (say b1 s) = say (b1 ++ b2) s.
Proof. unfold say. simpl. by rewrite app_assoc. Qed.

Lemma serve_write bs s : std (ifds s) → serve (call (Swrite 1 bs)) s = Some (say bs s, inr (Z.of_nat (length bs))).
Proof.
  intros [H1 _]. assert (slot (ifds s) 1 = Some Out) as E by (unfold slot; change (Z.to_nat 1) with 1%nat; by rewrite H1).
  cbn [call serve]. by rewrite E.
Qed.

Lemma serve_put bs : ∀ s, std (ifds s) → serve (put_bytes 1 bs) s = Some (say bs s, inr tt).
Proof.
  induction bs as [|b bs IH]; intros s Hs; cbn [put_bytes]; [by rewrite say_nil|]. rewrite serve_bind, serve_write by done. cbn [and_then].
  rewrite IH by done. by rewrite say_say.
Qed.
Lemma serve_printf fmt args out s : std (ifds s) → User.vprintf fmt args = Some out → serve (uprintf fmt args) s = Some (say out s, inr tt).
Proof. intros Hs E. unfold uprintf, fprintf. rewrite E. by apply serve_put. Qed.

Lemma free_slot_spec t i : free_slot t = Some i → t !! i = Some None.
Proof.
  revert i. induction t as [|[x|] t IH]; intros i; simpl; [done| |by intros [= <-]]. destruct (free_slot t) as [j|]; simpl; [|done]. intros [= <-]. by apply IH.
Qed.

(** One descriptor holds an open file; the rest is as in [s]. *)
Definition opened (i : nat) (b : list Z) (s : io) : io := mkIo (<[i := Some (In b)]> (ifds s)) (out1 s) (out2 s).

Lemma opened_std i b s : std (ifds s) → ifds s !! i = Some None → std (ifds (opened i b s)).
Proof. intros [H1 H2] Hi. split; simpl; rewrite list_lookup_insert_ne by congruence; done. Qed.
Lemma opened_say i b bs s : say bs (opened i b s) = opened i b (say bs s).
Proof. done. Qed.
Lemma opened_opened i b b' s : opened i b' (opened i b s) = opened i b' s.
Proof. unfold opened. simpl. by rewrite list_insert_insert_eq. Qed.

Lemma serve_read i b n s : ifds s !! i = Some None → ∃ k, (0 < k)%nat ∧
  serve (call (Sread (Z.of_nat i) n)) (opened i b s) =
    Some (opened i (drop (Nat.min k (Z.to_nat n)) b) s, inr (Z.of_nat (length (take (Nat.min k (Z.to_nat n)) b)), take (Nat.min k (Z.to_nat n)) b)).
Proof.
  intros Hi. exists (Nat.max 1 (piece b)). split; [lia|]. assert (slot (ifds (opened i b s)) (Z.of_nat i) = Some (In b)) as E.
  { unfold slot. rewrite decide_True by lia. rewrite Nat2Z.id. simpl. rewrite list_lookup_insert_eq by (by eapply lookup_lt_Some). done. }
  cbn [call serve]. rewrite E. simpl. rewrite Nat2Z.id. unfold opened. simpl. by rewrite list_insert_insert_eq.
Qed.

Lemma serve_close i b s : ifds s !! i = Some None → serve (call (Sclose (Z.of_nat i))) (opened i b s) = Some (s, inr 0).
Proof.
  intros Hi. assert (slot (ifds (opened i b s)) (Z.of_nat i) = Some (In b)) as E.
  { unfold slot. rewrite decide_True by lia. rewrite Nat2Z.id. simpl. rewrite list_lookup_insert_eq by (by eapply lookup_lt_Some). done. }
  cbn [call serve]. rewrite E. simpl. rewrite Nat2Z.id, list_insert_insert_eq, list_insert_id by done. by destruct s.
Qed.

Lemma serve_open path mode b i s : fs path = Some b → free_slot (ifds s) = Some i →
  serve (call (Sopen path mode)) s = Some (opened i b s, inr (Z.of_nat i)).
Proof. intros Ep Ei. cbn [call serve]. by rewrite Ep, Ei. Qed.

Lemma serve_read_some i b n s : ifds s !! i = Some None → b ≠ [] → 0 < n → ∃ got rest, b = got ++ rest ∧ got ≠ [] ∧
  serve (call (Sread (Z.of_nat i) n)) (opened i b s) = Some (opened i rest s, inr (Z.of_nat (length got), got)).
Proof.
  intros Hi Hb Hn. destruct (serve_read i b n s Hi) as (k & Hk & E). exists (take (Nat.min k (Z.to_nat n)) b), (drop (Nat.min k (Z.to_nat n)) b).
  split_and!; [by rewrite take_drop| |done]. destruct b; [done|]. destruct (Nat.min k (Z.to_nat n)) eqn:E'; [lia|done].
Qed.
Lemma serve_read_none i b n s : ifds s !! i = Some None → b = [] ∨ n ≤ 0 →
  ∃ rest, serve (call (Sread (Z.of_nat i) n)) (opened i b s) = Some (opened i rest s, inr (0, [])).
Proof.
  intros Hi Hb. destruct (serve_read i b n s Hi) as (k & Hk & E). exists (drop (Nat.min k (Z.to_nat n)) b). rewrite E.
  assert (take (Nat.min k (Z.to_nat n)) b = []) as -> by (destruct Hb as [->|Hn]; [by rewrite take_nil|by replace (Nat.min k (Z.to_nat n)) with 0%nat by lia]). done.
Qed.

(** ** cat *)

Lemma cat_spec i : ∀ fuel b s, std (ifds s) → ifds s !! i = Some None → (length b < fuel)%nat →
  ∃ rest, serve (Cat.cat fuel (Z.of_nat i)) (opened i b s) = Some (opened i rest (say b s), inr tt).
Proof.
  induction fuel as [|fuel IH]; intros b s Hs Hi Hf; [lia|]. cbn [Cat.cat]. rewrite serve_bind. destruct (decide (b = [])) as [->|Hb].
  - destruct (serve_read_none i [] 512 s Hi) as [rest ->]; [by left|]. cbn [and_then]. rewrite decide_False, decide_False by lia. exists rest. by rewrite say_nil.
  - destruct (serve_read_some i b 512 s Hi Hb) as (got & rest & -> & Hg & ->); [lia|]. cbn [and_then].
    assert (0 < length got)%nat by (destruct got; [done|simpl; lia]). rewrite decide_True by lia. rewrite Nat2Z.id, take_ge by lia.
    rewrite serve_bind, serve_write by (by apply opened_std). cbn [and_then]. rewrite decide_False by lia. rewrite opened_say.
    rewrite length_app in Hf. destruct (IH rest (say got s) Hs Hi) as [rest' ->]; [lia|]. exists rest'. by rewrite say_say.
Qed.

(** A loop over the files named by the arguments. *)
Section Files.
Variables (i : nat) (one : Z → list Z → prog unit) (body : list (list Z) → prog unit) (text : list Z → list Z → list Z).
Hypothesis Hnil : body [] = Ret tt.
Hypothesis Hcons : ∀ a args, ∃ err, body (a :: args) =
  (fd <~ call (Sopen a O_RDONLY) ; if decide (fd < 0) then err else one fd a ;~ call (Sclose fd) ;~ body args).

Lemma files_spec args bs : Forall2 (λ a b, fs a = Some b ∧ ∀ s, std (ifds s) → ifds s !! i = Some None →
    ∃ rest, serve (one (Z.of_nat i) a) (opened i b s) = Some (opened i rest (say (text a b) s), inr tt)) args bs →
  ∀ s, std (ifds s) → free_slot (ifds s) = Some i → serve (body args) s = Some (say (concat (zip_with text args bs)) s, inr tt).
Proof.
  induction 1 as [|a b args bs [Ea Hone] _ IH]; intros s Hs Hi; simpl; [by rewrite Hnil, say_nil|].
  destruct (Hcons a args) as [err ->]. pose proof (free_slot_spec _ _ Hi) as Hi'. rewrite serve_bind, (serve_open a O_RDONLY b i s) by done. cbn [and_then].
  rewrite decide_False by lia. destruct (Hone s Hs Hi') as [rest E]. rewrite serve_bind, E. cbn [and_then].
  rewrite serve_bind, serve_close by done. cbn [and_then]. rewrite IH by done. by rewrite say_say.
Qed.
End Files.

Lemma cat_files fuel name args bs s i : args ≠ [] → Forall2 (λ a b, fs a = Some b ∧ (length b < fuel)%nat) args bs →
  std (ifds s) → free_slot (ifds s) = Some i → serve (Cat.main fuel (name :: args)) s = Some (say (concat bs) s, inl 0).
Proof.
  intros Hne Hf Hs Hi. unfold Cat.main. rewrite decide_False by (destruct args; [done|simpl; lia]). cbn [tail]. rewrite serve_bind.
  rewrite (files_spec i (λ fd _, Cat.cat fuel fd) (Cat.files fuel) (λ _ b, b) eq_refl) with (bs := bs); [|by intros; eexists| |done|done].
  - cbn [and_then]. replace (zip_with (λ _ b, b) args bs) with bs; [done|]. apply Forall2_length in Hf. clear -Hf.
    revert bs Hf. induction args; destruct bs; simpl; intros; try done. f_equal. auto.
  - eapply Forall2_impl; [|exact Hf]. intros a b [Ea Hl]. split; [done|]. intros s' Hs' Hi'. by apply cat_spec.
Qed.

(** ** grep *)

Lemma lines_spec pattern fuel : ∀ p out s, std (ifds s) →
  ∃ o r, grep_lines fuel pattern p out = (out ++ o, r) ∧ serve (GrepMain.lines fuel pattern p) s = Some (say o s, inr r).
Proof.
  induction fuel as [|fuel IH]; intros p out s Hs; cbn [grep_lines GrepMain.lines]; [exists [], p; by rewrite app_nil_r, say_nil|].
  destruct (strchr_nl p) as [[l rest]|]; [|exists [], p; by rewrite app_nil_r, say_nil]. rewrite serve_bind. destruct (grep_match pattern l).
  - destruct (IH rest (out ++ l ++ [newline]) (say (l ++ [newline]) s) Hs) as (o & r & -> & E).
    rewrite serve_bind, serve_write by done. cbn [and_then serve]. rewrite E, say_say. eexists _, r. split; [by rewrite <- app_assoc|done].
  - cbn [serve and_then]. apply IH. done.
Qed.

Notation clear := (Forall (λ c, c ≠ 0 ∧ c ≠ newline)).

Lemma grep_spec pattern t i : clear t → ∀ fuel m b ls s, (length b < fuel)%nat → Forall line_ok ls → clear m → m ++ b = unlines ls ++ t →
  std (ifds s) → ifds s !! i = Some None →
  ∃ rest, serve (GrepMain.grep fuel pattern (Z.of_nat i) m) (opened i b s) = Some (opened i rest (say (grep_ref pattern ls) s), inr tt).
Proof.
  intros Ht. induction fuel as [|fuel IH]; intros m b ls s Hf Hls Hm E Hs Hi; [lia|]. cbn [GrepMain.grep]. rewrite serve_bind.
  destruct (decide (b = [] ∨ bufsize - Z.of_nat (length m) - 1 ≤ 0)) as [Hend|Hmore].
  - destruct (serve_read_none i b (bufsize - Z.of_nat (length m) - 1) s Hi Hend) as [rest ->]. cbn [and_then]. rewrite decide_False by lia.
    assert (ls = []) as ->; [|exists rest; by rewrite say_nil]. destruct ls as [|l ls]; [done|exfalso].
    destruct Hend as [->|Hfull]; [|apply (unfinished_fits m [b] t (l :: ls)) in Hls; simpl; rewrite ?app_nil_r; try done; lia].
    rewrite app_nil_r in E. rewrite E in Hm. unfold unlines in Hm. simpl in Hm. rewrite <- !app_assoc in Hm. apply Forall_app in Hm as [_ Hm].
    inversion Hm as [|? ? [_ ?] _]. done.
  - destruct (serve_read_some i b (bufsize - Z.of_nat (length m) - 1) s Hi) as (got & rest & -> & Hg & ->); [tauto|lia|]. cbn [and_then].
    assert (0 < length got)%nat by (destruct got; [done|simpl; lia]). rewrite decide_True by lia. rewrite Nat2Z.id, take_ge by lia.
    destruct (split_prefix t ls Hls Ht (m ++ got) rest) as (ls1 & ls2 & p & -> & Eq & Er & Hp); [by rewrite <- app_assoc|].
    apply Forall_app in Hls as [Hls1 Hls2]. rewrite serve_bind.
    destruct (lines_spec pattern (length (m ++ got)) (m ++ got) [] (opened i rest s)) as (o & r & El & ->); [by apply opened_std|]. cbn [and_then].
    rewrite Eq, (grep_lines_spec pattern ls1 p Hls1 Hp) in El by (pose proof (length_unlines ls1); rewrite length_app; lia).
    injection El as <- <-. rewrite opened_say. rewrite length_app in Hf.
    destruct (IH p rest ls2 (say (grep_ref pattern ls1) s)) as [rest' ->]; try done; [lia|]. exists rest'. rewrite say_say.
    unfold grep_ref. by rewrite list.filter_app, unlines_app.
Qed.

Lemma grep_files fuel name pattern args tails lss s i : args ≠ [] → length tails = length lss →
  Forall2 (λ a b, fs a = Some b ∧ (length b < fuel)%nat) args (zip_with (λ ls t, unlines ls ++ t) lss tails) →
  Forall (Forall line_ok) lss → Forall clear tails → std (ifds s) → free_slot (ifds s) = Some i →
  serve (GrepMain.main fuel (name :: pattern :: args)) s = Some (say (concat (grep_ref pattern <$> lss)) s, inl 0).
Proof.
  intros Hne Hl Hf Hls Ht Hs Hi. unfold GrepMain.main. rewrite decide_False by done. rewrite serve_bind. pose proof (free_slot_spec _ _ Hi) as Hi'.
  assert (serve (GrepMain.files fuel pattern args) s = Some (say (concat (grep_ref pattern <$> lss)) s, inr tt)) as ->; [|done].
  clear Hne. revert args tails s Hl Hf Ht Hs Hi Hi'. induction Hls as [|ls lss Hok _ IH]; intros args [|t tails] s Hl Hf Ht Hs Hi Hi'; try done; simpl in Hf.
  - inversion Hf; subst. simpl. by rewrite say_nil.
  - apply Forall2_cons_inv_r in Hf as (a & args' & [Ea Hlen] & Hf & ->). inversion Ht; subst. cbn [GrepMain.files].
    rewrite serve_bind, (serve_open a O_RDONLY _ i s Ea Hi). cbn [and_then]. rewrite decide_False by lia.
    destruct (grep_spec pattern t i ltac:(done) fuel [] _ ls s Hlen Hok ltac:(constructor) eq_refl Hs Hi') as [rest E].
    rewrite serve_bind, E. cbn [and_then]. rewrite serve_bind, serve_close by done. cbn [and_then].
    rewrite (IH args' tails) by (done || simpl in Hl; lia). by rewrite say_say.
Qed.

(** ** wc *)

Definition dec (v : Z) : list Z := default [] (User.printint (i32 v) 10 1).
Definition wc_line (name b : list Z) : list Z :=
  dec (count_lines b) ++ [32] ++ dec (count_words b) ++ [32] ++ dec (Z.of_nat (length b)) ++ [32] ++ name ++ [10].

Lemma dec_printed v : User.printint (i32 v) 10 1 = Some (dec v) ∧ read_int udigits 10 (dec v) = i32 v.
Proof.
  assert (- 2 ^ 63 ≤ i32 v < 2 ^ 63) as Hv by (unfold i32; pose proof (Z.mod_pos_bound (v + 2 ^ 31) (2 ^ 32)); lia).
  destruct (printint_both (i32 v) 10 1 Hv) as (_ & out & _ & E & _ & _ & _ & R); [by left|]. unfold dec. rewrite E. done.
Qed.

#[local] Opaque dec.

Lemma vprintf_d fuel fmt v args out : User.vprintf_loop (S (S fuel)) (37 :: 100 :: fmt) (AInt v :: args) false out = User.vprintf_loop fuel fmt args false (out ++ dec v).
Proof. destruct (dec_printed v) as [E _]. cbn [User.vprintf_loop]. rewrite decide_True by done. unfold User.conv. rewrite decide_True by done. by rewrite E. Qed.
Lemma vprintf_s fuel fmt s args out : User.vprintf_loop (S (S fuel)) (37 :: 115 :: fmt) (AStr (Some s) :: args) false out = User.vprintf_loop fuel fmt args false (out ++ s).
Proof. reflexivity. Qed.
Lemma vprintf_c fuel c fmt args out : c ≠ 37 → User.vprintf_loop (S fuel) (c :: fmt) args false out = User.vprintf_loop fuel fmt args false (out ++ [u8 c]).
Proof. intros. cbn [User.vprintf_loop]. by rewrite decide_False. Qed.

Lemma wc_printed name l w c : User.vprintf (line "%d %d %d %s") [AInt l; AInt w; AInt c; AStr (Some name)] =
  Some (dec l ++ [32] ++ dec w ++ [32] ++ dec c ++ [32] ++ name ++ [10]).
Proof.
  unfold User.vprintf. change (line "%d %d %d %s") with [37; 100; 32; 37; 100; 32; 37; 100; 32; 37; 115; 10]. cbn [length].
  repeat first [rewrite vprintf_d | rewrite vprintf_s | rewrite vprintf_c by done]. cbn [User.vprintf_loop].
  change (u8 32) with 32. change (u8 10) with 10. rewrite <- !app_assoc. reflexivity.
Qed.

Lemma wc_count_spec i : ∀ fuel t b s, (length b < fuel)%nat → Z.of_nat (length t + length b) < 2 ^ 31 → ifds s !! i = Some None →
  ∃ rest, serve (WcMain.count fuel (Z.of_nat i) (wc_at t)) (opened i b s) = Some (opened i rest s, inr (wc_at (t ++ b), 0)).
Proof.
  induction fuel as [|fuel IH]; intros t b s Hf Hl Hi; [lia|]. cbn [WcMain.count]. rewrite serve_bind. destruct (decide (b = [])) as [->|Hb].
  - destruct (serve_read_none i [] 512 s Hi) as [rest ->]; [by left|]. cbn [and_then]. rewrite decide_False by lia. exists rest. by rewrite app_nil_r.
  - destruct (serve_read_some i b 512 s Hi Hb) as (got & rest & -> & Hg & ->); [lia|]. cbn [and_then].
    assert (0 < length got)%nat by (destruct got; [done|simpl; lia]). rewrite decide_True by lia. rewrite Nat2Z.id, take_ge by lia. rewrite length_app in *.
    rewrite wc_buf_at by lia. destruct (IH (t ++ got) rest s) as [rest' ->]; [lia|rewrite length_app; lia|done|]. exists rest'. by rewrite <- app_assoc.
Qed.

Lemma wc_files fuel name args bs s i : args ≠ [] → Forall2 (λ a b, fs a = Some b ∧ (length b < fuel)%nat ∧ Z.of_nat (length b) < 2 ^ 31) args bs →
  std (ifds s) → free_slot (ifds s) = Some i →
  serve (WcMain.main fuel (name :: args)) s = Some (say (concat (zip_with wc_line args bs)) s, inl 0).
Proof.
  intros Hne Hf Hs Hi. unfold WcMain.main. rewrite decide_False by (destruct args; [done|simpl; lia]). cbn [tail]. rewrite serve_bind.
  rewrite (files_spec i (WcMain.wc fuel) (WcMain.files fuel) wc_line eq_refl) with (bs := bs); [done|by intros; eexists| |done|done].
  eapply Forall2_impl; [|exact Hf]. intros a b (Ea & Hl & Hb). split; [done|]. intros s' Hs' Hi'. unfold WcMain.wc. rewrite serve_bind.
  destruct (wc_count_spec i fuel [] b s' Hl Hb Hi') as [rest E]. change (mkCounts 0 0 0 false) with (wc_at []). rewrite E. cbn [and_then app].
  rewrite decide_False by lia. rewrite (serve_printf _ _ _ _ (opened_std _ _ _ Hs' Hi') (wc_printed _ _ _ _)). exists rest. unfold wc_line, wc_at. cbn [lines words chars]. rewrite opened_say. reflexivity.
Qed.

End Serve.

(** C38 Functional: run on files that exist, whatever pieces the reads return
    and with one descriptor free, all three filters read every file to its end,
    close it again and exit with status 0.  cat writes the concatenation of the
    files, whatever they hold.  wc writes for each file below 2 GB its numbers
    of newlines, words and bytes in decimal and its name.  grep writes, file by
    file and in order, exactly the newline-terminated lines that match, for
    files without NUL bytes in which every line with its newline is shorter
    than grep's buffer of 1024 bytes; what follows the last newline is never
    written. *)
Theorem text_filters fs piece fuel name pattern args bs s i :
  args ≠ [] → Forall2 (λ a b, fs a = Some b ∧ (length b < fuel)%nat) args bs → std (ifds s) → free_slot (ifds s) = Some i →
  serve fs piece (Cat.main fuel (name :: args)) s = Some (say (concat bs) s, inl 0) ∧
  (Forall (λ b, Z.of_nat (length b) < 2 ^ 31) bs →
   serve fs piece (WcMain.main fuel (name :: args)) s = Some (say (concat (zip_with wc_line args bs)) s, inl 0) ∧
   ∀ v, - 2 ^ 31 ≤ v < 2 ^ 31 → read_int udigits 10 (dec v) = v) ∧
  (∀ lss tails, length tails = length lss → bs = zip_with (λ ls t, unlines ls ++ t) lss tails → Forall (Forall line_ok) lss →
     Forall (Forall (λ c, c ≠ 0 ∧ c ≠ newline)) tails →
   serve fs piece (GrepMain.main fuel (name :: pattern :: args)) s = Some (say (concat (grep_ref pattern <$> lss)) s, inl 0)).
Proof.
  intros Hne Hf Hs Hi. split_and!.
  - by eapply cat_files.
  - intros Hb. split; [|intros v Hv; destruct (dec_printed v) as [_ ->]; by apply i32_small]. eapply wc_files; [done| |done|done].
    clear Hne. induction Hf as [|a b args bs [? ?] _ IH]; constructor; apply list.Forall_cons in Hb as [? ?]; [done|auto].
  - intros lss tails Hl -> Hls Ht. by eapply grep_files.
Qed.

Definition ex_files (p : list Z) : option (list Z) :=
  if decide (p = [97]) then Some [120; 10; 121; 10] else if decide (p = [98]) then Some [121; 121; 10; 122] else None.

Lemma text_filters_witness :
  let s := mkIo [Some (In []); Some Out; Some Err; None] [] [] in
  serve ex_files (λ b, length b / 2)%nat (Cat.main 10 [[99]; [97]; [98]]) s =
    Some (mkIo [Some (In []); Some Out; Some Err; None] [120; 10; 121; 10; 121; 121; 10; 122] [], inl 0) ∧
  serve ex_files (λ b, length b / 2)%nat (WcMain.main 10 [[99]; [97]; [98]]) s =
    Some (mkIo [Some (In []); Some Out; Some Err; None] (ustr "2 2 4 a" ++ 10 :: ustr "1 2 4 b" ++ [10]) [], inl 0) ∧
  serve ex_files (λ b, length b / 2)%nat (GrepMain.main 10 [[99]; [121]; [97]; [98]]) s =
    Some (mkIo [Some (In []); Some Out; Some Err; None] [121; 10; 121; 121; 10] [], inl 0).
Proof.
  intros s. destruct (text_filters ex_files (λ b, length b / 2)%nat 10 [99] [121] [[97]; [98]] [[120; 10; 121; 10]; [121; 121; 10; 122]] s 3)
    as (Hcat & Hwc & Hgrep); [done|repeat constructor; simpl; lia || done|done|done|].
  split; [exact Hcat|]. split.
  - refine (eq_trans (proj1 (Hwc _)) _); [repeat constructor; simpl; lia|vm_compute; reflexivity].
  - refine (eq_trans (Hgrep [[[120]; [121]]; [[121; 121]]] [[]; [122]] _ _ _ _) _); clear Hcat Hwc Hgrep.
    + reflexivity.
    + reflexivity.
    + repeat constructor; simpl; unfold newline, bufsize; lia || done.
    + repeat constructor; unfold newline; lia.
    + vm_compute. reflexivity.
Defined.
