(* ===== verification/Mkfs.v ===== *)
(** * The image builder (mkfs/mkfs.c)

    A program of the host that writes the initial disk.  The image file is the
    list of its blocks; lseek, read and write on it work as on any file, so a
    read past the end fails.  die and a failed assert end the program: they
    are [Panic].  [host] gives for a path the buffers that successive reads of
    the file return, or [None] if it cannot be opened.  The host is
    little-endian, as xint and xshort leave the values then; what is printed
    is left out. *)

From S2P Require Import Prelude Params FsDefs Fs.

Definition NINODES : Z := 200.
Definition nbitmap : Z := FSSIZE / BPB + 1.
Definition ninodeblocks : Z := NINODES / IPB + 1.
Definition nlog : Z := LOGBLOCKS + 1.
Definition nmeta : Z := 2 + nlog + ninodeblocks + nbitmap.
Definition nblocks : Z := FSSIZE - nmeta.

Record mkst : Type := mkMkst { image : list (list Z); freeinode : Z; freeblock : Z }.
Definition set_image (x : list (list Z)) (s : mkst) : mkst := mkMkst x (freeinode s) (freeblock s).
Definition set_freeinode (x : Z) (s : mkst) : mkst := mkMkst (image s) x (freeblock s).
Definition set_freeblock (x : Z) (s : mkst) : mkst := mkMkst (image s) (freeinode s) x.

Definition xshort (x : Z) : Z := u16 x.
Definition xint (x : Z) : Z := u32 x.

(* the superblock main fills in *)
Definition sb : superblock :=
  mkSb FSMAGIC (xint FSSIZE) (xint nblocks) (xint NINODES) (xint nlog) (xint 2) (xint (2 + nlog)) (xint (2 + nlog + ninodeblocks)).
Definition sb_bytes : list Z :=
  concat (le_bytes 4 <$> [magic sb; sbsize sb; FsDefs.nblocks sb; ninodes sb; FsDefs.nlog sb; logstart sb; inodestart sb; bmapstart sb]).

Definition zeroes : list Z := replicate (Z.to_nat BSIZE) 0.

(** ** Sectors *)

(* a write past the end leaves a hole of zeroes *)
Definition wsect (sec : Z) (buf : list Z) : M mkst unit :=
  modify (λ s, let n := Z.to_nat sec in
    set_image (<[n := buf]> (image s ++ replicate (S n - length (image s)) zeroes)) s).

Definition rsect (sec : Z) : M mkst (list Z) :=
  s <- get ;;
  match image s !! Z.to_nat sec with
  | Some b => ret b
  | None => panic "read"
  end.

(** ** Inodes; a struct dinode is its 64 bytes *)

Definition winode (inum : Z) (ip : list Z) : M mkst unit :=
  let bn := IBLOCK inum sb in
  buf <- rsect bn ;;
  wsect bn (list_inserts (Z.to_nat (doff inum)) ip buf).

Definition rinode (inum : Z) : M mkst (list Z) :=
  let bn := IBLOCK inum sb in
  buf <- rsect bn ;;
  ret (take 64 (drop (Z.to_nat (doff inum)) buf)).

Definition ialloc (type : Z) : M mkst Z :=
  s <- get ;;
  let inum := freeinode s in
  modify (set_freeinode (u32 (inum + 1))) ;;
  let din := replicate 64 0 in
  let din := put16 0 (xshort type) din in
  let din := put16 6 (xshort 1) din in
  let din := put32 8 (xint 0) din in
  winode inum din ;;
  ret inum.

(* freeblock++ *)
Definition take_block : M mkst Z :=
  s <- get ;;
  modify (set_freeblock (u32 (freeblock s + 1))) ;;
  ret (freeblock s).

(* for(i = 0; i < used; i++) buf[i/8] = buf[i/8] | (0x1 << (i%8)) *)
Fixpoint set_bits (k : nat) (i : Z) (buf : list Z) : list Z :=
  match k with
  | O => buf
  | S k => set_bits k (i + 1) (put_byte (i / 8) (u8 (Z.lor (byte_at (i / 8) buf) (Z.shiftl 1 (i mod 8)))) buf)
  end.

Definition balloc (used : Z) : M mkst unit :=
  if decide (¬ used < BPB) then panic "assert" else
  wsect (bmapstart sb) (set_bits (Z.to_nat used) 0 zeroes).

(* din.addrs[k] *)
Definition d_addr (k : Z) (din : list Z) : Z := di_addr 0 k din.
Definition d_set (k a : Z) (din : list Z) : list Z := put32 (12 + 4 * k) (xint a) din.

(* the block of the file that holds block fbn of it, allocated if need be *)
Definition ablock (fbn : Z) (din : list Z) : M mkst (list Z * Z) :=
  if decide (fbn < NDIRECT) then
    din <- (if decide (d_addr fbn din = 0) then a <- take_block ;; ret (d_set fbn a din) else ret din) ;;
    ret (din, d_addr fbn din)
  else
    din <- (if decide (d_addr NDIRECT din = 0) then a <- take_block ;; ret (d_set NDIRECT a din) else ret din) ;;
    indirect <- rsect (d_addr NDIRECT din) ;;
    let e := 4 * (fbn - NDIRECT) in
    indirect <- (if decide (get32 e indirect = 0) then
                   a <- take_block ;;
                   let indirect := put32 e (xint a) indirect in
                   wsect (d_addr NDIRECT din) indirect ;; ret indirect
                 else ret indirect) ;;
    ret (din, get32 e indirect).

(* while(n > 0); [p] is what is left to append *)
Fixpoint iappend_loop (fuel : nat) (din : list Z) (off : Z) (p : list Z) : M mkst (list Z * Z) :=
  match fuel with
  | O => panic "fuel"
  | S fuel =>
      if decide (p = []) then ret (din, off) else
      let fbn := off / BSIZE in
      if decide (¬ fbn < MAXFILE) then panic "assert" else
      r <- ablock fbn din ;;
      let '(din, x) := r in
      let n1 := Z.min (Z.of_nat (length p)) ((fbn + 1) * BSIZE - off) in
      buf <- rsect x ;;
      wsect x (list_inserts (Z.to_nat (off - fbn * BSIZE)) (take (Z.to_nat n1) p) buf) ;;
      iappend_loop fuel din (u32 (off + n1)) (drop (Z.to_nat n1) p)
  end.

Definition iappend (inum : Z) (p : list Z) : M mkst unit :=
  din <- rinode inum ;;
  r <- iappend_loop (S (length p)) din (get32 8 din) p ;;
  let '(din, off) := r in
  winode inum (put32 8 (xint off) din).

(** ** main *)

Definition user_prefix : list Z := [117; 115; 101; 114; 47].
Definition underscore : Z := 95.

(* the path without user/, and then without a leading _ *)
Definition unprefixed (path : list Z) : list Z :=
  if decide (take 5 path = user_prefix) then drop 5 path else path.
Definition shortname (path : list Z) : list Z :=
  let p := unprefixed path in
  match p with c :: p' => if decide (c = underscore) then p' else p | [] => p end.

Definition dirent_bytes (inum : Z) (name : list Z) : list Z := mk_dirent (xshort inum) (strncpy_list name (Z.to_nat DIRSIZ)).

Definition dot : list Z := [46].
Definition dotdot : list Z := [46; 46].

Section Main.
Variable host : list Z → option (list (list Z)).

Fixpoint append_all (inum : Z) (bufs : list (list Z)) : M mkst unit :=
  match bufs with [] => ret tt | b :: bufs => iappend inum b ;; append_all inum bufs end.

Definition add_file (rootino : Z) (path : list Z) : M mkst unit :=
  if decide (slash ∈ unprefixed path) then panic "assert" else
  match host path with
  | None => panic "open"
  | Some bufs =>
      if decide (DIRSIZ < Z.of_nat (length (shortname path))) then panic "assert" else
      inum <- ialloc T_FILE ;;
      iappend rootino (dirent_bytes inum (shortname path)) ;;
      append_all inum bufs
  end.

Fixpoint add_files (rootino : Z) (paths : list (list Z)) : M mkst unit :=
  match paths with [] => ret tt | p :: paths => add_file rootino p ;; add_files rootino paths end.

Fixpoint wzero (k : nat) (i : Z) : M mkst unit :=
  match k with O => ret tt | S k => wsect i zeroes ;; wzero k (i + 1) end.

(* the arguments after the name of the image *)
Definition main (paths : list (list Z)) : M mkst unit :=
  modify (set_freeblock nmeta) ;;
  wzero (Z.to_nat FSSIZE) 0 ;;
  wsect 1 (sb_bytes ++ replicate (Z.to_nat BSIZE - length sb_bytes) 0) ;;
  rootino <- ialloc T_DIR ;;
  if decide (rootino ≠ ROOTINO) then panic "assert" else
  iappend rootino (dirent_bytes rootino dot) ;;
  iappend rootino (dirent_bytes rootino dotdot) ;;
  add_files rootino paths ;;
  din <- rinode rootino ;;
  let off := get32 8 din in
  let off := u32 ((off / BSIZE + 1) * BSIZE) in
  winode rootino (put32 8 (xint off) din) ;;
  s <- get ;;
  balloc (i32 (freeblock s)).

(* the image file is empty and the first inode is 1 *)
Definition start : mkst := mkMkst [] 1 0.
Definition mkfs (paths : list (list Z)) : option (list (list Z)) :=
  match main paths start with Ok _ s => Some (image s) | _ => None end.
End Main.
