(* ===== verification/MkfsLayout.v ===== *)
(** * The blocks of a file under construction

    mkfs allocates blocks in order.  [layout] says that an inode owns blocks
    between the metadata and the first free block, that the first [nb] blocks
    of the file are allocated, and what every byte of the file is. *)

From S2P Require Import Prelude Params CString Spinlock ProcDefs WaitQueue Sched Memory AddressSpace FsDefs Seq Sleeplock Bio BioInv BioSpec Log Fs LogCrash LogSpec FsExample LogTheorems FsTx FsAlloc FsFile FsBmap FsRw FsWrite FsInode Mkfs.

Record layout (V : Z → list Z) (x : inode) (hi : Z) (bytes : list Z) (nb : Z) : Prop := mkLayout {
  ly_len : length (addrs x) = Z.to_nat (NDIRECT + 1);
  ly_alloc : ∀ k, file_block k → (iaddr V x k ≠ 0 ↔ k < nb);
  ly_ind : NDIRECT < nb → ind x ≠ 0;
  ly_range : ∀ b, owned V x b → nmeta ≤ b < hi;
  ly_apart : ∀ k, file_block k → iaddr V x k ≠ 0 → iaddr V x k ≠ ind x;
  ly_inj : ∀ k k', file_block k → file_block k' → iaddr V x k ≠ 0 → iaddr V x k = iaddr V x k' → k = k';
  ly_bytes : ∀ o, 0 ≤ o < MAXFILE * BSIZE → fbyte V x o = byte_at o bytes;
}.

Lemma byte_block o : 0 ≤ o < MAXFILE * BSIZE → file_block (o / BSIZE).
Proof. intros. split; [apply Z.div_pos; unfold BSIZE; lia|]. apply Z.div_lt_upper_bound; [unfold BSIZE; lia|]. lia. Qed.

(** Only the addresses of the inode and the contents of its blocks matter. *)
Lemma iaddr_ext V V' x x' k : addrs x' = addrs x → (∀ b, owned V x b → V' b = V b) → iaddr V' x' k = iaddr V x k.
Proof.
  intros Ea Hv. unfold iaddr, ind. rewrite Ea. destruct (decide (k < NDIRECT)); [done|]. case_decide as Hi; [done|]. rewrite Hv; [done|]. split; [done|by left].
Qed.
Lemma owned_ext V V' x x' b : addrs x' = addrs x → (∀ b, owned V x b → V' b = V b) → owned V' x' b ↔ owned V x b.
Proof. intros Ea Hv. unfold owned. setoid_rewrite (iaddr_ext V V' x x' _ Ea Hv). unfold ind. by rewrite Ea. Qed.

Lemma layout_ext V V' x x' hi hi' bytes nb : addrs x' = addrs x → (∀ b, owned V x b → V' b = V b) → hi ≤ hi' →
  layout V x hi bytes nb → layout V' x' hi' bytes nb.
Proof.
  intros Ea Hv Hh [H1 H2 H3 H4 H5 H6 H7]. pose proof (λ k, iaddr_ext V V' x x' k Ea Hv) as Hi. assert (ind x' = ind x) as Ei by (unfold ind; by rewrite Ea).
  split; rewrite ?Ei; repeat setoid_rewrite Hi; try done; [by rewrite Ea| |].
  - intros b Hb%(owned_ext _ _ _ _ _ Ea Hv). specialize (H4 b Hb). lia.
  - intros o Ho. rewrite <- H7 by done. unfold fbyte, fblock. rewrite Hi. case_decide as Hz; [done|]. rewrite Hv; [done|]. split; [done|]. right. eexists. split; [by apply byte_block|done].
Qed.

Section Assign.
Variables (V V' : Z → list Z) (x x' : inode) (hi : Z) (bytes : list Z) (nb : Z).
Hypothesis Hx : layout V x hi bytes nb.
Hypothesis Hhi : nmeta ≤ hi.
Hypothesis Hlen : length (addrs x') = length (addrs x).

Lemma fresh_block b : owned V x b → b ≠ hi.
Proof. intros Hb ->. destruct (ly_range _ _ _ _ _ Hx hi Hb). lia. Qed.
Lemma hi_pos : 0 < hi.
Proof. unfold nmeta, nlog, ninodeblocks, nbitmap in Hhi. vm_compute in Hhi. destruct hi; try lia. all: by vm_compute in Hhi. Qed.

(* the block hi becomes block nb of the file *)
Lemma assign_layout : 0 ≤ nb → ind x' = ind x → (NDIRECT ≤ nb → ind x ≠ 0) →
  (∀ j, file_block j → iaddr V' x' j = if decide (j = nb) then hi else iaddr V x j) →
  V' hi = zero_block → (∀ b, owned V x b → b ≠ ind x → V' b = V b) → layout V' x' (hi + 1) bytes (nb + 1).
Proof.
  intros Hnb Ei Hind Hi Hz Hv. pose proof Hx as [H1 H2 H3 H4 H5 H6 H7]. pose proof hi_pos as Hp.
  assert (∀ j, file_block j → iaddr V x j ≠ hi) as Hj by (intros j Hfj E; eapply (fresh_block hi); [split; [lia|right; eauto]|done]).
  split.
  - by rewrite Hlen.
  - intros k Hk. rewrite Hi by done. case_decide; [lia|]. rewrite H2 by done. lia.
  - rewrite Ei. intros. apply Hind. lia.
  - intros b [Hb0 Hb]. rewrite Ei in Hb. destruct Hb as [->|(k & Hk & E)]; [destruct (H4 (ind x)); [split; [done|by left]|lia]|].
    rewrite Hi in E by done. case_decide; [lia|]. destruct (H4 b); [split; eauto|lia].
  - intros k Hk. rewrite Hi, Ei by done. case_decide; [|by apply H5]. intros _ E. eapply (fresh_block hi); [|done]. split; [lia|by left].
  - intros k k' Hk Hk'. rewrite !Hi by done. case_decide; case_decide; subst; try done; intros Hz' E.
    + by destruct (Hj k' Hk').
    + by destruct (Hj k Hk).
    + by apply H6.
  - intros o Ho. pose proof (byte_block o Ho) as Hf.
    rewrite <- H7 by done. unfold fbyte. f_equal. unfold fblock. rewrite Hi by done. destruct (decide (o / BSIZE = nb)) as [E|Hne].
    + rewrite decide_False by lia. assert (iaddr V x (o / BSIZE) = 0) as Ez by (destruct (decide (iaddr V x (o / BSIZE) = 0)) as [|Hnz]; [done|]; apply H2 in Hnz; [lia|done]).
      rewrite Ez, decide_True by done. done.
    + case_decide as Hz'; [done|]. apply Hv; [split; eauto|by apply H5].
Qed.

(* the block hi becomes the indirect block *)
Lemma assign_ind_layout : ind x = 0 → ind x' = hi → (∀ j, file_block j → iaddr V' x' j = iaddr V x j) →
  (∀ b, owned V x b → V' b = V b) → layout V' x' (hi + 1) bytes nb.
Proof.
  intros Ei Ei' Hi Hv. pose proof Hx as [H1 H2 H3 H4 H5 H6 H7]. pose proof hi_pos as Hp.
  split.
  - by rewrite Hlen.
  - intros k Hk. rewrite Hi by done. by apply H2.
  - rewrite Ei'. lia.
  - intros b [Hb0 [->|(k & Hk & E)]]; [lia|]. rewrite Hi in E by done. destruct (H4 b); [split; eauto|lia].
  - intros k Hk. rewrite Hi, Ei' by done. intros Hz E. eapply (fresh_block hi); [split; [lia|right; eauto]|done].
  - intros k k' Hk Hk'. rewrite !Hi by done. by apply H6.
  - intros o Ho. pose proof (byte_block o Ho) as Hf.
    rewrite <- H7 by done. unfold fbyte, fblock. rewrite Hi by done. case_decide as Hz'; [done|]. rewrite Hv; [done|]. split; eauto.
Qed.
End Assign.

(** ** Appending within a block *)

Section Write.
Variables (V V' : Z → list Z) (x : inode) (hi : Z) (bytes p : list Z) (nb m : Z).
Hypothesis Hx : layout V x hi bytes nb.
Notation off := (Z.of_nat (length bytes)).
Hypothesis Hoff : off / BSIZE < nb ≤ MAXFILE.
Hypothesis Hm : 0 ≤ m ≤ Z.of_nat (length p).
Hypothesis Hfit : off mod BSIZE + m ≤ BSIZE.
Notation a := (iaddr V x (off / BSIZE)).
Hypothesis Hl : length (V a) = Z.to_nat BSIZE.
Hypothesis Hnew : V' a = list_inserts (Z.to_nat (off mod BSIZE)) (take (Z.to_nat m) p) (V a).
Hypothesis Hother : ∀ b, b ≠ a → V' b = V b.

Lemma off_block : file_block (off / BSIZE) ∧ a ≠ 0.
Proof.
  assert (file_block (off / BSIZE)) as Hf by (split; [apply Z.div_pos; unfold BSIZE; lia|lia]). split; [done|]. apply (ly_alloc _ _ _ _ _ Hx); [done|lia].
Qed.

Lemma write_iaddr k : iaddr V' x k = iaddr V x k.
Proof.
  destruct off_block as [Hf Hz]. unfold iaddr at 1 2. destruct (decide (k < NDIRECT)); [done|]. case_decide; [done|]. rewrite Hother; [done|].
  intros E. by apply (ly_apart _ _ _ _ _ Hx (off / BSIZE) Hf).
Qed.

Lemma write_layout : layout V' x hi (bytes ++ take (Z.to_nat m) p) nb.
Proof.
  destruct off_block as [Hf Hz]. pose proof Hx as [H1 H2 H3 H4 H5 H6 H7]. split; repeat setoid_rewrite write_iaddr; try done.
  - intros b Hb. apply H4. unfold owned in *. by setoid_rewrite write_iaddr in Hb.
  - intros o Ho. unfold fbyte. rewrite (patch_block (fblock V x) (fblock V' x) (Z.of_nat (length bytes)) m p) by first [done | unfold fblock; rewrite decide_False by done; done |
      intros j Hj; unfold fblock; rewrite !write_iaddr; destruct (decide (j = off / BSIZE)) as [->|Hne]; [rewrite !decide_False by done; done|];
      case_decide as Hzj; [done|]; apply Hother; intros E; apply Hne; by apply H6].
    specialize (H7 o Ho). unfold fbyte in H7. rewrite H7. unfold byte_at. destruct (decide (off ≤ o < off + m)) as [Hin|Hout].
    + rewrite lookup_app_r by lia. rewrite lookup_take_lt by lia. f_equal. f_equal. lia.
    + destruct (decide (o < off)); [by rewrite lookup_app_l by lia|]. rewrite !lookup_ge_None_2; [done| |lia]. rewrite length_app, length_take. lia.
Qed.
End Write.

(** ** Sectors *)

Definition view (im : list (list Z)) (b : Z) : list Z := if decide (0 ≤ b) then default zero_block (im !! Z.to_nat b) else zero_block.
Definition disk_ok (im : list (list Z)) : Prop := length im = Z.to_nat FSSIZE ∧ ∀ b, length (view im b) = Z.to_nat BSIZE.
Definition in_disk (b : Z) : Prop := 0 ≤ b < FSSIZE.

(** [s'] is [s] with one block written. *)
Record wrote1 (s s' : mkst) (b : Z) (d : list Z) : Prop := mkWrote1 {
  w1_disk : disk_ok (image s');
  w1_ino : freeinode s' = freeinode s;
  w1_blk : freeblock s' = freeblock s;
  w1_same : view (image s') b = d;
  w1_other : ∀ c, c ≠ b → view (image s') c = view (image s) c;
}.

Lemma wsect_spec s b d : disk_ok (image s) → in_disk b → length d = Z.to_nat BSIZE → wp (wsect b d) s (λ _ s', wrote1 s s' b d).
Proof.
  intros [Hl Hb] Hin Hd. unfold in_disk in Hin. unfold wsect. apply wp_modify. replace (S (Z.to_nat b) - length (image s))%nat with 0%nat by (rewrite Hl; lia).
  rewrite app_nil_r. assert (∀ c, view (<[Z.to_nat b := d]> (image s)) c = if decide (c = b) then d else view (image s) c) as Hv.
  { intros c. unfold view. destruct (decide (c = b)) as [->|Hne].
    - rewrite decide_True by lia. by rewrite list_lookup_insert_eq by (rewrite Hl; lia).
    - case_decide; [|done]. by rewrite list_lookup_insert_ne by lia. }
  split; simpl; try done.
  - split; [by rewrite length_insert|]. intros c. rewrite Hv. by case_decide.
  - rewrite Hv. by rewrite decide_True.
  - intros c Hc. rewrite Hv. by rewrite decide_False.
Qed.

Lemma rsect_spec s b Q : disk_ok (image s) → in_disk b → Q (view (image s) b) s → wp (rsect b) s Q.
Proof.
  intros [Hl _] Hin HQ. unfold in_disk in Hin. unfold rsect. wp_go. unfold view in HQ. rewrite decide_True in HQ by lia.
  destruct (lookup_lt_is_Some_2 (image s) (Z.to_nat b)) as [d E]; [rewrite Hl; lia|]. rewrite E in *. done.
Qed.

(** ** Inodes in memory *)

Definition x_of (din : list Z) : inode := load_dinode 0 din (mkInode 1 0 0 0 0 0 0 0 0 []).

Lemma addrs_x_of din : addrs (x_of din) = di_addrs 0 din.
Proof. done. Qed.

Lemma di_addrs_lookup o d k : (k < 13)%nat → di_addrs o d !! k = Some (di_addr o (Z.of_nat k) d).
Proof. intros Hk. unfold di_addrs. change (map ?f ?l) with (f <$> l). rewrite list_lookup_fmap, lookup_seq_lt by (unfold NDIRECT; lia). done. Qed.
Lemma length_di_addrs o d : length (di_addrs o d) = Z.to_nat (NDIRECT + 1).
Proof. unfold di_addrs. by rewrite length_map, length_seq. Qed.

Lemma addrs_d_set k a din : length din = 64%nat → 0 ≤ k ≤ NDIRECT → 0 ≤ a < 2 ^ 32 →
  addrs (x_of (d_set k a din)) = <[Z.to_nat k := a]> (addrs (x_of din)).
Proof.
  intros Hl Hk Ha. rewrite !addrs_x_of. apply list_eq. intros i. unfold NDIRECT in *.
  destruct (decide (i < 13)%nat) as [Hi|Hi].
  - rewrite di_addrs_lookup by done. unfold di_addr, d_set, xint, u32. rewrite wrap_small by lia. rewrite list_lookup_insert, length_di_addrs.
    destruct (decide _) as [[<- _]|Hne].
    + rewrite Z2Nat.id by lia. rewrite get32_put32 by (rewrite ?Hl; unfold is_u32; lia). done.
    + rewrite di_addrs_lookup by done. unfold get32, put32. rewrite get_put_le_ne; [done|lia|lia|]. unfold NDIRECT in *. lia.
  - rewrite !lookup_ge_None_2; [done| |]; rewrite ?length_insert, length_di_addrs; unfold NDIRECT; lia.
Qed.

Lemma d_addr_x k din : 0 ≤ k < NDIRECT → ∀ V, d_addr k din = iaddr V (x_of din) k.
Proof. intros Hk V. unfold NDIRECT in *. unfold iaddr, NDIRECT. rewrite decide_True by lia. rewrite addrs_x_of, di_addrs_lookup by lia. simpl. by rewrite Z2Nat.id by lia. Qed.
Lemma d_addr_ind din : d_addr NDIRECT din = ind (x_of din).
Proof. unfold ind. rewrite addrs_x_of, di_addrs_lookup by (unfold NDIRECT; lia). done. Qed.

(** The other fields. *)
Definition same_fields (din din' : list Z) : Prop :=
  length din' = length din ∧ get16 0 din' = get16 0 din ∧ get16 2 din' = get16 2 din ∧ get16 4 din' = get16 4 din ∧ get16 6 din' = get16 6 din.

Lemma d_set_fields k a din : 0 ≤ k → same_fields din (d_set k a din).
Proof. intros Hk. unfold same_fields, d_set, get16, put32. rewrite length_put_le, !get_put_le_ne by lia. done. Qed.
#[export] Instance same_fields_refl : Reflexive same_fields.
Proof. by intros din. Qed.
#[export] Instance same_fields_trans : Transitive same_fields.
Proof. intros a b c (?&?&?&?&?) (?&?&?&?&?). unfold same_fields. split_and!; congruence. Qed.

(** ** Allocating blocks *)

(** [hi] is the first free block, and the free blocks are zero. *)
Record ready (s : mkst) (hi : Z) : Prop := mkReady {
  rd_disk : disk_ok (image s);
  rd_free : freeblock s = hi;
  rd_range : nmeta ≤ hi ≤ FSSIZE;
  rd_zero : ∀ b, hi ≤ b < FSSIZE → view (image s) b = zero_block;
}.

(** What an allocation for [x] may have changed. *)
Record grown (V V' : Z → list Z) (x x' : inode) (hi hi' : Z) : Prop := mkGrown {
  gw_le : hi ≤ hi';
  gw_other : ∀ b, ¬ owned V x b → ¬ hi ≤ b < hi' → V' b = V b;
  gw_owned : ∀ b, owned V' x' b → owned V x b ∨ hi ≤ b < hi';
}.

Lemma grown_refl V x hi : grown V V x x hi hi.
Proof. split; auto with lia. Qed.
Lemma grown_trans V1 V2 V3 x1 x2 x3 h1 h2 h3 : grown V1 V2 x1 x2 h1 h2 → grown V2 V3 x2 x3 h2 h3 → grown V1 V3 x1 x3 h1 h3.
Proof.
  intros [A1 A2 A3] [B1 B2 B3]. split; [lia| |].
  - intros b Hb Hr. rewrite B2; [apply A2; [done|lia]| |lia]. intros [?|?]%A3; [done|lia].
  - intros b [Hb|Hb]%B3; [destruct (A3 b Hb)|]; auto with lia.
Qed.

Lemma take_block_spec s hi (Q : Z → mkst → Prop) : ready s hi → hi < FSSIZE →
  (∀ s', image s' = image s → freeinode s' = freeinode s → ready s' (hi + 1) → Q hi s') → wp take_block s Q.
Proof.
  intros [H1 H2 H3 H4] Hlt HQ. unfold take_block. wp_go. rewrite H2. apply HQ; [done|done|]. split; simpl; [done| |unfold FSSIZE in *; lia|].
  - unfold u32. apply wrap_small. unfold nmeta, nlog, ninodeblocks, nbitmap, FSSIZE in *. vm_compute (2 + _ + _ + _) in H3. lia.
  - intros b Hb. apply H4. lia.
Qed.

Lemma nmeta_eq : nmeta = 47.
Proof. done. Qed.

(* the indirect block exists afterwards *)
Lemma ensure_ind_spec s hi din bytes nb (Q : list Z → mkst → Prop) : let V := view (image s) in
  ready s hi → layout V (x_of din) hi bytes nb → length din = 64%nat → hi + (if decide (ind (x_of din) = 0) then 1 else 0) ≤ FSSIZE →
  (∀ din' s' hi', hi' = hi + (if decide (ind (x_of din) = 0) then 1 else 0) → image s' = image s → freeinode s' = freeinode s → ready s' hi' →
     layout V (x_of din') hi' bytes nb → ind (x_of din') ≠ 0 → same_fields din din' → grown V V (x_of din) (x_of din') hi hi' →
     (∀ k, file_block k → iaddr V (x_of din') k = iaddr V (x_of din) k) → Q din' s') →
  wp (if decide (d_addr NDIRECT din = 0) then a <- take_block ;; ret (d_set NDIRECT a din) else ret din) s Q.
Proof.
  intros V Hr Hl Hd Hfit HQ. rewrite d_addr_ind. destruct (decide (ind (x_of din) = 0)) as [Ei|Ei].
  - wp_step. eapply take_block_spec; [exact Hr|lia|]. intros s' Em Ef Hr'. wp_step. set (din' := d_set NDIRECT hi din).
    pose proof (rd_range _ _ Hr) as Hrg. rewrite nmeta_eq in Hrg. unfold FSSIZE in *.
    assert (addrs (x_of din') = addrs (put_iaddr NDIRECT hi (x_of din))) as Ea by (unfold din'; rewrite addrs_d_set; [done|done|unfold NDIRECT; lia|lia]).
    assert (V hi = zero_block) as Hz by (apply (rd_zero _ _ Hr); unfold FSSIZE; lia).
    assert (∀ k, file_block k → iaddr V (x_of din') k = iaddr V (x_of din) k) as Hi.
    { intros k Hk. rewrite (iaddr_ext V V (put_iaddr NDIRECT hi (x_of din)) (x_of din')) by done. apply put_indirect; [apply Hl|done|done|apply Hk]. }
    assert (ind (x_of din') = hi) as Ei'.
    { unfold ind. rewrite Ea. fold (ind (put_iaddr NDIRECT hi (x_of din))). rewrite put_ind by (apply Hl || unfold NDIRECT; lia). done. }
    eapply (HQ _ _ (hi + 1)); try done.
    + eapply (assign_ind_layout V V (x_of din)); try done. rewrite nmeta_eq. lia.
    + rewrite Ei'. lia.
    + apply d_set_fields. unfold NDIRECT. lia.
    + split; [lia|done|]. intros b [Hb0 [->|(k & Hk & E)]]; [right; lia|left]. rewrite Hi in E by done. split; eauto.
  - wp_step. rewrite Z.add_0_r in HQ. eapply (HQ _ _ hi); try done. apply grown_refl.
Qed.

Definition tight (x : inode) (nb : Z) : Prop := ind x = 0 ↔ nb ≤ NDIRECT.
(** Blocks a file of [nb] blocks takes. *)
Definition cost (nb : Z) : Z := nb + (if decide (NDIRECT < nb) then 1 else 0).

(** The result of finding block [fbn] of a file that had [nb]. *)
Record found (s : mkst) (din bytes : list Z) (hi nb fbn : Z) (din' : list Z) (a : Z) (s' : mkst) : Prop := mkFound {
  fd_ready : ready s' (hi + cost (Z.max nb (fbn + 1)) - cost nb);
  fd_ino : freeinode s' = freeinode s;
  fd_layout : layout (view (image s')) (x_of din') (hi + cost (Z.max nb (fbn + 1)) - cost nb) bytes (Z.max nb (fbn + 1));
  fd_tight : tight (x_of din') (Z.max nb (fbn + 1));
  fd_fields : same_fields din din';
  fd_addr : a = iaddr (view (image s')) (x_of din') fbn;
  fd_grown : grown (view (image s)) (view (image s')) (x_of din) (x_of din') hi (hi + cost (Z.max nb (fbn + 1)) - cost nb);
}.

Section Ablock.
Variables (s : mkst) (hi : Z) (din bytes : list Z) (nb fbn : Z).
Notation V := (view (image s)).
Hypothesis Hr : ready s hi.
Hypothesis Hl : layout V (x_of din) hi bytes nb.
Hypothesis Hd : length din = 64%nat.
Hypothesis Hfbn : 0 ≤ fbn ≤ nb.
Hypothesis Hmax : fbn < MAXFILE.

(* the block is there *)
Lemma found_there : fbn < nb → tight (x_of din) nb → found s din bytes hi nb fbn din (iaddr V (x_of din) fbn) s.
Proof.
  intros Hlt Ht. assert (Z.max nb (fbn + 1) = nb) as E by lia. split; rewrite ?E; replace (hi + cost nb - cost nb) with hi by lia; try done. apply grown_refl.
Qed.

Lemma iaddr_zero : iaddr V (x_of din) fbn = 0 ↔ fbn = nb.
Proof. destruct (decide (iaddr V (x_of din) fbn = 0)) as [E|E]; pose proof (ly_alloc _ _ _ _ _ Hl fbn (conj (proj1 Hfbn) Hmax)) as Ha; split; intros; try done; tauto || lia. Qed.

Lemma direct_spec (Q : list Z * Z → mkst → Prop) : fbn < NDIRECT → tight (x_of din) nb → hi + cost (Z.max nb (fbn + 1)) - cost nb ≤ FSSIZE →
  (∀ din' a s', found s din bytes hi nb fbn din' a s' → Q (din', a) s') →
  wp (din <- (if decide (d_addr fbn din = 0) then a <- take_block ;; ret (d_set fbn a din) else ret din) ;; ret (din, d_addr fbn din)) s Q.
Proof.
  intros Hdir Ht Hfit HQ. wp_step. rewrite (d_addr_x fbn din ltac:(lia) V). destruct (decide (iaddr V (x_of din) fbn = 0)) as [E|E].
  - pose proof E as Enb%iaddr_zero. rewrite Z.max_r in Hfit by lia. pose proof (rd_range _ _ Hr) as Hrg. rewrite nmeta_eq in Hrg.
    assert (cost (fbn + 1) - cost nb = 1) as Ec by (unfold cost; rewrite !decide_False by lia; lia).
    wp_step. eapply take_block_spec; [exact Hr|lia|]. intros s' Em Ef Hr'. do 2 wp_step. set (din' := d_set fbn hi din).
    assert (addrs (x_of din') = addrs (put_iaddr fbn hi (x_of din))) as Ea by (unfold din'; rewrite addrs_d_set; [done|done|lia|unfold FSSIZE in *; lia]).
    assert (∀ j, file_block j → iaddr V (x_of din') j = if decide (j = nb) then hi else iaddr V (x_of din) j) as Hi.
    { intros j Hj. rewrite (iaddr_ext V V (put_iaddr fbn hi (x_of din)) (x_of din')) by done. rewrite <- Enb. apply put_direct; [apply Hl|lia|lia|apply Hj]. }
    assert (ind (x_of din') = ind (x_of din)) as Ei.
    { unfold ind. rewrite Ea. fold (ind (put_iaddr fbn hi (x_of din))). rewrite put_ind by (apply Hl || lia). by rewrite decide_False by lia. }
    apply HQ. split; rewrite ?Z.max_r by lia; replace (hi + cost (fbn + 1) - cost nb) with (hi + 1) by lia; rewrite ?Em; try done.
    + rewrite Enb. eapply (assign_layout V V (x_of din)); try done; [rewrite nmeta_eq; lia|lia|lia|apply (rd_zero _ _ Hr); lia].
    + unfold tight. rewrite Ei. unfold tight in Ht. lia.
    + apply d_set_fields. lia.
    + rewrite (d_addr_x fbn din' ltac:(lia) V). done.
    + split; [lia|done|]. intros b [Hb0 [->|(k & Hk & Eb)]]; [left; rewrite Ei in *; split; auto|]. rewrite Hi in Eb by done. case_decide; [right; lia|left; split; eauto].
  - wp_go. rewrite (d_addr_x fbn din ltac:(lia) V). apply HQ, found_there; [|done]. destruct (decide (fbn = nb)) as [?%iaddr_zero|]; [done|lia].
Qed.

Lemma entry_x V' din' : NDIRECT ≤ fbn → ind (x_of din') ≠ 0 → get32 (4 * (fbn - NDIRECT)) (V' (ind (x_of din'))) = iaddr V' (x_of din') fbn.
Proof. intros Hge Hi. unfold iaddr. rewrite decide_False by lia. by rewrite decide_False. Qed.

(* a new entry of the indirect block *)
Lemma entry_layout s' din' hi' : layout V (x_of din') hi' bytes nb → ind (x_of din') ≠ 0 → fbn = nb → NDIRECT ≤ fbn → nmeta ≤ hi' < FSSIZE → V hi' = zero_block →
  view (image s') (ind (x_of din')) = put32 (4 * (fbn - NDIRECT)) hi' (V (ind (x_of din'))) →
  (∀ c, c ≠ ind (x_of din') → view (image s') c = V c) →
  let V' := view (image s') in layout V' (x_of din') (hi' + 1) bytes (nb + 1) ∧ iaddr V' (x_of din') fbn = hi' ∧ grown V V' (x_of din') (x_of din') hi' (hi' + 1).
Proof.
  intros Hl' Hi Enb Hge Hrg Hz W4 W5 V'. destruct (rd_disk _ _ Hr) as [_ Hlen]. set (i := ind (x_of din')) in *. rewrite nmeta_eq in Hrg. unfold FSSIZE in *.
  assert (owned V (x_of din') i) as Hoi by (split; [done|by left]). assert (i ≠ hi') as Hne by (intros ->; destruct (ly_range _ _ _ _ _ Hl' hi' Hoi); lia).
  assert (∀ j, file_block j → iaddr V' (x_of din') j = if decide (j = nb) then hi' else iaddr V (x_of din') j) as Hia.
  { intros j Hj. rewrite (iaddr_ext (img1 i (put32 (4 * (fbn - NDIRECT)) hi' (V i)) V) V' (x_of din')); [|done|].
    - rewrite <- Enb. apply put_entry; [apply Hlen|done|done|lia|done].
    - intros b _. destruct (decide (b = i)) as [->|Hb]; [by rewrite img1_same, <- W4|rewrite img1_other by done; by apply W5]. }
  split_and!.
  - eapply (assign_layout V V' (x_of din')); try done; [rewrite nmeta_eq; lia|lia|rewrite <- Hz; apply W5; done|]. intros b _ Hb. by apply W5.
  - rewrite Hia by (split; lia). by rewrite decide_True.
  - split; [lia| |].
    + intros b Hb _. apply W5. intros ->. done.
    + intros b [Hb0 [->|(k & Hk & Eb)]]; [left; split; [done|by left]|]. rewrite Hia in Eb by done. case_decide; [right; lia|left; split; eauto].
Qed.

Lemma indirect_spec (Q : list Z * Z → mkst → Prop) : NDIRECT ≤ fbn → tight (x_of din) nb → hi + cost (Z.max nb (fbn + 1)) - cost nb ≤ FSSIZE →
  (∀ din' a s', found s din bytes hi nb fbn din' a s' → Q (din', a) s') → wp (ablock fbn din) s Q.
Proof.
  intros Hge Ht Hfit HQ. unfold ablock. rewrite decide_False by lia. wp_step. pose proof (rd_range _ _ Hr) as Hrg. unfold tight in Ht.
  assert (hi + (if decide (ind (x_of din) = 0) then 1 else 0) ≤ FSSIZE) as Hf1.
  { case_decide as Ei; [|lia]. apply Ht in Ei. unfold cost in Hfit. rewrite decide_True in Hfit by lia. rewrite decide_False in Hfit by lia. lia. }
  eapply ensure_ind_spec; try done. intros din1 s1 hi1 E1 Em Ef Hr1 Hl1 Hi1 Hsf Hg1 Hk1. rewrite <- Em in Hl1, Hg1. pose proof (gw_le _ _ _ _ _ _ Hg1).
  assert (nmeta ≤ ind (x_of din1) < hi1) as Hir by (apply (ly_range _ _ _ _ _ Hl1); split; [done|by left]). pose proof (rd_range _ _ Hr1) as Hrg1. rewrite nmeta_eq in *.
  rewrite d_addr_ind. wp_step. eapply rsect_spec; [apply Hr1|unfold in_disk; lia|]. cbv beta zeta. wp_step. rewrite entry_x by done.
  assert (iaddr (view (image s1)) (x_of din1) fbn = iaddr V (x_of din) fbn) as Eia by (rewrite Em; apply Hk1; split; lia). rewrite Eia.
  destruct (decide (iaddr V (x_of din) fbn = 0)) as [Ez|Ez].
  - pose proof Ez as Enb%iaddr_zero.
    assert (hi + cost (Z.max nb (fbn + 1)) - cost nb = hi1 + 1) as Ehi.
    { rewrite E1. unfold cost. rewrite Z.max_r by lia. rewrite decide_True by lia. case_decide; case_decide; lia. }
    wp_step. eapply take_block_spec; [exact Hr1|lia|]. intros s2 Em2 Ef2 Hr2. unfold xint, u32. rewrite wrap_small by (unfold FSSIZE in *; lia). cbv zeta. wp_step.
    eapply wp_mono; [apply wsect_spec; [apply Hr2|unfold in_disk; lia|unfold put32; rewrite length_put_le; apply (proj2 (rd_disk _ _ Hr1))]|].
    intros [] s3 [W1 W2 W3 W4 W5]. do 2 wp_step. rewrite Em2, Em in *.
    destruct (entry_layout s3 din1 hi1) as (L1 & L2 & L3); try done; [rewrite nmeta_eq; lia|apply (rd_zero _ _ Hr); lia|].
    rewrite get32_put32; [|lia|rewrite (proj2 (rd_disk _ _ Hr)); change MAXFILE with 268 in *; unfold NDIRECT, BSIZE in *; lia|unfold is_u32, FSSIZE in *; lia].
    apply HQ. split; rewrite ?Ehi; try done.
    + split; [done|rewrite W3; apply Hr2|rewrite nmeta_eq; lia|]. intros b Hb. rewrite W5 by lia. apply (rd_zero _ _ Hr). lia.
    + congruence.
    + rewrite Z.max_r, Enb by lia. done.
    + unfold tight. lia.
    + by eapply grown_trans.
  - wp_go. rewrite entry_x, Eia by done. assert (fbn < nb) as Hlt by (destruct (decide (fbn = nb)) as [?%iaddr_zero|]; [done|lia]).
    rewrite decide_False in E1 by (rewrite Ht; lia). rewrite Z.add_0_r in E1. subst hi1.
    apply HQ. split; rewrite ?(Z.max_l nb) by lia; replace (hi + cost nb - cost nb) with hi by lia; rewrite ?Em in *; try done.
    unfold tight. lia.
Qed.
End Ablock.

(** ** iappend *)

Definition nblk (n : Z) : Z := (n + BSIZE - 1) / BSIZE.

Lemma nblk_step off n : 0 ≤ off → 0 < n → let fbn := off / BSIZE in let n1 := Z.min n ((fbn + 1) * BSIZE - off) in
  0 < n1 ≤ n ∧ fbn ≤ nblk off ≤ fbn + 1 ∧ nblk (off + n1) = fbn + 1 ∧ off - fbn * BSIZE = off mod BSIZE ∧ off mod BSIZE + n1 ≤ BSIZE.
Proof.
  intros Ho Hn fbn n1. pose proof (Z.div_mod off BSIZE ltac:(done)). pose proof (Z.mod_pos_bound off BSIZE ltac:(done)).
  assert (nblk (off + n1) = fbn + 1). { unfold nblk. symmetry. apply (Z.div_unique _ _ _ (off + n1 + BSIZE - 1 - (fbn + 1) * BSIZE)); unfold fbn, n1, BSIZE in *; lia. }
  assert (fbn ≤ nblk off ≤ fbn + 1).
  { unfold nblk. split; [apply Z.div_le_mono; unfold BSIZE; lia|]. assert ((off + BSIZE - 1) / BSIZE < fbn + 2); [|lia]. apply Z.div_lt_upper_bound; unfold fbn, BSIZE in *; lia. }
  split_and!; try done; unfold n1, fbn, BSIZE in *; lia.
Qed.

Lemma cost_mono a b : a ≤ b → cost a ≤ cost b.
Proof. intros. unfold cost. repeat case_decide; lia. Qed.
Lemma nblk_mono a b : a ≤ b → nblk a ≤ nblk b.
Proof. intros. apply Z.div_le_mono; unfold BSIZE; lia. Qed.

Lemma ablock_spec s hi din bytes nb fbn (Q : list Z * Z → mkst → Prop) : ready s hi → layout (view (image s)) (x_of din) hi bytes nb → length din = 64%nat →
  0 ≤ fbn ≤ nb → fbn < MAXFILE → tight (x_of din) nb → hi + cost (Z.max nb (fbn + 1)) - cost nb ≤ FSSIZE →
  (∀ din' a s', found s din bytes hi nb fbn din' a s' → Q (din', a) s') → wp (ablock fbn din) s Q.
Proof.
  intros. destruct (decide (fbn < NDIRECT)) as [Hlt|Hge]; [|eapply indirect_spec; eauto; lia].
  unfold ablock. rewrite decide_True by done. eapply direct_spec; eauto.
Qed.

(** The file [bytes] under construction, its inode in memory. *)
Record building (s : mkst) (hi : Z) (din bytes : list Z) : Prop := mkBuilding {
  bu_ready : ready s hi;
  bu_layout : layout (view (image s)) (x_of din) hi bytes (nblk (Z.of_nat (length bytes)));
  bu_tight : tight (x_of din) (nblk (Z.of_nat (length bytes)));
  bu_len : length din = 64%nat;
}.

Lemma iappend_write s hi din bytes p din' a s' (Q : unit → mkst → Prop) :
  let off := Z.of_nat (length bytes) in let fbn := off / BSIZE in let n1 := Z.min (Z.of_nat (length p)) ((fbn + 1) * BSIZE - off) in
  let hi' := hi + cost (fbn + 1) - cost (nblk off) in
  building s hi din bytes → p ≠ [] → fbn < MAXFILE → found s din bytes hi (nblk off) fbn din' a s' →
  (∀ s'', building s'' hi' din' (bytes ++ take (Z.to_nat n1) p) → freeinode s'' = freeinode s →
     grown (view (image s)) (view (image s'')) (x_of din) (x_of din') hi hi' → Q tt s'') →
  wp (buf <- rsect a ;; wsect a (list_inserts (Z.to_nat (off - fbn * BSIZE)) (take (Z.to_nat n1) p) buf)) s' Q.
Proof.
  intros off fbn n1 hi' [Hr Hl Ht Hd] Hp Hmax [F1 F2 F3 F4 F5 F6 F7] HQ.
  destruct (nblk_step off (Z.of_nat (length p))) as (S1 & S2 & S3 & S4 & S5); [lia|destruct p; [done|simpl; lia]|]. fold fbn in S1, S2, S3, S4, S5. fold n1 in S1, S3, S5.
  rewrite Z.max_r in F1, F3, F4, F7 by lia. fold hi' in F1, F3, F4, F7. set (V' := view (image s')) in *.
  pose proof (rd_range _ _ F1) as Hrg. pose proof (proj2 (rd_disk _ _ F1)) as Hlen.
  destruct (off_block V' (x_of din') hi' bytes p (fbn + 1) F3) as [Hf Hz]; [fold off fbn; lia|apply Hlen|]. fold off fbn in Hf, Hz. rewrite <- F6 in Hz.
  assert (owned V' (x_of din') a) as Hoa by (split; [done|right; exists fbn; done]). pose proof (ly_range _ _ _ _ _ F3 a Hoa) as Hra. rewrite nmeta_eq in Hra.
  wp_step. eapply rsect_spec; [apply F1|unfold in_disk; lia|]. cbv beta. fold V'. rewrite S4.
  eapply wp_mono; [apply wsect_spec; [apply F1|unfold in_disk; lia|by rewrite length_inserts; apply Hlen]|]. intros [] s'' [W1 W2 W3 W4 W5]. fold V' in W5.
  assert (layout (view (image s'')) (x_of din') hi' (bytes ++ take (Z.to_nat n1) p) (fbn + 1)) as L.
  { eapply (write_layout V'); try done; fold off fbn; rewrite <- ?F6; try done; lia. }
  assert (Z.of_nat (length (bytes ++ take (Z.to_nat n1) p)) = off + n1) as El by (rewrite length_app, length_take; lia).
  assert (∀ k, iaddr (view (image s'')) (x_of din') k = iaddr V' (x_of din') k) as Hia.
  { intros k. apply (write_iaddr V' _ _ hi' bytes p (fbn + 1) F3); [fold off fbn; lia|apply Hlen|]. fold off fbn. by rewrite <- F6. }
  apply HQ; [|congruence|].
  - split; rewrite ?El, ?S3; try done; [|by rewrite (proj1 F5)]. split; [done|rewrite W3; apply F1|done|]. intros b Hb. rewrite W5 by lia. by apply F1.
  - eapply grown_trans; [exact F7|]. split; [lia| |].
    + intros b Hb _. apply W5. intros ->. done.
    + intros b Hb. left. unfold owned in *. by setoid_rewrite Hia in Hb.
Qed.

Lemma iappend_loop_spec fuel : ∀ s hi din bytes p (Q : list Z * Z → mkst → Prop), let hi' := hi + cost (nblk (Z.of_nat (length (bytes ++ p)))) - cost (nblk (Z.of_nat (length bytes))) in
  building s hi din bytes → Z.of_nat (length (bytes ++ p)) ≤ MAXFILE * BSIZE → hi' ≤ FSSIZE → (length p < fuel)%nat →
  (∀ din' s', building s' hi' din' (bytes ++ p) → freeinode s' = freeinode s → same_fields din din' →
     grown (view (image s)) (view (image s')) (x_of din) (x_of din') hi hi' → Q (din', Z.of_nat (length (bytes ++ p))) s') →
  wp (iappend_loop fuel din (Z.of_nat (length bytes)) p) s Q.
Proof.
  induction fuel as [|fuel IH]; intros s hi din bytes p Q hi' Hb Hsz Hfit Hf HQ; [lia|]. cbn [iappend_loop]. destruct (decide (p = [])) as [->|Hp].
  { apply wp_ret. unfold hi' in *. rewrite app_nil_r in *. replace (hi + cost (nblk (Z.of_nat (length bytes))) - cost (nblk (Z.of_nat (length bytes)))) with hi in * by lia.
    apply HQ; try done. apply grown_refl. }
  assert (0 < length p)%nat as Hlp by (destruct p; [done|simpl; lia]).
  set (off := Z.of_nat (length bytes)) in *. set (fbn := off / BSIZE). set (n1 := Z.min (Z.of_nat (length p)) ((fbn + 1) * BSIZE - off)).
  destruct (nblk_step off (Z.of_nat (length p))) as (S1 & S2 & S3 & S4 & S5); [lia|lia|]. fold fbn in S1, S2, S3, S4, S5. fold n1 in S1, S3, S5.
  rewrite length_app in Hsz. assert (fbn < MAXFILE) as Hmax by (apply Z.div_lt_upper_bound; [unfold BSIZE; lia|]; lia).
  assert (0 ≤ fbn) as Hf0 by (apply Z.div_pos; unfold BSIZE; lia).
  rewrite decide_False by lia. assert (cost (nblk (off + n1)) ≤ cost (nblk (Z.of_nat (length (bytes ++ p))))) as Hc by (apply cost_mono, nblk_mono; rewrite length_app; lia).
  wp_step. eapply ablock_spec; [apply Hb|apply Hb|apply Hb|fold off; lia|done|apply Hb|fold off; rewrite Z.max_r by lia; rewrite <- S3; lia|]. fold off.
  intros din1 a s1 F. cbv beta. apply wp_assoc. pose proof (fd_fields _ _ _ _ _ _ _ _ _ F) as Hsf. wp_step. eapply iappend_write; [exact Hb|done|done|exact F|].
  fold off fbn n1. intros s2 Hb2 Ef Hg. cbv beta.
  assert (Z.of_nat (length (bytes ++ take (Z.to_nat n1) p)) = off + n1) as El by (rewrite length_app, length_take; lia).
  assert (u32 (off + n1) = off + n1) as -> by (unfold u32; apply wrap_small; change MAXFILE with 268 in *; unfold BSIZE in *; lia). rewrite <- El.
  eapply (IH s2 _ din1 (bytes ++ take (Z.to_nat n1) p)); [exact Hb2| | |rewrite length_drop; lia|]; rewrite <- app_assoc, take_drop.
  - rewrite length_app. lia.
  - rewrite El, S3. unfold hi' in Hfit. lia.
  - rewrite El, S3. replace (hi + cost (fbn + 1) - cost (nblk off) + _ - cost (fbn + 1)) with hi' by (unfold hi'; lia).
    intros din' s' Hb' Ef' Hsf' Hg'. apply HQ; [done|congruence|by etransitivity|by eapply grown_trans].
Qed.
