(* ===== verification/MkfsTheorems.v ===== *)
(** * What mkfs writes

    Between two calls the image holds a list of files, inode [i + 1] being the
    [i]-th.  At the end the image satisfies the invariants that the theorems
    on kernel/fs.c assume of the disk. *)

From S2P Require Import Prelude Params CString Spinlock ProcDefs WaitQueue Sched Memory FsDefs Seq Sleeplock Bio BioInv BioSpec Log Fs LogCrash LogSpec AddressSpace FsExample LogTheorems FsTx FsAlloc FsFile FsBmap FsRw FsWrite FsInode FsTheorems FsIget FsDir Mkfs MkfsLayout.

(** ** Inodes on disk *)

Definition dino (V : Z → list Z) (n : Z) : list Z := take 64 (drop (Z.to_nat (doff n)) (V (IBLOCK n sb))).
Definition is_ino (n : Z) : Prop := 0 ≤ n < 208.

Lemma iblock_eq n : is_ino n → IBLOCK n sb = n / 16 + 33 ∧ 33 ≤ IBLOCK n sb < 46.
Proof.
  unfold is_ino. intros Hn. unfold IBLOCK. change (inodestart sb) with 33. change IPB with 16.
  assert (0 ≤ n / 16 < 13) by (split; [apply Z.div_pos; lia|apply Z.div_lt_upper_bound; lia]).
  unfold u32. rewrite wrap_small by lia. lia.
Qed.
Lemma doff_range n : 0 ≤ doff n ≤ 960.
Proof. unfold doff. change IPB with 16. pose proof (Z.mod_pos_bound n 16). lia. Qed.

Lemma dino_ext V V' n : V' (IBLOCK n sb) = V (IBLOCK n sb) → dino V' n = dino V n.
Proof. intros E. unfold dino. by rewrite E. Qed.

Lemma length_dino V n : length (V (IBLOCK n sb)) = Z.to_nat BSIZE → length (dino V n) = 64%nat.
Proof. intros Hl. pose proof (doff_range n). unfold dino. rewrite length_take, length_drop, Hl. unfold BSIZE. lia. Qed.

Lemma dino_write V V' n m ip : is_ino n → is_ino m → length ip = 64%nat → length (V (IBLOCK n sb)) = Z.to_nat BSIZE →
  V' (IBLOCK n sb) = list_inserts (Z.to_nat (doff n)) ip (V (IBLOCK n sb)) → (∀ b, b ≠ IBLOCK n sb → V' b = V b) →
  dino V' m = if decide (m = n) then ip else dino V m.
Proof.
  intros Hn Hm Hip Hl Hv Hother. destruct (decide (m = n)) as [->|Hne].
  - unfold dino. rewrite Hv. apply list_eq. intros i. pose proof (doff_range n). destruct (decide (i < 64)%nat).
    + rewrite lookup_take_lt, lookup_drop by done. rewrite list_lookup_inserts; [f_equal; lia|lia|rewrite Hl; unfold BSIZE; lia].
    + rewrite lookup_take_ge by lia. symmetry. apply lookup_ge_None_2. lia.
  - destruct (decide (IBLOCK m sb = IBLOCK n sb)) as [E|E]; [|apply dino_ext; auto]. unfold dino. rewrite E, Hv.
    destruct (iblock_eq n Hn) as [E1 _], (iblock_eq m Hm) as [E2 _].
    assert (doff m + 64 ≤ doff n ∨ doff n + 64 ≤ doff m) as Hd.
    { unfold doff. change IPB with 16. pose proof (Z.div_mod n 16). pose proof (Z.div_mod m 16). lia. }
    pose proof (doff_range n). pose proof (doff_range m). apply list_eq. intros i. destruct (decide (i < 64)%nat).
    + rewrite !lookup_take_lt, !lookup_drop by done. destruct Hd; [rewrite list_lookup_inserts_lt by lia|rewrite list_lookup_inserts_ge by lia]; done.
    + by rewrite !lookup_take_ge by lia.
Qed.

Lemma winode_spec s n ip (Q : unit → mkst → Prop) : disk_ok (image s) → is_ino n → length ip = 64%nat →
  (∀ s', disk_ok (image s') → freeinode s' = freeinode s → freeblock s' = freeblock s → (∀ b, b ≠ IBLOCK n sb → view (image s') b = view (image s) b) →
     (∀ m, is_ino m → dino (view (image s')) m = if decide (m = n) then ip else dino (view (image s)) m) → Q tt s') →
  wp (winode n ip) s Q.
Proof.
  intros Hd Hn Hip HQ. destruct (iblock_eq n Hn) as [_ Hb]. unfold winode. wp_step. eapply rsect_spec; [done|unfold in_disk, FSSIZE; lia|]. cbv beta.
  eapply wp_mono; [apply wsect_spec; [done|unfold in_disk, FSSIZE; lia|rewrite length_inserts; apply Hd]|].
  intros [] s' [W1 W2 W3 W4 W5]. apply HQ; try done. intros m Hm. by apply dino_write; [| | |apply Hd| |].
Qed.

Lemma rinode_spec s n (Q : list Z → mkst → Prop) : disk_ok (image s) → is_ino n → Q (dino (view (image s)) n) s → wp (rinode n) s Q.
Proof.
  intros Hd Hn HQ. destruct (iblock_eq n Hn) as [_ Hb]. unfold rinode. wp_step. eapply rsect_spec; [done|unfold in_disk, FSSIZE; lia|]. cbv beta. wp_step. done.
Qed.

(** ** The state between calls *)

Record entry (V : Z → list Z) (hi : Z) (din : list Z) (f : Z * list Z) : Prop := mkEntry {
  en_len : length din = 64%nat;
  en_fields : get16 0 din = f.1 ∧ get16 2 din = 0 ∧ get16 4 din = 0 ∧ get16 6 din = 1;
  en_size : get32 8 din = Z.of_nat (length f.2);
  en_layout : layout V (x_of din) hi f.2 (nblk (Z.of_nat (length f.2)));
  en_tight : tight (x_of din) (nblk (Z.of_nat (length f.2)));
}.

Definition used_by (f : Z * list Z) : Z := cost (nblk (Z.of_nat (length f.2))).
Definition used_blocks (fs : list (Z * list Z)) : Z := foldr (λ f n, used_by f + n) 0 fs.

Record mkinv (s : mkst) (fs : list (Z * list Z)) : Prop := mkMkinv {
  mi_ready : ready s (nmeta + used_blocks fs);
  mi_ino : freeinode s = 1 + Z.of_nat (length fs);
  mi_count : 1 + Z.of_nat (length fs) ≤ 208;
  mi_inode : ∀ i f, fs !! i = Some f → entry (view (image s)) (nmeta + used_blocks fs) (dino (view (image s)) (1 + Z.of_nat i)) f;
  mi_disj : ∀ i j b, (i < length fs)%nat → (j < length fs)%nat → i ≠ j → owned (view (image s)) (x_of (dino (view (image s)) (1 + Z.of_nat i))) b →
    ¬ owned (view (image s)) (x_of (dino (view (image s)) (1 + Z.of_nat j))) b;
  mi_unused : ∀ n, is_ino n → n = 0 ∨ Z.of_nat (length fs) < n → dino (view (image s)) n = replicate 64 0;
  mi_meta : ∀ b, 0 ≤ b < 33 ∨ b = 46 → view (image s) b = if decide (b = 1) then sb_bytes ++ replicate (Z.to_nat BSIZE - length sb_bytes) 0 else zero_block;
}.

Lemma used_insert fs i f f' : fs !! i = Some f → used_blocks (<[i := f']> fs) = used_blocks fs + used_by f' - used_by f.
Proof. revert i. induction fs as [|g fs IH]; intros [|i] Hi; simplify_eq/=; [lia|]. rewrite IH by done. lia. Qed.
Lemma used_app fs1 fs2 : used_blocks (fs1 ++ fs2) = used_blocks fs1 + used_blocks fs2.
Proof. induction fs1 as [|f fs1 IH]; simpl; [done|]. rewrite IH. lia. Qed.

Lemma fields_of_put din off : length din = 64%nat → let din' := put32 8 off din in
  length din' = 64%nat ∧ get16 0 din' = get16 0 din ∧ get16 2 din' = get16 2 din ∧ get16 4 din' = get16 4 din ∧ get16 6 din' = get16 6 din ∧ addrs (x_of din') = addrs (x_of din).
Proof.
  intros Hl din'. unfold din', get16, put32. rewrite length_put_le, !get_put_le_ne by lia. split_and!; try done.
  rewrite !addrs_x_of. apply list_eq. intros i. destruct (decide (i < 13)%nat) as [Hi|Hi].
  - rewrite !di_addrs_lookup by done. unfold di_addr, get32. by rewrite get_put_le_ne by lia.
  - rewrite !lookup_ge_None_2; [done| |]; rewrite length_di_addrs; unfold NDIRECT; lia.
Qed.

Section Append.
Variables (s : mkst) (fs : list (Z * list Z)) (i : nat) (ty : Z) (bytes p : list Z).
Hypothesis Hinv : mkinv s fs.
Hypothesis Hi : fs !! i = Some (ty, bytes).
Notation fs' := (<[i := (ty, bytes ++ p)]> fs).
Notation V := (view (image s)).
Notation hi := (nmeta + used_blocks fs).
Notation hi' := (nmeta + used_blocks fs').
Notation n := (1 + Z.of_nat i).
Notation x := (x_of (dino V n)).

Lemma append_ino : is_ino n.
Proof. apply lookup_lt_Some in Hi. pose proof (mi_count _ _ Hinv). unfold is_ino. lia. Qed.
Lemma append_hi : hi' = hi + cost (nblk (Z.of_nat (length (bytes ++ p)))) - cost (nblk (Z.of_nat (length bytes))).
Proof. rewrite (used_insert fs i (ty, bytes)) by done. unfold used_by. simpl. lia. Qed.

(* the metadata and the other files are untouched while blocks are added *)
Lemma append_meta V1 x1 b : grown V V1 x x1 hi hi' → 0 ≤ b < nmeta → V1 b = V b.
Proof.
  intros Hg Hb. apply (gw_other _ _ _ _ _ _ Hg).
  - intros Ho. pose proof (ly_range _ _ _ _ _ (en_layout _ _ _ _ (mi_inode _ _ Hinv i _ Hi)) b Ho). lia.
  - pose proof (rd_range _ _ (mi_ready _ _ Hinv)). lia.
Qed.
Lemma append_dino V1 x1 m : grown V V1 x x1 hi hi' → is_ino m → dino V1 m = dino V m.
Proof. intros Hg Hm. apply dino_ext. eapply append_meta; [done|]. destruct (iblock_eq m Hm). rewrite nmeta_eq. lia. Qed.
Lemma append_other V1 x1 j f b : grown V V1 x x1 hi hi' → j ≠ i → fs !! j = Some f → owned V (x_of (dino V (1 + Z.of_nat j))) b → V1 b = V b.
Proof.
  intros Hg Hj Hf Ho. apply (gw_other _ _ _ _ _ _ Hg).
  - intros Hb. eapply (mi_disj _ _ Hinv i j b); try done; [by eapply lookup_lt_Some|by eapply lookup_lt_Some].
  - pose proof (ly_range _ _ _ _ _ (en_layout _ _ _ _ (mi_inode _ _ Hinv j _ Hf)) b Ho). lia.
Qed.

(** The blocks have been added ([s1]) and the inode has been stored ([s2]). *)
Section Stored.
Variables (s1 s2 : mkst) (din1 : list Z).
Notation V1 := (view (image s1)).
Notation V2 := (view (image s2)).
Notation din2 := (put32 8 (Z.of_nat (length (bytes ++ p))) din1).
Hypothesis Hsz : Z.of_nat (length (bytes ++ p)) ≤ MAXFILE * BSIZE.
Hypothesis Hb : building s1 hi' din1 (bytes ++ p).
Hypothesis Hsf : same_fields (dino V n) din1.
Hypothesis Hg : grown V V1 x (x_of din1) hi hi'.
Hypothesis Hd : disk_ok (image s2).
Hypothesis Hother : ∀ b, b ≠ IBLOCK n sb → V2 b = V1 b.
Hypothesis Hdino : ∀ m, is_ino m → dino V2 m = if decide (m = n) then din2 else dino V1 m.

Lemma stored_data b : nmeta ≤ b → V2 b = V1 b.
Proof. intros Hnb. apply Hother. destruct (iblock_eq _ append_ino). rewrite nmeta_eq in Hnb. lia. Qed.
Lemma stored_own : dino V2 n = din2.
Proof. rewrite Hdino by apply append_ino. by rewrite decide_True. Qed.
Lemma stored_other m : is_ino m → m ≠ n → dino V2 m = dino V m.
Proof. intros Hm Hne. rewrite Hdino by done. rewrite decide_False by done. by eapply append_dino. Qed.
Lemma ino_of j f : fs !! j = Some f → is_ino (1 + Z.of_nat j).
Proof. intros Hj%lookup_lt_Some. pose proof (mi_count _ _ Hinv). unfold is_ino. lia. Qed.
Lemma stored_same j f b : fs !! j = Some f → j ≠ i → owned V (x_of (dino V (1 + Z.of_nat j))) b → nmeta ≤ b < hi ∧ V2 b = V b.
Proof.
  intros Hf Hj Ho. pose proof (ly_range _ _ _ _ _ (en_layout _ _ _ _ (mi_inode _ _ Hinv j f Hf)) b Ho) as Hr. split; [done|].
  rewrite stored_data by lia. by eapply append_other.
Qed.

Lemma stored_owned b : owned V2 (x_of (dino V2 n)) b → owned V x b ∨ hi ≤ b < hi'.
Proof.
  rewrite stored_own. destruct Hb as [_ B2 _ B4]. intros Ho. apply (gw_owned _ _ _ _ _ _ Hg). refine (proj1 (owned_ext V1 V2 (x_of din1) (x_of din2) b _ _) Ho).
  - by destruct (fields_of_put din1 (Z.of_nat (length (bytes ++ p))) B4) as (_ & _ & _ & _ & _ & E).
  - intros c Hc. apply stored_data, (ly_range _ _ _ _ _ B2 c Hc).
Qed.
Lemma stored_owned_other j f b : fs !! j = Some f → j ≠ i → owned V2 (x_of (dino V2 (1 + Z.of_nat j))) b →
  owned V (x_of (dino V (1 + Z.of_nat j))) b ∧ b < hi.
Proof.
  intros Hf Hj. rewrite stored_other; [|exact (ino_of j f Hf)|lia]. intros Ho.
  assert (owned V (x_of (dino V (1 + Z.of_nat j))) b) as Ho'.
  { refine (proj1 (owned_ext V V2 _ _ b eq_refl _) Ho). intros c Hc. by eapply stored_same. }
  split; [done|]. destruct (stored_same j f b Hf Hj Ho'). lia.
Qed.

Lemma stored_entry : entry V2 hi' (dino V2 n) (ty, bytes ++ p).
Proof.
  rewrite stored_own. destruct Hb as [B1 B2 B3 B4]. destruct (mi_inode _ _ Hinv i _ Hi) as [_ E2 _ _ _]. destruct Hsf as (_ & F1 & F2 & F3 & F4).
  destruct (fields_of_put din1 (Z.of_nat (length (bytes ++ p))) B4) as (P1 & P2 & P3 & P4 & P5 & P6). split; cbn [fst snd].
  - exact P1.
  - by rewrite P2, P3, P4, P5, F1, F2, F3, F4.
  - apply get32_put32; [lia|rewrite B4; lia|]. unfold is_u32. change MAXFILE with 268 in *. unfold BSIZE in *. lia.
  - eapply (layout_ext V1 V2 (x_of din1)); [exact P6| |done|exact B2]. intros b Ho. apply stored_data, (ly_range _ _ _ _ _ B2 b Ho).
  - unfold tight, ind. rewrite P6. exact B3.
Qed.
Lemma stored_entry_other j f : fs !! j = Some f → j ≠ i → entry V2 hi' (dino V2 (1 + Z.of_nat j)) f.
Proof.
  intros Hf Hj. rewrite stored_other; [|exact (ino_of j f Hf)|lia]. destruct (mi_inode _ _ Hinv j f Hf) as [G1 G2 G3 G4 G5]. split; [exact G1|exact G2|exact G3| |exact G5].
  eapply (layout_ext V V2); [done| |apply (gw_le _ _ _ _ _ _ Hg)|exact G4]. intros b Ho. by eapply stored_same.
Qed.

Lemma stored_inv : freeinode s2 = freeinode s → freeblock s2 = freeblock s1 → mkinv s2 fs'.
Proof.
  intros Ei Eb. assert (length fs' = length fs) as Elen by apply length_insert. pose proof (bu_ready _ _ _ _ Hb) as Hr. pose proof (rd_range _ _ Hr) as Hrg.
  assert (∀ j f, fs' !! j = Some f → j ≠ i → fs !! j = Some f) as Hold by (intros j f Hf Hj; by rewrite list_lookup_insert_ne in Hf).
  split; rewrite ?Elen.
  - split; [done|rewrite Eb; apply Hr|done|]. intros b Hbr. rewrite stored_data by lia. by apply Hr.
  - rewrite Ei. apply Hinv.
  - apply Hinv.
  - intros j f Hf. destruct (decide (j = i)) as [->|Hj]; [|by apply stored_entry_other; auto].
    rewrite list_lookup_insert_eq in Hf by (by eapply lookup_lt_Some). injection Hf as <-. apply stored_entry.
  - intros j k b [f Hf]%lookup_lt_is_Some_2 [g Hk]%lookup_lt_is_Some_2 Hjk Ho Ho'.
    assert (∀ j f, fs !! j = Some f → j ≠ i → owned V2 (x_of (dino V2 (1 + Z.of_nat j))) b → owned V2 (x_of (dino V2 n)) b → False) as Hcross.
    { intros j' f' Hf' Hj' Hb1 Hb2. destruct (stored_owned_other j' f' b Hf' Hj' Hb1) as [H1 H2]. apply stored_owned in Hb2 as [H3|?]; [|lia].
      apply (mi_disj _ _ Hinv i j' b); [by eapply lookup_lt_Some|by eapply lookup_lt_Some|congruence|done|done]. }
    destruct (decide (j = i)) as [->|Hji]; [by eapply (Hcross k g)|]. destruct (decide (k = i)) as [->|Hki]; [by eapply (Hcross j f)|].
    apply (mi_disj _ _ Hinv j k b); [by eapply lookup_lt_Some|by eapply lookup_lt_Some|done|by eapply stored_owned_other|by eapply stored_owned_other].
  - intros m Hm Hmu. pose proof (lookup_lt_Some _ _ _ Hi). rewrite stored_other by lia || done. by apply Hinv.
  - intros b Hbm. rewrite <- (mi_meta _ _ Hinv b Hbm). destruct (iblock_eq _ append_ino). rewrite Hother by lia. eapply append_meta; [done|]. rewrite nmeta_eq. lia.
Qed.
End Stored.
End Append.

Lemma iappend_spec s fs i ty bytes p (Q : unit → mkst → Prop) : mkinv s fs → fs !! i = Some (ty, bytes) → Z.of_nat (length (bytes ++ p)) ≤ MAXFILE * BSIZE →
  let fs' := <[i := (ty, bytes ++ p)]> fs in nmeta + used_blocks fs' ≤ FSSIZE →
  (∀ s', mkinv s' fs' → Q tt s') → wp (iappend (1 + Z.of_nat i) p) s Q.
Proof.
  intros Hinv Hi Hsz fs' Hfit HQ. pose proof (append_ino s fs i ty bytes Hinv Hi) as Hn. pose proof (append_hi fs i ty bytes p Hi) as Ehi. fold fs' in Ehi.
  pose proof (mi_inode _ _ Hinv i _ Hi) as [E1 _ E3 E4 E5]. cbn [fst snd] in E3, E4, E5. pose proof (mi_ready _ _ Hinv) as Hr.
  unfold iappend. wp_step. eapply rinode_spec; [apply Hr|done|]. cbv beta. wp_step. rewrite E3.
  eapply (iappend_loop_spec _ s (nmeta + used_blocks fs)); [by split|done|rewrite <- Ehi; done|lia|]. rewrite <- Ehi. intros din1 s1 Hb Ef Hsf Hg. cbv beta iota.
  unfold xint, u32. rewrite wrap_small by (change MAXFILE with 268 in *; unfold BSIZE in *; lia).
  eapply winode_spec; [apply (rd_disk _ _ (bu_ready _ _ _ _ Hb))|done|unfold put32; rewrite length_put_le; apply Hb|]. intros s2 D1 D2 D3 D4 D5. apply HQ.
  eapply (stored_inv s fs i ty bytes p Hinv Hi s1 s2 din1); try done. congruence.
Qed.

(** ** ialloc *)

Definition fresh_din (ty : Z) : list Z := put32 8 (xint 0) (put16 6 (xshort 1) (put16 0 (xshort ty) (replicate 64 0))).

Lemma byte_zero o : byte_at o zero_block = 0.
Proof. unfold byte_at, zero_block. destruct (replicate (Z.to_nat BSIZE) 0 !! Z.to_nat o) as [b|] eqn:E; [|done]. by apply lookup_replicate in E as [-> _]. Qed.

Lemma fresh_iaddr V x k : addrs x = replicate 13 0 → iaddr V x k = 0 ∧ ind x = 0.
Proof.
  intros E. assert (∀ n, default 0 (replicate 13 0 !! n) = 0) as Hz.
  { intros n. destruct (replicate 13 0 !! n) eqn:El; [|done]. by apply lookup_replicate in El as [-> _]. }
  assert (ind x = 0) as Ei by (unfold ind; by rewrite E). split; [|done]. unfold iaddr. rewrite E, Ei. case_decide; [apply Hz|by rewrite decide_True].
Qed.

Lemma fresh_entry V hi ty : ty = T_DIR ∨ ty = T_FILE → entry V hi (fresh_din ty) (ty, []).
Proof.
  intros Hty. assert (addrs (x_of (fresh_din ty)) = replicate 13 0) as Ea by (destruct Hty as [-> | ->]; vm_compute; reflexivity).
  pose proof (λ k, fresh_iaddr V (x_of (fresh_din ty)) k Ea) as Hz. change (nblk (Z.of_nat (length (ty, [] : list Z).2))) with 0 in *. split.
  - destruct Hty as [-> | ->]; vm_compute; reflexivity.
  - destruct Hty as [-> | ->]; vm_compute; auto.
  - destruct Hty as [-> | ->]; vm_compute; reflexivity.
  - change (nblk _) with 0. split; cbn [snd].
    + by rewrite Ea.
    + intros k [Hk _]. rewrite (proj1 (Hz k)). split; [done|lia].
    + unfold NDIRECT. lia.
    + intros b [Hb [->|(k & _ & E)]]; [by destruct (Hz 0)|]. by rewrite (proj1 (Hz k)) in E.
    + intros k _ Hk. by destruct (Hz k).
    + intros k k' _ _ Hk. by destruct (Hz k).
    + intros o Ho. unfold fbyte, fblock. rewrite decide_True by apply Hz. rewrite byte_zero. unfold byte_at. by rewrite lookup_nil.
  - change (nblk _) with 0. unfold tight. rewrite (proj2 (Hz 0)). unfold NDIRECT. lia.
Qed.

Section Fresh.
Variables (s s' : mkst) (fs : list (Z * list Z)) (ty : Z).
Notation n := (1 + Z.of_nat (length fs)).
Notation V := (view (image s)).
Notation V' := (view (image s')).
Hypothesis Hinv : mkinv s fs.
Hypothesis Hty : ty = T_DIR ∨ ty = T_FILE.
Hypothesis Hn : n < 208.
Hypothesis Hd : disk_ok (image s').
Hypothesis Hi : freeinode s' = n + 1.
Hypothesis Hf : freeblock s' = freeblock s.
Hypothesis Hother : ∀ b, b ≠ IBLOCK n sb → V' b = V b.
Hypothesis Hdino : ∀ m, is_ino m → dino V' m = if decide (m = n) then fresh_din ty else dino V m.

Lemma fresh_ino : is_ino n.
Proof. unfold is_ino. lia. Qed.
Lemma fresh_data b : ¬ 33 ≤ b < 46 → V' b = V b.
Proof. intros Hb. apply Hother. destruct (iblock_eq n fresh_ino). lia. Qed.
Lemma old_ino j f : fs !! j = Some f → is_ino (1 + Z.of_nat j) ∧ dino V' (1 + Z.of_nat j) = dino V (1 + Z.of_nat j).
Proof.
  intros Hj%lookup_lt_Some. assert (is_ino (1 + Z.of_nat j)) as Hij by (unfold is_ino; lia). split; [done|]. rewrite Hdino by done. by rewrite decide_False by lia.
Qed.
Lemma old_same j f b : fs !! j = Some f → owned V (x_of (dino V (1 + Z.of_nat j))) b → V' b = V b.
Proof.
  intros Hj Ho. apply fresh_data. pose proof (ly_range _ _ _ _ _ (en_layout _ _ _ _ (mi_inode _ _ Hinv j f Hj)) b Ho) as Hrb. rewrite nmeta_eq in Hrb. lia.
Qed.
Lemma old_owned j f b : fs !! j = Some f → owned V' (x_of (dino V' (1 + Z.of_nat j))) b → owned V (x_of (dino V (1 + Z.of_nat j))) b.
Proof.
  intros Hj Ho. destruct (old_ino j f Hj) as [_ E]. rewrite E in Ho. refine (proj1 (owned_ext V V' _ _ b eq_refl _) Ho). intros c Hc. by eapply old_same.
Qed.
Lemma new_dino : dino V' n = fresh_din ty.
Proof. rewrite Hdino by apply fresh_ino. by rewrite decide_True. Qed.
Lemma new_owned b : ¬ owned V' (x_of (dino V' n)) b.
Proof.
  rewrite new_dino. intros Ho. pose proof (ly_range _ _ _ _ _ (en_layout _ _ _ _ (fresh_entry V' 0 ty Hty)) b Ho) as Hrb. rewrite nmeta_eq in Hrb. lia.
Qed.

Lemma fresh_inv : mkinv s' (fs ++ [(ty, [])]).
Proof.
  assert (used_blocks (fs ++ [(ty, [])]) = used_blocks fs) as Eu by (rewrite used_app; simpl; change (used_by (ty, [])) with 0; lia).
  pose proof (mi_ready _ _ Hinv) as Hr. pose proof (rd_range _ _ Hr) as Hrg. rewrite nmeta_eq in Hrg.
  assert (∀ j, (j < length fs + 1)%nat → j = length fs ∨ ∃ f, fs !! j = Some f) as Hcase.
  { intros j Hj. destruct (decide (j = length fs)); [by left|right]. apply lookup_lt_is_Some_2. lia. }
  split; rewrite ?Eu, ?length_app; cbn [length].
  - split; [done|rewrite Hf; apply Hr|apply Hr|]. intros b Hb. rewrite fresh_data by (rewrite nmeta_eq in Hb; lia). by apply Hr.
  - rewrite Hi. lia.
  - lia.
  - intros j f [Hj|[Hge Hj]]%lookup_app_Some.
    + destruct (old_ino j f Hj) as [_ ->]. destruct (mi_inode _ _ Hinv j f Hj) as [G1 G2 G3 G4 G5]. split; [exact G1|exact G2|exact G3| |exact G5].
      eapply (layout_ext V V'); [done| |done|exact G4]. intros b Ho. by eapply old_same.
    + apply list_lookup_singleton_Some in Hj as [Ej <-]. replace j with (length fs) by lia. rewrite new_dino. by apply fresh_entry.
  - intros j k b Hj Hk Hjk Ho Ho'. destruct (Hcase j Hj) as [->|[f Hfj]]; [by apply new_owned in Ho|]. destruct (Hcase k Hk) as [->|[g Hgk]]; [by apply new_owned in Ho'|].
    apply (mi_disj _ _ Hinv j k b); [by eapply lookup_lt_Some|by eapply lookup_lt_Some|done|by eapply old_owned|by eapply old_owned].
  - intros m Hm Hmu. rewrite Hdino by done. rewrite decide_False by lia. apply Hinv; [done|lia].
  - intros b Hb. rewrite <- (mi_meta _ _ Hinv b Hb). apply fresh_data. lia.
Qed.
End Fresh.

Lemma ialloc_spec s fs ty (Q : Z → mkst → Prop) : mkinv s fs → ty = T_DIR ∨ ty = T_FILE → 2 + Z.of_nat (length fs) ≤ 208 →
  (∀ s', mkinv s' (fs ++ [(ty, [])]) → Q (1 + Z.of_nat (length fs)) s') → wp (ialloc ty) s Q.
Proof.
  intros Hinv Hty Hc HQ. unfold ialloc. do 2 wp_step. rewrite (mi_ino _ _ Hinv). do 2 wp_step. fold (fresh_din ty). wp_step.
  eapply winode_spec; [apply (mi_ready _ _ Hinv)|unfold is_ino; lia|apply (fresh_entry (λ _, []) 0 ty Hty)|]. cbn [image set_freeinode freeinode freeblock].
  intros s' D1 D2 D3 D4 D5. wp_step. apply HQ. eapply (fresh_inv s s' fs ty Hinv Hty); try done; [lia|]. rewrite D2. unfold u32. rewrite wrap_small by lia. lia.
Qed.

(** ** The empty image *)

Lemma wzero_spec k : ∀ i s, image s = replicate i zeroes → wp (wzero k (Z.of_nat i)) s (λ _ s', image s' = replicate (i + k) zeroes ∧ freeinode s' = freeinode s ∧ freeblock s' = freeblock s).
Proof.
  induction k as [|k IH]; intros i s Hs; cbn [wzero]; [apply wp_ret; by rewrite Nat.add_0_r|]. wp_step. unfold wsect. apply wp_modify.
  replace (Z.of_nat i + 1) with (Z.of_nat (S i)) by lia. set (s' := set_image _ _). assert (image s' = replicate (S i) zeroes) as Hs'.
  { unfold s'. cbn [image set_image]. rewrite Hs, length_replicate, Nat2Z.id. replace (S i - i)%nat with 1%nat by lia.
    rewrite insert_app_r_alt by (rewrite length_replicate; lia). rewrite length_replicate, Nat.sub_diag. simpl. by rewrite <- replicate_cons_app. }
  eapply wp_mono; [by apply (IH (S i) s')|]. intros _ s2 (E1 & E2 & E3). split_and!; [rewrite E1; f_equal; lia|done|done].
Qed.

Lemma view_zero k b : view (replicate k zeroes) b = zero_block.
Proof. unfold view. case_decide; [|done]. destruct (replicate k zeroes !! Z.to_nat b) as [d|] eqn:E; [|done]. by apply lookup_replicate in E as [-> _]. Qed.

Definition sb_block : list Z := sb_bytes ++ replicate (Z.to_nat BSIZE - length sb_bytes) 0.

Lemma empty_inv s s' : image s = replicate (Z.to_nat FSSIZE) zeroes → freeinode s = 1 → freeblock s = nmeta → wrote1 s s' 1 sb_block → mkinv s' [].
Proof.
  intros Hs Hi Hf [W1 W2 W3 W4 W5]. assert (∀ b, b ≠ 1 → view (image s') b = zero_block) as Hz by (intros b Hb; rewrite W5, Hs by done; apply view_zero).
  split; cbn [length used_blocks foldr]; try done.
  - split; [done|lia|rewrite nmeta_eq; unfold FSSIZE; lia|]. intros b Hb. apply Hz. rewrite nmeta_eq in Hb. lia.
  - lia.
  - intros; simpl in *; lia.
  - intros m Hm _. destruct (iblock_eq m Hm) as [_ Hb]. unfold dino. rewrite Hz by lia. unfold zero_block. pose proof (doff_range m).
    rewrite drop_replicate, take_replicate. f_equal. unfold BSIZE. lia.
  - intros b Hb. case_decide; [by subst|auto].
Qed.

(** ** Adding the files *)

Lemma used_by_mono t a t' b : (length a ≤ length b)%nat → used_by (t, a) ≤ used_by (t', b).
Proof. intros. apply cost_mono, nblk_mono. simpl. lia. Qed.
Lemma used_by_nonneg f : 0 ≤ used_by f.
Proof. unfold used_by, cost, nblk. assert (0 ≤ (Z.of_nat (length f.2) + BSIZE - 1) / BSIZE) by (apply Z.div_pos; unfold BSIZE; lia). case_decide; lia. Qed.
Lemma used_nonneg fs : 0 ≤ used_blocks fs.
Proof. induction fs as [|f fs IH]; simpl; [lia|]. pose proof (used_by_nonneg f). lia. Qed.

Lemma append_all_spec bufs : ∀ s fs i ty bytes (Q : unit → mkst → Prop), mkinv s fs → fs !! i = Some (ty, bytes) →
  Z.of_nat (length (bytes ++ concat bufs)) ≤ MAXFILE * BSIZE → nmeta + used_blocks (<[i := (ty, bytes ++ concat bufs)]> fs) ≤ FSSIZE →
  (∀ s', mkinv s' (<[i := (ty, bytes ++ concat bufs)]> fs) → Q tt s') → wp (append_all (1 + Z.of_nat i) bufs) s Q.
Proof.
  induction bufs as [|b bufs IH]; intros s fs i ty bytes Q Hinv Hi Hsz Hfit HQ; cbn [append_all concat] in *.
  - apply wp_ret, HQ. rewrite app_nil_r. by rewrite list_insert_id.
  - assert (i < length fs)%nat by by eapply lookup_lt_Some. rewrite app_assoc in *. wp_step. eapply iappend_spec; [done|done|rewrite length_app in Hsz; lia| |].
    + rewrite (used_insert fs i (ty, bytes)) in * by done. pose proof (used_by_mono ty (bytes ++ b) ty ((bytes ++ b) ++ concat bufs) ltac:(rewrite !length_app; lia)). lia.
    + intros s1 Hs1. eapply (IH s1 _ i ty (bytes ++ b)); [exact Hs1|by apply list_lookup_insert_eq|done| |]; by rewrite list_insert_insert_eq.
Qed.

Section Files.
Variable host : list Z → option (list (list Z)).

Definition content (path : list Z) : list Z := concat (default [] (host path)).
Definition file_ok (path : list Z) : Prop :=
  is_Some (host path) ∧ slash ∉ unprefixed path ∧ Z.of_nat (length (shortname path)) ≤ DIRSIZ ∧ Z.of_nat (length (content path)) ≤ MAXFILE * BSIZE.
Fixpoint dirents (k : Z) (paths : list (list Z)) : list Z :=
  match paths with [] => [] | p :: paths => dirent_bytes k (shortname p) ++ dirents (k + 1) paths end.
Definition tree (rb : list Z) (files : list (Z * list Z)) (paths : list (list Z)) : list (Z * list Z) :=
  (T_DIR, rb ++ dirents (2 + Z.of_nat (length files)) paths) :: files ++ ((λ p, (T_FILE, content p)) <$> paths).

Lemma add_file_spec s rb files path (Q : unit → mkst → Prop) : mkinv s ((T_DIR, rb) :: files) → file_ok path → 3 + Z.of_nat (length files) ≤ 208 →
  Z.of_nat (length (rb ++ dirent_bytes (2 + Z.of_nat (length files)) (shortname path))) ≤ MAXFILE * BSIZE →
  nmeta + used_blocks (tree rb files [path]) ≤ FSSIZE → (∀ s', mkinv s' (tree rb files [path]) → Q tt s') →
  wp (add_file host ROOTINO path) s Q.
Proof.
  intros Hinv ([bufs Eh] & Hsl & Hnm & Hcl) Hc Hrl Hfit HQ. unfold content in Hcl. unfold tree in *. cbn [dirents fmap list_fmap] in *. rewrite !app_nil_r in *.
  assert (content path = concat bufs) as Ec by (unfold content; by rewrite Eh). rewrite Ec in *. rewrite Eh in Hcl. simpl in Hcl.
  unfold add_file. rewrite decide_False by done. rewrite Eh, decide_False by lia. set (inum := 2 + Z.of_nat (length files)) in *.
  wp_step. eapply ialloc_spec; [exact Hinv|by right|cbn [length]; lia|]. intros s1 H1. cbv beta. cbn [app] in H1.
  replace (1 + Z.of_nat (length ((T_DIR, rb) :: files))) with inum by (unfold inum; simpl; lia). wp_step.
  set (de := dirent_bytes inum (shortname path)) in *. assert (used_by (T_FILE, []) = 0) as E0 by done. pose proof (used_by_nonneg (T_FILE, concat bufs)).
  simpl in Hfit. rewrite used_app in Hfit. simpl in Hfit.
  eapply (iappend_spec s1 _ 0 T_DIR rb de); [exact H1|done|done| |].
  { simpl. rewrite used_app. simpl. rewrite E0. lia. }
  intros s2 H2. cbv beta. cbn [insert list_insert] in H2.
  replace inum with (1 + Z.of_nat (S (length files))) by (unfold inum; lia).
  assert ((T_DIR, rb ++ de) :: files ++ [(T_FILE, concat bufs)] = <[S (length files) := (T_FILE, [] ++ concat bufs)]> ((T_DIR, rb ++ de) :: files ++ [(T_FILE, [])])) as Ef.
  { simpl. f_equal. rewrite insert_app_r_alt by lia. by rewrite Nat.sub_diag. }
  eapply (append_all_spec bufs s2 _ _ T_FILE []); [exact H2|simpl; by rewrite list_lookup_middle|done| |]; rewrite <- Ef; [|done].
  simpl. rewrite used_app. simpl. lia.
Qed.

Lemma add_files_spec paths : ∀ s rb files (Q : unit → mkst → Prop), mkinv s ((T_DIR, rb) :: files) → Forall file_ok paths →
  2 + Z.of_nat (length files + length paths) ≤ 208 → Z.of_nat (length (rb ++ dirents (2 + Z.of_nat (length files)) paths)) ≤ MAXFILE * BSIZE →
  nmeta + used_blocks (tree rb files paths) ≤ FSSIZE → (∀ s', mkinv s' (tree rb files paths) → Q tt s') →
  wp (add_files host ROOTINO paths) s Q.
Proof.
  induction paths as [|p paths IH]; intros s rb files Q Hinv Hok Hc Hrl Hfit HQ; cbn [add_files].
  - apply wp_ret, HQ. unfold tree. simpl. by rewrite !app_nil_r.
  - apply list.Forall_cons in Hok as [Hp Hok]. cbn [length] in Hc. wp_step.
    set (de := dirent_bytes (2 + Z.of_nat (length files)) (shortname p)).
    assert (tree rb files (p :: paths) = tree (rb ++ de) (files ++ [(T_FILE, content p)]) paths) as Et.
    { unfold tree. cbn [dirents fmap list_fmap]. rewrite length_app. cbn [length].
      replace (2 + Z.of_nat (length files + 1)) with (2 + Z.of_nat (length files) + 1) by lia. by rewrite <- !app_assoc. }
    rewrite Et in Hfit, HQ. assert (tree rb files [p] = (T_DIR, rb ++ de) :: files ++ [(T_FILE, content p)]) as E1 by (unfold tree; cbn [dirents fmap list_fmap]; by rewrite app_nil_r).
    eapply add_file_spec; [exact Hinv|done|lia| | |].
    + fold de. cbn [dirents] in Hrl. fold de in Hrl. rewrite app_assoc, length_app in Hrl. lia.
    + rewrite E1. unfold tree in Hfit. simpl in Hfit |- *. rewrite !used_app in *.
      pose proof (used_by_mono T_DIR (rb ++ de) T_DIR ((rb ++ de) ++ dirents (2 + Z.of_nat (length (files ++ [(T_FILE, content p)]))) paths) ltac:(rewrite (length_app (rb ++ de)); lia)).
      pose proof (used_nonneg ((λ p, (T_FILE, content p)) <$> paths)). lia.
    + intros s1 H1. rewrite E1 in H1. cbv beta. eapply IH; [exact H1|done|rewrite length_app; simpl; lia| |done|done].
      rewrite (length_app files). cbn [length dirents] in *. fold de in Hrl. rewrite app_assoc in Hrl. by replace (2 + Z.of_nat (length files + 1)) with (2 + Z.of_nat (length files) + 1) by lia.
Qed.
End Files.
