(* ===== verification/MkfsImage.v ===== *)
(** * The image as the kernel sees it

    [image_ok] collects what kernel/fs.c and kernel/log.c find on the disk
    that mkfs wrote: the superblock, an empty log, the free map, and the root
    directory with the files.  [first_boot] runs fsinit on it. *)

From S2P Require Import Prelude Params CString Spinlock ProcDefs WaitQueue Sched Memory FsDefs Seq Sleeplock Bio BioInv BioSpec Log Fs LogCrash LogSpec AddressSpace FsExample LogTheorems FsTx FsAlloc FsFile FsBmap FsRw FsWrite FsInode FsTheorems FsIget FsDir Mkfs MkfsLayout MkfsTheorems.

(** ** The free map *)

Lemma bit_mk i c d : 0 ≤ i < BPB → Z.of_nat (length d) = BSIZE →
  bit_of c (put_byte (i / 8) (u8 (Z.lor (byte_at (i / 8) d) (Z.shiftl 1 (i mod 8)))) d) = if decide (c mod BPB = i) then true else bit_of c d.
Proof.
  intros Hi Hl. pose proof (bit_set d Hl i c) as E. rewrite (Z.mod_small i BPB) in E by lia. rewrite <- E. unfold bit_of, set_bit.
  assert (map_byte i = i / 8 ∧ bit_mask i = Z.shiftl 1 (i mod 8)) as [E1 E2] by (unfold map_byte, bit_mask; by rewrite Z.mod_small by lia).
  pose proof (map_byte_bound d i). pose proof (map_byte_bound d c). rewrite E1, E2 in *. rewrite !byte_put by lia. destruct (decide (map_byte c = i / 8)); [|done].
  unfold u8, wrap. pose proof (Z.mod_pos_bound (c mod BPB) 8 ltac:(lia)). apply Z.mod_pow2_bits_low. lia.
Qed.

Lemma set_bits_spec k : ∀ i d, 0 ≤ i → i + Z.of_nat k ≤ BPB → Z.of_nat (length d) = BSIZE →
  length (set_bits k i d) = length d ∧ ∀ c, bit_of c (set_bits k i d) = if decide (i ≤ c mod BPB < i + Z.of_nat k) then true else bit_of c d.
Proof.
  induction k as [|k IH]; intros i d Hi Hk Hl; cbn [set_bits].
  - split; [done|]. intros c. by rewrite decide_False by lia.
  - set (d' := put_byte _ _ d). assert (length d' = length d) as Hl' by apply length_insert. destruct (IH (i + 1) d') as [I1 I2]; [lia|lia|by rewrite Hl'|].
    split; [congruence|]. intros c. rewrite I2. unfold d'. rewrite bit_mk by (lia || done). repeat case_decide; try done; lia.
Qed.

(** ** Inodes as ilock loads them *)

Definition kinode (V : Z → list Z) (n : Z) : inode := load_dinode (doff n) (V (IBLOCK n sb)) (mkInode 1 n 1 0 0 0 0 0 0 []).

Lemma get_le_slice k o j d : 0 ≤ o → 0 ≤ j → j + Z.of_nat k ≤ 64 → get_le k (o + j) d = get_le k j (take 64 (drop (Z.to_nat o) d)).
Proof.
  intros Ho Hj Hk. unfold get_le. f_equal. apply list_eq. intros i. destruct (decide (i < k)%nat).
  - rewrite !lookup_take_lt, !lookup_drop by done. rewrite lookup_take_lt, lookup_drop by lia. f_equal. lia.
  - by rewrite !lookup_take_ge by lia.
Qed.

Lemma kinode_fields V n : let x := kinode V n in
  itype x = i16 (get16 0 (dino V n)) ∧ inlink x = i16 (get16 6 (dino V n)) ∧ isize x = get32 8 (dino V n) ∧ addrs x = addrs (x_of (dino V n)) ∧ idev x = 1 ∧ inum x = n.
Proof.
  pose proof (doff_range n) as Hd. unfold kinode, dino. set (d := V (IBLOCK n sb)). cbn [load_dinode set_ivalid set_addrs set_isize set_inlink set_iminor set_imajor set_itype itype inlink isize addrs idev inum].
  unfold di_type, di_nlink, di_size, get16, get32. split_and!; try done.
  - rewrite <- (get_le_slice 2 (doff n) 0) by lia. by rewrite Z.add_0_r.
  - by rewrite <- get_le_slice by lia.
  - by rewrite <- get_le_slice by lia.
  - rewrite addrs_x_of. apply list_eq. intros i. destruct (decide (i < 13)%nat).
    + rewrite !di_addrs_lookup by done. unfold di_addr, get32. rewrite <- Z.add_assoc. by rewrite get_le_slice by lia.
    + rewrite !lookup_ge_None_2; [done| |]; rewrite length_di_addrs; unfold NDIRECT; lia.
Qed.

(** ** The end of main *)

Definition root_size (R : list Z) : Z := (Z.of_nat (length R) / BSIZE + 1) * BSIZE.

Record sealed (s : mkst) (fs : list (Z * list Z)) (s' : mkst) : Prop := mkSealed {
  se_disk : disk_ok (image s');
  se_other : ∀ b, b ≠ 33 → b ≠ 46 → view (image s') b = view (image s) b;
  se_dino : ∀ m, is_ino m → dino (view (image s')) m =
    if decide (m = 1) then put32 8 (root_size (default (0, []) (fs !! 0%nat)).2) (dino (view (image s)) m) else dino (view (image s)) m;
  se_map : view (image s') 46 = set_bits (Z.to_nat (nmeta + used_blocks fs)) 0 zeroes;
}.

Lemma seal_spec s fs R : mkinv s fs → fs !! 0%nat = Some (T_DIR, R) → Z.of_nat (length R) ≤ MAXFILE * BSIZE →
  wp (din <- rinode ROOTINO ;;
      let off := get32 8 din in
      let off := u32 ((off / BSIZE + 1) * BSIZE) in
      winode ROOTINO (put32 8 (xint off) din) ;;
      s <- get ;;
      balloc (i32 (freeblock s))) s (λ _ s', sealed s fs s').
Proof.
  intros Hinv Hr HR. pose proof (mi_ready _ _ Hinv) as Hrd. pose proof (rd_range _ _ Hrd) as Hrg. rewrite nmeta_eq in Hrg. unfold FSSIZE in Hrg.
  destruct (mi_inode _ _ Hinv 0%nat _ Hr) as [E1 _ E3 _ _]. cbn [snd] in E3. change (1 + Z.of_nat 0) with 1 in *.
  assert (0 ≤ Z.of_nat (length R) / BSIZE ≤ 268) as Hdiv.
  { split; [apply Z.div_pos; unfold BSIZE; lia|]. assert (Z.of_nat (length R) / BSIZE < 269); [|lia]. apply Z.div_lt_upper_bound; change MAXFILE with 268 in *; unfold BSIZE in *; lia. }
  wp_step. eapply rinode_spec; [apply Hrd|done|]. cbv beta zeta. change ROOTINO with 1. rewrite E3. fold (root_size R).
  assert (u32 (root_size R) = root_size R) as Eu by (unfold u32; apply wrap_small; unfold root_size, BSIZE in *; lia). unfold xint. rewrite !Eu.
  wp_step. eapply winode_spec; [apply Hrd|done|unfold put32; by rewrite length_put_le|]. intros s1 D1 D2 D3 D4 D5. cbv beta. do 2 wp_step.
  rewrite D3, (rd_free _ _ Hrd). rewrite i32_small by (rewrite nmeta_eq; lia). unfold balloc. rewrite decide_False by (rewrite nmeta_eq; unfold BPB, BSIZE; lia).
  destruct (set_bits_spec (Z.to_nat (nmeta + used_blocks fs)) 0 zeroes) as [Hl _]; [done|rewrite nmeta_eq; unfold BPB, BSIZE; lia|done|].
  change (bmapstart sb) with 46. eapply wp_mono; [apply wsect_spec; [done|unfold in_disk, FSSIZE; lia|by rewrite Hl]|]. intros [] s2 [W1 W2 W3 W4 W5]. split; [done| | |done].
  - intros b H33 H46. rewrite W5 by done. by apply D4.
  - intros m Hm. destruct (iblock_eq m Hm) as [_ Hb]. rewrite (dino_ext (view (image s1))) by (apply W5; lia). rewrite D5 by done. rewrite Hr. cbn [default snd]. case_decide; [by subst|done].
Qed.

Section Kernel.
Variables (s s' : mkst) (fs : list (Z * list Z)) (R : list Z).
Notation V := (view (image s)).
Notation V' := (view (image s')).
Notation hi := (nmeta + used_blocks fs).
Hypothesis Hinv : mkinv s fs.
Hypothesis Hroot : fs !! 0%nat = Some (T_DIR, R).
Hypothesis Hseal : sealed s fs s'.
Hypothesis Hcount : Z.of_nat (length fs) < NINODES.

Lemma hi_range : 47 ≤ hi ≤ 2000.
Proof. pose proof (rd_range _ _ (mi_ready _ _ Hinv)) as H. rewrite nmeta_eq in H. unfold FSSIZE in H. rewrite nmeta_eq. lia. Qed.
Lemma image_len b : length (V' b) = Z.to_nat BSIZE.
Proof. apply (se_disk _ _ _ Hseal). Qed.

(** *** The free map *)

Lemma bblock_eq b : 0 ≤ b < 2000 → BBLOCK b sb = 46.
Proof. intros Hb. unfold BBLOCK. rewrite Z.div_small by (unfold BPB, BSIZE; lia). done. Qed.

Lemma image_in_use b : 0 ≤ b < sbsize sb → in_use sb V' b ↔ b < hi.
Proof.
  change (sbsize sb) with 2000. intros Hb. pose proof hi_range. rewrite in_use_bit, bblock_eq, (se_map _ _ _ Hseal) by done.
  destruct (set_bits_spec (Z.to_nat hi) 0 zeroes) as [_ ->]; [done|unfold BPB, BSIZE; lia|done|]. rewrite Z.mod_small by (unfold BPB, BSIZE; lia).
  rewrite Z2Nat.id by lia. case_decide as E; [split; [lia|done]|]. split; [|lia]. unfold bit_of. change zeroes with zero_block. rewrite byte_zero, Z.bits_0. done.
Qed.
Lemma image_used b : 0 ≤ b < hi → used sb V' b.
Proof. intros Hb. pose proof hi_range. assert (0 ≤ b < sbsize sb) as Hs by (change (sbsize sb) with 2000; lia). split; [done|]. apply image_in_use; [done|lia]. Qed.
Lemma not_map b : b ≠ 46 → ¬ is_map sb b.
Proof. intros Hb (c & Hc & ->). by rewrite bblock_eq in Hb. Qed.
Lemma inode_block_range b : is_inode_block sb b → 33 ≤ b < 46.
Proof. intros (i & Hi & ->). change (ninodes sb) with 200 in Hi. apply iblock_eq. unfold is_ino. lia. Qed.

Lemma image_fs_ok : fs_ok sb V' [].
Proof.
  pose proof hi_range. split; [split| | |].
  - done.
  - done.
  - intros c _. set_solver.
  - intros c Hc. rewrite image_len. done.
  - intros c ?%elem_of_nil. done.
  - intros c Hc. rewrite bblock_eq by done. apply image_used. lia.
  - intros b. apply image_len.
  - apply image_used. lia.
  - intros b Hb%inode_block_range. split_and!; [apply image_used; lia|set_solver|apply not_map; lia].
Qed.

(** *** The inodes *)

Lemma file_ino i f : fs !! i = Some f → is_ino (1 + Z.of_nat i) ∧ 0 ≤ 1 + Z.of_nat i < NINODES.
Proof. intros Hi%lookup_lt_Some. unfold is_ino, NINODES in *. lia. Qed.

Lemma image_addrs i f : fs !! i = Some f → addrs (kinode V' (1 + Z.of_nat i)) = addrs (x_of (dino V (1 + Z.of_nat i))).
Proof.
  intros Hi. destruct (file_ino i f Hi) as [Hn _]. destruct (kinode_fields V' (1 + Z.of_nat i)) as (_ & _ & _ & -> & _). rewrite (se_dino _ _ _ Hseal) by done.
  case_decide; [|done]. apply fields_of_put. apply (mi_inode _ _ Hinv i f Hi).
Qed.
Lemma image_blocks i f b : fs !! i = Some f → owned V (x_of (dino V (1 + Z.of_nat i))) b → V' b = V b.
Proof.
  intros Hi Ho. pose proof (ly_range _ _ _ _ _ (en_layout _ _ _ _ (mi_inode _ _ Hinv i f Hi)) b Ho) as Hr. rewrite nmeta_eq in Hr. apply (se_other _ _ _ Hseal); lia.
Qed.
Lemma image_layout i f : fs !! i = Some f → layout V' (kinode V' (1 + Z.of_nat i)) hi f.2 (nblk (Z.of_nat (length f.2))).
Proof.
  intros Hi. eapply (layout_ext V V' (x_of (dino V (1 + Z.of_nat i)))); [by eapply image_addrs| |done|apply (mi_inode _ _ Hinv i f Hi)].
  intros b Ho. by eapply image_blocks.
Qed.
Lemma image_owned i f b : fs !! i = Some f → owned V' (kinode V' (1 + Z.of_nat i)) b → owned V (x_of (dino V (1 + Z.of_nat i))) b.
Proof. intros Hi Ho. refine (proj1 (owned_ext V V' _ _ b _ _) Ho); [by eapply image_addrs|]. intros c Hc. by eapply image_blocks. Qed.

Lemma image_inode_ok i f : fs !! i = Some f → inode_ok sb V' (kinode V' (1 + Z.of_nat i)).
Proof.
  intros Hi. pose proof (image_layout i f Hi) as [L1 L2 L3 L4 L5 L6 L7]. destruct (kinode_fields V' (1 + Z.of_nat i)) as (_ & _ & _ & _ & E5 & E6).
  pose proof hi_range as Hh. split; [exact L1|exact E5|rewrite E6; apply (file_ino i f Hi)| |exact L5|exact L6].
  intros b Hb. destruct (L4 b Hb) as [Hlo Hhi]. rewrite nmeta_eq in Hlo. split; [apply image_used; lia|]. split; [apply not_map; lia|].
  intros Hib%inode_block_range. lia.
Qed.

Lemma image_fields i f : fs !! i = Some f → itype (kinode V' (1 + Z.of_nat i)) = i16 f.1 ∧ inlink (kinode V' (1 + Z.of_nat i)) = 1 ∧
  isize (kinode V' (1 + Z.of_nat i)) = if decide (i = 0%nat) then u32 (root_size R) else Z.of_nat (length f.2).
Proof.
  intros Hi. destruct (file_ino i f Hi) as [Hn _]. destruct (kinode_fields V' (1 + Z.of_nat i)) as (-> & -> & -> & _). rewrite (se_dino _ _ _ Hseal) by done.
  destruct (mi_inode _ _ Hinv i f Hi) as [E1 (F1 & F2 & F3 & F4) E3 _ _]. destruct (decide (i = 0%nat)) as [->|Hne].
  - rewrite decide_True by done. rewrite Hroot. change (default (0, []) (Some (T_DIR, R))).2 with R. destruct (fields_of_put (dino V (1 + Z.of_nat 0)) (root_size R) E1) as (_ & -> & _ & _ & -> & _).
    rewrite F1, F4. split_and!; [done|done|]. unfold get32, put32. rewrite get_put_le by lia. done.
  - rewrite decide_False by lia. by rewrite F1, F4, E3.
Qed.

Lemma image_slice i f off n : fs !! i = Some f → 0 ≤ off → 0 ≤ n → off + n ≤ MAXFILE * BSIZE →
  slice V' (kinode V' (1 + Z.of_nat i)) off n = (λ o, byte_at o f.2) <$> seqZ off n.
Proof.
  intros Hi Ho Hn Hle. unfold slice. apply list_fmap_ext. intros j o Hj. apply lookup_seqZ in Hj as [-> Hj].
  apply (ly_bytes _ _ _ _ _ (image_layout i f Hi)). lia.
Qed.
End Kernel.

Lemma bytes_whole bytes : (λ o, byte_at o bytes) <$> seqZ 0 (Z.of_nat (length bytes)) = bytes.
Proof.
  apply list_eq. intros i. rewrite list_lookup_fmap. destruct (bytes !! i) as [b|] eqn:E.
  - pose proof (lookup_lt_Some _ _ _ E). rewrite (proj2 (lookup_seqZ 0 _ i (0 + Z.of_nat i))) by lia. simpl. unfold byte_at. replace (Z.to_nat _) with i by lia. by rewrite E.
  - apply lookup_ge_None in E. rewrite lookup_ge_None_2; [done|]. rewrite length_seqZ. lia.
Qed.

Lemma nblk_lt n k : k < nblk n ↔ k * BSIZE < n.
Proof.
  unfold nblk, BSIZE. pose proof (Z.div_mod (n + 1024 - 1) 1024 ltac:(done)). pose proof (Z.mod_pos_bound (n + 1024 - 1) 1024 ltac:(done)). lia.
Qed.

(** ** The root directory *)

Definition names (paths : list (list Z)) : list (list Z) := dot :: dotdot :: (shortname <$> paths).
Definition numbers (paths : list (list Z)) : list Z := 1 :: 1 :: seqZ 2 (Z.of_nat (length paths)).
Definition root_bytes (paths : list (list Z)) : list Z := concat (zip_with dirent_bytes (numbers paths) (names paths)).

Lemma dirents_concat paths : ∀ k, dirents k paths = concat (zip_with dirent_bytes (seqZ k (Z.of_nat (length paths))) (shortname <$> paths)).
Proof.
  induction paths as [|p paths IH]; intros k; [done|]. cbn [dirents length fmap list_fmap]. rewrite seqZ_cons by lia. cbn [zip_with concat].
  f_equal. rewrite IH. do 3 f_equal; lia.
Qed.
Lemma root_bytes_eq paths : root_bytes paths = (dirent_bytes 1 dot ++ dirent_bytes 1 dotdot) ++ dirents 2 paths.
Proof. unfold root_bytes, numbers, names. cbn [zip_with concat]. by rewrite dirents_concat, app_assoc. Qed.

Lemma length_dirent_bytes n name : length (dirent_bytes n name) = 16%nat.
Proof.
  unfold dirent_bytes, mk_dirent. rewrite length_app, length_le_bytes. unfold strncpy_list. rewrite length_take, length_app, length_replicate. unfold DIRSIZ. lia.
Qed.
Lemma length_concat16 (l : list (list Z)) : Forall (λ e, length e = 16%nat) l → length (concat l) = (16 * length l)%nat.
Proof. induction 1 as [|e l He _ IH]; [done|]. cbn [concat length]. rewrite length_app, He, IH. lia. Qed.
Lemma concat16_lookup (l : list (list Z)) : Forall (λ e, length e = 16%nat) l → ∀ j e i, l !! j = Some e → (i < 16)%nat → concat l !! (16 * j + i)%nat = e !! i.
Proof.
  induction 1 as [|e l He _ IH]; intros j e' i Hj Hi; [done|]. cbn [concat]. destruct j as [|j]; simpl in Hj.
  - simplify_eq. by rewrite lookup_app_l by lia.
  - rewrite lookup_app_r by lia. rewrite He. replace (16 * S j + i - 16)%nat with (16 * j + i)%nat by lia. by apply IH.
Qed.

Lemma dirents_16 paths : Forall (λ e, length e = 16%nat) (zip_with dirent_bytes (numbers paths) (names paths)).
Proof. apply list.Forall_forall. intros e (j & Hj)%list_elem_of_lookup. apply lookup_zip_with_Some in Hj as (n & nm & -> & _). apply length_dirent_bytes. Qed.
Lemma length_numbers paths : length (numbers paths) = length (names paths).
Proof. unfold numbers, names. simpl. rewrite length_seqZ, length_fmap. lia. Qed.
Lemma length_names paths : length (names paths) = (2 + length paths)%nat.
Proof. unfold names. simpl. by rewrite length_fmap. Qed.
Lemma length_root_bytes paths : length (root_bytes paths) = (16 * (2 + length paths))%nat.
Proof. unfold root_bytes. rewrite length_concat16 by apply dirents_16. by rewrite length_zip_with, length_numbers, Nat.min_id, length_names. Qed.

(* the entry at index j, zeroes past the end *)
Lemma root_entry paths j : 0 ≤ j → (λ o, byte_at o (root_bytes paths)) <$> seqZ (j * 16) 16 =
  default (replicate 16 0) (zip_with dirent_bytes (numbers paths) (names paths) !! Z.to_nat j).
Proof.
  intros Hj. apply list_eq. intros i. rewrite list_lookup_fmap. destruct (decide (i < 16)%nat) as [Hi|Hi].
  - rewrite (proj2 (lookup_seqZ (j * 16) 16 i (j * 16 + Z.of_nat i))) by lia. cbn [fmap option_fmap option_map]. unfold byte_at. replace (Z.to_nat (j * 16 + Z.of_nat i)) with (16 * Z.to_nat j + i)%nat by lia.
    destruct (zip_with _ _ _ !! Z.to_nat j) as [e|] eqn:Ee; unfold default.
    + unfold root_bytes. rewrite (concat16_lookup _ (dirents_16 paths) _ e) by done. pose proof (proj1 (list.Forall_lookup _ _) (dirents_16 paths) _ _ Ee) as He. simpl in He.
      destruct (lookup_lt_is_Some_2 e i) as [v Ev]; [lia|]. by rewrite Ev.
    + apply lookup_ge_None in Ee. rewrite length_zip_with, length_numbers, Nat.min_id, length_names in Ee. rewrite (lookup_ge_None_2 (root_bytes paths)) by (rewrite length_root_bytes; lia).
      by rewrite lookup_replicate_2.
  - rewrite lookup_ge_None_2 by (rewrite length_seqZ; lia). symmetry. apply lookup_ge_None_2. destruct (zip_with _ _ _ !! Z.to_nat j) as [e|] eqn:Ee; simpl; [|lia].
    pose proof (proj1 (list.Forall_lookup _ _) (dirents_16 paths) _ _ Ee) as He. simpl in He. lia.
Qed.

Lemma numbers_range paths j n : Z.of_nat (length paths) ≤ 1000 → numbers paths !! j = Some n → 0 < n < 2 ^ 16.
Proof.
  intros Hl. unfold numbers. destruct j as [|[|j]]; simpl; intros E; simplify_eq; [lia|lia|]. apply lookup_seqZ in E. lia.
Qed.

Lemma dirent_bytes_fields n name : 0 < n < 2 ^ 16 → de_inum (dirent_bytes n name) = n ∧ key (de_name (dirent_bytes n name)) = key name.
Proof. intros Hn. destruct (mk_dirent_fields n name Hn) as (_ & H1 & H2). done. Qed.

Section Names.
Variables (V : Z → list Z) (x : inode) (paths : list (list Z)).
Hypothesis Hpaths : Z.of_nat (length paths) ≤ 1000.
Hypothesis Hsize : isize x = root_size (root_bytes paths).
Hypothesis Hbytes : ∀ j, 0 ≤ j < nents x → dirent V x j = (λ o, byte_at o (root_bytes paths)) <$> seqZ (j * 16) 16.

Lemma root_room : Z.of_nat (length (names paths)) ≤ nents x.
Proof.
  unfold nents. rewrite Hsize, length_names. unfold root_size. rewrite length_root_bytes. unfold dirent_size, BSIZE.
  pose proof (Z.div_mod (Z.of_nat (16 * (2 + length paths))) 1024 ltac:(done)). pose proof (Z.mod_pos_bound (Z.of_nat (16 * (2 + length paths))) 1024 ltac:(done)).
  apply Z.div_le_lower_bound; lia.
Qed.

Lemma root_is_entry k j : 0 ≤ j < nents x → is_entry V x k j ↔ ∃ nm, names paths !! Z.to_nat j = Some nm ∧ k = key nm.
Proof.
  intros Hj. unfold is_entry. rewrite Hbytes, root_entry by lia. destruct (zip_with _ _ _ !! Z.to_nat j) as [e|] eqn:Ee; cbn [default].
  - apply lookup_zip_with_Some in Ee as (n & nm & -> & En & Em). destruct (dirent_bytes_fields n nm) as [E1 E2]; [by eapply numbers_range|]. simpl. rewrite E1, E2, Em.
    pose proof (numbers_range _ _ _ Hpaths En). split; [intros [_ ->]; eauto|]. intros (? & [= <-] & ->). split; [lia|done].
  - split; [intros [H _]; by destruct H|]. intros (nm & Hnm & _). apply lookup_ge_None in Ee. rewrite length_zip_with, length_numbers, Nat.min_id in Ee. apply lookup_lt_Some in Hnm. lia.
Qed.

Lemma root_find j nm n : NoDup (key <$> names paths) → names paths !! j = Some nm → numbers paths !! j = Some n → dir_find V x (key nm) = Some n.
Proof.
  intros Hnd Hj Hn. pose proof root_room. pose proof (lookup_lt_Some _ _ _ Hj). rewrite (dir_find_first V x (key nm) (Z.of_nat j)); [|lia| |].
  - rewrite Hbytes, root_entry by lia. rewrite Nat2Z.id. rewrite (proj2 (lookup_zip_with_Some dirent_bytes (numbers paths) (names paths) j (dirent_bytes n nm))) by eauto.
    simpl. f_equal. apply dirent_bytes_fields. by eapply numbers_range.
  - apply root_is_entry; [lia|]. rewrite Nat2Z.id. eauto.
  - intros i Hi. rewrite root_is_entry by lia. intros (nm' & Hi' & Ek). assert (Z.to_nat i = j); [|lia].
    eapply (NoDup_lookup (key <$> names paths)); [done| |]; rewrite list_lookup_fmap; [rewrite Hi'|rewrite Hj]; simpl; by rewrite ?Ek.
Qed.

Lemma root_find_none k : k ∉ key <$> names paths → dir_find V x k = None.
Proof.
  intros Hk. apply dir_find_none. intros j Hj. rewrite root_is_entry by done. intros (nm & Hnm & ->). apply Hk. apply list_elem_of_fmap. exists nm. split; [done|]. by eapply list_elem_of_lookup_2.
Qed.
End Names.

(** ** The whole program *)

Section Whole.
Variables (host : list Z → option (list (list Z))) (paths : list (list Z)).

Definition files : list (Z * list Z) := (T_DIR, root_bytes paths) :: ((λ p, (T_FILE, content host p)) <$> paths).

(** The arguments are ones that mkfs accepts and has room for. *)
Record fits : Prop := mkFits {
  ft_ok : Forall (file_ok host) paths;
  ft_count : Z.of_nat (length files) < NINODES;
  ft_room : nmeta + used_blocks files ≤ FSSIZE;
}.

Lemma root_fits : fits → Z.of_nat (length (root_bytes paths)) ≤ 3200.
Proof. intros [_ Hc _]. unfold files, NINODES in Hc. cbn [length] in Hc. rewrite length_fmap in Hc. rewrite length_root_bytes. lia. Qed.

Lemma wiped_spec (k : nat) s (Q : unit → mkst → Prop) : image s = [] →
  (∀ s', image s' = replicate k zeroes → freeinode s' = freeinode s → freeblock s' = freeblock s → Q tt s') → wp (wzero k 0) s Q.
Proof. intros Hi HQ. eapply wp_mono; [exact (wzero_spec k 0 s Hi)|]. intros [] s' (E1 & E2 & E3). by apply HQ. Qed.

Lemma super_spec s (Q : unit → mkst → Prop) : image s = replicate (Z.to_nat FSSIZE) zeroes → freeinode s = 1 → freeblock s = nmeta →
  (∀ s', mkinv s' [] → Q tt s') → wp (wsect 1 sb_block) s Q.
Proof.
  intros Hi H1 H2 HQ. eapply wp_mono; [apply wsect_spec|].
  - rewrite Hi. split; [apply length_replicate|]. intros b. by rewrite view_zero.
  - unfold in_disk, FSSIZE. lia.
  - done.
  - intros [] s' Hw. apply HQ. by eapply empty_inv.
Qed.

Lemma main_spec : fits → wp (main host paths) start (λ _ s', ∃ s, mkinv s files ∧ sealed s files s').
Proof.
  intros Hf. pose proof (root_fits Hf) as HR. destruct Hf as [Hok Hc Hroom]. unfold files, NINODES in Hc. cbn [length] in Hc. rewrite length_fmap in Hc. unfold main.
  apply wp_bind, wp_modify, wp_bind, wiped_spec; [done|]. intros s1 E1 E2 E3. cbv beta. fold sb_block. apply wp_bind, super_spec; [done..|]. intros s2 H2. cbv beta.
  apply wp_bind. eapply ialloc_spec; [exact H2|by left|simpl; lia|]. intros s3 H3. cbv beta. change (1 + Z.of_nat (length [])) with ROOTINO. rewrite decide_False by tauto.
  apply wp_bind. eapply (iappend_spec s3 _ 0 T_DIR []); [exact H3|done|done|done|]. intros s4 H4. cbv beta.
  apply wp_bind. eapply (iappend_spec s4 _ 0 T_DIR (dirent_bytes 1 dot)); [exact H4|done|done|done|]. intros s5 H5. cbv beta.
  assert (tree host (dirent_bytes 1 dot ++ dirent_bytes 1 dotdot) [] paths = files) as Et by (unfold tree, files; by rewrite root_bytes_eq).
  apply wp_bind. eapply (add_files_spec host paths s5 (dirent_bytes 1 dot ++ dirent_bytes 1 dotdot) []); [exact H5|done|simpl; lia| |by rewrite Et|].
  - change (2 + Z.of_nat (length [])) with 2. rewrite <- root_bytes_eq. change MAXFILE with 268. unfold BSIZE. lia.
  - rewrite Et. intros s6 H6. cbv beta. eapply wp_mono; [apply (seal_spec s6 files (root_bytes paths)); [exact H6|done|]|].
    + change MAXFILE with 268. unfold BSIZE. lia.
    + intros [] s7 H7. eauto.
Qed.

(* what readsb makes of block 1 *)
Definition decode_sb (d : list Z) : superblock :=
  mkSb (get32 0 d) (get32 4 d) (get32 8 d) (get32 12 d) (get32 16 d) (get32 20 d) (get32 24 d) (get32 28 d).

(** What the kernel finds on the image: [V] is the contents of the disk. *)
Record image_ok (V : Z → list Z) : Prop := mkImageOk {
  io_super : magic sb = FSMAGIC ∧ decode_sb (V 1) = sb;
  io_log : hdr_lists (V (logstart sb)) [];
  io_fs : fs_ok sb V [];
  io_map : ∀ b, 0 ≤ b < sbsize sb → in_use sb V b ↔ b < nmeta + used_blocks files;
  io_file : ∀ i p, paths !! i = Some p → let x := kinode V (2 + Z.of_nat i) in
    inode_ok sb V x ∧ dense V x ∧ itype x = T_FILE ∧ inlink x = 1 ∧ isize x = Z.of_nat (length (content host p)) ∧ slice V x 0 (isize x) = content host p;
  io_root : let x := kinode V ROOTINO in inode_ok sb V x ∧ itype x = T_DIR ∧ inlink x = 1 ∧ (dir_ok V x ↔ (2 + length paths) mod 64 ≠ 0)%nat;
  io_find : NoDup (key <$> names paths) → ∀ j nm n, names paths !! j = Some nm → numbers paths !! j = Some n → dir_find V (kinode V ROOTINO) (key nm) = Some n;
  io_only : ∀ k, k ∉ key <$> names paths → dir_find V (kinode V ROOTINO) k = None;
  io_apart : ∀ n m b, 1 ≤ n < 2 + Z.of_nat (length paths) → 1 ≤ m < 2 + Z.of_nat (length paths) → n ≠ m → owned V (kinode V n) b → ¬ owned V (kinode V m) b;
  io_unused : ∀ n, 0 ≤ n < ninodes sb → n = 0 ∨ 2 + Z.of_nat (length paths) ≤ n → itype (kinode V n) = 0;
}.

Section Sealed.
Variables s s' : mkst.
Notation V := (view (image s)).
Notation V' := (view (image s')).
Hypothesis Hfits : fits.
Hypothesis Hinv : mkinv s files.
Hypothesis Hseal : sealed s files s'.

Lemma length_files : length files = S (length paths).
Proof. unfold files. simpl. by rewrite length_fmap. Qed.
Lemma path_file i p : paths !! i = Some p → files !! S i = Some (T_FILE, content host p).
Proof. intros Hi. unfold files. simpl. by rewrite list_lookup_fmap, Hi. Qed.

Lemma sealed_meta b : 0 ≤ b < 33 → V' b = if decide (b = 1) then sb_block else zero_block.
Proof. intros Hb. rewrite (se_other _ _ _ Hseal) by lia. apply (mi_meta _ _ Hinv). by left. Qed.

Lemma sealed_file i p : paths !! i = Some p → let x := kinode V' (2 + Z.of_nat i) in
  inode_ok sb V' x ∧ dense V' x ∧ itype x = T_FILE ∧ inlink x = 1 ∧ isize x = Z.of_nat (length (content host p)) ∧ slice V' x 0 (isize x) = content host p.
Proof.
  intros Hi x. pose proof (path_file i p Hi) as Hf. assert (2 + Z.of_nat i = 1 + Z.of_nat (S i)) as En by lia. pose proof (ft_count Hfits) as Hc.
  destruct (image_fields s s' files (root_bytes paths) Hinv eq_refl Hseal Hc (S i) _ Hf) as (F1 & F2 & F3). rewrite <- En in *. fold x in F1, F2, F3. rewrite decide_False in F3 by lia. cbn [snd] in F3.
  assert (Z.of_nat (length (content host p)) ≤ MAXFILE * BSIZE) as Hsz by (apply (proj1 (list.Forall_lookup _ _) (ft_ok Hfits) i p Hi)).
  pose proof (image_layout s s' files Hinv Hseal Hc (S i) _ Hf) as Hly. pose proof (image_slice s s' files Hinv Hseal Hc (S i) _ 0 (isize x) Hf) as Hsl. rewrite <- En in *. fold x in Hly, Hsl. cbn [snd] in *.
  split_and!; [unfold x; rewrite En; by eapply image_inode_ok| |done|done|done|].
  - split; [lia|]. intros k Hk Hkb. apply (ly_alloc _ _ _ _ _ Hly); [split; [done|]; unfold BSIZE in *; lia|]. rewrite F3 in Hkb. by apply nblk_lt.
  - rewrite Hsl, F3 by lia. apply bytes_whole.
Qed.

Notation root := (kinode V' ROOTINO).

Lemma sealed_root_size : isize root = root_size (root_bytes paths) ∧ root_size (root_bytes paths) ≤ 4096.
Proof.
  destruct (image_fields s s' files (root_bytes paths) Hinv eq_refl Hseal (ft_count Hfits) 0 _ eq_refl) as (_ & _ & F3). change (1 + Z.of_nat 0) with ROOTINO in F3. rewrite decide_True in F3 by done.
  pose proof (root_fits Hfits). assert (0 ≤ Z.of_nat (length (root_bytes paths)) / BSIZE ≤ 3) as Hd.
  { split; [apply Z.div_pos; unfold BSIZE; lia|]. assert (Z.of_nat (length (root_bytes paths)) / BSIZE < 4); [|lia]. apply Z.div_lt_upper_bound; unfold BSIZE in *; lia. }
  assert (0 ≤ root_size (root_bytes paths) ≤ 4096) as Hr by (unfold root_size, BSIZE in *; lia). rewrite F3. split; [|lia]. unfold u32. apply wrap_small. lia.
Qed.

(* the rounded-up size covers blocks the directory does not have when its entries fill whole blocks *)
Lemma sealed_root_dense : dense V' root ↔ ((2 + length paths) mod 64 ≠ 0)%nat.
Proof.
  pose proof (image_layout s s' files Hinv Hseal (ft_count Hfits) 0 _ eq_refl) as Hly. change (1 + Z.of_nat 0) with ROOTINO in Hly. cbn [snd] in Hly.
  destruct sealed_root_size as [Es Hle]. pose proof (length_root_bytes paths) as Hl. set (n := (2 + length paths)%nat) in *. assert (file_block (Z.of_nat (n / 64))) as Hfb.
  { pose proof (root_fits Hfits). pose proof (Nat.div_mod n 64 ltac:(done)). unfold file_block. change MAXFILE with 268. lia. }
  assert (root_size (root_bytes paths) = (Z.of_nat (n / 64) + 1) * BSIZE) as Er.
  { unfold root_size. rewrite Hl. do 2 f_equal. rewrite Nat2Z.inj_mul, Nat2Z.inj_div. change BSIZE with (Z.of_nat 16 * Z.of_nat 64). apply Z.div_mul_cancel_l; done. }
  pose proof (Nat.div_mod n 64 ltac:(done)) as Ediv. pose proof (Nat.mod_upper_bound n 64 ltac:(done)) as Hmod. split.
  - intros [_ Hd] Hz. pose proof (Hd (Z.of_nat (n / 64)) ltac:(lia) ltac:(rewrite Es, Er; unfold BSIZE; lia)) as Ha. apply (ly_alloc _ _ _ _ _ Hly) in Ha; [|done]. apply nblk_lt in Ha. unfold BSIZE in Ha. lia.
  - intros Hz. split; [change MAXFILE with 268; rewrite Es, Er in *; unfold BSIZE in *; lia|]. intros k Hk Hkb. rewrite Es, Er in Hkb. unfold BSIZE in Hkb.
    apply (ly_alloc _ _ _ _ _ Hly); [unfold file_block in *; lia|]. apply nblk_lt. unfold BSIZE. lia.
Qed.

Lemma sealed_root : inode_ok sb V' root ∧ itype root = T_DIR ∧ inlink root = 1 ∧ (dir_ok V' root ↔ (2 + length paths) mod 64 ≠ 0)%nat.
Proof.
  pose proof (image_inode_ok s s' files Hinv Hseal (ft_count Hfits) 0 _ eq_refl) as H1.
  destruct (image_fields s s' files (root_bytes paths) Hinv eq_refl Hseal (ft_count Hfits) 0 _ eq_refl) as (F1 & F2 & _). split_and!; [exact H1|exact F1|exact F2|].
  rewrite <- sealed_root_dense. split; [by intros []|]. intros Hd. split; [done|exact F1|]. unfold nents. rewrite (proj1 sealed_root_size). unfold root_size, dirent_size, BSIZE.
  set (q := _ / 1024). replace ((q + 1) * 1024) with ((q + 1) * 64 * 16) by lia. by rewrite Z.div_mul.
Qed.

Lemma sealed_entries j : 0 ≤ j < nents root → dirent V' root j = (λ o, byte_at o (root_bytes paths)) <$> seqZ (j * 16) 16.
Proof.
  destruct sealed_root_size as [Es Hle]. unfold nents. rewrite Es. unfold dirent_size. intros Hj.
  assert (j * 16 + 16 ≤ 4096) by (pose proof (Z.mul_div_le (root_size (root_bytes paths)) 16 ltac:(done)); lia).
  apply (image_slice s s' files Hinv Hseal (ft_count Hfits) 0 _ (j * 16) 16 eq_refl); change MAXFILE with 268; unfold BSIZE; lia.
Qed.

Lemma sealed_few : Z.of_nat (length paths) ≤ 1000.
Proof. pose proof (ft_count Hfits) as H. rewrite length_files in H. unfold NINODES in H. lia. Qed.

Lemma sealed_apart n m b : 1 ≤ n < 2 + Z.of_nat (length paths) → 1 ≤ m < 2 + Z.of_nat (length paths) → n ≠ m → owned V' (kinode V' n) b → ¬ owned V' (kinode V' m) b.
Proof.
  intros Hn Hm Hne. pose proof (length_files) as Hl. replace n with (1 + Z.of_nat (Z.to_nat (n - 1))) by lia. replace m with (1 + Z.of_nat (Z.to_nat (m - 1))) by lia.
  destruct (lookup_lt_is_Some_2 files (Z.to_nat (n - 1))) as [f Hf]; [lia|]. destruct (lookup_lt_is_Some_2 files (Z.to_nat (m - 1))) as [g Hg]; [lia|].
  intros H1%(image_owned s s' files Hinv Hseal (ft_count Hfits) _ _ _ Hf) H2%(image_owned s s' files Hinv Hseal (ft_count Hfits) _ _ _ Hg).
  revert H1 H2. apply (mi_disj _ _ Hinv); lia.
Qed.

Lemma sealed_unused n : 0 ≤ n < ninodes sb → n = 0 ∨ 2 + Z.of_nat (length paths) ≤ n → itype (kinode V' n) = 0.
Proof.
  change (ninodes sb) with 200. intros Hn Hf. assert (is_ino n) as Hi by (unfold is_ino; lia). destruct (kinode_fields V' n) as (-> & _). rewrite (se_dino _ _ _ Hseal) by done.
  rewrite decide_False by lia. rewrite (mi_unused _ _ Hinv) by (done || rewrite length_files; lia). done.
Qed.

Lemma sb_block_decodes : decode_sb sb_block = sb.
Proof. vm_compute. reflexivity. Qed.
Lemma sealed_super : magic sb = FSMAGIC ∧ decode_sb (V' 1) = sb.
Proof. split; [done|]. rewrite sealed_meta, decide_True by lia. apply sb_block_decodes. Qed.
Lemma zero_header : hdr_lists zero_block [].
Proof. split; [vm_compute; reflexivity|]. intros t b Ht. by rewrite lookup_nil in Ht. Qed.
Lemma sealed_log : hdr_lists (V' (logstart sb)) [].
Proof. change (logstart sb) with 2. rewrite sealed_meta, decide_False by lia. apply zero_header. Qed.

Lemma sealed_image : image_ok V'.
Proof.
  pose proof (ft_count Hfits) as Hc. split.
  - exact sealed_super.
  - exact sealed_log.
  - by eapply image_fs_ok.
  - intros b Hb. by eapply image_in_use.
  - exact sealed_file.
  - exact sealed_root.
  - intros Hnd j nm n. exact (root_find V' root paths sealed_few (proj1 sealed_root_size) sealed_entries j nm n Hnd).
  - intros k. exact (root_find_none V' root paths sealed_few sealed_entries k).
  - exact sealed_apart.
  - exact sealed_unused.
Qed.
End Sealed.

Lemma run_image (m : M mkst unit) s (P : unit → mkst → Prop) : wp m s P →
  ∃ s', match m s with Ok _ s => Some (image s) | _ => None end = Some (image s') ∧ P tt s'.
Proof. unfold wp. destruct (m s) as [[] s'| | |]; try done. eauto. Qed.

Lemma mkfs_runs : fits → ∃ s s', mkfs host paths = Some (Mkfs.image s') ∧ mkinv s files ∧ sealed s files s'.
Proof. intros Hf. destruct (run_image _ _ _ (main_spec Hf)) as (s' & Em & s & Hi & Hs). exists s, s'. split_and!; [exact Em|exact Hi|exact Hs]. Qed.

(** C23 On every list of files that fits, mkfs returns an image of [FSSIZE]
    blocks on which the kernel finds a file system satisfying the invariants
    its own operations preserve: the superblock, an empty log, a free map that
    marks exactly the blocks in use, one inode per file holding the bytes of
    that file, blocks no two inodes share, free inodes for the rest, and a
    root directory with no other names than ., .. and those of the files, which
    maps each to its inode when no two of them are the same.  The root is
    well formed ([dir_ok]) when its entries do not fill whole blocks; when they
    do, its size covers one block that it does not have. *)
Theorem mkfs_builds : fits → ∃ img, mkfs host paths = Some img ∧ disk_ok img ∧ image_ok (view img).
Proof.
  intros Hf. destruct (mkfs_runs Hf) as (s & s' & Em & Hi & Hs). exists (Mkfs.image s'). split_and!; [exact Em|by eapply se_disk|by eapply sealed_image].
Qed.
End Whole.

(* user/_a, read in two pieces, and b *)
Definition ex_host (path : list Z) : option (list (list Z)) :=
  if decide (path = [117; 115; 101; 114; 47; 95; 97]) then Some [[1]; [2]] else if decide (path = [98]) then Some [[3; 4; 5]] else None.
Definition ex_paths : list (list Z) := [[117; 115; 101; 114; 47; 95; 97]; [98]].

Lemma ex_fits : fits ex_host ex_paths.
Proof.
  split; [|done|done]. unfold ex_paths. rewrite !list.Forall_cons. unfold file_ok.
  split_and!; [by eexists|by apply (bool_decide_unpack _)|done|done|by eexists|by apply (bool_decide_unpack _)|done|done|constructor].
Qed.
Lemma mkfs_builds_witness : ∃ img, mkfs ex_host ex_paths = Some img ∧ disk_ok img ∧ image_ok ex_host ex_paths (view img).
Proof. apply mkfs_builds, ex_fits. Defined.

(** ** The first boot

    fsinit (kernel/fs.c) on the disk that mkfs wrote. *)

Definition log_inited {S} `{HasHw S} (s : S) : S := with_hw (set_lock L_log (mkSpinlock false "log" None) (hw_of s)) s.

Section Boot.
Context {S : Type} `{HasFs S}.
Variables (me : nat) (mep : proc) (sleeplocks : list Z) (patience : nat) (bcache itable logaddr : Z).

Lemma lock_free_inited lk h : lock_free lk h → lock_free lk (set_lock L_log (mkSpinlock false "log" None) h).
Proof. intros [n Hn]. unfold lock_free. cbn [locks set_lock]. destruct (decide (lk = L_log)) as [->|]; [exists "log"; by rewrite lookup_insert_eq|exists n; by rewrite lookup_insert_ne]. Qed.

Lemma inited_env s0 : fs_env s0 me mep sleeplocks bcache → fs_env (log_inited s0) me mep sleeplocks bcache.
Proof.
  intros [[[Q1 Q2 Q3 Q4] B2 B3 B4 B5 B6] L]. unfold log_inited. split; [|done]. split; st_simpl; try done.
  - split; st_simpl; [exact Q1| | |done].
    + intros b Hb. by apply lock_free_inited, Q2.
    + intros j q Hj. by eapply lock_free_inited, Q3.
  - unfold hw_settle in *. destruct (hw_of s0) as [t c l]. unfold set_cpu, set_lock, mycpu in *. simpl in *. congruence.
  - intros lk Hlk. by apply lock_free_inited, B6.
Qed.

Section Read.
Variables (s0 : S) (f : fsst) (V : Z → list Z).
Hypothesis Henv : fs_env s0 me mep sleeplocks bcache.
Hypothesis Hb : bst mep bcache f V [] [].

Definition holding (f1 : fsst) (i : nat) (b : Z) : Prop := bst mep bcache f1 V [] [b] ∧ caches (metas f1) i b ∧ bio_frame bcache f f1 ∧ disk f1 = disk f.

Lemma open_spec {A} b (k : nat → buf → M S A) (Q : A → list lockid → fsst → Prop) :
  (∀ i x f1, data x = V b → holding f1 i b → fwp s0 [] (k i x) f1 Q) → fwp s0 [] (bp <- bread patience bcache 1 b ;; x <- buf_at bp ;; k bp x) f Q.
Proof.
  intros HQ. destruct Henv as [Hbase Hlocks]. apply fwp_bind. eapply fwp_mono; [eapply (bread_spec _ _ _ _ _ _ Hbase Hlocks f V [] [] b Hb); [set_solver|by right]|].
  intros i ? f1 (-> & Hb1 & Hi & Hf1 & Ed1 & _). eapply fwp_buf_held; [done|done|]. intros x Ex _. by apply HQ.
Qed.
Lemma close_spec i b f1 (Q : unit → list lockid → fsst → Prop) : holding f1 i b →
  (∀ f2, bst mep bcache f2 V [] [] → bio_frame bcache f f2 → disk f2 = disk f → Q tt [] f2) → fwp s0 [] (brelse bcache i) f1 Q.
Proof.
  intros (Hb1 & Hi & Hf1 & Ed1) HQ. destruct Henv as [Hbase Hlocks]. eapply (brelse_spec _ _ _ _ _ Hbase Hlocks f1 V [] [] [] i b); [exact Hb1|exact Hi| |].
  { right. rewrite Ed1. by apply (bst_idle _ _ _ _ _ _ _ Hb); set_solver. }
  intros f2 Hb2 Hf2 Ed2 _. apply HQ; [exact Hb2|by eapply bio_frame_trans|congruence].
Qed.

Lemma readsb_spec (Q : superblock → list lockid → fsst → Prop) :
  (∀ f', bst mep bcache f' V [] [] → bio_frame bcache f f' → disk f' = disk f → Q (decode_sb (V 1)) [] f') → fwp s0 [] (readsb patience bcache 1) f Q.
Proof.
  intros HQ. unfold readsb. apply open_spec. intros i x f1 Ex Hh. cbv zeta. apply fwp_bind. eapply close_spec; [done|]. intros f2 Hb2 Hf2 Hd2. apply fwp_ret. rewrite Ex. by apply HQ.
Qed.
End Read.

(* no inode on the disk is allocated and without a link *)
Definition no_orphans (V : Z → list Z) (s : superblock) : Prop :=
  ∀ n, 1 ≤ n < ninodes s → ¬ (di_type (doff n) (V (IBLOCK n s)) ≠ 0 ∧ di_nlink (doff n) (V (IBLOCK n s)) = 0).

Lemma ireclaim_spec s0 f V (Q : unit → list lockid → fsst → Prop) : fs_env s0 me mep sleeplocks bcache → bst mep bcache f V [] [] → no_orphans V (FsDefs.sb f) → 1 ≤ ninodes (FsDefs.sb f) →
  (∀ f', bst mep bcache f' V [] [] → bio_frame bcache f f' → disk f' = disk f → Q tt [] f') → fwp s0 [] (ireclaim patience bcache itable logaddr 1) f Q.
Proof.
  intros Henv Hb Hno Hpos HQ. unfold ireclaim, get_sb. apply fwp_bind, fwp_bind, fwp_get, fwp_ret.
  eapply fwp_mono; [apply (fwp_for_each _ [] _ (λ _ g, bst mep bcache g V [] [] ∧ bio_frame bcache f g ∧ disk g = disk f)); [done|]|].
  - intros n g Hn (Hg & Hfg & Hdg). eapply (open_spec s0 g V Henv Hg). intros i x f1 Ex Hh. cbv zeta. rewrite Ex, decide_False by (apply Hno; lia).
    apply fwp_bind, fwp_ret, fwp_bind. eapply (close_spec s0 g V Henv Hg); [done|]. intros f2 Hb2 Hf2 Hd2. apply fwp_ret. split_and!; [done|done|by eapply bio_frame_trans|congruence].
  - intros [] ? g [-> (Hg & Hfg & Hdg)]. by apply HQ.
Qed.

Lemma initlog_spec s0 f V : fs_env s0 me mep sleeplocks bcache → bst mep bcache f V [] [] → lh_n (log f) = 0 → length (lh_block (log f)) = Z.to_nat LOGBLOCKS → hdr_lists (V 2) [] →
  ∃ f', initlog patience bcache 1 sb (st s0 [] f) = Ok tt (st (log_inited s0) [] f') ∧ bst mep bcache f' (apply_writes [(2, put_header [] (V 2))] V) [] [] ∧
    logged 2 (log f') [] ∧ wrote [(2, put_header [] (V 2))] f f' ∧ same_tables f f'.
Proof.
  intros Henv Hb Hn Hl Hh. pose proof (inited_env s0 Henv) as [Hbase Hlocks]. set (f1 := set_log (set_ldev 1 (set_lstart 2 (log f))) f).
  assert (fwp (log_inited s0) [] (mod_log (set_lstart (i32 (logstart sb))) ;; mod_log (set_ldev 1) ;; recover_from_log patience bcache) f
    (λ _ held' f', held' = [] ∧ bst mep bcache f' (apply_writes (recover_writes 2 V []) V) [] [] ∧ logged 2 (log f') [] ∧ wrote (recover_writes 2 V []) f1 f' ∧ same_tables f1 f')) as ([] & held & f' & E & -> & Hb' & Hl' & Hw' & Ht').
  { unfold mod_log. apply fwp_bind, fwp_mod, fwp_bind, fwp_mod. change (set_log _ _) with f1.
    eapply (recover_spec _ _ _ _ _ _ Hbase Hlocks 2 f1 V [] []); [exact Hb| |exact Hh|by intros b ?%elem_of_nil|done|constructor|].
    - by split.
    - intros f' ????. done. }
  exists f'. split; [|by split_and!]. unfold initlog. rewrite (bind_ok _ _ _ tt (st s0 [] f)) by done. rewrite (bind_ok _ _ _ tt (st (log_inited s0) [] f)); [exact E|].
  unfold initlock, mod_hw, modify, log_inited, st. by st_simpl.
Qed.

Lemma fsinit_spec s0 f V : fs_env s0 me mep sleeplocks bcache → bst mep bcache f V [] [] → lh_n (log f) = 0 → length (lh_block (log f)) = Z.to_nat LOGBLOCKS →
  decode_sb (V 1) = sb → hdr_lists (V 2) [] → put_header [] (V 2) = V 2 → no_orphans V sb →
  ∃ f', fsinit patience bcache itable logaddr 1 (st s0 [] f) = Ok tt (st (log_inited s0) [] f') ∧ bst mep bcache f' V [] [] ∧
    logged 2 (log f') [] ∧ FsDefs.sb f' = sb ∧ inodes f' = inodes f ∧ FsDefs.files f' = FsDefs.files f ∧ wrote [(2, V 2)] f f'.
Proof.
  intros Henv Hb Hn Hl Hsb Hh Hz Hno.
  assert (fwp s0 [] (readsb patience bcache 1) f (λ s held' f1, s = sb ∧ held' = [] ∧ bst mep bcache f1 V [] [] ∧ bio_frame bcache f f1 ∧ disk f1 = disk f)) as (s & held & f1 & E1 & -> & -> & Hb1 & Hf1 & Hd1).
  { eapply readsb_spec; [done|done|]. intros f1 ???. by rewrite Hsb. }
  pose proof Hf1 as (A1 & A2 & A3 & A4 & _). destruct (initlog_spec s0 (set_sb sb f1) V Henv Hb1) as (f2 & E2 & Hb2 & Hl2 & Hw2 & Ht2); [cbn; congruence|cbn; congruence|done|].
  rewrite Hz in *. assert (bst mep bcache f2 V [] []) as Hb2' by (eapply bst_ext, Hb2; intros x; simpl; unfold img1; by case_decide; subst).
  assert (fwp (log_inited s0) [] (ireclaim patience bcache itable logaddr 1) f2 (λ _ held' f3, held' = [] ∧ bst mep bcache f3 V [] [] ∧ bio_frame bcache f2 f3 ∧ disk f3 = disk f2)) as ([] & held & f3 & E3 & -> & Hb3 & Hf3 & Hd3).
  { destruct Ht2 as (_ & _ & B3). cbn in B3. eapply ireclaim_spec; [by apply inited_env|done| | |]; rewrite ?B3; done. }
  exists f3. split.
  - unfold fsinit. rewrite (bind_ok _ _ _ _ _ E1). rewrite (bind_ok _ _ _ tt (st s0 [] (set_sb sb f1))) by (unfold mod_fs, modify; by rewrite fs_of_st, with_fs_st).
    rewrite decide_False by tauto. by rewrite (bind_ok _ _ _ _ _ E2).
  - destruct Hf3 as (C1 & C2 & C3 & C4 & _), Ht2 as (B1 & B2 & B3), Hw2 as [W1 W2]. cbn in *. split_and!; [done|congruence|congruence|congruence|congruence|].
    split; [rewrite Hd3, W1; by rewrite Hd1|]. intros x. rewrite Hd3, W2. simpl. by rewrite Hd1.
Qed.
End Boot.

Lemma logstart_sb : logstart sb = 2.
Proof. done. Qed.
Lemma header_again : put_header [] zero_block = zero_block.
Proof. vm_compute. reflexivity. Qed.
Lemma image_no_orphans host paths V : image_ok host paths V → no_orphans V sb.
Proof.
  intros Hio n Hn (Ht & Hl). change (itype (kinode V n) ≠ 0) in Ht. change (inlink (kinode V n) = 0) in Hl.
  destruct (decide (2 + Z.of_nat (length paths) ≤ n)); [apply Ht, (io_unused _ _ _ Hio); [lia|by right]|]. destruct (decide (n = 1)) as [->|].
  - destruct (io_root _ _ _ Hio) as (_ & _ & E & _). change ROOTINO with 1 in E. lia.
  - destruct (lookup_lt_is_Some_2 paths (Z.to_nat (n - 2))) as [p Hp]; [lia|]. destruct (io_file _ _ _ Hio _ p Hp) as (_ & _ & _ & E & _).
    replace (2 + Z.of_nat (Z.to_nat (n - 2))) with n in E by lia. lia.
Qed.

(** C22 The kernel accepts the disk that mkfs wrote.  At the first boot, with
    an empty cache in front of that disk, fsinit reads the superblock, finds
    its magic number, an empty log and no inode to reclaim, and returns with
    the superblock in place and the log ready; the only block it writes is the
    log header, with the bytes it had, so the file system is the one mkfs
    built. *)
Theorem first_boot {S} `{HasFs S} (s0 : S) me mep sleeplocks patience bcache itable logaddr host paths img f :
  fits host paths → mkfs host paths = Some img → fs_env s0 me mep sleeplocks bcache → bst mep bcache f (view img) [] [] →
  lh_n (log f) = 0 → length (lh_block (log f)) = Z.to_nat LOGBLOCKS →
  ∃ f', fsinit patience bcache itable logaddr 1 (st s0 [] f) = Ok tt (st (log_inited s0) [] f') ∧
    FsDefs.sb f' = sb ∧ logged (logstart sb) (log f') [] ∧ inodes f' = inodes f ∧ FsDefs.files f' = FsDefs.files f ∧
    bst mep bcache f' (view img) [] [] ∧ (∀ b, FsDefs.image (disk f') b = view img b) ∧ fs_ok (FsDefs.sb f') (view img) [].
Proof.
  intros Hf Em Henv Hb Hn Hl. destruct (mkfs_runs host paths Hf) as (s & s' & Em' & Hi & Hs). rewrite Em in Em'. apply (inj Some) in Em' as ->. clear Em.
  pose proof (sealed_image host paths s s' Hf Hi Hs) as Hio. pose proof (io_super _ _ _ Hio) as [_ Hsb]. pose proof (sealed_meta host paths s s' Hi Hs 2 ltac:(lia)) as E2. rewrite decide_False in E2 by lia.
  pose proof (io_log _ _ _ Hio) as Hlog. rewrite logstart_sb in *.
  destruct (fsinit_spec me mep sleeplocks patience bcache itable logaddr s0 f _ Henv Hb Hn Hl Hsb) as (f' & E & Hb' & Hl' & Hsb' & Hin & Hfi & Hw); [exact Hlog|rewrite E2; apply header_again|by eapply image_no_orphans|].
  exists f'. split_and!; [exact E|exact Hsb'|exact Hl'|exact Hin|exact Hfi|exact Hb'| |rewrite Hsb'; apply (io_fs _ _ _ Hio)].
  intros b. symmetry. by apply (bst_idle _ _ _ _ _ _ _ Hb'); set_solver.
Qed.

Lemma first_boot_witness : ∃ img f', mkfs ex_host ex_paths = Some img ∧ fsinit 0 ex_bcache ex_itable 0 1 (st ex_kst [] (ex_fs (view img))) = Ok tt (st (log_inited ex_kst) [] f') ∧ FsDefs.sb f' = sb.
Proof.
  destruct (mkfs_runs ex_host ex_paths ex_fits) as (s & s' & Em & _). exists (Mkfs.image s').
  destruct (first_boot ex_kst 1 ex_vm_proc ex_sleeplocks 0 ex_bcache ex_itable 0 ex_host ex_paths (Mkfs.image s') (ex_fs (view (Mkfs.image s'))) ex_fits Em ex_fs_env (ex_fs_bst _)) as (f' & E & Hsb & _); [done|done|].
  exists f'. split_and!; [exact Em|exact E|exact Hsb].
Defined.
